(* ===== verification/_CoqProject ===== *)
-Q . S2P
Prelude.v
Effects.v
GoLib.v
Regex.v
Digests.v
Version.v
UpgradePath.v
Member.v
Persistence.v
Astar.v
Api.v
Status.v
ServerGroups.v
Scheduler.v
NullScheduler.v
UpgradeOrder.v
RollingUpgrade.v
NodeStatus.v
StripeScheduler.v
Pods.v
Volumes.v
VolumesSpec.v
Machine.v
Rebalance.v
Baseline.v
Buckets.v
PreviousVersion.v
Claims.v
Admission.v
Controller.v
Creation.v
Recovery.v
PendingInit.v
Failover.v
Scaling.v
Unreconcilable.v
Collections.v
Rbac.v
Janitor.v
Autoscale.v
Upgrading.v
GroupSync.v
Sim.v
MachineSpec.v
BaselineSpec.v
ClaimsSpec.v
CreationSpec.v
PendingInitSpec.v
RebalanceSpec.v
MachineTypes.v
RecoverySpec.v
ScalingSpec.v
FailoverSpec.v
UpgradingSpec.v
CycleSpec.v
GroupSyncSpec.v
UnreconcilableSpec.v
CollectionsSpec.v
RbacSpec.v
JanitorSpec.v
AutoscaleSpec.v
Reschedule.v
RescheduleSpec.v
StripeSpec.v
Schedulers.v
Round.v
Watchdog.v
RoundSpec.v
WatchdogSpec.v
Migration.v
MigrationSpec.v
AdmissionSpec.v
ControllerSpec.v
