(* ===== verification/Prelude.v ===== *)
(** * The Couchbase operator

    A model of the decision making of the operator ([src/pkg]), and the theorems
    that make it correct.  The operator runs a loop per [CouchbaseCluster]: it reads
    the status of Couchbase and the pods, decides which members to add, remove,
    recreate, move or upgrade, and rebalances.  What it remembers from one round to
    the next is in marks on pods and volume claims and in one Kubernetes secret.

    ** The parts, and how they meet

    - [Prelude] (this file): errors, results, the state-and-error monad [M],
      [MapRange] (the order in which Go ranges over a map), lists and orders.
      [Effects]: the loops of handlers, two judgements, [keeps] (a relation
      between the states before and after) and [post] (triples), and [proc], computations
      cut into the steps at which goroutines interleave.  [GoLib]: the
      functions of [strings], [strconv] and [fmt] the code calls.  [Regex]: the
      matching of [regexp].
    - Versions, [pkg/util/couchbaseutil]: [Version] ([version.go], [helpers.go],
      [digests.go]), [Digests] (the table of [constants.go]), [UpgradePath]
      ([upgradepath.go]).
    - Members, [Member] ([pkg/util/couchbaseutil/member.go]): members and member
      sets, names of pods.
    - Storage, [Persistence] ([pkg/cluster/persistence], [retryutil], the pod index
      of [cluster.go]): a key-value store in a secret, refining an abstract store.
    - The resource, [Api] and [Status] ([pkg/apis/couchbase/v2]): the fields and
      helpers read here; the condition list and its setters.
    - The scheduler, [pkg/util/scheduler]: [ServerGroups] ([util.go]), [Scheduler]
      (the interface and its laws), [NullScheduler] ([null.go]), [StripeScheduler]
      and [Reschedule] ([stripe.go]), with [StripeSpec] and [RescheduleSpec], and
      [Schedulers] (which of the two a round takes); rescheduling runs [Astar]
      ([pkg/util/astar]).
    - Upgrades, [pkg/cluster]: [UpgradeOrder] ([upgrade.go]: change detection, order,
      candidates), [RollingUpgrade] (how many pods one step takes), [PreviousVersion]
      (which new pods start on the version before).
    - The reconcile machine, [pkg/cluster]: [NodeStatus] ([status.go]), [Pods] and
      [Volumes] ([k8sutil/pod_util.go], [pod.go]: marks on pods, volumes of members),
      [Machine] (what a round knows, [newReconcileMachine]), [Rebalance]
      ([rebalance.go], [handleRebalance] and the removal of pods), [Recovery] (members
      that are down or failed), [Scaling] ([handleRemoveNode], [handleAddNode] and
      the loop [exec]), [Failover] (a node taken out and brought back), [Upgrading]
      (the upgrade step and the other replacements of nodes; the whole list of [exec]).
    - Members and their pods, [pkg/cluster]: [Baseline] ([member.go], [pod.go]: who the
      members are, which version the cluster has), [Claims] ([k8sutil/pod_util.go]: the
      claims of a pod), [Creation] ([createPod], [createMembers]), [PendingInit] (pods
      that wait until their node is configured).
    - Around the cycle, [pkg/cluster]: [Round] ([cluster.go], [reconcile.go]: a round,
      hibernation, creation of a cluster, recovery of one without pods, readiness,
      status), [Migration] ([migration.go]: taking over an unmanaged cluster),
      [Autoscale] ([autoscalereconcile.go]), [Watchdog] ([mir_watchdog.go]: the states an
      administrator has to resolve), [GroupSync] ([server_groups.go]: the groups of
      Couchbase), [Collections] ([collections.go]), [Rbac] ([rbacreconcile.go]: users, groups,
      roles, LDAP), [Janitor] ([janitor.go]: resources nobody needs), [Unreconcilable]
      ([pkg/util/unreconcilable]: verdicts on resources), [Buckets] (what a bucket gets
      by default).
    - Events: [Admission] ([pkg/validator/v2]: which changes of a cluster are allowed)
      and [Controller] ([pkg/controller], [pkg/validationrunner]: the cluster in memory,
      and the object each round is made with).
    - The theorems of these are in the files of the same names with [Spec], in
      [MachineTypes], and in [CycleSpec] (of all the handlers of a cycle); [Sim] is a small platform on which the handlers are evaluated.

    ** State and effects

    A handler is a computation [M (RS W)]: the machine ([fsm]), the cluster object
    ([cl]), the world ([world]: whatever the platform is made of) and the trace of what
    was asked of the outside world.  State survives an error or a panic, as in Go.
    What is not the operator's is a class: [Platform] (the Kubernetes API, the
    informer cache, the clock, the REST API), [Kubernetes] (secrets), [PodSpecs]
    (pod specifications), [Environment] (environment variables); where a proof needs
    their documented behaviour it is a law class or a named hypothesis, and [Sim] or a
    concrete instance shows it can hold.  The components meet through interfaces:
    the handlers use [PersistentStorage] and [Scheduler], which [secret_storage]
    and the two schedulers implement; parts that are not modelled, or modelled in a
    later file, are arguments of the handlers that call them.  Objects that the code
    changes in place in the informer cache are changed in the world, before the API is
    asked and whether or not it agrees; but what an annotation says of a collection is
    computed at every use ([Populate], [Populate_again]).

    ** Iteration, fuel and bounds

    Go ranges over a map in any order.  [range pos m] is some permutation of the
    entries; [pos] names the place in the program, so that two loops may disagree, and
    theorems hold for every instance of [MapRange].  Loops that poll until a timeout take their number of
    rounds from the platform ([retry_ticks]): a context expires after finitely many
    ticks, and the loop then returns an error as the code does.  The stream of
    rebalance progress has no timeout in the code; its polls are [watch_polls], and
    running out is the error [ErrNoPolls], which no theorem takes for success; so is
    running out of the fuel a handler gives to the scheduler.  The search [AStar] takes fuel; [AStar_complete] shows how much is enough, and
    [Reschedule_converges] that the scheduler's states have it.  Integers of type
    [int] wrap at 64 bits where the code can reach that ([wrap64]).

    ** Theorems

    Each property of the library is marked with its claim: what a round knows and
    keeps (C1, C6), that pods and nodes are given up only when allowed (C2, C4), that
    scaling converges (C3), recoverability (C5), rounds, hibernation and waking (C7 to
    C10), autoscaling (C11), the watchdog (C12), migration (C13), the changes that are
    allowed and what the operator makes of events (C14 to C16), members and the recorded
    version (C17 to C19), claims, creation and initialisation of pods (C20 to C22), the
    scheduler (C23 to C25), upgrades (C26 to C29), server groups (C30), verdicts on
    resources (C31, C32), scopes and collections (C33), users and roles (C34, C35), the
    janitor (C36), versions (C37), storage (C38, C39) and search (C40).  Other theorems
    of the files ([CheckUpgradePath_decides], say) state what a part does on its own;
    lemmas and examples at the end of a file show behaviour that looks unintended.

    ** Not modelled

    The settings of Couchbase beyond topology, groups, users and collections (buckets,
    XDCR, TLS, encryption, backups, audit and logging, the settings reconcilers of
    [reconcile.go]): code that compares settings objects and writes them back.  The
    specifications of pods and services, which are object literals; the REST client; the
    rules for a single object ([CheckConstraints]), several hundred independent checks of
    fields; upgrades of the operator itself; command
    lines, support tools and generated code.  Logging, metrics and events change nothing
    that is read again and are dropped.  Concurrency: one round runs at a time;
    the goroutines that create the pods of a batch interleave, under any schedule, at every
    call of the API and every access to what they share ([goroutine_step] of [Creation], with
    [create_pod] as a [proc]); the goroutine that streams progress is run to its end, and a
    look of the watchdog is one step.  Caches that lag behind are part of the world; where a
    theorem needs one that does not, its law class or a hypothesis says so ([current] of
    [Persistence], [JanitorLaws]). *)

From stdpp Require Export base sorting gmap sets strings pretty numbers list.

#[export] Set Default Goal Selector "!".
#[export] Set Warnings "-clear-no-such-hyp".

(** ** Errors

    A Go error is modelled by the sentinel it wraps ([pkg/errors/error.go] and
    the package-level [Err...] variables); the message text is dropped. *)
Inductive error : Type :=
  | ErrResourceRequired
  | ErrResourceExists
  | ErrResourceAttributeRequired
  | ErrInternalError
  | ErrInvalidVersion
  | ErrUnsolvable
  | ErrKeyError
  | ErrPodNotFound
  | ErrNewPodsExceedAdditions
  | ErrOldImageNotFound
  | ErrClusterNoLongerCompatible
  | ErrServerClassNotFound
  | ErrRebalanceIncomplete
  | ErrReconcileInhibited
  | ErrMissingResource
  | ErrDuplicatedResource
  | ErrNoVolumeMounts
  | ErrConfigurationInvalid
  | ErrKubernetesError
  | ErrNodeNotAdded
  | ErrVolumeResizeError
  | ErrCouchbaseServerError
  | ErrDeadlineExceeded   (* of a context *)
  | ErrNodeNotInCluster
  | ErrNodeNotActive
  | ErrFailoverStartCounterNotIncremented
  | ErrFailoverSuccessCounterNotIncremented
  | ErrUnexpectedCounterChange
  | ErrSwapRebalanceSetupFailed
  | ErrNotFound   (* the Kubernetes API's *)
  | ErrAlreadyExists   (* the Kubernetes API's *)
  | ErrInvalidResourceName
  | ErrNoPolls   (* not of the code: the model ran out of polls or of fuel *)
  | ErrSyntax
  | ErrNoMatchingServerClass
  | ErrRollbackDuringMigration
  | ErrClusterVersionMismatch
  | ErrIndexStorageModeMismatch
  | ErrRemoteClusterUnbalanced
  | ErrExternal (code : nat).

#[export] Instance error_eq_dec : EqDecision error.
Proof. solve_decision. Defined.

(** The outcome of a Go call: a value, a returned error, or a run-time panic
    (index out of range, nil dereference). *)
Inductive result (A : Type) : Type :=
  | Ok (a : A)
  | Err (e : error)
  | Panic.
Arguments Ok {A} a.
Arguments Err {A} e.
Arguments Panic {A}.

#[export] Instance result_eq_dec {A} `{EqDecision A} : EqDecision (result A).
Proof. solve_decision. Defined.

#[export] Instance result_ret : MRet result := λ A a, Ok a.
#[export] Instance result_bind : MBind result := λ A B f m,
  match m with Ok a => f a | Err e => Err e | Panic => Panic end.
#[export] Instance result_fmap : FMap result := λ A B f m,
  match m with Ok a => Ok (f a) | Err e => Err e | Panic => Panic end.

Definition is_ok {A} (r : result A) : bool :=
  match r with Ok _ => true | _ => false end.

Definition is_panic {A} (r : result A) : bool :=
  match r with Panic => true | _ => false end.

(** A call that may change the state [S]: the state it leaves is there on every
    outcome, so a method that returns an error after a partial update keeps the
    update. *)
Definition M (S A : Type) : Type := S → result A * S.

#[export] Instance M_ret {S} : MRet (M S) := λ A a s, (Ok a, s).
#[export] Instance M_bind {S} : MBind (M S) := λ A B f m s,
  match m s with
  | (Ok a, s') => f a s'
  | (Err e, s') => (Err e, s')
  | (Panic, s') => (Panic, s')
  end.

Definition get {S} : M S S := λ s, (Ok s, s).
Definition put {S} (s : S) : M S () := λ _, (Ok tt, s).
Definition modify {S} (f : S → S) : M S () := λ s, (Ok tt, f s).
Definition throw {S A} (e : error) : M S A := λ s, (Err e, s).
Definition lift {S A} (r : result A) : M S A := λ s, (r, s).

(** [if err := m(); err != nil { ... }]: look at the error instead of
    returning it (a panic still unwinds). *)
Definition attempt {S A} (m : M S A) : M S (A + error) := λ s,
  match m s with
  | (Ok a, s') => (Ok (inl a), s')
  | (Err e, s') => (Ok (inr e), s')
  | (Panic, s') => (Panic, s')
  end.

(** ** Iterating over Go maps

    [for k, v := range m] visits every entry of [m] exactly once in an order
    the language leaves open, which may differ between two executions of the
    loop.  An instance fixes the order of every execution; the argument
    [list nat] tells the executions of one computation apart.  Theorems hold
    for every instance. *)
Class MapRange := {
  range {V : Type} : list nat → gmap string V → list (string * V);
  range_perm {V : Type} (pos : list nat) (m : gmap string V) :
    range pos m ≡ₚ map_to_list m;
}.

(** The order of [map_to_list], used to evaluate the model. *)
Program Definition canonical_range : MapRange :=
  {| range V pos m := map_to_list m |}.
Next Obligation. done. Qed.

(** Reverse order, to show that a result depends on the order. *)
Program Definition reverse_range : MapRange :=
  {| range V pos m := reverse (map_to_list m) |}.
Next Obligation. intros. apply reverse_Permutation. Qed.

(** ** Stable insertion sort ([sort.SliceStable], and [sort.Strings] and
    [sort.Slice] where the order is total on the elements). *)
Section stable_sort.
Context {A : Type} (leb : A → A → bool).

Fixpoint insert_sorted (x : A) (l : list A) : list A :=
  match l with
  | [] => [x]
  | y :: l' => if leb x y then x :: y :: l' else y :: insert_sorted x l'
  end.

Definition stable_sort (l : list A) : list A := foldr insert_sorted [] l.

Definition leb_rel (x y : A) : Prop := leb x y = true.

Lemma insert_sorted_perm x l : insert_sorted x l ≡ₚ x :: l.
Proof.
  induction l as [|y l IH]; simpl; [done|].
  destruct (leb x y); [done|]. rewrite IH. constructor.
Qed.

Lemma stable_sort_perm l : stable_sort l ≡ₚ l.
Proof.
  induction l as [|x l IH]; simpl; [done|].
  by rewrite insert_sorted_perm, IH.
Qed.

Lemma stable_sort_length l : length (stable_sort l) = length l.
Proof. by rewrite stable_sort_perm. Qed.

Lemma elem_of_stable_sort x l : x ∈ stable_sort l ↔ x ∈ l.
Proof. by rewrite stable_sort_perm. Qed.

Context (Htot : ∀ x y, leb x y = true ∨ leb y x = true).
Context (Htrans : ∀ x y z, leb x y = true → leb y z = true → leb x z = true).

Lemma insert_sorted_sorted x l :
  StronglySorted leb_rel l → StronglySorted leb_rel (insert_sorted x l).
Proof.
  induction 1 as [|y l Hl IH Hy]; simpl; [repeat constructor|].
  destruct (leb x y) eqn:E.
  - constructor; [by constructor|]. constructor; [done|].
    eapply Forall_impl; [exact Hy|]. intros z Hz. by eapply Htrans.
  - constructor; [done|]. rewrite insert_sorted_perm. constructor; [|done].
    destruct (Htot x y) as [?|?]; [congruence|done].
Qed.

Lemma stable_sort_sorted l : StronglySorted leb_rel (stable_sort l).
Proof. induction l; simpl; [constructor|]. by apply insert_sorted_sorted. Qed.

Context (Hanti : ∀ x y, leb x y = true → leb y x = true → x = y).

Lemma sorted_perm_unique l1 l2 :
  StronglySorted leb_rel l1 → StronglySorted leb_rel l2 → l1 ≡ₚ l2 → l1 = l2.
Proof.
  intros H1. revert l2. induction H1 as [|x l1 Hl1 IH Hx]; intros l2 H2 Hp.
  - symmetry. by apply Permutation_nil.
  - destruct H2 as [|y l2 Hl2 Hy]; [by apply Permutation_nil_r in Hp|].
    assert (x = y) as ->.
    { assert (x ∈ y :: l2) as Hx' by (rewrite <- Hp; constructor).
      assert (y ∈ x :: l1) as Hy' by (rewrite Hp; constructor).
      apply elem_of_cons in Hx' as [?|Hx']; [done|].
      apply elem_of_cons in Hy' as [->|Hy']; [done|].
      rewrite Forall_forall in Hx, Hy.
      apply Hanti; [exact (Hx _ Hy')|exact (Hy _ Hx')]. }
    f_equal. apply IH; [done|]. by eapply Permutation_cons_inv.
Qed.

Lemma stable_sort_proper l1 l2 : l1 ≡ₚ l2 → stable_sort l1 = stable_sort l2.
Proof.
  intros Hp. apply sorted_perm_unique; [apply stable_sort_sorted..|].
  by rewrite !stable_sort_perm.
Qed.
End stable_sort.

(** Sorting by a key that tells the elements of the list apart. *)
Lemma stable_sort_perm_on {A} (leb : A → A → bool) (l1 l2 : list A) :
  (∀ x y, leb x y = true ∨ leb y x = true) →
  (∀ x y z, leb x y = true → leb y z = true → leb x z = true) →
  (∀ x y, x ∈ l1 → y ∈ l1 → leb x y = true → leb y x = true → x = y) →
  l1 ≡ₚ l2 → stable_sort leb l1 = stable_sort leb l2.
Proof.
  intros Htot Htrans Hanti Hp.
  pose proof (stable_sort_sorted leb Htot Htrans l1) as S1.
  pose proof (stable_sort_sorted leb Htot Htrans l2) as S2.
  assert (stable_sort leb l1 ≡ₚ stable_sort leb l2) as Hs by (by rewrite !stable_sort_perm).
  assert (∀ x y, x ∈ stable_sort leb l1 → y ∈ stable_sort leb l1 →
    leb x y = true → leb y x = true → x = y) as Ha
    by (intros x y; rewrite !elem_of_stable_sort; apply Hanti).
  clear Hp Hanti Htot Htrans. revert Ha Hs S2. generalize (stable_sort leb l2).
  induction S1 as [|x k Hk IH Hx]; intros k2 Ha Hs S2.
  { symmetry. by apply Permutation_nil. }
  destruct S2 as [|y k2 Hk2 Hy]; [by apply Permutation_nil_r in Hs|].
  assert (x = y) as ->.
  { assert (x ∈ y :: k2) as Hx' by (rewrite <- Hs; by left).
    assert (y ∈ x :: k) as Hy' by (rewrite Hs; by left).
    apply elem_of_cons in Hx' as [?|Hx']; [done|]. apply elem_of_cons in Hy' as [->|Hy']; [done|].
    rewrite Forall_forall in Hx, Hy. apply Ha; [by left|by right|exact (Hx _ Hy')|exact (Hy _ Hx')]. }
  f_equal. apply IH; [|by eapply Permutation_cons_inv|done].
  intros a b Hin1 Hin2. apply Ha; by right.
Qed.

(** [sort.Strings]: ascending byte order. *)
Definition sort_Strings (l : list string) : list string :=
  stable_sort String.leb l.

Lemma string_leb_total x y : String.leb x y = true ∨ String.leb y x = true.
Proof. apply String.leb_total. Qed.

Lemma string_leb_trans x y z :
  String.leb x y = true → String.leb y z = true → String.leb x z = true.
Proof.
  pose proof (transitivity (R := String.le) (x := x) (y := y) (z := z)) as H.
  unfold String.le in H. intros Hxy Hyz.
  apply Is_true_eq_true, H; by apply Is_true_eq_left.
Qed.

Lemma string_leb_antisym x y :
  String.leb x y = true → String.leb y x = true → x = y.
Proof. apply String.leb_antisym. Qed.

Lemma sort_Strings_perm l : sort_Strings l ≡ₚ l.
Proof. apply stable_sort_perm. Qed.

Lemma sort_Strings_sorted l : StronglySorted (leb_rel String.leb) (sort_Strings l).
Proof.
  apply stable_sort_sorted; [exact string_leb_total|exact string_leb_trans].
Qed.

#[export] Instance sort_Strings_proper : Proper ((≡ₚ) ==> (=)) sort_Strings.
Proof.
  intros l1 l2 Hp. apply stable_sort_proper;
    eauto using string_leb_total, string_leb_trans, string_leb_antisym.
Qed.

Lemma StronglySorted_fmap {A B} (R : A → A → Prop) (S : B → B → Prop) (f : A → B) l :
  StronglySorted R l → (∀ x y, x ∈ l → y ∈ l → R x y → S (f x) (f y)) →
  StronglySorted S (f <$> l).
Proof.
  induction 1 as [|x l Hl IH Hx]; intros Hf; cbn [fmap list_fmap]; constructor.
  - apply IH. intros y z Hy Hz. apply Hf; by right.
  - rewrite Forall_fmap. rewrite Forall_forall in *. intros y Hy.
    apply Hf; [by left|by right|by apply Hx].
Qed.

Lemma StronglySorted_snoc {A} (R : A → A → Prop) l x :
  StronglySorted R (l ++ [x]) → ∀ y, y ∈ l → R y x.
Proof.
  induction l as [|z l IH]; intros Hs y Hy; [by apply not_elem_of_nil in Hy|].
  simpl in Hs. apply StronglySorted_inv in Hs as [Hs Hz]. rewrite Forall_forall in Hz.
  apply elem_of_cons in Hy as [->|Hy]; [|by apply IH].
  apply Hz, elem_of_app. right. by left.
Qed.

(** ** Sets *)
Lemma size_union_le (X Y : gset string) : size (X ∪ Y) ≤ size X + size Y.
Proof.
  rewrite size_union_alt. pose proof (subseteq_size (Y ∖ X) Y ltac:(set_solver)). lia.
Qed.

Lemma size_list_to_set_le (l : list string) : size (list_to_set l : gset string) ≤ length l.
Proof.
  induction l as [|x l IH]; [done|]. cbn [list_to_set length].
  pose proof (size_union_le {[x]} (list_to_set l)) as Hle. rewrite size_singleton in Hle. lia.
Qed.

(** ** Filtering *)
Lemma filter_all {A} (P : A → Prop) `{∀ x, Decision (P x)} (l : list A) :
  (∀ x, x ∈ l → P x) → filter P l = l.
Proof.
  induction l as [|x l IH]; intros Hl; [done|]. rewrite filter_cons_True by (apply Hl; by left).
  f_equal. apply IH. intros y Hy. apply Hl. by right.
Qed.

Lemma filter_none {A} (P : A → Prop) `{∀ x, Decision (P x)} (l : list A) :
  (∀ x, x ∈ l → ¬ P x) → filter P l = [].
Proof.
  induction l as [|x l IH]; intros Hl; [done|].
  rewrite filter_cons_False by (apply Hl; constructor). apply IH. intros y Hy. apply Hl. by constructor.
Qed.

Lemma filter_fmap_ext {A B} (f : A → B) (P : B → Prop) (Q : A → Prop)
    `{∀ x, Decision (P x), ∀ x, Decision (Q x)} (l : list A) :
  (∀ x, x ∈ l → P (f x) ↔ Q x) → filter P (f <$> l) = f <$> filter Q l.
Proof.
  induction l as [|x l IH]; intros Hl; [done|]. rewrite fmap_cons, !filter_cons.
  assert (filter P (f <$> l) = f <$> filter Q l) as Heq
    by (apply IH; intros y Hy; apply Hl; by constructor).
  assert (P (f x) ↔ Q x) as Hx by (apply Hl; constructor).
  repeat case_decide; rewrite ?fmap_cons, ?Heq; tauto || done.
Qed.

Lemma filter_bool_perm {A} (f : A → bool) (l : list A) :
  filter (λ x, f x = false) l ++ filter (λ x, f x = true) l ≡ₚ l.
Proof.
  induction l as [|x l IH]; [done|]. rewrite !filter_cons.
  destruct (f x); simpl; [|by rewrite IH]. by rewrite <- Permutation_middle, IH.
Qed.

(** ** Maps *)
Lemma insert_is_Some_iff {V} (m : gmap string V) i j x :
  is_Some (<[i := x]> m !! j) ↔ j = i ∨ is_Some (m !! j).
Proof.
  rewrite lookup_insert_is_Some. destruct (decide (i = j)) as [->|Hne].
  - split; by left.
  - split; [intros [?|[_ ?]]; [congruence|by right]|intros [->|?]; [done|by right]].
Qed.
