(* ===== verification/Effects.v ===== *)
(** * Computations with effects: loops and their logic

    The monad [M] of the prelude with the loops the handlers of [pkg/cluster]
    use, and two judgements about it: [keeps R m] relates the state before [m]
    to the one after, on every outcome; [post P m Q] is the partial-state
    triple, where [Q] sees the outcome as well.  Then [proc]: computations that are run
    step by step, for goroutines. *)

From S2P Require Import Prelude.

(** [for _, x := range l { if err := f(x); err != nil { return err } }] *)
Fixpoint for_each {S A} (f : A → M S ()) (l : list A) : M S () :=
  match l with
  | [] => mret tt
  | x :: l => f x;; for_each f l
  end.

(** [if err := m(); err != nil { log }]: an error is logged and dropped. *)
Definition ignore_error {S A} (m : M S A) : M S () :=
  _ ← attempt m; mret tt.

(** The loop that gathers a value. *)
Fixpoint for_fold {S A B} (f : B → A → M S B) (acc : B) (l : list A) : M S B :=
  match l with
  | [] => mret acc
  | x :: l => acc ← f acc x; for_fold f acc l
  end.

(** A loop whose body may return from the function: [true] when it did. *)
Fixpoint for_until {S A} (f : A → M S bool) (l : list A) : M S bool :=
  match l with
  | [] => mret false
  | x :: l => stop ← f x; if stop : bool then mret true else for_until f l
  end.

(** Run [m] on the part [get] of a larger state. *)
Definition zoom {S T A} (get : S → T) (put : T → S → S) (m : M T A) : M S A := λ s,
  let '(r, t) := m (get s) in (r, put t s).

(** [defer f()]: [f] runs on every outcome. *)
Definition finally {S A} (m : M S A) (f : S → S) : M S A := λ s,
  let '(r, s') := m s in (r, f s').

Definition gets {S A} (f : S → A) : M S A := λ s, (Ok (f s), s).

Section logic.
Context {S : Type}.
Implicit Types (R : relation S).

Definition keeps R {A} (m : M S A) : Prop := ∀ s, R s (m s).2.

Definition post {A} (P : S → Prop) (m : M S A) (Q : result A → S → Prop) : Prop :=
  ∀ s, P s → Q (m s).1 (m s).2.

Lemma keeps_ret R `{!Reflexive R} {A} (a : A) : keeps R (mret a).
Proof. by intros s. Qed.

Lemma keeps_gets R `{!Reflexive R} {A} (f : S → A) : keeps R (gets f).
Proof. by intros s. Qed.

Lemma keeps_get R `{!Reflexive R} : keeps R get.
Proof. by intros s. Qed.

Lemma keeps_throw R `{!Reflexive R} {A} e : keeps R (throw e : M S A).
Proof. by intros s. Qed.

Lemma keeps_lift R `{!Reflexive R} {A} (r : result A) : keeps R (lift r).
Proof. by intros s. Qed.

Lemma keeps_bind R `{!Transitive R} {A B} (m : M S A) (f : A → M S B) :
  keeps R m → (∀ a, keeps R (f a)) → keeps R (m ≫= f).
Proof.
  intros Hm Hf s. unfold mbind, M_bind. pose proof (Hm s) as Hs.
  destruct (m s) as [[a|e|] s']; [|exact Hs..]. etrans; [exact Hs|apply Hf].
Qed.

Lemma keeps_attempt R {A} (m : M S A) : keeps R m → keeps R (attempt m).
Proof. intros Hm s. specialize (Hm s). unfold attempt. by destruct (m s) as [[]]. Qed.

Lemma keeps_ignore R `{!PreOrder R} {A} (m : M S A) : keeps R m → keeps R (ignore_error m).
Proof. intros Hm. apply keeps_bind; [apply _|by apply keeps_attempt|]. intros a. apply keeps_ret, _. Qed.

Lemma keeps_for_each R `{!PreOrder R} {A} (f : A → M S ()) (l : list A) :
  (∀ x, x ∈ l → keeps R (f x)) → keeps R (for_each f l).
Proof.
  induction l as [|x l IH]; intros Hf; simpl; [apply keeps_ret, _|].
  apply keeps_bind; [apply _|apply Hf; by left|]. intros _. apply IH. intros y Hy. apply Hf. by right.
Qed.

Lemma keeps_for_until R `{!PreOrder R} {A} (f : A → M S bool) (l : list A) :
  (∀ x, x ∈ l → keeps R (f x)) → keeps R (for_until f l).
Proof.
  induction l as [|x l IH]; intros Hf; simpl; [apply keeps_ret, _|].
  apply keeps_bind; [apply _|apply Hf; by left|]. intros [].
  - apply keeps_ret, _.
  - apply IH. intros y Hy. apply Hf. by right.
Qed.

Lemma keeps_for_fold R `{!PreOrder R} {A B} (f : B → A → M S B) (l : list A) : ∀ acc,
  (∀ acc x, x ∈ l → keeps R (f acc x)) → keeps R (for_fold f acc l).
Proof.
  induction l as [|x l IH]; intros acc Hf; simpl; [apply keeps_ret, _|].
  apply keeps_bind; [apply _|apply Hf; by left|]. intros b. apply IH. intros c y Hy. apply Hf. by right.
Qed.

Lemma keeps_run R {A} (m : M S A) s r s' : keeps R m → m s = (r, s') → R s s'.
Proof. intros Hm Hrun. specialize (Hm s). by rewrite Hrun in Hm. Qed.

Lemma keeps_modify R (f : S → S) : (∀ s, R s (f s)) → keeps R (modify f).
Proof. intros Hf s. apply Hf. Qed.

Lemma keeps_finally R `{!Transitive R} {A} (m : M S A) (f : S → S) :
  keeps R m → (∀ s, R s (f s)) → keeps R (finally m f).
Proof. intros Hm Hf s. specialize (Hm s). unfold finally. destruct (m s). by etrans. Qed.

Lemma keeps_weaken R R' {A} (m : M S A) : keeps R m → (∀ s s', R s s' → R' s s') → keeps R' m.
Proof. intros Hm Hr s. apply Hr, Hm. Qed.

(** A property of the state after [m], then [f]. *)
Lemma bind_state {A B} (P : S → Prop) (m : M S A) (f : A → M S B) s :
  P (m s).2 → (∀ a s', m s = (Ok a, s') → P s' → P (f a s').2) → P ((m ≫= f) s).2.
Proof. unfold mbind, M_bind. destruct (m s) as [[a|e|] s']; simpl; auto. Qed.

(** [Ok] ends with [Q], anything else with [E]. *)
Lemma post_bind {A B} P (m : M S A) (f : A → M S B) (Q : A → S → Prop) (T : result B → S → Prop) :
  (∀ s, P s → match m s with (Ok a, s') => Q a s' | (Err e, s') => T (Err e) s'
                           | (Panic, s') => T Panic s' end) →
  (∀ a, post (Q a) (f a) T) → post P (m ≫= f) T.
Proof.
  intros Hm Hf s Hs. unfold mbind, M_bind. specialize (Hm s Hs).
  destruct (m s) as [[a|e|] s']; [by apply Hf|done..].
Qed.

Lemma post_keeps R {A} (m : M S A) s0 : keeps R m → post (λ s, s = s0) m (λ _ s, R s0 s).
Proof. intros Hm s ->. apply Hm. Qed.
End logic.

Lemma keeps_zoom {S T A} (get : S → T) (put : T → S → S) (R : relation S) (m : M T A) :
  (∀ s t, R s (put t s)) → keeps R (zoom get put m).
Proof. intros HR s. unfold zoom. destruct (m (get s)) as [r t]. apply HR. Qed.

(** Taking a successful run apart. *)
Lemma bind_ok {S A B} (m : M S A) (f : A → M S B) s b s' :
  (m ≫= f) s = (Ok b, s') ↔ ∃ a s1, m s = (Ok a, s1) ∧ f a s1 = (Ok b, s').
Proof.
  unfold mbind, M_bind. destruct (m s) as [[a|e|] s1]; split.
  - intros Hf. by exists a, s1.
  - by intros (a'&s2&[= -> ->]&Hf).
  - done.
  - by intros (?&?&?&_).
  - done.
  - by intros (?&?&?&_).
Qed.

Lemma run_bind {S A B} (m : M S A) (f : A → M S B) s a s' : m s = (Ok a, s') → (m ≫= f) s = f a s'.
Proof. unfold mbind, M_bind. by intros ->. Qed.

(** A loop that ends well, by an invariant over what is done. *)
Lemma for_fold_invariant {S A B} (f : B → A → M S B) (I : list A → B → S → Prop) (l : list A) acc s acc' s' :
  (∀ d x k a1 s1 a2 s2, l = d ++ x :: k → I d a1 s1 → f a1 x s1 = (Ok a2, s2) → I (d ++ [x]) a2 s2) →
  I [] acc s → for_fold f acc l s = (Ok acc', s') → I l acc' s'.
Proof.
  intros Hstep. assert (∀ k d acc s, l = d ++ k → I d acc s → for_fold f acc k s = (Ok acc', s') → I l acc' s') as Hall.
  { induction k as [|x k IH]; intros d a1 s1 -> Hd; simpl.
    - intros [= <- <-]. by rewrite app_nil_r.
    - intros (a2&s2&Hx&Hr)%bind_ok. apply (IH (d ++ [x]) a2 s2); [by rewrite <- app_assoc| |done]. by eapply Hstep. }
  by apply (Hall l []).
Qed.

Lemma for_each_fold {S A} (f : A → M S ()) (l : list A) s :
  for_each f l s = for_fold (λ _, f) tt l s.
Proof.
  revert s. induction l as [|x l IH]; intros s; [done|]. simpl. unfold mbind, M_bind.
  by destruct (f x s) as [[[]|e|] s1].
Qed.

Lemma for_each_invariant {S A} (f : A → M S ()) (I : list A → S → Prop) (l : list A) s s' :
  (∀ d x k s1 s2, l = d ++ x :: k → I d s1 → f x s1 = (Ok tt, s2) → I (d ++ [x]) s2) →
  I [] s → for_each f l s = (Ok tt, s') → I l s'.
Proof.
  intros Hstep HI. rewrite for_each_fold. apply (for_fold_invariant (λ _, f) (λ d _, I d)); [|done].
  intros d x k [] s1 [] s2. apply Hstep.
Qed.

(** Runs the first step of the goal, which succeeds by [H]. *)
Ltac run H := rewrite (run_bind _ _ _ _ _ H).

Ltac inv_ok H :=
  let a := fresh "a" in let s := fresh "s" in let H1 := fresh H in
  apply bind_ok in H as (a & s & H1 & H).

(** ** Computations in steps

    What a goroutine runs: between two steps of one computation, others may change the
    state. *)
#[local] Set Warnings "-register-all".

Inductive proc (S A : Type) : Type :=
  | Done (r : result A)
  | Step (f : S → proc S A * S).
Arguments Done {S A} r.
Arguments Step {S A} f.

Definition atom {S A} (m : M S A) : proc S A := Step (λ s, let '(r, s') := m s in (Done r, s')).

Section proc_bind.
Context {S A B : Type} (k : A → proc S B).
Fixpoint proc_bind_with (p : proc S A) : proc S B :=
  match p with
  | Done (Ok a) => k a
  | Done (Err e) => Done (Err e)
  | Done Panic => Done Panic
  | Step f => Step (λ s, let '(p', s') := f s in (proc_bind_with p', s'))
  end.
End proc_bind.

#[export] Instance proc_ret {S} : MRet (proc S) := λ A a, Done (Ok a).
#[export] Instance proc_bind {S} : MBind (proc S) := λ A B k p, proc_bind_with k p.

Fixpoint proc_attempt {S A} (p : proc S A) : proc S (A + error) :=
  match p with
  | Done (Ok a) => Done (Ok (inl a))
  | Done (Err e) => Done (Ok (inr e))
  | Done Panic => Done Panic
  | Step f => Step (λ s, let '(p', s') := f s in (proc_attempt p', s'))
  end.

Fixpoint proc_each {S A} (f : A → proc S ()) (l : list A) : proc S () :=
  match l with
  | [] => mret tt
  | x :: l => f x;; proc_each f l
  end.

(** Each try and each tick is a step. *)
Fixpoint proc_retry {S A} (n : nat) (tick : S → S) (callback : proc S A) : proc S A :=
  r ← proc_attempt callback;
  match r with
  | inl a => mret a
  | inr e => match n with
             | O => Done (Err e)
             | Datatypes.S n => atom (modify tick);; proc_retry n tick callback
             end
  end.

(** Steps on a part of a larger state. *)
Fixpoint proc_zoom {S T A} (get : S → T) (put : T → S → S) (p : proc T A) : proc S A :=
  match p with
  | Done r => Done r
  | Step f => Step (λ s, let '(p', t) := f (get s) in (proc_zoom get put p', put t s))
  end.

(** All the steps, and nobody else's in between. *)
Fixpoint run_proc {S A} (p : proc S A) : M S A :=
  match p with
  | Done r => λ s, (r, s)
  | Step f => λ s, let '(p', s') := f s in run_proc p' s'
  end.

Section proc_logic.
Context {S : Type}.
Implicit Types (R : relation S).

Fixpoint proc_keeps R {A} (p : proc S A) : Prop :=
  match p with
  | Done _ => True
  | Step f => ∀ s, let '(p', s') := f s in R s s' ∧ proc_keeps R p'
  end.

Lemma proc_keeps_step R {A} (f : S → proc S A * S) s p' s' :
  proc_keeps R (Step f) → f s = (p', s') → R s s' ∧ proc_keeps R p'.
Proof. intros Hf Hs. specialize (Hf s). by rewrite Hs in Hf. Qed.

Lemma proc_keeps_atom R {A} (m : M S A) : keeps R m → proc_keeps R (atom m).
Proof. intros Hm s. specialize (Hm s). destruct (m s). by split. Qed.

Lemma proc_keeps_bind R {A B} (p : proc S A) (k : A → proc S B) :
  proc_keeps R p → (∀ a, proc_keeps R (k a)) → proc_keeps R (p ≫= k).
Proof.
  intros Hp Hk. revert Hp. unfold mbind, proc_bind. revert p.
  fix IH 1. intros [[a|e|]|f]; simpl; [done..|].
  intros Hf s. specialize (Hf s). destruct (f s) as [p' s']. destruct Hf as [Hs Hp]. split; [done|by apply IH].
Qed.

Lemma proc_keeps_attempt R {A} (p : proc S A) : proc_keeps R p → proc_keeps R (proc_attempt p).
Proof.
  revert p. fix IH 1. intros [[a|e|]|f]; simpl; [done..|].
  intros Hf s. specialize (Hf s). destruct (f s) as [p' s']. destruct Hf as [Hs Hp]. split; [done|by apply IH].
Qed.

Lemma proc_keeps_each R {A} (f : A → proc S ()) l : (∀ x, proc_keeps R (f x)) → proc_keeps R (proc_each f l).
Proof. intros Hf. induction l as [|x l IH]; [done|]. by apply proc_keeps_bind. Qed.

Lemma proc_keeps_zoom R {T A} get (put : T → S → S) (p : proc T A) :
  (∀ s t, R s (put t s)) → proc_keeps R (proc_zoom get put p).
Proof.
  intros HR. revert p. fix IH 1. intros [r|f]; simpl; [done|]. intros s. destruct (f (get s)) as [p' t]. by split.
Qed.

(** To run on to the end is so many steps. *)
Inductive proc_steps {A} : nat → proc S A → S → proc S A → S → Prop :=
  | proc_steps_O p s : proc_steps 0 p s p s
  | proc_steps_S n f s p' s' p'' s'' :
      f s = (p', s') → proc_steps n p' s' p'' s'' → proc_steps (Datatypes.S n) (Step f) s p'' s''.

Lemma run_proc_steps {A} (p : proc S A) : ∀ s, ∃ n, proc_steps n p s (Done (run_proc p s).1) (run_proc p s).2.
Proof.
  revert p. fix IH 1. intros [r|f] s; simpl; [exists 0%nat; constructor|].
  destruct (f s) as [p' s'] eqn:E. destruct (IH p' s') as [n Hn]. exists (Datatypes.S n). by econstructor.
Qed.
End proc_logic.

Create HintDb keeps.
#[export] Hint Resolve keeps_ret keeps_gets keeps_throw keeps_lift keeps_bind keeps_attempt keeps_ignore
  keeps_for_each keeps_for_fold : keeps.

(** Walks through a computation down to its atoms. *)
Ltac keeps_tac :=
  repeat (intros; match goal with
  | |- keeps _ (mret _) => apply keeps_ret, _
  | |- keeps _ (gets _) => apply keeps_gets, _
  | |- keeps _ get => apply keeps_get, _
  | |- keeps _ (throw _) => apply keeps_throw, _
  | |- keeps _ (lift _) => apply keeps_lift, _
  | |- keeps _ (_ ≫= _) => apply keeps_bind; [apply _| |]
  | |- keeps _ (ignore_error _) => apply keeps_ignore; [apply _|]
  | |- keeps _ (attempt _) => apply keeps_attempt
  | |- keeps _ (finally _ _) => apply keeps_finally; [apply _| |]
  | |- keeps _ (for_each _ _) => apply keeps_for_each; [apply _|]
  | |- keeps _ (for_until _ _) => apply keeps_for_until; [apply _|]
  | |- keeps _ (for_fold _ _ _) => apply keeps_for_fold; [apply _|]
  | |- keeps _ (if ?b then _ else _) => destruct b
  | |- keeps _ (match ?x with _ => _ end) => destruct x
  | |- keeps _ _ => solve [auto with keeps]
  end).
