(* ===== verification/GoLib.v ===== *)
(** * The parts of Go and its standard library the operator uses

    [strings] ([Split], [Cut], [Contains], [HasPrefix], [Join]), [strconv]
    ([Itoa], [Atoi]), [fmt]'s %04d and the 64-bit [int], on byte strings. *)

From Stdlib Require Import Ascii.
From S2P Require Import Prelude.
Import list.
Local Open Scope Z_scope.

(** ** int (64 bits) *)
Definition MaxInt : Z := 2 ^ 63 - 1.
Definition MinInt : Z := - 2 ^ 63.

(** [int64(x)] for an unsigned 64-bit [x]. *)
Definition int64_of_uint64 (x : Z) : Z :=
  if bool_decide (x < 2 ^ 63) then x else x - 2 ^ 64.

(** ** strings *)
Definition strings_HasPrefix (s prefix : string) : bool := String.prefix prefix s.

Fixpoint string_drop (n : nat) (s : string) : string :=
  match n, s with
  | O, _ => s
  | S n', EmptyString => EmptyString
  | S n', String _ s' => string_drop n' s'
  end.

(** [strings.Cut]: the text before and after the first [sep], and whether it
    was found. *)
Fixpoint strings_Cut (s sep : string) : string * string * bool :=
  if String.prefix sep s then (EmptyString, string_drop (String.length sep) s, true)
  else match s with
       | EmptyString => (EmptyString, EmptyString, false)
       | String c s' =>
           match strings_Cut s' sep with
           | (before, after, true) => (String c before, after, true)
           | _ => (s, EmptyString, false)
           end
       end.

Definition strings_Contains (s sub : string) : bool := (strings_Cut s sub).2.

(** [strings.Split] with a one-byte separator. *)
Fixpoint strings_Split (s : string) (sep : ascii) : list string :=
  match s with
  | EmptyString => [EmptyString]
  | String c s' =>
      if bool_decide (c = sep) then EmptyString :: strings_Split s' sep
      else match strings_Split s' sep with
           | h :: t => String c h :: t
           | [] => [String c EmptyString]
           end
  end.

Fixpoint strings_Join (l : list string) (sep : string) : string :=
  match l with
  | [] => EmptyString
  | [s] => s
  | s :: l' => s +:+ sep +:+ strings_Join l' sep
  end.

(** Bytes of a string. *)
Fixpoint string_bytes (s : string) : list ascii :=
  match s with EmptyString => [] | String c s' => c :: string_bytes s' end.

Fixpoint string_of_bytes (l : list ascii) : string :=
  match l with [] => EmptyString | c :: l' => String c (string_of_bytes l') end.

(** [s] has no byte [c]. *)
Definition no_byte (c : ascii) (s : string) : Prop := c ∉ string_bytes s.
#[export] Instance no_byte_dec c s : Decision (no_byte c s).
Proof. apply _. Defined.

(** ** strconv *)
Definition digit_val (c : ascii) : option Z :=
  let n := Z.of_nat (Ascii.nat_of_ascii c) in
  if bool_decide (48 ≤ n ≤ 57) then Some (n - 48) else None.

Fixpoint parse_digits (acc : Z) (s : string) : option Z :=
  match s with
  | EmptyString => Some acc
  | String c s' => d ← digit_val c; parse_digits (10 * acc + d) s'
  end.

(** [strconv.Atoi]: the value and the error it returns; out of range the value
    is the nearest int. *)
Definition strconv_Atoi (s : string) : Z * option error :=
  let unsigned t neg :=
    match t with
    | EmptyString => (0, Some ErrSyntax)
    | _ => match parse_digits 0 t with
           | None => (0, Some ErrSyntax)
           | Some n =>
               let v : Z := if neg : bool then - n else n in
               if bool_decide (MaxInt < v) then (MaxInt, Some ErrSyntax)
               else if bool_decide (v < MinInt) then (MinInt, Some ErrSyntax)
               else (v, None)
           end
    end in
  match s with
  | String c t =>
      if bool_decide (c = "-"%char) then unsigned t true
      else if bool_decide (c = "+"%char) then unsigned t false
      else unsigned s false
  | EmptyString => (0, Some ErrSyntax)
  end.

Definition Atoi (s : string) : result Z :=
  match strconv_Atoi s with
  | (n, None) => Ok n
  | (_, Some e) => Err e
  end.

Definition strconv_Itoa (n : Z) : string := pretty n.

Fixpoint zeros (n : nat) : string :=
  match n with O => EmptyString | S n' => String "0" (zeros n') end.

(** [fmt.Sprintf("%04d", n)]. *)
Definition fmt_04d (n : Z) : string :=
  let digits := pretty (Z.to_N (Z.abs n)) in
  if bool_decide (n < 0) then "-" +:+ zeros (3 - String.length digits) +:+ digits
  else zeros (4 - String.length digits) +:+ digits.

(** ** Lemmas *)
Lemma append_nil_r s : s +:+ EmptyString = s.
Proof. induction s; [done|]. unfold String.append; fold String.append. by f_equal. Qed.

Lemma append_assoc s1 s2 s3 : (s1 +:+ s2) +:+ s3 = s1 +:+ (s2 +:+ s3).
Proof. induction s1; [done|]. unfold String.append; fold String.append. by f_equal. Qed.

Lemma append_cons c s t : String c s +:+ t = String c (s +:+ t).
Proof. done. Qed.

Lemma append_nil_l s : EmptyString +:+ s = s.
Proof. done. Qed.

Lemma HasPrefix_append s t : strings_HasPrefix (s +:+ t) s = true.
Proof.
  unfold strings_HasPrefix. induction s as [|c s IH]; [by destruct t|].
  rewrite append_cons. simpl. by destruct (Ascii.ascii_dec c c).
Qed.

Lemma HasPrefix_app_l p s t : strings_HasPrefix (p +:+ s) (p +:+ t) = strings_HasPrefix s t.
Proof.
  unfold strings_HasPrefix. induction p as [|c p IH]; [done|].
  rewrite !append_cons. simpl. by destruct (Ascii.ascii_dec c c).
Qed.

Lemma append_length s t :
  String.length (s +:+ t) = (String.length s + String.length t)%nat.
Proof. induction s; [done|]. rewrite append_cons. simpl. by f_equal. Qed.

Lemma append_inj_l s t t' : s +:+ t = s +:+ t' → t = t'.
Proof.
  induction s as [|c s IH]; [done|]. rewrite !append_cons.
  intros H. injection H. exact IH.
Qed.

Lemma string_bytes_app s t : string_bytes (s +:+ t) = string_bytes s ++ string_bytes t.
Proof. induction s as [|c s IH]; [done|]. rewrite append_cons. simpl. by f_equal. Qed.

Lemma string_bytes_inj s t : string_bytes s = string_bytes t → s = t.
Proof. revert t. induction s; intros [|]; simpl; intros; simplify_eq; f_equal; auto. Qed.

Lemma prefix_app p s : String.prefix p (p +:+ s) = true.
Proof.
  induction p as [|c p IH]; [by destruct s|].
  rewrite append_cons. simpl. by destruct (Ascii.ascii_dec c c).
Qed.

Lemma prefix_spec p s : String.prefix p s = true ↔ ∃ t, s = p +:+ t.
Proof.
  split; [|intros [t ->]; apply prefix_app].
  revert s. induction p as [|c p IH]; intros s; [by exists s|].
  destruct s as [|d s]; simpl; [done|].
  destruct (Ascii.ascii_dec c d) as [->|]; [|done].
  intros [t ->]%IH. by exists t.
Qed.

Lemma HasPrefix_spec s p : strings_HasPrefix s p = true ↔ ∃ t, s = p +:+ t.
Proof. apply prefix_spec. Qed.

Lemma string_drop_app p s : string_drop (String.length p) (p +:+ s) = s.
Proof. induction p as [|c p IH]; [done|]. rewrite append_cons. exact IH. Qed.

Lemma strings_Cut_here s sep :
  String.prefix sep s = true →
  strings_Cut s sep = (EmptyString, string_drop (String.length sep) s, true).
Proof. intros Hp. destruct s; unfold strings_Cut; by rewrite Hp. Qed.

Lemma strings_Cut_skip c s sep :
  String.prefix sep (String c s) = false →
  strings_Cut (String c s) sep =
    match strings_Cut s sep with
    | (before, after, true) => (String c before, after, true)
    | _ => (String c s, EmptyString, false)
    end.
Proof. intros Hp. unfold strings_Cut; fold strings_Cut. by rewrite Hp. Qed.

(** [strings.Cut] finds a separator whose first byte does not occur before. *)
Lemma strings_Cut_found s c sep t :
  no_byte c s →
  strings_Cut (s +:+ String c sep +:+ t) (String c sep) = (s, t, true).
Proof.
  induction s as [|d s IH]; intros Hn.
  - rewrite append_nil_l, strings_Cut_here by apply prefix_app.
    by rewrite string_drop_app.
  - assert (c ≠ d) by (intros ->; apply Hn; unfold no_byte; simpl; constructor).
    rewrite append_cons, strings_Cut_skip.
    { rewrite IH; [done|]. intros Hs. apply Hn. simpl. by constructor. }
    simpl. by destruct (Ascii.ascii_dec c d).
Qed.

Lemma strings_Split_not_nil s sep : strings_Split s sep ≠ [].
Proof.
  destruct s; simpl; [done|]. case_bool_decide; [done|]. by case_match.
Qed.

Lemma strings_Split_no_sep s sep : no_byte sep s → strings_Split s sep = [s].
Proof.
  induction s as [|c s IH]; simpl; intros Hn; [done|]. unfold no_byte in *; simpl in *.
  rewrite bool_decide_eq_false_2 by (intros ->; apply Hn; constructor).
  rewrite IH; [done|]. intros ?. apply Hn. by constructor.
Qed.

Lemma strings_Split_app s sep t :
  no_byte sep s → strings_Split (s +:+ String sep t) sep = s :: strings_Split t sep.
Proof.
  induction s as [|c s IH]; intros Hn.
  - rewrite append_nil_l. simpl. by rewrite bool_decide_eq_true_2.
  - rewrite append_cons. simpl. unfold no_byte in *; simpl in *.
    rewrite bool_decide_eq_false_2 by (intros ->; apply Hn; constructor).
    rewrite IH; [done|]. intros ?. apply Hn. by constructor.
Qed.

(** Splitting a joined list gives the list back. *)
Lemma strings_Split_Join l sep :
  l ≠ [] → Forall (no_byte sep) l →
  strings_Split (strings_Join l (String sep EmptyString)) sep = l.
Proof.
  intros Hne. induction l as [|s l IH]; [done|]. intros [Hs Hl]%Forall_cons.
  destruct l as [|s' l]; [by apply strings_Split_no_sep|].
  change (strings_Join (s :: s' :: l) (String sep EmptyString))
    with (s +:+ String sep EmptyString +:+ strings_Join (s' :: l) (String sep EmptyString)).
  rewrite append_cons, append_nil_l, strings_Split_app by done.
  f_equal. by apply IH.
Qed.

(** ** Decimal numbers *)
Lemma digit_val_pretty_N_char x :
  (x < 10)%N → digit_val (pretty_N_char x) = Some (Z.of_N x).
Proof.
  intros Hx. assert (x ∈ [0; 1; 2; 3; 4; 5; 6; 7; 8; 9]%N) as H.
  { rewrite !elem_of_cons. lia. }
  rewrite !elem_of_cons, elem_of_nil in H.
  destruct_or?; subst; (reflexivity || done).
Qed.

Lemma parse_digits_pretty_go (x : N) (s : string) :
  parse_digits 0 (pretty_N_go x s) = parse_digits (Z.of_N x) s.
Proof.
  revert s. induction (N.lt_wf_0 x) as [x _ IH]; intros s.
  destruct (decide (x = 0)%N) as [->|Hx]; [done|].
  rewrite pretty_N_go_step by lia.
  rewrite IH by (apply N.div_lt; lia). simpl.
  rewrite digit_val_pretty_N_char by (apply N.mod_lt; lia). simpl. f_equal.
  pose proof (N.div_mod x 10). lia.
Qed.

Lemma parse_digits_pretty (x : N) : parse_digits 0 (pretty x) = Some (Z.of_N x).
Proof.
  unfold pretty, pretty_N. case_decide as Hx; [by subst|].
  by rewrite parse_digits_pretty_go.
Qed.

Lemma parse_digits_zeros n s : parse_digits 0 (zeros n +:+ s) = parse_digits 0 s.
Proof. induction n as [|n IH]; [done|]. simpl zeros. rewrite append_cons. simpl. exact IH. Qed.

(** A text that parses as digits and starts with no sign is what [Atoi] says. *)
Lemma Atoi_digits s n :
  s ≠ EmptyString → parse_digits 0 s = Some n → 0 ≤ n ≤ MaxInt → Atoi s = Ok n.
Proof.
  intros Hne Hp Hn. unfold Atoi, strconv_Atoi.
  destruct s as [|c s]; [done|].
  assert (c ≠ "-"%char ∧ c ≠ "+"%char) as [Hm Hpl].
  { split; intros ->; by simpl in Hp. }
  rewrite !bool_decide_eq_false_2 by done. cbv zeta. rewrite Hp. simpl.
  unfold MinInt, MaxInt in *. rewrite !bool_decide_eq_false_2 by lia. done.
Qed.

Lemma pretty_N_ne (x : N) : pretty x ≠ EmptyString.
Proof.
  intros Hx. pose proof (parse_digits_pretty x) as H. rewrite Hx in H. simpl in H.
  injection H as H. assert (x = 0%N) as -> by lia. done.
Qed.

Lemma Atoi_Itoa n : 0 ≤ n ≤ MaxInt → Atoi (strconv_Itoa n) = Ok n.
Proof.
  intros Hn. unfold strconv_Itoa. destruct n as [|p|p]; [reflexivity| |lia].
  apply Atoi_digits; [apply (pretty_N_ne (Npos p))|exact (parse_digits_pretty (Npos p))|lia].
Qed.

(** ** Machine arithmetic *)

(** The 64-bit two's complement value of an integer. *)
Definition wrap64 (z : Z) : Z := (z + 2 ^ 63) mod 2 ^ 64 - 2 ^ 63.
Arguments wrap64 : simpl never.

Lemma wrap64_id z : MinInt ≤ z ≤ MaxInt → wrap64 z = z.
Proof.
  unfold wrap64, MinInt, MaxInt. intros Hz. rewrite Z.mod_small by lia. lia.
Qed.

Lemma wrap64_range z : MinInt ≤ wrap64 z ≤ MaxInt.
Proof.
  unfold wrap64, MinInt, MaxInt. pose proof (Z.mod_pos_bound (z + 2 ^ 63) (2 ^ 64)). lia.
Qed.

(** ** math/rand

    The generators are only used through their documented behaviour: [Shuffle]
    permutes, [Intn n] is below [n]; the result of [Shuffle] is a function of
    the seed, the top-level [Intn] is not, so its calls are told apart by an
    argument. *)
Class MathRand := {
  rand_Shuffle : Z → list string → list string;
  rand_Shuffle_perm seed l : rand_Shuffle seed l ≡ₚ l;
  rand_Intn : list nat → nat → nat;
  rand_Intn_lt call n : (0 < n)%nat → (rand_Intn call n < n)%nat;
}.

(** A generator that leaves slices alone and always draws 0. *)
Program Definition fixed_rand : MathRand :=
  {| rand_Shuffle seed l := l; rand_Intn call n := 0%nat |}.
Next Obligation. done. Qed.
Next Obligation. done. Qed.

(** ** os.LookupEnv *)
Class Environment := os_LookupEnv : string → option string.

(** ** encoding/json

    The text of a string, as [json.Marshal] writes it: quotes, backslashes and
    control bytes are escaped, so are [<], [>] and [&], U+2028 and U+2029, and
    bytes that are not UTF-8 become U+FFFD. *)
Definition byte_of (c : ascii) : Z := Z.of_nat (Ascii.nat_of_ascii c).

Definition quote : ascii := "034"%char.
Definition backslash : ascii := "092"%char.

(** The length of the UTF-8 encoded rune a byte sequence starts with, 0 when it
    is not valid ([utf8.DecodeRuneInString] answers a one-byte error rune). *)
Definition utf8_len (l : list Z) : nat :=
  let between (lo x hi : Z) := bool_decide (lo ≤ x ∧ x ≤ hi) in
  let cont x := between 128 x 191 in
  match l with
  | b0 :: l =>
      if between 0 b0 127 then 1%nat
      else if between 194 b0 223 then
        match l with b1 :: _ => if cont b1 then 2%nat else 0%nat | _ => 0%nat end
      else if between 224 b0 239 then
        match l with
        | b1 :: b2 :: _ =>
            let lo := if bool_decide (b0 = 224) then 160 else 128 in
            let hi := if bool_decide (b0 = 237) then 159 else 191 in
            if between lo b1 hi && cont b2 then 3%nat else 0%nat
        | _ => 0%nat
        end
      else if between 240 b0 244 then
        match l with
        | b1 :: b2 :: b3 :: _ =>
            let lo := if bool_decide (b0 = 240) then 144 else 128 in
            let hi := if bool_decide (b0 = 244) then 143 else 191 in
            if between lo b1 hi && cont b2 && cont b3 then 4%nat else 0%nat
        | _ => 0%nat
        end
      else 0%nat
  | [] => 0%nat
  end.

Definition hex_digit (n : Z) : ascii :=
  Ascii.ascii_of_nat (Z.to_nat (if bool_decide (n < 10) then 48 + n else 87 + n)).

(** An ASCII byte, escaped. *)
Definition json_byte (c : ascii) : list ascii :=
  let b := byte_of c in
  if bool_decide (c = quote) || bool_decide (c = backslash) then [backslash; c]
  else if bool_decide (b = 8) then [backslash; "b"%char]
  else if bool_decide (b = 12) then [backslash; "f"%char]
  else if bool_decide (b = 10) then [backslash; "n"%char]
  else if bool_decide (b = 13) then [backslash; "r"%char]
  else if bool_decide (b = 9) then [backslash; "t"%char]
  else if bool_decide (b < 32) || bool_decide (c = "<"%char) || bool_decide (c = ">"%char)
          || bool_decide (c = "&"%char)
  then [backslash; "u"; "0"; "0"; hex_digit (b / 16); hex_digit (b mod 16)]%char
  else [c].

(** [skip] bytes of a rune that was already handled are next; they are copied
    when [copy] is set. *)
Fixpoint json_escape (skip : nat) (copy : bool) (l : list ascii) : list ascii :=
  match l with
  | [] => []
  | c :: l' =>
      match skip with
      | S skip' => (if copy then [c] else []) ++ json_escape skip' copy l'
      | O =>
          if bool_decide (byte_of c < 128) then json_byte c ++ json_escape 0 true l'
          else match utf8_len (byte_of <$> l) with
          | O => backslash :: ["u"; "f"; "f"; "f"; "d"]%char ++ json_escape 0 true l'
          | S n =>
              match byte_of <$> firstn 3 l with
              | [226; 128; 168] => backslash :: ["u"; "2"; "0"; "2"; "8"]%char ++ json_escape n false l'
              | [226; 128; 169] => backslash :: ["u"; "2"; "0"; "2"; "9"]%char ++ json_escape n false l'
              | _ => c :: json_escape n true l'
              end
          end
      end
  end.

Definition json_string (s : string) : string :=
  String quote (string_of_bytes (json_escape 0 true (string_bytes s)) +:+ String quote EmptyString).

Definition json_bool (b : bool) : string := if b then "true" else "false".

(** A JSON object: keys and the text of their values, in the given order. *)
Fixpoint json_fields (l : list (string * string)) : string :=
  match l with
  | [] => ""
  | [(k, v)] => json_string k +:+ ":" +:+ v
  | (k, v) :: l' => json_string k +:+ ":" +:+ v +:+ "," +:+ json_fields l'
  end.
Definition json_object (l : list (string * string)) : string :=
  "{" +:+ json_fields l +:+ "}".

(** The keys of a map in the order [json.Marshal] writes them. *)
Definition sorted_keys {V} (m : gmap string V) : list string :=
  sort_Strings (map_to_list m).*1.

Example json_string_plain : json_string "zone-a" = String quote ("zone-a" +:+ String quote "").
Proof. reflexivity. Qed.

(** ** net.ParseIP

    Whether a text is an address: [netip.ParseAddr] on the first dot, colon or
    percent sign, without a zone. *)
Definition is_dec (c : ascii) : bool := bool_decide (48 ≤ byte_of c ≤ 57).

Definition hex_val (c : ascii) : option Z :=
  let n := byte_of c in
  if bool_decide (48 ≤ n ≤ 57) then Some (n - 48)
  else if bool_decide (97 ≤ n ≤ 102) then Some (n - 87)
  else if bool_decide (65 ≤ n ≤ 70) then Some (n - 55)
  else None.

(** [parseIPv4Fields]: [first] says no byte of the field was read, [pos] counts
    the fields closed, [digLen] and [val] are those of the open field. *)
Fixpoint ipv4_fields (first : bool) (prev_dot : bool) (pos digLen val : Z) (l : list ascii) : bool :=
  match l with
  | [] => bool_decide (pos = 3)
  | c :: l' =>
      if is_dec c then
        if bool_decide (digLen = 1 ∧ val = 0) then false
        else
          let val := val * 10 + (byte_of c - 48) in
          if bool_decide (255 < val) then false
          else ipv4_fields false false pos (digLen + 1) val l'
      else if bool_decide (c = "."%char) then
        if first || bool_decide (l' = []) || prev_dot then false
        else if bool_decide (pos = 3) then false
        else ipv4_fields false true (pos + 1) 0 0 l'
      else false
  end.

(** The hexadecimal digits a group starts with, or [None] when there are more
    than four. *)
Fixpoint hex_group (off : nat) (l : list ascii) : option (nat * list ascii) :=
  match l with
  | c :: l' =>
      match hex_val c with
      | Some _ => if (3 <? off)%nat then None else hex_group (S off) l'
      | None => Some (off, l)
      end
  | [] => Some (off, [])
  end.

(** The loop of [parseIPv6]: at most eight groups, [i] bytes are written. *)
Fixpoint ipv6_groups (fuel : nat) (i : Z) (ellipsis : bool) (s : list ascii) : bool :=
  let finish i ellipsis s :=
    bool_decide (s = []) &&
    (if bool_decide (i < 16) then ellipsis else negb ellipsis) in
  match fuel with
  | O => finish i ellipsis s
  | S fuel =>
      match hex_group 0 s with
      | None | Some (O, _) => false
      | Some (S _, rest) =>
          match rest with
          | c :: rest' =>
              if bool_decide (c = "."%char) then
                if negb ellipsis && bool_decide (i ≠ 12) then false
                else if bool_decide (16 < i + 4) then false
                else ipv4_fields true false 0 0 0 s && finish (i + 4) ellipsis []
              else
                let i := i + 2 in
                if bool_decide (c ≠ ":"%char) then false
                else match rest' with
                | [] => false
                | c' :: rest'' =>
                    if bool_decide (c' = ":"%char) then
                      if ellipsis then false
                      else if bool_decide (rest'' = []) then finish i true []
                      else ipv6_groups fuel i true rest''
                    else ipv6_groups fuel i ellipsis rest'
                end
          | [] => finish (i + 2) ellipsis []
          end
      end
  end.

Definition parse_ipv6 (l : list ascii) : bool :=
  match l with
  | c1 :: c2 :: l' =>
      if bool_decide (c1 = ":"%char ∧ c2 = ":"%char) then
        if bool_decide (l' = []) then true else ipv6_groups 8 0 true l'
      else ipv6_groups 8 0 false l
  | _ => ipv6_groups 8 0 false l
  end.

(** [net.ParseIP(s) != nil]; an address with a zone is refused. *)
Definition net_ParseIP (s : string) : bool :=
  let l := string_bytes s in
  match list_find (λ c, c = "."%char ∨ c = ":"%char ∨ c = "%"%char) l with
  | Some (_, c) =>
      if bool_decide (c = "."%char) then ipv4_fields true false 0 0 0 l
      else if bool_decide (c = ":"%char) then
        if bool_decide ("%"%char ∈ l) then false else parse_ipv6 l
      else false
  | None => false
  end.

Example net_ParseIP_examples :
  map net_ParseIP
    ["10.0.0.1"; "10.0.0.256"; "10.0.0"; "10.01.0.1"; "::"; "::1"; "fe80::1"; "fe80::1%eth0";
     "1:2:3:4:5:6:7:8"; "1:2:3:4:5:6:7"; "1:2:3:4:5:6:7::"; "1::2::3"; "::ffff:10.0.0.1";
     "cb-0000"; "12345::"; "1:2:3:4:5:6:7:8::"; "1:2:3:4:5:6:1.2.3.4"; "1:"] =
  [true; false; false; false; true; true; true; false;
   true; false; true; false; true; false; false; false; true; false].
Proof. reflexivity. Qed.
