(* ===== verification/Regex.v ===== *)
(** * regexp: the matcher behind [regexp.MustCompile] in the version code

    Patterns are syntax trees, matching is backtracking with the leftmost-first
    preference of Go's [regexp]: alternatives and greedy repetitions are tried in
    order and the first that lets the rest of the pattern match wins.  A captured
    group is the text it matched; a group that took no part is absent. *)

From Stdlib Require Import Ascii.
From S2P Require Import Prelude GoLib.

Inductive regex :=
  | RChar (p : ascii → bool)
  | RSeq (r1 r2 : regex)
  | ROpt (r : regex)
  | RStar (r : regex)
  | RGroup (n : nat) (r : regex)
  | REnd
  | REps.

Definition captures : Type := list (nat * list ascii).

(** The part of [s] before its suffix [s']. *)
Definition consumed (s s' : list ascii) : list ascii := firstn (length s - length s') s.

Fixpoint rmatch (r : regex) (s : list ascii) (c : captures)
    (k : list ascii → captures → option captures) : option captures :=
  match r with
  | RChar p => match s with
               | x :: s' => if p x then k s' c else None
               | [] => None
               end
  | RSeq r1 r2 => rmatch r1 s c (λ s' c', rmatch r2 s' c' k)
  | ROpt r1 => match rmatch r1 s c k with
               | Some x => Some x
               | None => k s c
               end
  | RStar r1 =>
      (fix loop (n : nat) (s : list ascii) (c : captures) : option captures :=
         match n with
         | O => k s c
         | S n' =>
             match rmatch r1 s c (λ s' c',
               if (length s' =? length s)%nat then None else loop n' s' c') with
             | Some x => Some x
             | None => k s c
             end
         end) (length s) s c
  | RGroup n r1 => rmatch r1 s c (λ s' c', k s' ((n, consumed s s') :: c'))
  | REnd => match s with [] => k s c | _ => None end
  | REps => k s c
  end.

(** A pattern anchored by [^]. *)
Definition match_prefix (r : regex) (s : string) : option captures :=
  rmatch r (string_bytes s) [] (λ _ c, Some c).

(** An unanchored search: the leftmost match. *)
Fixpoint search_from (r : regex) (s : list ascii) : option captures :=
  match rmatch r s [] (λ _ c, Some c) with
  | Some c => Some c
  | None => match s with [] => None | _ :: s' => search_from r s' end
  end.
Definition match_search (r : regex) (s : string) : option captures :=
  search_from r (string_bytes s).

(** [matches[n]]: the empty string for a group that did not take part. *)
Definition group (n : nat) (c : captures) : string :=
  match list_find (λ e, e.1 = n) c with
  | Some (_, (_, t)) => string_of_bytes t
  | None => EmptyString
  end.

(** ** Character classes *)
Definition in_range (lo hi : nat) (x : ascii) : bool :=
  let n := Ascii.nat_of_ascii x in (lo <=? n)%nat && (n <=? hi)%nat.

Definition is_digit : ascii → bool := in_range 48 57.
Definition is_word (x : ascii) : bool :=
  is_digit x || in_range 65 90 x || in_range 97 122 x || bool_decide (x = "_"%char).
Definition is_hex (x : ascii) : bool :=
  is_digit x || in_range 65 70 x || in_range 97 102 x.
Definition newline : ascii := "010"%char.
Definition is_dot (x : ascii) : bool := negb (bool_decide (x = newline)).
Definition is_space (x : ascii) : bool :=
  existsb (λ y, bool_decide (x = y)) [" "%char; "009"%char; newline; "012"%char; "013"%char].
Definition is_char (y x : ascii) : bool := bool_decide (x = y).

Definition RPlus (r : regex) : regex := RSeq r (RStar r).
Definition RLit (y : ascii) : regex := RChar (is_char y).
Fixpoint RText (s : string) : regex :=
  match s with EmptyString => REps | String c s' => RSeq (RLit c) (RText s') end.
Fixpoint RRepeat (n : nat) (r : regex) : regex :=
  match n with O => REps | S n' => RSeq r (RRepeat n' r) end.
Fixpoint RSeqs (rs : list regex) : regex :=
  match rs with [] => REps | [r] => r | r :: rs' => RSeq r (RSeqs rs') end.

(** ** Greedy repetition of a character class *)
Section star.
Context (p : ascii → bool).

(** [loop] of [RStar (RChar p)] with any bound that is long enough. *)
Fixpoint star_loop (k : list ascii → captures → option captures) (n : nat)
    (s : list ascii) (c : captures) : option captures :=
  match n with
  | O => k s c
  | S n' =>
      match rmatch (RChar p) s c (λ s' c',
        if (length s' =? length s)%nat then None else star_loop k n' s' c') with
      | Some x => Some x
      | None => k s c
      end
  end.

Lemma rmatch_star s c k : rmatch (RStar (RChar p)) s c k = star_loop k (length s) s c.
Proof.
  cbn [rmatch]. generalize (length s) as n. intros n. revert s c.
  induction n as [|n IH]; intros s c; [done|].
  cbn [star_loop rmatch]. destruct s as [|x s]; [done|]. destruct (p x); [|done].
  destruct (length s =? length (x :: s))%nat; [done|]. by rewrite IH.
Qed.

Lemma star_loop_cons k n x s c :
  star_loop k (S n) (x :: s) c =
    match (if p x then star_loop k n s c else None) with
    | Some r => Some r
    | None => k (x :: s) c
    end.
Proof.
  simpl. destruct (p x); [|done]. simpl.
  destruct (Nat.eqb_spec (length s) (S (length s))); [lia|done].
Qed.

(** The longest run is tried first. *)
Lemma star_greedy l s c k r :
  Forall (λ x, p x = true) l →
  match s with x :: _ => p x = false | [] => True end →
  k s c = Some r →
  rmatch (RStar (RChar p)) (l ++ s) c k = Some r.
Proof.
  intros Hl Hs Hk. rewrite rmatch_star.
  assert (length (l ++ s) = length l + length s) as -> by apply length_app.
  induction Hl as [|x l Hx Hl IH].
  - simpl. destruct s as [|y s]; [done|]. simpl length. rewrite star_loop_cons, Hs. done.
  - simpl length. simpl app. cbn [Nat.add]. rewrite star_loop_cons, Hx, IH. done.
Qed.

(** When the continuation fails on every suffix, so does the repetition. *)
Lemma star_fail l s c k :
  Forall (λ x, p x = true) l →
  match s with x :: _ => p x = false | [] => True end →
  (∀ l1 l2, l = l1 ++ l2 → k (l2 ++ s) c = None) →
  rmatch (RStar (RChar p)) (l ++ s) c k = None.
Proof.
  intros Hl Hs Hk. rewrite rmatch_star.
  assert (length (l ++ s) = length l + length s) as -> by apply length_app.
  induction Hl as [|x l Hx Hl IH].
  - simpl. pose proof (Hk [] [] eq_refl) as Hk0. simpl in Hk0.
    destruct s as [|y s]; [done|]. simpl length. rewrite star_loop_cons, Hs. done.
  - simpl length. simpl app. cbn [Nat.add]. rewrite star_loop_cons, Hx, IH.
    + exact (Hk [] (x :: l) eq_refl).
    + intros l1 l2 ->. by apply (Hk (x :: l1)).
Qed.

Lemma plus_greedy x l s c k r :
  Forall (λ x, p x = true) (x :: l) →
  match s with x :: _ => p x = false | [] => True end →
  k s c = Some r →
  rmatch (RPlus (RChar p)) ((x :: l) ++ s) c k = Some r.
Proof.
  intros [Hx Hl]%Forall_cons Hs Hk. unfold RPlus. cbn [rmatch app]. rewrite Hx.
  by apply star_greedy.
Qed.

Lemma plus_fail x l s c k :
  Forall (λ x, p x = true) (x :: l) →
  match s with x :: _ => p x = false | [] => True end →
  (∀ l1 l2, l = l1 ++ l2 → k (l2 ++ s) c = None) →
  rmatch (RPlus (RChar p)) ((x :: l) ++ s) c k = None.
Proof.
  intros [Hx Hl]%Forall_cons Hs Hk. unfold RPlus. cbn [rmatch app]. rewrite Hx.
  by apply star_fail.
Qed.
End star.

(** Any list splits into its longest run of a class and a rest. *)
Lemma longest_run (p : ascii → bool) s :
  ∃ l t, s = l ++ t ∧ Forall (λ x, p x = true) l ∧
    match t with x :: _ => p x = false | [] => True end.
Proof.
  induction s as [|x s (l&t&->&Hl&Ht)]; [by exists [], []|].
  destruct (p x) eqn:E; [exists (x :: l), t; by repeat constructor|by exists [], (x :: l ++ t)].
Qed.
