(* ===== verification/Version.v ===== *)
(** * pkg/util/couchbaseutil: versions

    [version.go], the version helpers of [helpers.go] and the digest table of
    [digests.go].  The digests learned at run time ([learnedDigests]) are an
    argument, the environment is the class [Environment]. *)

From Stdlib Require Import Ascii.
From S2P Require Import Prelude GoLib Regex Digests.
Local Open Scope Z_scope.

Record Version := mkVersion {
  v_version : string;
  v_prefix : string;
  v_semver : Z * Z * Z;
}.

Definition UnknownVersion : string := "9.9.9".

Definition VersionKnown (v : string) : bool :=
  bool_decide (v ≠ "") && bool_decide (v ≠ UnknownVersion).

(** Exactly 64 hexadecimal digits. *)
Definition sha256_regex : regex := RSeq (RRepeat 64 (RChar is_hex)) REnd.

Definition IsSHA256Version (version : string) : bool :=
  match match_prefix sha256_regex version with Some _ => true | None => false end.

Section digests.
Context `{Environment} (learnedDigests : gmap string string).

Definition lookupDigest (digest : string) : option string :=
  match list_find (λ e, e.1 = digest) ImageDigests with
  | Some (_, (_, v)) => Some v
  | None => learnedDigests !! digest
  end.

Definition EnvDigestsConfigMap : string := "IMAGE_DIGESTS_CONFIG_MAP".

(** The digest, an equals sign, the rest of the line as group 1, an optional
    space and a newline. *)
Definition config_map_regex (version : string) : regex :=
  RSeqs [RText version; RLit "="%char; RGroup 1 (RStar (RChar is_dot));
         ROpt (RChar is_space); RLit newline].

Definition GetVersionFromEnvConfigMap (version : string) : string :=
  match os_LookupEnv EnvDigestsConfigMap with
  | Some digests =>
      match match_search (config_map_regex version) digests with
      | Some c => group 1 c
      | None => UnknownVersion
      end
  | None => UnknownVersion
  end.

Definition GetSHA256Version (version : string) : string :=
  match lookupDigest version with
  | Some v => v
  | None =>
      let userVersion := GetVersionFromEnvConfigMap version in
      if bool_decide (userVersion ≠ "") then userVersion else UnknownVersion
  end.

(** The anchored pattern of [NewVersion]: an optional registry part that ends in a
    colon, an optional edition and hyphen, three numbers, an optional suffix. *)
Definition digits : regex := RPlus (RChar is_digit).
Definition word : regex := RPlus (RChar is_word).
Definition registry_part : regex :=
  ROpt (RSeqs [digits; RStar (RChar is_dot); RLit ":"%char]).
Definition edition_part : regex := ROpt (RSeq (RGroup 1 word) (RLit "-"%char)).
Definition semver_part : regex :=
  RSeqs [RGroup 2 digits; RLit "."%char; RGroup 3 digits; RLit "."%char; RGroup 4 digits].
Definition version_regex : regex :=
  RSeqs [registry_part; edition_part; semver_part;
         ROpt (RSeq (RLit "-"%char) (RGroup 5 word))].

Definition NewVersion (version : string) : result Version :=
  if bool_decide (version = "") then Err ErrInvalidVersion
  else
    let version := if IsSHA256Version version then GetSHA256Version version else version in
    match match_prefix version_regex version with
    | None => Err ErrInvalidVersion
    | Some matches =>
        let prefix := if bool_decide (group 1 matches = "") then group 5 matches
                      else group 1 matches in
        let val i := (strconv_Atoi (group i matches)).1 in
        Ok (mkVersion version prefix (val 2%nat, val 3%nat, val 4%nat))
    end.

Definition Major (v : Version) : Z := (v_semver v).1.1.
Definition Minor (v : Version) : Z := (v_semver v).1.2.
Definition Patch (v : Version) : Z := (v_semver v).2.

Definition Semver (v : Version) : string :=
  strconv_Itoa (Major v) +:+ "." +:+ strconv_Itoa (Minor v) +:+ "." +:+ strconv_Itoa (Patch v).

(** The pattern of [extractBuildNumber], anchored at both ends; group 2 is the
    build number. *)
Definition build_regex : regex :=
  RSeqs [registry_part; edition_part; digits; RLit "."%char; digits; RLit "."%char; digits;
         ROpt (RSeq (RLit "-"%char) (RGroup 2 digits));
         ROpt (RSeq (RLit "-"%char) (RGroup 3 word)); REnd].

Definition extractBuildNumber (versionStr : string) : string :=
  match match_prefix build_regex versionStr with
  | Some matches => group 2 matches
  | None => ""
  end.

Definition compare_ints (a b : Z) : option Z :=
  if bool_decide (b < a) then Some 1 else if bool_decide (a < b) then Some (-1) else None.

Definition Compare (v o : Version) : Z :=
  match compare_ints (Major v) (Major o) with
  | Some r => r
  | None =>
  match compare_ints (Minor v) (Minor o) with
  | Some r => r
  | None =>
  match compare_ints (Patch v) (Patch o) with
  | Some r => r
  | None =>
      let vBuildStr := extractBuildNumber (v_version v) in
      let oBuildStr := extractBuildNumber (v_version o) in
      if bool_decide (vBuildStr = "") || bool_decide (oBuildStr = "") then
        if bool_decide (vBuildStr = oBuildStr) then 0
        else if bool_decide (vBuildStr ≠ "") then 1 else -1
      else
        match compare_ints (strconv_Atoi vBuildStr).1 (strconv_Atoi oBuildStr).1 with
        | Some r => r
        | None => 0
        end
  end end end.

Definition Equal (v o : Version) : bool := bool_decide (Compare v o = 0).
Definition Less (v o : Version) : bool := bool_decide (Compare v o < 0).
Definition GreaterEqual (v o : Version) : bool := negb (Less v o).

(** A version that does not parse leaves a nil pointer, which [Compare] reads. *)
Definition GreaterEqualString (v : Version) (o : string) : result bool :=
  match NewVersion o with Ok ov => Ok (GreaterEqual v ov) | _ => Panic end.

Definition CouchbaseVersionMin : string := "7.0.0".

Definition VerifyVersion (version : string) : result () :=
  v ← NewVersion version;
  match NewVersion CouchbaseVersionMin with
  | Ok minVersion => if bool_decide (Compare v minVersion = -1) then Err ErrInvalidVersion else Ok tt
  | _ => Panic
  end.

Definition CouchbaseImageVersion (image : string) : result string :=
  let parts := strings_Split image ":"%char in
  if bool_decide (length parts < 2)%nat then Err ErrInvalidVersion
  else match last parts with
       | None => Panic
       | Some version =>
           if IsSHA256Version version then Ok (GetSHA256Version version) else Ok version
       end.

Definition NewVersionFromImage (image : string) : result Version :=
  imageTag ← CouchbaseImageVersion image; NewVersion imageTag.

(** ** helpers.go *)
Definition VersionAfter (version required : string) : result bool :=
  v1 ← NewVersion version; v2 ← NewVersion required; Ok (GreaterEqual v1 v2).

Definition VersionEqual (version required : string) : result bool :=
  v1 ← NewVersion version; v2 ← NewVersion required; Ok (Equal v1 v2).

Definition VersionBefore (version required : string) : result bool :=
  v1 ← NewVersion version; v2 ← NewVersion required; Ok (Less v1 v2).

(** ** digests.go *)
Definition GetVersionTag (image : string) : string :=
  let parts := strings_Split image ":"%char in
  if bool_decide (length parts < 2)%nat then "" else default "" (last parts).

(** The version, whether the table was updated, and the table. *)
Definition UpdateImageDigestMap (image poolsVersion : string) :
    string * bool * gmap string string :=
  let version := GetVersionTag image in
  if negb (IsSHA256Version version) then ("", false, learnedDigests)
  else match lookupDigest version with
  | Some foundVer => (foundVer, false, learnedDigests)
  | None =>
      let poolsVersion' :=
        if bool_decide (poolsVersion = "") then GetVersionFromEnvConfigMap version
        else poolsVersion in
      if bool_decide (poolsVersion = "") && negb (VersionKnown poolsVersion')
      then (poolsVersion', false, learnedDigests)
      else
        let poolsVersion' :=
          if strings_HasPrefix poolsVersion' "couchbase-" then poolsVersion'
          else "couchbase-" +:+ poolsVersion' in
        match learnedDigests !! version with
        | Some foundVer => (foundVer, false, learnedDigests)
        | None => (poolsVersion', true, <[version := poolsVersion']> learnedDigests)
        end
  end.
End digests.

(** ** Order: the specification of [Compare] *)
Definition build_key (v : Version) : option Z :=
  let b := extractBuildNumber (v_version v) in
  if bool_decide (b = "") then None else Some (strconv_Atoi b).1.

Definition build_lt (a b : option Z) : Prop :=
  match a, b with
  | None, Some _ => True
  | Some x, Some y => x < y
  | _, None => False
  end.

(** Lexicographic on major, minor, patch and build; no build is before any. *)
Definition key_lt (v o : Version) : Prop :=
  Major v < Major o ∨ Major v = Major o ∧
  (Minor v < Minor o ∨ Minor v = Minor o ∧
   (Patch v < Patch o ∨ Patch v = Patch o ∧ build_lt (build_key v) (build_key o))).

Definition key_eq (v o : Version) : Prop :=
  Major v = Major o ∧ Minor v = Minor o ∧ Patch v = Patch o ∧ build_key v = build_key o.

(** The edition prefix of a version text. *)
Definition edition_text (edition : string) : string :=
  if bool_decide (edition = "") then "" else edition +:+ "-".

Definition version_text (edition : string) (a b c : Z) : string :=
  edition_text edition +:+ strconv_Itoa a +:+ "." +:+ strconv_Itoa b +:+ "." +:+ strconv_Itoa c.

(** An entry of the digest table: its digest is one, resolves to its tag and
    parses as that tag does; the server images from 7.0 on are verified. *)
Definition digest_entry_ok `{Environment} (learnedDigests : gmap string string)
    (digest tag : string) : bool :=
  IsSHA256Version digest &&
  bool_decide (GetSHA256Version learnedDigests digest = tag) &&
  match NewVersion learnedDigests digest, NewVersion learnedDigests tag with
  | Ok v, Ok w =>
      bool_decide (v_version v = tag) && bool_decide (v_prefix v = v_prefix w) &&
      bool_decide (v_semver v = v_semver w) &&
      bool_decide (VerifyVersion learnedDigests digest =
                   if bool_decide (7 ≤ Major v) then Ok tt else Err ErrInvalidVersion)
  | _, _ => false
  end.

(** ** Lemmas: comparing *)
Lemma compare_ints_spec a b :
  match compare_ints a b with
  | Some r => (b < a ∧ r = 1) ∨ (a < b ∧ r = -1)
  | None => a = b
  end.
Proof. unfold compare_ints. repeat case_bool_decide; [by left|by right|lia]. Qed.

Lemma Compare_key v o :
  (Compare v o = -1 ∧ key_lt v o) ∨ (Compare v o = 0 ∧ key_eq v o) ∨
  (Compare v o = 1 ∧ key_lt o v).
Proof.
  unfold Compare, key_lt, key_eq, build_key.
  pose proof (compare_ints_spec (Major v) (Major o)) as H1.
  destruct (compare_ints (Major v) (Major o)) as [r1|]; [destruct H1 as [[? ->]|[? ->]]; auto|].
  pose proof (compare_ints_spec (Minor v) (Minor o)) as H2.
  destruct (compare_ints (Minor v) (Minor o)) as [r2|]; [destruct H2 as [[? ->]|[? ->]]; auto 10|].
  pose proof (compare_ints_spec (Patch v) (Patch o)) as H3.
  destruct (compare_ints (Patch v) (Patch o)) as [r3|]; [destruct H3 as [[? ->]|[? ->]]; auto 15|].
  rewrite H1, H2, H3. clear H1 H2 H3.
  set (bv := extractBuildNumber (v_version v)). set (bo := extractBuildNumber (v_version o)).
  destruct (decide (bv = "")) as [Ev|Ev], (decide (bo = "")) as [Eo|Eo].
  - rewrite Ev, Eo. simpl. right; left. done.
  - rewrite (bool_decide_eq_true_2 (bv = "")), (bool_decide_eq_false_2 (bo = "")) by done. simpl.
    rewrite !bool_decide_eq_false_2 by congruence. left. split; [done|].
    right; split; [done|]. right; split; [done|]. right; split; [done|exact I].
  - rewrite (bool_decide_eq_false_2 (bv = "")), (bool_decide_eq_true_2 (bo = "")) by done. simpl.
    rewrite (bool_decide_eq_false_2 (bv = bo)) by congruence.
    rewrite bool_decide_eq_true_2 by done. right; right. split; [done|].
    right; split; [done|]. right; split; [done|]. right; split; [done|exact I].
  - rewrite !(bool_decide_eq_false_2 (_ = "")) by done. simpl.
    pose proof (compare_ints_spec (strconv_Atoi bv).1 (strconv_Atoi bo).1) as Hb.
    destruct (compare_ints _ _) as [r|].
    + destruct Hb as [[? ->]|[? ->]]; [right; right|left]; split; try done;
        right; split; try done; right; split; try done; right; done.
    + rewrite Hb. by right; left.
Qed.

Lemma key_lt_irrefl v : ¬ key_lt v v.
Proof. unfold key_lt. destruct (build_key v); simpl; lia. Qed.

Lemma key_lt_trans v o w : key_lt v o → key_lt o w → key_lt v w.
Proof. unfold key_lt. destruct (build_key v), (build_key o), (build_key w); simpl; lia. Qed.

Lemma key_eq_lt v o w : key_eq v o → key_lt o w → key_lt v w.
Proof. unfold key_eq, key_lt. intros (->&->&->&->). done. Qed.

Lemma key_lt_eq v o w : key_lt v o → key_eq o w → key_lt v w.
Proof. unfold key_eq, key_lt. intros H (<-&<-&<-&<-). done. Qed.

Lemma key_eq_sym v o : key_eq v o → key_eq o v.
Proof. unfold key_eq. naive_solver. Qed.

Lemma key_eq_trans v o w : key_eq v o → key_eq o w → key_eq v w.
Proof. unfold key_eq. intros (->&->&->&->). done. Qed.

Lemma Less_key v o : Less v o = true ↔ key_lt v o.
Proof.
  unfold Less. rewrite bool_decide_eq_true.
  destruct (Compare_key v o) as [[-> ?]|[[-> He]|[-> Hgt]]]; split; try done; try lia.
  - intros Hlt. exfalso. eapply key_lt_irrefl, key_eq_lt; [by apply key_eq_sym|done].
  - intros Hlt. exfalso. by eapply key_lt_irrefl, key_lt_trans.
Qed.

Lemma GreaterEqual_key v o : GreaterEqual v o = true ↔ ¬ key_lt v o.
Proof. unfold GreaterEqual. rewrite negb_true_iff, <- Less_key. by destruct (Less v o). Qed.

Lemma Equal_key v o : Equal v o = true ↔ key_eq v o.
Proof.
  unfold Equal. rewrite bool_decide_eq_true.
  destruct (Compare_key v o) as [[-> Hl]|[[-> He]|[-> Hg]]]; split; try done; try lia; intros He.
  - exfalso. eapply key_lt_irrefl, key_lt_eq; [done|by apply key_eq_sym].
  - exfalso. by eapply key_lt_irrefl, key_lt_eq.
Qed.

Lemma key_total v o : key_lt v o ∨ key_eq v o ∨ key_lt o v.
Proof. destruct (Compare_key v o) as [[_ ?]|[[_ ?]|[_ ?]]]; auto. Qed.

Lemma key_lt_asym v o : key_lt v o → ¬ key_lt o v.
Proof. intros Hv Ho. by eapply key_lt_irrefl, key_lt_trans. Qed.

Lemma key_eq_not_lt v o : key_eq v o → ¬ key_lt v o ∧ ¬ key_lt o v.
Proof.
  intros He. split; intros Hl.
  - eapply key_lt_irrefl, key_lt_eq; [done|by apply key_eq_sym].
  - by eapply key_lt_irrefl, key_lt_eq.
Qed.

Lemma Compare_range v o : Compare v o = -1 ∨ Compare v o = 0 ∨ Compare v o = 1.
Proof. destruct (Compare_key v o) as [[? _]|[[? _]|[? _]]]; auto. Qed.

Lemma Compare_lt v o : Compare v o = -1 ↔ key_lt v o.
Proof.
  rewrite <- Less_key. unfold Less. rewrite bool_decide_eq_true.
  destruct (Compare_range v o) as [->|[->| ->]]; lia.
Qed.

Lemma Compare_eq v o : Compare v o = 0 ↔ key_eq v o.
Proof. rewrite <- Equal_key. unfold Equal. by rewrite bool_decide_eq_true. Qed.

Lemma Compare_gt v o : Compare v o = 1 ↔ key_lt o v.
Proof.
  destruct (Compare_key v o) as [[-> Hl]|[[-> He]|[-> Hg]]]; [..|done]; split; try done.
  - intros Hg. by apply key_lt_asym in Hg.
  - intros Hg. by destruct (proj2 (key_eq_not_lt _ _ He)).
Qed.

Lemma Compare_opp v o : Compare o v = - Compare v o.
Proof.
  destruct (Compare_key v o) as [[-> Hl]|[[-> He]|[-> Hg]]].
  - by apply Compare_gt.
  - by apply Compare_eq, key_eq_sym.
  - by apply Compare_lt.
Qed.

Lemma Compare_le v o : Compare v o ≤ 0 ↔ key_lt v o ∨ key_eq v o.
Proof. rewrite <- Compare_lt, <- Compare_eq. pose proof (Compare_range v o). lia. Qed.

Lemma Compare_le_trans v o w : Compare v o ≤ 0 → Compare o w ≤ 0 → Compare v w ≤ 0.
Proof.
  rewrite !Compare_le. intros [H|H] [H'|H'];
    eauto using key_lt_trans, key_lt_eq, key_eq_lt, key_eq_trans.
Qed.

(** ** Lemmas: parsing *)
Lemma digit_val_is_digit c d : digit_val c = Some d → is_digit c = true.
Proof.
  unfold digit_val, is_digit, in_range. case_bool_decide as H; [|done]. intros _.
  apply andb_true_intro. rewrite !Nat.leb_le. lia.
Qed.

Lemma parse_digits_digits s : ∀ acc n,
  parse_digits acc s = Some n → Forall (λ x, is_digit x = true) (string_bytes s).
Proof.
  induction s as [|c s IH]; intros acc n; simpl; [constructor|].
  destruct (digit_val c) as [d|] eqn:Hd; simpl; [|done]. intros Hp.
  constructor; [by eapply digit_val_is_digit|by eapply IH].
Qed.

(** The decimal text of a number that is not negative: a non-empty run of digits. *)
Lemma Itoa_digits n :
  0 ≤ n → ∃ x l, string_bytes (strconv_Itoa n) = x :: l ∧
    Forall (λ x, is_digit x = true) (x :: l).
Proof.
  intros Hn. assert (parse_digits 0 (strconv_Itoa n) = Some n) as Hp.
  { destruct n as [|p|p]; [done| |lia]. exact (parse_digits_pretty (Npos p)). }
  apply parse_digits_digits in Hp as Hd.
  destruct (string_bytes (strconv_Itoa n)) as [|x l] eqn:E; [|by exists x, l].
  exfalso. destruct n as [|p|p]; [done| |lia].
  apply (pretty_N_ne (Npos p)). by apply string_bytes_inj.
Qed.

Lemma is_digit_word x : is_digit x = true → is_word x = true.
Proof. intros H. unfold is_word. by rewrite H. Qed.

Lemma string_of_bytes_bytes s : string_of_bytes (string_bytes s) = s.
Proof. induction s as [|c s IH]; simpl; [done|by f_equal]. Qed.

Lemma consumed_app l s : consumed (l ++ s) s = l.
Proof.
  unfold consumed. rewrite length_app. replace (length l + length s - length s)%nat with (length l) by lia.
  apply take_app_length.
Qed.

(** A text with a byte that is not hexadecimal is no digest. *)
Lemma repeat_hex n s c k r :
  rmatch (RRepeat n (RChar is_hex)) s c k = Some r →
  ∃ s1 s2 c', s = s1 ++ s2 ∧ Forall (λ x, is_hex x = true) s1 ∧ k s2 c' = Some r.
Proof.
  revert s c. induction n as [|n IH]; intros s c; simpl.
  { intros Hk. by exists [], s, c. }
  destruct s as [|x s]; [done|]. destruct (is_hex x) eqn:Hx; [|done].
  intros (s1&s2&c'&->&Hs1&Hk)%IH. exists (x :: s1), s2, c'. by repeat constructor.
Qed.

Lemma not_sha256 s x :
  x ∈ string_bytes s → is_hex x = false → IsSHA256Version s = false.
Proof.
  intros Hin Hx. unfold IsSHA256Version, match_prefix, sha256_regex. cbn [rmatch].
  destruct (rmatch (RRepeat 64 (RChar is_hex)) _ _ _) as [r|] eqn:E; [|done]. exfalso.
  apply repeat_hex in E as (s1&s2&c'&Hs&Hall&Hk). destruct s2; [|done].
  rewrite app_nil_r in Hs. rewrite Hs in Hin. rewrite Forall_forall in Hall.
  specialize (Hall x Hin). simpl in Hall. congruence.
Qed.

Lemma lit_miss y s c k : (∀ z t, s = z :: t → z ≠ y) → rmatch (RLit y) s c k = None.
Proof.
  intros Hne. destruct s as [|z t]; [done|]. unfold RLit, is_char. cbn [rmatch].
  rewrite bool_decide_eq_false_2; [done|]. by apply (Hne z t).
Qed.

Lemma lit_hit y s c k : rmatch (RLit y) (y :: s) c k = k s c.
Proof. unfold RLit, is_char. cbn [rmatch]. by rewrite bool_decide_eq_true_2. Qed.

(** Without a colon the registry part matches nothing. *)
Lemma registry_skip s c k : ":"%char ∉ s → rmatch registry_part s c k = k s c.
Proof.
  intros Hc. unfold registry_part, digits. cbn [RSeqs]. cbn [rmatch].
  fold (rmatch (RPlus (RChar is_digit))).
  enough (rmatch (RPlus (RChar is_digit)) s c (λ s' c',
    rmatch (RSeq (RStar (RChar is_dot)) (RLit ":"%char)) s' c' k) = None) as E.
  { unfold RPlus in *. cbn [rmatch] in *. by rewrite E. }
  assert (∀ t c, ":"%char ∉ t →
    rmatch (RSeq (RStar (RChar is_dot)) (RLit ":"%char)) t c k = None) as Hdot.
  { intros t c' Ht. cbn [rmatch]. destruct (longest_run is_dot t) as (l&u&->&Hl&Hu).
    apply (star_fail is_dot l u c'); [done|done|]. intros l1 l2 ->. apply lit_miss.
    intros z v Hz ->. apply Ht. rewrite <- app_assoc, Hz. set_solver. }
  destruct (longest_run is_digit s) as ([|x l]&t&->&Hl&Ht).
  - destruct t as [|y t]; [done|]. unfold RPlus. cbn [rmatch app]. by rewrite Ht.
  - apply plus_fail; [done|done|]. intros l1 l2 ->. apply Hdot.
    intros Hin. apply Hc. set_solver.
Qed.

(** A run of word bytes that no hyphen follows is no edition. *)
Lemma edition_skip x l s c k :
  Forall (λ x, is_digit x = true) (x :: l) →
  rmatch edition_part (((x :: l) ++ "."%char :: s)) c k = k ((x :: l) ++ "."%char :: s) c.
Proof.
  intros Hd. unfold edition_part, word. cbn [rmatch].
  match goal with |- match ?m with _ => _ end = _ => enough (m = None) as -> by done end.
  apply (plus_fail is_word x l ("."%char :: s)).
  - eapply Forall_impl; [exact Hd|]. apply is_digit_word.
  - done.
  - intros l1 l2 ->. apply lit_miss. intros z t Hz.
    destruct l2 as [|y l2]; simplify_list_eq; [done|].
    apply Forall_cons in Hd as [_ Hd]. rewrite Forall_app, Forall_cons in Hd.
    intros ->. by destruct Hd as (_&?&_).
Qed.

Lemma edition_hit x l s c k r :
  Forall (λ x, is_word x = true) (x :: l) →
  k s ((1%nat, x :: l) :: c) = Some r →
  rmatch edition_part ((x :: l) ++ "-"%char :: s) c k = Some r.
Proof.
  intros Hw Hk. unfold edition_part, word. cbn [rmatch].
  match goal with |- match ?m with _ => _ end = _ => enough (m = Some r) as -> by done end.
  apply (plus_greedy is_word x l ("-"%char :: s)); [done|done|].
  rewrite consumed_app. by rewrite lit_hit.
Qed.

(** A captured run of digits. *)
Lemma digits_hit n x l s c k r :
  Forall (λ x, is_digit x = true) (x :: l) →
  match s with x :: _ => is_digit x = false | [] => True end →
  k s ((n, x :: l) :: c) = Some r →
  rmatch (RGroup n digits) ((x :: l) ++ s) c k = Some r.
Proof.
  intros Hd Hs Hk. unfold digits. cbn [rmatch].
  apply (plus_greedy is_digit x l s); [done|done|]. by rewrite consumed_app.
Qed.

(** Three numbers and the end of the text. *)
Lemma semver_hit da db dc c :
  (∀ d, d ∈ [da; db; dc] → ∃ x l, d = x :: l ∧ Forall (λ x, is_digit x = true) (x :: l)) →
  rmatch (RSeq semver_part (ROpt (RSeq (RLit "-"%char) (RGroup 5 word))))
    (da ++ "."%char :: db ++ "."%char :: dc) c (λ _ c, Some c) =
  Some ((4%nat, dc) :: (3%nat, db) :: (2%nat, da) :: c).
Proof.
  intros Hd. destruct (Hd da) as (xa&la&->&Ha); [set_solver|].
  destruct (Hd db) as (xb&lb&->&Hb); [set_solver|].
  destruct (Hd dc) as (xc&lc&->&Hc); [set_solver|]. clear Hd.
  unfold semver_part. cbn [RSeqs].
  change (rmatch (RSeq ?r1 ?r2) ?s ?c ?k) with (rmatch r1 s c (λ s' c', rmatch r2 s' c' k)).
  change (rmatch (RSeq ?r1 ?r2) ?s ?c ?k) with (rmatch r1 s c (λ s' c', rmatch r2 s' c' k)).
  apply digits_hit; [done|done|].
  change (rmatch (RSeq ?r1 ?r2) ?s ?c ?k) with (rmatch r1 s c (λ s' c', rmatch r2 s' c' k)).
  rewrite lit_hit.
  change (rmatch (RSeq ?r1 ?r2) ?s ?c ?k) with (rmatch r1 s c (λ s' c', rmatch r2 s' c' k)).
  apply digits_hit; [done|done|].
  change (rmatch (RSeq ?r1 ?r2) ?s ?c ?k) with (rmatch r1 s c (λ s' c', rmatch r2 s' c' k)).
  rewrite lit_hit.
  rewrite <- (app_nil_r (xc :: lc)) at 1. apply digits_hit; [done|done|]. done.
Qed.

Lemma version_text_bytes edition a b c :
  string_bytes (version_text edition a b c) =
  (if bool_decide (edition = "") then [] else string_bytes edition ++ ["-"%char]) ++
  string_bytes (strconv_Itoa a) ++ "."%char :: string_bytes (strconv_Itoa b) ++
  "."%char :: string_bytes (strconv_Itoa c).
Proof.
  unfold version_text, edition_text. rewrite !string_bytes_app.
  case_bool_decide; [done|]. by rewrite string_bytes_app.
Qed.

Lemma not_colon_digit x : is_digit x = true → x ≠ ":"%char.
Proof. by intros H ->. Qed.
Lemma not_colon_word x : is_word x = true → x ≠ ":"%char.
Proof. by intros H ->. Qed.

Lemma version_match edition a b c :
  Forall (λ x, is_word x = true) (string_bytes edition) → 0 ≤ a → 0 ≤ b → 0 ≤ c →
  match_prefix version_regex (version_text edition a b c) =
  Some ([(4%nat, string_bytes (strconv_Itoa c)); (3%nat, string_bytes (strconv_Itoa b));
         (2%nat, string_bytes (strconv_Itoa a))] ++
        if bool_decide (edition = "") then [] else [(1%nat, string_bytes edition)]).
Proof.
  intros He Ha Hb Hc. unfold match_prefix. rewrite version_text_bytes.
  destruct (Itoa_digits a Ha) as (xa&la&Ea&Hda), (Itoa_digits b Hb) as (xb&lb&Eb&Hdb),
    (Itoa_digits c Hc) as (xc&lc&Ec&Hdc). rewrite Ea, Eb, Ec.
  assert (∀ d, d ∈ [xa :: la; xb :: lb; xc :: lc] →
    ∃ x l, d = x :: l ∧ Forall (λ x, is_digit x = true) (x :: l)) as Hall.
  { intros d. rewrite !elem_of_cons, elem_of_nil. intros [->|[->|[->|[]]]]; eauto. }
  unfold version_regex. cbn [RSeqs].
  change (rmatch (RSeq ?r1 ?r2) ?s ?c ?k) with (rmatch r1 s c (λ s' c', rmatch r2 s' c' k)) at 1.
  rewrite registry_skip; cycle 1.
  { rewrite !elem_of_app, !elem_of_cons, !elem_of_app, !elem_of_cons.
    rewrite Forall_forall in Hda, Hdb, Hdc, He.
    intros [Hin|[[E|Hin]|[E|[[E|Hin]|[E|[E|Hin]]]]]]; try done.
    - case_bool_decide; [by apply not_elem_of_nil in Hin|].
      apply elem_of_app in Hin as [Hin|Hin%list_elem_of_singleton]; [|done].
      by apply (not_colon_word _ (He _ Hin)).
    - eapply not_colon_digit; [apply Hda|symmetry; exact E]. constructor.
    - eapply not_colon_digit; [apply Hda; right; exact Hin|done].
    - eapply not_colon_digit; [apply Hdb|symmetry; exact E]. constructor.
    - eapply not_colon_digit; [apply Hdb; right; exact Hin|done].
    - eapply not_colon_digit; [apply Hdc|symmetry; exact E]. constructor.
    - eapply not_colon_digit; [apply Hdc; right; exact Hin|done]. }
  change (rmatch (RSeq ?r1 ?r2) ?s ?c ?k) with (rmatch r1 s c (λ s' c', rmatch r2 s' c' k)) at 1.
  case_bool_decide as Hed.
  - rewrite app_nil_l, edition_skip by done. by apply semver_hit.
  - destruct (string_bytes edition) as [|xe le] eqn:Ee.
    { exfalso. apply Hed. by apply string_bytes_inj. }
    rewrite <- app_assoc. apply edition_hit; [done|]. by rewrite semver_hit.
Qed.

(** ** Properties *)

(** C37: parsing and printing versions round trip: for every edition made of word
    characters and all numbers that fit an int, [NewVersion] of the text
    "edition-a.b.c" (or "a.b.c") keeps the text, the edition and the three
    numbers, and [Semver] prints "a.b.c" again. *)
Theorem NewVersion_roundtrip `{Environment} learnedDigests edition a b c
    (He : Forall (λ x, is_word x = true) (string_bytes edition))
    (Ha : 0 ≤ a ≤ MaxInt) (Hb : 0 ≤ b ≤ MaxInt) (Hc : 0 ≤ c ≤ MaxInt) :
  let text := version_text edition a b c in
  NewVersion learnedDigests text = Ok (mkVersion text edition (a, b, c)) ∧
  Semver (mkVersion text edition (a, b, c)) = version_text "" a b c.
Proof.
  split; [|done]. unfold NewVersion.
  assert ("."%char ∈ string_bytes (version_text edition a b c)) as Hdot.
  { rewrite version_text_bytes, !elem_of_app. right; right. constructor. }
  rewrite bool_decide_eq_false_2.
  2: { intros E. rewrite E in Hdot. by apply not_elem_of_nil in Hdot. }
  rewrite (not_sha256 _ "."%char Hdot eq_refl). rewrite version_match by (done || lia).
  assert (∀ n, 0 ≤ n ≤ MaxInt →
    (strconv_Atoi (string_of_bytes (string_bytes (strconv_Itoa n)))).1 = n) as Hn.
  { intros n Hn. rewrite string_of_bytes_bytes. pose proof (Atoi_Itoa n Hn) as Hi.
    unfold Atoi in Hi. destruct (strconv_Atoi (strconv_Itoa n)) as [m [e|]]; [done|].
    by injection Hi. }
  destruct (decide (edition = "")) as [Hed|Hed].
  - rewrite (bool_decide_eq_true_2 (edition = "")) by done. unfold group. simpl.
    rewrite !Hn by done. by rewrite Hed.
  - rewrite (bool_decide_eq_false_2 (edition = "")) by done. unfold group. simpl.
    rewrite string_of_bytes_bytes, bool_decide_eq_false_2, !Hn by done. done.
Qed.

Lemma NewVersion_roundtrip_witness :
  NewVersion (H := λ _, None) ∅ "enterprise-7.6.10" =
    Ok (mkVersion "enterprise-7.6.10" "enterprise" (7, 6, 10)) ∧
  Semver (mkVersion "enterprise-7.6.10" "enterprise" (7, 6, 10)) = "7.6.10".
Proof.
  apply (NewVersion_roundtrip (H := λ _, None) ∅ "enterprise" 7 6 10).
  - repeat (constructor; [reflexivity|]). constructor.
  - unfold MaxInt. lia.
  - unfold MaxInt. lia.
  - unfold MaxInt. lia.
Defined.

(** [Compare] is a total order on versions up to the fields it reads: its
    result is one of -1, 0, 1, swapping the arguments negates it, it is zero
    exactly when major, minor, patch and build number agree, negative exactly
    when they are smaller lexicographically (a version without a build number
    before any build of it), and "not after" is transitive. *)
Theorem Compare_total_order v o w :
  (Compare v o = -1 ∨ Compare v o = 0 ∨ Compare v o = 1) ∧
  Compare o v = - Compare v o ∧
  (Compare v o = 0 ↔ key_eq v o) ∧
  (Compare v o = -1 ↔ key_lt v o) ∧
  (Compare v o ≤ 0 → Compare o w ≤ 0 → Compare v w ≤ 0).
Proof.
  rewrite (Compare_opp v o), <- Compare_eq, <- Compare_lt.
  split; [apply Compare_range|]. do 3 (split; [done|]). apply Compare_le_trans.
Qed.

(** Every entry of the built-in digest table is usable, whatever digests were
    learned and whatever the environment holds: its key is a sha256 digest that
    resolves to the tag of the entry and parses to the tag's version and prefix,
    and [VerifyVersion] accepts it exactly from major version 7 on. *)
Theorem ImageDigests_parse `{Environment} learnedDigests :
  forallb (λ e, digest_entry_ok learnedDigests e.1 e.2) ImageDigests = true.
Proof. vm_compute. reflexivity. Qed.

(** The digest table only grows and learning sticks: [UpdateImageDigestMap]
    keeps every digest it knew, reports an update exactly when it added the
    version of this image's digest under a "couchbase-" name, and afterwards
    the digest resolves to the version it returned. *)
Theorem UpdateImageDigestMap_learns `{Environment} learned image pools :
  let '(version, updated, learned') := UpdateImageDigestMap learned image pools in
  learned ⊆ learned' ∧
  (updated = false → learned' = learned) ∧
  (updated = true →
     learned !! GetVersionTag image = None ∧
     learned' = <[GetVersionTag image := version]> learned ∧
     strings_HasPrefix version "couchbase-" = true ∧
     GetSHA256Version learned' (GetVersionTag image) = version).
Proof.
  unfold UpdateImageDigestMap. set (tag := GetVersionTag image).
  destruct (negb (IsSHA256Version tag)); [done|].
  destruct (lookupDigest learned tag) as [found|] eqn:Hl; [done|].
  set (p := if bool_decide (pools = "") then _ else pools).
  destruct (bool_decide (pools = "") && negb (VersionKnown p)); [done|].
  assert (learned !! tag = None ∧ list_find (λ e, e.1 = tag) ImageDigests = None) as [Hn Hf].
  { unfold lookupDigest in Hl. destruct (list_find _ _) as [[i [d v]]|]; done. }
  rewrite Hn. split; [by apply insert_subseteq|]. split; [done|]. intros _.
  split; [done|]. split; [done|]. split.
  - destruct (strings_HasPrefix p "couchbase-") eqn:Hp; [done|]. apply HasPrefix_append.
  - unfold GetSHA256Version, lookupDigest. by rewrite Hf, lookup_insert_eq.
Qed.
