(* ===== verification/UpgradePath.v ===== *)
(** * pkg/util/couchbaseutil/upgradepath.go: which versions may follow which

    The floor tables and the checks of [upgradepath.go], then their
    specification on the three numbers of a version. *)

From S2P Require Import Prelude GoLib Regex Digests Version.
Local Open Scope Z_scope.

Record upgradeFloor := mkFloor { since : string; minSource : string }.

Definition unsupported : string := "".

(** The first version without memcached buckets. *)
Definition MemcachedBucketsRemovedVersion : string := "8.0.0".

Definition onlineUpgradeFloors : list upgradeFloor := [
  mkFloor "5.0.0" "3.0.0";
  mkFloor "5.5.0" "4.0.0";
  mkFloor "6.5.0" "5.0.0";
  mkFloor "7.0.0" "6.6.0";
  mkFloor "7.2.4" "7.1.0";
  mkFloor "8.0.0" "7.2.0";
  mkFloor "9.0.0" unsupported].

Definition offlineUpgradeFloors : list upgradeFloor := [
  mkFloor "5.1.0" "3.0.0";
  mkFloor "6.0.0" "4.0.0";
  mkFloor "6.5.0" "5.0.0";
  mkFloor "7.0.0" "5.5.3";
  mkFloor "7.1.0" "6.5.0";
  mkFloor "7.2.4" "7.1.0";
  mkFloor "8.0.0" "7.2.0";
  mkFloor "9.0.0" unsupported].

Section paths.
Context `{Environment} (learned : gmap string string).

Definition checkNotDowngrade (current target : string) : result () :=
  downgrade ← VersionBefore learned target current;
  if downgrade : bool then Err ErrInvalidVersion else Ok tt.

(** The loop runs from the last row down. *)
Fixpoint minUpgradeSource_rows (rows : list upgradeFloor) (target : string) : result string :=
  match rows with
  | [] => Ok unsupported
  | row :: rows =>
      covered ← VersionAfter learned target (since row);
      if covered : bool then Ok (minSource row) else minUpgradeSource_rows rows target
  end.

Definition minUpgradeSource (floors : list upgradeFloor) (target : string) : result string :=
  minUpgradeSource_rows (reverse floors) target.

Definition checkUpgradePath (floors : list upgradeFloor) (current target : string) : result () :=
  same ← VersionEqual learned current target;
  if same : bool then Ok tt
  else
    _ ← checkNotDowngrade current target;
    floor ← minUpgradeSource floors target;
    if bool_decide (floor = unsupported) then Err ErrInvalidVersion
    else
      below ← VersionBefore learned current floor;
      if below : bool then Err ErrInvalidVersion else Ok tt.

Definition CheckUpgradePath (current target : string) : result () :=
  checkUpgradePath onlineUpgradeFloors current target.

Definition CheckOfflineUpgradePath (current target : string) : result () :=
  checkUpgradePath offlineUpgradeFloors current target.

Definition UpgradeCrosses (from to version : string) : result bool :=
  fromBefore ← VersionBefore learned from version;
  toAtLeast ← VersionAfter learned to version;
  Ok (fromBefore && toAtLeast).

Definition IndexUpgradeRequiresSwap (source target : string) : result bool :=
  crosses76 ← UpgradeCrosses source target "7.6.0";
  targetBefore762 ← VersionBefore learned target "7.6.2";
  Ok (crosses76 && targetBefore762).

Definition CheckHibernationUpgradePath (current target : string)
    (hasIndexNodes alsoOnline : bool) : result () :=
  _ ← CheckOfflineUpgradePath current target;
  _ ← (if hasIndexNodes then
         requiresSwap ← IndexUpgradeRequiresSwap current target;
         if requiresSwap : bool then Err ErrInvalidVersion else Ok tt
       else Ok tt);
  if alsoOnline then CheckUpgradePath current target else Ok tt.

Definition CheckInPlaceUpgradePath (current target : string) : result () :=
  checkNotDowngrade current target.
End paths.

(** ** Specification *)
Abbreviation semver := (Z * Z * Z)%type.

Definition semver_lt (x y : semver) : Prop :=
  x.1.1 < y.1.1 ∨ x.1.1 = y.1.1 ∧ (x.1.2 < y.1.2 ∨ x.1.2 = y.1.2 ∧ x.2 < y.2).
#[export] Instance semver_lt_dec x y : Decision (semver_lt x y).
Proof. unfold semver_lt. apply _. Defined.

(** The lowest source of an online upgrade to [t]. *)
Definition online_floor (t : semver) : option semver :=
  if decide (semver_lt t (5, 0, 0)) then None
  else if decide (semver_lt t (5, 5, 0)) then Some (3, 0, 0)
  else if decide (semver_lt t (6, 5, 0)) then Some (4, 0, 0)
  else if decide (semver_lt t (7, 0, 0)) then Some (5, 0, 0)
  else if decide (semver_lt t (7, 2, 4)) then Some (6, 6, 0)
  else if decide (semver_lt t (8, 0, 0)) then Some (7, 1, 0)
  else if decide (semver_lt t (9, 0, 0)) then Some (7, 2, 0)
  else None.

Definition offline_floor (t : semver) : option semver :=
  if decide (semver_lt t (5, 1, 0)) then None
  else if decide (semver_lt t (6, 0, 0)) then Some (3, 0, 0)
  else if decide (semver_lt t (6, 5, 0)) then Some (4, 0, 0)
  else if decide (semver_lt t (7, 0, 0)) then Some (5, 0, 0)
  else if decide (semver_lt t (7, 1, 0)) then Some (5, 5, 3)
  else if decide (semver_lt t (7, 2, 4)) then Some (6, 5, 0)
  else if decide (semver_lt t (8, 0, 0)) then Some (7, 1, 0)
  else if decide (semver_lt t (9, 0, 0)) then Some (7, 2, 0)
  else None.

(** From version [c] to version [t]: the same version, or a later one whose
    floor is at most [c]. *)
Definition path_ok (floor : semver → option semver) (c t : Version) : Prop :=
  key_eq c t ∨
  key_lt c t ∧ ∃ m, floor (v_semver t) = Some m ∧ ¬ semver_lt (v_semver c) m.

(** Online upgrades one after the other. *)
Definition online_step `{Environment} learned (c t : string) : Prop :=
  CheckUpgradePath learned c t = Ok tt.

(** ** Lemmas *)
Section lemmas.
Context `{Environment} (learned : gmap string string).

(** The text of a release: it parses to its numbers and has no build. *)
Record release (s : string) (m : semver) : Prop := {
  release_parses : NewVersion learned s = Ok (mkVersion s "" m);
  release_build : extractBuildNumber s = "";
}.

Lemma key_lt_release v s m : release s m → key_lt v (mkVersion s "" m) ↔ semver_lt (v_semver v) m.
Proof.
  intros [_ Hb]. unfold key_lt, semver_lt, Major, Minor, Patch, build_key. simpl.
  rewrite Hb. destruct (if bool_decide (extractBuildNumber _ = "") then _ else _); simpl; tauto.
Qed.

Lemma VersionBefore_ok c t cv tv :
  NewVersion learned c = Ok cv → NewVersion learned t = Ok tv →
  VersionBefore learned c t = Ok (Less cv tv).
Proof. intros Hc Ht. unfold VersionBefore. by rewrite Hc, Ht. Qed.

Lemma VersionAfter_ok c t cv tv :
  NewVersion learned c = Ok cv → NewVersion learned t = Ok tv →
  VersionAfter learned c t = Ok (GreaterEqual cv tv).
Proof. intros Hc Ht. unfold VersionAfter. by rewrite Hc, Ht. Qed.

Lemma VersionEqual_ok c t cv tv :
  NewVersion learned c = Ok cv → NewVersion learned t = Ok tv →
  VersionEqual learned c t = Ok (Equal cv tv).
Proof. intros Hc Ht. unfold VersionEqual. by rewrite Hc, Ht. Qed.

Lemma VersionBefore_release c cv s m :
  NewVersion learned c = Ok cv → release s m →
  VersionBefore learned c s = Ok (bool_decide (semver_lt (v_semver cv) m)).
Proof.
  intros Hc Hr. rewrite (VersionBefore_ok c s cv _ Hc (release_parses _ _ Hr)). f_equal.
  apply eq_bool_prop_intro. rewrite !Is_true_true, bool_decide_eq_true, Less_key.
  by apply key_lt_release.
Qed.

Lemma VersionAfter_release c cv s m :
  NewVersion learned c = Ok cv → release s m →
  VersionAfter learned c s = Ok (negb (bool_decide (semver_lt (v_semver cv) m))).
Proof.
  intros Hc Hr. rewrite (VersionAfter_ok c s cv _ Hc (release_parses _ _ Hr)). f_equal.
  unfold GreaterEqual. f_equal. apply eq_bool_prop_intro.
  rewrite !Is_true_true, bool_decide_eq_true, Less_key. by apply key_lt_release.
Qed.

(** A floor as the tables write it. *)
Definition floor_text (f : string) (m : option semver) : Prop :=
  match m with None => f = unsupported | Some m => f ≠ unsupported ∧ release f m end.

Lemma checkNotDowngrade_spec c t cv tv :
  NewVersion learned c = Ok cv → NewVersion learned t = Ok tv →
  checkNotDowngrade learned c t = if Less tv cv then Err ErrInvalidVersion else Ok tt.
Proof. intros Hc Ht. unfold checkNotDowngrade. by rewrite (VersionBefore_ok _ _ _ _ Ht Hc). Qed.

Lemma checkUpgradePath_spec floors (spec : semver → option semver) c t cv tv f :
  NewVersion learned c = Ok cv → NewVersion learned t = Ok tv →
  minUpgradeSource learned floors t = Ok f → floor_text f (spec (v_semver tv)) →
  (path_ok spec cv tv ∧ checkUpgradePath learned floors c t = Ok tt) ∨
  (¬ path_ok spec cv tv ∧ checkUpgradePath learned floors c t = Err ErrInvalidVersion).
Proof.
  intros Hc Ht Hf Hft. unfold checkUpgradePath, path_ok.
  rewrite (VersionEqual_ok _ _ _ _ Hc Ht). cbn [mbind result_bind].
  destruct (Equal cv tv) eqn:He; [left; split; [left; by apply Equal_key|done]|].
  assert (¬ key_eq cv tv) as Hne by (rewrite <- Equal_key; congruence).
  rewrite (checkNotDowngrade_spec _ _ _ _ Hc Ht).
  destruct (Less tv cv) eqn:Hl; cbn [mbind result_bind].
  { apply Less_key in Hl. right. split; [|done].
    intros [?|[Hlt _]]; [done|]. by apply key_lt_asym in Hlt. }
  assert (key_lt cv tv) as Hlt.
  { destruct (key_total cv tv) as [?|[?|Hgt]]; [done..|]. apply Less_key in Hgt. congruence. }
  rewrite Hf. cbn [mbind result_bind].
  destruct (spec (v_semver tv)) as [m|] eqn:Hs; simpl in Hft.
  - destruct Hft as [Hun Hr]. rewrite bool_decide_eq_false_2 by done.
    rewrite (VersionBefore_release _ _ _ _ Hc Hr). cbn [mbind result_bind].
    case_bool_decide as Hb; [right|left]; (split; [|done]).
    + intros [?|[_ (m'&[= <-]&?)]]; done.
    + right. eauto.
  - rewrite bool_decide_eq_true_2 by done. right. split; [|done].
    intros [?|[_ (m'&?&_)]]; done.
Qed.

(** A row as numbers, and the floor of the first row at or below the target. *)
Definition row_ok (row : upgradeFloor) (p : semver * option semver) : Prop :=
  release (since row) p.1 ∧ floor_text (minSource row) p.2.

Fixpoint rows_floor (ps : list (semver * option semver)) (t : semver) : option semver :=
  match ps with
  | [] => None
  | p :: ps => if decide (semver_lt t p.1) then rows_floor ps t else p.2
  end.

Lemma minUpgradeSource_rows_spec rows ps t tv :
  NewVersion learned t = Ok tv → Forall2 row_ok rows ps →
  ∃ f, minUpgradeSource_rows learned rows t = Ok f ∧
    floor_text f (rows_floor ps (v_semver tv)).
Proof.
  intros Ht Hrows. induction Hrows as [|row p rows ps [Hs Hm] Hrows IH]; simpl; [by eexists|].
  rewrite (VersionAfter_release _ _ _ _ Ht Hs). simpl.
  case_bool_decide; case_decide; simpl; try done. by eexists.
Qed.
End lemmas.

(** Closes [release s m] on a literal. *)
Ltac release := split; vm_compute; reflexivity.

(** Checks a table against its rows as numbers. *)
Ltac rows_ok :=
  repeat (constructor; [split; simpl; [release|first [done|split; [done|release]]]|]);
  constructor.

Definition online_rows : list (semver * option semver) := [
  ((9, 0, 0), None); ((8, 0, 0), Some (7, 2, 0)); ((7, 2, 4), Some (7, 1, 0));
  ((7, 0, 0), Some (6, 6, 0)); ((6, 5, 0), Some (5, 0, 0)); ((5, 5, 0), Some (4, 0, 0));
  ((5, 0, 0), Some (3, 0, 0))].

Definition offline_rows : list (semver * option semver) := [
  ((9, 0, 0), None); ((8, 0, 0), Some (7, 2, 0)); ((7, 2, 4), Some (7, 1, 0));
  ((7, 1, 0), Some (6, 5, 0)); ((7, 0, 0), Some (5, 5, 3)); ((6, 5, 0), Some (5, 0, 0));
  ((6, 0, 0), Some (4, 0, 0)); ((5, 1, 0), Some (3, 0, 0))].

Lemma online_rows_ok `{Environment} learned :
  Forall2 (row_ok learned) (reverse onlineUpgradeFloors) online_rows.
Proof. unfold online_rows. cbv [reverse rev_append onlineUpgradeFloors]. rows_ok. Qed.

Lemma offline_rows_ok `{Environment} learned :
  Forall2 (row_ok learned) (reverse offlineUpgradeFloors) offline_rows.
Proof. unfold offline_rows. cbv [reverse rev_append offlineUpgradeFloors]. rows_ok. Qed.

Lemma semver_lt_mono t a b : semver_lt t a → ¬ semver_lt b a → semver_lt t b.
Proof. unfold semver_lt. lia. Qed.

Lemma semver_ge_mono t a b : ¬ semver_lt t a → ¬ semver_lt a b → ¬ semver_lt t b.
Proof. unfold semver_lt. lia. Qed.

(** Decides the next floor of a table by a bound on [t] already known, or splits. *)
Ltac floor_step t :=
  let literal := (unfold semver_lt; simpl; lia) in
  match goal with
  | H : semver_lt t ?a |- context [decide (semver_lt t ?b)] =>
      rewrite (decide_True (P := semver_lt t b)) by (apply (semver_lt_mono t a b H); literal)
  | H : ¬ semver_lt t ?a |- context [decide (semver_lt t ?b)] =>
      rewrite (decide_False (P := semver_lt t b)) by (apply (semver_ge_mono t a b H); literal)
  | |- context [decide (semver_lt t ?b)] => destruct (decide (semver_lt t b))
  end.

Lemma online_rows_floor t : rows_floor online_rows t = online_floor t.
Proof. unfold online_floor, online_rows, rows_floor. cbn [fst snd]. by repeat floor_step t. Qed.

Lemma offline_rows_floor t : rows_floor offline_rows t = offline_floor t.
Proof. unfold offline_floor, offline_rows, rows_floor. cbn [fst snd]. by repeat floor_step t. Qed.

Section checks.
Context `{Environment} (learned : gmap string string).
Context (c t : string) (cv tv : Version).
Context (Hc : NewVersion learned c = Ok cv) (Ht : NewVersion learned t = Ok tv).

Lemma CheckUpgradePath_cases :
  (path_ok online_floor cv tv ∧ CheckUpgradePath learned c t = Ok tt) ∨
  (¬ path_ok online_floor cv tv ∧ CheckUpgradePath learned c t = Err ErrInvalidVersion).
Proof.
  destruct (minUpgradeSource_rows_spec learned _ _ _ _ Ht (online_rows_ok learned)) as (f&Hf&Hm).
  rewrite online_rows_floor in Hm. by eapply checkUpgradePath_spec.
Qed.

Lemma CheckOfflineUpgradePath_cases :
  (path_ok offline_floor cv tv ∧ CheckOfflineUpgradePath learned c t = Ok tt) ∨
  (¬ path_ok offline_floor cv tv ∧ CheckOfflineUpgradePath learned c t = Err ErrInvalidVersion).
Proof.
  destruct (minUpgradeSource_rows_spec learned _ _ _ _ Ht (offline_rows_ok learned)) as (f&Hf&Hm).
  rewrite offline_rows_floor in Hm. by eapply checkUpgradePath_spec.
Qed.

Lemma CheckUpgradePath_ok : CheckUpgradePath learned c t = Ok tt ↔ path_ok online_floor cv tv.
Proof. destruct CheckUpgradePath_cases as [[? ->]|[? ->]]; done. Qed.

Lemma CheckOfflineUpgradePath_ok :
  CheckOfflineUpgradePath learned c t = Ok tt ↔ path_ok offline_floor cv tv.
Proof. destruct CheckOfflineUpgradePath_cases as [[? ->]|[? ->]]; done. Qed.

(** Pre-7.6.0 to 7.6.0 or 7.6.1. *)
Definition requires_swap : Prop :=
  semver_lt (v_semver cv) (7, 6, 0) ∧ ¬ semver_lt (v_semver tv) (7, 6, 0) ∧
  semver_lt (v_semver tv) (7, 6, 2).

Lemma IndexUpgradeRequiresSwap_cases :
  (requires_swap ∧ IndexUpgradeRequiresSwap learned c t = Ok true) ∨
  (¬ requires_swap ∧ IndexUpgradeRequiresSwap learned c t = Ok false).
Proof.
  unfold requires_swap, IndexUpgradeRequiresSwap, UpgradeCrosses.
  assert (release learned "7.6.0" (7, 6, 0)) as H760 by release.
  assert (release learned "7.6.2" (7, 6, 2)) as H762 by release.
  rewrite (VersionBefore_release _ _ _ _ _ Hc H760), (VersionAfter_release _ _ _ _ _ Ht H760),
    (VersionBefore_release _ _ _ _ _ Ht H762). cbn [mbind result_bind].
  repeat case_bool_decide; simpl;
    first [left; split; [tauto|done]|right; split; [tauto|done]].
Qed.
End checks.

Lemma path_ok_upward floor c c' t :
  path_ok floor c t → ¬ key_lt c' c → ¬ key_lt t c' → path_ok floor c' t.
Proof.
  intros Hp Hcc Hct. destruct (key_total c' t) as [Hlt|[?|?]]; [|by left|done].
  right. split; [done|]. destruct Hp as [He|(Hl&m&Hm&Hge)].
  - destruct Hcc. eapply key_lt_eq; [done|by apply key_eq_sym].
  - exists m. split; [done|]. intros Hb. apply Hge. unfold key_lt in Hcc.
    unfold semver_lt, Major, Minor, Patch in *. clear -Hcc Hb. lia.
Qed.

Lemma floors_offline_le t m :
  online_floor t = Some m → ¬ semver_lt t (5, 1, 0) →
  ∃ m', offline_floor t = Some m' ∧ ¬ semver_lt m m'.
Proof.
  intros Hm Ht. revert Hm. unfold online_floor, offline_floor. repeat floor_step t;
    intros [= <-]; eexists; (split; [reflexivity|unfold semver_lt; simpl; lia]).
Qed.

Lemma floors_agree t : ¬ semver_lt t (7, 2, 4) → offline_floor t = online_floor t.
Proof. unfold online_floor, offline_floor. intros Ht. by repeat floor_step t. Qed.

(** ** Properties *)

(** The upgrade checks decide the floor tables: for versions that parse,
    [CheckUpgradePath] and [CheckOfflineUpgradePath] accept exactly when the two
    versions are the same, or the target is later and the source is at or above
    the online (offline) floor of the target, compared on the three numbers;
    anything else is an invalid version error. *)
Theorem CheckUpgradePath_decides `{Environment} learned c t cv tv
    (Hc : NewVersion learned c = Ok cv) (Ht : NewVersion learned t = Ok tv) :
  (CheckUpgradePath learned c t = Ok tt ↔ path_ok online_floor cv tv) ∧
  (CheckOfflineUpgradePath learned c t = Ok tt ↔ path_ok offline_floor cv tv) ∧
  (¬ path_ok online_floor cv tv → CheckUpgradePath learned c t = Err ErrInvalidVersion) ∧
  (¬ path_ok offline_floor cv tv →
     CheckOfflineUpgradePath learned c t = Err ErrInvalidVersion).
Proof.
  split; [by apply CheckUpgradePath_ok|]. split; [by apply CheckOfflineUpgradePath_ok|].
  split; intros Hn.
  - by destruct (CheckUpgradePath_cases learned c t cv tv Hc Ht) as [[? _]|[_ ?]].
  - by destruct (CheckOfflineUpgradePath_cases learned c t cv tv Hc Ht) as [[? _]|[_ ?]].
Qed.

Lemma CheckUpgradePath_decides_witness :
  CheckUpgradePath (H := λ _, None) ∅ "7.0.5" "8.0.0" = Err ErrInvalidVersion ∧
  CheckOfflineUpgradePath (H := λ _, None) ∅ "enterprise-6.5.2" "7.1.0" = Ok tt.
Proof.
  split.
  - destruct (CheckUpgradePath_decides (H := λ _, None) ∅ "7.0.5" "8.0.0"
      (mkVersion "7.0.5" "" (7, 0, 5)) (mkVersion "8.0.0" "" (8, 0, 0))) as (_&_&Herr&_);
      [vm_compute; reflexivity..|].
    apply Herr. intros [(?&_)|(_&m&[= <-]&Hm)]; [discriminate|].
    apply Hm. right. simpl. lia.
  - destruct (CheckUpgradePath_decides (H := λ _, None) ∅ "enterprise-6.5.2" "7.1.0"
      (mkVersion "enterprise-6.5.2" "enterprise" (6, 5, 2)) (mkVersion "7.1.0" "" (7, 1, 0)))
      as (_&Hok&_); [vm_compute; reflexivity..|].
    apply Hok. right. split; [left; reflexivity|]. exists (6, 5, 0). split; [reflexivity|].
    unfold semver_lt. simpl. lia.
Defined.

(** Floors are minima: when a source may be upgraded to a target, online or
    offline, so may every version between the two. *)
Theorem CheckUpgradePath_upward_closed `{Environment} learned c c' t cv cv' tv
    (Hc : NewVersion learned c = Ok cv) (Hc' : NewVersion learned c' = Ok cv')
    (Ht : NewVersion learned t = Ok tv)
    (Hlow : GreaterEqual cv' cv = true) (Hhigh : GreaterEqual tv cv' = true) :
  (CheckUpgradePath learned c t = Ok tt → CheckUpgradePath learned c' t = Ok tt) ∧
  (CheckOfflineUpgradePath learned c t = Ok tt → CheckOfflineUpgradePath learned c' t = Ok tt).
Proof.
  apply GreaterEqual_key in Hlow, Hhigh. split.
  - rewrite (CheckUpgradePath_ok _ _ _ _ _ Hc Ht), (CheckUpgradePath_ok _ _ _ _ _ Hc' Ht).
    intros Hp. by eapply path_ok_upward.
  - rewrite (CheckOfflineUpgradePath_ok _ _ _ _ _ Hc Ht),
      (CheckOfflineUpgradePath_ok _ _ _ _ _ Hc' Ht).
    intros Hp. by eapply path_ok_upward.
Qed.

Lemma CheckUpgradePath_upward_closed_witness :
  CheckUpgradePath (H := λ _, None) ∅ "7.2.2" "7.6.0" = Ok tt.
Proof.
  destruct (CheckUpgradePath_upward_closed (H := λ _, None) ∅ "7.1.0" "7.2.2" "7.6.0"
    (mkVersion "7.1.0" "" (7, 1, 0)) (mkVersion "7.2.2" "" (7, 2, 2))
    (mkVersion "7.6.0" "" (7, 6, 0))) as [Hon _]; [vm_compute; reflexivity..|].
  apply Hon. vm_compute. reflexivity.
Defined.

(** offline upgrades are at least as permissive as online ones from target
    5.1.0 on, and exactly as permissive from target 7.2.4 on. *)
Theorem CheckOfflineUpgradePath_looser `{Environment} learned c t cv tv
    (Hc : NewVersion learned c = Ok cv) (Ht : NewVersion learned t = Ok tv)
    (H510 : ¬ semver_lt (v_semver tv) (5, 1, 0)) :
  (CheckUpgradePath learned c t = Ok tt → CheckOfflineUpgradePath learned c t = Ok tt) ∧
  (¬ semver_lt (v_semver tv) (7, 2, 4) →
     CheckOfflineUpgradePath learned c t = CheckUpgradePath learned c t).
Proof.
  split.
  - rewrite (CheckUpgradePath_ok _ _ _ _ _ Hc Ht), (CheckOfflineUpgradePath_ok _ _ _ _ _ Hc Ht).
    intros [?|(Hl&m&Hm&Hge)]; [by left|right]. split; [done|].
    destruct (floors_offline_le _ _ Hm H510) as (m'&Hm'&Hle). exists m'. split; [done|].
    intros Hb. apply Hge. unfold semver_lt in *. lia.
  - intros H724.
    assert (path_ok offline_floor cv tv ↔ path_ok online_floor cv tv) as Heq.
    { unfold path_ok. by rewrite floors_agree. }
    destruct (CheckUpgradePath_cases _ _ _ _ _ Hc Ht) as [[? ->]|[? ->]],
      (CheckOfflineUpgradePath_cases _ _ _ _ _ Hc Ht) as [[? ->]|[? ->]]; tauto.
Qed.

Lemma CheckOfflineUpgradePath_looser_witness :
  CheckOfflineUpgradePath (H := λ _, None) ∅ "7.1.3" "7.6.0" = Ok tt.
Proof.
  destruct (CheckOfflineUpgradePath_looser (H := λ _, None) ∅ "7.1.3" "7.6.0"
    (mkVersion "7.1.3" "" (7, 1, 3)) (mkVersion "7.6.0" "" (7, 6, 0))) as [Hon _];
    [vm_compute; reflexivity..|unfold semver_lt; simpl; lia|].
  apply Hon. vm_compute. reflexivity.
Defined.

Lemma online_step_to `{Environment} learned c cv s m :
  NewVersion learned c = Ok cv → release learned s m → semver_lt (v_semver cv) m →
  (∃ f, online_floor m = Some f ∧ ¬ semver_lt (v_semver cv) f) →
  online_step learned c s.
Proof.
  intros Hc Hr Hl Hf. unfold online_step.
  apply (CheckUpgradePath_ok _ _ _ _ _ Hc (release_parses _ _ _ Hr)). right.
  split; [|done]. by apply (key_lt_release learned).
Qed.

(** The tables leave no cluster behind: from every version from 5.0.0 up to
    8.0.0 there is a sequence of at most three accepted online upgrades that ends
    at 8.0.0. *)
Theorem online_upgrades_reach_8 `{Environment} learned c cv
    (Hc : NewVersion learned c = Ok cv)
    (H5 : ¬ semver_lt (v_semver cv) (5, 0, 0)) (H8 : semver_lt (v_semver cv) (8, 0, 0)) :
  ∃ n, (n ≤ 3)%nat ∧ nsteps (online_step learned) n c "8.0.0".
Proof.
  assert (release learned "8.0.0" (8, 0, 0)) as R8 by release.
  assert (release learned "7.2.3" (7, 2, 3)) as R7 by release.
  assert (release learned "6.6.0" (6, 6, 0)) as R6 by release.
  assert (online_step learned "7.2.3" "8.0.0") as S2.
  { eapply online_step_to; [apply R7|apply R8|by left|]. eexists. split; [done|].
    unfold semver_lt; simpl; lia. }
  assert (online_step learned "6.6.0" "7.2.3") as S1.
  { eapply online_step_to; [apply R6|apply R7|by left|]. eexists. split; [done|].
    unfold semver_lt; simpl; lia. }
  destruct (decide (semver_lt (v_semver cv) (6, 6, 0))) as [L6|G6].
  { exists 3%nat. split; [done|]. apply (nsteps_l _ _ _ "6.6.0"); [|by repeat econstructor].
    eapply online_step_to; [done|apply R6|done|]. by eexists. }
  destruct (decide (semver_lt (v_semver cv) (7, 2, 0))) as [L7|G7].
  { exists 2%nat. split; [lia|]. apply (nsteps_l _ _ _ "7.2.3"); [|by repeat econstructor].
    eapply online_step_to; [done|apply R7| |by eexists]. unfold semver_lt in *; simpl in *; lia. }
  exists 1%nat. split; [lia|]. apply nsteps_once.
  eapply online_step_to; [done|apply R8|done|]. by eexists.
Qed.

Lemma online_upgrades_reach_8_witness :
  ∃ n, (n ≤ 3)%nat ∧ nsteps (online_step (H := λ _, None) ∅) n "community-6.0.4" "8.0.0".
Proof.
  apply (online_upgrades_reach_8 (H := λ _, None) ∅ "community-6.0.4"
    (mkVersion "community-6.0.4" "community" (6, 0, 4))).
  - vm_compute. reflexivity.
  - unfold semver_lt. simpl. lia.
  - unfold semver_lt. simpl. lia.
Defined.

(** Waking a hibernated cluster on another version is accepted exactly when
    the offline path is, no index node would have to swap from before 7.6.0 to
    7.6.0 or 7.6.1, and, where the online rules apply as well, the online path
    is accepted. *)
Theorem CheckHibernationUpgradePath_decides `{Environment} learned c t cv tv hasIndex online
    (Hc : NewVersion learned c = Ok cv) (Ht : NewVersion learned t = Ok tv) :
  CheckHibernationUpgradePath learned c t hasIndex online = Ok tt ↔
  path_ok offline_floor cv tv ∧
  (hasIndex = true → ¬ requires_swap cv tv) ∧
  (online = true → path_ok online_floor cv tv).
Proof.
  unfold CheckHibernationUpgradePath.
  destruct (CheckOfflineUpgradePath_cases _ _ _ _ _ Hc Ht) as [[Ho ->]|[Ho ->]];
    cbn [mbind result_bind]; [|by split; [|intros []]].
  destruct (IndexUpgradeRequiresSwap_cases _ _ _ _ _ Hc Ht) as [[Hs Es]|[Hs Es]],
    (CheckUpgradePath_cases _ _ _ _ _ Hc Ht) as [[Hp Ep]|[Hp Ep]], hasIndex, online;
    rewrite ?Es; cbn [mbind result_bind]; rewrite ?Ep; naive_solver.
Qed.

Lemma CheckHibernationUpgradePath_decides_witness :
  CheckHibernationUpgradePath (H := λ _, None) ∅ "7.2.5" "7.6.2" true true = Ok tt.
Proof.
  refine (proj2 (CheckHibernationUpgradePath_decides (H := λ _, None) ∅ "7.2.5" "7.6.2"
    (mkVersion "7.2.5" "" (7, 2, 5)) (mkVersion "7.6.2" "" (7, 6, 2)) true true _ _) _);
    [vm_compute; reflexivity..|].
  unfold path_ok, requires_swap, semver_lt, key_lt. simpl.
  split; [|split]; [right|intros _; lia|intros _; right];
    (split; [unfold Major, Minor, Patch; simpl; lia|]);
    exists (7, 1, 0); simpl; (split; [reflexivity|lia]).
Defined.
