(* ===== verification/Member.v ===== *)
(** * pkg/util/couchbaseutil/member.go: members and sets of members

    A member is a pod of the operator or a node known to Couchbase only; a
    [MemberSet] is a map from names.  Go ranges over a map in any order: a loop
    whose result could depend on it is a function of the list of entries, and
    the set operations run it on [map_to_list]. *)

From Stdlib Require Import Ascii.
From S2P Require Import Prelude GoLib.
Local Open Scope Z_scope.

Definition adminPort : Z := 8091.
Definition adminPortTLS : Z := 18091.

(** ** Host names *)

(** The first part of a split, which always has one. *)
Definition split_first (s : string) (sep : ascii) : string := hd "" (strings_Split s sep).

Definition GetMemberName (hostName : string) : string :=
  let stripped := split_first hostName ":"%char in
  if net_ParseIP stripped then stripped else split_first hostName "."%char.

Definition WithoutPort (hostName : string) : string := split_first hostName ":"%char.

Definition HostName_GetOTPNode (hostName : string) : string :=
  "ns_1@" +:+ split_first hostName ":"%char.

Definition HostNameList_OTPNodes (hostNames : list string) : list string :=
  HostName_GetOTPNode <$> hostNames.

(** ** Members *)
Record memberImpl := mkMember {
  m_name : string;
  m_cluster : string;
  m_namespace : string;
  m_config : string;
  m_useTLS : bool;
  m_version : string;
  m_dnsHostName : string;
  m_image : string;
}.

Record externamMemberImpl := mkExternal {
  e_useTLS : bool;
  e_host : string;
  e_config : string;
  e_isIPName : bool;
}.

Inductive Member :=
  | Pod (m : memberImpl)
  | External (m : externamMemberImpl).

#[export] Instance memberImpl_eq_dec : EqDecision memberImpl.
Proof. solve_decision. Defined.
#[export] Instance externamMemberImpl_eq_dec : EqDecision externamMemberImpl.
Proof. solve_decision. Defined.
#[export] Instance Member_eq_dec : EqDecision Member.
Proof. solve_decision. Defined.

Definition NewMember (namespace cluster name version config : string) (useTLS : bool)
    (image : string) : Member :=
  Pod (mkMember name cluster namespace config useTLS version "" image).

Definition NewPartialMember (namespace cluster name : string) : Member :=
  Pod (mkMember name cluster namespace "" false "" "" "").

Definition NewExtConnectedMember (namespace cluster name version config : string)
    (useTLS : bool) (hostname image : string) : Member :=
  Pod (mkMember name cluster namespace config useTLS version hostname image).

Definition NewExternalMember (host config : string) (useTLS : bool) : Member :=
  External (mkExternal useTLS host config (net_ParseIP host)).

(** The setters of an external member do nothing. *)
Definition SetVersion (m : Member) (version : string) : Member :=
  match m with
  | Pod (mkMember n c ns cf t _ d i) => Pod (mkMember n c ns cf t version d i)
  | External _ => m
  end.

Definition SetDNSName (m : Member) (hostname : string) : Member :=
  match m with
  | Pod (mkMember n c ns cf t v _ i) => Pod (mkMember n c ns cf t v hostname i)
  | External _ => m
  end.

Definition SetImage (m : Member) (image : string) : Member :=
  match m with
  | Pod (mkMember n c ns cf t v d _) => Pod (mkMember n c ns cf t v d image)
  | External _ => m
  end.

Definition IsExternal (m : Member) : bool :=
  match m with Pod _ => false | External _ => true end.

Definition GetImage (m : Member) : string :=
  match m with Pod m => m_image m | External _ => "" end.

Definition MemberVersion (m : Member) : string :=
  match m with Pod m => m_version m | External _ => "" end.

Definition Name (m : Member) : string :=
  match m with
  | Pod m => m_name m
  | External m => if e_isIPName m then e_host m else split_first (e_host m) "."%char
  end.

Definition Config (m : Member) : string :=
  let config := match m with Pod m => m_config m | External m => e_config m end in
  if bool_decide (config = "") then "unknown" else config.

Definition UseTLS (m : Member) : bool :=
  match m with Pod m => m_useTLS m | External m => e_useTLS m end.

Definition Clone (m : Member) : Member :=
  match m with
  | Pod m => Pod (mkMember (m_name m) (m_cluster m) (m_namespace m) (m_config m)
      (m_useTLS m) (m_version m) (m_dnsHostName m) (m_image m))
  | External m => External m
  end.

Definition GetLocalDNSName (m : memberImpl) : string :=
  m_name m +:+ "." +:+ m_cluster m +:+ "." +:+ m_namespace m +:+ ".svc".

Definition GetDNSName (m : Member) : string :=
  match m with
  | Pod m => if bool_decide (m_dnsHostName m ≠ "") then m_dnsHostName m else GetLocalDNSName m
  | External m => e_host m
  end.

(** The name the client connects to: a pod's service name, an external host. *)
Definition client_name (m : Member) : string :=
  match m with Pod m => GetLocalDNSName m | External m => e_host m end.

Definition clientScheme (m : Member) : string := if UseTLS m then "https" else "http".
Definition clientPort (m : Member) : Z := if UseTLS m then adminPortTLS else adminPort.

Definition GetHostPort (m : Member) : string :=
  client_name m +:+ ":" +:+ strconv_Itoa (clientPort m).
Definition GetHostPortTLS (m : Member) : string := client_name m +:+ ":18091".
Definition GetHostURL (m : Member) : string := clientScheme m +:+ "://" +:+ GetHostPort m.
Definition GetHostURLPlaintext (m : Member) : string := "http://" +:+ client_name m +:+ ":8091".
Definition GetHostName (m : Member) : string := GetDNSName m +:+ ":8091".
Definition GetOTPNode (m : Member) : string := "ns_1@" +:+ GetDNSName m.

(** ** Sets and lists of members *)
Abbreviation MemberSet := (gmap string Member).
Abbreviation MemberList := (list Member).

Definition Add (m : Member) (ms : MemberSet) : MemberSet := <[Name m := m]> ms.
Definition Remove (name : string) (ms : MemberSet) : MemberSet := delete name ms.

(** The loop [for _, m := range l { set.Add(m) }]. *)
Definition add_all (l : list Member) (ms : MemberSet) : MemberSet :=
  foldl (λ ms m, Add m ms) ms l.

Definition NewMemberSet (l : list Member) : MemberSet := add_all l ∅.
Definition ToSet (l : MemberList) : MemberSet := add_all l ∅.

Definition MemberList_Contains (l : MemberList) (name : string) : bool :=
  existsb (λ m, bool_decide (Name m = name)) l.

(** The members a loop over the set visits. *)
Definition members (ms : MemberSet) : list Member := (map_to_list ms).*2.

Definition name_leb (m o : Member) : bool := String.leb (Name m) (Name o).
Definition ToList (ms : MemberSet) : MemberList := stable_sort name_leb (members ms).

Definition Contains (ms : MemberSet) (name : string) : bool := bool_decide (is_Some (ms !! name)).

Definition ContainsOTP (ms : MemberSet) (node : string) : bool :=
  existsb (λ m, bool_decide (GetOTPNode m = node)) (members ms).

Definition Copy (ms : MemberSet) : MemberSet := list_to_map (map_to_list ms).

Definition Diff (ms other : MemberSet) : MemberSet :=
  filter (λ e, other !! e.1 = None) ms.

Definition Intersect (ms other : MemberSet) : MemberSet :=
  filter (λ e, is_Some (other !! e.1)) ms.

Definition Equal (ms other : MemberSet) : bool :=
  forallb (λ e, bool_decide (is_Some (other !! e.1))) (map_to_list ms).

Definition Size (ms : MemberSet) : nat := size ms.
Definition Empty (ms : MemberSet) : bool := bool_decide (size ms = 0%nat).

Definition MergeWithOverwrite (ms other : MemberSet) : MemberSet := add_all (members other) ms.

(** [Merge] on the entries of [other] in the order they are visited. *)
Definition merge_entries (l : list (string * Member)) (ms : MemberSet) : MemberSet :=
  foldl (λ ms e, match ms !! e.1 with Some _ => ms | None => Add e.2 ms end) ms l.

Definition Merge (ms other : MemberSet) : MemberSet := merge_entries (map_to_list other) ms.

Definition Names (ms : MemberSet) : list string := sort_Strings (Name <$> members ms).

Definition OTPNodes (ms : MemberSet) : list string := GetOTPNode <$> members ms.

Definition GroupBy (f : Member → bool) (ms : MemberSet) : MemberSet :=
  add_all (filter (λ m, f m = true) (members ms)) ∅.

Definition GroupByServerConfig (config : string) (ms : MemberSet) : MemberSet :=
  add_all (filter (λ m, Config m = config) (members ms)) ∅.

Definition group_entry (grouped : gmap string MemberSet) (m : Member) : gmap string MemberSet :=
  match grouped !! Config m with
  | Some set => <[Config m := Add m set]> grouped
  | None => <[Config m := NewMemberSet [m]]> grouped
  end.

Definition GroupByServerConfigs (ms : MemberSet) : gmap string MemberSet :=
  foldl group_entry ∅ (members ms).

(** ** Member names *)
Definition CreateMemberName (cluster : string) (member : Z) : string :=
  cluster +:+ "-" +:+ fmt_04d member.

(** A name shorter than four bytes is a slice out of range. *)
Definition GetIndexFromMemberName (name : string) : result Z :=
  if bool_decide (String.length name < 4)%nat then Panic
  else Atoi (string_drop (String.length name - 4) name).

Definition DoesMemberIndexExistInIndexes (indexes memberName : string) : result bool :=
  match GetIndexFromMemberName memberName with
  | Ok index =>
      Ok (bool_decide (strconv_Itoa index ∈ strings_Split indexes ","%char))
  | Err _ => Ok false
  | Panic => Panic
  end.

(** The list of indexes that is returned, and the error. *)
Definition AddMemberIndexToIndexList (indexes memberName : string) : result (string * option error) :=
  match GetIndexFromMemberName memberName with
  | Ok index =>
      Ok (if bool_decide (index = 0) then indexes +:+ strconv_Itoa index
          else indexes +:+ "," +:+ strconv_Itoa index, None)
  | Err e => Ok (indexes, Some e)
  | Panic => Panic
  end.

(** The first loop of [GetAvailableIndexes]; it ends because every turn either
    appends an index or moves on to the next name. *)
Fixpoint available_loop (fuel : nat) (num : Z) (names : list string)
    (availableIndex : Z) (acc : list Z) : result (Z * list Z) :=
  match fuel with
  | O => Ok (availableIndex, acc)
  | S fuel =>
      if bool_decide (Z.of_nat (length acc) < num) then
        match names with
        | [] => Ok (availableIndex, acc)
        | name :: names' =>
            usedIndex ← GetIndexFromMemberName name;
            if bool_decide (availableIndex < usedIndex) then
              available_loop fuel num names (availableIndex + 1) (acc ++ [availableIndex])
            else available_loop fuel num names' (usedIndex + 1) acc
        end
      else Ok (availableIndex, acc)
  end.

(** Every number from here on is available. *)
Fixpoint fill_indexes (n : nat) (availableIndex : Z) (acc : list Z) : list Z :=
  match n with
  | O => acc
  | S n => fill_indexes n (availableIndex + 1) (acc ++ [availableIndex])
  end.

Definition GetAvailableIndexes (names : list string) (num : Z) : result (list Z) :=
  let names := sort_Strings names in
  r ← available_loop (Z.to_nat num + length names) num names 0 [];
  let '(availableIndex, availableIndexes) := r in
  Ok (fill_indexes (Z.to_nat (num - Z.of_nat (length availableIndexes))) availableIndex availableIndexes).

(** ** Specification *)

(** Every member is filed under its own name. *)
Definition keyed (ms : MemberSet) : Prop := ∀ n m, ms !! n = Some m → Name m = n.

(** [l] is the list of the [num] smallest numbers that are not in [used]. *)
Record smallest_free (used : list Z) (num : Z) (l : list Z) : Prop := {
  free_length : length l = Z.to_nat num;
  free_sorted : StronglySorted Z.lt l;
  free_unused : ∀ n, n ∈ l → 0 ≤ n ∧ n ∉ used;
  free_least : ∀ n m, m ∈ l → 0 ≤ n < m → n ∉ used → n ∈ l;
}.

(** ** Lemmas: indexes *)
Record available_inv (used rest : list Z) (av : Z) (acc : list Z) : Prop := {
  av_nonneg : 0 ≤ av;
  av_sorted : StronglySorted Z.lt acc;
  av_bound : ∀ n, n ∈ acc → 0 ≤ n < av;
  av_free : ∀ n, 0 ≤ n < av → n ∈ acc ↔ n ∉ used;
  av_rest : ∀ u, u ∈ used → u ∈ rest ∨ u < av;
  av_above : ∀ u, u ∈ rest → av - 1 ≤ u;
  av_used : ∀ u, u ∈ rest → u ∈ used;
}.

Lemma sorted_snoc l (x : Z) : StronglySorted Z.lt l → (∀ y, y ∈ l → y < x) →
  StronglySorted Z.lt (l ++ [x]).
Proof.
  induction 1 as [|y l Hl IH Hy]; intros Hx; simpl; [by repeat constructor|].
  constructor; [apply IH; intros z Hz; apply Hx; by right|].
  rewrite Forall_app. split; [done|]. constructor; [apply Hx; by left|done].
Qed.

(** The next index is free. *)
Lemma available_push used rest av acc :
  available_inv used rest av acc → (∀ u, u ∈ rest → av < u) →
  available_inv used rest (av + 1) (acc ++ [av]).
Proof.
  intros [H0 Hs Hb Hf Hr Ha Hu] Hlt.
  assert (av ∉ used) as Hav.
  { intros Hin. destruct (Hr _ Hin) as [Hin'|?]; [apply Hlt in Hin'|]; lia. }
  split; [lia| | | | | |done].
  - apply sorted_snoc; [done|]. intros y Hy. apply Hb in Hy. lia.
  - intros n. rewrite elem_of_app, list_elem_of_singleton. intros [Hn%Hb| ->]; lia.
  - intros n Hn. rewrite elem_of_app, list_elem_of_singleton.
    destruct (decide (n = av)) as [->|Hne]; [by split; [|right]|].
    rewrite <- Hf by lia. split; [by intros [?|?]|by left].
  - intros u Hin. destruct (Hr _ Hin); [by left|right; lia].
  - intros u Hin. apply Hlt in Hin. lia.
Qed.

(** The next name has been reached. *)
Lemma available_skip used u rest av acc :
  available_inv used (u :: rest) av acc → u ≤ av → (∀ x, x ∈ rest → u ≤ x) →
  available_inv used rest (u + 1) acc.
Proof.
  intros [H0 Hs Hb Hf Hr Ha Hu] Hle Hrest.
  assert (av - 1 ≤ u) as Hge by (apply Ha; by left).
  assert (u ∈ used) as Huin by (apply Hu; by left).
  assert (0 ≤ u + 1) as H0' by lia.
  split; [done|done| | | | |].
  - intros n Hn. apply Hb in Hn. lia.
  - intros n Hn. destruct (decide (n = u)) as [->|Hne].
    + split; [|done]. intros Hin. specialize (Hb _ Hin). by apply Hf in Hin.
    + apply Hf. lia.
  - intros x Hx. destruct (Hr _ Hx) as [Hin|?]; [|right; lia].
    apply elem_of_cons in Hin as [->|?]; [right; lia|by left].
  - intros x Hx. apply Hrest in Hx. lia.
  - intros x Hx. apply Hu. by right.
Qed.

Lemma fill_indexes_inv used n : ∀ av acc,
  available_inv used [] av acc →
  ∃ av' acc', fill_indexes n av acc = acc' ∧ available_inv used [] av' acc' ∧
    length acc' = (length acc + n)%nat.
Proof.
  induction n as [|n IH]; intros av acc Hinv; simpl.
  { exists av, acc. split; [done|]. split; [done|lia]. }
  destruct (IH (av + 1) (acc ++ [av])) as (av'&acc'&He&Hi&Hl).
  { apply available_push; [done|]. intros u Hin. by apply not_elem_of_nil in Hin. }
  exists av', acc'. split; [done|]. split; [done|]. rewrite Hl, length_app. simpl. lia.
Qed.

Lemma available_loop_spec used num fuel : ∀ names rest av acc,
  Forall2 (λ name u, GetIndexFromMemberName name = Ok u) names rest →
  StronglySorted Z.le rest → available_inv used rest av acc →
  (Z.to_nat (num - Z.of_nat (length acc)) + length names ≤ fuel)%nat →
  (length acc ≤ Z.to_nat num)%nat →
  ∃ av' acc' rest', available_loop fuel num names av acc = Ok (av', acc') ∧
    available_inv used rest' av' acc' ∧ (length acc' ≤ Z.to_nat num)%nat ∧
    (rest' = [] ∨ Z.of_nat (length acc') = Z.max 0 num).
Proof.
  induction fuel as [|fuel IH]; intros names rest av acc Hn Hs Hinv Hf Hacc; simpl.
  { exists av, acc, rest. do 3 (split; [done|]).
    left. destruct Hn; [done|]. simpl in Hf. lia. }
  case_bool_decide as Hlt; [|exists av, acc, rest; do 3 (split; [done|]); right; lia].
  destruct Hn as [|name u names rest Hu Hn]; [exists av, acc, []; do 3 (split; [done|]); by left|].
  rewrite Hu. cbn [mbind result_bind].
  apply StronglySorted_inv in Hs as [Hs Hmin]. rewrite Forall_forall in Hmin.
  case_bool_decide as Hcmp.
  - apply (IH (name :: names) (u :: rest)).
    + by constructor.
    + constructor; [done|]. by rewrite Forall_forall.
    + apply available_push; [done|]. intros x [->|Hx]%elem_of_cons; [done|].
      apply Hmin in Hx. lia.
    + rewrite length_app. simpl in *. lia.
    + rewrite length_app. simpl. lia.
  - apply (IH names rest); [done|done| |simpl in Hf; lia|done].
    eapply available_skip; [exact Hinv|lia|done].
Qed.

(** ** Lemmas: names *)
Definition last_digits (n : Z) : string := fmt_04d (n mod 10000).

Definition digit (d : Z) : Ascii.ascii := pretty_N_char (Z.to_N d).

(** The last four digits, written out. *)
Definition four_digits (n : Z) : string :=
  String (digit (n / 1000)) (String (digit (n / 100 mod 10))
    (String (digit (n / 10 mod 10)) (String (digit (n mod 10)) ""))).

Lemma pretty_N_go_digit (x : N) s : (0 < x < 10)%N → pretty_N_go x s = String (pretty_N_char x) s.
Proof.
  intros Hx. rewrite pretty_N_go_step by lia. rewrite N.div_small, N.mod_small by lia. apply pretty_N_go_0.
Qed.

Lemma pretty_digits (x : N) : (x < 10000)%N →
  zeros (4 - String.length (pretty x)) +:+ pretty x =
  String (pretty_N_char (x / 1000)) (String (pretty_N_char ((x / 100) `mod` 10))
    (String (pretty_N_char ((x / 10) `mod` 10)) (String (pretty_N_char (x `mod` 10)) ""))).
Proof.
  intros Hx. unfold pretty, pretty_N. case_decide as H0; [by subst|].
  assert (x / 10 / 10 = x / 100 ∧ x / 100 / 10 = x / 1000)%N as [E1 E2]
    by (rewrite !N.Div0.div_div; done).
  assert (x / 1000 < 10)%N as H4 by (apply N.Div0.div_lt_upper_bound; lia).
  destruct (decide (x < 10)%N) as [H1|H1].
  { rewrite pretty_N_go_digit by lia. rewrite !(N.div_small x) by lia. rewrite (N.mod_small x) by lia. done. }
  rewrite pretty_N_go_step by lia. assert (0 < x / 10)%N as H1' by (apply N.div_str_pos; lia).
  destruct (decide (x < 100)%N) as [H2|H2].
  { assert (x / 10 < 10)%N by (apply N.Div0.div_lt_upper_bound; lia).
    rewrite pretty_N_go_digit by lia. rewrite !(N.div_small x 100), !(N.div_small x 1000) by lia.
    rewrite (N.mod_small (x / 10)) by lia. done. }
  rewrite pretty_N_go_step, E1 by lia. assert (0 < x / 100)%N as H2' by (apply N.div_str_pos; lia).
  destruct (decide (x < 1000)%N) as [H3|H3].
  { assert (x / 100 < 10)%N by (apply N.Div0.div_lt_upper_bound; lia).
    rewrite pretty_N_go_digit by lia. rewrite !(N.div_small x 1000) by lia.
    rewrite (N.mod_small (x / 100)) by lia. done. }
  rewrite pretty_N_go_step, E2 by lia. assert (0 < x / 1000)%N as H3' by (apply N.div_str_pos; lia).
  rewrite pretty_N_go_digit by lia. done.
Qed.

Lemma four_digits_spec n : 0 ≤ n < 10000 →
  String.length (fmt_04d n) = 4%nat ∧ Atoi (fmt_04d n) = Ok n ∧ fmt_04d n = four_digits n.
Proof.
  intros Hn. assert (fmt_04d n = four_digits n) as Hd.
  { unfold fmt_04d, four_digits, digit. rewrite bool_decide_eq_false_2, Z.abs_eq by lia.
    rewrite pretty_digits by lia.
    rewrite !Z2N.inj_mod, !Z2N.inj_div by (lia || apply Z.div_pos; lia). done. }
  rewrite Hd. split; [done|]. split; [|done]. rewrite <- Hd. unfold fmt_04d.
  rewrite bool_decide_eq_false_2, Z.abs_eq by lia.
  apply Atoi_digits; [|by rewrite parse_digits_zeros, parse_digits_pretty, Z2N.id by lia|unfold MaxInt; lia].
  rewrite pretty_digits by lia. done.
Qed.

Lemma pretty_N_go_acc (x : N) s : pretty_N_go x s = pretty_N_go x "" +:+ s.
Proof.
  revert s. induction (N.lt_wf_0 x) as [x _ IH]; intros s.
  destruct (decide (x = 0)%N) as [->|Hx]; [by rewrite !pretty_N_go_0|].
  rewrite !(pretty_N_go_step x) by lia.
  assert (x `div` 10 < x)%N as Hlt by (apply N.div_lt; lia).
  rewrite (IH _ Hlt (String _ s)), (IH _ Hlt (String _ "")).
  by rewrite append_assoc, append_cons.
Qed.

Lemma pretty_N_split (x : N) : (10000 ≤ x)%N →
  pretty x = pretty_N_go (x / 10000) "" +:+
    String (pretty_N_char ((x / 1000) `mod` 10)) (String (pretty_N_char ((x / 100) `mod` 10))
      (String (pretty_N_char ((x / 10) `mod` 10)) (String (pretty_N_char (x `mod` 10)) ""))).
Proof.
  intros Hx. unfold pretty, pretty_N. rewrite decide_False by lia.
  assert (∀ k, (0 < k ≤ 10000)%N → (0 < x / k)%N) as Hdiv.
  { intros k Hk. apply N.div_str_pos. lia. }
  rewrite pretty_N_go_step by lia.
  rewrite pretty_N_go_step by (apply Hdiv; lia). rewrite N.Div0.div_div.
  change (10 * 10)%N with 100%N. rewrite pretty_N_go_step by (apply Hdiv; lia).
  rewrite N.Div0.div_div. change (100 * 10)%N with 1000%N.
  rewrite pretty_N_go_step by (apply Hdiv; lia). rewrite N.Div0.div_div.
  change (1000 * 10)%N with 10000%N. apply pretty_N_go_acc.
Qed.

Lemma digits_mod_1000 n : (n mod 10000) / 1000 = (n / 1000) mod 10.
Proof. Z.to_euclidean_division_equations. lia. Qed.
Lemma digits_mod_100 n : (n mod 10000) / 100 mod 10 = (n / 100) mod 10.
Proof. Z.to_euclidean_division_equations. lia. Qed.
Lemma digits_mod_10 n : (n mod 10000) / 10 mod 10 = (n / 10) mod 10.
Proof. Z.to_euclidean_division_equations. lia. Qed.
Lemma digits_mod_1 n : (n mod 10000) mod 10 = n mod 10.
Proof. Z.to_euclidean_division_equations. lia. Qed.

Lemma fmt_04d_split n : 0 ≤ n → ∃ p, fmt_04d n = p +:+ last_digits n.
Proof.
  intros Hn. unfold last_digits. destruct (decide (n < 10000)) as [Hlt|Hge].
  { exists "". by rewrite Z.mod_small. }
  exists (pretty_N_go (Z.to_N (n / 10000)) "").
  destruct (four_digits_spec (n mod 10000)) as (_&_&->); [apply Z.mod_pos_bound; lia|].
  unfold fmt_04d. rewrite bool_decide_eq_false_2, Z.abs_eq by lia.
  pose proof (pretty_N_split (Z.to_N n) ltac:(lia)) as Hs.
  assert (4 ≤ String.length (pretty (Z.to_N n)))%nat as Hl.
  { rewrite Hs, append_length. simpl. lia. }
  replace (4 - String.length (pretty (Z.to_N n)))%nat with 0%nat by lia.
  simpl zeros. rewrite append_nil_l, Hs.
  rewrite Z2N.inj_div by lia. f_equal.
  assert (∀ k, 0 < k → Z.to_N (n / k) = (Z.to_N n / Z.to_N k)%N) as Hdiv
    by (intros k Hk; by rewrite Z2N.inj_div by lia).
  assert (∀ x, 0 ≤ x → Z.to_N (x mod 10) = (Z.to_N x mod 10)%N) as Hmod
    by (intros x Hx; by rewrite Z2N.inj_mod by lia).
  unfold four_digits, digit. rewrite digits_mod_1000, digits_mod_100, digits_mod_10, digits_mod_1 by lia.
  rewrite !Hmod, !Hdiv by (apply Z.div_pos || lia; lia). done.
Qed.

Lemma CreateMemberName_index cluster n :
  0 ≤ n → GetIndexFromMemberName (CreateMemberName cluster n) = Ok (n mod 10000).
Proof.
  intros Hn. unfold CreateMemberName, GetIndexFromMemberName.
  destruct (fmt_04d_split n Hn) as [p ->].
  destruct (four_digits_spec (n mod 10000)) as (Hl&Ha&_); [apply Z.mod_pos_bound; lia|].
  unfold last_digits. rewrite <- !append_assoc. set (q := (cluster +:+ "-") +:+ p).
  rewrite append_length, Hl, bool_decide_eq_false_2 by lia.
  replace (String.length q + 4 - 4)%nat with (String.length q) by lia.
  by rewrite string_drop_app.
Qed.

Lemma string_leb_refl x : String.leb x x = true.
Proof. by destruct (string_leb_total x x). Qed.

Lemma string_leb_app p x y : String.leb (p +:+ x) (p +:+ y) = String.leb x y.
Proof.
  induction p as [|c p IH]; [done|]. rewrite !append_cons.
  unfold String.leb in *. simpl. rewrite Ascii.compare_antisym.
  unfold Ascii.compare. by rewrite N.compare_refl.
Qed.

Lemma digit_leb_cons x y s t : 0 ≤ x < 10 → 0 ≤ y < 10 → x < y ∨ x = y ∧ String.leb s t = true →
  String.leb (String (digit x) s) (String (digit y) t) = true.
Proof.
  intros Hx Hy [Hlt|[-> Hst]].
  - assert (forallb (λ x, forallb (λ y, (y <=? x) || match Ascii.compare (digit x) (digit y) with Lt => true | _ => false end)
        (seqZ 0 10)) (seqZ 0 10) = true) as Hall by (vm_compute; reflexivity).
    rewrite forallb_forall in Hall. specialize (Hall x). rewrite forallb_forall in Hall.
    specialize (Hall ltac:(apply list_elem_of_In, elem_of_seqZ; lia) y ltac:(apply list_elem_of_In, elem_of_seqZ; lia)).
    apply orb_true_iff in Hall as [?%Z.leb_le|Hc]; [lia|]. unfold String.leb. simpl.
    by destruct (Ascii.compare _ _).
  - change (String.leb (String (digit y) "" +:+ s) (String (digit y) "" +:+ t) = true).
    by rewrite string_leb_app.
Qed.

Lemma fmt_04d_mono i j : 0 ≤ i → i ≤ j → j < 10000 → String.leb (fmt_04d i) (fmt_04d j) = true.
Proof.
  intros Hi Hij Hj.
  rewrite (proj2 (proj2 (four_digits_spec i ltac:(lia)))), (proj2 (proj2 (four_digits_spec j ltac:(lia)))).
  assert (i / 1000 ≤ j / 1000 ∧ i / 100 ≤ j / 100 ∧ i / 10 ≤ j / 10) as (H1&H2&H3)
    by (split_and!; apply Z.div_le_mono; lia).
  assert (∀ n, n / 100 = 10 * (n / 1000) + n / 100 mod 10) as E1
    by (intros n; change 1000 with (100 * 10); rewrite <- Z.div_div by lia; apply Z.div_mod; lia).
  assert (∀ n, n / 10 = 10 * (n / 100) + n / 10 mod 10) as E2
    by (intros n; change 100 with (10 * 10); rewrite <- Z.div_div by lia; apply Z.div_mod; lia).
  pose proof (λ n, Z.div_mod n 10 ltac:(lia)) as E3.
  pose proof (E1 i); pose proof (E1 j); pose proof (E2 i); pose proof (E2 j); pose proof (E3 i); pose proof (E3 j).
  assert (∀ n, 0 ≤ n mod 10 < 10) as Hm by (intros n; apply Z.mod_pos_bound; lia).
  assert (∀ n, 0 ≤ n < 10000 → 0 ≤ n / 1000 < 10) as Hd
    by (intros n Hn; split; [apply Z.div_pos; lia|apply Z.div_lt_upper_bound; lia]).
  unfold four_digits. apply digit_leb_cons; [apply Hd; lia..|].
  destruct (decide (i / 1000 < j / 1000)); [by left|right; split; [lia|]].
  apply digit_leb_cons; [apply Hm..|].
  destruct (decide (i / 100 < j / 100)); [left; lia|right; split; [lia|]].
  apply digit_leb_cons; [apply Hm..|].
  destruct (decide (i / 10 < j / 10)); [left; lia|right; split; [lia|]].
  apply digit_leb_cons; [apply Hm..|].
  destruct (decide (i < j)); [left; lia|right; split; [lia|done]].
Qed.

Lemma CreateMemberName_leb cluster i j :
  0 ≤ i → i ≤ j → j < 10000 →
  String.leb (CreateMemberName cluster i) (CreateMemberName cluster j) = true.
Proof.
  intros. unfold CreateMemberName. rewrite !string_leb_app. by apply fmt_04d_mono.
Qed.

Definition sort_Z (l : list Z) : list Z := stable_sort Z.leb l.

Lemma sort_Z_sorted l : StronglySorted Z.le (sort_Z l).
Proof.
  assert (StronglySorted (leb_rel Z.leb) (sort_Z l)) as Hs.
  { apply stable_sort_sorted; [intros x y|intros x y z]; rewrite ?Z.leb_le; lia. }
  rewrite <- (list_fmap_id (sort_Z l)). eapply StronglySorted_fmap; [exact Hs|].
  intros x y _ _. unfold leb_rel. by rewrite Z.leb_le.
Qed.

(** Pod names in byte order are pod indexes in number order. *)
Lemma sort_member_names cluster l :
  (∀ n, n ∈ l → 0 ≤ n < 10000) →
  sort_Strings (CreateMemberName cluster <$> l) = CreateMemberName cluster <$> sort_Z l.
Proof.
  intros Hl. assert (sort_Z l ≡ₚ l) as Hp by apply stable_sort_perm.
  apply (sorted_perm_unique String.leb string_leb_antisym).
  - apply sort_Strings_sorted.
  - eapply StronglySorted_fmap; [apply sort_Z_sorted|]. intros x y.
    rewrite Hp. intros Hx%Hl Hy%Hl Hxy. apply CreateMemberName_leb; lia.
  - by rewrite sort_Strings_perm, Hp.
Qed.

(** ** Lemmas: sets *)
Lemma members_fold (ms : MemberSet) : (map_to_list ms).*2 = members ms.
Proof. done. Qed.

Lemma elem_of_members m ms : m ∈ members ms ↔ ∃ n, ms !! n = Some m.
Proof.
  unfold members. rewrite list_elem_of_fmap. split.
  - intros ([n m']&->&Hin). exists n. by apply elem_of_map_to_list.
  - intros [n Hn]. exists (n, m). split; [done|]. by apply elem_of_map_to_list.
Qed.

Lemma add_all_lookup l : ∀ ms n,
  add_all l ms !! n =
  match last (filter (λ m, Name m = n) l) with Some m => Some m | None => ms !! n end.
Proof.
  unfold add_all. induction l as [|m l IH]; intros ms n; simpl; [done|].
  rewrite IH, filter_cons. unfold Add. case_decide as Hn.
  - rewrite last_cons. destruct (last _); [done|]. rewrite Hn. by rewrite lookup_insert_eq.
  - destruct (last _); [done|]. by rewrite lookup_insert_ne.
Qed.

Lemma add_all_keyed l ms : keyed ms → keyed (add_all l ms).
Proof.
  intros Hk n m. rewrite add_all_lookup. destruct (last _) as [m'|] eqn:Hl; [|apply Hk].
  intros [= <-]. apply last_Some in Hl as [l' Hl].
  assert (m' ∈ filter (λ m, Name m = n) l) as Hin by (rewrite Hl; set_solver).
  by apply list_elem_of_filter in Hin as [? _].
Qed.

Lemma keyed_empty : keyed ∅.
Proof. intros n m. by rewrite lookup_empty. Qed.

(** Two members of the list with one name are one member. *)
Definition name_inj (l : list Member) : Prop :=
  ∀ m o, m ∈ l → o ∈ l → Name m = Name o → m = o.

Lemma add_all_spec l ms n m :
  name_inj l → (add_all l ms !! n = Some m ↔
    (m ∈ l ∧ Name m = n) ∨ ((∀ o, o ∈ l → Name o ≠ n) ∧ ms !! n = Some m)).
Proof.
  intros Hinj. rewrite add_all_lookup.
  destruct (last (filter (λ m, Name m = n) l)) as [m'|] eqn:Hl.
  - apply last_Some in Hl as [l' Hl].
    assert (m' ∈ filter (λ m, Name m = n) l) as [Hn Hin]%list_elem_of_filter
      by (rewrite Hl; set_solver).
    split; [intros [= <-]; by left|]. intros [[Hm Hmn]|[Hno _]]; [|by destruct (Hno m')].
    f_equal. apply Hinj; congruence.
  - apply last_None in Hl. split.
    + intros Hm. right. split; [|done]. intros o Ho Hon.
      assert (o ∈ filter (λ m, Name m = n) l) as Hin by (by apply list_elem_of_filter).
      rewrite Hl in Hin. by apply not_elem_of_nil in Hin.
    + intros [[Hm Hmn]|[_ ?]]; [|done].
      assert (m ∈ filter (λ m, Name m = n) l) as Hin by (by apply list_elem_of_filter).
      rewrite Hl in Hin. by apply not_elem_of_nil in Hin.
Qed.

Lemma keyed_name_inj ms : keyed ms → name_inj (members ms).
Proof.
  intros Hk m o [n Hn]%elem_of_members [n' Hn']%elem_of_members Heq.
  rewrite <- (Hk _ _ Hn), Heq, (Hk _ _ Hn') in Hn. congruence.
Qed.

Lemma elem_of_keyed ms m : keyed ms → m ∈ members ms ↔ ms !! Name m = Some m.
Proof.
  intros Hk. rewrite elem_of_members. split; [|by exists (Name m)].
  intros [n Hn]. by rewrite (Hk _ _ Hn).
Qed.

Lemma merge_entries_lookup l : ∀ ms n,
  (∀ e, e ∈ l → Name e.2 = e.1) → NoDup l.*1 →
  merge_entries l ms !! n = match ms !! n with Some m => Some m | None => (list_to_map l : MemberSet) !! n end.
Proof.
  unfold merge_entries. induction l as [|[k m] l IH]; intros ms n Hk Hnd; simpl.
  { by destruct (ms !! n). }
  apply NoDup_cons in Hnd as [Hnin Hnd].
  assert (Name m = k) as Hkm by (apply (Hk (k, m)); by left).
  rewrite IH; [|intros e He; apply Hk; by right|done]. clear IH.
  destruct (ms !! k) as [m0|] eqn:Hmk.
  - destruct (decide (n = k)) as [->|Hne]; [by rewrite Hmk|].
    by rewrite lookup_insert_ne.
  - unfold Add. rewrite Hkm. destruct (decide (n = k)) as [->|Hne].
    + by rewrite !lookup_insert_eq, Hmk.
    + by rewrite !lookup_insert_ne.
Qed.

Lemma map_entries_keyed ms l : keyed ms → l ≡ₚ map_to_list ms → ∀ e, e ∈ l → Name e.2 = e.1.
Proof.
  intros Hk Hl [n m]. rewrite Hl, elem_of_map_to_list. apply Hk.
Qed.

Lemma filter_members_name_inj (P : Member → Prop) `{∀ m, Decision (P m)} ms :
  keyed ms → name_inj (filter P (members ms)).
Proof.
  intros Hk m o [_ Hm]%list_elem_of_filter [_ Ho]%list_elem_of_filter.
  by apply (keyed_name_inj ms Hk).
Qed.

(** The loop of [GroupBy] is the filter of the map. *)
Lemma add_all_filter (P : Member → Prop) `{∀ m, Decision (P m)} ms l :
  keyed ms → l ≡ₚ filter P (members ms) →
  add_all l ∅ = filter (λ e, P e.2) (ms : MemberSet).
Proof.
  intros Hk Hl. apply map_eq. intros n. apply option_eq. intros m.
  rewrite add_all_spec.
  2: { intros x y. rewrite Hl. by apply filter_members_name_inj. }
  rewrite Hl, list_elem_of_filter, elem_of_keyed, map_lookup_filter_Some by done.
  rewrite lookup_empty. split.
  - intros [[[HP Hm] <-]|[_ ?]]; [done|done].
  - intros [Hn HP]. left. by rewrite (Hk _ _ Hn).
Qed.

Lemma group_loop l : ∀ grouped c,
  foldl group_entry grouped l !! c =
  match filter (λ m, Config m = c) l with
  | [] => grouped !! c
  | ml => Some (add_all ml (default ∅ (grouped !! c)))
  end.
Proof.
  induction l as [|m l IH]; intros grouped c; simpl; [done|].
  rewrite IH, filter_cons. clear IH. unfold group_entry.
  case_decide as Hc.
  - rewrite Hc. destruct (grouped !! c) as [set|] eqn:Hg; rewrite lookup_insert_eq; simpl;
      by destruct (filter _ l).
  - destruct (grouped !! Config m); rewrite lookup_insert_ne by done; done.
Qed.

Lemma members_names ms : keyed ms → Name <$> members ms = (map_to_list ms).*1.
Proof.
  intros Hk. unfold members. rewrite <- list_fmap_compose. apply list_fmap_ext.
  intros i [n m] Hi. apply list_elem_of_lookup_2, elem_of_map_to_list in Hi. simpl. by apply Hk.
Qed.

Lemma members_names_NoDup ms : keyed ms → NoDup (Name <$> members ms).
Proof. intros Hk. rewrite members_names by done. apply NoDup_fst_map_to_list. Qed.

Lemma members_NoDup ms : keyed ms → NoDup (members ms).
Proof. intros Hk. by eapply NoDup_fmap_1, members_names_NoDup. Qed.

Lemma ToList_perm ms : ToList ms ≡ₚ members ms.
Proof. apply stable_sort_perm. Qed.

Lemma ToSet_ToList_filter (P : Member → Prop) `{∀ m, Decision (P m)} ms :
  keyed ms → ToSet (filter P (ToList ms)) = filter (λ e, P e.2) (ms : MemberSet).
Proof. intros Hk. apply add_all_filter; [done|]. by rewrite ToList_perm. Qed.

Lemma ToSet_ToList ms : keyed ms → ToSet (ToList ms) = ms.
Proof.
  intros Hk. apply map_eq. intros n. apply option_eq. intros m.
  unfold ToSet. rewrite add_all_spec.
  2: { intros x y. rewrite ToList_perm. by apply keyed_name_inj. }
  rewrite lookup_empty, ToList_perm, elem_of_keyed by done. split.
  - intros [[Hm <-]|[_ ?]]; done.
  - intros Hm. left. by rewrite (Hk _ _ Hm).
Qed.

Lemma keyed_subseteq ms other : other ⊆ ms → keyed ms → keyed other.
Proof. intros Hs Hk n m Hn. eapply Hk, lookup_weaken; done. Qed.

Lemma keyed_filter (P : string * Member → Prop) `{∀ e, Decision (P e)} ms :
  keyed ms → keyed (filter P ms).
Proof. apply keyed_subseteq, map_filter_subseteq. Qed.

Lemma Remove_all_lookup l : ∀ ms n,
  foldl (λ rest member, Remove (Name member) rest) ms l !! n =
  if bool_decide (n ∈ Name <$> l) then None else (ms : MemberSet) !! n.
Proof.
  induction l as [|m l IH]; intros ms n; [done|]. cbn [foldl]. rewrite fmap_cons.
  rewrite IH. unfold Remove. destruct (decide (n = Name m)) as [->|Hne].
  - rewrite lookup_delete_eq. rewrite (bool_decide_eq_true_2 (_ ∈ _ :: _)) by by left.
    by case_bool_decide.
  - rewrite lookup_delete_ne by done.
    assert (bool_decide (n ∈ Name <$> l) = bool_decide (n ∈ Name m :: (Name <$> l))) as ->;
      [|done].
    apply bool_decide_ext. rewrite elem_of_cons. tauto.
Qed.

Lemma Merge_union ms other : keyed other → Merge ms other = ms ∪ other.
Proof.
  intros Hk. unfold Merge. apply map_eq. intros n.
  rewrite merge_entries_lookup; [|by eapply map_entries_keyed|apply NoDup_fst_map_to_list].
  rewrite list_to_map_to_list, lookup_union. by destruct (ms !! n), (other !! n).
Qed.

Lemma keyed_union ms other : keyed ms → keyed other → keyed (ms ∪ other).
Proof.
  intros Hm Ho n m [Hn|[_ Hn]]%lookup_union_Some_raw; [by apply Hm|by apply Ho].
Qed.

Lemma keyed_Add m ms : keyed ms → keyed (Add m ms).
Proof.
  intros Hk n o. unfold Add.
  intros [[<- <-]|[_ Hn]]%lookup_insert_Some; [done|by apply Hk].
Qed.

Lemma MemberList_Contains_spec l name :
  MemberList_Contains l name = true ↔ name ∈ Name <$> l.
Proof.
  unfold MemberList_Contains. rewrite existsb_exists, list_elem_of_fmap. split.
  - intros (m&Hin&Hm%bool_decide_eq_true). exists m. by rewrite list_elem_of_In.
  - intros (m&->&Hin). exists m. rewrite bool_decide_eq_true. by rewrite <- list_elem_of_In.
Qed.

(** ** Properties *)

(** Pod names carry their index: the index read back from the name of pod [n]
    is [n] modulo 10000, so it is [n] below 10000, and two such pods of a
    cluster have two names. *)
Theorem CreateMemberName_roundtrip cluster n (Hn : 0 ≤ n) :
  GetIndexFromMemberName (CreateMemberName cluster n) = Ok (n mod 10000) ∧
  (n < 10000 → GetIndexFromMemberName (CreateMemberName cluster n) = Ok n ∧
     ∀ m, 0 ≤ m < 10000 → CreateMemberName cluster m = CreateMemberName cluster n → m = n).
Proof.
  pose proof (CreateMemberName_index cluster n Hn) as Hi. split; [done|]. intros Hlt.
  rewrite Z.mod_small in Hi by lia. split; [done|]. intros m Hm Heq.
  rewrite <- Heq, CreateMemberName_index, Z.mod_small in Hi by lia. by injection Hi.
Qed.

Lemma CreateMemberName_roundtrip_witness :
  GetIndexFromMemberName (CreateMemberName "cb-example" 42) = Ok 42.
Proof.
  refine (proj1 (proj2 (CreateMemberName_roundtrip "cb-example" 42 _) _)); lia.
Defined.

(** [GetAvailableIndexes] finds the holes: for the names of any pods with
    indexes below 10000, in any order and with repetitions, it returns the [num]
    smallest indexes no pod has, in ascending order (none for a negative
    [num]). *)
Theorem GetAvailableIndexes_smallest cluster used num
    (Hused : ∀ n, n ∈ used → 0 ≤ n < 10000) :
  ∃ l, GetAvailableIndexes (CreateMemberName cluster <$> used) num = Ok l ∧
    smallest_free used num l.
Proof.
  unfold GetAvailableIndexes. rewrite sort_member_names by done.
  assert (sort_Z used ≡ₚ used) as Hp by apply stable_sort_perm.
  destruct (available_loop_spec used num
    (Z.to_nat num + length (CreateMemberName cluster <$> sort_Z used))
    (CreateMemberName cluster <$> sort_Z used) (sort_Z used) 0 []) as (av&acc&rest&->&Hinv&Hl&Hor).
  - rewrite Forall2_fmap_l. apply Forall_Forall2_diag, Forall_forall. intros n Hn.
    rewrite Hp in Hn. apply Hused in Hn. unfold compose.
    by rewrite CreateMemberName_index, Z.mod_small by lia.
  - apply sort_Z_sorted.
  - split; [done|constructor|..].
    + intros n Hn. by apply not_elem_of_nil in Hn.
    + lia.
    + intros u Hu. left. by rewrite Hp.
    + intros u. rewrite Hp. intros Hu%Hused. lia.
    + intros u. by rewrite Hp.
  - simpl. lia.
  - simpl. lia.
  - cbn [mbind result_bind].
    assert (∃ av' acc' rest', fill_indexes (Z.to_nat (num - Z.of_nat (length acc))) av acc = acc' ∧
      available_inv used rest' av' acc' ∧ length acc' = Z.to_nat num) as (av'&acc'&rest'&->&Hi&Hlen).
    { destruct Hor as [->|Hlen].
      - destruct (fill_indexes_inv used (Z.to_nat (num - Z.of_nat (length acc))) av acc Hinv)
          as (av'&acc'&He&Hi&Hlen). exists av', acc', []. split; [done|]. split; [done|lia].
      - replace (Z.to_nat (num - Z.of_nat (length acc))) with 0%nat by lia.
        exists av, acc, rest. split; [done|]. split; [done|lia]. }
    exists acc'. split; [done|]. destruct Hi as [H0 Hs Hb Hf Hr Ha Hu]. split; [done|done|..].
    + intros n Hn. pose proof (Hb _ Hn). split; [lia|]. apply Hf; [lia|done].
    + intros n m Hm Hnm Hn. apply Hb in Hm. apply Hf; [lia|done].
Qed.

Lemma GetAvailableIndexes_smallest_witness :
  ∃ l, GetAvailableIndexes (CreateMemberName "cb" <$> [7; 0; 2; 3]) 4 = Ok l ∧
    smallest_free [7; 0; 2; 3] 4 l.
Proof.
  apply (GetAvailableIndexes_smallest "cb"). intros n.
  rewrite !elem_of_cons, elem_of_nil. lia.
Defined.

(** merging member sets does not depend on the order Go visits the map in:
    for sets keyed by name and every order of the entries of [other],
    [MergeWithOverwrite] is the union that prefers [other], [Merge] the union
    that prefers the receiver, and both are keyed again. *)
Theorem MemberSet_merge_any_order ms other entries
    (Hms : keyed ms) (Hother : keyed other) (Horder : entries ≡ₚ map_to_list other) :
  add_all entries.*2 ms = MergeWithOverwrite ms other ∧
  merge_entries entries ms = Merge ms other ∧
  MergeWithOverwrite ms other = other ∪ ms ∧
  Merge ms other = ms ∪ other ∧
  keyed (MergeWithOverwrite ms other) ∧ keyed (Merge ms other).
Proof.
  assert (∀ l, l ≡ₚ map_to_list other → add_all l.*2 ms = other ∪ ms) as Hov.
  { intros l Hl. apply map_eq. intros n. apply option_eq. intros m.
    assert (∀ o, o ∈ l.*2 ↔ other !! Name o = Some o) as Hin.
    { intros o. rewrite Hl. by apply elem_of_keyed. }
    rewrite add_all_spec, lookup_union_Some_raw, Hin.
    2: { intros x y Hx%Hin Hy%Hin Hxy. congruence. }
    split.
    - intros [[Ho <-]|[Hno Hm]]; [by left|right]. split; [|done].
      apply eq_None_not_Some. intros [o Ho]. apply (Hno o); [|by apply Hother].
      apply Hin. by rewrite (Hother _ _ Ho).
    - intros [Ho|[Hno Hm]]; [left|right].
      + rewrite (Hother _ _ Ho). done.
      + split; [|done]. intros o Ho%Hin <-. congruence. }
  assert (∀ l, l ≡ₚ map_to_list other → merge_entries l ms = ms ∪ other) as Hme.
  { intros l Hl. apply map_eq. intros n.
    rewrite merge_entries_lookup; [|by eapply map_entries_keyed|].
    2: { rewrite Hl. apply NoDup_fst_map_to_list. }
    assert (NoDup l.*1) as Hnd by (rewrite Hl; apply NoDup_fst_map_to_list).
    rewrite (list_to_map_proper l (map_to_list other)) by done.
    rewrite list_to_map_to_list, lookup_union. by destruct (ms !! n), (other !! n). }
  assert (MergeWithOverwrite ms other = other ∪ ms) as E1 by (by apply (Hov (map_to_list other))).
  assert (Merge ms other = ms ∪ other) as E2 by (by apply Hme).
  rewrite E1, E2, Hov, Hme by done. do 4 (split; [done|]).
  split; intros n m [Hn|[_ Hn]]%lookup_union_Some_raw; first [by apply Hms|by apply Hother].
Qed.

Lemma MemberSet_merge_any_order_witness :
  let a := NewMember "ns" "cb" "cb-0000" "7.6.0" "data" true "img" in
  let b := NewExternalMember "10.0.0.1" "" false in
  merge_entries [("10.0.0.1", b); ("cb-0000", a)] {["cb-0000" := a]} =
  Merge {["cb-0000" := a]} {["cb-0000" := a; "10.0.0.1" := b]}.
Proof.
  intros a b.
  refine (proj1 (proj2 (MemberSet_merge_any_order {["cb-0000" := a]}
    {["cb-0000" := a; "10.0.0.1" := b]} [("10.0.0.1", b); ("cb-0000", a)] _ _ _))).
  - intros n m [<- <-]%lookup_singleton_Some. reflexivity.
  - intros n m [[<- <-]|[_ [<- <-]%lookup_singleton_Some]]%lookup_insert_Some; reflexivity.
  - vm_compute. apply Permutation_refl || apply Permutation_swap.
Defined.

(** [GroupByServerConfigs] partitions a member set: the group of a server
    class is what [GroupByServerConfig] filters out, the members of that class,
    and a class has a group exactly when some member has that class. *)
Theorem GroupByServerConfigs_partition ms config (Hms : keyed ms) :
  GroupByServerConfig config ms = filter (λ e, Config e.2 = config) ms ∧
  (GroupByServerConfigs ms !! config =
     if decide (GroupByServerConfig config ms = ∅) then None
     else Some (GroupByServerConfig config ms)).
Proof.
  split; [unfold GroupByServerConfig; exact (add_all_filter (λ m, Config m = config) ms _ Hms (Permutation_refl _))|].
  unfold GroupByServerConfigs, GroupByServerConfig. rewrite group_loop, lookup_empty.
  destruct (filter (λ m, Config m = config) (members ms)) as [|m l] eqn:Hf; [done|].
  rewrite decide_False; [done|]. intros He.
  assert (is_Some (add_all (m :: l) ∅ !! Name m)) as [x Hx]; [|by rewrite He in Hx].
  rewrite add_all_lookup, filter_cons_True, last_cons by done. by destruct (last _).
Qed.

Lemma GroupByServerConfigs_partition_witness :
  let a := NewMember "ns" "cb" "cb-0000" "7.6.0" "data" true "img" in
  GroupByServerConfigs {["cb-0000" := a]} !! "query" =
  if decide (GroupByServerConfig "query" {["cb-0000" := a]} = ∅) then None
  else Some (GroupByServerConfig "query" {["cb-0000" := a]}).
Proof.
  intros a. refine (proj2 (GroupByServerConfigs_partition _ "query" _)).
  intros n m [<- <-]%lookup_singleton_Some. reflexivity.
Defined.

(** ** What the code does where its comments say more *)

(** [Equal] only checks that every member of the receiver is in the other set. *)
Lemma Equal_is_inclusion ms other : Equal ms other = true ↔ dom ms ⊆ dom other.
Proof.
  unfold Equal. rewrite forallb_forall, elem_of_subseteq. split.
  - intros Hall n [m Hn]%elem_of_dom. apply elem_of_dom.
    specialize (Hall (n, m)). simpl in Hall. rewrite bool_decide_eq_true in Hall.
    by apply Hall, list_elem_of_In, elem_of_map_to_list.
  - intros Hsub [n m] Hin. apply list_elem_of_In, elem_of_map_to_list in Hin.
    rewrite bool_decide_eq_true. by apply elem_of_dom, Hsub, elem_of_dom.
Qed.

Example Equal_not_symmetric :
  let a := NewMember "ns" "cb" "cb-0000" "7.6.0" "data" true "img" in
  Equal ∅ {["cb-0000" := a]} = true ∧ Equal {["cb-0000" := a]} ∅ = false.
Proof. split; reflexivity. Qed.

(** Index 0 is appended without a comma: added after another index it is lost. *)
Example AddMemberIndexToIndexList_zero :
  AddMemberIndexToIndexList ",1" "cb-0000" = Ok (",10", None) ∧
  DoesMemberIndexExistInIndexes ",10" "cb-0000" = Ok false ∧
  DoesMemberIndexExistInIndexes ",10" "cb-0001" = Ok false.
Proof. split; [|split]; vm_compute; reflexivity. Qed.

(** The index of pod 12345 reads back as 2345. *)
Example index_wraps : GetIndexFromMemberName (CreateMemberName "cb" 12345) = Ok 2345.
Proof. vm_compute. reflexivity. Qed.
