(* ===== verification/Persistence.v ===== *)
(** * pkg/cluster/persistence: the operator's key-value store

    [persistence.go] keeps its data in one Kubernetes secret: it reads the
    secret from a cache that may lag behind, writes it with an update the API
    server refuses when the secret changed since, and retries
    ([pkg/util/retryutil]).  The platform is the class [Kubernetes]; what the
    store needs of it is [KubernetesLaws].  The pod index counter of
    [cluster.go] is a client of the store. *)

From Stdlib Require Import Ascii.
From S2P Require Import Prelude GoLib.
Local Open Scope Z_scope.

(** ** Keys *)
Definition PodIndex : string := "podIndex".
Definition UUID : string := "uuid".
Definition VersionKey : string := "version".
Definition Upgrading : string := "upgrading".
Definition Password : string := "password".
Definition CACertificate : string := "ca".
Definition ClientCertificate : string := "clientCertificate".
Definition ClientKey : string := "clientKey".
Definition UpgradeTime : string := "upgradeTime".
Definition RebalanceRetries : string := "rebalanceRetries".
Definition UpgradeActive : string := "true".
Definition UpgradeInactive : string := "false".

Inductive PersistentKindXDCR :=
  | XDCRHostname | XDCRPassword | XDCRStagedUsername | XDCRStagedPassword | XDCRClientKey.

Definition xdcr_kind (kind : PersistentKindXDCR) : string :=
  match kind with
  | XDCRHostname => "hostname"
  | XDCRPassword => "password"
  | XDCRStagedUsername => "stagedUsername"
  | XDCRStagedPassword => "stagedPassword"
  | XDCRClientKey => "clientKey"
  end.

Definition getPersistentKindPrefixXDCR (connectionName : string) : string :=
  "xdcr-connection-" +:+ connectionName.

Definition GetPersistentKindXDCR (connectionName : string) (kind : PersistentKindXDCR) : string :=
  getPersistentKindPrefixXDCR connectionName +:+ "-" +:+ xdcr_kind kind.

(** ** The platform *)
Record Secret := mkSecret {
  Data : option (gmap string string);
  ResourceVersion : Z;
}.

(** The calls the store makes: the informer cache, the API of the cluster's
    secret, config map and resource, the classes of its errors, and the retry
    timer: [ticks] is how often the ticker fires before the deadline and [tick]
    what happens meanwhile. *)
Class Kubernetes (W : Type) := {
  Secrets_cache : W → option Secret;
  Secrets_Update : Secret → M W ();
  Secrets_Create : option (gmap string string) → M W ();
  ConfigMaps_Get : M W (gmap string string);
  ConfigMaps_Delete : M W ();
  CouchbaseClusters_Get : M W bool;
  IsNotFound : error → bool;
  IsConflict : error → bool;
  ticks : W → nat;
  tick : W → W;
}.

(** What the API promises.  [history] are the versions of the secret etcd has stored, the
    newest first, each with a revision of its own, and [seen] those of them the cache has
    heard of: it hears of them in order and shows the last.  An update succeeds only on the
    revision that is stored, and then stores what was sent; one that fails may have been
    stored all the same, when only its answer was lost.  No one else writes the secret while
    the store waits. *)
Definition stored {W} (history : W → list Secret) (w : W) : option Secret := head (history w).

Definition extended {W} (history : W → list Secret) (secret : Secret) (w w' : W) : Prop :=
  ∃ cur rev, stored history w = Some cur ∧ ResourceVersion cur = ResourceVersion secret ∧
    history w' = mkSecret (Data secret) rev :: history w.

Class KubernetesLaws (W : Type) `{Kubernetes W} (history seen : W → list Secret) := {
  cache_law w : Secrets_cache w = head (seen w) ∧ seen w `suffix_of` history w;
  revision_law w : NoDup (ResourceVersion <$> history w);
  update_law secret w : let '(r, w') := Secrets_Update secret w in
    seen w `suffix_of` seen w' ∧
    match r with
    | Ok _ => extended history secret w w'
    | Err _ => history w' = history w ∨ extended history secret w w'
    | Panic => False
    end;
  tick_law w : history (tick w) = history w ∧ seen w `suffix_of` seen (tick w);
}.

(** ** retryutil *)
Section retry.
Context {W A : Type}.

(** [RetryFor]: the callback runs again at every tick until it succeeds; the last
    error is returned when the deadline comes first. *)
Fixpoint Retry (n : nat) (tick : W → W) (callback : M W A) : M W A := λ w,
  match callback w with
  | (Err e, w') =>
      match n with
      | O => (Err e, w')
      | S n => Retry n tick callback (tick w')
      end
  | r => r
  end.
End retry.

Definition RetryFor `{Kubernetes W} {A} (callback : M W A) : M W A := λ w,
  Retry (ticks w) tick callback w.

(** ** The store *)
Section store.
Context `{Kubernetes W}.

Definition nil_data (d : option (gmap string string)) : gmap string string := default ∅ d.

(** [get]: a copy of the cached secret, with a map where there was none. *)
Definition get_secret : M W Secret := λ w,
  match Secrets_cache w with
  | None => (Err ErrResourceRequired, w)
  | Some s => (Ok (mkSecret (Some (nil_data (Data s))) (ResourceVersion s)), w)
  end.

(** [apply]: an error of [f] ends the retries without an update, and is not
    returned. *)
Definition apply_callback (f : Secret → result Secret) : M W () :=
  secret ← get_secret;
  match f secret with
  | Err _ => mret tt
  | Ok secret => Secrets_Update secret
  | Panic => lift Panic
  end.

Definition apply (f : Secret → result Secret) : M W () := RetryFor (apply_callback f).

Definition set_data (secret : Secret) (d : option (gmap string string)) : Secret :=
  mkSecret d (ResourceVersion secret).

Definition Clear : M W () := apply (λ secret, Ok (set_data secret None)).

Definition Insert (kind value : string) : M W () := apply (λ secret,
  match nil_data (Data secret) !! kind with
  | Some _ => Err ErrKeyError
  | None => Ok (set_data secret (Some (<[kind := value]> (nil_data (Data secret)))))
  end).

Definition Upsert (kind value : string) : M W () := apply (λ secret,
  Ok (set_data secret (Some (<[kind := value]> (nil_data (Data secret)))))).

Definition Update (kind value : string) : M W () := apply (λ secret,
  match nil_data (Data secret) !! kind with
  | None => Err ErrKeyError
  | Some _ => Ok (set_data secret (Some (<[kind := value]> (nil_data (Data secret)))))
  end).

Definition Delete (kind : string) : M W () := apply (λ secret,
  match nil_data (Data secret) !! kind with
  | None => Err ErrKeyError
  | Some _ => Ok (set_data secret (Some (delete kind (nil_data (Data secret)))))
  end).

Definition DeleteXDCR (connectionName : string) : M W () :=
  let prefix := getPersistentKindPrefixXDCR connectionName in
  apply (λ secret, Ok (set_data secret
    (Some (filter (λ e, strings_HasPrefix e.1 prefix = false) (nil_data (Data secret)))))).

Definition get_callback (kind : string) : M W string :=
  secret ← get_secret;
  match nil_data (Data secret) !! kind with
  | None => throw ErrKeyError
  | Some raw => mret raw
  end.

Definition Get (kind : string) : M W string := RetryFor (get_callback kind).

(** [upgrade]: an old config map becomes a secret. *)
Definition upgrade : M W () :=
  configmap ← attempt ConfigMaps_Get;
  match configmap with
  | inr e => if IsNotFound e then mret tt else throw e
  | inl data => Secrets_Create (Some data);; ConfigMaps_Delete
  end.

Definition createSecret : M W () := Secrets_Create None.

Definition createSecretWhenNotExist : M W () := λ w,
  match Secrets_cache w with
  | Some _ => (Err ErrResourceExists, w)
  | None => createSecret w
  end.

(** The secret of an existing cluster is reused. *)
Definition reuse_or_create : M W () := λ w,
  match Secrets_cache w with
  | Some _ => (Ok tt, w)
  | None => createSecret w
  end.

Definition New : M W () :=
  upgrade;;
  cluster ← CouchbaseClusters_Get;
  if cluster : bool then reuse_or_create else RetryFor createSecretWhenNotExist.
End store.

(** ** The interface [PersistentStorage] *)
Class PersistentStorage (S : Type) := {
  ps_Insert : string → string → M S ();
  ps_Upsert : string → string → M S ();
  ps_Update : string → string → M S ();
  ps_Delete : string → M S ();
  ps_DeleteXDCR : string → M S ();
  ps_Get : string → M S string;
  ps_Clear : M S ();
}.

#[export] Instance secret_storage `{Kubernetes W} : PersistentStorage W := {|
  ps_Insert := Insert; ps_Upsert := Upsert; ps_Update := Update; ps_Delete := Delete;
  ps_DeleteXDCR := DeleteXDCR; ps_Get := Get; ps_Clear := Clear |}.

(** A write that ends well leaves the map [m]; one that fails leaves that or what there was. *)
Definition written {S} (view : S → gmap string string) (s : S) (m : gmap string string)
    (r : result () * S) : Prop :=
  match r with
  | (Ok _, s') => view s' = m
  | (Err _, s') => view s' = view s ∨ view s' = m
  | (Panic, _) => False
  end.

(** Its contract, for a store that shows the map [view s], where [ready s] says
    that reads see the last write.  The operations with a condition on the key
    end well, without effect, where the condition fails. *)
Class StorageLaws (S : Type) `{PersistentStorage S}
    (view : S → gmap string string) (ready : S → Prop) := {
  upsert_law k v s : written view s (<[k := v]> (view s)) (ps_Upsert k v s);
  clear_law s : written view s ∅ (ps_Clear s);
  delete_xdcr_law c s :
    written view s
      (filter (λ e, strings_HasPrefix e.1 (getPersistentKindPrefixXDCR c) = false) (view s))
      (ps_DeleteXDCR c s);
  insert_law k v s : ready s →
    written view s (match view s !! k with Some _ => view s | None => <[k := v]> (view s) end)
      (ps_Insert k v s);
  store_update_law k v s : ready s →
    written view s (match view s !! k with Some _ => <[k := v]> (view s) | None => view s end)
      (ps_Update k v s);
  delete_law k s : ready s → written view s (delete k (view s)) (ps_Delete k s);
  get_law k v s : ready s → view s !! k = Some v → ps_Get k s = (Ok v, s);
  get_missing_law k s : ready s → view s !! k = None →
    ∃ s', ps_Get k s = (Err ErrKeyError, s') ∧ view s' = view s;
}.

(** ** The pod index ([cluster.go]) *)
Section pod_index.
Context `{PersistentStorage ST}.

Definition getPodIndex : M ST Z :=
  podIndexStr ← ps_Get PodIndex;
  lift (Atoi podIndexStr).

Definition setPodIndex (index : Z) : M ST () := ps_Update PodIndex (strconv_Itoa index).

Definition getAvailableIndexes (num : Z) : M ST (list Z) :=
  if bool_decide (num ≤ 0) then mret []
  else
    start ← getPodIndex;
    let indexes := (λ i, wrap64 (start + i)) <$> seqZ 0 num in
    match last indexes with
    | None => lift Panic
    | Some l => setPodIndex (wrap64 (l + 1));; mret indexes
    end.
End pod_index.

(** ** Lemmas: the secret *)

(** What the store holds, for etcd's view of the secret. *)
Definition contents (secret : option Secret) : gmap string string :=
  match secret with Some s => nil_data (Data s) | None => ∅ end.

(** The cache shows the secret that is stored. *)
Definition current `{Kubernetes W} (history : W → list Secret) (w : W) : Prop :=
  is_Some (stored history w) ∧ Secrets_cache w = stored history w.

(** What a callback makes of the stored data. *)
Definition effect (f : Secret → result Secret) (s : Secret) : gmap string string :=
  match f (set_data s (Some (nil_data (Data s)))) with
  | Ok s' => nil_data (Data s')
  | _ => nil_data (Data s)
  end.

(** The callbacks of the operations keep the revision and do not panic; what they do depends
    on the contents alone, and doing it again changes nothing. *)
Record good_callback (f : Secret → result Secret) : Prop := {
  cb_rev s s' : f s = Ok s' → ResourceVersion s' = ResourceVersion s;
  cb_no_panic s : f s ≠ Panic;
  cb_contents s s' : nil_data (Data s) = nil_data (Data s') → effect f s = effect f s';
  cb_again s s' : nil_data (Data s') = effect f s → effect f s' = effect f s;
}.

(** Whether a callback never refuses. *)
Definition unconditional (f : Secret → result Secret) : Prop := ∀ s e, f s ≠ Err e.

Section lemmas.
Context `{KubernetesLaws W history seen}.
Implicit Types w : W.
Abbreviation latest := (stored history).

Lemma suffix_head {A} (x : A) (l k : list A) : l `suffix_of` k → head l = Some x → ∃ newer older, k = newer ++ x :: older ∧ l = x :: older.
Proof. intros [newer ->] Hl. destruct l as [|y l]; [done|]. injection Hl as ->. by exists newer, l. Qed.

(** A revision names one version. *)
Lemma same_version w c cur :
  Secrets_cache w = Some c → latest w = Some cur → ResourceVersion cur = ResourceVersion c → cur = c.
Proof.
  intros Hc Hcur Hr. destruct (cache_law (history := history) w) as [Hs Hsuf]. rewrite Hc in Hs.
  destruct (suffix_head c _ _ Hsuf (eq_sym Hs)) as (newer&older&Hh&_).
  pose proof (revision_law (seen := seen) w) as Hnd. unfold stored in Hcur. rewrite Hh in Hnd, Hcur.
  destruct newer as [|d newer]; simpl in *; [congruence|]. injection Hcur as ->.
  apply NoDup_cons in Hnd as [Hout _]. destruct Hout. rewrite Hr, fmap_app. apply elem_of_app. right. by left.
Qed.

Lemma current_seen w : current history w → seen w = history w.
Proof.
  intros [[cur Hcur] Hc]. destruct (cache_law (history := history) w) as [Hs Hsuf]. rewrite Hc, Hcur in Hs.
  destruct (suffix_head cur _ _ Hsuf (eq_sym Hs)) as (newer&older&Hh&Hseen).
  pose proof (revision_law (seen := seen) w) as Hnd. unfold stored in Hcur. rewrite Hh in Hnd, Hcur.
  destruct newer as [|d newer]; simpl in *; [by rewrite Hseen, Hh|]. injection Hcur as ->.
  apply NoDup_cons in Hnd as [Hout _]. destruct Hout. rewrite fmap_app. apply elem_of_app. right. by left.
Qed.

Lemma seen_current w : is_Some (latest w) → seen w = history w → current history w.
Proof.
  intros Hs Heq. split; [done|]. destruct (cache_law (history := history) w) as [-> _]. by rewrite Heq.
Qed.

(** Without a write the cache only catches up. *)
Lemma current_tick w : current history w → current history (tick w).
Proof.
  intros Hw. apply current_seen in Hw as Hs. destruct (tick_law (history := history) w) as [Hh Hsuf].
  apply seen_current; [unfold stored; rewrite Hh; apply Hw|]. rewrite Hs in Hsuf.
  destruct (cache_law (history := history) (tick w)) as [_ Hc]. rewrite Hh in Hc |- *.
  apply (anti_symm suffix); done.
Qed.

Lemma get_secret_spec w :
  get_secret w = match Secrets_cache w with
                 | None => (Err ErrResourceRequired, w)
                 | Some s => (Ok (set_data s (Some (nil_data (Data s)))), w)
                 end.
Proof. reflexivity. Qed.

(** Retries that keep [I] while they fail end as an attempt from [I] does. *)
Lemma Retry_ind {A} (I : W → Prop) (Q : result A * W → Prop) (callback : M W A) :
  (∀ w, I w → Q (callback w) ∧
     match callback w with (Err _, w') => I (tick w') | _ => True end) →
  ∀ n w, I w → Q (Retry n tick callback w).
Proof.
  intros Hstep n. induction n as [|n IH]; intros w Hw; simpl;
    destruct (Hstep w Hw) as [HQ Hnext]; destruct (callback w) as [[a|e|] w']; try done.
  by apply IH.
Qed.

(** Between two attempts of an operation that started in [w0] on the contents [c0], and is to
    leave [m]: the versions that came since have the contents [m], and a conditional operation
    has a cache that is not behind its start. *)
Record attempting (f : Secret → result Secret) (w0 : W) (cur : Secret) (w : W) : Prop := {
  at_since : ∃ since, history w = since ++ history w0 ∧ Forall (λ s, nil_data (Data s) = effect f cur) since;
  at_cache : unconditional f ∨ history w0 `suffix_of` seen w;
}.

Lemma attempting_contents f w0 cur w :
  latest w0 = Some cur → attempting f w0 cur w →
  contents (latest w) = contents (latest w0) ∨ contents (latest w) = effect f cur.
Proof.
  intros Hcur [(since&Hs&Hm) _]. unfold stored. rewrite Hs. destruct since as [|s since]; [by left|right].
  by apply Forall_cons in Hm as [? _].
Qed.

(** On what is stored then, the operation leaves [m]. *)
Lemma attempting_effect f w0 cur w s :
  good_callback f → latest w0 = Some cur → attempting f w0 cur w → latest w = Some s → effect f s = effect f cur.
Proof.
  intros Hf Hcur Ha Hs. pose proof (attempting_contents _ _ _ _ Hcur Ha) as Hc. rewrite Hs, Hcur in Hc.
  destruct Hc as [Hc|Hc]; [by apply (cb_contents _ Hf)|by apply (cb_again _ Hf)].
Qed.

Lemma attempting_write f w0 cur w w' secret :
  good_callback f → latest w0 = Some cur → attempting f w0 cur w → seen w `suffix_of` seen w' →
  (∀ s, latest w = Some s → ResourceVersion s = ResourceVersion secret → nil_data (Data secret) = effect f s) →
  extended history secret w w' → attempting f w0 cur w' ∧ contents (latest w') = effect f cur.
Proof.
  intros Hf Hcur Ha Hseen Hdata (s&rev&Hs&Hr&Hh).
  assert (nil_data (Data secret) = effect f cur) as Hm by (rewrite (Hdata s Hs Hr); by eapply attempting_effect).
  split; [|unfold stored; by rewrite Hh]. destruct Ha as [(since&Hsince&Hall) Hc]. split.
  - exists (mkSecret (Data secret) rev :: since). rewrite Hh, Hsince. split; [done|]. by apply Forall_cons.
  - destruct Hc as [?|Hc]; [by left|right]. by etrans.
Qed.

(** A condition that fails on what the cache shows fails on what is stored. *)
Lemma attempting_refused f w0 cur w c e :
  good_callback f → latest w0 = Some cur → attempting f w0 cur w → Secrets_cache w = Some c →
  f (set_data c (Some (nil_data (Data c)))) = Err e → contents (latest w) = effect f cur.
Proof.
  intros Hf Hcur [(since&Hsince&Hall) Hcache] Hc He.
  destruct Hcache as [Hu|Hsuf]; [by destruct (Hu _ _ He)|].
  destruct (cache_law (history := history) w) as [Hhead Hle]. rewrite Hc in Hhead.
  assert (nil_data (Data c) = effect f c) as Hsame by (unfold effect; by rewrite He).
  unfold stored in *. destruct since as [|s since].
  - simpl in Hsince. rewrite Hsince in Hle |- *.
    assert (seen w = history w0) as Heq by (by apply (anti_symm suffix)).
    rewrite Heq, Hcur in Hhead. injection Hhead as ->. by rewrite Hcur.
  - rewrite Hsince. by apply Forall_cons in Hall as [? _].
Qed.

Lemma apply_callback_spec f w0 cur w :
  good_callback f → latest w0 = Some cur → attempting f w0 cur w →
  match apply_callback f w with
  | (Ok _, w') => contents (latest w') = effect f cur
  | (Err _, w') => attempting f w0 cur w'
  | (Panic, _) => False
  end.
Proof.
  intros Hf Hcur Ha. unfold apply_callback, mbind, M_bind. rewrite get_secret_spec.
  destruct (Secrets_cache w) as [c|] eqn:Hc; [|done].
  destruct (f _) as [secret|e|] eqn:Hfc; [| |by destruct (cb_no_panic _ Hf _ Hfc)].
  - pose proof (update_law (history := history) (seen := seen) secret w) as Hu.
    pose proof (cb_rev _ Hf _ _ Hfc) as Hr. simpl in Hr.
    assert (∀ s, latest w = Some s → ResourceVersion s = ResourceVersion secret → nil_data (Data secret) = effect f s) as Hd.
    { intros s Hs Hrs. rewrite (same_version w c s Hc Hs) by congruence. unfold effect. by rewrite Hfc. }
    destruct (Secrets_Update secret w) as [[[]|e|] w'] eqn:Hup; destruct Hu as [Hseen Hu]; [| |done].
    + by eapply attempting_write.
    + destruct Hu as [Hh|Hh]; [|by eapply attempting_write]. destruct Ha as [Hs Hca]. split; [by rewrite Hh|].
      destruct Hca as [?|?]; [by left|right; by etrans].
  - by eapply attempting_refused.
Qed.

(** An operation that starts where there is no secret only fails. *)
Lemma apply_missing f w : good_callback f → history w = [] →
  match apply f w with (Err _, w') => history w' = [] | _ => False end.
Proof.
  intros Hf Hnil. unfold apply, RetryFor. apply (Retry_ind (λ w, history w = [])); [|done]. clear w Hnil. intros w Hw.
  unfold apply_callback, mbind, M_bind. rewrite get_secret_spec.
  destruct (cache_law (history := history) w) as [-> Hsuf]. rewrite Hw in Hsuf. apply suffix_nil_inv in Hsuf as ->.
  simpl. split; [done|]. by destruct (tick_law (history := history) w) as [-> _].
Qed.

Lemma apply_spec f w m :
  good_callback f → (current history w ∨ unconditional f) →
  (∀ cur, latest w = Some cur → effect f cur = m) →
  written (λ w, contents (latest w)) w m (apply f w).
Proof.
  intros Hf Hok Hm. destruct (latest w) as [cur|] eqn:Hcur.
  2: { assert (history w = []) as Hnil by (unfold stored in Hcur; by destruct (history w)).
       pose proof (apply_missing f w Hf Hnil) as Ha. unfold written, stored. destruct (apply f w) as [[]]; [done| |done].
       left. by rewrite Ha, Hnil. }
  rewrite <- (Hm cur eq_refl). unfold apply, RetryFor.
  apply (Retry_ind (attempting f w cur)).
  - intros w1 Ha. pose proof (apply_callback_spec f w cur w1 Hf Hcur Ha) as Hs. unfold written.
    destruct (apply_callback f w1) as [[a|e|] w2]; [done| |done].
    split; [by apply attempting_contents|]. destruct (tick_law (history := history) w2) as [Hh Hsuf], Hs as [Hs Hc].
    split; [by rewrite Hh|]. destruct Hc; [by left|right; by etrans].
  - split; [by exists []|]. destruct Hok as [Hc|?]; [right|by left]. by rewrite (current_seen _ Hc).
Qed.

(** *** Where the API answers, the operations end well *)

(** An update of the revision that is stored succeeds. *)
Definition answers w : Prop :=
  ∀ secret cur, latest w = Some cur → ResourceVersion cur = ResourceVersion secret → (Secrets_Update secret w).1 = Ok tt.

Lemma Retry_first {A} n (callback : M W A) w a : (callback w).1 = Ok a → (Retry n tick callback w).1 = Ok a.
Proof. destruct n; simpl; destruct (callback w) as [r w']; simpl; by intros ->. Qed.

Lemma attempt_current f w :
  good_callback f → current history w → answers w → (apply_callback f w).1 = Ok tt.
Proof.
  intros Hf Hw Ha. unfold apply_callback, mbind, M_bind. rewrite get_secret_spec. destruct Hw as [[cur Hcur] ->].
  rewrite Hcur. destruct (f _) as [secret|e|] eqn:Hfc; [|done|by destruct (cb_no_panic _ Hf _ Hfc)].
  apply (Ha _ cur Hcur). by apply (cb_rev _ Hf) in Hfc.
Qed.

Lemma apply_current f w :
  good_callback f → current history w → answers w → (apply f w).1 = Ok tt.
Proof. intros. by apply Retry_first, attempt_current. Qed.

(** An API that answers, and a cache that has caught up when the first retry is due. *)
Definition responsive w : Prop :=
  answers w ∧ (0 < ticks w)%nat ∧
  ∀ w', history w' = history w → current history (tick w') ∧ answers (tick w').

Lemma apply_responsive f w :
  good_callback f → unconditional f → is_Some (latest w) → responsive w → (apply f w).1 = Ok tt.
Proof.
  intros Hf Hun [cur Hcur] (Hans&Hticks&Hlater). unfold apply, RetryFor.
  destruct (ticks w) as [|n]; [lia|]. simpl.
  destruct (apply_callback f w) as [[[]|e|] w1] eqn:Hcb; [done| |].
  - assert (history w1 = history w) as Hh.
    { unfold apply_callback, mbind, M_bind in Hcb. rewrite get_secret_spec in Hcb.
      destruct (Secrets_cache w) as [c|] eqn:Hc; [|by injection Hcb as _ <-].
      destruct (f _) as [secret|e'|] eqn:Hfc; [|by destruct (Hun _ _ Hfc)|done].
      pose proof (update_law (history := history) (seen := seen) secret w) as Hu. rewrite Hcb in Hu.
      destruct Hu as [_ [Hu|(s&rev&Hs&Hr&_)]]; [done|]. pose proof (Hans secret s Hs Hr) as Hok. by rewrite Hcb in Hok. }
    destruct (Hlater w1 Hh) as [Hc Ha]. by apply Retry_first, attempt_current.
  - exfalso. pose proof (apply_callback_spec f w cur w Hf Hcur) as Hs. rewrite Hcb in Hs. apply Hs.
    split; [by exists []|by left].
Qed.

(** A current cache answers at once; a missing key is reported at the deadline. *)
Lemma get_callback_current kind w :
  current history w →
  get_callback kind w =
    (match contents (latest w) !! kind with Some v => Ok v | None => Err ErrKeyError end, w).
Proof.
  intros [[cur Hcur] Hc]. unfold get_callback, mbind, M_bind. rewrite get_secret_spec, Hc, Hcur.
  unfold contents. simpl. by destruct (nil_data (Data cur) !! kind).
Qed.

Lemma Get_current kind w :
  current history w →
  match contents (latest w) !! kind with
  | Some v => Get kind w = (Ok v, w)
  | None => ∃ w', Get kind w = (Err ErrKeyError, w') ∧ history w' = history w
  end.
Proof.
  intros Hcur. unfold Get, RetryFor. generalize (ticks w) as n.
  destruct (contents (latest w) !! kind) as [v|] eqn:Hv.
  - intros n. destruct n; simpl; rewrite get_callback_current, Hv by done; done.
  - intros n. revert w Hcur Hv. induction n as [|n IH]; intros w Hcur Hv; simpl;
      rewrite get_callback_current, Hv by done; [by exists w|].
    destruct (tick_law (history := history) w) as [Ht _]. destruct (IH (tick w)) as (w'&Hw'&Hs).
    + by apply current_tick.
    + unfold stored. by rewrite Ht.
    + exists w'. split; [done|]. by rewrite Hs, Ht.
Qed.
End lemmas.

Ltac callback := split;
  [intros ??; repeat case_match; naive_solver
  |intros ?; by repeat case_match
  |intros ?? Heq; unfold effect; simpl; rewrite ?Heq; repeat case_match; simplify_eq/=; done
  |intros ?? Heq; unfold effect in *; simpl in *; repeat case_match; simplify_eq/=; try done].

(** The callbacks of the operations. *)
Lemma Upsert_callback k v :
  good_callback (λ secret, Ok (set_data secret (Some (<[k := v]> (nil_data (Data secret)))))).
Proof. callback. rewrite Heq. apply insert_insert_eq. Qed.

Lemma Clear_callback : good_callback (λ secret, Ok (set_data secret None)).
Proof. callback. Qed.

Lemma DeleteXDCR_callback prefix :
  good_callback (λ secret, Ok (set_data secret
    (Some (filter (λ e, strings_HasPrefix e.1 prefix = false) (nil_data (Data secret)))))).
Proof. callback. rewrite Heq, map_filter_filter. apply map_filter_ext. naive_solver. Qed.

Lemma Insert_callback k v : good_callback (λ secret,
  match nil_data (Data secret) !! k with
  | Some _ => Err ErrKeyError
  | None => Ok (set_data secret (Some (<[k := v]> (nil_data (Data secret)))))
  end).
Proof. callback; rewrite Heq in *; by simplify_map_eq. Qed.

Lemma Update_callback k v : good_callback (λ secret,
  match nil_data (Data secret) !! k with
  | None => Err ErrKeyError
  | Some _ => Ok (set_data secret (Some (<[k := v]> (nil_data (Data secret)))))
  end).
Proof. callback; rewrite Heq in *; simplify_map_eq; by rewrite ?insert_insert_eq. Qed.

Lemma Delete_callback k : good_callback (λ secret,
  match nil_data (Data secret) !! k with
  | None => Err ErrKeyError
  | Some _ => Ok (set_data secret (Some (delete k (nil_data (Data secret)))))
  end).
Proof. callback; rewrite Heq in *; by simplify_map_eq. Qed.

Create HintDb callbacks.
#[export] Hint Resolve Upsert_callback Clear_callback DeleteXDCR_callback Insert_callback Update_callback
  Delete_callback : callbacks.

(** The secret implements the contract: conditional writes and reads where the
    cache is current, the others whatever it shows. *)
#[export] Instance secret_storage_laws `{KubernetesLaws W history seen} :
  StorageLaws W (λ w, contents (stored history w)) (current history).
Proof.
  split.
  - intros k v w. apply apply_spec; [auto with callbacks|by right|]. intros cur ->. done.
  - intros w. apply apply_spec; [auto with callbacks|by right|]. done.
  - intros c w. apply apply_spec; [auto with callbacks|by right|]. intros cur ->. done.
  - intros k v w Hc. apply apply_spec; [auto with callbacks|by left|]. intros cur ->.
    unfold effect. simpl. by destruct (nil_data (Data cur) !! k).
  - intros k v w Hc. apply apply_spec; [auto with callbacks|by left|]. intros cur ->.
    unfold effect. simpl. by destruct (nil_data (Data cur) !! k).
  - intros k w Hc. apply apply_spec; [auto with callbacks|by left|]. intros cur ->.
    unfold effect. simpl. destruct (nil_data (Data cur) !! k) eqn:Hk; [done|].
    by rewrite delete_id.
  - intros k v w Hcur Hk. pose proof (Get_current k w Hcur) as Hg. by rewrite Hk in Hg.
  - intros k w Hcur Hk. pose proof (Get_current k w Hcur) as Hg. rewrite Hk in Hg.
    destruct Hg as (w'&Hw'&Hs). exists w'. split; [done|]. unfold stored. by rewrite Hs.
Qed.

(** ** A platform that keeps the laws

    Every version of the secret, the newest first, and how many of them the
    cache has yet to see; a tick lets it catch up.  [lost]: how many of the updates to come
    are stored without an answer. *)
Record api := mkFlaky {
  versions : list (option (gmap string string));
  lag : nat;
  patience : nat;
  lost : nat;
}.

Definition mkApi (versions : list (option (gmap string string))) (lag patience : nat) : api :=
  mkFlaky versions lag patience 0.

Fixpoint secrets (l : list (option (gmap string string))) : list Secret :=
  match l with [] => [] | d :: l' => mkSecret d (Z.of_nat (length l)) :: secrets l' end.

Definition api_history (w : api) : list Secret := secrets (versions w).
Definition api_seen (w : api) : list Secret := secrets (drop (lag w) (versions w)).
Definition api_stored (w : api) : option Secret := stored api_history w.

#[export] Instance api_kubernetes : Kubernetes api := {|
  Secrets_cache w := head (api_seen w);
  Secrets_Update secret w :=
    match versions w with
    | [] => (Err (ErrExternal 404), w)
    | _ =>
        if bool_decide (ResourceVersion secret = Z.of_nat (length (versions w)))
        then (if bool_decide (lost w = 0%nat) then Ok tt else Err (ErrExternal 504),
              mkFlaky (Data secret :: versions w) (S (lag w)) (patience w) (pred (lost w)))
        else (Err (ErrExternal 409), w)
    end;
  Secrets_Create data w :=
    match versions w with
    | [] => (Ok tt, mkFlaky [data] 1 (patience w) (lost w))
    | _ => (Err (ErrExternal 409), w)
    end;
  ConfigMaps_Get w := (Err (ErrExternal 404), w);
  ConfigMaps_Delete w := (Err (ErrExternal 404), w);
  CouchbaseClusters_Get w := (Ok true, w);
  IsNotFound e := bool_decide (e = ErrExternal 404);
  IsConflict e := bool_decide (e = ErrExternal 409);
  ticks w := patience w;
  tick w := mkFlaky (versions w) 0 (patience w) (lost w) |}.

Lemma secrets_suffix l l' : l `suffix_of` l' → secrets l `suffix_of` secrets l'.
Proof.
  intros [k ->]. induction k as [|d k IH]; [done|]. simpl. by apply suffix_cons_r.
Qed.

Lemma secrets_revisions l : NoDup (ResourceVersion <$> secrets l).
Proof.
  assert (∀ l r, r ∈ ResourceVersion <$> secrets l → r ≤ Z.of_nat (length l)) as Hle.
  { clear l. induction l as [|d l IH]; intros r; simpl; [by intros ?%not_elem_of_nil|].
    intros [->|Hr%IH]%elem_of_cons; lia. }
  induction l as [|d l IH]; simpl; [constructor|]. apply NoDup_cons. split; [|done]. intros Hin%Hle. simpl in Hin. lia.
Qed.

#[export] Instance api_laws : KubernetesLaws api api_history api_seen.
Proof.
  split.
  - intros w. split; [done|]. apply secrets_suffix, suffix_drop.
  - intros w. apply secrets_revisions.
  - intros secret [vs l p n]. simpl. destruct vs as [|d vs]; [by split; [|left]|].
    case_bool_decide as Hr; [|by split; [|left]].
    assert (extended api_history secret (mkFlaky (d :: vs) l p n) (mkFlaky (Data secret :: d :: vs) (S l) p (pred n))) as He.
    { eexists _, _. split; [done|]. split; [|done]. simpl in *. lia. }
    case_bool_decide; (split; [done|]); auto.
  - intros [vs l p n]. split; [done|]. apply secrets_suffix, suffix_drop.
Qed.

(** ** Lemmas: allocation *)
Section allocation.
Context `{StorageLaws ST view ready}.

Lemma getAvailableIndexes_spec n num s :
  ready s → view s !! PodIndex = Some (strconv_Itoa n) →
  0 ≤ n → n + Z.max 0 num ≤ MaxInt →
  let taken s' := view s' !! PodIndex = Some (strconv_Itoa (n + Z.max 0 num)) ∧
    delete PodIndex (view s') = delete PodIndex (view s) in
  match getAvailableIndexes num s with
  | (Ok l, s') => l = seqZ n num ∧ taken s'
  | (Err _, s') => view s' = view s ∨ taken s'
  | (Panic, _) => False
  end.
Proof.
  intros Hf Hn Hnn Hmax taken. unfold getAvailableIndexes. case_bool_decide as Hle.
  { cbn. unfold taken. rewrite seqZ_nil, Z.max_l, Z.add_0_r by lia. done. }
  unfold getPodIndex, mbind, M_bind. rewrite (get_law _ _ _ Hf Hn). unfold lift.
  rewrite Atoi_Itoa by lia.
  assert ((λ i, wrap64 (n + i)) <$> seqZ 0 num = seqZ n num) as ->.
  { transitivity (Z.add n <$> seqZ 0 num); [|by rewrite fmap_add_seqZ, Z.add_0_r].
    apply list_fmap_ext. intros i x Hx. apply lookup_seqZ in Hx as [-> Hi].
    apply wrap64_id. unfold MinInt, MaxInt in *. lia. }
  assert (last (seqZ n num) = Some (n + (num - 1))) as ->.
  { replace num with (num - 1 + 1) at 1 by lia. rewrite seqZ_app, last_app by lia.
    change (last (seqZ (n + (num - 1)) 1)) with (Some (0 + (n + (num - 1)))). done. }
  rewrite wrap64_id by (unfold MinInt, MaxInt in *; lia).
  replace (n + (num - 1) + 1) with (n + Z.max 0 num) by lia.
  pose proof (store_update_law PodIndex (strconv_Itoa (n + Z.max 0 num)) s Hf) as Hu.
  rewrite Hn in Hu. unfold setPodIndex, written in *.
  assert (∀ s', view s' = <[PodIndex := strconv_Itoa (n + Z.max 0 num)]> (view s) → taken s') as Htaken.
  { intros s' Hs'. unfold taken. by rewrite Hs', lookup_insert_eq, delete_insert_eq. }
  destruct (ps_Update _ _ s) as [[[]| |] s']; cbn; [by auto| |done]. destruct Hu; auto.
Qed.

(** Calls of [getAvailableIndexes] one after the other, with the numbers asked for
    and the indexes handed out; between two calls anything may happen but to the
    counter, and the store is ready when a call starts. *)
Inductive alloc_run : ST → list Z → list Z → ST → Prop :=
  | alloc_done s : alloc_run s [] [] s
  | alloc_ok num nums l got s s1 s2 s' :
      ready s → getAvailableIndexes num s = (Ok l, s1) →
      view s2 !! PodIndex = view s1 !! PodIndex →
      alloc_run s2 nums got s' → alloc_run s (num :: nums) (l ++ got) s'
  | alloc_err num nums e got s s1 s2 s' :
      ready s → getAvailableIndexes num s = (Err e, s1) →
      view s2 !! PodIndex = view s1 !! PodIndex →
      alloc_run s2 nums got s' → alloc_run s (num :: nums) got s'.

Definition total_asked (nums : list Z) : Z := foldr (λ num acc, Z.max 0 num + acc) 0 nums.

Lemma total_asked_nonneg nums : 0 ≤ total_asked nums.
Proof. induction nums; simpl; lia. Qed.

Lemma alloc_run_spec s nums got s' : alloc_run s nums got s' → ∀ n,
  view s !! PodIndex = Some (strconv_Itoa n) → 0 ≤ n → n + total_asked nums ≤ MaxInt →
  ∃ n', n ≤ n' ∧ n' ≤ n + total_asked nums ∧ view s' !! PodIndex = Some (strconv_Itoa n') ∧
    got `sublist_of` seqZ n (n' - n).
Proof.
  induction 1 as [s|num nums l got s s1 s2 s' Hf Hg Heq Hrun IH
    |num nums e got s s1 s2 s' Hf Hg Heq Hrun IH]; intros n Hn Hnn Hmax; simpl in Hmax |- *.
  { exists n. rewrite Z.sub_diag. repeat split; [lia..|done|done]. }
  all: pose proof (total_asked_nonneg nums) as Hpos.
  all: pose proof (getAvailableIndexes_spec n num s Hf Hn Hnn ltac:(lia)) as Hs; rewrite Hg in Hs.
  - destruct Hs as (->&Hi&_). rewrite <- Heq in Hi.
    destruct (IH _ Hi ltac:(lia) ltac:(lia)) as (n'&Hle&Hle'&Hi'&Hgot).
    exists n'. split; [lia|]. split; [lia|]. split; [done|].
    replace (n' - n) with (Z.max 0 num + (n' - (n + Z.max 0 num))) by lia.
    rewrite seqZ_app by lia. apply sublist_app; [|done].
    destruct (decide (num ≤ 0)); [rewrite !seqZ_nil by lia; done|by rewrite Z.max_r by lia].
  - destruct Hs as [Hs|[Hs _]]; rewrite <- ?Hs in Heq.
    + rewrite Hs, Hn in Heq || (rewrite Hs in Heq; rewrite Hn in Heq).
      destruct (IH n Heq ltac:(lia) ltac:(lia)) as (n'&Hle&Hle'&Hi'&Hgot).
      exists n'. repeat split; [lia..|done|done].
    + rewrite Hs in Heq. destruct (IH _ Heq ltac:(lia) ltac:(lia)) as (n'&Hle&Hle'&Hi'&Hgot).
      exists n'. split; [lia|]. split; [lia|]. split; [done|].
      replace (n' - n) with (Z.max 0 num + (n' - (n + Z.max 0 num))) by lia.
      rewrite seqZ_app by lia. by apply sublist_inserts_l.
Qed.
End allocation.

(** ** Properties *)

(** C38: the secret implements the store, over an API whose failed updates may have been
    stored.  Whatever the cache shows, an [Upsert], a [Clear] and a [DeleteXDCR] that end well
    change exactly the map etcd held (no write of another is lost), and one that fails leaves
    that or what there was; they do end well if the API answers, and the cache has caught up
    when the first retry is due.  Where the cache is current the same is true of [Insert],
    [Update] and [Delete], which change nothing, and report nothing, where their condition on
    the key fails; they end well if the API answers.  [Get] then reads what is stored, or
    reports [ErrKeyError]. *)
Theorem secret_refines_contract `{KubernetesLaws W history seen} (w : W) k v c :
  let view w := contents (stored history w) in
  let writes m (op : M W ()) := written view w m (op w) in
  let without_xdcr := filter (λ e, strings_HasPrefix e.1 (getPersistentKindPrefixXDCR c) = false) (view w) in
  let at_key (there missing : gmap string string) := match view w !! k with Some _ => there | None => missing end in
  (writes (<[k := v]> (view w)) (Upsert k v) ∧ writes ∅ Clear ∧ writes without_xdcr (DeleteXDCR c)) ∧
  (is_Some (stored history w) → responsive (history := history) w →
     (Upsert k v w).1 = Ok tt ∧ (Clear w).1 = Ok tt ∧ (DeleteXDCR c w).1 = Ok tt) ∧
  (current history w →
     (writes (at_key (view w) (<[k := v]> (view w))) (Insert k v) ∧
      writes (at_key (<[k := v]> (view w)) (view w)) (Update k v) ∧
      writes (at_key (delete k (view w)) (view w)) (Delete k)) ∧
     (answers (history := history) w →
        (Insert k v w).1 = Ok tt ∧ (Update k v w).1 = Ok tt ∧ (Delete k w).1 = Ok tt) ∧
     match view w !! k with
     | Some v' => Get k w = (Ok v', w)
     | None => ∃ w', Get k w = (Err ErrKeyError, w') ∧ history w' = history w
     end).
Proof.
  destruct (secret_storage_laws (history := history) (seen := seen)) as [Hup Hcl Hdx Hin Hst Hde _ _].
  intros view writes without_xdcr at_key.
  split; [split; [apply (Hup k v w)|split; [apply (Hcl w)|apply (Hdx c w)]]|]. split.
  { intros Hs Hr. split; [|split]; by apply (apply_responsive (seen := seen)); auto with callbacks. }
  intros Hw. split; [|split].
  - split; [by apply (Hin k v w)|]. split; [by apply (Hst k v w)|]. unfold writes, at_key.
    pose proof (Hde k w Hw) as Hd. change (contents (stored history w)) with (view w) in Hd.
    destruct (view w !! k) eqn:Hk; [exact Hd|]. by rewrite delete_id in Hd.
  - intros Ha. split; [|split]; by apply (apply_current (history := history)); auto with callbacks.
  - apply (Get_current (seen := seen) k w Hw).
Qed.

Lemma api_answers w : lost w = 0%nat → answers (history := api_history) w.
Proof.
  destruct w as [vs l p n]. intros Hn secret cur. simpl in Hn. subst n. destruct vs as [|d vs]; [done|].
  unfold stored. simpl. intros [= <-] Hr. simpl in Hr. by rewrite bool_decide_true.
Qed.

Lemma secret_refines_contract_witness :
  let w := mkApi [Some {["uuid" := "a"]}] 0 5 in
  Get "uuid" w = (Ok "a", w) ∧ (Delete "uuid" w).1 = Ok tt ∧
  written (λ w, contents (api_stored w)) w {["uuid" := "b"]} (Upsert "uuid" "b" w).
Proof.
  intros w.
  destruct (secret_refines_contract (W := api) (history := api_history) (seen := api_seen) w "uuid" "b" "c")
    as ((Hup&_)&_&Hcur). destruct Hcur as (_&Hends&Hget); [split; [by eexists|reflexivity]|].
  split; [exact Hget|]. split; [by apply Hends, api_answers|].
  exact Hup.
Defined.

(** C39: as long as the cache is current when a call starts and nothing but the calls
    changes the counter, no pod index is handed out twice: whatever is asked for, and
    whichever calls fail, stored or not, the indexes that the calls of a run of
    [getAvailableIndexes] hand out are increasing, from the counter the run starts with up to
    the one it ends with, which has moved by no more than was asked for, and that fits an int.
    ([stale_cache_reuses_index] shows what a cache that lags behind does.) *)
Theorem pod_indexes_never_reused `{StorageLaws ST view ready} s nums got s' n
    (Hrun : alloc_run (view := view) (ready := ready) s nums got s')
    (Hn : view s !! PodIndex = Some (strconv_Itoa n)) (Hnn : 0 ≤ n)
    (Hmax : n + total_asked nums ≤ MaxInt) :
  NoDup got ∧
  ∃ n', n ≤ n' ∧ n' ≤ n + total_asked nums ∧ view s' !! PodIndex = Some (strconv_Itoa n') ∧
    got `sublist_of` seqZ n (n' - n).
Proof.
  destruct (alloc_run_spec s nums got s' Hrun n Hn Hnn Hmax) as (n'&Hle&Hle'&Hi&Hgot).
  split; [|by eauto]. eapply sublist_NoDup; [apply NoDup_seqZ|exact Hgot].
Qed.

Lemma pod_indexes_never_reused_witness :
  NoDup [7; 8; 9].
Proof.
  set (w0 := mkApi [Some {[PodIndex := "7"]}] 0 5).
  set (w1 := mkApi [Some {[PodIndex := "9"]}; Some {[PodIndex := "7"]}] 0 5).
  set (w2 := mkApi [Some {[PodIndex := "10"]}; Some {[PodIndex := "9"]};
    Some {[PodIndex := "7"]}] 1 5).
  refine (proj1 (pod_indexes_never_reused (view := λ w, contents (api_stored w))
    (ready := current api_history) w0 [2; 1] ([7; 8] ++ [9] ++ []) w2 7 _ _ _ _)).
  - apply (alloc_ok 2 [1] [7; 8] ([9] ++ []) w0
      (mkApi [Some {[PodIndex := "9"]}; Some {[PodIndex := "7"]}] 1 5) w1 w2).
    + split; [by eexists|reflexivity].
    + vm_compute. reflexivity.
    + reflexivity.
    + apply (alloc_ok 1 [] [9] [] w1 w2 w2 w2).
      * split; [by eexists|reflexivity].
      * vm_compute. reflexivity.
      * reflexivity.
      * constructor.
  - vm_compute. reflexivity.
  - lia.
  - unfold MaxInt. simpl. lia.
Defined.

(** A [DeleteXDCR] that succeeds removes every key of its connection and
    touches no key outside the xdcr-connection keys; of another connection it
    leaves exactly the keys whose connection name, hyphen and kind do not start
    with the deleted name. *)
Theorem DeleteXDCR_keys `{KubernetesLaws W history seen} (w w' : W) connection
    (Hdel : DeleteXDCR connection w = (Ok tt, w')) :
  let stored := stored history in
  (∀ kind, contents (stored w') !! GetPersistentKindXDCR connection kind = None) ∧
  (∀ other kind,
     contents (stored w') !! GetPersistentKindXDCR other kind =
     if strings_HasPrefix (other +:+ "-" +:+ xdcr_kind kind) connection then None
     else contents (stored w) !! GetPersistentKindXDCR other kind) ∧
  (∀ key, strings_HasPrefix key "xdcr-connection-" = false →
     contents (stored w') !! key = contents (stored w) !! key).
Proof.
  intros stored. destruct (secret_storage_laws (history := history) (seen := seen)) as [_ _ Hdx _ _ _ _ _].
  pose proof (Hdx connection w) as Hw.
  change (ps_DeleteXDCR connection w) with (DeleteXDCR connection w) in Hw.
  rewrite Hdel in Hw. simpl in Hw. unfold stored. rewrite Hw.
  assert (∀ other kind, strings_HasPrefix (GetPersistentKindXDCR other kind)
    (getPersistentKindPrefixXDCR connection) =
    strings_HasPrefix (other +:+ "-" +:+ xdcr_kind kind) connection) as Hp.
  { intros other kind. unfold GetPersistentKindXDCR, getPersistentKindPrefixXDCR.
    rewrite append_assoc. by apply HasPrefix_app_l. }
  split; [|split].
  - intros kind. apply map_lookup_filter_None. right. intros x _. cbn [fst].
    rewrite Hp, HasPrefix_append. done.
  - intros other kind. rewrite <- Hp.
    destruct (strings_HasPrefix (GetPersistentKindXDCR _ _) _) eqn:E.
    + apply map_lookup_filter_None. right. intros x _. cbn [fst]. by rewrite E.
    + apply option_eq. intros x. rewrite map_lookup_filter_Some. cbn [fst]. tauto.
  - intros key Hkey. apply option_eq. intros x. rewrite map_lookup_filter_Some. cbn [fst].
    split; [tauto|]. intros Hx. split; [done|].
    destruct (strings_HasPrefix key (getPersistentKindPrefixXDCR connection)) eqn:E; [|done].
    apply HasPrefix_spec in E as [t ->]. unfold getPersistentKindPrefixXDCR in Hkey.
    by rewrite append_assoc, HasPrefix_append in Hkey.
Qed.

Lemma DeleteXDCR_keys_witness :
  let w := mkApi [Some {["xdcr-connection-east-password" := "a"; "uuid" := "b"]}] 0 5 in
  contents (api_stored (DeleteXDCR "east" w).2) !! "uuid" = Some "b".
Proof.
  intros w.
  destruct (DeleteXDCR_keys (W := api) (history := api_history) (seen := api_seen) w (DeleteXDCR "east" w).2 "east")
    as (_&_&Hother); [vm_compute; reflexivity|].
  unfold api_stored. rewrite (Hother "uuid" eq_refl). reflexivity.
Defined.

(** ** What the code does where its comments say more *)

(** Inserting a key that exists reports no error and does nothing, although the
    callback makes an [ErrKeyError]. *)
Example Insert_existing_succeeds :
  Insert "uuid" "b" (mkApi [Some {["uuid" := "a"]}] 0 5) =
    (Ok tt, mkApi [Some {["uuid" := "a"]}] 0 5) ∧
  Update "podIndex" "1" (mkApi [Some {["uuid" := "a"]}] 0 5) =
    (Ok tt, mkApi [Some {["uuid" := "a"]}] 0 5).
Proof. split; vm_compute; reflexivity. Qed.

(** Deleting the keys of connection "east" deletes those of "east-2". *)
Example DeleteXDCR_deletes_others :
  let w := mkApi [Some {[GetPersistentKindXDCR "east-2" XDCRPassword := "a"]}] 0 5 in
  contents (api_stored (DeleteXDCR "east" w).2) = ∅.
Proof. vm_compute. reflexivity. Qed.

(** An update whose answer is lost is stored all the same, and reported as a failure if there
    is no time to try again; if there is, the retry finds it done. *)
Example lost_answer_is_stored :
  let w patience := mkFlaky [Some {["uuid" := "a"]}] 0 patience 1 in
  let run n := (λ r : result () * api, (r.1, contents (api_stored r.2))) (Insert "version" "7.6.2" (w n)) in
  run 0%nat = (Err (ErrExternal 504), {["uuid" := "a"; "version" := "7.6.2"]}) ∧
  run 1%nat = (Ok tt, {["uuid" := "a"; "version" := "7.6.2"]}).
Proof. split; vm_compute; reflexivity. Qed.

(** With a cache that lags behind, two allocations hand out the same index. *)
Example stale_cache_reuses_index :
  let w0 := mkApi [Some {[PodIndex := "7"]}] 0 5 in
  let r1 := getAvailableIndexes 1 w0 in
  r1.1 = Ok [7] ∧ (getAvailableIndexes 1 r1.2).1 = Ok [7].
Proof. split; vm_compute; reflexivity. Qed.
