(* ===== verification/Astar.v ===== *)
(** * pkg/util/astar: the breadth-first search used by the scheduler

    The interface [AStarable] of [astar.go] is a class; [queue] and
    [witnessCache] are records with their methods; [AStar] is the search loop
    with fuel.  The theorems are proved against the interface alone, the
    stripe scheduler discharges its obligations in [Reschedule.v]. *)

From S2P Require Import Prelude.

(** What a problem implements.  [Move] may answer differently each time it is
    called (the scheduler's ranges over Go maps): its first argument is the
    number of the call. *)
Class AStarable (S : Type) := {
  Done : S → bool;
  Hash : S → string;
  Move : nat → S → list S;
}.

(** ** FIFO queue *)
Record queue (S : Type) := Queue { queue_items : list S }.
Arguments Queue {S} queue_items.
Arguments queue_items {S} q.

Definition newQueue {S} (init : S) : queue S := Queue [init].

Definition push {S} (q : queue S) (next : S) : queue S :=
  Queue (queue_items q ++ [next]).

(** [q.queue[0]] panics on an empty queue. *)
Definition pop {S} (q : queue S) : result (S * queue S) :=
  match queue_items q with
  | [] => Panic
  | next :: rest => Ok (next, Queue rest)
  end.

Definition empty {S} (q : queue S) : bool := (length (queue_items q) =? 0)%nat.

(** ** Cache of the hashes seen so far *)
Record witnessCache := WitnessCache { seen : gset string }.

Definition newWitnessCache {S} `{AStarable S} (init : S) : witnessCache :=
  WitnessCache {[ Hash init ]}.

(** Reports whether the state was seen before, and adds it when it was not. *)
Definition witness {S} `{AStarable S} (w : witnessCache) (move : S) :
    bool * witnessCache :=
  if decide (Hash move ∈ seen w) then (true, w)
  else (false, WitnessCache ({[ Hash move ]} ∪ seen w)).

(** A duplicate-free list drawn from a finite set is no longer than the set. *)
Lemma NoDup_length_le_size (l : list string) (X : gset string) :
  NoDup l → (∀ x, x ∈ l → x ∈ X) → length l ≤ size X.
Proof.
  intros Hnd Hsub. rewrite <- (size_list_to_set (C := gset string) l Hnd).
  apply subseteq_size. intros x Hx%elem_of_list_to_set. by apply Hsub.
Qed.

(** ** The search *)
Section astar.
Context {S : Type} `{AStarable S}.

(** The inner loop over the moves of one state: a solution, or the queue and
    the cache it leaves. *)
Fixpoint AStar_visit (nexts : list S) (q : queue S) (c : witnessCache) :
    S + (queue S * witnessCache) :=
  match nexts with
  | [] => inr (q, c)
  | next :: nexts' =>
      if Done next then inl next
      else match witness c next with
           | (true, c') => AStar_visit nexts' q c'
           | (false, c') => AStar_visit nexts' (push q next) c'
           end
  end.

(** The outer loop; [None] is out of fuel. *)
Fixpoint AStar_loop (fuel n : nat) (q : queue S) (c : witnessCache) :
    option (result S) :=
  match fuel with
  | 0 => None
  | Datatypes.S fuel' =>
      if empty q then Some (Err ErrUnsolvable)
      else match pop q with
           | Ok (s, q') =>
               match AStar_visit (Move n s) q' c with
               | inl next => Some (Ok next)
               | inr (q'', c') => AStar_loop fuel' (Datatypes.S n) q'' c'
               end
           | Err e => Some (Err e)
           | Panic => Some Panic
           end
  end.

Definition AStar (fuel : nat) (init : S) : option (result S) :=
  if Done init then Some (Ok init)
  else AStar_loop fuel 0 (newQueue init) (newWitnessCache init).

(** ** Specification: reachability through any answers of [Move] of states that
    are not solutions (the search expands no others) *)
Inductive reach (init : S) : S → Prop :=
  | reach_refl : reach init init
  | reach_step n s next :
      reach init s → Done s = false → next ∈ Move n s → reach init next.

(** A set of states is closed when each was expanded once, and every successor
    seen then is not a solution and has the hash of a member. *)
Definition closed (l : list S) : Prop :=
  ∀ s, s ∈ l → ∃ n, ∀ next, next ∈ Move n s →
    Done next = false ∧ Hash next ∈ Hash <$> l.

(** The loop invariant: [ex] are the states popped so far, [cl] those of them
    whose successors were all visited. *)
Record loop_inv (init : S) (ex cl : list S) (q : queue S) (c : witnessCache) : Prop := {
  li_seen h : h ∈ seen c ↔ h ∈ Hash <$> ex ++ queue_items q;
  li_nodup : NoDup (Hash <$> ex ++ queue_items q);
  li_reach s : s ∈ ex ++ queue_items q → reach init s ∧ Done s = false;
  li_closed s : s ∈ cl → ∃ n, ∀ next, next ∈ Move n s →
    Done next = false ∧ Hash next ∈ seen c;
  li_init : init ∈ ex ++ queue_items q;
}.

(** One visit keeps the invariant of everything but the state being expanded,
    and only enlarges the cache. *)
Lemma visit_spec init nexts : ∀ ex cl q c,
  loop_inv init ex cl q c →
  (∀ next, next ∈ nexts → reach init next) →
  match AStar_visit nexts q c with
  | inl next => next ∈ nexts ∧ Done next = true
  | inr (q', c') =>
      (∃ l, queue_items q' = queue_items q ++ l) ∧
      loop_inv init ex cl q' c' ∧ seen c ⊆ seen c' ∧
      ∀ next, next ∈ nexts → Done next = false ∧ Hash next ∈ seen c'
  end.
Proof.
  induction nexts as [|x nexts IH]; intros ex cl q c Hinv Hr; simpl.
  { split_and!; [by exists []; rewrite app_nil_r|done|done|].
    intros ? []%not_elem_of_nil. }
  destruct (Done x) eqn:Hx; [split; [constructor|done]|].
  assert (∀ next, next ∈ nexts → reach init next) as Hr'.
  { intros y Hy. apply Hr. by constructor. }
  unfold witness. destruct (decide _) as [Hin|Hin].
  - specialize (IH ex cl q c Hinv Hr').
    destruct (AStar_visit nexts q c) as [y|[q' c']].
    { destruct IH. split; [by constructor|done]. }
    destruct IH as (?&?&Hsub&Hall). split_and!; [done..|].
    intros y [->|Hy]%elem_of_cons; [|by apply Hall]. by auto.
  - assert (loop_inv init ex cl (push q x) (WitnessCache ({[Hash x]} ∪ seen c))) as Hinv'.
    { destruct Hinv as [Hs Hn Hre Hcl Hi]. split; simpl.
      - intros h. rewrite elem_of_union, elem_of_singleton, Hs.
        rewrite !fmap_app, !elem_of_app. csimpl.
        rewrite list_elem_of_singleton. tauto.
      - rewrite app_assoc, fmap_app. apply NoDup_app. split_and!; [done| |apply NoDup_singleton].
        intros h Hh ->%list_elem_of_singleton. by apply Hin, Hs.
      - intros s. rewrite app_assoc, elem_of_app, list_elem_of_singleton.
        intros [Hs'| ->]; [by apply Hre|]. split; [apply Hr; constructor|done].
      - intros s Hs'. destruct (Hcl s Hs') as [n Hc]. exists n. intros next Hn'.
        destruct (Hc next Hn'). set_solver.
      - set_solver. }
    specialize (IH ex cl _ _ Hinv' Hr').
    destruct (AStar_visit nexts (push q x) _) as [y|[q' c']].
    { destruct IH. split; [by constructor|done]. }
    destruct IH as ((l&Hl)&?&Hsub&Hall); simpl in *. split_and!.
    + exists (x :: l). by rewrite Hl, <- app_assoc.
    + done.
    + set_solver.
    + intros y [->|Hy]%elem_of_cons; [|by apply Hall]. set_solver.
Qed.

Lemma loop_inv_init init :
  Done init = false → loop_inv init [] [] (newQueue init) (newWitnessCache init).
Proof.
  intros Hd. split; simpl.
  - intros h. csimpl. rewrite list_elem_of_singleton. set_solver.
  - apply NoDup_singleton.
  - intros s ->%list_elem_of_singleton. split; [constructor|done].
  - intros s []%not_elem_of_nil.
  - constructor.
Qed.

(** One turn of the outer loop: pop a state and visit its successors. *)
Lemma loop_turn init ex s rest c n :
  loop_inv init ex ex (Queue (s :: rest)) c →
  match AStar_visit (Move n s) (Queue rest) c with
  | inl next => reach init next ∧ Done next = true
  | inr (q', c') =>
      (∃ l, queue_items q' = rest ++ l) ∧
      loop_inv init (ex ++ [s]) (ex ++ [s]) q' c'
  end.
Proof.
  intros [Hs Hn Hre Hcl Hi].
  assert (reach init s ∧ Done s = false) as [Hrs Hds] by (apply Hre; set_solver).
  assert (loop_inv init (ex ++ [s]) ex (Queue rest) c) as Hinv.
  { split; simpl in *; rewrite <- ?app_assoc; done. }
  assert (∀ next, next ∈ Move n s → reach init next) as Hr.
  { intros next. by apply reach_step. }
  pose proof (visit_spec init _ _ _ _ _ Hinv Hr) as Hv.
  destruct (AStar_visit _ _ _) as [next|[q' c']].
  - destruct Hv as [Hin ?]. split; [by eapply reach_step|done].
  - destruct Hv as (Hl&[Hs' Hn' Hre' Hcl' Hi']&Hsub&Hall). split; [done|]. split; try done.
    intros s' [Hs1| ->%list_elem_of_singleton]%elem_of_app; [by apply Hcl'|].
    exists n. apply Hall.
Qed.

(** The states of the invariant have distinct hashes, so a finite set of hashes
    bounds the turns of the loop. *)
Lemma loop_result init (hs : gset string) :
  (∀ s, reach init s → Hash s ∈ hs) →
  ∀ fuel n ex q c,
  loop_inv init ex ex q c → size hs < fuel + length ex →
  (∃ s, AStar_loop fuel n q c = Some (Ok s) ∧ reach init s ∧ Done s = true) ∨
  (AStar_loop fuel n q c = Some (Err ErrUnsolvable) ∧
   ∃ l, init ∈ l ∧ closed l ∧ ∀ s, s ∈ l → reach init s ∧ Done s = false).
Proof.
  intros Hhs. induction fuel as [|fuel IH]; intros n ex q c Hinv Hf.
  { exfalso. destruct Hinv as [_ Hnd Hre _ _].
    rewrite fmap_app in Hnd. apply NoDup_app in Hnd as [Hnd _].
    pose proof (NoDup_length_le_size _ hs Hnd) as Hle.
    rewrite length_fmap in Hle. enough (length ex ≤ size hs) by lia.
    apply Hle. intros h (s&->&Hs)%list_elem_of_fmap.
    apply Hhs, Hre, elem_of_app. by left. }
  destruct q as [[|s rest]]; simpl.
  { right. split; [done|]. destruct Hinv as [Hs _ Hre Hcl Hi]; simpl in *.
    rewrite app_nil_r in Hs, Hre, Hi. exists ex. split; [done|]. split; [|done].
    intros s' Hs'. destruct (Hcl s' Hs') as [k Hk]. exists k.
    intros next Hnext. rewrite <- Hs. by apply Hk. }
  pose proof (loop_turn init ex s rest c n Hinv) as Ht.
  destruct (AStar_visit _ _ _) as [next|[q' c']]; [left; eauto|].
  destruct Ht as [_ Hinv']. apply (IH _ (ex ++ [s])); [done|]. rewrite length_app; simpl. lia.
Qed.

(** More fuel does not change an answer. *)
Lemma AStar_loop_mono fuel fuel' n q c r :
  AStar_loop fuel n q c = Some r → fuel ≤ fuel' →
  AStar_loop fuel' n q c = Some r.
Proof.
  revert fuel' n q c. induction fuel as [|fuel IH]; intros fuel' n q c Hl Hle; [done|].
  destruct fuel' as [|fuel']; [lia|]. simpl in *.
  destruct (empty q); [done|]. destruct (pop q) as [[s q']| |]; [|done..].
  destruct (AStar_visit _ _ _) as [|[q'' c']]; [done|]. apply IH; [done|lia].
Qed.

Lemma AStar_mono fuel fuel' init r :
  AStar fuel init = Some r → fuel ≤ fuel' → AStar fuel' init = Some r.
Proof. unfold AStar. destruct (Done init); [done|]. apply AStar_loop_mono. Qed.

(** When the reachable states have finitely many hashes the search ends, either
    with a reachable solution or with [ErrUnsolvable] and a closed set of states
    that are all not solutions. *)
Theorem AStar_total (init : S) (hs : gset string) (fuel : nat)
    (Hhs : ∀ s, reach init s → Hash s ∈ hs) (Hfuel : size hs < fuel) :
  (∃ s, AStar fuel init = Some (Ok s) ∧ reach init s ∧ Done s = true) ∨
  (AStar fuel init = Some (Err ErrUnsolvable) ∧
   ∃ l, init ∈ l ∧ closed l ∧ ∀ s, s ∈ l → reach init s ∧ Done s = false).
Proof.
  unfold AStar. destruct (Done init) eqn:Hd.
  { left. exists init. split_and!; [done|constructor|done]. }
  apply (loop_result init hs Hhs fuel 0 []); [by apply loop_inv_init|simpl; lia].
Qed.

(** A problem in which every reachable state that is not a solution has a move,
    and every move decreases a measure that the hash determines, is solved. *)
Theorem AStar_solves (init : S) (hs : gset string) (fuel : nat) (μ : S → nat)
    (Hhs : ∀ s, reach init s → Hash s ∈ hs) (Hfuel : size hs < fuel)
    (Hprog : ∀ n s, reach init s → Done s = false → Move n s ≠ [])
    (Hdec : ∀ n s next, reach init s → Done s = false → next ∈ Move n s → μ next < μ s)
    (Hhash : ∀ s t, reach init s → reach init t → Hash s = Hash t → μ s = μ t) :
  ∃ s, AStar fuel init = Some (Ok s) ∧ reach init s ∧ Done s = true.
Proof.
  destruct (AStar_total init hs fuel Hhs Hfuel) as [Hok|[_ (l&Hi&Hcl&Hl)]]; [done|].
  exfalso. assert (∀ k s, s ∈ l → μ s ≤ k → False) as Hno; [|by eapply Hno].
  induction k as [k IH] using lt_wf_ind. intros s Hs Hk.
  destruct (Hl s Hs) as [Hr Hd], (Hcl s Hs) as [n Hn].
  destruct (Move n s) as [|next ms] eqn:Hm; [by eapply Hprog|].
  destruct (Hn next) as [_ (t&Ht&Htl)%list_elem_of_fmap]; [constructor|].
  assert (next ∈ Move n s) as Hnext by (rewrite Hm; constructor).
  destruct (Hl t Htl) as [Hrt _].
  pose proof (Hdec n s next Hr Hd Hnext).
  rewrite (Hhash next t) in H0; [|exact (reach_step _ n s next Hr Hd Hnext)|done..].
  apply (IH (μ t)) with t; [lia|done|lia].
Qed.

(** Every reachable state has the hash of a member of a closed set that has the
    initial state, when moves and [Done] depend on the hash alone. *)
Lemma closed_reach init l :
  (∀ n s t, Hash s = Hash t → ∀ s', s' ∈ Move n s →
     ∀ k, ∃ t', t' ∈ Move k t ∧ Hash s' = Hash t') →
  init ∈ l → closed l → (∀ s, s ∈ l → Done s = false) →
  (∀ s t, Hash s = Hash t → Done s = Done t) →
  ∀ s, reach init s → Done s = false ∧ ∃ t, t ∈ l ∧ Hash s = Hash t.
Proof.
  intros Hbis Hi Hcl Hl Hdone s. induction 1 as [|n s next _ IH Hd Hn].
  { split; [by apply Hl|by exists init]. }
  destruct IH as (_&t&Ht&Hst). destruct (Hcl t Ht) as [k Hk].
  destruct (Hbis n s t Hst next Hn k) as (t'&Ht'&Hh). destruct (Hk t' Ht') as [Hd' Hin].
  apply list_elem_of_fmap in Hin as (u&Hu&Hul).
  split; [by rewrite (Hdone next t' Hh)|]. exists u. split; [done|congruence].
Qed.

(** C40: the search is sound and complete.  When the states that can be reached have
    finitely many hashes, and a hash determines whether a state is a solution and
    the hashes of its moves, enough fuel gives an answer: a solution that is
    reachable, or [ErrUnsolvable] and then no reachable state is a solution. *)
Theorem AStar_complete (init : S) (hs : gset string) (fuel : nat)
    (Hhs : ∀ s, reach init s → Hash s ∈ hs) (Hfuel : size hs < fuel)
    (Hdone : ∀ s t, Hash s = Hash t → Done s = Done t)
    (Hmove : ∀ n s t, Hash s = Hash t → ∀ s', s' ∈ Move n s →
       ∀ k, ∃ t', t' ∈ Move k t ∧ Hash s' = Hash t') :
  (∃ s, AStar fuel init = Some (Ok s) ∧ reach init s ∧ Done s = true) ∨
  (AStar fuel init = Some (Err ErrUnsolvable) ∧ ∀ s, reach init s → Done s = false).
Proof.
  destruct (AStar_total init hs fuel Hhs Hfuel) as [?|[? (l&Hi&Hcl&Hl)]]; [by left|right].
  split; [done|]. intros s Hr. by apply (closed_reach init l Hmove Hi Hcl); [apply Hl|..].
Qed.
End astar.

(** Counting down from 3 in steps of two: the goal 0 is never met. *)
Definition countdown : AStarable nat := {|
  Done n := bool_decide (n = 0);
  Hash n := pretty n;
  Move _ n := match n with S (S m) => [m] | _ => [] end;
|}.

Lemma AStar_complete_witness :
  @AStar _ countdown 5 3 = Some (Err ErrUnsolvable) ∧
  ∀ s, @reach _ countdown 3 s → s ≠ 0.
Proof.
  assert (∀ s, @reach _ countdown 3 s → s ∈ [3; 1]) as Hreach.
  { induction 1 as [|n s next _ IH _ Hn]; [set_solver|]. simpl in Hn.
    destruct s as [|[|m]]; [by apply not_elem_of_nil in Hn..|].
    apply list_elem_of_singleton in Hn as ->. set_solver. }
  destruct (@AStar_complete _ countdown 3 {["3"; "1"]} 5) as [(s&Hs&_)|[H1 H2]].
  - intros s Hs%Hreach. rewrite !elem_of_cons in Hs.
    destruct Hs as [->|[->|Hs]]; [vm_compute; set_solver..|by apply not_elem_of_nil in Hs].
  - apply (Nat.leb_le 3). vm_compute. reflexivity.
  - intros s t Hst. apply (inj pretty) in Hst. by subst.
  - intros n s t Hst s' Hs' k. apply (inj pretty) in Hst as <-. by exists s'.
  - exfalso. vm_compute in Hs. discriminate Hs.
  - split; [exact H1|]. intros s Hs ->. specialize (H2 0 Hs). discriminate H2.
Defined.
