(* ===== verification/Api.v ===== *)
(** * pkg/apis/couchbase/v2: the custom resources

    The part of the [CouchbaseCluster] resource and of [helpers.go] that the
    modelled components read: server classes, services, upgrade configuration
    and status conditions.  Optional fields ([omitempty] pointers) are options;
    string enumerations stay strings, as any string can be stored. *)

From S2P Require Import Prelude GoLib.
Local Open Scope Z_scope.

(** ** Services *)
Definition Service : Type := string.
Definition AdminService : Service := "admin".
Definition DataService : Service := "data".
Definition IndexService : Service := "index".
Definition QueryService : Service := "query".
Definition SearchService : Service := "search".
Definition EventingService : Service := "eventing".
Definition AnalyticsService : Service := "analytics".

Module ServiceList.
Fixpoint Contains (l : list Service) (service : Service) : bool :=
  match l with
  | [] => false
  | s :: l' => if bool_decide (s = service) then true else Contains l' service
  end.

Fixpoint ContainsAny (l services : list Service) : bool :=
  match services with
  | [] => false
  | service :: services' =>
      if Contains l service then true else ContainsAny l services'
  end.

Fixpoint Sub (l other : list Service) : list Service :=
  match l with
  | [] => []
  | service :: l' =>
      if Contains other service then Sub l' other else service :: Sub l' other
  end.

Lemma Contains_spec l s : Contains l s = true ↔ s ∈ l.
Proof.
  induction l as [|x l IH]; simpl; [set_solver|].
  case_bool_decide; subst; set_solver.
Qed.

Lemma ContainsAny_spec l services :
  ContainsAny l services = true ↔ ∃ s, s ∈ services ∧ s ∈ l.
Proof.
  induction services as [|x ss IH]; simpl; [set_solver|].
  destruct (Contains l x) eqn:E.
  - apply Contains_spec in E. set_solver.
  - assert (x ∉ l) by (rewrite <- Contains_spec; congruence). set_solver.
Qed.

Lemma elem_of_Sub l other s : s ∈ Sub l other ↔ s ∈ l ∧ s ∉ other.
Proof.
  induction l as [|x l IH]; simpl; [set_solver|].
  destruct (Contains other x) eqn:E.
  - apply Contains_spec in E. set_solver.
  - assert (x ∉ other) by (rewrite <- Contains_spec; congruence). set_solver.
Qed.
End ServiceList.

(** ** Upgrade configuration *)
Definition SwapRebalance : string := "SwapRebalance".
Definition DeltaRecovery : string := "DeltaRecovery".
Definition InPlaceUpgrade : string := "InPlaceUpgrade".
Definition OfflineUpgrade : string := "Offline".

Definition RollbackMethodSwapRebalance : string := "SwapRebalance".
Definition RollbackMethodConstrainedFailover : string := "ConstrainedFailover".
Definition RollbackMethodConstrainedRebalanceOut : string := "ConstrainedRebalanceOut".

Definition RollingUpgrade : string := "RollingUpgrade".
Definition ImmediateUpgrade : string := "ImmediateUpgrade".

Definition UpgradeOrderTypeNodes : string := "Nodes".
Definition UpgradeOrderTypeServerGroups : string := "ServerGroups".
Definition UpgradeOrderTypeServerClasses : string := "ServerClasses".
Definition UpgradeOrderTypeServices : string := "Services".

Definition PrioritizeDataIntegrity : string := "PrioritizeDataIntegrity".
Definition PrioritizeUptime : string := "PrioritizeUptime".

Record RollingUpgradeConstraints := {
  MaxUpgradablePercent : string;
  MaxUpgradable : Z;
}.

Record UpgradeSpec := {
  us_UpgradeProcess : string;
  us_UpgradeStrategy : string;
  us_StabilizationPeriod : option Z;
  us_RollingUpgrade : option RollingUpgradeConstraints;
  us_PreviousVersionPodCount : Z;
  us_UpgradeOrderType : string;
  us_UpgradeOrder : list string;
  us_SwapRebalanceIndexServiceUpgrades : option bool;
  us_RollbackMethod : string;
}.

(** ** Server classes and the cluster specification *)
Record VolumeMounts := {
  DefaultClaim : string;
  DataClaim : string;
  IndexClaim : string;
  AnalyticsClaims : option (list string);
  LogsClaim : string;
}.

Record ServerConfig := {
  sc_Size : Z;
  sc_Name : string;
  sc_Services : list Service;
  sc_ServerGroups : list string;
  sc_VolumeMounts : option VolumeMounts;
  sc_Image : string;
  sc_NodeSelector : option (gmap string string);   (* of the pod template; None without one *)
  sc_AutoscaleEnabled : bool;
}.

(** The fields of [ClusterSpec] the modelled components read. *)
Record ClusterSpec := {
  cs_Image : string;
  cs_EnvImagePrecedence : bool;
  cs_Servers : list ServerConfig;
  cs_ServerGroups : list string;
  cs_ServerGroupsLabelOverride : string;
  cs_ShuffleServerGroups : bool;
  cs_RecoveryPolicy : option string;
  cs_UpgradeProcess : option string;
  cs_UpgradeStrategy : option string;
  cs_RollingUpgrade : option RollingUpgradeConstraints;
  cs_Upgrade : option UpgradeSpec;
  cs_EnableOnlineVolumeExpansion : bool;
  cs_UnmanagedClusterHost : option string;
  cs_Paused : bool;
  cs_Hibernate : bool;
}.

(** ** Status conditions *)
Inductive ConditionStatus := ConditionTrue | ConditionFalse | ConditionUnknown.
#[export] Instance ConditionStatus_eq_dec : EqDecision ConditionStatus.
Proof. solve_decision. Defined.

Definition ClusterConditionType : Type := string.
Definition ClusterConditionAvailable : ClusterConditionType := "Available".
Definition ClusterConditionBalanced : ClusterConditionType := "Balanced".
Definition ClusterConditionScaling : ClusterConditionType := "Scaling".
Definition ClusterConditionScalingUp : ClusterConditionType := "ScalingUp".
Definition ClusterConditionScalingDown : ClusterConditionType := "ScalingDown".
Definition ClusterConditionUpgrading : ClusterConditionType := "Upgrading".
Definition ClusterConditionHibernating : ClusterConditionType := "Hibernating".
Definition ClusterConditionError : ClusterConditionType := "Error".
Definition ClusterConditionAutoscaleReady : ClusterConditionType := "AutoscaleReady".
Definition ClusterConditionSynchronized : ClusterConditionType := "Synchronized".
Definition ClusterConditionWaitingBetweenMigrations : ClusterConditionType :=
  "WaitingBetweenMigrations".
Definition ClusterConditionWaitingBetweenUpgrades : ClusterConditionType :=
  "WaitingBetweenUpgrades".
Definition ClusterConditionMigrating : ClusterConditionType := "Migrating".
Definition ClusterConditionRebalancing : ClusterConditionType := "Rebalancing".
Definition ClusterConditionExpandingVolume : ClusterConditionType := "ExpandingVolume".
Definition ClusterConditionBucketMigration : ClusterConditionType := "BucketMigrating".
Definition ClusterConditionBucketEvictionMigration : ClusterConditionType :=
  "BucketEvictionMigrating".
Definition ClusterUnreconcilable : ClusterConditionType := "Unreconcilable".
Definition ClusterConditionMixedMode : ClusterConditionType := "MixedMode".
Definition ClusterConditionManualInterventionRequired : ClusterConditionType :=
  "ManualInterventionRequired".
Definition ClusterConditionServicesMismatch : ClusterConditionType := "ServicesMismatch".

Record ClusterCondition := {
  cc_Type : ClusterConditionType;
  cc_Status : ConditionStatus;
  cc_LastUpdateTime : string;
  cc_LastTransitionTime : string;
  cc_Reason : string;
  cc_Message : string;
}.

(** The status fields the modelled components read or write. *)
Record ClusterStatus := {
  st_ControlPaused : bool;
  st_Conditions : list ClusterCondition;
  st_ClusterID : string;
  st_Size : Z;
  st_CurrentVersion : string;
  st_RebalanceAttempts : Z;
  st_HibernatedWithMemcachedBuckets : option bool;
  st_Members : option (list string * list string);   (* ready, unready *)
  st_Autoscalers : list string;
  st_LastUpdateTime : string;
}.

#[export] Instance ClusterCondition_eq_dec : EqDecision ClusterCondition.
Proof. solve_decision. Defined.
#[export] Instance ClusterStatus_eq_dec : EqDecision ClusterStatus.
Proof. solve_decision. Defined.

Record CouchbaseCluster := {
  Namespace : string;
  Name : string;
  Spec : ClusterSpec;
  Status : ClusterStatus;
}.

(** [types.NamespacedName{ns, name}.String()] of the Kubernetes API machinery. *)
Class NamespacedNames := types_NamespacedName_String : string → string → string.

(** ** Pods, as far as the operator reads them here *)
Inductive PodPhase := PodPending | PodRunning | PodSucceeded | PodFailed | PodUnknown.
#[export] Instance PodPhase_eq_dec : EqDecision PodPhase.
Proof. solve_decision. Defined.

Record Pod := {
  pod_Name : string;
  pod_Labels : gmap string string;
  pod_NodeSelector : option (gmap string string);
  pod_Phase : PodPhase;
}.

Definition LabelNodeConf : string := "couchbase_node_conf".
Definition LabelTopologyZone : string := "topology.kubernetes.io/zone".
Definition ServerGroupLabel_const : string := LabelTopologyZone.
Definition LabelFailureDomainBetaZone : string := "failure-domain.beta.kubernetes.io/zone".

(** ** helpers.go: server classes *)
Section ServerConfigs.
Implicit Types sc : ServerConfig.

Definition HasVolumeMounts (v : option VolumeMounts) : bool :=
  match v with Some _ => true | None => false end.

Definition HasDefaultMount (v : option VolumeMounts) : bool :=
  match v with
  | None => false
  | Some m => bool_decide (DefaultClaim m ≠ "")
  end.

Definition LogsOnly (v : VolumeMounts) : bool := bool_decide (LogsClaim v ≠ "").

Definition HasSubMounts (v : VolumeMounts) : bool :=
  bool_decide (DataClaim v ≠ "") || bool_decide (IndexClaim v ≠ "") ||
  match AnalyticsClaims v with Some _ => true | None => false end.

Definition GetVolumeMounts (sc : option ServerConfig) : option VolumeMounts :=
  match sc with Some c => sc_VolumeMounts c | None => None end.

Definition GetDefaultVolumeClaim (sc : option ServerConfig) : string :=
  match sc with
  | Some _ => match GetVolumeMounts sc with
              | Some mounts => DefaultClaim mounts
              | None => ""
              end
  | None => ""
  end.

Definition HasService sc (service : Service) : bool :=
  bool_decide (service ∈ sc_Services sc) ||
  (bool_decide (service = "arbiter") && bool_decide (length (sc_Services sc) = 0%nat)).

(** The loop of [HasServiceWithout]: [hasSvc] is the local variable. *)
Fixpoint HasServiceWithout_loop (required forbidden : Service) (hasSvc : bool)
    (services : list Service) : bool :=
  match services with
  | [] => hasSvc
  | service :: services' =>
      if bool_decide (service = required)
      then HasServiceWithout_loop required forbidden true services'
      else if bool_decide (service = forbidden) then false
      else HasServiceWithout_loop required forbidden hasSvc services'
  end.

Definition HasServiceWithout sc (required forbidden : Service) : bool :=
  HasServiceWithout_loop required forbidden false (sc_Services sc).

Definition ServerConfig_IsSupportable sc : bool :=
  if negb (HasVolumeMounts (sc_VolumeMounts sc)) then false
  else if HasDefaultMount (sc_VolumeMounts sc) then true
  else
    let statefulServices := [DataService; IndexService; AnalyticsService] in
    match sc_VolumeMounts sc with
    | Some mounts =>
        LogsOnly mounts &&
        negb (ServiceList.ContainsAny (sc_Services sc) statefulServices)
    | None => false
    end.

Lemma HasServiceWithout_loop_spec required forbidden hasSvc l :
  required ≠ forbidden →
  HasServiceWithout_loop required forbidden hasSvc l = true ↔
  (hasSvc = true ∨ required ∈ l) ∧ forbidden ∉ l.
Proof.
  intros Hne. revert hasSvc. induction l as [|x l IH]; intros hasSvc; simpl; [set_solver|].
  case_bool_decide; subst; [rewrite IH; set_solver|].
  case_bool_decide; subst; [set_solver|]. rewrite IH. set_solver.
Qed.

Lemma HasServiceWithout_spec sc required forbidden :
  required ≠ forbidden →
  HasServiceWithout sc required forbidden = true ↔
  required ∈ sc_Services sc ∧ forbidden ∉ sc_Services sc.
Proof.
  intros Hne. unfold HasServiceWithout.
  rewrite HasServiceWithout_loop_spec by done. naive_solver.
Qed.
End ServerConfigs.

(** ** helpers.go: the cluster specification *)
Section ClusterSpecs.
Implicit Types cs : ClusterSpec.

Definition TotalSize cs : Z :=
  fold_left (λ size server, wrap64 (size + sc_Size server)) (cs_Servers cs) 0.

Fixpoint GetAllServerGroups_groups (all groups : list string) : list string :=
  match groups with
  | [] => all
  | group :: groups' =>
      GetAllServerGroups_groups
        (if bool_decide (group ∈ all) then all else all ++ [group]) groups'
  end.

Definition GetAllServerGroups cs : list string :=
  fold_left (λ all config, GetAllServerGroups_groups all (sc_ServerGroups config))
    (cs_Servers cs) (cs_ServerGroups cs).

Definition ServerGroupsEnabled cs : bool :=
  existsb (λ setting, bool_decide (0 < length (sc_ServerGroups setting))%nat) (cs_Servers cs)
  || bool_decide (0 < length (cs_ServerGroups cs))%nat.

Fixpoint HasItem_from (i : Z) (itm : string) (arr : list string) : Z * bool :=
  match arr with
  | [] => (-1, false)
  | a :: arr' => if bool_decide (a = itm) then (i, true) else HasItem_from (i + 1) itm arr'
  end.
Definition HasItem (itm : string) (arr : list string) : Z * bool := HasItem_from 0 itm arr.

Definition MissingItems (a1 a2 : list string) : list string :=
  filter (λ a, (HasItem a a2).2 = false) a1.

Definition GetServerConfigByName cs (name : string) : option ServerConfig :=
  snd <$> list_find (λ spec, sc_Name spec = name) (cs_Servers cs).

Definition EnvCouchbaseImageName : string := "RELATED_IMAGE_COUCHBASE_SERVER".

Definition CouchbaseImage `{Environment} cs : string :=
  match os_LookupEnv EnvCouchbaseImageName with
  | Some annotatedImage =>
      if cs_EnvImagePrecedence cs && bool_decide (annotatedImage ≠ "")
      then annotatedImage else cs_Image cs
  | None => cs_Image cs
  end.

Definition ServerClassCouchbaseImage `{Environment} cs (server : option ServerConfig) : string :=
  match server with
  | Some sc => if bool_decide (sc_Image sc ≠ "") then sc_Image sc else CouchbaseImage cs
  | None => CouchbaseImage cs
  end.

Definition LowestInUseCouchbaseVersionImage `{Environment} cs : result string :=
  Ok (CouchbaseImage cs).

Definition ConfigHasDataService cs (name : string) : bool :=
  match GetServerConfigByName cs name with
  | Some config => existsb (λ service, bool_decide (service = DataService)) (sc_Services config)
  | None => false
  end.

Definition ConfigHasStatefulService cs (name : string) : bool :=
  match GetServerConfigByName cs name with
  | Some config =>
      existsb (λ service, bool_decide (service = DataService) || bool_decide (service = IndexService))
        (sc_Services config)
  | None => false
  end.

Definition EnableVolumeExpansionAnnotation : string :=
  "storage.couchbase.com/enableVolumeExpansion".

Definition IsVolumeExpansionEnabled cs (templateAnnotations : gmap string string) : bool :=
  match templateAnnotations !! EnableVolumeExpansionAnnotation with
  | Some val => bool_decide (val = "true")
  | None => cs_EnableOnlineVolumeExpansion cs
  end.

Lemma GetServerConfigByName_spec cs name sc :
  GetServerConfigByName cs name = Some sc → sc ∈ cs_Servers cs ∧ sc_Name sc = name.
Proof.
  unfold GetServerConfigByName. destruct (list_find _ _) as [[i x]|] eqn:E; [|done].
  intros [= <-]. apply list_find_Some in E as (Hi&Hn&_).
  split; [by eapply list_elem_of_lookup_2|done].
Qed.

Lemma GetServerConfigByName_None cs name :
  GetServerConfigByName cs name = None ↔ ∀ sc, sc ∈ cs_Servers cs → sc_Name sc ≠ name.
Proof.
  unfold GetServerConfigByName. rewrite fmap_None, list_find_None, Forall_forall. done.
Qed.

Lemma HasItem_spec itm arr : (HasItem itm arr).2 = true ↔ itm ∈ arr.
Proof.
  unfold HasItem. generalize 0 as i.
  induction arr as [|a arr IH]; intros i; simpl; [set_solver|].
  case_bool_decide; subst; simpl; [set_solver|]. rewrite IH. set_solver.
Qed.
End ClusterSpecs.

(** ** helpers.go: the cluster *)
Section Clusters.
Implicit Types c : CouchbaseCluster.

Definition ServerGroupLabel c : string :=
  let override := cs_ServerGroupsLabelOverride (Spec c) in
  if bool_decide (override ≠ "") then override else ServerGroupLabel_const.

Definition NamespacedName `{NamespacedNames} c : string :=
  types_NamespacedName_String (Namespace c) (Name c).

Definition GetRecoveryPolicy c : string :=
  match cs_RecoveryPolicy (Spec c) with None => PrioritizeDataIntegrity | Some p => p end.

(** The upgrade configuration replaces the deprecated field even when it leaves
    the process empty. *)
Definition GetUpgradeProcess c : string :=
  let upgradeProcess :=
    match cs_Upgrade (Spec c) with
    | Some u => us_UpgradeProcess u
    | None => match cs_UpgradeProcess (Spec c) with Some p => p | None => "" end
    end in
  if bool_decide (upgradeProcess = "") then SwapRebalance else upgradeProcess.

Definition GetUpgradeStrategy c : string :=
  let upgradeStrategy :=
    match cs_Upgrade (Spec c) with
    | Some u => us_UpgradeStrategy u
    | None => match cs_UpgradeStrategy (Spec c) with Some p => p | None => "" end
    end in
  if bool_decide (upgradeStrategy = "") then RollingUpgrade else upgradeStrategy.

Definition GetRollingUpgrade c : option RollingUpgradeConstraints :=
  match cs_Upgrade (Spec c) with
  | Some u => match us_RollingUpgrade u with
              | Some r => Some r
              | None => cs_RollingUpgrade (Spec c)
              end
  | None => cs_RollingUpgrade (Spec c)
  end.

Definition IsIndexerEnabled c : bool :=
  existsb (λ class, ServiceList.Contains (sc_Services class) IndexService) (cs_Servers (Spec c)).

Definition Cluster_IsSupportable c : bool :=
  forallb ServerConfig_IsSupportable (cs_Servers (Spec c)).

Definition AnySupportable c : bool :=
  existsb ServerConfig_IsSupportable (cs_Servers (Spec c)).

Definition IsMigrationCluster c : bool :=
  match cs_UnmanagedClusterHost (Spec c) with
  | Some host => bool_decide (String.length host ≠ 0%nat)
  | None => false
  end.

Definition GetNumberOfDataServiceNodes c : Z :=
  fold_left (λ n config,
      if ServiceList.Contains (sc_Services config) DataService
      then wrap64 (n + sc_Size config) else n)
    (cs_Servers (Spec c)) 0.

Definition HasNeverRun c : bool := bool_decide (st_ClusterID (Status c) = "").

(** [s[:len(s)-1]]. *)
Fixpoint string_init (s : string) : string :=
  match s with
  | EmptyString => EmptyString
  | String c EmptyString => EmptyString
  | String c s' => String c (string_init s')
  end.

(** The number of pods one rolling upgrade step may take. *)
Definition GetMaxUpgradable c : Z * option error :=
  match GetRollingUpgrade c with
  | None => (1, None)
  | Some constraints =>
      let explicitNumber :=
        if bool_decide (MaxUpgradable constraints ≠ 0) then MaxUpgradable constraints
        else MaxInt in
      let finish explicit :=
        if bool_decide (explicit ≠ MaxInt) then (explicit, None) else (1, None) in
      if bool_decide (MaxUpgradablePercent constraints ≠ "") then
        match strconv_Atoi (string_init (MaxUpgradablePercent constraints)) with
        | (_, Some e) => (1, Some e)
        | (percentage, None) =>
            let maxUpgradable := Z.quot (wrap64 (TotalSize (Spec c) * percentage)) 100 in
            let maxUpgradable := if bool_decide (maxUpgradable ≤ 0) then 1 else maxUpgradable in
            finish (if bool_decide (maxUpgradable < explicitNumber)
                    then maxUpgradable else explicitNumber)
        end
      else finish explicitNumber
  end.
End Clusters.
