(* ===== verification/Status.v ===== *)
(** * pkg/apis/couchbase/v2: the status conditions of a cluster

    [helpers.go]'s setters over [ClusterStatus.Conditions], a list searched by
    type.  The clock is an argument. *)

From S2P Require Import Prelude GoLib Api.
Local Open Scope Z_scope.

Implicit Types cs : ClusterStatus.
Implicit Types t : ClusterConditionType.

(** [fmt.Sprintf] of a few fixed formats. *)
Definition fmt_d (n : Z) : string := strconv_Itoa n.

(** ** Updating the status *)
Definition set_Conditions (l : list ClusterCondition) cs : ClusterStatus :=
  {| st_ControlPaused := st_ControlPaused cs; st_Conditions := l;
     st_ClusterID := st_ClusterID cs; st_Size := st_Size cs;
     st_CurrentVersion := st_CurrentVersion cs;
     st_RebalanceAttempts := st_RebalanceAttempts cs;
     st_HibernatedWithMemcachedBuckets := st_HibernatedWithMemcachedBuckets cs;
     st_Members := st_Members cs;
     st_Autoscalers := st_Autoscalers cs; st_LastUpdateTime := st_LastUpdateTime cs |}.

Definition set_RebalanceAttempts (n : Z) cs : ClusterStatus :=
  {| st_ControlPaused := st_ControlPaused cs; st_Conditions := st_Conditions cs;
     st_ClusterID := st_ClusterID cs; st_Size := st_Size cs;
     st_CurrentVersion := st_CurrentVersion cs;
     st_RebalanceAttempts := n;
     st_HibernatedWithMemcachedBuckets := st_HibernatedWithMemcachedBuckets cs;
     st_Members := st_Members cs;
     st_Autoscalers := st_Autoscalers cs; st_LastUpdateTime := st_LastUpdateTime cs |}.

Definition SetVersion (v : string) cs : ClusterStatus :=
  {| st_ControlPaused := st_ControlPaused cs; st_Conditions := st_Conditions cs;
     st_ClusterID := st_ClusterID cs; st_Size := st_Size cs;
     st_CurrentVersion := v;
     st_RebalanceAttempts := st_RebalanceAttempts cs;
     st_HibernatedWithMemcachedBuckets := st_HibernatedWithMemcachedBuckets cs;
     st_Members := st_Members cs;
     st_Autoscalers := st_Autoscalers cs; st_LastUpdateTime := st_LastUpdateTime cs |}.

Definition SetClusterID (uuid : string) cs : ClusterStatus :=
  {| st_ControlPaused := st_ControlPaused cs; st_Conditions := st_Conditions cs;
     st_ClusterID := uuid; st_Size := st_Size cs;
     st_CurrentVersion := st_CurrentVersion cs;
     st_RebalanceAttempts := st_RebalanceAttempts cs;
     st_HibernatedWithMemcachedBuckets := st_HibernatedWithMemcachedBuckets cs;
     st_Members := st_Members cs;
     st_Autoscalers := st_Autoscalers cs; st_LastUpdateTime := st_LastUpdateTime cs |}.

Definition set_ControlPaused (b : bool) cs : ClusterStatus :=
  {| st_ControlPaused := b; st_Conditions := st_Conditions cs;
     st_ClusterID := st_ClusterID cs; st_Size := st_Size cs;
     st_CurrentVersion := st_CurrentVersion cs;
     st_RebalanceAttempts := st_RebalanceAttempts cs;
     st_HibernatedWithMemcachedBuckets := st_HibernatedWithMemcachedBuckets cs;
     st_Members := st_Members cs;
     st_Autoscalers := st_Autoscalers cs; st_LastUpdateTime := st_LastUpdateTime cs |}.

Definition set_Size (n : Z) cs : ClusterStatus :=
  {| st_ControlPaused := st_ControlPaused cs; st_Conditions := st_Conditions cs;
     st_ClusterID := st_ClusterID cs; st_Size := n;
     st_CurrentVersion := st_CurrentVersion cs;
     st_RebalanceAttempts := st_RebalanceAttempts cs;
     st_HibernatedWithMemcachedBuckets := st_HibernatedWithMemcachedBuckets cs;
     st_Members := st_Members cs;
     st_Autoscalers := st_Autoscalers cs; st_LastUpdateTime := st_LastUpdateTime cs |}.

(** [MembersStatus.SetReady] and [SetUnready], creating the struct where it is nil. *)
Definition set_Members (ready unready : list string) cs : ClusterStatus :=
  {| st_ControlPaused := st_ControlPaused cs; st_Conditions := st_Conditions cs;
     st_ClusterID := st_ClusterID cs; st_Size := st_Size cs;
     st_CurrentVersion := st_CurrentVersion cs;
     st_RebalanceAttempts := st_RebalanceAttempts cs;
     st_HibernatedWithMemcachedBuckets := st_HibernatedWithMemcachedBuckets cs;
     st_Members := Some (sort_Strings ready, sort_Strings unready);
     st_Autoscalers := st_Autoscalers cs; st_LastUpdateTime := st_LastUpdateTime cs |}.

Definition set_Autoscalers (names : list string) cs : ClusterStatus :=
  {| st_ControlPaused := st_ControlPaused cs; st_Conditions := st_Conditions cs;
     st_ClusterID := st_ClusterID cs; st_Size := st_Size cs;
     st_CurrentVersion := st_CurrentVersion cs;
     st_RebalanceAttempts := st_RebalanceAttempts cs;
     st_HibernatedWithMemcachedBuckets := st_HibernatedWithMemcachedBuckets cs;
     st_Members := st_Members cs;
     st_Autoscalers := names; st_LastUpdateTime := st_LastUpdateTime cs |}.

Definition set_HibernatedWithMemcachedBuckets (has : option bool) cs : ClusterStatus :=
  {| st_ControlPaused := st_ControlPaused cs; st_Conditions := st_Conditions cs;
     st_ClusterID := st_ClusterID cs; st_Size := st_Size cs;
     st_CurrentVersion := st_CurrentVersion cs;
     st_RebalanceAttempts := st_RebalanceAttempts cs;
     st_HibernatedWithMemcachedBuckets := has;
     st_Members := st_Members cs;
     st_Autoscalers := st_Autoscalers cs; st_LastUpdateTime := st_LastUpdateTime cs |}.

Definition PauseControl cs : ClusterStatus := set_ControlPaused true cs.
Definition Control cs : ClusterStatus := set_ControlPaused false cs.

(** ** The condition list *)
Definition newClusterCondition (now : string) t (status : ConditionStatus)
    (reason message : string) : ClusterCondition :=
  {| cc_Type := t; cc_Status := status; cc_LastUpdateTime := now;
     cc_LastTransitionTime := now; cc_Reason := reason; cc_Message := message |}.

Fixpoint find_condition t (l : list ClusterCondition) : option ClusterCondition :=
  match l with
  | [] => None
  | c :: l' => if bool_decide (cc_Type c = t) then Some c else find_condition t l'
  end.

Definition GetCondition cs t : option ClusterCondition :=
  find_condition t (st_Conditions cs).

Fixpoint remove_condition t (l : list ClusterCondition) : list ClusterCondition :=
  match l with
  | [] => []
  | condition :: l' =>
      if bool_decide (cc_Type condition = t) then l' else condition :: remove_condition t l'
  end.

Definition ClearCondition t cs : ClusterStatus :=
  set_Conditions (remove_condition t (st_Conditions cs)) cs.

(** What [setClusterCondition] does to the entry it finds. *)
Definition update_condition (condition c : ClusterCondition) : ClusterCondition :=
  let condition1 :=
    if bool_decide (cc_Status condition ≠ cc_Status c) then
      {| cc_Type := cc_Type condition; cc_Status := cc_Status c;
         cc_LastUpdateTime := cc_LastUpdateTime c;
         cc_LastTransitionTime := cc_LastTransitionTime c;
         cc_Reason := cc_Reason condition; cc_Message := cc_Message condition |}
    else condition in
  if bool_decide (cc_Message condition ≠ cc_Message c) || bool_decide (cc_Reason condition ≠ cc_Reason c)
  then
    {| cc_Type := cc_Type condition1; cc_Status := cc_Status condition1;
       cc_LastUpdateTime := cc_LastUpdateTime c;
       cc_LastTransitionTime := cc_LastTransitionTime condition1;
       cc_Reason := cc_Reason c; cc_Message := cc_Message c |}
  else condition1.

Fixpoint set_condition (c : ClusterCondition) (l : list ClusterCondition) :
    list ClusterCondition :=
  match l with
  | [] => [c]
  | condition :: l' =>
      if bool_decide (cc_Type condition = cc_Type c)
      then update_condition condition c :: l'
      else condition :: set_condition c l'
  end.

Definition setClusterCondition (c : ClusterCondition) cs : ClusterStatus :=
  set_Conditions (set_condition c (st_Conditions cs)) cs.

Definition HasCondition (c : CouchbaseCluster) (condition : ClusterConditionType) : bool :=
  match GetCondition (Status c) condition with
  | Some cond => bool_decide (cc_Status cond = ConditionTrue)
  | None => false
  end.

(** ** One setter per condition *)
Section setters.
Context (now : string).

Definition SetServicesMismatchCondition cs :=
  setClusterCondition (newClusterCondition now ClusterConditionServicesMismatch ConditionTrue
    "ServicesMismatch"
    "The current services do not match the desired services for one or more server classes") cs.

Definition SetScalingCondition cs :=
  setClusterCondition (newClusterCondition now ClusterConditionScaling ConditionTrue
    "ClusterScaling" "The operator is attempting to scale the cluster") cs.

Definition SetScalingUpCondition (msg : string) cs :=
  let cs := SetScalingCondition cs in
  setClusterCondition (newClusterCondition now ClusterConditionScalingUp ConditionTrue
    "ScalingUp" msg) cs.

Definition SetScalingDownCondition (msg : string) cs :=
  let cs := SetScalingCondition cs in
  setClusterCondition (newClusterCondition now ClusterConditionScalingDown ConditionTrue
    "ScalingDown" msg) cs.

Definition SetRebalancingCondition cs :=
  setClusterCondition (newClusterCondition now ClusterConditionRebalancing ConditionTrue
    "Rebalancing" "Rebalancing the cluster") cs.

Definition AddRebalanceAttempt cs :=
  set_RebalanceAttempts (wrap64 (st_RebalanceAttempts cs + 1)) cs.

Definition GetRebalanceAttempts cs : Z := st_RebalanceAttempts cs.

Definition SetBalancedCondition cs :=
  set_RebalanceAttempts 0
    (setClusterCondition (newClusterCondition now ClusterConditionBalanced ConditionTrue
      "Balanced" "Data is equally distributed across all nodes in the cluster") cs).

Definition SetManualInterventionRequiredCondition (message : string) cs :=
  setClusterCondition (newClusterCondition now ClusterConditionManualInterventionRequired
    ConditionTrue "ManualInterventionRequired" message) cs.

Definition SetUnbalancedCondition cs :=
  setClusterCondition (newClusterCondition now ClusterConditionBalanced ConditionFalse
    "Unbalanced" "The operator is attempting to rebalance the data to correct this issue") cs.

Definition SetUnknownBalancedCondition cs :=
  setClusterCondition (newClusterCondition now ClusterConditionBalanced ConditionUnknown
    "UnknownBalance" "Unable to determine if cluster is balanced") cs.

Definition SetCreatingCondition cs :=
  setClusterCondition (newClusterCondition now ClusterConditionAvailable ConditionFalse
    "Creating" "The cluster is being created") cs.

Definition SetUnavailableCondition (down : list string) cs :=
  setClusterCondition (newClusterCondition now ClusterConditionAvailable ConditionFalse
    "PartiallyAvailable"
    ("The following nodes are down and not serving requests: " +:+ strings_Join down ", ")) cs.

Definition SetReadyCondition cs :=
  setClusterCondition (newClusterCondition now ClusterConditionAvailable ConditionTrue
    "Available" "") cs.

(** [UpgradeStatus.Format]. *)
Definition UpgradeStatus_Format (targetCount totalCount : Z) : string :=
  "Cluster upgrading (progress " +:+ fmt_d targetCount +:+ "/" +:+ fmt_d totalCount +:+ ")".

Definition SetUpgradingCondition (targetCount totalCount : Z) cs :=
  setClusterCondition (newClusterCondition now ClusterConditionUpgrading ConditionTrue
    "Upgrading" (UpgradeStatus_Format targetCount totalCount)) cs.

Definition SetEnteringHibernatingCondition (message : string) cs :=
  setClusterCondition (newClusterCondition now ClusterConditionHibernating ConditionFalse
    "Hibernating" message) cs.

Definition SetHibernatingCondition (message : string) cs :=
  setClusterCondition (newClusterCondition now ClusterConditionHibernating ConditionTrue
    "Hibernating" message) cs.

Definition SetErrorCondition (message : string) cs :=
  setClusterCondition (newClusterCondition now ClusterConditionError ConditionTrue
    "ErrorEncountered" message) cs.

Definition SetUnreconcilableCondition (message : string) cs :=
  setClusterCondition (newClusterCondition now ClusterUnreconcilable ConditionTrue
    "Unreconcilable" message) cs.

Definition SetAutoscalerReadyCondition (message : string) cs :=
  setClusterCondition (newClusterCondition now ClusterConditionAutoscaleReady ConditionTrue
    "AutoscaleReady" message) cs.

Definition SetAutoscalerUnreadyCondition (message : string) cs :=
  setClusterCondition (newClusterCondition now ClusterConditionAutoscaleReady ConditionFalse
    "AutoscalePaused" message) cs.

Definition SetSynchronizedCondition cs :=
  setClusterCondition (newClusterCondition now ClusterConditionSynchronized ConditionTrue
    "SynchronizationComplete" "Data topology synchronized and ready to be managed") cs.

Definition SetSynchronizationFailedCondition cs :=
  setClusterCondition (newClusterCondition now ClusterConditionSynchronized ConditionFalse
    "SynchronizationFailed"
    "Data topology synchronization failed, enabling management unsafe and may delete data") cs.

Definition SetWaitingBetweenUpgrades cs :=
  setClusterCondition (newClusterCondition now ClusterConditionWaitingBetweenUpgrades
    ConditionTrue "Waiting" "Waiting before starting next upgrade") cs.

Definition SetWaitingBetweenMigrations cs :=
  setClusterCondition (newClusterCondition now ClusterConditionWaitingBetweenMigrations
    ConditionTrue "Waiting" "Waiting before starting next migration") cs.

Definition SetNotWaitingBetweenMigrations cs :=
  setClusterCondition (newClusterCondition now ClusterConditionWaitingBetweenMigrations
    ConditionFalse "Waiting" "Waiting before starting next migration") cs.

Definition SetMigratingCondition cs :=
  setClusterCondition (newClusterCondition now ClusterConditionMigrating ConditionTrue
    "Migrating" "Migrating unmanaged cluster") cs.

Definition SetExpandingVolumeCondition cs :=
  setClusterCondition (newClusterCondition now ClusterConditionExpandingVolume ConditionTrue
    "ExpandingVolume" "Volumes are being expanded") cs.

Definition SetBucketMigrationCondition cs :=
  setClusterCondition (newClusterCondition now ClusterConditionBucketMigration ConditionTrue
    "BucketMigration" "Migrating buckets") cs.

Definition SetBucketEvictionMigrationCondition cs :=
  setClusterCondition (newClusterCondition now ClusterConditionBucketEvictionMigration
    ConditionTrue "BucketEvictionMigration" "Migrating bucket eviction policy") cs.

Definition SetMixedModeCondition cs :=
  setClusterCondition (newClusterCondition now ClusterConditionMixedMode ConditionTrue
    "MixedMode" "Cluster running in mixed mode with two versions") cs.
End setters.

(** ** Decisions on conditions *)
Definition HibernatedWithMemcached (c : CouchbaseCluster) : bool :=
  let has := st_HibernatedWithMemcachedBuckets (Status c) in
  HasCondition c ClusterConditionHibernating &&
  match has with None => true | Some b => b end.

Definition IsReadyToAttemptMigration (c : CouchbaseCluster) : bool :=
  match GetCondition (Status c) ClusterConditionWaitingBetweenMigrations with
  | None => true
  | Some cond => bool_decide (cc_Status cond ≠ ConditionTrue)
  end.

Definition IsMigrating (c : CouchbaseCluster) : bool :=
  match GetCondition (Status c) ClusterConditionMigrating with
  | None => false
  | Some cond => bool_decide (cc_Status cond = ConditionTrue)
  end.

Definition CanHibernate (c : CouchbaseCluster) : bool * string :=
  if HasNeverRun c then (true, "")
  else if IsMigrationCluster c then (false, "Cluster is a migration cluster")
  else if HasCondition c ClusterConditionUpgrading then (false, "Cluster is upgrading")
  else if HasCondition c ClusterConditionBucketMigration
       || HasCondition c ClusterConditionBucketEvictionMigration
  then (false, "Cluster is migrating buckets")
  else if HasCondition c ClusterConditionScaling then (false, "Cluster is scaling")
  else if negb (HasCondition c ClusterConditionBalanced) then (false, "Cluster is unbalanced")
  else if negb (HasCondition c ClusterConditionAvailable) then (false, "Cluster is unavailable")
  else (true, "").

(** A status with two conditions. *)
Definition status_example : ClusterStatus :=
  SetUnbalancedCondition "t1" (SetReadyCondition "t0"
    {| st_ControlPaused := false; st_Conditions := []; st_ClusterID := "id"; st_Size := 3;
       st_CurrentVersion := "7.6.0"; st_RebalanceAttempts := 2;
       st_HibernatedWithMemcachedBuckets := None; st_Members := None;
       st_Autoscalers := []; st_LastUpdateTime := "" |}).

(** ** Lemmas *)
Lemma update_condition_type condition c :
  cc_Type (update_condition condition c) = cc_Type condition.
Proof. unfold update_condition. by repeat case_match. Qed.

Lemma update_condition_spec condition c :
  cc_Status (update_condition condition c) = cc_Status c ∧
  cc_Reason (update_condition condition c) = cc_Reason c ∧
  cc_Message (update_condition condition c) = cc_Message c ∧
  cc_LastTransitionTime (update_condition condition c) =
    (if decide (cc_Status condition = cc_Status c)
     then cc_LastTransitionTime condition else cc_LastTransitionTime c).
Proof.
  unfold update_condition.
  destruct (decide (cc_Status condition = cc_Status c)) as [Hs|Hs];
    [rewrite (bool_decide_eq_false_2 (cc_Status condition ≠ _)) by tauto
    |rewrite (bool_decide_eq_true_2 (cc_Status condition ≠ _)) by done];
    repeat case_bool_decide; simpl; split_and!;
    first [done | by apply dec_stable | congruence].
Qed.

Lemma find_set_condition_other t c l :
  cc_Type c ≠ t → find_condition t (set_condition c l) = find_condition t l.
Proof.
  intros Hne. induction l as [|x l IH]; simpl.
  { by rewrite bool_decide_eq_false_2. }
  case_bool_decide as Hx; simpl.
  - rewrite update_condition_type, !bool_decide_eq_false_2; congruence.
  - case_bool_decide; [done|apply IH].
Qed.

Lemma find_set_condition c l :
  find_condition (cc_Type c) (set_condition c l) =
    Some (match find_condition (cc_Type c) l with
          | Some old => update_condition old c
          | None => c
          end).
Proof.
  induction l as [|x l IH]; simpl.
  { by rewrite bool_decide_eq_true_2. }
  case_bool_decide as Hx; simpl.
  - by rewrite update_condition_type, bool_decide_eq_true_2.
  - by rewrite bool_decide_eq_false_2.
Qed.

Lemma set_condition_types c l :
  cc_Type <$> set_condition c l =
    if decide (cc_Type c ∈ cc_Type <$> l) then cc_Type <$> l
    else (cc_Type <$> l) ++ [cc_Type c].
Proof.
  induction l as [|x l IH]; csimpl.
  { done. }
  case_bool_decide as Hx; csimpl.
  - rewrite update_condition_type. by rewrite decide_True by (rewrite Hx; constructor).
  - rewrite IH. destruct (decide (cc_Type c ∈ cc_Type <$> l)).
    + by rewrite decide_True by (by constructor).
    + rewrite decide_False; [done|]. intros [?|?]%elem_of_cons; congruence.
Qed.

Lemma find_condition_None t l : find_condition t l = None ↔ t ∉ cc_Type <$> l.
Proof.
  induction l as [|x l IH]; csimpl; [set_solver|].
  case_bool_decide; [set_solver|]. rewrite IH. set_solver.
Qed.

Lemma find_remove_condition_other t t' l :
  t ≠ t' → find_condition t (remove_condition t' l) = find_condition t l.
Proof.
  intros Hne. induction l as [|x l IH]; simpl; [done|].
  case_bool_decide; simpl.
  - by rewrite bool_decide_eq_false_2 by congruence.
  - case_bool_decide; [done|apply IH].
Qed.

Lemma find_remove_condition t l :
  NoDup (cc_Type <$> l) → find_condition t (remove_condition t l) = None.
Proof.
  induction l as [|x l IH]; csimpl; [done|]. intros [Hx Hl]%NoDup_cons.
  case_bool_decide as Ht; simpl.
  - apply find_condition_None. by rewrite <- Ht.
  - rewrite bool_decide_eq_false_2 by done. by apply IH.
Qed.

(** ** Properties *)

(** Setting a condition makes [GetCondition] return it with the new status,
    reason and message; the transition time moves only when the status changes
    (or the condition is new); the conditions of other types are untouched, no
    type gets a second entry, and no other field of the status changes. *)
Theorem setClusterCondition_spec cs c :
  let cs' := setClusterCondition c cs in
  (∃ c', GetCondition cs' (cc_Type c) = Some c' ∧
     cc_Status c' = cc_Status c ∧ cc_Reason c' = cc_Reason c ∧
     cc_Message c' = cc_Message c ∧
     cc_LastTransitionTime c' =
       match GetCondition cs (cc_Type c) with
       | Some old => if decide (cc_Status old = cc_Status c)
                     then cc_LastTransitionTime old else cc_LastTransitionTime c
       | None => cc_LastTransitionTime c
       end) ∧
  (∀ t, t ≠ cc_Type c → GetCondition cs' t = GetCondition cs t) ∧
  (NoDup (cc_Type <$> st_Conditions cs) → NoDup (cc_Type <$> st_Conditions cs')) ∧
  set_Conditions [] cs' = set_Conditions [] cs.
Proof.
  unfold GetCondition, setClusterCondition; simpl. split_and!.
  - rewrite find_set_condition.
    destruct (find_condition (cc_Type c) (st_Conditions cs)) as [old|];
      eexists; (split; [done|]); [apply update_condition_spec|done].
  - intros t Ht. by apply find_set_condition_other.
  - rewrite set_condition_types. case_decide; [done|].
    intros ?. apply NoDup_app. split_and!; [done|set_solver|apply NoDup_singleton].
  - done.
Qed.

(** clearing a condition of a status with one entry per type removes it and
    keeps every other condition and every other field. *)
Theorem ClearCondition_spec cs t (Hnd : NoDup (cc_Type <$> st_Conditions cs)) :
  let cs' := ClearCondition t cs in
  GetCondition cs' t = None ∧
  (∀ t', t' ≠ t → GetCondition cs' t' = GetCondition cs t') ∧
  set_Conditions [] cs' = set_Conditions [] cs.
Proof.
  unfold GetCondition, ClearCondition; simpl. split_and!; [|intros|done].
  - by apply find_remove_condition.
  - by apply find_remove_condition_other.
Qed.

Lemma ClearCondition_spec_witness :
  GetCondition (ClearCondition ClusterConditionBalanced status_example)
    ClusterConditionBalanced = None.
Proof.
  refine (proj1 (ClearCondition_spec status_example ClusterConditionBalanced _)).
  vm_compute. repeat constructor; set_solver.
Defined.

(** A cluster that was set up may hibernate exactly when it is balanced and
    available and neither a migration cluster, nor upgrading, nor migrating
    buckets, nor scaling; a cluster that was never set up always may. *)
Theorem CanHibernate_spec (c : CouchbaseCluster) :
  (CanHibernate c).1 = true ↔
  HasNeverRun c = true ∨
  (IsMigrationCluster c = false ∧
   HasCondition c ClusterConditionUpgrading = false ∧
   HasCondition c ClusterConditionBucketMigration = false ∧
   HasCondition c ClusterConditionBucketEvictionMigration = false ∧
   HasCondition c ClusterConditionScaling = false ∧
   HasCondition c ClusterConditionBalanced = true ∧
   HasCondition c ClusterConditionAvailable = true).
Proof.
  unfold CanHibernate. destruct (HasNeverRun c); [naive_solver|].
  destruct (IsMigrationCluster c); [naive_solver|].
  repeat destruct (HasCondition c _); naive_solver.
Qed.
