(* ===== verification/ServerGroups.v ===== *)
(** * pkg/util/scheduler/util.go: server lists, server groups, removal queues

    A [*serverList] is owned by the map entry that holds it, so a method called
    through the pointer is an update of the map at that key. *)

From Stdlib Require Import Ascii.
From S2P Require Import Prelude GoLib.

(** ** serverList *)
Record serverList := ServerList { servers : list string }.
#[export] Instance serverList_eq_dec : EqDecision serverList.
Proof. solve_decision. Defined.

Definition serverList_push (server : string) (s : serverList) : serverList :=
  ServerList (servers s ++ [server]).

Definition serverList_sort (s : serverList) : serverList :=
  ServerList (sort_Strings (servers s)).

Definition serverList_pop (s : serverList) : result (string * serverList) :=
  match last (servers s) with
  | None => Err ErrInternalError
  | Some server => Ok (server, ServerList (removelast (servers s)))
  end.

Fixpoint del_first (name : string) (l : list string) : option (list string) :=
  match l with
  | [] => None
  | server :: l' => if bool_decide (server = name) then Some l'
                    else cons server <$> del_first name l'
  end.

Definition serverList_del (name : string) (s : serverList) : result serverList :=
  match del_first name (servers s) with
  | Some l => Ok (ServerList l)
  | None => Err ErrInternalError
  end.

Definition serverList_find (name : string) (s : serverList) : bool :=
  existsb (λ server, bool_decide (server = name)) (servers s).

Definition list_size (s : serverList) : nat := length (servers s).

(** ** groupMap: the methods shared by both kinds of server groups *)
Abbreviation groupMap := (gmap string serverList).

Section group_maps.
Context `{MapRange}.
Implicit Types (pos : list nat) (s : groupMap).

Definition groupMap_addGroup (name : string) s : groupMap := <[name := ServerList []]> s.

Definition groupMap_groupExists s (group : string) : bool := bool_decide (is_Some (s !! group)).

Definition sizes pos s : list nat := (λ e, list_size e.2) <$> range pos s.

Definition min_loop (min size : nat) : nat := if (size <? min)%nat then size else min.
Definition max_loop (max size : nat) : nat := if (max <? size)%nat then size else max.

(** [sizes[0]] panics when there is no group. *)
Definition minSize pos s : result nat :=
  match sizes pos s with
  | [] => Panic
  | size :: rest => Ok (fold_left min_loop (size :: rest) size)
  end.

Definition maxSize pos s : nat := fold_left max_loop (sizes pos s) 0.

Definition groupMap_filter pos (predicate : serverList → bool) s : list string :=
  (filter (λ e, predicate e.2 = true) (range pos s)).*1.

Definition groupMap_smallestGroups pos s : result (list string) :=
  min ← minSize (pos ++ [0]) s;
  Ok (sort_Strings (groupMap_filter (pos ++ [1]) (λ l, list_size l =? min)%nat s)).

Definition groupMap_largestGroups pos s : list string :=
  let max := maxSize (pos ++ [0]) s in
  groupMap_filter (pos ++ [1]) (λ l, list_size l =? max)%nat s.

(** The order [sort.SliceStable] uses: a list is not moved before one that is
    not larger. *)
Definition size_leb s (g1 g2 : string) : bool :=
  let size g := match s !! g with Some l => list_size l | None => 0 end in
  (size g1 <=? size g2)%nat.
End group_maps.

(** ** serverGroups: ordered (shuffled) or lexical *)
Record orderedServerGroups := {
  groupsOrder : list string;
  ord_groupMap : groupMap;
}.

Inductive serverGroups :=
  | Ordered (s : orderedServerGroups)
  | Lexical (s : groupMap).

Definition newOrderedServerGroups : serverGroups :=
  Ordered {| groupsOrder := []; ord_groupMap := ∅ |}.
Definition newLexicalServerGroups : serverGroups := Lexical ∅.

Section server_groups.
Context `{MapRange}.
Implicit Types (pos : list nat) (sg : serverGroups) (o : orderedServerGroups).

Definition getMap sg : groupMap :=
  match sg with Ordered o => ord_groupMap o | Lexical m => m end.

Definition getGroup (name : string) sg : option serverList := getMap sg !! name.

(** A mutation through the pointer [getGroup name] returned. *)
Definition setGroup (name : string) (l : serverList) sg : serverGroups :=
  match sg with
  | Ordered o => Ordered {| groupsOrder := groupsOrder o;
                            ord_groupMap := <[name := l]> (ord_groupMap o) |}
  | Lexical m => Lexical (<[name := l]> m)
  end.

Definition ordered_addGroup (name : string) o : orderedServerGroups :=
  {| groupsOrder := groupsOrder o ++ [name];
     ord_groupMap := groupMap_addGroup name (ord_groupMap o) |}.

Definition addGroup (name : string) sg : serverGroups :=
  match sg with
  | Ordered o => Ordered (ordered_addGroup name o)
  | Lexical m => Lexical (groupMap_addGroup name m)
  end.

Definition groupExists sg (group : string) : bool := groupMap_groupExists (getMap sg) group.

Definition addGroupIfDoesntExist (group : string) sg : serverGroups :=
  if groupExists sg group then sg else addGroup group sg.

(** [predicate(s.groupMap[group])] dereferences nil for an unknown group. *)
Fixpoint ordered_filter (predicate : serverList → bool) (m : groupMap) (order : list string) :
    result (list string) :=
  match order with
  | [] => Ok []
  | group :: order' =>
      match m !! group with
      | None => Panic
      | Some l =>
          groups ← ordered_filter predicate m order';
          Ok (if predicate l then group :: groups else groups)
      end
  end.

Definition smallestGroups pos sg : result (list string) :=
  match sg with
  | Ordered o =>
      min ← minSize pos (ord_groupMap o);
      ordered_filter (λ l, list_size l =? min)%nat (ord_groupMap o) (groupsOrder o)
  | Lexical m => groupMap_smallestGroups pos m
  end.

Definition smallestGroup pos sg : result string :=
  groups ← smallestGroups pos sg;
  match groups with group :: _ => Ok group | [] => Panic end.

Definition largestGroups pos sg : result (list string) :=
  match sg with
  | Ordered o =>
      ordered_filter (λ l, list_size l =? maxSize pos (ord_groupMap o))%nat
        (ord_groupMap o) (groupsOrder o)
  | Lexical m => Ok (groupMap_largestGroups pos m)
  end.

Definition largestGroup pos sg : result string :=
  groups ← largestGroups pos sg;
  let groups := match sg with Ordered _ => groups | Lexical _ => sort_Strings groups end in
  match last groups with Some group => Ok group | None => Panic end.

(** The comparison dereferences nil for an unknown group, once two groups are
    compared. *)
Definition sizeOrderedGroups pos sg : result (list string) :=
  match sg with
  | Ordered o =>
      let groups := groupsOrder o in
      if bool_decide (2 ≤ length groups) &&
         negb (forallb (groupMap_groupExists (ord_groupMap o)) groups)
      then Panic
      else Ok (stable_sort (size_leb (ord_groupMap o)) groups)
  | Lexical m =>
      let groups := sort_Strings (range pos m).*1 in
      Ok (stable_sort (size_leb m) groups)
  end.
End server_groups.

Abbreviation serverClassGroupMap := (gmap string serverGroups).

(** ** serverRemovalPriorityQueue *)
Record serverRemovalPriorityQueue := RemovalQueue { rq_servers : list string }.

Definition NewServerRemovalPriorityQueue : serverRemovalPriorityQueue := RemovalQueue [].

Definition enqueueAll (servers : list string) (q : serverRemovalPriorityQueue) :
    serverRemovalPriorityQueue := RemovalQueue (rq_servers q ++ servers).

Definition dequeue (q : serverRemovalPriorityQueue) : string * serverRemovalPriorityQueue :=
  match rq_servers q with
  | [] => ("", q)
  | server :: rest => (server, RemovalQueue rest)
  end.

(** The two loops of [dequeHighestRankedCandidate]: the queued servers from the
    front, and for each the candidate lists. *)
Fixpoint deque_loop `{MapRange} (pos : list nat) (n : nat) (serverLists : groupMap)
    (queue : list string) : option (string * string * list string) :=
  match queue with
  | [] => None
  | server :: rest =>
      match list_find (λ e, serverList_find server e.2 = true) (range (pos ++ [n]) serverLists) with
      | Some (_, (serverGroup, _)) => Some (server, serverGroup, rest)
      | None =>
          match deque_loop pos (S n) serverLists rest with
          | Some (found, group, rest') => Some (found, group, server :: rest')
          | None => None
          end
      end
  end.

Definition dequeHighestRankedCandidate `{MapRange} (pos : list nat) (serverLists : groupMap)
    (q : serverRemovalPriorityQueue) : string * string * serverRemovalPriorityQueue :=
  match deque_loop pos 0 serverLists (rq_servers q) with
  | Some (server, group, rest) => (server, group, RemovalQueue rest)
  | None => ("", "", q)
  end.

Abbreviation serverClassServerRemovalMap := (gmap string serverRemovalPriorityQueue).

(** ** Shuffling server groups *)

(** [hash/fnv]: 64-bit FNV-1a. *)
Definition fnv64a_step (h : Z) (c : ascii) : Z :=
  (Z.lxor h (Z.of_nat (Ascii.nat_of_ascii c)) * 1099511628211) mod 2 ^ 64.

Definition hashString (s : string) : Z :=
  fold_left fnv64a_step (string_bytes s) 14695981039346656037%Z.

Definition ShuffleServerGroups `{MathRand} (groups : list string) (clusterName : string) :
    list string :=
  rand_Shuffle (int64_of_uint64 (hashString clusterName)) groups.

(** All the servers of a map of groups. *)
Definition all_servers (m : groupMap) : list string := map_to_list m ≫= λ e, servers e.2.

(** ** Lemmas: server lists *)
Lemma elem_of_all_servers (m : groupMap) n :
  n ∈ all_servers m ↔ ∃ g l, m !! g = Some l ∧ n ∈ servers l.
Proof.
  unfold all_servers. rewrite list_elem_of_bind. split.
  - intros ([g l]&Hn&Hg%elem_of_map_to_list). by exists g, l.
  - intros (g&l&Hg&Hn). exists (g, l). by rewrite elem_of_map_to_list.
Qed.

Lemma all_servers_insert (m : groupMap) g l :
  all_servers (<[g := l]> m) ≡ₚ servers l ++ all_servers (delete g m).
Proof.
  unfold all_servers. rewrite <- insert_delete_eq.
  rewrite map_to_list_insert by apply lookup_delete_eq. done.
Qed.

Lemma all_servers_lookup (m : groupMap) g l :
  m !! g = Some l → all_servers m ≡ₚ servers l ++ all_servers (delete g m).
Proof.
  intros Hg. rewrite <- (insert_delete_id m g l Hg) at 1. rewrite all_servers_insert.
  by rewrite delete_delete_eq.
Qed.

Lemma del_first_Some name l l' : del_first name l = Some l' → l ≡ₚ name :: l'.
Proof.
  revert l'. induction l as [|x l IH]; intros l'; simpl; [done|].
  case_bool_decide as Hx; [by intros [= <-]; subst|].
  destruct (del_first name l) as [l0|] eqn:E; simpl; [|done].
  intros [= <-]. rewrite (IH l0 eq_refl). constructor.
Qed.

Lemma del_first_None name l : del_first name l = None ↔ name ∉ l.
Proof.
  induction l as [|x l IH]; simpl; [set_solver|].
  case_bool_decide as Hx; [set_solver|].
  rewrite fmap_None, IH. set_solver.
Qed.

Lemma serverList_find_spec name s : serverList_find name s = true ↔ name ∈ servers s.
Proof.
  unfold serverList_find. rewrite existsb_exists. split.
  - intros (x&Hx&Hb). apply bool_decide_eq_true in Hb as <-. by apply list_elem_of_In.
  - intros Hx. exists name. rewrite bool_decide_eq_true. split; [by apply list_elem_of_In|done].
Qed.

Lemma serverList_del_Ok name s s' :
  serverList_del name s = Ok s' → servers s ≡ₚ name :: servers s'.
Proof.
  unfold serverList_del. destruct (del_first name _) as [l|] eqn:E; [|done].
  intros [= <-]. by apply del_first_Some.
Qed.

Lemma serverList_del_total name s :
  name ∈ servers s → ∃ s', serverList_del name s = Ok s'.
Proof.
  unfold serverList_del. intros Hn. destruct (del_first name _) eqn:E; [by eauto|].
  by apply del_first_None in E.
Qed.

Lemma removelast_last {A} (l : list A) x :
  last l = Some x → l = removelast l ++ [x].
Proof.
  induction l as [|y l IH]; [done|].
  destruct l as [|z l]; [by intros [= ->]|].
  intros H%IH. change (removelast (y :: z :: l)) with (y :: removelast (z :: l)).
  rewrite <- app_comm_cons. by f_equal.
Qed.

Lemma serverList_pop_Ok s server s' :
  serverList_pop s = Ok (server, s') → servers s = servers s' ++ [server].
Proof.
  unfold serverList_pop. destruct (last (servers s)) eqn:E; [|done].
  intros [= <- <-]. by apply removelast_last.
Qed.

Lemma serverList_pop_total s :
  servers s ≠ [] → ∃ server s', serverList_pop s = Ok (server, s').
Proof.
  intros Hs. unfold serverList_pop. destruct (last (servers s)) eqn:E; [by eauto|].
  by apply last_None in E.
Qed.

(** ** Lemmas: extreme sizes *)
Lemma min_loop_spec l x :
  (fold_left min_loop l x = x ∨ fold_left min_loop l x ∈ l) ∧
  fold_left min_loop l x ≤ x ∧ ∀ y, y ∈ l → fold_left min_loop l x ≤ y.
Proof.
  revert x. induction l as [|y l IH]; intros x; simpl.
  { split_and!; [by left|done|]. intros ? []%not_elem_of_nil. }
  unfold min_loop at 2 4 6 8. destruct (Nat.ltb_spec y x);
    (destruct (IH y) as (Hy&Hy'&Hy''), (IH x) as (Hx&Hx'&Hx'')); split_and!;
    try (intros z [->|Hz]%elem_of_cons); auto; try lia; set_solver.
Qed.

Lemma max_loop_spec l x :
  (fold_left max_loop l x = x ∨ fold_left max_loop l x ∈ l) ∧
  x ≤ fold_left max_loop l x ∧ ∀ y, y ∈ l → y ≤ fold_left max_loop l x.
Proof.
  revert x. induction l as [|y l IH]; intros x; simpl.
  { split_and!; [by left|done|]. intros ? []%not_elem_of_nil. }
  unfold max_loop at 2 4 6 8. destruct (Nat.ltb_spec x y);
    (destruct (IH y) as (Hy&Hy'&Hy''), (IH x) as (Hx&Hx'&Hx'')); split_and!;
    try (intros z [->|Hz]%elem_of_cons); auto; try lia; set_solver.
Qed.

Section extremes.
Context `{MapRange}.
Implicit Types (pos : list nat) (m : groupMap) (sg : serverGroups).

Lemma elem_of_sizes pos m n :
  n ∈ sizes pos m ↔ ∃ g l, m !! g = Some l ∧ n = list_size l.
Proof.
  unfold sizes. rewrite list_elem_of_fmap. setoid_rewrite range_perm. split.
  - intros ([g l]&->&Hl%elem_of_map_to_list). by exists g, l.
  - intros (g&l&Hl&->). exists (g, l). by rewrite elem_of_map_to_list.
Qed.

(** [k] is the size of a smallest (largest) list of [m]. *)
Definition is_min m (k : nat) : Prop :=
  (∃ g l, m !! g = Some l ∧ k = list_size l) ∧ ∀ g l, m !! g = Some l → k ≤ list_size l.
Definition is_max m (k : nat) : Prop :=
  (∃ g l, m !! g = Some l ∧ k = list_size l) ∧ ∀ g l, m !! g = Some l → list_size l ≤ k.

Lemma is_min_unique m k k' : is_min m k → is_min m k' → k = k'.
Proof. intros [(g&l&Hl&->) Hk] [(g'&l'&Hl'&->) Hk']. apply Nat.le_antisymm; eauto. Qed.

Lemma is_max_unique m k k' : is_max m k → is_max m k' → k = k'.
Proof. intros [(g&l&Hl&->) Hk] [(g'&l'&Hl'&->) Hk']. apply Nat.le_antisymm; eauto. Qed.

Lemma sizes_nil pos m : sizes pos m = [] ↔ m = ∅.
Proof.
  unfold sizes. rewrite <- (map_to_list_empty_iff m). split.
  - intros Hn%fmap_nil_inv. pose proof (range_perm pos m) as Hp. rewrite Hn in Hp.
    by apply Permutation_nil.
  - intros Hn. pose proof (range_perm pos m) as Hp. rewrite Hn in Hp.
    by apply Permutation_nil_r in Hp as ->.
Qed.

Lemma minSize_empty pos m : m = ∅ → minSize pos m = Panic.
Proof. intros Hm%(sizes_nil pos). unfold minSize. by rewrite Hm. Qed.

Lemma minSize_spec pos m : m ≠ ∅ → ∃ k, minSize pos m = Ok k ∧ is_min m k.
Proof.
  intros Hm. unfold minSize. destruct (sizes pos m) as [|x l] eqn:E.
  { by apply sizes_nil in E. }
  eexists; split; [done|].
  destruct (min_loop_spec (x :: l) x) as (Hin&_&Hle). rewrite <- E in *. split.
  - apply (elem_of_sizes pos). destruct Hin as [->|?]; [|done]. rewrite E. constructor.
  - intros g s Hs. apply Hle, elem_of_sizes. by exists g, s.
Qed.

Lemma maxSize_spec pos m : m ≠ ∅ → is_max m (maxSize pos m).
Proof.
  intros Hm. unfold maxSize.
  destruct (max_loop_spec (sizes pos m) 0) as (Hin&_&Hle). split.
  - destruct Hin as [H0|Hin]; [|by apply (elem_of_sizes pos)].
    destruct (map_choose m Hm) as (g&l&Hl). exists g, l. split; [done|].
    assert (list_size l ∈ sizes pos m) as Hs by (apply elem_of_sizes; eauto).
    apply Hle in Hs. lia.
  - intros g l Hl. apply Hle, elem_of_sizes. by exists g, l.
Qed.

Lemma elem_of_groupMap_filter pos p m g :
  g ∈ groupMap_filter pos p m ↔ ∃ l, m !! g = Some l ∧ p l = true.
Proof.
  unfold groupMap_filter. rewrite list_elem_of_fmap.
  setoid_rewrite list_elem_of_filter. setoid_rewrite range_perm. split.
  - intros ([g' l]&->&?&Hl%elem_of_map_to_list). by exists l.
  - intros (l&Hl&?). exists (g, l). by rewrite elem_of_map_to_list.
Qed.

(** ** Well-formed server groups: the order lists the keys of the map *)
Definition sg_wf sg : Prop :=
  match sg with
  | Ordered o => ∀ g, g ∈ groupsOrder o ↔ is_Some (ord_groupMap o !! g)
  | Lexical _ => True
  end.

Lemma ordered_filter_spec p m order :
  (∀ g, g ∈ order → is_Some (m !! g)) →
  ∃ groups, ordered_filter p m order = Ok groups ∧
    ∀ g, g ∈ groups ↔ g ∈ order ∧ ∃ l, m !! g = Some l ∧ p l = true.
Proof.
  induction order as [|x order IH]; intros Ho; simpl.
  { exists []. split; [done|]. set_solver. }
  destruct (Ho x) as [l Hl]; [constructor|]. rewrite Hl.
  destruct IH as (groups&->&Hg); [intros g Hg; apply Ho; by constructor|]. simpl.
  eexists; split; [done|]. intros g. destruct (p l) eqn:Hp.
  - rewrite !elem_of_cons, Hg. split; [intros [->|[??]]; eauto|intros [[->|?] ?]; eauto].
  - rewrite elem_of_cons, Hg. split; [intros [??]; eauto|].
    intros [[->|?] (l'&?&?)]; [congruence|eauto].
Qed.

Lemma smallestGroups_spec pos sg :
  sg_wf sg → getMap sg ≠ ∅ →
  ∃ groups k, smallestGroups pos sg = Ok groups ∧ is_min (getMap sg) k ∧
    ∀ g, g ∈ groups ↔ ∃ l, getGroup g sg = Some l ∧ list_size l = k.
Proof.
  unfold getGroup. destruct sg as [o|m]; simpl; intros Hwf Hne.
  - destruct (minSize_spec pos _ Hne) as (k&->&Hk). simpl.
    destruct (ordered_filter_spec (λ l, list_size l =? k)%nat (ord_groupMap o) (groupsOrder o))
      as (groups&->&Hg); [by intros g Hg; apply Hwf|].
    exists groups, k. split_and!; [done|done|]. intros g. rewrite Hg, Hwf.
    setoid_rewrite Nat.eqb_eq. naive_solver.
  - unfold groupMap_smallestGroups.
    destruct (minSize_spec (pos ++ [0]) _ Hne) as (k&->&Hk). simpl.
    eexists _, k. split_and!; [done|done|]. intros g.
    rewrite sort_Strings_perm, elem_of_groupMap_filter. by setoid_rewrite Nat.eqb_eq.
Qed.

Lemma largestGroups_spec pos sg :
  sg_wf sg → getMap sg ≠ ∅ →
  ∃ groups k, largestGroups pos sg = Ok groups ∧ is_max (getMap sg) k ∧
    ∀ g, g ∈ groups ↔ ∃ l, getGroup g sg = Some l ∧ list_size l = k.
Proof.
  unfold getGroup. destruct sg as [o|m]; simpl; intros Hwf Hne.
  - pose proof (maxSize_spec pos _ Hne) as Hk.
    destruct (ordered_filter_spec (λ l, list_size l =? maxSize pos (ord_groupMap o))%nat
      (ord_groupMap o) (groupsOrder o)) as (groups&->&Hg); [by intros g Hg; apply Hwf|].
    exists groups, (maxSize pos (ord_groupMap o)). split_and!; [done|done|].
    intros g. rewrite Hg, Hwf. setoid_rewrite Nat.eqb_eq. naive_solver.
  - eexists _, _. split_and!; [done|by apply maxSize_spec|]. intros g.
    unfold groupMap_largestGroups. rewrite elem_of_groupMap_filter.
    by setoid_rewrite Nat.eqb_eq.
Qed.

Lemma smallestGroup_spec pos sg :
  sg_wf sg → getMap sg ≠ ∅ →
  ∃ g l, smallestGroup pos sg = Ok g ∧ getGroup g sg = Some l ∧
    is_min (getMap sg) (list_size l).
Proof.
  intros Hwf Hne. unfold smallestGroup.
  destruct (smallestGroups_spec pos sg Hwf Hne) as (groups&k&->&Hk&Hg). simpl.
  destruct groups as [|g groups].
  { exfalso. destruct Hk as [(g&l&Hl&->) _].
    apply (not_elem_of_nil g), Hg. by exists l. }
  destruct (proj1 (Hg g)) as (l&Hl&<-); [constructor|]. by exists g, l.
Qed.

Lemma largestGroup_spec pos sg :
  sg_wf sg → getMap sg ≠ ∅ →
  ∃ g l, largestGroup pos sg = Ok g ∧ getGroup g sg = Some l ∧
    is_max (getMap sg) (list_size l).
Proof.
  intros Hwf Hne. unfold largestGroup.
  destruct (largestGroups_spec pos sg Hwf Hne) as (groups&k&->&Hk&Hg). simpl.
  assert (∀ groups', groups' ≡ₚ groups → ∃ g l,
    match last groups' with Some group => Ok group | None => Panic end = Ok g ∧
    getGroup g sg = Some l ∧ is_max (getMap sg) (list_size l)) as Hlast.
  { intros groups' Hp. destruct (last groups') as [g|] eqn:E.
    - assert (g ∈ groups) as Hin.
      { rewrite <- Hp, (removelast_last _ _ E). set_solver. }
      apply Hg in Hin as (l&Hl&<-). by exists g, l.
    - exfalso. apply last_None in E as ->. apply Permutation_nil in Hp as ->.
      destruct Hk as [(g&l&Hl&->) _]. apply (not_elem_of_nil g), Hg. by exists l. }
  destruct sg; apply Hlast; [done|apply sort_Strings_perm].
Qed.
End extremes.

(** ** Independence from the order Go maps are ranged in *)
Section determinism.
Context (R1 R2 : MapRange) (pos1 pos2 : list nat).
Implicit Types (m : groupMap) (sg : serverGroups).

Lemma minSize_det pos pos' m : @minSize R1 pos m = @minSize R2 pos' m.
Proof.
  destruct (decide (m = ∅)) as [->|Hne]; [by rewrite !minSize_empty|].
  destruct (@minSize_spec R1 pos m Hne) as (k&->&Hk).
  destruct (@minSize_spec R2 pos' m Hne) as (k'&->&Hk').
  f_equal. by eapply is_min_unique.
Qed.

Lemma maxSize_det pos pos' m : @maxSize R1 pos m = @maxSize R2 pos' m.
Proof.
  destruct (decide (m = ∅)) as [->|Hne].
  { unfold maxSize. by rewrite !(proj2 (sizes_nil _ ∅)). }
  eapply is_max_unique; by apply maxSize_spec.
Qed.

Lemma range_det {V} pos pos' (m : gmap string V) : @range R1 V pos m ≡ₚ @range R2 V pos' m.
Proof. by rewrite !range_perm. Qed.

Lemma groupMap_filter_det pos pos' p m :
  @groupMap_filter R1 pos p m ≡ₚ @groupMap_filter R2 pos' p m.
Proof. unfold groupMap_filter. by rewrite (range_det pos pos'). Qed.

(** Which group a new pod goes to, which group loses one, and the order in
    which groups are tried do not depend on the order Go ranges over the maps
    of groups, for ordered and for lexical server groups. *)
Theorem group_choice_deterministic sg :
  @smallestGroup R1 pos1 sg = @smallestGroup R2 pos2 sg ∧
  @largestGroup R1 pos1 sg = @largestGroup R2 pos2 sg ∧
  @sizeOrderedGroups R1 pos1 sg = @sizeOrderedGroups R2 pos2 sg.
Proof.
  destruct sg as [o|m]; unfold smallestGroup, largestGroup; simpl.
  - by rewrite (minSize_det pos1 pos2), (maxSize_det pos1 pos2).
  - unfold groupMap_smallestGroups, groupMap_largestGroups.
    rewrite (minSize_det (pos1 ++ [0]) (pos2 ++ [0])),
      (maxSize_det (pos1 ++ [0]) (pos2 ++ [0])).
    split_and!.
    + destruct (@minSize R2 _ m) as [k| |]; simpl; [|done..].
      by rewrite (groupMap_filter_det (pos1 ++ [1]) (pos2 ++ [1])).
    + by rewrite (groupMap_filter_det (pos1 ++ [1]) (pos2 ++ [1])).
    + by rewrite (range_det pos1 pos2).
Qed.
End determinism.

(** ** The removal queue *)
Lemma find_list_None `{MapRange} pos server (m : groupMap) :
  list_find (λ e, serverList_find server e.2 = true) (range pos m) = None ↔
  ∀ g l, m !! g = Some l → server ∉ servers l.
Proof.
  rewrite list_find_None, Forall_forall. setoid_rewrite range_perm. split.
  - intros Hf g l Hl Hin. apply serverList_find_spec in Hin.
    by apply (Hf (g, l)); [apply elem_of_map_to_list|].
  - intros Hf [g l] Hl%elem_of_map_to_list Hin%serverList_find_spec. by eapply Hf.
Qed.

Lemma find_list_Some `{MapRange} pos server (m : groupMap) i g l :
  list_find (λ e, serverList_find server e.2 = true) (range pos m) = Some (i, (g, l)) →
  m !! g = Some l ∧ server ∈ servers l.
Proof.
  intros (Hi&Hf&_)%list_find_Some. split; [|by apply serverList_find_spec].
  apply elem_of_map_to_list. rewrite <- (range_perm pos). by eapply list_elem_of_lookup_2.
Qed.

Lemma deque_loop_spec `{MapRange} pos m queue : ∀ n,
  match deque_loop pos n m queue with
  | Some (server, g, rest) =>
      ∃ before after l, queue = before ++ server :: after ∧ rest = before ++ after ∧
        m !! g = Some l ∧ server ∈ servers l ∧
        ∀ s, s ∈ before → ∀ g' l', m !! g' = Some l' → s ∉ servers l'
  | None => ∀ s, s ∈ queue → ∀ g' l', m !! g' = Some l' → s ∉ servers l'
  end.
Proof.
  induction queue as [|x queue IH]; intros n; simpl; [by intros ? []%not_elem_of_nil|].
  destruct (list_find _ _) as [[i [g l]]|] eqn:E.
  { apply find_list_Some in E as [Hl Hx]. exists [], queue, l.
    split_and!; try done. intros ? []%not_elem_of_nil. }
  rewrite find_list_None in E. specialize (IH (S n)).
  destruct (deque_loop pos (S n) m queue) as [[[server g] rest]|].
  - destruct IH as (before&after&l&->&->&Hl&Hs&Hb). exists (x :: before), after, l.
    split_and!; try done. intros s [->|Hs']%elem_of_cons; [done|by apply Hb].
  - intros s [->|Hs']%elem_of_cons; [done|by apply IH].
Qed.

(** the removal queue hands out the first queued server that is in one of the
    candidate lists, with a list that holds it, and removes only that entry; when
    no queued server is a candidate it answers with empty strings and keeps the
    queue. *)
Theorem dequeHighestRankedCandidate_spec `{MapRange} pos (lists : groupMap) q :
  let '(server, g, q') := dequeHighestRankedCandidate pos lists q in
  (∃ before after l,
     rq_servers q = before ++ server :: after ∧ rq_servers q' = before ++ after ∧
     lists !! g = Some l ∧ server ∈ servers l ∧
     ∀ s, s ∈ before → ∀ g' l', lists !! g' = Some l' → s ∉ servers l') ∨
  (server = "" ∧ g = "" ∧ q' = q ∧
   ∀ s, s ∈ rq_servers q → ∀ g' l', lists !! g' = Some l' → s ∉ servers l').
Proof.
  unfold dequeHighestRankedCandidate.
  pose proof (deque_loop_spec pos lists (rq_servers q) 0) as Hd.
  destruct (deque_loop pos 0 lists (rq_servers q)) as [[[server g] rest]|];
    [by left|by right].
Qed.

(** FNV-1a test vectors. *)
Example hashString_empty : hashString "" = 14695981039346656037%Z.
Proof. reflexivity. Qed.
Example hashString_a : hashString "a" = 12638187200555641996%Z.
Proof. vm_compute. reflexivity. Qed.
