(* ===== verification/Scheduler.v ===== *)
(** * pkg/util/scheduler/scheduler.go: the scheduler interface

    [Scheduler] is the Go interface as a class over the type of the receiver.
    [SchedulerLaws] is what the reconciler relies on: which pods a scheduler
    keeps for a class, and how each method changes them. *)

From S2P Require Import Prelude.

Record Move := mkMove { Move_Name : string; Move_From : string; Move_To : string }.
#[export] Instance Move_eq_dec : EqDecision Move.
Proof. solve_decision. Defined.

(** The argument [list nat] of a method tells its iterations over maps (and its
    random draws) from those of other calls; [Reschedule] has the fuel of its
    searches and is [None] when one runs out. *)
Class Scheduler (S : Type) := {
  Create : list nat → string → string → string → M S string;
  Delete : list nat → string → M S string;
  Upgrade : list nat → string → string → M S ();
  Reschedule : list nat → nat → S → option (result (list Move));
  RescheduleUnschedulableOnly : list nat → S → result (list Move);
  EnQueueRemovals : string → list string → M S ();
  AvoidGroups : list string → M S ();
}.

(** [pods class s]: the pods of the class the scheduler can name for removal.
    [valid] is the representation invariant. *)
Class SchedulerLaws (S : Type) `{Scheduler S} := {
  valid : S → Prop;
  known : string → S → Prop;
  pods : string → S → list string;
  Create_spec pos class name group s :
    valid s → let '(r, s') := Create pos class name group s in
    valid s' ∧ r ≠ Panic ∧ (∀ c, known c s' ↔ known c s) ∧
    (if is_ok r then known class s ∧ pods class s' ≡ₚ name :: pods class s
     else pods class s' ≡ₚ pods class s) ∧
    (∀ class', class' ≠ class → pods class' s' ≡ₚ pods class' s);
  Create_undefined pos class name group s :
    valid s → ¬ known class s →
    Create pos class name group s = (Err ErrResourceAttributeRequired, s);
  Delete_spec pos class s :
    valid s → let '(r, s') := Delete pos class s in
    valid s' ∧ r ≠ Panic ∧ (∀ c, known c s' ↔ known c s) ∧
    match r with
    | Ok name => known class s ∧ pods class s ≡ₚ name :: pods class s'
    | _ => pods class s' ≡ₚ pods class s
    end ∧
    (∀ class', class' ≠ class → pods class' s' ≡ₚ pods class' s);
  Delete_undefined pos class s :
    valid s → ¬ known class s →
    Delete pos class s = (Err ErrResourceAttributeRequired, s);
  EnQueueRemovals_spec class names s :
    valid s → let '(r, s') := EnQueueRemovals class names s in
    r = Ok tt ∧ valid s' ∧ (∀ c, known c s' ↔ known c s) ∧ ∀ c, pods c s' = pods c s;
}.
