(* ===== verification/NullScheduler.v ===== *)
(** * pkg/util/scheduler/null.go: the scheduler without server groups *)

From S2P Require Import Prelude GoLib Api ServerGroups Scheduler.

Record nullSchedulerImpl := NullScheduler {
  ns_serverClasses : gmap string serverList;
  ns_removableServerClasses : serverClassServerRemovalMap;
}.

Definition set_ns_serverClasses (m : gmap string serverList) (s : nullSchedulerImpl) :=
  NullScheduler m (ns_removableServerClasses s).
Definition set_ns_removable (m : serverClassServerRemovalMap) (s : nullSchedulerImpl) :=
  NullScheduler (ns_serverClasses s) m.

(** The loop of [NewNullScheduler] over the pods. *)
Fixpoint null_addPods (pods : list Pod) (m : gmap string serverList) :
    result (gmap string serverList) :=
  match pods with
  | [] => Ok m
  | pod :: pods' =>
      match pod_Labels pod !! LabelNodeConf with
      | None => Err ErrResourceAttributeRequired
      | Some class =>
          match m !! class with
          | None => null_addPods pods' m
          | Some l => null_addPods pods' (<[class := serverList_push (pod_Name pod) l]> m)
          end
      end
  end.

Definition NewNullScheduler (pods : list Pod) (cluster : CouchbaseCluster) :
    result nullSchedulerImpl :=
  let classes := fold_left (λ m class, <[sc_Name class := ServerList []]> m)
                   (cs_Servers (Spec cluster)) ∅ in
  m ← null_addPods pods classes;
  Ok (NullScheduler m ∅).

Definition null_Create (class name group : string) : M nullSchedulerImpl string := λ s,
  match ns_serverClasses s !! class with
  | None => (Err ErrResourceAttributeRequired, s)
  | Some l =>
      (Ok "", set_ns_serverClasses (<[class := serverList_push name l]> (ns_serverClasses s)) s)
  end.

Definition null_Delete (class : string) : M nullSchedulerImpl string := λ s,
  match ns_serverClasses s !! class with
  | None => (Err ErrResourceAttributeRequired, s)
  | Some l =>
      match ns_removableServerClasses s !! class with
      | None =>
          let l := serverList_sort l in
          match serverList_pop l with
          | Ok (server, l') =>
              (Ok server, set_ns_serverClasses (<[class := l']> (ns_serverClasses s)) s)
          | Err _ => (Err ErrResourceAttributeRequired,
                      set_ns_serverClasses (<[class := l]> (ns_serverClasses s)) s)
          | Panic => (Panic, s)
          end
      | Some srq =>
          let '(podName, srq') := dequeue srq in
          let s := set_ns_removable (<[class := srq']> (ns_removableServerClasses s)) s in
          match serverList_del podName l with
          | Ok l' => (Ok podName, set_ns_serverClasses (<[class := l']> (ns_serverClasses s)) s)
          | Err _ => (Err ErrResourceAttributeRequired, s)
          | Panic => (Panic, s)
          end
      end
  end.

(** [sched.serverClasses[class].del(name)] dereferences nil for an unknown class. *)
Definition null_Upgrade (class name : string) : M nullSchedulerImpl () := λ s,
  match ns_serverClasses s !! class with
  | None => (Panic, s)
  | Some l =>
      match serverList_del name l with
      | Ok l' => (Ok tt, set_ns_serverClasses (<[class := l']> (ns_serverClasses s)) s)
      | _ => (Ok tt, s)
      end
  end.

Definition null_Reschedule (s : nullSchedulerImpl) : option (result (list Move)) := Some (Ok []).

Definition null_RescheduleUnschedulableOnly (s : nullSchedulerImpl) : result (list Move) := Ok [].

Definition null_EnQueueRemovals (class : string) (servers : list string) :
    M nullSchedulerImpl () := λ s,
  let q := match ns_removableServerClasses s !! class with
           | None => NewServerRemovalPriorityQueue
           | Some q => q
           end in
  (Ok tt, set_ns_removable (<[class := enqueueAll servers q]> (ns_removableServerClasses s)) s).

Definition null_AvoidGroups (groups : list string) : M nullSchedulerImpl () := λ s, (Ok tt, s).

#[export] Instance null_Scheduler : Scheduler nullSchedulerImpl := {
  Create pos := null_Create;
  Delete pos := null_Delete;
  Upgrade pos := null_Upgrade;
  Reschedule pos fuel := null_Reschedule;
  RescheduleUnschedulableOnly pos := null_RescheduleUnschedulableOnly;
  EnQueueRemovals := null_EnQueueRemovals;
  AvoidGroups := null_AvoidGroups;
}.

(** The pods of a class. *)
Definition null_pods (class : string) (s : nullSchedulerImpl) : list string :=
  match ns_serverClasses s !! class with Some l => servers l | None => [] end.

(** A class ["data"] with three pods, and with a removal queue. *)
Definition null_example : nullSchedulerImpl :=
  NullScheduler {["data" := ServerList ["p1"; "p2"; "p0"]]} ∅.
Definition null_example_queue : nullSchedulerImpl :=
  NullScheduler {["data" := ServerList ["p1"; "p2"; "p0"]]} {["data" := RemovalQueue ["p1"]]}.

(** ** The interface's laws *)
Lemma null_pods_insert class l m s :
  null_pods class (set_ns_serverClasses (<[class := l]> m) s) = servers l.
Proof. unfold null_pods. simpl. by rewrite lookup_insert_eq. Qed.

Lemma null_pods_insert_ne class class' l s :
  class' ≠ class →
  null_pods class' (set_ns_serverClasses (<[class := l]> (ns_serverClasses s)) s)
  = null_pods class' s.
Proof. intros Hne. unfold null_pods. simpl. by rewrite lookup_insert_ne by done. Qed.

Lemma null_known_insert class l s c :
  is_Some (ns_serverClasses s !! class) →
  is_Some (<[class := l]> (ns_serverClasses s) !! c) ↔ is_Some (ns_serverClasses s !! c).
Proof. intros. rewrite insert_is_Some_iff. split; [by intros [->|?]|by right]. Qed.

Lemma null_Create_spec class name group s :
  let '(r, s') := null_Create class name group s in
  r ≠ Panic ∧
  (∀ c, is_Some (ns_serverClasses s' !! c) ↔ is_Some (ns_serverClasses s !! c)) ∧
  (if is_ok r then is_Some (ns_serverClasses s !! class) ∧
                   null_pods class s' ≡ₚ name :: null_pods class s
   else null_pods class s' ≡ₚ null_pods class s) ∧
  (∀ class', class' ≠ class → null_pods class' s' ≡ₚ null_pods class' s).
Proof.
  unfold null_Create. destruct (ns_serverClasses s !! class) as [l|] eqn:E; [|by simpl; split_and!].
  split_and!; [done| | |].
  - intros c. by apply null_known_insert.
  - split; [by eexists|]. rewrite null_pods_insert. unfold null_pods.
    rewrite E. unfold serverList_push; simpl. by rewrite Permutation_app_comm.
  - intros class' Hne. by rewrite null_pods_insert_ne.
Qed.

Lemma null_Delete_spec class s :
  let '(r, s') := null_Delete class s in
  r ≠ Panic ∧
  (∀ c, is_Some (ns_serverClasses s' !! c) ↔ is_Some (ns_serverClasses s !! c)) ∧
  match r with
  | Ok name => is_Some (ns_serverClasses s !! class) ∧
               null_pods class s ≡ₚ name :: null_pods class s'
  | _ => null_pods class s' ≡ₚ null_pods class s
  end ∧
  (∀ class', class' ≠ class → null_pods class' s' ≡ₚ null_pods class' s).
Proof.
  unfold null_Delete. destruct (ns_serverClasses s !! class) as [l|] eqn:E; [|by simpl; split_and!].
  assert (null_pods class s = servers l) as Hl by (unfold null_pods; by rewrite E).
  destruct (ns_removableServerClasses s !! class) as [srq|].
  - destruct (dequeue srq) as [name srq'].
    destruct (serverList_del name l) as [l'|e|] eqn:Hd; cycle 1.
    { done. }
    { unfold serverList_del in Hd. by destruct (del_first _ _). }
    split_and!; [done| |by eexists| |].
    + intros c. by apply (null_known_insert class l' s).
    + rewrite null_pods_insert, Hl. by apply serverList_del_Ok.
    + intros class' Hne. unfold null_pods. simpl. by rewrite lookup_insert_ne by done.
  - destruct (serverList_pop (serverList_sort l)) as [[name l']|e|] eqn:Hp; cycle 1.
    { split_and!; [done| | |].
      - intros c. by apply null_known_insert.
      - rewrite null_pods_insert, Hl. apply sort_Strings_perm.
      - intros class' Hne. by rewrite null_pods_insert_ne. }
    { unfold serverList_pop in Hp. by destruct (last _). }
    split_and!; [done| |by eexists| |].
    + intros c. by apply null_known_insert.
    + rewrite null_pods_insert, Hl.
      apply serverList_pop_Ok in Hp. simpl in Hp.
      rewrite <- (sort_Strings_perm (servers l)), Hp. by rewrite Permutation_app_comm.
    + intros class' Hne. by rewrite null_pods_insert_ne.
Qed.

Lemma null_undefined class s :
  ¬ is_Some (ns_serverClasses s !! class) → ns_serverClasses s !! class = None.
Proof. apply eq_None_not_Some. Qed.

#[export] Program Instance null_SchedulerLaws : SchedulerLaws nullSchedulerImpl := {
  valid s := True;
  known class s := is_Some (ns_serverClasses s !! class);
  pods := null_pods;
}.
Next Obligation.
  intros pos class name group s _. simpl. pose proof (null_Create_spec class name group s) as H.
  destruct (null_Create _ _ _ _). tauto.
Qed.
Next Obligation.
  intros pos class name group s _ Hk%null_undefined. simpl. unfold null_Create. by rewrite Hk.
Qed.
Next Obligation.
  intros pos class s _. simpl. pose proof (null_Delete_spec class s) as H.
  destruct (null_Delete _ _). tauto.
Qed.
Next Obligation.
  intros pos class s _ Hk%null_undefined. simpl. unfold null_Delete. by rewrite Hk.
Qed.
Next Obligation. done. Qed.

(** ** Properties *)

(** without a removal queue [Delete] returns the pod of the class that comes
    last in byte order and removes exactly it; an empty class is an error. *)
Theorem null_Delete_last class s l
    (Hl : ns_serverClasses s !! class = Some l)
    (Hq : ns_removableServerClasses s !! class = None) :
  match null_Delete class s with
  | (Ok name, s') => name ∈ servers l ∧ (∀ n, n ∈ servers l → String.leb n name = true) ∧
                     servers l ≡ₚ name :: null_pods class s'
  | (Err e, s') => servers l = [] ∧ e = ErrResourceAttributeRequired ∧
                   null_pods class s' = []
  | (Panic, _) => False
  end.
Proof.
  unfold null_Delete. rewrite Hl, Hq.
  pose proof (sort_Strings_perm (servers l)) as Hp.
  pose proof (sort_Strings_sorted (servers l)) as Hs.
  destruct (serverList_pop (serverList_sort l)) as [[name l']|e|] eqn:E.
  - apply serverList_pop_Ok in E. simpl in E. rewrite null_pods_insert. split_and!.
    + rewrite <- Hp, E. set_solver.
    + intros n Hn. rewrite <- Hp, E in Hn. rewrite E in Hs.
      apply elem_of_app in Hn as [Hn|Hn]; [|apply list_elem_of_singleton in Hn as ->].
      * apply StronglySorted_app in Hs as (Hs&_&_). apply Hs; [done|set_solver].
      * by destruct (string_leb_total name name).
    + rewrite <- Hp, E. by rewrite Permutation_app_comm.
  - unfold serverList_pop in E. destruct (last _) eqn:El; [done|].
    apply last_None in El. simpl in El. rewrite El in Hp.
    apply Permutation_nil in Hp. rewrite null_pods_insert. simpl. by rewrite El.
  - unfold serverList_pop in E. by destruct (last _).
Qed.

Lemma null_Delete_last_witness :
  match null_Delete "data" null_example with
  | (Ok name, s') => name = "p2" ∧ null_pods "data" s' ≡ₚ ["p0"; "p1"]
  | _ => False
  end.
Proof.
  pose proof (null_Delete_last "data" null_example (ServerList ["p1"; "p2"; "p0"])
    eq_refl eq_refl) as H.
  vm_compute in H |- *. destruct H as (_&_&H). split; [done|].
  reflexivity.
Defined.

(** a removal queue is served strictly in order, even when its head is not a
    pod of the class: [Delete] then consumes the head and fails; and once the
    queue is empty every [Delete] fails, though the class has pods. *)
Theorem null_Delete_queue class s l q
    (Hl : ns_serverClasses s !! class = Some l)
    (Hq : ns_removableServerClasses s !! class = Some q) :
  match rq_servers q with
  | [] => "" ∉ servers l → (null_Delete class s).1 = Err ErrResourceAttributeRequired ∧
          null_pods class (null_Delete class s).2 = servers l
  | head :: rest =>
      ns_removableServerClasses (null_Delete class s).2 !! class = Some (RemovalQueue rest) ∧
      if decide (head ∈ servers l)
      then (null_Delete class s).1 = Ok head ∧
           servers l ≡ₚ head :: null_pods class (null_Delete class s).2
      else (null_Delete class s).1 = Err ErrResourceAttributeRequired ∧
           null_pods class (null_Delete class s).2 = servers l
  end.
Proof.
  assert (null_pods class s = servers l) as Hp by (unfold null_pods; by rewrite Hl).
  unfold null_Delete, dequeue. rewrite Hl, Hq. destruct (rq_servers q) as [|head rest].
  - intros Hn. unfold serverList_del. apply del_first_None in Hn. rewrite Hn.
    split; [done|exact Hp].
  - case_decide as Hin.
    + destruct (serverList_del_total head l Hin) as [l' Hd]. rewrite Hd. simpl.
      split_and!; [by rewrite lookup_insert_eq|done|].
      rewrite null_pods_insert. by apply serverList_del_Ok.
    + unfold serverList_del. apply del_first_None in Hin. rewrite Hin. simpl.
      split_and!; [by rewrite lookup_insert_eq|done|exact Hp].
Qed.

Lemma null_Delete_queue_witness :
  (null_Delete "data" null_example_queue).1 = Ok "p1" ∧
  ns_removableServerClasses (null_Delete "data" null_example_queue).2 !! "data"
    = Some (RemovalQueue []).
Proof.
  pose proof (null_Delete_queue "data" null_example_queue (ServerList ["p1"; "p2"; "p0"])
    (RemovalQueue ["p1"]) eq_refl eq_refl) as [Hq Hr].
  split; [|exact Hq]. vm_compute. reflexivity.
Defined.
