(* ===== verification/UpgradeOrder.v ===== *)
(** * pkg/cluster/upgrade.go: which pods to upgrade, and in which order

    Change detection ([detectChangeSets]), the upgrade order groups
    ([groupCandidatesByUpgradeOrder]), the choice of candidates with
    [previousVersionPodCount] ([getUpgradeCandidates]) and rollback detection.
    The generation and comparison of pod specifications ([k8sutil]) is the class
    [PodSpecs], the calls to Couchbase are fields of [UpgradeCluster]. *)

From S2P Require Import Prelude GoLib Digests Version Api Scheduler Member.
Local Open Scope Z_scope.

(** A server pod, as far as [upgrade.go] reads it. *)
Record ServerPod := mkServerPod {
  sp_Containers : list (string * string);
  sp_Annotations : gmap string string;
  sp_NodeSelector : option (gmap string string);
}.

Record PersistentVolumeClaimState := mkPVCState { NeedsUpdate : bool }.

(** Pod specifications are compared by what is left of them here: whether
    [resourcesEqual] holds after normalisation, and the two node selectors. *)
Record SpecComparison := mkComparison {
  podsEqual : bool;
  actualSelector : gmap string string;
  preservedSelector : gmap string string;
}.

Class PodSpecs := {
  GetPodVolumes : Member → ServerConfig → result (option PersistentVolumeClaimState);
  compareSpecs : Member → ServerPod → ServerConfig → string →
    option PersistentVolumeClaimState → result SpecComparison;
}.

(** What the functions of this file read of the [Cluster]: [u_stateVersion] is the
    persisted version, [u_orchestrator] the orchestrator Couchbase reports. *)
Record UpgradeCluster := mkUpgradeCluster {
  u_cluster : CouchbaseCluster;
  u_members : MemberSet;
  u_callable : MemberSet;
  u_pods : gmap string ServerPod;
  u_stateVersion : result string;
  u_orchestrator : result string;
}.

Record ChangeSet := mkChangeSet {
  VersionOnly : MemberSet;
  SpecOnly : MemberSet;
  Both : MemberSet;
  ChangedZones : gmap string Member;
  ChangedPVCs : gmap string Member;
}.

Record podChangeInfo := mkChangeInfo {
  needsVersionChange : bool;
  needsSpecChange : bool;
  pci_actual : gmap string string;
  pci_preserved : gmap string string;
  pci_pvcState : option PersistentVolumeClaimState;
}.

Definition DefaultServicesOrder : list string :=
  ["data"; "query"; "index"; "search"; "analytics"; "eventing"; "arbiter"].

Definition CouchbaseContainerName : string := "couchbase-server".
Definition AnnotationReschedule : string := "cao.couchbase.com/reschedule".
Definition LabelFailureDomainBeta : string := LabelFailureDomainBetaZone.

(** ** k8sutil *)
Definition GetServerGroup (pods : gmap string ServerPod) (name labelKey : string) : result string :=
  match pods !! name with
  | None => Err ErrResourceRequired
  | Some pod =>
      match sp_NodeSelector pod with
      | None => Err ErrResourceAttributeRequired
      | Some selector =>
          match selector !! labelKey with
          | Some serverGroup => Ok serverGroup
          | None => Ok (default "" (selector !! LabelFailureDomainBeta))
          end
      end
  end.

(** ** The upgrade order *)
Section order.
Context (c : UpgradeCluster).

Definition upgrade_order : list string :=
  match cs_Upgrade (Spec (u_cluster c)) with Some u => us_UpgradeOrder u | None => [] end.

(** Appends what is missing, in order. *)
Definition append_missing (order extra : list string) : list string :=
  fold_left (λ order x, if bool_decide (x ∈ order) then order else order ++ [x]) extra order.

Definition serverClassUpgradeOrder : list string :=
  append_missing upgrade_order (sc_Name <$> cs_Servers (Spec (u_cluster c))).

Definition serviceUpgradeOrder : list string :=
  append_missing upgrade_order DefaultServicesOrder.

(** [nodereconcile.go]: the candidates without the members whose name is part of
    the orchestrator's, and the last of those. *)
Definition separateOrderedCandidatesAndOrchestrator (candidates : list Member)
    (orchestratorName : string) : list Member * option Member :=
  if bool_decide (orchestratorName = "undefined") then (candidates, None)
  else (filter (λ m, strings_Contains orchestratorName (Name m) = false) candidates,
        last (filter (λ m, strings_Contains orchestratorName (Name m) = true) candidates)).

Definition separateCandidatesAndOrchestrator (candidates : MemberSet) (orchestratorName : string) :
    MemberSet * option Member :=
  let '(l, o) := separateOrderedCandidatesAndOrchestrator (ToList candidates) orchestratorName in
  (ToSet l, o).

(** The candidates named by [nodes], in that order. *)
Definition lookup_nodes (candidates : MemberSet) (nodes : list string) : list Member :=
  omap (λ node, candidates !! node) nodes.

Definition selectCandidatesByNodesOrder (candidates : MemberSet) : list Member :=
  let finalCandidates := lookup_nodes candidates upgrade_order in
  let '(candidates, orchestrator) :=
    if bool_decide (0 < size (u_callable c))%nat then
      match u_orchestrator c with
      | Ok name => separateCandidatesAndOrchestrator candidates name
      | _ => (candidates, None)
      end
    else (candidates, None) in
  let sortedNodes := sort_Strings (Names candidates) in
  let finalCandidates :=
    fold_left (λ final node,
        if MemberList_Contains final node then final
        else final ++ option_list (candidates !! node)) sortedNodes finalCandidates in
  match orchestrator with
  | Some o => if MemberList_Contains finalCandidates (Name o) then finalCandidates
              else finalCandidates ++ [o]
  | None => finalCandidates
  end.

(** Groups by scheduled server group; a member whose group cannot be read is in
    none. *)
Definition group_by_server_group (grouped : gmap string MemberSet) (candidate : Member) :
    gmap string MemberSet :=
  match GetServerGroup (u_pods c) (Name candidate) (ServerGroupLabel (u_cluster c)) with
  | Ok group =>
      match grouped !! group with
      | None => <[group := NewMemberSet [candidate]]> grouped
      | Some set => <[group := Add candidate set]> grouped
      end
  | _ => grouped
  end.

Definition is_arbiter (m : Member) : bool :=
  match GetServerConfigByName (Spec (u_cluster c)) (Config m) with
  | Some serverClass => HasService serverClass "arbiter"
  | None => false
  end.

(** Arbiters go last. *)
Definition arbiters_last (l : list Member) : list Member :=
  filter (λ m, is_arbiter m = false) l ++ filter (λ m, is_arbiter m = true) l.

Fixpoint take_groups (arrange : MemberSet → list Member) (grouped : gmap string MemberSet)
    (order : list string) : list (list Member) :=
  match order with
  | [] => []
  | group :: order =>
      match grouped !! group with
      | None => take_groups arrange grouped order
      | Some members => arrange members :: take_groups arrange (delete group grouped) order
      end
  end.

Definition groupCandidatesByServerGroupsOrder (candidates : MemberSet) : list (list Member) :=
  let serverGroupOrder :=
    upgrade_order ++ sort_Strings (GetAllServerGroups (Spec (u_cluster c))) in
  let groupedCandidates := foldl group_by_server_group ∅ (members candidates) in
  take_groups (λ members, arbiters_last (ToList members)) groupedCandidates serverGroupOrder.

Definition groupCandidatesByServerClassesOrder (candidates : MemberSet) : list (list Member) :=
  take_groups ToList (GroupByServerConfigs candidates) serverClassUpgradeOrder.

(** The first service of the order the member's class has. *)
Definition service_rank (order : list string) (m : Member) : option nat :=
  sc ← GetServerConfigByName (Spec (u_cluster c)) (Config m);
  fst <$> list_find (λ svc, HasService sc svc = true) order.

Definition groupCandidatesByServicesOrder (candidates : MemberSet) : list (list Member) :=
  let serviceOrder := serviceUpgradeOrder in
  let groups := replicate (length serviceOrder) [] in
  let groups :=
    foldl (λ groups candidate,
        match service_rank serviceOrder candidate with
        | Some rank => alter (λ group, group ++ [candidate]) rank groups
        | None => groups
        end) groups (ToList candidates) in
  filter (λ group, group ≠ []) groups.

Definition groupCandidatesByUpgradeOrder (candidates : MemberSet) : list (list Member) :=
  let groups :=
    match cs_Upgrade (Spec (u_cluster c)) with
    | None => []
    | Some u =>
        let type := us_UpgradeOrderType u in
        if bool_decide (type = UpgradeOrderTypeNodes) then [selectCandidatesByNodesOrder candidates]
        else if bool_decide (type = UpgradeOrderTypeServerGroups)
             then groupCandidatesByServerGroupsOrder candidates
        else if bool_decide (type = UpgradeOrderTypeServerClasses)
             then groupCandidatesByServerClassesOrder candidates
        else if bool_decide (type = UpgradeOrderTypeServices)
             then groupCandidatesByServicesOrder candidates
        else []
    end in
  let rest := foldl (λ rest member, Remove (Name member) rest) (Copy candidates) (concat groups) in
  if bool_decide (0 < Size rest)%nat then groups ++ [ToList rest] else groups.

Definition filterCandidatesByUpgradeOrder (candidates : MemberSet) : list Member :=
  match groupCandidatesByUpgradeOrder candidates with
  | [] => []
  | group :: _ => group
  end.

Definition sortCandidatesByUpgradeOrder (candidates : MemberSet) : list Member :=
  concat (groupCandidatesByUpgradeOrder candidates).
End order.

(** ** Versions of the members *)
Section versions.
Context `{Environment} (learned : gmap string string) `{MapRange}.

(** [helper.go]: versions that are unknown or do not parse are left out. *)
Definition GetKnownMemberVersions (pos : list nat) (c : UpgradeCluster) : list Version :=
  omap (λ e,
      if VersionKnown (MemberVersion e.2) then
        match NewVersion learned (MemberVersion e.2) with Ok v => Some v | _ => None end
      else None)
    (range pos (u_members c)).

Definition version_leb (v o : Version) : bool := negb (Less o v).

Definition GetLowestKnownMemberVersion (pos : list nat) (c : UpgradeCluster) : string :=
  match head (stable_sort version_leb (GetKnownMemberVersions pos c)) with
  | Some v => v_version v
  | None => ""
  end.

Definition GetHighestKnownMemberVersion (pos : list nat) (c : UpgradeCluster) : string :=
  match last (stable_sort version_leb (GetKnownMemberVersions pos c)) with
  | Some v => v_version v
  | None => ""
  end.

Definition allMemberVersionsKnown (c : UpgradeCluster) : bool :=
  forallb (λ m, IsExternal m || VersionKnown (MemberVersion m)) (members (u_members c)).

(** [pod.go]: the baseline, or its copy in the status when the key is missing. *)
Definition clusterVersion (c : UpgradeCluster) : result string :=
  match u_stateVersion c with
  | Ok version => Ok version
  | Panic => Panic
  | Err e =>
      let version := st_CurrentVersion (Status (u_cluster c)) in
      if bool_decide (version ≠ "") then Ok version else Err e
  end.

Definition rollbackDetected (targetVersion baselineVersion highestMemberVersion : string) : bool :=
  if bool_decide (highestMemberVersion = "") then false
  else bool_decide (targetVersion = baselineVersion) &&
       bool_decide (highestMemberVersion ≠ targetVersion).

Definition isRollback (pos : list nat) (c : UpgradeCluster) : result bool :=
  baselineVersion ← clusterVersion c;
  targetVersion ← CouchbaseImageVersion learned (CouchbaseImage (Spec (u_cluster c)));
  Ok (rollbackDetected targetVersion baselineVersion (GetHighestKnownMemberVersion (pos ++ [0%nat]) c)).

(** ** Change sets *)
Context `{PodSpecs}.

Definition extractCouchbaseImage (pod : ServerPod) : string :=
  match list_find (λ container, container.1 = CouchbaseContainerName) (sp_Containers pod) with
  | Some (_, (_, image)) => image
  | None => ""
  end.

(** [pod.go]: the server group [regeneratePod] asks for. *)
Definition regenerate_group (c : UpgradeCluster) (m : Member) (actual : ServerPod)
    (moves : list Move) : string :=
  if ServerGroupsEnabled (Spec (u_cluster c)) then
    let kept := default "" (sp_NodeSelector actual ≫= λ sel, sel !! ServerGroupLabel (u_cluster c)) in
    match list_find (λ move, Move_Name move = Name m) moves with
    | Some (_, move) => Move_To move
    | None => kept
    end
  else "".

Definition with_image (sc : ServerConfig) (image : string) : ServerConfig := {|
  sc_Size := sc_Size sc; sc_Name := sc_Name sc; sc_Services := sc_Services sc;
  sc_ServerGroups := sc_ServerGroups sc; sc_VolumeMounts := sc_VolumeMounts sc;
  sc_Image := image; sc_NodeSelector := sc_NodeSelector sc;
  sc_AutoscaleEnabled := sc_AutoscaleEnabled sc |}.

Definition pvc_needs_update (pvcState : option PersistentVolumeClaimState) : bool :=
  match pvcState with Some p => NeedsUpdate p | None => false end.

Definition checkSpecChange (c : UpgradeCluster) (m : Member) (actual : ServerPod)
    (serverClass : ServerConfig) (pvcState : option PersistentVolumeClaimState)
    (moves : list Move) : result (bool * gmap string string * gmap string string) :=
  let preservedConfig := with_image serverClass (extractCouchbaseImage actual) in
  cmp ← compareSpecs m actual preservedConfig (regenerate_group c m actual moves) pvcState;
  Ok (negb (podsEqual cmp) || pvc_needs_update pvcState, actualSelector cmp, preservedSelector cmp).

Definition analyzePodChange (c : UpgradeCluster) (name : string) (m : Member)
    (moves : list Move) : result (option podChangeInfo) :=
  match u_pods c !! name with
  | None => Ok None
  | Some actual =>
  match GetServerConfigByName (Spec (u_cluster c)) (Config m) with
  | None => Ok None
  | Some serverClass =>
      pvcState ← GetPodVolumes m serverClass;
      let currentImage := extractCouchbaseImage actual in
      let specImage := ServerClassCouchbaseImage (Spec (u_cluster c)) (Some serverClass) in
      let needsVersionChange :=
        if bool_decide (currentImage = cs_Image (Spec (u_cluster c))) then false
        else bool_decide (currentImage ≠ specImage) in
      change ← checkSpecChange c m actual serverClass pvcState moves;
      let '(needsSpecChange, actualSpec, preservedSpec) := change in
      Ok (Some (mkChangeInfo needsVersionChange needsSpecChange actualSpec preservedSpec pvcState))
  end end.

Definition detectZoneChange (actualSpec requestedSpec : option (gmap string string))
    (pvcState : option PersistentVolumeClaimState) : bool :=
  match pvcState, actualSpec, requestedSpec with
  | Some _, Some actual, Some requested =>
      let requestedZone := default "" (requested !! ServerGroupLabel_const) in
      if bool_decide (requestedZone = "") then false
      else bool_decide (default "" (actual !! ServerGroupLabel_const) ≠ requestedZone)
  | _, _, _ => false
  end.

Definition categorizePodChange (result : ChangeSet) (name : string) (m : Member)
    (info : podChangeInfo) : ChangeSet :=
  let '(mkChangeSet vo so both zones pvcs) := result in
  let '(vo, so, both) :=
    if needsVersionChange info && needsSpecChange info then (vo, so, Add m both)
    else if needsVersionChange info then (Add m vo, so, both)
    else if needsSpecChange info then (vo, Add m so, both)
    else (vo, so, both) in
  let zones :=
    if needsSpecChange info &&
       detectZoneChange (Some (pci_actual info)) (Some (pci_preserved info)) (pci_pvcState info)
    then <[name := m]> zones else zones in
  let pvcs :=
    if needsSpecChange info && pvc_needs_update (pci_pvcState info)
    then <[name := m]> pvcs else pvcs in
  mkChangeSet vo so both zones pvcs.

Fixpoint detect_loop (c : UpgradeCluster) (moves : list Move) (result : ChangeSet)
    (entries : list (string * Member)) : Prelude.result ChangeSet :=
  match entries with
  | [] => Ok result
  | (name, m) :: entries =>
      changeInfo ← analyzePodChange c name m moves;
      match changeInfo with
      | None => detect_loop c moves result entries
      | Some info => detect_loop c moves (categorizePodChange result name m info) entries
      end
  end.

Definition empty_changes : ChangeSet := mkChangeSet ∅ ∅ ∅ ∅ ∅.

Definition detectChangeSets (pos : list nat) (c : UpgradeCluster) (moves : result (list Move)) :
    result ChangeSet :=
  moves ← moves;
  detect_loop c moves empty_changes (range pos (u_members c)).

(** ** Candidates *)

(** The copy of the member stamped with the new image and version. *)
Definition stamp (image version : string) (m : Member) : Member :=
  SetVersion (SetImage (Clone m) image) version.

Definition getUpgradeCandidates (pos : list nat) (c : UpgradeCluster) (moves : result (list Move)) :
    result (list Member * gmap string Member * gmap string Member) :=
  changes ← detectChangeSets (pos ++ [0%nat]) c moves;
  targetVersion ← CouchbaseImageVersion learned (CouchbaseImage (Spec (u_cluster c)));
  isRollback ← isRollback (pos ++ [1%nat]) c;
  let pvpc :=
    if isRollback : bool then 0
    else match cs_Upgrade (Spec (u_cluster c)) with
         | Some u => us_PreviousVersionPodCount u
         | None => 0
         end in
  let candidates := Merge (Merge ∅ (SpecOnly changes)) (Both changes) in
  let totalVersionCandidates :=
    Z.of_nat (Size (VersionOnly changes)) + Z.of_nat (Size (Both changes)) in
  let candidates :=
    if bool_decide (0 < totalVersionCandidates) then
      let numToUpgradeVersion := Z.max (wrap64 (totalVersionCandidates - pvpc)) 0 in
      let specImage := CouchbaseImage (Spec (u_cluster c)) in
      let allVersionCandidates := Merge (Merge ∅ (VersionOnly changes)) (Both changes) in
      let ordered := sortCandidatesByUpgradeOrder c allVersionCandidates in
      add_all (stamp specImage targetVersion <$> take (Z.to_nat numToUpgradeVersion) ordered)
        candidates
    else candidates in
  let orderedCandidates :=
    if bool_decide (GetUpgradeStrategy (u_cluster c) = RollingUpgrade)
    then filterCandidatesByUpgradeOrder c candidates
    else ToList candidates in
  Ok (orderedCandidates, ChangedZones changes, ChangedPVCs changes).

Definition needsUpgrade (pos : list nat) (c : UpgradeCluster) (moves : result (list Move)) :
    result (MemberSet * gmap string Member) :=
  changes ← detectChangeSets pos c moves;
  Ok (Merge (Merge (Merge ∅ (VersionOnly changes)) (SpecOnly changes)) (Both changes),
      ChangedZones changes).

(** Pods annotated for a move. *)
Definition should_move (c : UpgradeCluster) (name : string) : bool :=
  match u_pods c !! name with
  | Some pod => bool_decide (sp_Annotations pod !! AnnotationReschedule = Some "true")
  | None => false
  end.

Definition needsMove (c : UpgradeCluster) : MemberSet :=
  add_all (filter (λ e, should_move c e.1 = true) (map_to_list (u_members c))).*2 ∅.
End versions.

(** ** Lemmas: groups *)

(** [l] lists members of [ms], each at most once. *)
Record picks (ms : MemberSet) (l : list Member) : Prop := {
  picks_NoDup : NoDup (Name <$> l);
  picks_in m : m ∈ l → ms !! Name m = Some m;
}.

Lemma picks_nil ms : picks ms [].
Proof. split; [constructor|]. intros m Hm. by apply not_elem_of_nil in Hm. Qed.

Lemma picks_perm ms l l' : l ≡ₚ l' → picks ms l → picks ms l'.
Proof.
  intros Hp [Hn Hi]. split; [by rewrite <- Hp|]. intros m. rewrite <- Hp. apply Hi.
Qed.

Lemma picks_filter (P : Member → Prop) `{∀ m, Decision (P m)} ms l :
  picks ms l → picks ms (filter P l).
Proof.
  intros [Hn Hi]. split.
  - eapply sublist_NoDup; [exact Hn|]. apply fmap_sublist, sublist_filter.
  - intros m [_ Hm]%list_elem_of_filter. by apply Hi.
Qed.

Lemma picks_mono ms ms' l : ms ⊆ ms' → picks ms l → picks ms' l.
Proof. intros Hs [Hn Hi]. split; [done|]. intros m Hm. eapply lookup_weaken; eauto. Qed.

Lemma picks_ToList ms : keyed ms → picks ms (ToList ms).
Proof.
  intros Hk. split; [rewrite ToList_perm; by apply members_names_NoDup|].
  intros m. rewrite ToList_perm. by apply elem_of_keyed.
Qed.

Lemma picks_snoc ms l m :
  picks ms l → ms !! Name m = Some m → Name m ∉ Name <$> l → picks ms (l ++ [m]).
Proof.
  intros [Hn Hi] Hm Hnew. split.
  - rewrite fmap_app, NoDup_app. split; [done|]. split; [|apply NoDup_singleton].
    intros x Hx ->%list_elem_of_singleton. done.
  - intros o [Ho|<-%list_elem_of_singleton]%elem_of_app; [by apply Hi|done].
Qed.

Lemma picks_app ms l l' :
  picks ms l → picks ms l' → (∀ m, m ∈ l → m ∈ l' → False) → picks ms (l ++ l').
Proof.
  intros [Hn Hi] [Hn' Hi'] Hd. split.
  - rewrite fmap_app, NoDup_app. split; [done|]. split; [|done].
    intros x (m&->&Hm)%list_elem_of_fmap (m'&Heq&Hm')%list_elem_of_fmap.
    apply (Hd m); [done|]. apply Hi in Hm as H1. apply Hi' in Hm' as H2. congruence.
  - intros m [?|?]%elem_of_app; auto.
Qed.

(** With the rest appended, picked groups are a permutation of the set. *)
Lemma picks_rest ms l :
  keyed ms → picks ms l →
  l ++ members (foldl (λ rest member, Remove (Name member) rest) (Copy ms) l) ≡ₚ members ms.
Proof.
  intros Hk Hp. set (rest := foldl _ _ _).
  assert (∀ n, rest !! n = if bool_decide (n ∈ Name <$> l) then None else ms !! n) as Hrest.
  { intros n. unfold rest. rewrite Remove_all_lookup. unfold Copy. by rewrite list_to_map_to_list. }
  assert (rest ⊆ ms) as Hsub.
  { apply map_subseteq_spec. intros n m. rewrite Hrest. by case_bool_decide. }
  assert (keyed rest) as Hkr by (by eapply keyed_subseteq).
  apply NoDup_Permutation.
  - eapply (NoDup_fmap_1 Name), picks_NoDup, (picks_app ms); [done| |].
    + apply (picks_mono rest); [done|]. eapply picks_perm; [apply ToList_perm|by apply picks_ToList].
    + intros m Hm Hm'. apply elem_of_keyed in Hm'; [|done]. rewrite Hrest in Hm'.
      rewrite bool_decide_eq_true_2 in Hm'; [done|]. by apply list_elem_of_fmap_2.
  - by apply members_NoDup.
  - intros m. rewrite elem_of_app, !elem_of_keyed by done. rewrite Hrest. split.
    + intros [Hm|Hm]; [by apply (picks_in _ _ Hp)|]. by case_bool_decide.
    + intros Hm. case_bool_decide as Hin; [left|by right].
      apply list_elem_of_fmap in Hin as (o&Heq&Ho). apply (picks_in _ _ Hp) in Ho as Ho'. congruence.
Qed.

(** ** Lemmas: the orders *)
Section orders.
Context (c : UpgradeCluster).

Lemma lookup_nodes_picks ms nodes :
  keyed ms → NoDup nodes → picks ms (lookup_nodes ms nodes).
Proof.
  intros Hk Hnd. assert (∀ m, m ∈ lookup_nodes ms nodes → Name m ∈ nodes ∧ ms !! Name m = Some m) as Hin.
  { intros m. unfold lookup_nodes. rewrite list_elem_of_omap. intros (n&Hn&Hm).
    rewrite (Hk _ _ Hm). done. }
  split; [|intros m Hm; by apply Hin].
  induction Hnd as [|n nodes Hn Hnd IH]; [constructor|]. unfold lookup_nodes. cbn [omap list_omap].
  assert (∀ m, m ∈ lookup_nodes ms nodes → Name m ∈ nodes ∧ ms !! Name m = Some m) as Hin'.
  { intros m. unfold lookup_nodes. rewrite list_elem_of_omap. intros (n'&Hn'&Hm).
    rewrite (Hk _ _ Hm). done. }
  destruct (ms !! n) as [m|] eqn:Hm; [|by apply IH].
  rewrite fmap_cons. constructor; [|by apply IH]. rewrite (Hk _ _ Hm).
  intros (m'&->&Hm')%list_elem_of_fmap. apply Hn. by apply (Hin' m').
Qed.

Definition add_node (ms : MemberSet) (final : list Member) (node : string) : list Member :=
  if MemberList_Contains final node then final else final ++ option_list (ms !! node).

Lemma add_nodes_picks ms ms' nodes : keyed ms → ms' ⊆ ms → ∀ final,
  picks ms final → picks ms (fold_left (add_node ms') nodes final).
Proof.
  intros Hk Hsub. induction nodes as [|n nodes IH]; intros final Hp; [done|]. simpl.
  apply IH. unfold add_node. destruct (MemberList_Contains final n) eqn:Hc; [done|].
  destruct (ms' !! n) as [m|] eqn:Hm; simpl; [|by rewrite app_nil_r].
  eapply lookup_weaken in Hm; [|exact Hsub]. pose proof (Hk _ _ Hm) as Hn. subst n.
  apply picks_snoc; [done|done|]. rewrite <- MemberList_Contains_spec. congruence.
Qed.

Lemma separate_spec ms name ms' o :
  keyed ms → separateCandidatesAndOrchestrator ms name = (ms', o) →
  ms' ⊆ ms ∧ (∀ m, o = Some m → ms !! Name m = Some m).
Proof.
  intros Hk. unfold separateCandidatesAndOrchestrator, separateOrderedCandidatesAndOrchestrator.
  case_bool_decide; intros [= <- <-].
  - split; [|done]. by rewrite ToSet_ToList.
  - split; [rewrite (ToSet_ToList_filter _ _ Hk); apply map_filter_subseteq|].
    intros m [l Hl]%last_Some.
    assert (m ∈ filter (λ m, strings_Contains name (Name m) = true) (ToList ms)) as Hm
      by (rewrite Hl; set_solver).
    apply list_elem_of_filter in Hm as [_ Hm]. by apply (picks_in _ _ (picks_ToList ms Hk)).
Qed.

Lemma nodes_order_picks ms :
  keyed ms → NoDup (upgrade_order c) → picks ms (selectCandidatesByNodesOrder c ms).
Proof.
  intros Hk Hnd. unfold selectCandidatesByNodesOrder.
  pose proof (lookup_nodes_picks ms _ Hk Hnd) as H1.
  set (sep := if bool_decide _ then _ else _).
  assert (sep.1 ⊆ ms ∧ ∀ m, sep.2 = Some m → ms !! Name m = Some m) as [Hsub Ho].
  { subst sep. case_bool_decide; [|done]. destruct (u_orchestrator c) as [name| |]; [|done..].
    destruct (separateCandidatesAndOrchestrator ms name) as [ms' o] eqn:Hs.
    by apply (separate_spec ms name). }
  destruct sep as [ms' o]. simpl in Hsub, Ho.
  pose proof (add_nodes_picks ms ms' (sort_Strings (Names ms')) Hk Hsub _ H1) as H2.
  unfold add_node in H2. destruct o as [m|]; [|done].
  destruct (MemberList_Contains _ (Name m)) eqn:Hc; [done|].
  apply picks_snoc; [done|by apply Ho|]. rewrite <- MemberList_Contains_spec. congruence.
Qed.

(** Groups filed under the key of their members. *)
Record grouped_by {K} (key : Member → option K) (ms : MemberSet)
    (inj : string → K) (grouped : gmap string MemberSet) : Prop := {
  grouped_picks g set : grouped !! g = Some set → keyed set ∧ set ⊆ ms;
  grouped_key g set m : grouped !! g = Some set → m ∈ members set → key m = Some (inj g);
}.

Lemma take_groups_picks {K} (key : Member → option K) inj arrange ms order :
  Inj (=) (=) inj → (∀ set, arrange set ≡ₚ members set) → ∀ grouped,
  grouped_by key ms inj grouped →
  picks ms (concat (take_groups arrange grouped order)) ∧
  ∀ m, m ∈ concat (take_groups arrange grouped order) →
    ∃ g, key m = Some (inj g) ∧ is_Some (grouped !! g).
Proof.
  intros Hinj Harr. induction order as [|g order IH]; intros grouped Hg; simpl.
  { split; [apply picks_nil|]. intros m Hm. by apply not_elem_of_nil in Hm. }
  destruct (grouped !! g) as [set|] eqn:Hset; [|by apply IH].
  assert (grouped_by key ms inj (delete g grouped)) as Hg'.
  { split; intros g' set' *; rewrite lookup_delete_Some; intros [_ Hs];
      [exact (grouped_picks _ _ _ _ Hg _ _ Hs)|intros Hm; exact (grouped_key _ _ _ _ Hg _ _ _ Hs Hm)]. }
  destruct (IH _ Hg') as [Hp Hkeys]. simpl.
  destruct (grouped_picks _ _ _ _ Hg _ _ Hset) as [Hks Hsub]. split.
  - apply picks_app; [|done|].
    + eapply picks_perm; [symmetry; apply Harr|]. apply (picks_mono set); [done|].
      eapply picks_perm; [apply ToList_perm|by apply picks_ToList].
    + intros m Hm Hm'. rewrite Harr in Hm. apply Hkeys in Hm' as (g'&Hk'&Hs').
      rewrite (grouped_key _ _ _ _ Hg _ _ _ Hset Hm) in Hk'. injection Hk' as <-%Hinj.
      by rewrite lookup_delete_eq in Hs'; destruct Hs'.
  - intros m [Hm|Hm]%elem_of_app.
    + rewrite Harr in Hm. exists g.
      split; [exact (grouped_key _ _ _ _ Hg _ _ _ Hset Hm)|by eexists].
    + destruct (Hkeys m Hm) as (g'&Hk'&[x Hs']). exists g'. split; [done|].
      apply lookup_delete_Some in Hs' as [_ Hs']. by exists x.
Qed.

Definition server_group (m : Member) : option string :=
  match GetServerGroup (u_pods c) (Name m) (ServerGroupLabel (u_cluster c)) with
  | Ok group => Some group
  | _ => None
  end.

Lemma keyed_singleton m : keyed (NewMemberSet [m]).
Proof. apply add_all_keyed, keyed_empty. Qed.

Lemma group_loop_grouped ms l : keyed ms → (∀ m, m ∈ l → ms !! Name m = Some m) → ∀ grouped,
  grouped_by server_group ms (λ g, g) grouped →
  grouped_by server_group ms (λ g, g) (foldl (group_by_server_group c) grouped l).
Proof.
  intros Hk. induction l as [|m l IH]; intros Hl grouped Hg; [done|]. simpl.
  apply IH; [intros o Ho; apply Hl; by right|]. unfold group_by_server_group.
  destruct (GetServerGroup _ _ _) as [g| |] eqn:Hm; [|done..].
  assert (server_group m = Some g) as Hsg by (unfold server_group; by rewrite Hm).
  assert (ms !! Name m = Some m) as Hin by (apply Hl; by left).
  set (old := default ∅ (grouped !! g)).
  assert (match grouped !! g with
          | None => <[g := NewMemberSet [m]]> grouped
          | Some set => <[g := Add m set]> grouped end = <[g := Add m old]> grouped) as ->
    by (subst old; by destruct (grouped !! g)).
  assert (keyed old ∧ old ⊆ ms ∧ ∀ o, o ∈ members old → server_group o = Some g) as (Hko&Hso&Hgo).
  { subst old. destruct (grouped !! g) as [set|] eqn:Hset; simpl.
    - destruct (grouped_picks _ _ _ _ Hg _ _ Hset) as [Hks Hsub]. split; [done|]. split; [done|].
      intros o Ho. by eapply (grouped_key _ _ _ _ Hg).
    - split; [apply keyed_empty|]. split; [apply map_empty_subseteq|].
      intros o (n&Hn)%elem_of_members. by rewrite lookup_empty in Hn. }
  split.
  - intros g' set' [[<- <-]|[_ Hs]]%lookup_insert_Some; [|exact (grouped_picks _ _ _ _ Hg _ _ Hs)].
    split; [by apply keyed_Add|]. apply insert_subseteq_l; done.
  - intros g' set' o [[<- <-]|[_ Hs]]%lookup_insert_Some;
      [|intros Ho; exact (grouped_key _ _ _ _ Hg _ _ _ Hs Ho)].
    intros (n&Hn)%elem_of_members. unfold Add in Hn.
    apply lookup_insert_Some in Hn as [[<- <-]|[_ Hn]]; [done|]. apply Hgo, elem_of_members. by exists n.
Qed.

Lemma arbiters_last_perm ms : arbiters_last c (ToList ms) ≡ₚ members ms.
Proof. unfold arbiters_last. by rewrite filter_bool_perm, ToList_perm. Qed.

Lemma server_groups_picks ms :
  keyed ms → picks ms (concat (groupCandidatesByServerGroupsOrder c ms)).
Proof.
  intros Hk. unfold groupCandidatesByServerGroupsOrder.
  eapply (take_groups_picks server_group (λ g, g)); [by intros ??|apply arbiters_last_perm|].
  apply group_loop_grouped; [done|intros m; by apply elem_of_keyed|].
  split; intros g set *; by rewrite lookup_empty.
Qed.

Lemma server_classes_grouped ms :
  keyed ms → grouped_by (λ m, Some (Config m)) ms (λ g, g) (GroupByServerConfigs ms).
Proof.
  intros Hk.
  assert (∀ g set, GroupByServerConfigs ms !! g = Some set →
    set = filter (λ e, Config e.2 = g) ms) as Hs.
  { intros g set. unfold GroupByServerConfigs. rewrite group_loop, lookup_empty.
    destruct (filter (λ m, Config m = g) (members ms)) as [|m l] eqn:Hf; [done|].
    rewrite <- Hf. intros Hset. assert (add_all (filter (λ m, Config m = g) (members ms)) ∅ = set)
      as <- by (by injection Hset).
    exact (add_all_filter (λ m, Config m = g) ms _ Hk (Permutation_refl _)). }
  split.
  - intros g set ->%Hs. split; [by apply keyed_filter|apply map_filter_subseteq].
  - intros g set m ->%Hs (n&[_ Hc]%map_lookup_filter_Some)%elem_of_members. by f_equal.
Qed.

Lemma server_classes_picks ms :
  keyed ms → picks ms (concat (groupCandidatesByServerClassesOrder c ms)).
Proof.
  intros Hk. unfold groupCandidatesByServerClassesOrder.
  eapply (take_groups_picks (λ m, Some (Config m)) (λ g, g)); [by intros ??|apply ToList_perm|].
  by apply server_classes_grouped.
Qed.

Lemma concat_filter_nonempty {A} (gs : list (list A)) : concat (filter (λ g, g ≠ []) gs) = concat gs.
Proof.
  induction gs as [|g gs IH]; [done|]. rewrite filter_cons. case_decide as Hg; simpl; rewrite IH; [done|].
  by subst g.
Qed.

Lemma concat_alter_snoc {A} (x : A) (gs : list (list A)) : ∀ i,
  (i < length gs)%nat → concat (alter (λ g, g ++ [x]) i gs) ≡ₚ x :: concat gs.
Proof.
  induction gs as [|g gs IH]; intros i Hi; [simpl in Hi; lia|]. destruct i as [|i].
  - change (alter (λ g, g ++ [x]) 0%nat (g :: gs)) with ((g ++ [x]) :: gs). cbn [concat].
    rewrite <- app_assoc. simpl. by rewrite Permutation_middle.
  - change (alter (λ g, g ++ [x]) (S i) (g :: gs)) with (g :: alter (λ g, g ++ [x]) i gs).
    cbn [concat]. simpl in Hi. rewrite IH by lia. by rewrite Permutation_middle.
Qed.

Definition rank_step (order : list string) (groups : list (list Member)) (candidate : Member) :
    list (list Member) :=
  match service_rank c order candidate with
  | Some rank => alter (λ group, group ++ [candidate]) rank groups
  | None => groups
  end.

Lemma rank_loop_perm order l : ∀ groups, length groups = length order →
  length (foldl (rank_step order) groups l) = length order ∧
  concat (foldl (rank_step order) groups l) ≡ₚ
    concat groups ++ filter (λ m, is_Some (service_rank c order m)) l.
Proof.
  induction l as [|m l IH]; intros groups Hlen; simpl; [by rewrite app_nil_r|].
  rewrite filter_cons. unfold rank_step at 2 4. destruct (service_rank c order m) as [i|] eqn:Hr.
  - rewrite decide_True by by eexists.
    assert (i < length groups)%nat as Hi.
    { rewrite Hlen. unfold service_rank in Hr. apply bind_Some in Hr as (sc&_&Hf).
      apply fmap_Some in Hf as ([j svc]&Hf&->). apply list_find_Some in Hf as (Hj&_).
      by eapply lookup_lt_Some. }
    destruct (IH (alter (λ group, group ++ [m]) i groups)) as [Hl Hp]; [by rewrite length_alter|].
    split; [done|]. rewrite Hp, concat_alter_snoc by done. by rewrite <- Permutation_middle.
  - rewrite decide_False by (by intros []). by apply IH.
Qed.

Lemma concat_replicate_nil {A} n : concat (replicate n []) = ([] : list A).
Proof. by induction n. Qed.

Lemma services_picks ms :
  keyed ms → picks ms (concat (groupCandidatesByServicesOrder c ms)).
Proof.
  intros Hk. unfold groupCandidatesByServicesOrder. rewrite concat_filter_nonempty.
  destruct (rank_loop_perm (serviceUpgradeOrder c) (ToList ms)
    (replicate (length (serviceUpgradeOrder c)) [])) as [_ Hp]; [by rewrite length_replicate|].
  unfold rank_step in Hp.
  rewrite concat_replicate_nil in Hp. eapply picks_perm; [symmetry; exact Hp|].
  simpl. by apply picks_filter, picks_ToList.
Qed.

(** The order is usable: a list of nodes names each once. *)
Definition order_ok : Prop :=
  match cs_Upgrade (Spec (u_cluster c)) with
  | Some u => us_UpgradeOrderType u = UpgradeOrderTypeNodes → NoDup (us_UpgradeOrder u)
  | None => True
  end.

Lemma sortCandidates_perm ms :
  keyed ms → order_ok → sortCandidatesByUpgradeOrder c ms ≡ₚ members ms.
Proof.
  intros Hk Hok. unfold sortCandidatesByUpgradeOrder, groupCandidatesByUpgradeOrder.
  set (groups := match cs_Upgrade _ with None => [] | Some _ => _ end).
  assert (picks ms (concat groups)) as Hp.
  { subst groups. unfold order_ok in Hok.
    destruct (cs_Upgrade (Spec (u_cluster c))) as [u|] eqn:Hu; [|apply picks_nil].
    case_bool_decide as Hn.
    { simpl. rewrite app_nil_r. apply nodes_order_picks; [done|].
      unfold upgrade_order. rewrite Hu. by apply Hok. }
    repeat case_bool_decide; auto using server_groups_picks, server_classes_picks, services_picks.
    apply picks_nil. }
  pose proof (picks_rest ms (concat groups) Hk Hp) as Hrest.
  case_bool_decide as Hs.
  - rewrite concat_app. simpl. by rewrite app_nil_r, ToList_perm.
  - rewrite <- Hrest. set (rest := foldl _ _ _) in *.
    assert (rest = ∅) as Hr by (apply map_size_empty_inv; unfold Size in Hs; lia).
    rewrite Hr. unfold members. rewrite map_to_list_empty. simpl. by rewrite app_nil_r.
Qed.
End orders.

(** ** Lemmas: change sets *)
Section changes.
Context `{Environment} (learned : gmap string string) `{MapRange} `{PodSpecs}.
Context (c : UpgradeCluster) (moves : list Move).

Definition version_only (i : podChangeInfo) : bool := needsVersionChange i && negb (needsSpecChange i).
Definition spec_only (i : podChangeInfo) : bool := negb (needsVersionChange i) && needsSpecChange i.
Definition both (i : podChangeInfo) : bool := needsVersionChange i && needsSpecChange i.
Definition zone_changed (i : podChangeInfo) : bool :=
  needsSpecChange i &&
  detectZoneChange (Some (pci_actual i)) (Some (pci_preserved i)) (pci_pvcState i).
Definition pvc_changed (i : podChangeInfo) : bool :=
  needsSpecChange i && pvc_needs_update (pci_pvcState i).

(** [s] holds the members of [l] whose analysis is [sel], and those of [s0]. *)
Definition holds (sel : podChangeInfo → bool) (l : list (string * Member))
    (s0 s : gmap string Member) : Prop :=
  ∀ n m, s !! n = Some m ↔ s0 !! n = Some m ∨
    ((n, m) ∈ l ∧ ∃ i, analyzePodChange c n m moves = Ok (Some i) ∧ sel i = true).

Record sets_hold (l : list (string * Member)) (r0 r : ChangeSet) : Prop := {
  hold_version : holds version_only l (VersionOnly r0) (VersionOnly r);
  hold_spec : holds spec_only l (SpecOnly r0) (SpecOnly r);
  hold_both : holds both l (Both r0) (Both r);
  hold_zones : holds zone_changed l (ChangedZones r0) (ChangedZones r);
  hold_pvcs : holds pvc_changed l (ChangedPVCs r0) (ChangedPVCs r);
}.

Lemma holds_nil sel s : holds sel [] s s.
Proof. intros n m. split; [by left|]. intros [?|[Hin _]]; [done|by apply not_elem_of_nil in Hin]. Qed.

(** One member: it is inserted where its analysis says, otherwise nothing is. *)
Lemma holds_cons sel n m l s0 s info :
  analyzePodChange c n m moves = Ok info → s0 !! n = None → (∀ m', (n, m') ∉ l) →
  holds sel l (if match info with Some i => sel i | None => false end
               then <[n := m]> s0 else s0) s →
  holds sel ((n, m) :: l) s0 s.
Proof.
  intros Ha Hn Hl Hs n' m'. rewrite (Hs n' m'), elem_of_cons.
  destruct info as [i|]; [destruct (sel i) eqn:Hi|].
  - rewrite lookup_insert_Some. split.
    + intros [[[<- <-]|[? ?]]|[Hin He]]; [right; eauto|by left|right; by split; [right|]].
    + intros [Hs0|[[[= -> ->]|Hin] He]]; [left; right|left; by left|right; by split].
      split; [|done]. intros <-. congruence.
  - split; [intros [?|[Hin He]]; [by left|right; by split; [right|]]|].
    intros [?|[[[= -> ->]|Hin] (i'&He&Hsel)]]; [by left|congruence|right; eauto].
  - split; [intros [?|[Hin He]]; [by left|right; by split; [right|]]|].
    intros [?|[[[= -> ->]|Hin] (i'&He&Hsel)]]; [by left|congruence|right; eauto].
Qed.

Definition fresh_for (l : list (string * Member)) (r : ChangeSet) : Prop :=
  ∀ n m, (n, m) ∈ l → VersionOnly r !! n = None ∧ SpecOnly r !! n = None ∧ Both r !! n = None ∧
    ChangedZones r !! n = None ∧ ChangedPVCs r !! n = None.

Lemma categorize_spec r n m i :
  Name m = n →
  let r' := categorizePodChange r n m i in
  VersionOnly r' = (if version_only i then <[n := m]> (VersionOnly r) else VersionOnly r) ∧
  SpecOnly r' = (if spec_only i then <[n := m]> (SpecOnly r) else SpecOnly r) ∧
  Both r' = (if both i then <[n := m]> (Both r) else Both r) ∧
  ChangedZones r' = (if zone_changed i then <[n := m]> (ChangedZones r) else ChangedZones r) ∧
  ChangedPVCs r' = (if pvc_changed i then <[n := m]> (ChangedPVCs r) else ChangedPVCs r).
Proof.
  intros <-. destruct r as [vo so bo zo pv]. unfold categorizePodChange, version_only, spec_only,
    both, zone_changed, pvc_changed. destruct (needsVersionChange i), (needsSpecChange i); done.
Qed.

Lemma detect_loop_spec l : ∀ r r',
  NoDup l.*1 → (∀ n m, (n, m) ∈ l → Name m = n) → fresh_for l r →
  detect_loop c moves r l = Ok r' → sets_hold l r r'.
Proof.
  induction l as [|[n m] l IH]; intros r r' Hnd Hk Hfr; cbn [detect_loop].
  { intros [= <-]. split; apply holds_nil. }
  apply NoDup_cons in Hnd as [Hnin Hnd].
  assert (∀ m', (n, m') ∉ l) as Hnew.
  { intros m' Hin. apply Hnin, list_elem_of_fmap. by exists (n, m'). }
  destruct (Hfr n m) as (G1&G2&G3&G4&G5); [by left|].
  assert (Name m = n) as Hm by (apply Hk; by left).
  destruct (analyzePodChange c n m moves) as [info| |] eqn:Ha; [|done..]. cbn [mbind result_bind].
  set (r1 := match info with Some i => categorizePodChange r n m i | None => r end).
  intros Hd. assert (detect_loop c moves r1 l = Ok r') as Hd1 by (subst r1; by destruct info).
  assert (∀ (s : gmap string Member) b n' m', (n', m') ∈ l → s !! n' = None →
    (if b : bool then <[n := m]> s else s) !! n' = None) as Hkeep.
  { intros s b n' m' Hin Hs. destruct b; [|done]. rewrite lookup_insert_ne; [done|].
    intros ->. by apply (Hnew m'). }
  assert (fresh_for l r1) as Hfr1.
  { intros n' m' Hin. destruct (Hfr n' m') as (F1&F2&F3&F4&F5); [by right|].
    subst r1. destruct info as [i|]; [|done].
    destruct (categorize_spec r n m i Hm) as (->&->&->&->&->). split_and!; by eapply Hkeep. }
  destruct (IH r1 r' Hnd (λ n' m' Hin, Hk n' m' (list_elem_of_further _ _ _ Hin)) Hfr1 Hd1)
    as [S1 S2 S3 S4 S5].
  subst r1. destruct info as [i|].
  - destruct (categorize_spec r n m i Hm) as (E1&E2&E3&E4&E5).
    rewrite E1 in S1. rewrite E2 in S2. rewrite E3 in S3. rewrite E4 in S4. rewrite E5 in S5.
    split; by apply (holds_cons _ _ _ _ _ _ (Some i)).
  - split; by apply (holds_cons _ _ _ _ _ _ None).
Qed.
End changes.

Section candidates.
Context `{Environment} (learned : gmap string string) `{MapRange} `{PodSpecs}.
Context (c : UpgradeCluster).

Lemma detectChangeSets_spec pos moves r :
  keyed (u_members c) → detectChangeSets pos c (Ok moves) = Ok r →
  sets_hold c moves (map_to_list (u_members c)) empty_changes r.
Proof.
  intros Hk Hd. unfold detectChangeSets in Hd. cbn [mbind result_bind] in Hd.
  pose proof (range_perm pos (u_members c)) as Hp.
  apply detect_loop_spec in Hd as [S1 S2 S3 S4 S5].
  - split; intros n m; rewrite <- Hp; [apply S1|apply S2|apply S3|apply S4|apply S5].
  - rewrite Hp. apply NoDup_fst_map_to_list.
  - intros n m. rewrite Hp, elem_of_map_to_list. apply Hk.
  - intros n m _. unfold empty_changes. simpl. by rewrite !lookup_empty.
Qed.

(** What is in the sets was a member, so the sets are keyed by name. *)
Lemma holds_subseteq sel moves s :
  holds c moves sel (map_to_list (u_members c)) ∅ s → s ⊆ u_members c.
Proof.
  intros Hs. apply map_subseteq_spec. intros n m Hn. apply Hs in Hn as [Hn|[Hin _]].
  - by rewrite lookup_empty in Hn.
  - by apply elem_of_map_to_list in Hin.
Qed.

Lemma holds_info sel moves s n m :
  holds c moves sel (map_to_list (u_members c)) ∅ s → s !! n = Some m →
  ∃ i, analyzePodChange c n m moves = Ok (Some i) ∧ sel i = true.
Proof. intros Hs Hn. apply Hs in Hn as [Hn|[_ Hi]]; [by rewrite lookup_empty in Hn|done]. Qed.

Record change_sets (r : ChangeSet) : Prop := {
  cs_sub_version : VersionOnly r ⊆ u_members c;
  cs_sub_spec : SpecOnly r ⊆ u_members c;
  cs_sub_both : Both r ⊆ u_members c;
  cs_disj_vs : VersionOnly r ##ₘ SpecOnly r;
  cs_disj_vb : VersionOnly r ##ₘ Both r;
  cs_disj_sb : SpecOnly r ##ₘ Both r;
}.

Lemma holds_disjoint sel sel' moves s s' :
  holds c moves sel (map_to_list (u_members c)) ∅ s →
  holds c moves sel' (map_to_list (u_members c)) ∅ s' →
  (∀ i, sel i = true → sel' i = true → False) → s ##ₘ s'.
Proof.
  intros S1 S2 Hd. apply map_disjoint_spec. intros n m m' Hn Hn'.
  pose proof (lookup_weaken _ _ _ _ Hn (holds_subseteq _ _ _ S1)) as Hm.
  pose proof (lookup_weaken _ _ _ _ Hn' (holds_subseteq _ _ _ S2)) as Hm'.
  assert (m = m') as <- by congruence.
  destruct (holds_info _ _ _ _ _ S1 Hn) as (i&Hi&Hs), (holds_info _ _ _ _ _ S2 Hn') as (i'&Hi'&Hs').
  assert (i = i') as <- by congruence. by apply (Hd i).
Qed.

Lemma sets_hold_change_sets moves r :
  sets_hold c moves (map_to_list (u_members c)) empty_changes r → change_sets r.
Proof.
  intros [S1 S2 S3 _ _].
  split; [by eapply holds_subseteq..| | |]; (eapply holds_disjoint; [eassumption..|]);
    intros i; unfold version_only, spec_only, both;
    by destruct (needsVersionChange i), (needsSpecChange i).
Qed.
Lemma Name_stamp image version m : Name (stamp image version m) = Name m.
Proof. by destruct m as [[]|]. Qed.

Lemma filterCandidates_in ms m :
  keyed ms → order_ok c → m ∈ filterCandidatesByUpgradeOrder c ms → m ∈ members ms.
Proof.
  intros Hk Hok Hm. rewrite <- (sortCandidates_perm c ms Hk Hok).
  unfold sortCandidatesByUpgradeOrder, filterCandidatesByUpgradeOrder in *.
  destruct (groupCandidatesByUpgradeOrder c ms) as [|g gs]; [by apply not_elem_of_nil in Hm|].
  simpl. apply elem_of_app. by left.
Qed.

(** Stamping members of [ordered] into a set. *)
Lemma stamped_members image version ordered (ms all : MemberSet) m :
  keyed ms → picks all ordered →
  m ∈ members (add_all (stamp image version <$> ordered) ms) ↔
  m ∈ stamp image version <$> ordered ∨ (m ∈ members ms ∧ Name m ∉ Name <$> ordered).
Proof.
  intros Hk [Hnd Hin].
  assert (Name <$> (stamp image version <$> ordered) = Name <$> ordered) as Hn.
  { rewrite <- list_fmap_compose. apply list_fmap_ext. intros i x _. apply Name_stamp. }
  assert (∀ o, o ∈ stamp image version <$> ordered → Name o ∈ Name <$> ordered) as Hno.
  { intros o Ho. rewrite <- Hn. by apply list_elem_of_fmap_2. }
  rewrite elem_of_keyed by (by apply add_all_keyed). rewrite add_all_spec.
  - rewrite elem_of_keyed by done. split.
    + intros [[Hm _]|[Hno' Hm]]; [by left|right]. split; [done|].
      rewrite <- Hn. intros (o&Heq&Ho)%list_elem_of_fmap. by apply (Hno' o).
    + intros [Hm|[Hm Hni]]; [by left|right]. split; [|done].
      intros o Ho Heq. apply Hni. rewrite <- Heq. by apply Hno.
  - intros x y Hx Hy Hxy. rewrite <- Hn in Hnd.
    apply list_elem_of_lookup in Hx as [i Hx], Hy as [j Hy].
    assert (i = j) as <-; [|congruence].
    apply (NoDup_lookup _ i j (Name x) Hnd); rewrite list_lookup_fmap; [by rewrite Hx|].
    rewrite Hy. simpl. by rewrite Hxy.
Qed.

Lemma size_version_candidates r :
  change_sets r → (size (VersionOnly r ∪ Both r) = size (VersionOnly r) + size (Both r))%nat.
Proof. intros Hr. apply map_size_disj_union, Hr. Qed.

Lemma length_members ms : length (members ms) = size ms.
Proof. unfold members. by rewrite length_fmap, length_map_to_list. Qed.
Lemma change_sets_keyed r :
  keyed (u_members c) → change_sets r →
  keyed (VersionOnly r) ∧ keyed (SpecOnly r) ∧ keyed (Both r).
Proof. intros Hk [S1 S2 S3 _ _ _]. split; [|split]; by eapply keyed_subseteq. Qed.

(** The candidates after the version bump of the first [k] pods. *)
Lemma candidates_chosen r image version k m :
  keyed (u_members c) → order_ok c → change_sets r →
  let ordered := sortCandidatesByUpgradeOrder c (VersionOnly r ∪ Both r) in
  m ∈ members (add_all (stamp image version <$> take k ordered) (SpecOnly r ∪ Both r)) ↔
  m ∈ members (SpecOnly r) ∨ m ∈ stamp image version <$> take k ordered ∨
  (m ∈ members (Both r) ∧ m ∈ drop k ordered).
Proof.
  intros Hk Hok Hr ordered. destruct (change_sets_keyed r Hk Hr) as (Kv&Ks&Kb).
  assert (keyed (VersionOnly r ∪ Both r)) as Kvb by (by apply keyed_union).
  assert (keyed (SpecOnly r ∪ Both r)) as Ksb by (by apply keyed_union).
  assert (ordered ≡ₚ members (VersionOnly r ∪ Both r)) as Hp by (by apply sortCandidates_perm).
  assert (picks (VersionOnly r ∪ Both r) ordered) as Hpick.
  { eapply picks_perm; [symmetry; etrans; [exact Hp|symmetry; apply ToList_perm]|].
    by apply picks_ToList. }
  assert (picks (VersionOnly r ∪ Both r) (take k ordered)) as Htake.
  { destruct Hpick as [Hnd Hin]. split.
    - eapply sublist_NoDup; [exact Hnd|]. apply fmap_sublist, sublist_take.
    - intros o Ho. apply Hin. rewrite <- (take_drop k ordered). apply elem_of_app. by left. }
  rewrite (stamped_members _ _ _ _ (VersionOnly r ∪ Both r)) by done.
  assert (m ∈ members (SpecOnly r ∪ Both r) ↔ m ∈ members (SpecOnly r) ∨ m ∈ members (Both r)) as Hsb.
  { rewrite !elem_of_keyed by done. apply lookup_union_Some, Hr. }
  assert (m ∈ members (SpecOnly r) → Name m ∉ Name <$> take k ordered) as Hs.
  { rewrite elem_of_keyed by done. intros Hm (o&Heq&Ho)%list_elem_of_fmap.
    apply (picks_in _ _ Htake) in Ho. rewrite <- Heq in Ho.
    apply lookup_union_Some in Ho as [Ho|Ho]; [| |apply Hr].
    - eapply map_disjoint_spec; [apply (cs_disj_vs _ Hr)|exact Ho|exact Hm].
    - eapply map_disjoint_spec; [apply (cs_disj_sb _ Hr)|exact Hm|exact Ho]. }
  assert (m ∈ members (Both r) → Name m ∉ Name <$> take k ordered ↔ m ∈ drop k ordered) as Hb.
  { intros Hm. assert (m ∈ ordered) as Hmo.
    { rewrite Hp, elem_of_keyed by done. apply lookup_union_Some; [apply Hr|].
      right. by apply elem_of_keyed in Hm. }
    destruct Hpick as [Hnd _]. rewrite <- (take_drop k ordered) in Hmo, Hnd.
    rewrite fmap_app, NoDup_app in Hnd. destruct Hnd as (_&Hd&_). split.
    - intros Hni. apply elem_of_app in Hmo as [Hmo|]; [|done].
      destruct Hni. by apply list_elem_of_fmap_2.
    - intros Hdrop Hin. apply (Hd _ Hin). by apply list_elem_of_fmap_2. }
  rewrite Hsb. tauto.
Qed.
End candidates.

(** ** Lemmas: every group has a member *)
Section progress.
Context (c : UpgradeCluster).

Definition nonempty_groups (grouped : gmap string MemberSet) : Prop :=
  ∀ g set, grouped !! g = Some set → set ≠ ∅.

Lemma members_not_nil ms : ms ≠ ∅ → members ms ≠ [].
Proof.
  intros Hne Hnil. apply Hne, map_size_empty_inv. by rewrite <- length_members, Hnil.
Qed.

Lemma perm_not_nil {A} (l l' : list A) : l ≡ₚ l' → l' ≠ [] → l ≠ [].
Proof. intros Hp Hne ->. by apply Hne, Permutation_nil. Qed.

Lemma take_groups_nonempty arrange order :
  (∀ set, arrange set ≡ₚ members set) → ∀ grouped, nonempty_groups grouped →
  ∀ g, g ∈ take_groups arrange grouped order → g ≠ [].
Proof.
  intros Harr. induction order as [|o order IH]; intros grouped Hne g; simpl.
  { intros Hg. by apply not_elem_of_nil in Hg. }
  destruct (grouped !! o) as [set|] eqn:Ho; [|by apply IH].
  intros [->|Hg]%elem_of_cons.
  - eapply perm_not_nil; [apply Harr|]. by eapply members_not_nil, Hne.
  - eapply IH; [|done]. intros g' set' [_ Hs]%lookup_delete_Some. by eapply Hne.
Qed.

Lemma Add_nonempty m ms : Add m ms ≠ ∅.
Proof. apply insert_non_empty. Qed.

Lemma add_all_cons_nonempty m l ms : add_all (m :: l) ms ≠ ∅.
Proof.
  intros He. assert (is_Some (add_all (m :: l) ms !! Name m)) as [x Hx]; [|by rewrite He in Hx].
  rewrite add_all_lookup, filter_cons_True, last_cons by done. by destruct (last _).
Qed.

Lemma group_loop_nonempty l : ∀ grouped, nonempty_groups grouped →
  nonempty_groups (foldl (group_by_server_group c) grouped l).
Proof.
  induction l as [|m l IH]; intros grouped Hne; [done|]. simpl. apply IH.
  unfold group_by_server_group. destruct (GetServerGroup _ _ _) as [g| |]; [|done..].
  destruct (grouped !! g) as [set|]; intros g' set' [[_ <-]|[_ Hs]]%lookup_insert_Some;
    first [by eapply Hne|apply Add_nonempty|apply (add_all_cons_nonempty m [])].
Qed.

Lemma server_classes_nonempty ms : nonempty_groups (GroupByServerConfigs ms).
Proof.
  intros g set. unfold GroupByServerConfigs. rewrite group_loop, lookup_empty.
  destruct (filter _ _) as [|m l]; [done|]. intros Hs.
  assert (add_all (m :: l) ∅ = set) as <- by (by injection Hs). apply add_all_cons_nonempty.
Qed.

Lemma add_nodes_grow ms nodes : ∀ final, final ≠ [] → fold_left (add_node ms) nodes final ≠ [].
Proof.
  induction nodes as [|n nodes IH]; intros final Hf; [done|]. simpl. apply IH.
  unfold add_node. case_match; [done|]. by destruct final.
Qed.

(** The names of a non-empty set add a first node. *)
Lemma add_nodes_nonempty ms final :
  keyed ms → ms ≠ ∅ → fold_left (add_node ms) (sort_Strings (Names ms)) final ≠ [].
Proof.
  intros Hk Hne. destruct final as [|m final]; [|by apply add_nodes_grow].
  assert (sort_Strings (Names ms) ≡ₚ Name <$> members ms) as Hp.
  { unfold Names. by rewrite !sort_Strings_perm. }
  destruct (sort_Strings (Names ms)) as [|n nodes] eqn:Hn.
  { apply Permutation_nil_l, symmetry, fmap_nil_inv in Hp. by apply members_not_nil in Hp. }
  cbn [fold_left]. apply add_nodes_grow. unfold add_node. cbn [MemberList_Contains existsb].
  assert (n ∈ Name <$> members ms) as (m&->&Hm)%list_elem_of_fmap by (rewrite <- Hp; by left).
  apply elem_of_keyed in Hm; [|done]. by rewrite Hm.
Qed.

Lemma separate_all ms name ms' :
  keyed ms → separateCandidatesAndOrchestrator ms name = (ms', None) → ms' = ms.
Proof.
  intros Hk. unfold separateCandidatesAndOrchestrator, separateOrderedCandidatesAndOrchestrator.
  case_bool_decide; [intros [= <-]; by apply ToSet_ToList|].
  destruct (last _) eqn:Hl; [done|]. intros [= <-]. apply last_None in Hl.
  pose proof (filter_bool_perm (λ m, strings_Contains name (Name m)) (ToList ms)) as Hp.
  cbn beta in Hp. rewrite Hl, app_nil_r in Hp.
  rewrite ToSet_ToList_filter by done. apply map_filter_id. intros n m Hn. simpl.
  assert (m ∈ ToList ms) as Hm by (rewrite ToList_perm; apply elem_of_members; eauto).
  rewrite <- Hp in Hm. by apply list_elem_of_filter in Hm as [? _].
Qed.

Lemma nodes_order_nonempty ms :
  keyed ms → ms ≠ ∅ → selectCandidatesByNodesOrder c ms ≠ [].
Proof.
  intros Hk Hne. unfold selectCandidatesByNodesOrder.
  set (sep := if bool_decide _ then _ else _).
  assert (sep.2 = None → sep.1 = ms) as Hsep.
  { subst sep. case_bool_decide; [|done]. destruct (u_orchestrator c) as [name| |]; [|done..].
    destruct (separateCandidatesAndOrchestrator ms name) as [ms' o] eqn:Hs. simpl.
    intros ->. by apply (separate_all _ name). }
  destruct sep as [ms' o]. simpl in Hsep. change (fold_left _) with (fold_left (add_node ms')).
  destruct o as [m|]; [|rewrite Hsep by done; by apply add_nodes_nonempty].
  destruct (MemberList_Contains _ (Name m)) eqn:Hc.
  - intros Hnil. by rewrite Hnil in Hc.
  - intros Hnil. by apply app_nil in Hnil as [_ ?].
Qed.

Lemma filterCandidates_nonempty ms :
  keyed ms → ms ≠ ∅ → filterCandidatesByUpgradeOrder c ms ≠ [].
Proof.
  intros Hk Hne. unfold filterCandidatesByUpgradeOrder, groupCandidatesByUpgradeOrder.
  set (groups := match cs_Upgrade _ with None => [] | Some _ => _ end).
  assert (∀ g, g ∈ groups → g ≠ []) as Hg.
  { subst groups. destruct (cs_Upgrade _) as [u|]; [|intros g Hg; by apply not_elem_of_nil in Hg].
    case_bool_decide.
    { intros g ->%list_elem_of_singleton. by apply nodes_order_nonempty. }
    case_bool_decide.
    { apply take_groups_nonempty; [apply arbiters_last_perm|]. apply group_loop_nonempty.
      intros g set. by rewrite lookup_empty. }
    case_bool_decide.
    { apply take_groups_nonempty; [apply ToList_perm|apply server_classes_nonempty]. }
    case_bool_decide; [|intros g Hg; by apply not_elem_of_nil in Hg].
    intros g Hg. by apply list_elem_of_filter in Hg as [? _]. }
  destruct groups as [|g gs] eqn:Heq; [|case_bool_decide; apply Hg; by left].
  simpl. assert (0 < Size (Copy ms))%nat as Hs.
  { unfold Copy, Size. rewrite list_to_map_to_list.
    destruct (size ms) eqn:E; [|lia]. by apply map_size_empty_inv in E. }
  rewrite bool_decide_eq_true_2 by done. unfold Copy. rewrite list_to_map_to_list.
  eapply perm_not_nil; [apply ToList_perm|by apply members_not_nil].
Qed.
End progress.

(** ** A concrete cluster

    Three data pods and an index pod on 7.2.5; the specification asks for 7.6.2. *)
Definition example_class (name service : string) : ServerConfig := {|
  sc_Size := 3; sc_Name := name; sc_Services := [service]; sc_ServerGroups := [];
  sc_VolumeMounts := None; sc_Image := ""; sc_NodeSelector := None; sc_AutoscaleEnabled := false |}.

Definition example_upgrade (type : string) (order : list string) (pvpc : Z) : UpgradeSpec := {|
  us_UpgradeProcess := ""; us_UpgradeStrategy := ""; us_StabilizationPeriod := None;
  us_RollingUpgrade := None; us_PreviousVersionPodCount := pvpc; us_UpgradeOrderType := type;
  us_UpgradeOrder := order; us_SwapRebalanceIndexServiceUpgrades := None;
  us_RollbackMethod := "" |}.

Definition example_spec (u : UpgradeSpec) : ClusterSpec := {|
  cs_Image := "couchbase/server:7.6.2"; cs_EnvImagePrecedence := false;
  cs_Servers := [example_class "data" "data"; example_class "idx" "index"];
  cs_ServerGroups := []; cs_ServerGroupsLabelOverride := ""; cs_ShuffleServerGroups := false;
  cs_RecoveryPolicy := None; cs_UpgradeProcess := None; cs_UpgradeStrategy := None;
  cs_RollingUpgrade := None; cs_Upgrade := Some u; cs_EnableOnlineVolumeExpansion := false;
  cs_UnmanagedClusterHost := None;
  cs_Paused := false; cs_Hibernate := false |}.

Definition example_status : ClusterStatus := {|
  st_ControlPaused := false; st_Conditions := []; st_ClusterID := ""; st_Size := 4;
  st_CurrentVersion := "7.2.5"; st_RebalanceAttempts := 0;
  st_HibernatedWithMemcachedBuckets := None; st_Members := None;
       st_Autoscalers := []; st_LastUpdateTime := "" |}.

Definition example_member (i : Z) (config : string) : Member :=
  NewMember "ns" "cb" (CreateMemberName "cb" i) "7.2.5" config false "couchbase/server:7.2.5".

Definition example_members : MemberSet :=
  NewMemberSet [example_member 0 "data"; example_member 1 "data"; example_member 2 "data";
                example_member 3 "idx"].

Definition example_cluster (u : UpgradeSpec) : UpgradeCluster := {|
  u_cluster := {| Namespace := "ns"; Api.Name := "cb"; Spec := example_spec u;
                  Status := example_status |};
  u_members := example_members;
  u_callable := example_members;
  u_pods := (λ _, mkServerPod [(CouchbaseContainerName, "couchbase/server:7.2.5")] ∅ None)
              <$> example_members;
  u_stateVersion := Ok "7.2.5";
  u_orchestrator := Ok "ns_1@cb-0000.cb.ns.svc" |}.

Definition example_specs : PodSpecs := {|
  GetPodVolumes _ _ := Ok None;
  compareSpecs _ _ _ _ _ := Ok (mkComparison true ∅ ∅) |}.

Lemma example_keyed : keyed example_members.
Proof. apply add_all_keyed, keyed_empty. Qed.

(** ** Properties *)

(** The upgrade order loses nobody: the groups of the candidates, one after the
    other, list every candidate exactly once, for each kind of order (a list of
    node names has to name each node once), whatever server groups, classes,
    services and orchestrator the cluster has. *)
Theorem sortCandidatesByUpgradeOrder_permutation c candidates
    (Hkeyed : keyed candidates) (Horder : order_ok c) :
  sortCandidatesByUpgradeOrder c candidates ≡ₚ members candidates.
Proof. by apply sortCandidates_perm. Qed.

Lemma sortCandidatesByUpgradeOrder_permutation_witness :
  sortCandidatesByUpgradeOrder
    (example_cluster (example_upgrade UpgradeOrderTypeNodes ["cb-0002"; "cb-0009"] 0))
    example_members ≡ₚ members example_members.
Proof.
  apply sortCandidatesByUpgradeOrder_permutation; [exact example_keyed|].
  intros _. apply (bool_decide_unpack _). vm_compute. exact I.
Defined.

(** A rolling upgrade always moves on: while there are candidates, the group the
    next step takes is not empty, and it holds candidates only. *)
Theorem filterCandidatesByUpgradeOrder_progress c candidates
    (Hkeyed : keyed candidates) (Horder : order_ok c) (Hsome : candidates ≠ ∅) :
  filterCandidatesByUpgradeOrder c candidates ≠ [] ∧
  ∀ m, m ∈ filterCandidatesByUpgradeOrder c candidates → m ∈ members candidates.
Proof.
  split; [by apply filterCandidates_nonempty|]. intros m. by apply filterCandidates_in.
Qed.

Lemma filterCandidatesByUpgradeOrder_progress_witness :
  filterCandidatesByUpgradeOrder
    (example_cluster (example_upgrade UpgradeOrderTypeServices ["index"] 0)) example_members ≠ [].
Proof.
  refine (proj1 (filterCandidatesByUpgradeOrder_progress _ _ example_keyed _ _)).
  - intros [=].
  - intros He. apply (f_equal size) in He. vm_compute in He. discriminate.
Defined.

(** C26: a pod budget of previous versions is kept: of the pods that need the new
    version, taken in upgrade order, all but the last [previousVersionPodCount]
    (none are held on a rollback) are stamped with the target image and version;
    every candidate returned is one of those, a pod that only needs a new
    specification, or a held pod that needs both and keeps its image; and where
    the strategy is not rolling all of these are returned. *)
Theorem getUpgradeCandidates_budget `{Environment} learned `{MapRange} `{PodSpecs}
    pos c moves l zones pvcs u
    (Hkeyed : keyed (u_members c)) (Horder : order_ok c)
    (Hsize : Z.of_nat (size (u_members c)) ≤ MaxInt)
    (Hu : cs_Upgrade (Spec (u_cluster c)) = Some u)
    (Hpvpc : 0 ≤ us_PreviousVersionPodCount u ≤ MaxInt)
    (Hc : getUpgradeCandidates learned pos c (Ok moves) = Ok (l, zones, pvcs)) :
  ∃ changes rollback version ordered k,
    detectChangeSets (pos ++ [0%nat]) c (Ok moves) = Ok changes ∧
    isRollback learned (pos ++ [1%nat]) c = Ok rollback ∧
    CouchbaseImageVersion learned (CouchbaseImage (Spec (u_cluster c))) = Ok version ∧
    ordered = sortCandidatesByUpgradeOrder c (VersionOnly changes ∪ Both changes) ∧
    ordered ≡ₚ members (VersionOnly changes ∪ Both changes) ∧
    Z.of_nat (length (drop k ordered)) =
      (if rollback then 0 else Z.min (us_PreviousVersionPodCount u) (Z.of_nat (length ordered))) ∧
    let chosen m :=
      m ∈ members (SpecOnly changes) ∨
      m ∈ stamp (CouchbaseImage (Spec (u_cluster c))) version <$> take k ordered ∨
      (m ∈ members (Both changes) ∧ m ∈ drop k ordered) in
    (∀ m, m ∈ l → chosen m) ∧
    (GetUpgradeStrategy (u_cluster c) ≠ RollingUpgrade → ∀ m, chosen m → m ∈ l).
Proof.
  unfold getUpgradeCandidates in Hc.
  destruct (detectChangeSets (pos ++ [0%nat]) c (Ok moves)) as [changes| |] eqn:Hd; [|done..].
  cbn [mbind result_bind] in Hc.
  destruct (CouchbaseImageVersion learned _) as [version| |] eqn:Hv; [|done..].
  cbn [mbind result_bind] in Hc.
  destruct (isRollback learned (pos ++ [1%nat]) c) as [rollback| |] eqn:Hrb; [|done..].
  cbn [mbind result_bind] in Hc.
  assert (change_sets c changes) as Hr.
  { pose proof (detectChangeSets_spec c (pos ++ [0%nat]) moves changes Hkeyed Hd) as Hs.
    exact (sets_hold_change_sets c moves changes Hs). }
  destruct (change_sets_keyed c changes Hkeyed Hr) as (Kv&Ks&Kb).
  rewrite !Merge_union, !(left_id_L ∅ (∪)), Hu in Hc by done.
  set (ordered := sortCandidatesByUpgradeOrder c (VersionOnly changes ∪ Both changes)) in *.
  set (pvpc := if rollback then 0 else us_PreviousVersionPodCount u) in *.
  set (total := Z.of_nat (Size (VersionOnly changes)) + Z.of_nat (Size (Both changes))) in *.
  set (k := Z.to_nat (Z.max (total - pvpc) 0)).
  assert (keyed (VersionOnly changes ∪ Both changes)) as Kvb by (by apply keyed_union).
  assert (ordered ≡ₚ members (VersionOnly changes ∪ Both changes)) as Hp by (by apply sortCandidates_perm).
  assert (Z.of_nat (length ordered) = total) as Hlen.
  { rewrite Hp, length_members, (size_version_candidates c) by done. unfold total, Size. lia. }
  assert (total ≤ MaxInt) as Hmax.
  { rewrite <- Hlen, Hp, length_members. etrans; [|exact Hsize]. apply inj_le.
    apply map_subseteq_size, map_union_least; apply Hr. }
  assert (0 ≤ pvpc ≤ MaxInt) as Hb by (subst pvpc; destruct rollback; unfold MaxInt in *; lia).
  rewrite wrap64_id in Hc by (unfold MinInt, MaxInt in *; lia). fold k in Hc.
  exists changes, rollback, version, ordered, k. do 5 (split; [done|]).
  split. { rewrite length_drop. subst k pvpc. destruct rollback; lia. }
  set (image := CouchbaseImage _) in *.
  assert ((if bool_decide (0 < total)
           then add_all (stamp image version <$> take k ordered) (SpecOnly changes ∪ Both changes)
           else SpecOnly changes ∪ Both changes) =
          add_all (stamp image version <$> take k ordered) (SpecOnly changes ∪ Both changes)) as Heq.
  { destruct (decide (0 < total)) as [Ht|Ht]; [by rewrite bool_decide_eq_true_2|].
    rewrite bool_decide_eq_false_2 by done. assert (length ordered = 0%nat) as Hz by lia.
    apply nil_length_inv in Hz. by rewrite Hz, take_nil. }
  rewrite Heq in Hc. set (cands := add_all _ _) in *.
  assert (keyed cands) as Kc by (by apply add_all_keyed, keyed_union).
  assert (∀ m, m ∈ members cands ↔ _) as Hin
    by (intros m; apply (candidates_chosen c changes image version k m Hkeyed Horder Hr)).
  destruct (decide (GetUpgradeStrategy (u_cluster c) = RollingUpgrade)) as [Hroll|Hroll].
  - rewrite bool_decide_eq_true_2 in Hc by done. injection Hc as <- _ _.
    split; [|done]. intros m Hm. apply Hin. by apply (filterCandidates_in c).
  - rewrite bool_decide_eq_false_2 in Hc by done. injection Hc as <- _ _.
    split; [intros m Hm|intros _ m Hm]; [|rewrite ToList_perm; by apply Hin].
    apply Hin. by rewrite <- ToList_perm.
Qed.

Lemma getUpgradeCandidates_budget_witness :
  ∃ changes rollback version ordered k,
    detectChangeSets (H := λ _, None) (H0 := canonical_range) (H1 := example_specs) ([] ++ [0%nat])
      (example_cluster (example_upgrade UpgradeOrderTypeServerClasses ["idx"; "data"] 2))
      (Ok []) = Ok changes ∧
    isRollback (H := λ _, None) (H0 := canonical_range) ∅ ([] ++ [1%nat])
      (example_cluster (example_upgrade UpgradeOrderTypeServerClasses ["idx"; "data"] 2)) =
      Ok rollback ∧ version = "7.6.2" ∧
    ordered ≡ₚ members (VersionOnly changes ∪ Both changes) ∧
    Z.of_nat (length (drop k ordered)) = if rollback then 0 else Z.min 2 (Z.of_nat (length ordered)).
Proof.
  destruct (getUpgradeCandidates_budget (H := λ _, None) (H0 := canonical_range)
    (H1 := example_specs) ∅ []
    (example_cluster (example_upgrade UpgradeOrderTypeServerClasses ["idx"; "data"] 2)) []
    [stamp "couchbase/server:7.6.2" "7.6.2" (example_member 3 "idx")] ∅ ∅
    (example_upgrade UpgradeOrderTypeServerClasses ["idx"; "data"] 2))
    as (changes&rollback&version&ordered&k&Hd&Hr&Hv&_&Hp&Hk&_).
  - exact example_keyed.
  - intros [=].
  - vm_compute. discriminate.
  - reflexivity.
  - unfold MaxInt. simpl. lia.
  - vm_compute. reflexivity.
  - exists changes, rollback, version, ordered, k. split; [exact Hd|]. split; [exact Hr|].
    split; [|split; [exact Hp|exact Hk]]. vm_compute in Hv. congruence.
Defined.

(** C27: change detection does not depend on the order Go visits the members in, and
    files each pod where its analysis says: in [Both], [VersionOnly] or [SpecOnly]
    by the two changes it needs, and under the zone and volume changes only when
    its specification changes. *)
Theorem detectChangeSets_any_order `{Environment} `{PodSpecs} (R1 R2 : MapRange)
    pos pos' c moves r r'
    (Hkeyed : keyed (u_members c))
    (H1 : detectChangeSets (H0 := R1) pos c (Ok moves) = Ok r)
    (H2 : detectChangeSets (H0 := R2) pos' c (Ok moves) = Ok r') :
  r = r' ∧
  ∀ n m, let filed_in sel (s : gmap string Member) := s !! n = Some m ↔
      u_members c !! n = Some m ∧ ∃ i, analyzePodChange c n m moves = Ok (Some i) ∧ sel i = true in
    filed_in version_only (VersionOnly r) ∧ filed_in spec_only (SpecOnly r) ∧
    filed_in both (Both r) ∧ filed_in zone_changed (ChangedZones r) ∧
    filed_in pvc_changed (ChangedPVCs r).
Proof.
  apply detectChangeSets_spec in H1, H2; [|done..].
  assert (∀ sel s n m, holds c moves sel (map_to_list (u_members c)) ∅ s →
    s !! n = Some m ↔ u_members c !! n = Some m ∧
      ∃ i, analyzePodChange c n m moves = Ok (Some i) ∧ sel i = true) as Hin.
  { intros sel s n m Hs. rewrite (Hs n m), lookup_empty, elem_of_map_to_list. naive_solver. }
  split.
  - assert (∀ sel s s', holds c moves sel (map_to_list (u_members c)) ∅ s →
      holds c moves sel (map_to_list (u_members c)) ∅ s' → s = s') as Heq.
    { intros sel s s' Hs Hs'. apply map_eq. intros n. apply option_eq. intros m.
      by rewrite (Hin sel s n m Hs), (Hin sel s' n m Hs'). }
    destruct H1 as [A1 A2 A3 A4 A5], H2 as [B1 B2 B3 B4 B5], r, r'. simpl in *.
    f_equal; by eapply Heq.
  - destruct H1 as [A1 A2 A3 A4 A5]. intros n m. simpl. auto 6.
Qed.

Lemma detectChangeSets_any_order_witness :
  let c := example_cluster (example_upgrade "" [] 0) in
  detectChangeSets (H := λ _, None) (H0 := reverse_range) (H1 := example_specs) [] c (Ok []) =
  detectChangeSets (H := λ _, None) (H0 := canonical_range) (H1 := example_specs) [] c (Ok []).
Proof.
  intros c.
  destruct (detectChangeSets (H := λ _, None) (H0 := reverse_range) (H1 := example_specs) [] c
    (Ok [])) as [r| |] eqn:E1; [|vm_compute in E1; discriminate..].
  destruct (detectChangeSets (H := λ _, None) (H0 := canonical_range) (H1 := example_specs) [] c
    (Ok [])) as [r'| |] eqn:E2; [|vm_compute in E2; discriminate..].
  f_equal. exact (proj1 (detectChangeSets_any_order (H := λ _, None) (H0 := example_specs)
    reverse_range canonical_range [] [] c [] r r' example_keyed E1 E2)).
Defined.

Section lowest.
Context `{Environment} (learned : gmap string string) `{MapRange}.

(** The versions the members are known to run. *)
Definition known_version (c : UpgradeCluster) (v : Version) : Prop :=
  ∃ m, m ∈ members (u_members c) ∧ VersionKnown (MemberVersion m) = true ∧
    NewVersion learned (MemberVersion m) = Ok v.

Lemma elem_of_known pos c v : v ∈ GetKnownMemberVersions learned pos c ↔ known_version c v.
Proof.
  unfold GetKnownMemberVersions, known_version. rewrite list_elem_of_omap. split.
  - intros ([n m]&Hin&Hv). rewrite range_perm, elem_of_map_to_list in Hin. simpl in Hv.
    exists m. split; [apply elem_of_members; by exists n|].
    destruct (VersionKnown (MemberVersion m)); [|done].
    destruct (NewVersion learned (MemberVersion m)) as [v'| |]; [|done..]. by injection Hv as ->.
  - intros (m&Hm&Hk&Hv). apply elem_of_members in Hm as [n Hn]. exists (n, m).
    rewrite range_perm, elem_of_map_to_list. simpl. by rewrite Hk, Hv.
Qed.

Lemma version_leb_spec v o : version_leb v o = true ↔ ¬ key_lt o v.
Proof. unfold version_leb. rewrite negb_true_iff, <- Less_key. by destruct (Less o v). Qed.

Lemma version_sorted l : StronglySorted (leb_rel version_leb) (stable_sort version_leb l).
Proof.
  apply stable_sort_sorted.
  - intros x y. rewrite !version_leb_spec. destruct (key_total x y) as [Hl|[He|Hl]].
    + left. by apply key_lt_asym.
    + left. by apply key_eq_not_lt.
    + right. by apply key_lt_asym.
  - intros x y z. rewrite !version_leb_spec. intros Hxy Hyz Hzx.
    destruct (key_total x y) as [Hl|[He|Hl]]; [| |done].
    + by apply Hyz, (key_lt_trans _ x).
    + apply Hyz. by apply (key_lt_eq _ x).
Qed.
End lowest.

(** the lowest and the highest known member version are what they say for every
    order of the members: empty exactly when no member's version is known, else
    the text of a known version that no known version is below (above). *)
Theorem KnownMemberVersion_bounds `{Environment} learned `{MapRange} pos c :
  (∀ v, known_version learned c v → ∃ lo hi,
     known_version learned c lo ∧ known_version learned c hi ∧
     GetLowestKnownMemberVersion learned pos c = v_version lo ∧
     GetHighestKnownMemberVersion learned pos c = v_version hi ∧
     ¬ key_lt v lo ∧ ¬ key_lt hi v) ∧
  ((∀ v, ¬ known_version learned c v) →
     GetLowestKnownMemberVersion learned pos c = "" ∧
     GetHighestKnownMemberVersion learned pos c = "").
Proof.
  unfold GetLowestKnownMemberVersion, GetHighestKnownMemberVersion.
  set (l := stable_sort version_leb (GetKnownMemberVersions learned pos c)).
  assert (∀ v, v ∈ l ↔ known_version learned c v) as Hin
    by (intros v; unfold l; by rewrite stable_sort_perm, elem_of_known).
  assert (StronglySorted (leb_rel version_leb) l) as Hs by apply version_sorted.
  split.
  - intros v Hv%Hin. destruct l as [|lo l']; [by apply not_elem_of_nil in Hv|].
    destruct (last (lo :: l')) as [hi|] eqn:Hl; [|by apply last_None in Hl].
    exists lo, hi. rewrite <- !Hin. split; [by left|].
    split; [by apply last_Some_elem_of|]. split; [done|]. split; [done|]. split.
    + inversion_clear Hs as [|? ? _ Hlo]. rewrite Forall_forall in Hlo.
      apply elem_of_cons in Hv as [->|Hv]; [apply key_lt_irrefl|].
      by apply version_leb_spec, Hlo.
    + apply last_Some in Hl as [l0 Hl]. rewrite Hl in Hs, Hv.
      apply elem_of_app in Hv as [Hv|Hv%list_elem_of_singleton]; [|subst v; apply key_lt_irrefl].
      apply version_leb_spec. exact (StronglySorted_snoc _ _ _ Hs _ Hv).
  - intros Hno. destruct l as [|x l']; [done|]. exfalso. apply (Hno x), Hin. by left.
Qed.

(** The order of the example: the node that was named, the others by name, the
    orchestrator last; by services; by server classes. *)
Example node_order :
  Name <$> sortCandidatesByUpgradeOrder
    (example_cluster (example_upgrade UpgradeOrderTypeNodes ["cb-0002"; "cb-0009"] 0))
    example_members = ["cb-0002"; "cb-0001"; "cb-0003"; "cb-0000"].
Proof. vm_compute. reflexivity. Qed.

Example service_order :
  Name <$> filterCandidatesByUpgradeOrder
    (example_cluster (example_upgrade UpgradeOrderTypeServices ["index"] 0))
    example_members = ["cb-0003"].
Proof. vm_compute. reflexivity. Qed.
