(* ===== verification/RollingUpgrade.v ===== *)
(** * pkg/cluster: how many pods one upgrade step takes

    From [nodereconcile.go] and [cng.go]: the bound on the candidates of a
    rolling step, the batch of a rollback without spare capacity and the choice
    between upgrading in place and swapping. *)

From S2P Require Import Prelude GoLib Digests Version UpgradePath Api Scheduler Member UpgradeOrder.
Local Open Scope Z_scope.

(** ** Cloud Native Gateway

    [networking.cloudNativeGateway] of the specification, the statuses of the
    containers of a pod (their name and readiness), and what of the cluster the
    gateway checks read. *)
Record CloudNativeGateway := mkCNG { PreserveReadyInstances : option Z }.

Record CNGPod := mkCNGPod { cng_pod_name : string; ContainerStatuses : list (string * bool) }.

Record CNGCluster := mkCNGCluster {
  cng_spec : option CloudNativeGateway;
  cng_pods : list CNGPod;
  cng_members : MemberSet;
}.

Definition CloudNativeGatewayContainerName : string := "cloud-native-gateway".

Definition PreserveCNGReadyInstances (cng : option CloudNativeGateway) : Z :=
  match cng with
  | None => 0
  | Some cng => match PreserveReadyInstances cng with Some n => n | None => 1 end
  end.

Definition getReadyCNGMembers (clusterPods : list CNGPod) (ms : MemberSet) : MemberSet :=
  fold_left (λ readyCNGMembers pod,
    match ms !! cng_pod_name pod with
    | None => readyCNGMembers
    | Some member =>
        fold_left (λ readyCNGMembers (container : string * bool),
          if bool_decide (container.1 = CloudNativeGatewayContainerName) && container.2
          then Add member readyCNGMembers else readyCNGMembers)
        (ContainerStatuses pod) readyCNGMembers
    end) clusterPods ∅.

Abbreviation preserved c := (PreserveCNGReadyInstances (cng_spec c)).
Abbreviation readyCNG c := (getReadyCNGMembers (cng_pods c) (cng_members c)).

Section selection.
Context `{MapRange}.

(** The loop over the candidates: ready ones only while the budget lasts. *)
Fixpoint cng_loop (ready : MemberSet) (ejectionBudget readyEjectedCount : Z)
    (finalCandidates : MemberSet) (l : list Member) : MemberSet :=
  match l with
  | [] => finalCandidates
  | candidate :: l =>
      match ready !! Name candidate with
      | None => cng_loop ready ejectionBudget readyEjectedCount (Add candidate finalCandidates) l
      | Some _ =>
          if bool_decide (readyEjectedCount < ejectionBudget)
          then cng_loop ready ejectionBudget (readyEjectedCount + 1)
                 (Add candidate finalCandidates) l
          else cng_loop ready ejectionBudget readyEjectedCount finalCandidates l
      end
  end.

Definition filterUpgradeCandidatesToPreserveCNG (pos : list nat) (cng : CNGCluster)
    (candidates : MemberSet) : MemberSet :=
  let minReadyCNG := PreserveCNGReadyInstances (cng_spec cng) in
  let ready := getReadyCNGMembers (cng_pods cng) (cng_members cng) in
  if bool_decide (minReadyCNG = 0) then candidates
  else if bool_decide (size ready = 0%nat) then candidates
  else
    let ejectionBudget := wrap64 (Z.of_nat (size ready) - minReadyCNG) in
    if bool_decide (ejectionBudget ≤ 0) then Diff candidates ready
    else cng_loop ready ejectionBudget 0 ∅ (range pos candidates).*2.

(** The loop that takes candidates until there are [maxUpgradable]. *)
Fixpoint take_max (maxUpgradable : Z) (constrained : MemberSet) (l : list Member) : MemberSet :=
  match l with
  | [] => constrained
  | candidate :: l =>
      if bool_decide (maxUpgradable ≤ Z.of_nat (Size constrained)) then constrained
      else take_max maxUpgradable (Add candidate constrained) l
  end.

Definition selectOrderedUpgradeCandidates (pos : list nat) (cluster : CouchbaseCluster)
    (cng : CNGCluster) (candidates : list Member) (orchestrator : string) :
    result MemberSet :=
  if bool_decide (GetUpgradeStrategy cluster ≠ RollingUpgrade) then Ok (ToSet candidates)
  else
    let candidates :=
      if bool_decide (length candidates ≠ 1%nat) && bool_decide (orchestrator ≠ "")
      then (separateOrderedCandidatesAndOrchestrator candidates orchestrator).1
      else candidates in
    match GetMaxUpgradable cluster with
    | (_, Some e) => Err e
    | (maxUpgradable, None) =>
        let constrained := take_max maxUpgradable ∅ candidates in
        match cng_spec cng with
        | Some _ =>
            if bool_decide (candidates = []) then Ok constrained
            else Ok (filterUpgradeCandidatesToPreserveCNG pos cng constrained)
        | None => Ok constrained
        end
    end.

Definition selectUpgradeCandidates (pos : list nat) (cluster : CouchbaseCluster)
    (cng : CNGCluster) (candidates : MemberSet) (orchestrator : string) :
    result MemberSet :=
  selectOrderedUpgradeCandidates pos cluster cng (ToList candidates) orchestrator.

(** Whether some selected candidate changes its zone, and its volumes. *)
Definition selectUpgradeCandidatesIgnoringOrchestrator (pos : list nat)
    (cluster : CouchbaseCluster) (cng : CNGCluster) (candidates : list Member)
    (zoneChanges pvcChanges : gmap string Member) : result (MemberSet * bool * bool) :=
  candidateList ← selectOrderedUpgradeCandidates pos cluster cng candidates "";
  let changed (changes : gmap string Member) :=
    existsb (λ m, bool_decide (is_Some (changes !! Name m))) (members candidateList) in
  Ok (candidateList, changed zoneChanges, changed pvcChanges).
End selection.

(** ** Rollback without spare capacity *)
Definition rollbackMethod (cluster : CouchbaseCluster) : string :=
  match cs_Upgrade (Spec cluster) with
  | None => RollbackMethodSwapRebalance
  | Some u =>
      let method := us_RollbackMethod u in
      if bool_decide (method = "") || bool_decide (method = RollbackMethodSwapRebalance)
      then RollbackMethodSwapRebalance
      else if bool_decide (method = RollbackMethodConstrainedFailover) ||
              bool_decide (method = RollbackMethodConstrainedRebalanceOut)
      then method else RollbackMethodSwapRebalance
  end.

(** The loop over the buckets: [None] until one was seen. *)
Definition replica_step (acc : option (Z * Z)) (replicas : Z) : option (Z * Z) :=
  match acc with
  | None => Some (replicas, replicas)
  | Some (minReplicas, maxReplicas) =>
      Some (Z.min minReplicas replicas, Z.max maxReplicas replicas)
  end.

(** For the replica counts of the buckets Couchbase lists. *)
Definition actualBucketReplicaBounds (buckets : list Z) : Z * Z * bool :=
  match fold_left replica_step buckets None with
  | Some (minReplicas, maxReplicas) => (minReplicas, maxReplicas, true)
  | None => (0, 0, false)
  end.

Definition clusteredDataMembers (cluster : CouchbaseCluster) (clusteredMembers : MemberSet) : Z :=
  Z.of_nat (length (filter (λ m,
    match GetServerConfigByName (Spec cluster) (Config m) with
    | Some class => ServiceList.Contains (sc_Services class) DataService
    | None => false
    end = true) (members clusteredMembers))).

Definition clampRollbackBatch (method : string)
    (candidates minReplicas maxReplicas : Z) (haveBuckets : bool)
    (dataNodes callableMembers : Z) : Z :=
  if bool_decide (method = RollbackMethodConstrainedFailover) then
    if haveBuckets && bool_decide (minReplicas < 1) then 0
    else
      let batch := candidates in
      let batch := if haveBuckets then Z.min batch (minReplicas - 1) else batch in
      let batch := Z.min batch (Z.quot callableMembers 2 - 1) in
      let batch := Z.max batch 1 in
      let batch := Z.min batch (dataNodes - 1) in
      Z.max batch 0
  else if bool_decide (method = RollbackMethodConstrainedRebalanceOut) then
    let batch := candidates in
    let batch := if haveBuckets then Z.min batch (dataNodes - maxReplicas - 1)
                 else Z.min batch (dataNodes - 1) in
    Z.max batch 0
  else 0.

Definition rollbackBatchSize (cluster : CouchbaseCluster) (clusteredMembers callableMembers : MemberSet)
    (buckets : result (list Z)) (method : string) (candidates : Z) : result Z :=
  buckets ← buckets;
  let '(minReplicas, maxReplicas, haveBuckets) := actualBucketReplicaBounds buckets in
  Ok (clampRollbackBatch method candidates minReplicas maxReplicas haveBuckets
        (clusteredDataMembers cluster clusteredMembers) (Z.of_nat (size callableMembers))).

(** ** Nodes still to be created *)
Definition CheckNodesToCreate (cluster : CouchbaseCluster) (clusteredMembers : MemberSet)
    (arbiterNodesSupported : bool) : bool :=
  existsb (λ serverSpec,
      let arbiter :=
        match sc_Services serverSpec with
        | [] => true
        | service :: _ => bool_decide (service = AdminService)
        end in
      if arbiter && negb arbiterNodesSupported then false
      else
        let existingNodes := Size (GroupByServerConfig (sc_Name serverSpec) clusteredMembers) in
        bool_decide (0 < wrap64 (sc_Size serverSpec - Z.of_nat existingNodes)))
    (cs_Servers (Spec cluster)).

(** ** In place or by swap *)
Section in_place.
Context `{Environment} (learned : gmap string string).

Definition ShouldRevertCandidateToSwapRebalance (cluster : CouchbaseCluster) (candidate : Member) : bool :=
  match cs_Upgrade (Spec cluster) with
  | Some u =>
      match us_SwapRebalanceIndexServiceUpgrades u with
      | Some true =>
          match GetServerConfigByName (Spec cluster) (Config candidate) with
          | Some config => HasServiceWithout config IndexService DataService
          | None => false
          end
      | _ => false
      end
  | None => false
  end.

Definition ShouldMandatorySwapCandidate (cluster : CouchbaseCluster) (candidate : Member)
    (sourceVersion targetVersion : string) : result bool :=
  match GetServerConfigByName (Spec cluster) (Config candidate) with
  | Some config =>
      if HasService config IndexService
      then IndexUpgradeRequiresSwap learned sourceVersion targetVersion
      else Ok false
  | None => Ok false
  end.

(** What [tryInPlaceUpgrade] finds out about its candidates. *)
Record InPlaceCheck := mkInPlace {
  allCandidatesRecoverable : bool;
  inplaceUpgradeUnsafe : bool;
  indexCandidates : MemberSet;
  nonIndexCandidates : MemberSet;
}.

Definition running_version (ms : MemberSet) (candidate : Member) : string :=
  match ms !! Name candidate with
  | Some m => MemberVersion m
  | None => MemberVersion candidate
  end.

Definition must_swap (cluster : CouchbaseCluster) (ms : MemberSet) (targetVersion : string)
    (candidate : Member) : bool :=
  let mandatorySwap :=
    match ShouldMandatorySwapCandidate cluster candidate (running_version ms candidate) targetVersion with
    | Ok b => b
    | _ => true
    end in
  ShouldRevertCandidateToSwapRebalance cluster candidate || mandatorySwap.

Fixpoint check_candidates (cluster : CouchbaseCluster) (ms : MemberSet) (targetVersion : string)
    (isPodRecoverable : Member → bool) (acc : InPlaceCheck) (l : list Member) : InPlaceCheck :=
  match l with
  | [] => acc
  | candidate :: l =>
      if negb (isPodRecoverable candidate) then
        mkInPlace false (inplaceUpgradeUnsafe acc) (indexCandidates acc) (nonIndexCandidates acc)
      else
        let swap := must_swap cluster ms targetVersion candidate in
        let unsafe :=
          match CheckInPlaceUpgradePath learned (running_version ms candidate) targetVersion with
          | Ok _ => inplaceUpgradeUnsafe acc
          | _ => true
          end in
        check_candidates cluster ms targetVersion isPodRecoverable
          (mkInPlace (allCandidatesRecoverable acc) unsafe
             (if swap then Add candidate (indexCandidates acc) else indexCandidates acc)
             (if swap then nonIndexCandidates acc else Add candidate (nonIndexCandidates acc))) l
  end.

(** What is done: everything in place; in place and by swap; fall through to a
    swap of everything. *)
Inductive UpgradePlan :=
  | AllInPlace (ms : MemberSet)
  | Split (inPlace swap : MemberSet)
  | SwapAll.

Definition tryInPlaceUpgrade `{MapRange} (pos : list nat) (cluster : CouchbaseCluster)
    (ms candidates : MemberSet) (zoneChangeDetected pvcChangeDetected : bool)
    (targetVersion : string) (isPodRecoverable : Member → bool) : UpgradePlan :=
  let r := check_candidates cluster ms targetVersion isPodRecoverable
             (mkInPlace true false ∅ ∅) (range pos candidates).*2 in
  let swapRebalanceIndexNodes := negb (Empty (indexCandidates r)) in
  if allCandidatesRecoverable r && negb zoneChangeDetected && negb swapRebalanceIndexNodes &&
     negb pvcChangeDetected && negb (inplaceUpgradeUnsafe r) then AllInPlace candidates
  else if allCandidatesRecoverable r && zoneChangeDetected then SwapAll
  else if allCandidatesRecoverable r && pvcChangeDetected then SwapAll
  else if allCandidatesRecoverable r && inplaceUpgradeUnsafe r then SwapAll
  else if allCandidatesRecoverable r && swapRebalanceIndexNodes
       then Split (nonIndexCandidates r) (indexCandidates r)
  else SwapAll.
End in_place.

(** ** Lemmas: selection *)
Lemma elem_of_range_members `{MapRange} pos (ms : MemberSet) m : m ∈ (range pos ms).*2 ↔ m ∈ members ms.
Proof. unfold members. by rewrite (range_perm pos ms). Qed.

Lemma size_dom_ms (ms : MemberSet) : size (dom ms : gset string) = size ms.
Proof. apply size_dom. Qed.

(** The ready members a loop has taken are within the budget. *)
Lemma cng_loop_spec ready budget l : ∀ count final,
  (Z.of_nat (size (dom ready ∩ dom final : gset string)) ≤ count ≤ budget) →
  (∀ n m, cng_loop ready budget count final l !! n = Some m →
     final !! n = Some m ∨ (m ∈ l ∧ Name m = n)) ∧
  Z.of_nat (size (dom ready ∩ dom (cng_loop ready budget count final l) : gset string)) ≤ budget.
Proof.
  induction l as [|c l IH]; intros count final Hc; simpl; [split; [auto|lia]|].
  assert (∀ count', (∀ n m, cng_loop ready budget count' (Add c final) l !! n = Some m →
      Add c final !! n = Some m ∨ (m ∈ l ∧ Name m = n)) →
    ∀ n m, cng_loop ready budget count' (Add c final) l !! n = Some m →
      final !! n = Some m ∨ (m ∈ c :: l ∧ Name m = n)) as Hadd.
  { intros count' Hin n m Hn. apply Hin in Hn as [Hn|[Hm Hn]]; [|right; split; [by right|done]].
    unfold Add in Hn. apply lookup_insert_Some in Hn as [[<- <-]|[_ Hn]]; [|by left].
    right. split; [by left|done]. }
  destruct (ready !! Name c) as [r|] eqn:Hr.
  - case_bool_decide as Hb.
    + destruct (IH (count + 1) (Add c final)) as [Hin Hs]; [|by split; [apply Hadd|]].
      unfold Add. rewrite dom_insert_L.
      pose proof (size_union_le {[Name c]} (dom ready ∩ dom final)) as Hle.
      rewrite size_singleton in Hle.
      pose proof (subseteq_size (dom ready ∩ ({[Name c]} ∪ dom final) : gset string)
        ({[Name c]} ∪ (dom ready ∩ dom final)) ltac:(set_solver)). lia.
    + destruct (IH count final Hc) as [Hin Hs]. split; [|done].
      intros n m Hn. apply Hin in Hn as [?|[? ?]]; [by left|right]. split; [by right|done].
  - destruct (IH count (Add c final)) as [Hin Hs]; [|by split; [apply Hadd|]].
    assert (dom ready ∩ dom (Add c final) = (dom ready ∩ dom final : gset string)) as ->; [|done].
    unfold Add. rewrite dom_insert_L. apply not_elem_of_dom in Hr. set_solver.
Qed.

(** Enough ready gateways stay, in whatever order the candidates are visited. *)
Lemma preserve_cng `{MapRange} pos cng candidates :
  0 ≤ preserved cng ≤ MaxInt → Z.of_nat (size (readyCNG cng)) ≤ MaxInt →
  keyed candidates →
  let selected := filterUpgradeCandidatesToPreserveCNG pos cng candidates in
  selected ⊆ candidates ∧
  Z.min (preserved cng) (Z.of_nat (size (readyCNG cng))) ≤
    Z.of_nat (size (dom (readyCNG cng) ∖ dom selected : gset string)).
Proof.
  intros Hmin Hsize Hk selected. subst selected. unfold filterUpgradeCandidatesToPreserveCNG.
  set (ready := readyCNG cng) in *. case_bool_decide as Hnone; [split; [done|lia]|].
  case_bool_decide as H0.
  { split; [done|]. assert (ready = ∅) as -> by (by apply map_size_empty_inv). rewrite map_size_empty. lia. }
  rewrite wrap64_id by (unfold MinInt, MaxInt in *; lia).
  case_bool_decide as Hb.
  - split; [apply map_filter_subseteq|]. etrans; [apply Z.le_min_r|].
    rewrite <- size_dom_ms. apply inj_le, subseteq_size. intros n Hn.
    apply elem_of_difference. split; [done|]. intros [m Hm]%elem_of_dom.
    unfold Diff in Hm. apply map_lookup_filter_Some in Hm as [_ Hm]. simpl in Hm.
    apply elem_of_dom in Hn as [x Hx]. congruence.
  - set (budget := Z.of_nat (size ready) - preserved cng) in *.
    destruct (cng_loop_spec ready budget (range pos candidates).*2 0 ∅) as [Hin Hs].
    { rewrite dom_empty_L, intersection_empty_r_L, size_empty. lia. }
    split.
    + apply map_subseteq_spec. intros n m Hn. apply Hin in Hn as [Hn|[Hm <-]].
      * by rewrite lookup_empty in Hn.
      * rewrite elem_of_range_members in Hm. by apply elem_of_keyed.
    + set (sel := cng_loop _ _ _ _ _) in *.
      rewrite size_difference_alt, size_dom_ms.
      pose proof (subseteq_size (dom ready ∩ dom sel : gset string) (dom ready) ltac:(set_solver)) as Hle.
      rewrite size_dom_ms in Hle. lia.
Qed.

Lemma take_max_spec maxn l : ∀ set,
  let r := take_max maxn set l in
  (∀ n m, r !! n = Some m → set !! n = Some m ∨ (m ∈ l ∧ Name m = n)) ∧
  Z.of_nat (size r) ≤ Z.max maxn (Z.of_nat (size set)) ∧ (keyed set → keyed r).
Proof.
  induction l as [|c l IH]; intros set; simpl; [split; [auto|split; [lia|done]]|].
  case_bool_decide as Hb; [split; [auto|split; [lia|done]]|].
  destruct (IH (Add c set)) as (Hin&Hs&Hk). unfold Size in Hb. split; [|split].
  - intros n m Hn. apply Hin in Hn as [Hn|[Hm Hn]]; [|right; split; [by right|done]].
    unfold Add in Hn. apply lookup_insert_Some in Hn as [[<- <-]|[_ Hn]]; [|by left].
    right. split; [by left|done].
  - assert (size (Add c set) ≤ S (size set))%nat; [|lia]. unfold Add.
    destruct (set !! Name c) as [x|] eqn:Hx.
    + rewrite map_size_insert_Some by (by eexists). lia.
    + by rewrite map_size_insert_None.
  - intros Hset. by apply Hk, keyed_Add.
Qed.

(** ** Lemmas: in place *)
Section in_place_lemmas.
Context `{Environment} (learned : gmap string string).
Context (cluster : CouchbaseCluster) (ms : MemberSet) (target : string) (recoverable : Member → bool).

Definition in_place_safe (m : Member) : Prop :=
  is_ok (CheckInPlaceUpgradePath learned (running_version ms m) target) = true.

Abbreviation swaps m := (must_swap learned cluster ms target m).

Lemma check_candidates_spec l : ∀ acc,
  let r := check_candidates learned cluster ms target recoverable acc l in
  if allCandidatesRecoverable r then
    allCandidatesRecoverable acc = true ∧ (∀ m, m ∈ l → recoverable m = true) ∧
    indexCandidates r = add_all (filter (λ m, swaps m = true) l) (indexCandidates acc) ∧
    nonIndexCandidates r = add_all (filter (λ m, swaps m = false) l) (nonIndexCandidates acc) ∧
    (inplaceUpgradeUnsafe r = false ↔
       inplaceUpgradeUnsafe acc = false ∧ ∀ m, m ∈ l → in_place_safe m)
  else allCandidatesRecoverable acc = false ∨ ∃ m, m ∈ l ∧ recoverable m = false.
Proof.
  induction l as [|m l IH]; intros acc; simpl.
  { destruct (allCandidatesRecoverable acc); [|by left].
    split; [done|]. split; [intros m Hm; by apply not_elem_of_nil in Hm|].
    split; [done|]. split; [done|]. split; [intros Hu; split; [done|]|by intros []].
    intros m Hm. by apply not_elem_of_nil in Hm. }
  destruct (recoverable m) eqn:Hm; simpl; [|right; exists m; split; [by left|done]].
  match goal with |- context [check_candidates _ _ _ _ _ ?a l] => specialize (IH a) end.
  simpl in IH. destruct (allCandidatesRecoverable _).
  - destruct IH as (Hacc&Hrec&Hi&Hni&Hu). split; [done|].
    split; [intros o [->|Ho]%elem_of_cons; [done|by apply Hrec]|].
    rewrite Hi, Hni, !filter_cons. destruct (swaps m); simpl;
      (split; [done|]); (split; [done|]); rewrite Hu; unfold in_place_safe;
      setoid_rewrite elem_of_cons; destruct (CheckInPlaceUpgradePath _ _ _) eqn:E; simpl;
      split; try (intros [? Hall]; split; [done|]; intros o [->|Ho]; [by rewrite E|by apply Hall]);
      try (intros [? Hall]; split; [done|]; intros o Ho; apply Hall; by right);
      try done;
      intros [_ Hall]; specialize (Hall m (or_introl eq_refl)); by rewrite E in Hall.
  - destruct IH as [?|(o&Ho&?)]; [by left|right]. exists o. split; [by right|done].
Qed.

(** An index candidate that is not swapped needs no swap. *)
Lemma must_swap_index m sc cv tv :
  must_swap learned cluster ms target m = false →
  GetServerConfigByName (Spec cluster) (Config m) = Some sc → HasService sc IndexService = true →
  NewVersion learned (running_version ms m) = Ok cv → NewVersion learned target = Ok tv →
  ¬ requires_swap cv tv.
Proof.
  unfold must_swap, ShouldMandatorySwapCandidate. intros Hs Hc Hi Hcv Htv. rewrite Hc, Hi in Hs.
  destruct (IndexUpgradeRequiresSwap_cases learned _ _ _ _ Hcv Htv) as [[_ E]|[? _]]; [|done].
  rewrite E, orb_true_r in Hs. done.
Qed.

Lemma not_all_safe (l : list Member) :
  ¬ (∀ m, m ∈ l → in_place_safe m) → ∃ m, m ∈ l ∧ ¬ in_place_safe m.
Proof.
  intros Hn. assert (¬ Forall in_place_safe l) as Hf by (by rewrite Forall_forall).
  apply not_Forall_Exists, Exists_exists in Hf; [done|]. intros m. unfold in_place_safe. apply _.
Qed.

(** The checks depend on the candidates only, not on the order they are visited. *)
Lemma check_candidates_any_order `{MapRange} pos candidates :
  keyed candidates →
  let r := check_candidates learned cluster ms target recoverable (mkInPlace true false ∅ ∅)
             (range pos candidates).*2 in
  if allCandidatesRecoverable r then
    (∀ m, m ∈ members candidates → recoverable m = true) ∧
    indexCandidates r = filter (λ e, swaps e.2 = true) candidates ∧
    nonIndexCandidates r = filter (λ e, swaps e.2 = false) candidates ∧
    (inplaceUpgradeUnsafe r = false ↔ ∀ m, m ∈ members candidates → in_place_safe m)
  else ∃ m, m ∈ members candidates ∧ recoverable m = false.
Proof.
  intros Hk. pose proof (check_candidates_spec (range pos candidates).*2 (mkInPlace true false ∅ ∅)) as Hs.
  simpl in *. assert ((range pos candidates).*2 ≡ₚ members candidates) as Hp
    by (unfold members; by rewrite (range_perm pos candidates)).
  destruct (allCandidatesRecoverable _).
  - destruct Hs as (_&Hr&->&->&Hu). split; [intros m Hm; apply Hr; by rewrite Hp|].
    split; [refine (add_all_filter (λ m, swaps m = true) candidates _ Hk _); by rewrite Hp|].
    split; [refine (add_all_filter (λ m, swaps m = false) candidates _ Hk _); by rewrite Hp|].
    rewrite Hu. setoid_rewrite Hp. tauto.
  - destruct Hs as [?|(m&Hm&?)]; [done|]. exists m. by rewrite <- Hp.
Qed.
End in_place_lemmas.

(** ** Properties *)

(** A rolling step stays within its bounds: for every order of the maps, the
    selected set holds candidates only, no more than [GetMaxUpgradable] of them,
    none whose name is part of the orchestrator's (unless it is the only
    candidate), and leaves the configured number of ready Cloud Native Gateways
    (or all there are) out of the step. *)
Theorem selectOrderedUpgradeCandidates_bounds `{MapRange} pos cluster cng candidates orchestrator
    selected maxUpgradable
    (Hrolling : GetUpgradeStrategy cluster = RollingUpgrade)
    (Hmax : GetMaxUpgradable cluster = (maxUpgradable, None))
    (Hsel : selectOrderedUpgradeCandidates pos cluster cng candidates orchestrator = Ok selected)
    (Hpreserve : 0 ≤ preserved cng ≤ MaxInt)
    (Hready : Z.of_nat (size (readyCNG cng)) ≤ MaxInt) :
  (∀ n m, selected !! n = Some m → m ∈ candidates ∧ Name m = n) ∧
  Z.of_nat (size selected) ≤ Z.max maxUpgradable 0 ∧
  (length candidates ≠ 1%nat → orchestrator ≠ "" → orchestrator ≠ "undefined" →
   ∀ n m, selected !! n = Some m → strings_Contains orchestrator (Name m) = false) ∧
  Z.min (preserved cng) (Z.of_nat (size (readyCNG cng))) ≤
    Z.of_nat (size (dom (readyCNG cng) ∖ dom selected : gset string)).
Proof.
  unfold selectOrderedUpgradeCandidates in Hsel.
  rewrite bool_decide_eq_false_2, Hmax in Hsel by (by intros []).
  set (l := if bool_decide (length candidates ≠ 1%nat) && bool_decide (orchestrator ≠ "")
            then _ else candidates) in *.
  assert (∀ m, m ∈ l → m ∈ candidates) as Hl.
  { subst l. intros m. destruct (_ && _); [|done].
    unfold separateOrderedCandidatesAndOrchestrator. destruct (bool_decide (orchestrator = "undefined")); simpl; [done|].
    by intros [_ Hm]%list_elem_of_filter. }
  assert (length candidates ≠ 1%nat → orchestrator ≠ "" → orchestrator ≠ "undefined" →
    ∀ m, m ∈ l → strings_Contains orchestrator (Name m) = false) as Horch.
  { intros H1 H2 H3 m. subst l. rewrite !bool_decide_eq_true_2 by done. simpl.
    unfold separateOrderedCandidatesAndOrchestrator. rewrite bool_decide_eq_false_2 by done.
    by intros [Hm _]%list_elem_of_filter. }
  destruct (take_max_spec maxUpgradable l ∅) as (Hin&Hs&Hk).
  set (constrained := take_max maxUpgradable ∅ l) in *. rewrite map_size_empty in Hs.
  assert (keyed constrained) as Kc by (apply Hk, keyed_empty).
  assert (∀ n m, constrained !! n = Some m → m ∈ l ∧ Name m = n) as Hc.
  { intros n m Hn. apply Hin in Hn as [Hn|?]; [by rewrite lookup_empty in Hn|done]. }
  assert (selected ⊆ constrained ∧
    Z.min (preserved cng) (Z.of_nat (size (readyCNG cng))) ≤
    Z.of_nat (size (dom (readyCNG cng) ∖ dom selected : gset string))) as [Hsub Hg].
  { destruct (cng_spec cng) as [g|] eqn:Hspec.
    2: { injection Hsel as <-. split; [done|]. simpl. lia. }
    rewrite <- Hspec in *. case_bool_decide as Hnil; injection Hsel as <-.
    - split; [done|]. subst constrained. rewrite Hnil. cbn [take_max].
      rewrite dom_empty_L, difference_empty_L, size_dom_ms. lia.
    - by apply preserve_cng. }
  assert (∀ n m, selected !! n = Some m → m ∈ l ∧ Name m = n) as Hsl.
  { intros n m Hn. apply Hc. eapply lookup_weaken; done. }
  split; [intros n m Hn; destruct (Hsl n m Hn); split; [by apply Hl|done]|].
  split; [apply map_subseteq_size in Hsub; lia|]. split; [|done].
  intros H1 H2 H3 n m Hn. apply (Horch H1 H2 H3). by apply (Hsl n).
Qed.

Lemma selectOrderedUpgradeCandidates_bounds_witness :
  let cluster := u_cluster (example_cluster (example_upgrade "" [] 0)) in
  Z.of_nat (size ({["cb-0001" := example_member 1 "data"]} : MemberSet)) ≤ Z.max 1 0.
Proof.
  intros cluster.
  refine (proj1 (proj2 (selectOrderedUpgradeCandidates_bounds (H := canonical_range) [] cluster
    (mkCNGCluster (Some (mkCNG None))
       [mkCNGPod "cb-0001" [(CloudNativeGatewayContainerName, true)];
        mkCNGPod "cb-0002" [("couchbase-server", true); (CloudNativeGatewayContainerName, true)];
        mkCNGPod "cb-0003" [(CloudNativeGatewayContainerName, false)]] example_members)
    [example_member 0 "data"; example_member 1 "data"; example_member 2 "data"]
    "ns_1@cb-0000.cb.ns.svc" {["cb-0001" := example_member 1 "data"]} 1 _ _ _ _ _))).
  - reflexivity.
  - reflexivity.
  - vm_compute. reflexivity.
  - unfold MaxInt. simpl. lia.
  - vm_compute. discriminate.
Defined.

(** A rollback batch is safe: it takes no more than the candidates; with graceful
    failover it leaves a data node, needs a replica of every bucket, and unless it
    is a single node it keeps a replica of every bucket serving and more than half
    of the callable members; with rebalance-out the data nodes that stay can hold
    every replica chain; any other method has no batch. *)
Theorem clampRollbackBatch_safe method candidates minReplicas maxReplicas haveBuckets
    dataNodes callableMembers
    (Hcand : 1 ≤ candidates) (Hcall : 0 ≤ callableMembers) :
  let batch := clampRollbackBatch method candidates minReplicas maxReplicas haveBuckets
    dataNodes callableMembers in
  0 ≤ batch ≤ candidates ∧
  (0 < batch → method = RollbackMethodConstrainedFailover ∨
               method = RollbackMethodConstrainedRebalanceOut) ∧
  (method = RollbackMethodConstrainedFailover → 0 < batch →
     1 ≤ dataNodes - batch ∧
     (haveBuckets = true → 1 ≤ minReplicas) ∧
     (1 < batch → (haveBuckets = true → batch < minReplicas) ∧
                  callableMembers < 2 * (callableMembers - batch))) ∧
  (method = RollbackMethodConstrainedRebalanceOut → 0 < batch →
     1 ≤ dataNodes - batch ∨ maxReplicas < 0) ∧
  (method = RollbackMethodConstrainedRebalanceOut → 0 < batch → haveBuckets = true →
     maxReplicas + 1 ≤ dataNodes - batch).
Proof.
  intros batch. subst batch. unfold clampRollbackBatch.
  assert (callableMembers - 1 ≤ 2 * Z.quot callableMembers 2 ≤ callableMembers) as Hq
    by (Z.to_euclidean_division_equations; lia).
  case_bool_decide as Hf.
  { rewrite Hf. destruct haveBuckets; simpl; [case_bool_decide|];
      (split; [lia|]); (split; [auto|]); (split; [intros _ Hb|split; [done|done]]); try lia;
      (split; [lia|]); split; try lia; try done; split; lia || done. }
  case_bool_decide as Hr; [|split; [lia|]; split; [lia|]; split; [done|]; split; [done|done]].
  rewrite Hr. destruct haveBuckets; (split; [lia|]); (split; [auto|]);
    (split; [done|]); split; intros _ Hb; try lia; try done; intros; lia.
Qed.

Lemma clampRollbackBatch_safe_witness :
  0 ≤ clampRollbackBatch RollbackMethodConstrainedFailover 4 3 3 true 6 8 ≤ 4 ∧
  clampRollbackBatch RollbackMethodConstrainedFailover 4 3 3 true 6 8 = 2.
Proof.
  split; [|reflexivity].
  refine (proj1 (clampRollbackBatch_safe RollbackMethodConstrainedFailover 4 3 3 true 6 8 _ _)); lia.
Defined.

(** Upgrading in place is only planned where it is safe: for every order of the
    candidates, when all of them are upgraded in place, each is recoverable from
    its volume, does not go back to an older version and needs no swap, and
    nothing changes zone or volume; when some are swapped, these are exactly the
    ones that must be and the others are upgraded in place under the same
    conditions; and an index node that must move from before 7.6.0 to 7.6.0 or
    7.6.1 is never upgraded in place. *)
Theorem tryInPlaceUpgrade_sound `{Environment} learned `{MapRange} pos cluster ms candidates
    zoneChange pvcChange target recoverable
    (Hkeyed : keyed candidates) :
  let plan := tryInPlaceUpgrade learned pos cluster ms candidates zoneChange pvcChange target
    recoverable in
  let in_place (s : MemberSet) :=
    ∀ m, m ∈ members s → recoverable m = true ∧ in_place_safe learned ms target m ∧
      must_swap learned cluster ms target m = false ∧
      (∀ sc cv tv, GetServerConfigByName (Spec cluster) (Config m) = Some sc →
         HasService sc IndexService = true →
         NewVersion learned (running_version ms m) = Ok cv → NewVersion learned target = Ok tv →
         ¬ requires_swap cv tv) in
  match plan with
  | AllInPlace s => s = candidates ∧ in_place s ∧ zoneChange = false ∧ pvcChange = false
  | Split s swap => in_place s ∧ zoneChange = false ∧ pvcChange = false ∧ swap ≠ ∅ ∧
      s = filter (λ e, must_swap learned cluster ms target e.2 = false) candidates ∧
      swap = filter (λ e, must_swap learned cluster ms target e.2 = true) candidates
  | SwapAll => zoneChange = true ∨ pvcChange = true ∨
      (∃ m, m ∈ members candidates ∧ (recoverable m = false ∨ ¬ in_place_safe learned ms target m))
  end.
Proof.
  pose proof (check_candidates_any_order learned cluster ms target recoverable pos candidates Hkeyed)
    as Hc. unfold tryInPlaceUpgrade. simpl in Hc.
  set (r := check_candidates _ _ _ _ _ _ _) in *.
  destruct (allCandidatesRecoverable r) eqn:Hall; simpl.
  2: { right; right. destruct Hc as (m&Hm&Hr). exists m. split; [done|by left]. }
  destruct Hc as (Hrec&Hi&Hni&Hu).
  destruct zoneChange; simpl; [by left|].
  assert (inplaceUpgradeUnsafe r = true → ∃ m, m ∈ members candidates ∧
    (recoverable m = false ∨ ¬ in_place_safe learned ms target m)) as Hunsafe.
  { intros Hun. assert (¬ ∀ m, m ∈ members candidates → in_place_safe learned ms target m) as Hn
      by (intros Ha; apply Hu in Ha; congruence).
    apply not_all_safe in Hn as (m&Hm&Hs). exists m. split; [done|by right]. }
  assert (inplaceUpgradeUnsafe r = false → ∀ m, m ∈ members candidates →
    in_place_safe learned ms target m) as Hsafe by apply Hu.
  assert (∀ m, must_swap learned cluster ms target m = false →
    ∀ sc cv tv, GetServerConfigByName (Spec cluster) (Config m) = Some sc →
    HasService sc IndexService = true → NewVersion learned (running_version ms m) = Ok cv →
    NewVersion learned target = Ok tv → ¬ requires_swap cv tv) as Hindex
    by (intros m Hm sc cv tv; by apply must_swap_index).
  destruct (negb (Empty (indexCandidates r))) eqn:He; simpl;
    (destruct pvcChange; simpl; [right; by left|]);
    (destruct (inplaceUpgradeUnsafe r); simpl; [right; right; by apply Hunsafe|]);
    specialize (Hsafe eq_refl).
  - rewrite negb_true_iff in He. unfold Empty in He. apply bool_decide_eq_false in He.
    split; [|split; [done|]; split; [done|]; split; [|done]].
    + intros m (n&Hn)%elem_of_members. rewrite Hni in Hn. apply map_lookup_filter_Some in Hn as [Hn Hs].
      assert (m ∈ members candidates) as Hm by (apply elem_of_members; eauto).
      split; [by apply Hrec|]. split; [by apply Hsafe|]. split; [exact Hs|by apply Hindex].
    + intros Hnil. apply He. by rewrite Hnil, map_size_empty.
  - rewrite negb_false_iff in He. unfold Empty in He. apply bool_decide_eq_true in He.
    apply map_size_empty_inv in He. rewrite Hi in He. split; [done|].
    split; [|done]. intros m Hm. pose proof Hm as (n&Hn)%elem_of_members.
    assert (must_swap learned cluster ms target m = false) as Hs;
      [|split; [by apply Hrec|]; split; [by apply Hsafe|]; split; [exact Hs|by apply Hindex]].
    destruct (must_swap learned cluster ms target m) eqn:E; [|done].
    exfalso.
    pose proof (map_lookup_filter_Some_2 (M := gmap string)
      (λ e, must_swap learned cluster ms target e.2 = true) candidates n m Hn E) as Hf.
    by rewrite He in Hf.
Qed.

Lemma tryInPlaceUpgrade_sound_witness :
  let cluster := u_cluster (example_cluster (example_upgrade "" [] 0)) in
  tryInPlaceUpgrade (H := const None) ∅ (H0 := canonical_range) [] cluster example_members
    example_members false false "7.6.2" (λ _, true) = AllInPlace example_members ∧
  must_swap (H := const None) ∅ cluster example_members "7.6.2" (example_member 3 "idx") = false.
Proof.
  intros cluster.
  assert (tryInPlaceUpgrade (H := const None) ∅ (H0 := canonical_range) [] cluster example_members
    example_members false false "7.6.2" (λ _, true) = AllInPlace example_members) as E
    by (vm_compute; reflexivity).
  split; [exact E|].
  pose proof (tryInPlaceUpgrade_sound (H := const None) ∅ (H0 := canonical_range) [] cluster
    example_members example_members false false "7.6.2" (λ _, true) example_keyed) as Hs.
  cbv zeta in Hs. rewrite E in Hs. destruct Hs as (_&Hin&_).
  apply (Hin (example_member 3 "idx")). apply elem_of_members. exists "cb-0003".
  vm_compute. reflexivity.
Defined.
