(* ===== verification/NodeStatus.v ===== *)
(** * pkg/cluster/status.go: what Couchbase says of its nodes

    The state of every node and of the cluster as [GetStatus] curates them from
    [/pools/default] and the task list, and the check at the end of a rebalance
    ([verifyRebalance] of [rebalance.go]). *)

From Stdlib Require Import Ascii.
From S2P Require Import Prelude GoLib Digests Version UpgradePath Api Member Persistence.
Local Open Scope Z_scope.

(** ** Node states *)
Inductive NodeState :=
  | NodeStateActive | NodeStatePendingAdd | NodeStateFailedAdd | NodeStateWarmup
  | NodeStateDown | NodeStateFailed | NodeStateAddBack.
#[export] Instance NodeState_eq_dec : EqDecision NodeState.
Proof. solve_decision. Defined.

Definition Callable (s : NodeState) : bool :=
  bool_decide (s = NodeStateWarmup) || bool_decide (s = NodeStateActive) ||
  bool_decide (s = NodeStatePendingAdd) || bool_decide (s = NodeStateAddBack).

(** The fields of [couchbaseutil.NodeInfo] and [ClusterInfo] read here. *)
Record NodeInfo := mkNodeInfo {
  ni_Membership : string;
  ni_Status : string;
  ni_OTPNode : string;
  ni_HostName : string;
  ni_Version : string;
  ni_RecoveryType : string;
  ni_Services : list string;
}.

(** A reason a service or bucket list needs a rebalance: the description and the list. *)
Record NeedsRebalanceCode := mkReason { Description : string; Subjects : list string }.

Record ClusterInfo := mkClusterInfo {
  Nodes : list NodeInfo;
  ci_RebalanceStatus : string;
  ci_Balanced : bool;
  ServicesNeedRebalance : list NeedsRebalanceCode;
  BucketsNeedRebalance : list NeedsRebalanceCode;
  Counters : gmap string Z;
}.

Definition RebalanceStatusNotRunning : string := "notRunning".
Definition RebalanceStatusRunning : string := "running".
Definition RebalanceStatusUnknown : string := "unknown".
Definition RebalanceStatusNone : string := "none".

Definition getNodeState (node : NodeInfo) : result NodeState :=
  if bool_decide (ni_Status node = "warmup") then Ok NodeStateWarmup
  else if bool_decide (ni_Status node = "healthy") then
    if bool_decide (ni_Membership node = "active") then Ok NodeStateActive
    else if bool_decide (ni_Membership node = "inactiveAdded") then Ok NodeStatePendingAdd
    else if bool_decide (ni_Membership node = "inactiveFailed") then Ok NodeStateAddBack
    else Err ErrInternalError
  else if bool_decide (ni_Status node = "unhealthy") then
    if bool_decide (ni_Membership node = "active") then Ok NodeStateDown
    else if bool_decide (ni_Membership node = "inactiveAdded") then Ok NodeStateFailedAdd
    else if bool_decide (ni_Membership node = "inactiveFailed") then Ok NodeStateFailed
    else Err ErrInternalError
  else Err ErrInternalError.

(** ** Tasks *)
Record Task := mkTask {
  task_Type : string;
  task_Status : string;
  Stale : bool;
  Timeout : bool;
  ErrorMessage : string;
}.

Definition TaskTypeRebalance : string := "rebalance".

(** The loop of [TaskList.GetTask]. *)
Fixpoint get_task (taskType : string) (task : option Task) (l : list Task) : result Task :=
  match l with
  | [] => match task with Some t => Ok t | None => Err ErrMissingResource end
  | temp :: l =>
      if bool_decide (task_Type temp = taskType) then
        match task with
        | Some _ => Err ErrDuplicatedResource
        | None => get_task taskType (Some temp) l
        end
      else get_task taskType task l
  end.

Definition GetTask (taskType : string) (l : list Task) : result Task := get_task taskType None l.

(** [ClusterInfo.GetNode]. *)
Definition GetNode (info : ClusterInfo) (hostname : string) : result NodeInfo :=
  match list_find (λ node, ni_HostName node = hostname) (Nodes info) with
  | Some (_, node) => Ok node
  | None => Err ErrMissingResource
  end.

Definition getRebalanceStatus (task : Task) : string :=
  if Stale task || Timeout task then RebalanceStatusUnknown
  else if bool_decide (task_Status task = RebalanceStatusNone) then RebalanceStatusNotRunning
  else task_Status task.

(** ** The curated status *)
Record ClusterState := mkClusterState {
  NodeStates : gmap string NodeState;
  Balanced : bool;
  Balancing : bool;
  UnknownMembers : MemberSet;
  RebalanceReasons : list string;
}.

(** [%v] of a list of strings. *)
Definition sprint_list (l : list string) : string := "[" +:+ strings_Join l " " +:+ "]".

Definition applyRebalanceError (status : ClusterState) (tasks : list Task) : ClusterState :=
  match GetTask TaskTypeRebalance tasks with
  | Ok task =>
      if bool_decide (ErrorMessage task = "") || Balancing status then status
      else mkClusterState (NodeStates status) false (Balancing status) (UnknownMembers status)
             (RebalanceReasons status ++ [ErrorMessage task])
  | _ => status
  end.

(** [networking.initPodsWithNodeHostname] and [networking.improvedHostNetwork] of
    the specification are the argument [hostNetwork]. *)
Section status.
Context `{Environment} (learned : gmap string string) `{MapRange}.

Definition getNodeMemberName (pos : list nat) (hostNetwork : bool) (ms : MemberSet)
    (node : NodeInfo) : string :=
  let name := GetMemberName (ni_HostName node) in
  if hostNetwork then
    match list_find (λ e : string * Member, GetHostName e.2 = ni_HostName node) (range pos ms) with
    | Some (_, e) => Name e.2
    | None => name
    end
  else name.

(** The loop over the nodes; the [i]-th iteration has its own order of the members. *)
Fixpoint nodes_loop (pos : list nat) (i : nat) (hostNetwork : bool) (ms : MemberSet)
    (states : gmap string NodeState) (unknown : MemberSet) (l : list NodeInfo) :
    result (gmap string NodeState * MemberSet) :=
  match l with
  | [] => Ok (states, unknown)
  | node :: l =>
      let name := getNodeMemberName (i :: pos) hostNetwork ms node in
      let unknown :=
        match ms !! name with
        | Some _ => unknown
        | None => Add (NewExternalMember (split_first (ni_HostName node) ":"%char) "" false) unknown
        end in
      state ← getNodeState node;
      nodes_loop pos (S i) hostNetwork ms (<[name := state]> states) unknown l
  end.

(** The search for a healthy node below 7.2.0. *)
Fixpoint below_72 (verBelow72 : bool) (l : list NodeInfo) : result bool :=
  match l with
  | [] => Ok verBelow72
  | node :: l =>
      if bool_decide (ni_Status node = "unhealthy") then below_72 verBelow72 l
      else
        let '(nodeCurrentVersion, _, found) := strings_Cut (ni_Version node) "-" in
        if negb found then below_72 verBelow72 l
        else
          below ← VersionBefore learned nodeCurrentVersion "7.2.0";
          if below : bool then Ok true else below_72 false l
  end.

Fixpoint areNodesVersionUpgrading_loop (version : string) (l : list NodeInfo) : bool :=
  match l with
  | [] => false
  | node :: l =>
      if bool_decide (ni_Status node = "unhealthy") then areNodesVersionUpgrading_loop version l
      else
        let '(nodeCurrentVersion, _, found) := strings_Cut (ni_Version node) "-" in
        if negb found then areNodesVersionUpgrading_loop version l
        else if bool_decide (version = "") then areNodesVersionUpgrading_loop nodeCurrentVersion l
        else if bool_decide (version ≠ nodeCurrentVersion) then true
        else areNodesVersionUpgrading_loop version l
  end.

Definition areNodesVersionUpgrading (l : list NodeInfo) : bool := areNodesVersionUpgrading_loop "" l.

Definition areAllNodesActive (pos : list nat) (states : gmap string NodeState) : bool :=
  forallb (λ e : string * NodeState, bool_decide (e.2 = NodeStateActive)) (range pos states).

(** The workaround for 7.1: [upgrading] is the answer of [isUpgrading]. *)
Definition upgrade_balanced (upgrading : result bool) (info : ClusterInfo) (balanced : bool) :
    result bool :=
  match upgrading with
  | Ok true =>
      verBelow72 ← below_72 false (Nodes info);
      if (verBelow72 : bool) && areNodesVersionUpgrading (Nodes info)
      then Ok (balanced || (negb (ci_Balanced info) &&
                            bool_decide (ci_RebalanceStatus info = RebalanceStatusNone)))
      else Ok balanced
  | Panic => Panic
  | _ => Ok balanced
  end.

Definition rebalance_reasons (info : ClusterInfo) : list string :=
  ((λ r, Description r +:+ ". Services: " +:+ sprint_list (Subjects r) +:+ ".")
     <$> ServicesNeedRebalance info) ++
  ((λ r, Description r +:+ ". Buckets: " +:+ sprint_list (Subjects r) +:+ ".")
     <$> BucketsNeedRebalance info).

(** [isUpgrading] of [upgrade.go]. *)
Definition isUpgrading `{PersistentStorage ST} : M ST bool := λ s,
  match ps_Get Upgrading s with
  | (Ok upgradeStatus, s') => (Ok (bool_decide (upgradeStatus = UpgradeActive)), s')
  | (Err _, s') => (ps_Insert Upgrading UpgradeInactive;; mret false) s'
  | (Panic, s') => (Panic, s')
  end.

Definition getStatusFromClusterInfo `{PersistentStorage ST} (pos : list nat) (hostNetwork : bool)
    (info : ClusterInfo) (ms : MemberSet) : M ST ClusterState := λ s,
  match nodes_loop pos 0 hostNetwork ms ∅ ∅ (Nodes info) with
  | Ok (states, unknown) =>
      let balanced := bool_decide (length (Nodes info) = 1%nat) || ci_Balanced info in
      let '(upgrading, s) := isUpgrading s in
      (balanced ← upgrade_balanced upgrading info balanced;
       Ok (mkClusterState states balanced
             (bool_decide (ci_RebalanceStatus info = RebalanceStatusRunning)) unknown
             (rebalance_reasons info)), s)
  | Err e => (Err e, s)
  | Panic => (Panic, s)
  end.

(** One check of [verifyRebalance], on the status [GetStatus] returned. *)
Definition verify_status (pos : list nat) (status : ClusterState) (ms : MemberSet) : result () :=
  if negb (Balanced status) then Err ErrRebalanceIncomplete
  else if negb (forallb (λ e : string * Member,
                  bool_decide (NodeStates status !! e.1 = Some NodeStateActive)) (range pos ms))
  then Err ErrRebalanceIncomplete
  else if negb (forallb (λ e : string * NodeState, bool_decide (is_Some (ms !! e.1)))
                  (range (0%nat :: pos) (NodeStates status)))
  then Err ErrRebalanceIncomplete
  else Ok tt.
End status.

(** ** Lemmas *)

(** The name a node goes by. *)
Definition named (hostNetwork : bool) (ms : MemberSet) (node : NodeInfo) (n : string) : Prop :=
  if hostNetwork then
    (∃ m, m ∈ members ms ∧ GetHostName m = ni_HostName node ∧ n = Name m) ∨
    ((∀ m, m ∈ members ms → GetHostName m ≠ ni_HostName node) ∧ n = GetMemberName (ni_HostName node))
  else n = GetMemberName (ni_HostName node).

Definition hosts_inj (ms : MemberSet) : Prop :=
  ∀ m o, m ∈ members ms → o ∈ members ms → GetHostName m = GetHostName o → Name m = Name o.

Lemma named_det hostNetwork ms node n n' :
  hosts_inj ms → named hostNetwork ms node n → named hostNetwork ms node n' → n = n'.
Proof.
  intros Hinj. unfold named. destruct hostNetwork; [|congruence].
  intros [(m&Hm&Hh&->)|[Hno ->]] [(o&Ho&Hh'&->)|[Hno' ->]]; [|exfalso..|done].
  - apply Hinj; [done..|congruence].
  - by apply (Hno' m).
  - by apply (Hno o).
Qed.

Section lemmas.
Context `{Environment} (learned : gmap string string) `{MapRange}.

Lemma range_members pos (ms : MemberSet) m : m ∈ (range pos ms).*2 ↔ m ∈ members ms.
Proof. unfold members. by rewrite (range_perm pos ms). Qed.

Lemma getNodeMemberName_named pos hostNetwork ms node :
  named hostNetwork ms node (getNodeMemberName pos hostNetwork ms node).
Proof.
  unfold named, getNodeMemberName. destruct hostNetwork; [|done].
  destruct (list_find _ _) as [[i e]|] eqn:E.
  - apply list_find_Some in E as (Hi&Hh&_). left. exists e.2. split; [|done].
    rewrite <- (range_members pos). apply list_elem_of_fmap. exists e. split; [done|].
    by eapply list_elem_of_lookup_2.
  - apply list_find_None in E. right. split; [|done]. intros m Hm.
    rewrite <- (range_members pos) in Hm. apply list_elem_of_fmap in Hm as (e&->&He).
    rewrite Forall_forall in E. by apply E.
Qed.

(** Every iteration finds the same name. *)
Lemma getNodeMemberName_det pos pos' hostNetwork ms node :
  hosts_inj ms → getNodeMemberName pos hostNetwork ms node = getNodeMemberName pos' hostNetwork ms node.
Proof. intros Hinj. eapply named_det; [done|apply getNodeMemberName_named..]. Qed.

Lemma getNodeState_cases node :
  (∃ x, getNodeState node = Ok x) ∨ getNodeState node = Err ErrInternalError.
Proof. unfold getNodeState. repeat case_match; eauto. Qed.

Lemma Add_not_empty m (ms : MemberSet) : Add m ms ≠ ∅.
Proof. apply insert_non_empty. Qed.

Lemma nodes_loop_spec pos hostNetwork ms (l : list NodeInfo) : ∀ i states unknown,
  hosts_inj ms →
  match nodes_loop pos i hostNetwork ms states unknown l with
  | Ok (states', unknown') =>
      (∀ node, node ∈ l → is_ok (getNodeState node) = true) ∧
      (∀ n x, states' !! n = Some x → states !! n = Some x ∨
         ∃ node, node ∈ l ∧ named hostNetwork ms node n ∧ getNodeState node = Ok x) ∧
      (∀ n, is_Some (states !! n) ∨ (∃ node, node ∈ l ∧ named hostNetwork ms node n) →
         is_Some (states' !! n)) ∧
      (unknown' = ∅ ↔ unknown = ∅ ∧
         ∀ n node, node ∈ l → named hostNetwork ms node n → is_Some (ms !! n))
  | Err e => e = ErrInternalError ∧ ∃ node, node ∈ l ∧ getNodeState node = Err e
  | Panic => False
  end.
Proof.
  induction l as [|node l IH]; intros i states unknown Hinj; cbn [nodes_loop].
  { split; [by intros node Hn%not_elem_of_nil|]. split; [by left|].
    split; [by intros n [?|(node&Hn%not_elem_of_nil&_)]|].
    split; [intros ->; split; [done|]|by intros [? _]]. by intros n node Hn%not_elem_of_nil. }
  set (name := getNodeMemberName (i :: pos) hostNetwork ms node).
  pose proof (getNodeMemberName_named (i :: pos) hostNetwork ms node) as Hname. fold name in Hname.
  assert (∀ n, named hostNetwork ms node n → n = name) as Hdet by (intros n Hn; by eapply named_det).
  destruct (getNodeState_cases node) as [[x Hx]|Hx]; rewrite Hx; cbn [mbind result_bind].
  2: { split; [done|]. exists node. split; [by left|done]. }
  match goal with |- context [nodes_loop pos (S i) hostNetwork ms ?a ?b l] =>
    specialize (IH (S i) a b Hinj); destruct (nodes_loop pos (S i) hostNetwork ms a b l) as [[st un]|e|] end;
    [|destruct IH as (?&o&?&?); split; [done|]; exists o; split; [by right|done]|done].
  destruct IH as (Hok&Hst&Hin&Hun). split; [|split; [|split]].
  - intros o [->|Ho]%elem_of_cons; [by rewrite Hx|by apply Hok].
  - intros n y Hy. apply Hst in Hy as [Hy|(o&Ho&Hn&Hs)].
    + apply lookup_insert_Some in Hy as [[<- <-]|[_ Hy]]; [|by left].
      right. exists node. split; [by left|done].
    + right. exists o. split; [by right|done].
  - intros n [Hn|(o&[->|Ho]%elem_of_cons&Hn)]; apply Hin.
    + left. apply insert_is_Some_iff. by right.
    + left. apply insert_is_Some_iff. left. by apply Hdet.
    + right. by exists o.
  - rewrite Hun. split.
    + intros [He Hall]. destruct (ms !! name) as [m|] eqn:Em.
      2: { by apply Add_not_empty in He. }
      split; [done|]. intros n o [->|Ho]%elem_of_cons Hn; [apply Hdet in Hn as ->; by eexists|by eapply Hall].
    + intros [He Hall]. split.
      * destruct (Hall name node ltac:(by left) Hname) as [m ->]. done.
      * intros n o Ho Hn. apply (Hall n o); [by right|done].
Qed.

Lemma forallb_range {V} pos (m : gmap string V) (f : string * V → bool) :
  forallb f (range pos m) = true ↔ ∀ k v, m !! k = Some v → f (k, v) = true.
Proof.
  rewrite forallb_forall.
  assert (∀ e, List.In e (range pos m) ↔ m !! e.1 = Some e.2) as Hin.
  { intros [k v]. rewrite <- list_elem_of_In, (range_perm pos m). apply elem_of_map_to_list. }
  split; [intros Hf k v Hk; apply Hf; by apply Hin|].
  intros Hf [k v] Hk%Hin. by apply Hf.
Qed.

Lemma below_72_true (l : list NodeInfo) : below_72 learned false l = Ok true →
  ∃ node v, node ∈ l ∧ ni_Status node ≠ "unhealthy" ∧
    strings_Cut (ni_Version node) "-" = (v.1, v.2, true) ∧ VersionBefore learned v.1 "7.2.0" = Ok true.
Proof.
  induction l as [|node l IH]; simpl; [done|].
  assert (below_72 learned false l = Ok true → ∃ o v, o ∈ node :: l ∧ ni_Status o ≠ "unhealthy" ∧
    strings_Cut (ni_Version o) "-" = (v.1, v.2, true) ∧ VersionBefore learned v.1 "7.2.0" = Ok true) as Hrest
    by (intros (o&v&Ho&?)%IH; exists o, v; split; [by right|done]).
  case_bool_decide as Hu; [done|].
  destruct (strings_Cut (ni_Version node) "-") as [[v w] found] eqn:E.
  destruct found; simpl; [|done].
  destruct (VersionBefore learned v "7.2.0") as [[]| |] eqn:Ev; simpl; try done.
  intros _. exists node, (v, w). split; [by left|done].
Qed.
End lemmas.

Lemma hosts_injb (ms : MemberSet) :
  forallb (λ m, forallb (λ o, bool_decide (GetHostName m = GetHostName o → Name m = Name o))
    (members ms)) (members ms) = true → hosts_inj ms.
Proof.
  intros Hb m o Hm Ho. rewrite forallb_forall in Hb. apply list_elem_of_In in Hm, Ho.
  specialize (Hb m Hm). rewrite forallb_forall in Hb. exact (bool_decide_eq_true_1 _ (Hb o Ho)).
Qed.

(** ** Properties *)

(** A rebalance is verified exactly when Couchbase reports itself as balanced
    and its nodes are the expected members, all of them active and no other,
    whatever order the maps are visited in. *)
Theorem verify_status_exact `{MapRange} pos status (ms : MemberSet) :
  verify_status pos status ms = Ok tt ↔
    Balanced status = true ∧ NodeStates status = (λ _, NodeStateActive) <$> ms.
Proof.
  unfold verify_status.
  set (active := forallb _ (range pos ms)). set (mine := forallb _ (range (0%nat :: pos) _)).
  assert ((active = true ∧ mine = true) ↔ NodeStates status = (λ _, NodeStateActive) <$> ms) as Heq.
  { subst active mine. rewrite !forallb_range. simpl. setoid_rewrite bool_decide_eq_true. split.
    - intros [Ha Hm]. apply map_eq. intros n. rewrite lookup_fmap.
      destruct (ms !! n) as [m|] eqn:E; simpl; [by eapply Ha|].
      apply eq_None_not_Some. intros [x Hx]. apply Hm in Hx. rewrite E in Hx. by apply is_Some_None in Hx.
    - intros ->. split.
      + intros n m Hn. by rewrite lookup_fmap, Hn.
      + intros n x Hx. rewrite lookup_fmap in Hx. destruct (ms !! n); [by eexists|done]. }
  destruct (Balanced status); simpl; [|naive_solver].
  destruct active, mine; simpl; naive_solver.
Qed.

(** The curated status: for every order the members are visited in, when no
    two members share a host name, [getStatus] fails exactly when some node
    reports a status and membership Couchbase does not define (or, during an
    upgrade, a version that does not parse); otherwise each name of [NodeStates]
    carries the state of a node of that name, every node is there, a node counts
    as unknown exactly when no member has its name, and the cluster only counts
    as balanced when it has one node, when Couchbase says so, or during an
    upgrade from before 7.2.0 while no rebalance runs. *)
Theorem getStatusFromClusterInfo_spec `{Environment} learned `{MapRange} `{PersistentStorage ST}
    pos hostNetwork info (ms : MemberSet) (s : ST)
    (Hhosts : hosts_inj ms) (Hpanic : is_panic (isUpgrading s).1 = false) :
  match (getStatusFromClusterInfo learned pos hostNetwork info ms s).1 with
  | Ok st =>
      (∀ n x, NodeStates st !! n = Some x →
         ∃ node, node ∈ Nodes info ∧ named hostNetwork ms node n ∧ getNodeState node = Ok x) ∧
      (∀ node n, node ∈ Nodes info → named hostNetwork ms node n → is_Some (NodeStates st !! n)) ∧
      (UnknownMembers st = ∅ ↔ dom (NodeStates st) ⊆ dom ms) ∧
      (length (Nodes info) = 1%nat ∨ ci_Balanced info = true → Balanced st = true) ∧
      (Balanced st = true → length (Nodes info) = 1%nat ∨ ci_Balanced info = true ∨
         (isUpgrading s).1 = Ok true ∧ ci_RebalanceStatus info = RebalanceStatusNone ∧
         ∃ node v, node ∈ Nodes info ∧ ni_Status node ≠ "unhealthy" ∧
           strings_Cut (ni_Version node) "-" = (v.1, v.2, true) ∧
           VersionBefore learned v.1 "7.2.0" = Ok true)
  | Err e => (∃ node, node ∈ Nodes info ∧ getNodeState node = Err e) ∨
             (isUpgrading s).1 = Ok true ∧ below_72 learned false (Nodes info) = Err e
  | Panic => (isUpgrading s).1 = Ok true ∧ below_72 learned false (Nodes info) = Panic
  end.
Proof.
  unfold getStatusFromClusterInfo.
  pose proof (nodes_loop_spec pos hostNetwork ms (Nodes info) 0 ∅ ∅ Hhosts) as Hl.
  destruct (nodes_loop _ _ _ _ _ _ _) as [[st un]|e|]; [|destruct Hl as [-> ?]; simpl; by left|done].
  destruct Hl as (Hok&Hst&Hin&Hun). destruct (isUpgrading s) as [upgrading s'] eqn:Eup. simpl in *.
  assert (∀ n x, st !! n = Some x →
    ∃ node, node ∈ Nodes info ∧ named hostNetwork ms node n ∧ getNodeState node = Ok x) as Hnodes.
  { intros n x Hx. apply Hst in Hx as [Hx|?]; [by rewrite lookup_empty in Hx|done]. }
  assert (un = ∅ ↔ dom st ⊆ dom ms) as Hdom.
  { rewrite Hun. split.
    - intros [_ Hall] n [x Hx]%elem_of_dom. apply elem_of_dom.
      apply Hnodes in Hx as (node&?&?&_). by eapply Hall.
    - intros Hsub. split; [done|]. intros n node Hn Hname. apply elem_of_dom, Hsub, elem_of_dom.
      apply Hin. right. by exists node. }
  assert (∀ node n, node ∈ Nodes info → named hostNetwork ms node n → is_Some (st !! n)) as Hsome
    by (intros node n Hn Hm; apply Hin; right; by exists node).
  set (b := bool_decide (length (Nodes info) = 1%nat) || ci_Balanced info).
  assert (b = true ↔ length (Nodes info) = 1%nat ∨ ci_Balanced info = true) as Hb
    by (unfold b; rewrite orb_true_iff, bool_decide_eq_true; done).
  unfold upgrade_balanced. destruct upgrading as [[]|e|]; simpl; [|naive_solver..|done].
  destruct (below_72 learned false (Nodes info)) as [below|e|] eqn:Eb; simpl; [|by right|done].
  destruct below; simpl; [|naive_solver]. destruct (areNodesVersionUpgrading (Nodes info)); simpl; [|naive_solver].
  split; [done|]. split; [done|]. split; [done|]. split; [intros Hor; by rewrite (proj2 Hb Hor)|].
  rewrite orb_true_iff, andb_true_iff, bool_decide_eq_true. intros [?|[_ ?]]; [tauto|].
  right; right. split; [done|]. split; [done|]. by apply below_72_true.
Qed.

(** A store that is a map, to evaluate examples. *)
#[export] Instance map_storage : PersistentStorage (gmap string string) := {|
  ps_Insert k v s := (Ok tt, match s !! k with Some _ => s | None => <[k := v]> s end);
  ps_Upsert k v s := (Ok tt, <[k := v]> s);
  ps_Update k v s := (Ok tt, match s !! k with Some _ => <[k := v]> s | None => s end);
  ps_Delete k s := (Ok tt, delete k s);
  ps_DeleteXDCR c s :=
    (Ok tt, filter (λ e, strings_HasPrefix e.1 (getPersistentKindPrefixXDCR c) = false) s);
  ps_Get k s := (match s !! k with Some v => Ok v | None => Err ErrKeyError end, s);
  ps_Clear s := (Ok tt, ∅) |}.

Definition example_node (i : Z) (status membership version : string) : NodeInfo :=
  let m := NewMember "ns" "cb" (CreateMemberName "cb" i) "7.1.0" "data" false "" in
  mkNodeInfo membership status (GetOTPNode m) (GetHostName m) version "none" ["kv"].

(** Two members, one of them failed over, and a node nobody knows; an upgrade
    from 7.1.0 runs. *)
Definition example_info : ClusterInfo := mkClusterInfo
  [example_node 0 "healthy" "active" "7.1.0-1-enterprise";
   example_node 1 "unhealthy" "inactiveFailed" "7.2.0-1-enterprise";
   example_node 7 "healthy" "inactiveAdded" "7.2.0-1-enterprise"]
  "none" false [] [] ∅.

Definition example_known : MemberSet :=
  NewMemberSet ((λ i, NewMember "ns" "cb" (CreateMemberName "cb" i) "7.1.0" "data" false "") <$> [0; 1]).

Lemma getStatusFromClusterInfo_spec_witness :
  let r := (getStatusFromClusterInfo (H := const None) ∅ (H0 := canonical_range) [] true
              example_info example_known {["upgrading" := "true"]}).1 in
  r = Ok (mkClusterState
    {["cb-0000" := NodeStateActive; "cb-0001" := NodeStateFailed; "cb-0007" := NodeStatePendingAdd]}
    true false (NewMemberSet [NewExternalMember "cb-0007.cb.ns.svc" "" false]) []) ∧
  ∃ node, node ∈ Nodes example_info ∧ named true example_known node "cb-0001" ∧
    getNodeState node = Ok NodeStateFailed.
Proof.
  intros r. assert (r = Ok (mkClusterState
    {["cb-0000" := NodeStateActive; "cb-0001" := NodeStateFailed; "cb-0007" := NodeStatePendingAdd]}
    true false (NewMemberSet [NewExternalMember "cb-0007.cb.ns.svc" "" false]) [])) as E
    by (vm_compute; reflexivity).
  split; [exact E|].
  assert (hosts_inj example_known) as Hhosts.
  { apply hosts_injb. vm_compute. reflexivity. }
  pose proof (getStatusFromClusterInfo_spec (H := const None) ∅ (H0 := canonical_range) [] true
    example_info example_known {["upgrading" := "true"]} Hhosts eq_refl) as Hs.
  fold r in Hs. rewrite E in Hs. destruct Hs as (Hn&_). apply Hn. reflexivity.
Defined.
