(* ===== verification/StripeScheduler.v ===== *)
(** * pkg/util/scheduler/stripe.go: striping pods across server groups

    The scheduler's cache and every method but [Reschedule] and
    [RescheduleUnschedulableOnly], which are in [Reschedule.v].  The mutex makes
    each method atomic, so the model has one transition per call. *)

From S2P Require Import Prelude GoLib Api ServerGroups Scheduler.

Record stripeSchedulerImpl := StripeScheduler {
  serverClasses : serverClassGroupMap;
  unschedulableServerClasses : serverClassGroupMap;
  removableUnscheduledServerClasses : serverClassGroupMap;
  removableServerClasses : serverClassServerRemovalMap;
  avoidGroups : gmap string bool;
  serverGroupLabel : string;
}.

Definition set_serverClasses (m : serverClassGroupMap) (s : stripeSchedulerImpl) :=
  StripeScheduler m (unschedulableServerClasses s) (removableUnscheduledServerClasses s)
    (removableServerClasses s) (avoidGroups s) (serverGroupLabel s).
Definition set_unschedulable (m : serverClassGroupMap) (s : stripeSchedulerImpl) :=
  StripeScheduler (serverClasses s) m (removableUnscheduledServerClasses s)
    (removableServerClasses s) (avoidGroups s) (serverGroupLabel s).
Definition set_removableUnscheduled (m : serverClassGroupMap) (s : stripeSchedulerImpl) :=
  StripeScheduler (serverClasses s) (unschedulableServerClasses s) m
    (removableServerClasses s) (avoidGroups s) (serverGroupLabel s).
Definition set_removable (m : serverClassServerRemovalMap) (s : stripeSchedulerImpl) :=
  StripeScheduler (serverClasses s) (unschedulableServerClasses s)
    (removableUnscheduledServerClasses s) m (avoidGroups s) (serverGroupLabel s).
Definition set_avoidGroups (m : gmap string bool) (s : stripeSchedulerImpl) :=
  StripeScheduler (serverClasses s) (unschedulableServerClasses s)
    (removableUnscheduledServerClasses s) (removableServerClasses s) m (serverGroupLabel s).

(** Update of one list of one class in a map of classes: the effect of calling
    a method through [classes[class].getGroup(group)]. *)
Definition put_list (class group : string) (l : serverList) (sg : serverGroups)
    (m : serverClassGroupMap) : serverClassGroupMap :=
  <[class := setGroup group l sg]> m.

(** The groups of a class, empty for an unknown class. *)
Definition class_map (classes : serverClassGroupMap) (class : string) : groupMap :=
  match classes !! class with Some sg => getMap sg | None => ∅ end.

(** ** Construction *)
Section construction.
Context `{MapRange} `{MathRand} `{NamespacedNames}.

Definition GetServerGroupsForClass (cluster : CouchbaseCluster) (class : ServerConfig) :
    result (list string) :=
  if bool_decide (length (sc_ServerGroups class) = 0) then
    if bool_decide (length (cs_ServerGroups (Spec cluster)) = 0)
    then Err ErrResourceAttributeRequired
    else Ok (cs_ServerGroups (Spec cluster))
  else Ok (sc_ServerGroups class).

Fixpoint initServerClasses_loop (cluster : CouchbaseCluster) (classes : list ServerConfig)
    (m : serverClassGroupMap) : result serverClassGroupMap :=
  match classes with
  | [] => Ok m
  | class :: classes' =>
      groups ← GetServerGroupsForClass cluster class;
      let '(groups, sg) :=
        if cs_ShuffleServerGroups (Spec cluster)
        then (ShuffleServerGroups groups (NamespacedName cluster), newOrderedServerGroups)
        else (groups, newLexicalServerGroups) in
      let sg := fold_left (λ sg group, addGroup group sg) groups sg in
      initServerClasses_loop cluster classes' (<[sc_Name class := sg]> m)
  end.

Definition initServerClasses (cluster : CouchbaseCluster) (s : stripeSchedulerImpl) :
    result stripeSchedulerImpl :=
  let s := set_avoidGroups ∅ s in
  m ← initServerClasses_loop cluster (cs_Servers (Spec cluster)) (serverClasses s);
  Ok (set_serverClasses m s).

(** The error is dropped by the only caller, which goes on with the empty group. *)
Definition getPodServerGroup (s : stripeSchedulerImpl) (pod : Pod) : result string :=
  match pod_NodeSelector pod with
  | None => Err ErrResourceAttributeRequired
  | Some selector =>
      match selector !! serverGroupLabel s with
      | Some group => Ok group
      | None =>
          match selector !! LabelFailureDomainBetaZone with
          | Some group => Ok group
          | None => Err ErrResourceAttributeRequired
          end
      end
  end.

(** Add a pod to a group of a class, creating the class and the group when they
    are missing ([addGroupIfDoesntExist] leaves a list for [getGroup]). *)
Definition push_unscheduled (class group name : string) (m : serverClassGroupMap) :
    serverClassGroupMap :=
  let sg := match m !! class with Some sg => sg | None => newLexicalServerGroups end in
  let sg := addGroupIfDoesntExist group sg in
  match getGroup group sg with
  | Some l => put_list class group (serverList_push name l) sg m
  | None => m
  end.

(** One turn of the loop of [populateServerClasses]. *)
Definition populate_pod (pod : Pod) (s : stripeSchedulerImpl) : result stripeSchedulerImpl :=
  if negb (bool_decide (pod_Phase pod = PodPending)) && negb (bool_decide (pod_Phase pod = PodRunning))
  then Ok s
  else match pod_Labels pod !! LabelNodeConf with
  | None => Err ErrResourceAttributeRequired
  | Some class =>
      match serverClasses s !! class with
      | None => Ok s
      | Some sg =>
          match getPodServerGroup s pod with
          | Ok group =>
              match getGroup group sg with
              | None =>
                  let s := set_unschedulable
                    (push_unscheduled class group (pod_Name pod) (unschedulableServerClasses s)) s in
                  Ok (set_removableUnscheduled
                    (push_unscheduled class group (pod_Name pod)
                       (removableUnscheduledServerClasses s)) s)
              | Some l =>
                  Ok (set_serverClasses
                    (put_list class group (serverList_push (pod_Name pod) l) sg (serverClasses s)) s)
              end
          | _ =>
              Ok (set_unschedulable
                (push_unscheduled class "" (pod_Name pod) (unschedulableServerClasses s)) s)
          end
      end
  end.

Fixpoint populateServerClasses (pods : list Pod) (s : stripeSchedulerImpl) :
    result stripeSchedulerImpl :=
  match pods with
  | [] => Ok s
  | pod :: pods' => s ← populate_pod pod s; populateServerClasses pods' s
  end.

Definition NewStripeScheduler (pods : list Pod) (cluster : CouchbaseCluster) :
    result stripeSchedulerImpl :=
  let s := StripeScheduler ∅ ∅ ∅ ∅ ∅ (ServerGroupLabel cluster) in
  s ← initServerClasses cluster s;
  populateServerClasses pods s.
End construction.

(** ** Operations *)
Section operations.
Context `{MapRange} `{MathRand}.

Definition getSmallesGroupForClass (pos : list nat) (s : stripeSchedulerImpl)
    (sg : serverGroups) : result string :=
  if bool_decide (size (avoidGroups s) = 0) then smallestGroup pos sg
  else
    orderedGroups ← sizeOrderedGroups pos sg;
    match list_find (λ group, avoidGroups s !! group = None) orderedGroups with
    | Some (_, group) => Ok group
    | None =>
        match orderedGroups with
        | [] => Panic
        | _ => match orderedGroups !! rand_Intn pos (length orderedGroups) with
               | Some group => Ok group
               | None => Panic
               end
        end
    end.

Definition stripe_Create (pos : list nat) (class name group : string) :
    M stripeSchedulerImpl string := λ s,
  match serverClasses s !! class with
  | None => (Err ErrResourceAttributeRequired, s)
  | Some sg =>
      match (if bool_decide (group = "") then getSmallesGroupForClass pos s sg else Ok group) with
      | Ok group =>
          match getGroup group sg with
          | None => (Err ErrResourceRequired, s)
          | Some l =>
              (Ok group,
               set_serverClasses (put_list class group (serverList_push name l) sg (serverClasses s)) s)
          end
      | Err e => (Err e, s)
      | Panic => (Panic, s)
      end
  end.

(** [serverList.find] then [serverList.del] in one list of a class, when the
    list exists and holds the pod. *)
Definition find_and_del (class serverGroup podName : string) (m : serverClassGroupMap) :
    option (result serverClassGroupMap) :=
  match m !! class with
  | None => None
  | Some sg =>
      match getGroup serverGroup sg with
      | None => None
      | Some l =>
          if serverList_find podName l
          then Some (match serverList_del podName l with
                     | Ok l' => Ok (put_list class serverGroup l' sg m)
                     | Err e => Err e
                     | Panic => Panic
                     end)
          else None
      end
  end.

Definition removePodFromServerGroup (class serverGroup podName : string) :
    M stripeSchedulerImpl () := λ s,
  match find_and_del class serverGroup podName (serverClasses s) with
  | Some (Ok m) => (Ok tt, set_serverClasses m s)
  | Some (Err e) => (Err e, s)
  | Some Panic => (Panic, s)
  | None =>
      match find_and_del class serverGroup podName (removableUnscheduledServerClasses s) with
      | Some (Ok m) => (Ok tt, set_removableUnscheduled m s)
      | Some (Err e) => (Err e, s)
      | Some Panic => (Panic, s)
      | None => (Err ErrResourceAttributeRequired, s)
      end
  end.

(** [removalServerListsMap[group] = getGroup(group)] for every listed group. *)
Definition add_lists (groups : list string) (sg : serverGroups) (lists : groupMap) : groupMap :=
  fold_left (λ lists group,
    match getGroup group sg with Some l => <[group := l]> lists | None => lists end)
    groups lists.

(** The candidates of a prioritised removal: the largest scheduled groups and
    the largest groups of removable unscheduled pods. *)
Definition removalServerLists (pos : list nat) (class : string) (sg : serverGroups)
    (s : stripeSchedulerImpl) : result groupMap :=
  largest ← largestGroups (pos ++ [0]) sg;
  let lists := add_lists largest sg ∅ in
  match removableUnscheduledServerClasses s !! class with
  | None => Ok lists
  | Some usg =>
      largestUnscheduled ← largestGroups (pos ++ [1]) usg;
      Ok (add_lists largestUnscheduled usg lists)
  end.

(** The removal that the queue does not decide. *)
Definition delete_from_largest (pos : list nat) (class : string) (sg : serverGroups) :
    M stripeSchedulerImpl string := λ s,
  match largestGroup (pos ++ [2]) sg with
  | Ok serverGroup =>
      match getGroup serverGroup sg with
      | None => (Panic, s)
      | Some l =>
          match serverList_pop l with
          | Ok (server, l') =>
              (Ok server, set_serverClasses (put_list class serverGroup l' sg (serverClasses s)) s)
          | Err _ => (Err ErrResourceAttributeRequired, s)
          | Panic => (Panic, s)
          end
      end
  | Err e => (Err e, s)
  | Panic => (Panic, s)
  end.

Definition stripe_Delete (pos : list nat) (class : string) : M stripeSchedulerImpl string := λ s,
  match serverClasses s !! class with
  | None => (Err ErrResourceAttributeRequired, s)
  | Some sg =>
      match removableServerClasses s !! class with
      | None => delete_from_largest pos class sg s
      | Some rq =>
          match removalServerLists pos class sg s with
          | Ok lists =>
              let '(podName, serverGroup, rq') :=
                dequeHighestRankedCandidate (pos ++ [3]) lists rq in
              let s := set_removable (<[class := rq']> (removableServerClasses s)) s in
              if bool_decide (podName ≠ "") then
                match removePodFromServerGroup class serverGroup podName s with
                | (Ok _, s) => (Ok podName, s)
                | (Err e, s) => (Err e, s)
                | (Panic, s) => (Panic, s)
                end
              else delete_from_largest pos class sg s
          | Err e => (Err e, s)
          | Panic => (Panic, s)
          end
      end
  end.

(** Try [del] in the lists of the given groups until one succeeds. *)
Fixpoint upgrade_loop (name : string) (groups : list string) (sg : serverGroups) :
    result (option serverGroups) :=
  match groups with
  | [] => Ok None
  | serverGroup :: groups' =>
      match getGroup serverGroup sg with
      | None => Panic
      | Some l =>
          match serverList_del name l with
          | Ok l' => Ok (Some (setGroup serverGroup l' sg))
          | _ => upgrade_loop name groups' sg
          end
      end
  end.

(** [upgrade_loop] in one map of classes. *)
Definition upgrade_in (pos : list nat) (class name : string) (m : serverClassGroupMap) :
    result (option serverClassGroupMap) :=
  match m !! class with
  | None => Ok None
  | Some sg =>
      r ← upgrade_loop name (range pos (getMap sg)).*1 sg;
      Ok (match r with Some sg' => Some (<[class := sg']> m) | None => None end)
  end.

Definition stripe_Upgrade (pos : list nat) (class name : string) : M stripeSchedulerImpl () := λ s,
  match upgrade_in (pos ++ [0]) class name (serverClasses s) with
  | Ok (Some m) => (Ok tt, set_serverClasses m s)
  | Ok None =>
      match upgrade_in (pos ++ [1]) class name (unschedulableServerClasses s) with
      | Ok (Some m) => (Ok tt, set_unschedulable m s)
      | Ok None => (Err ErrResourceAttributeRequired, s)
      | Err e => (Err e, s)
      | Panic => (Panic, s)
      end
  | Err e => (Err e, s)
  | Panic => (Panic, s)
  end.

Definition stripe_EnQueueRemovals (class : string) (names : list string) :
    M stripeSchedulerImpl () := λ s,
  let q := match removableServerClasses s !! class with
           | None => NewServerRemovalPriorityQueue
           | Some q => q
           end in
  (Ok tt, set_removable (<[class := enqueueAll names q]> (removableServerClasses s)) s).

Definition stripe_AvoidGroups (groups : list string) : M stripeSchedulerImpl () := λ s,
  (Ok tt, set_avoidGroups (fold_left (λ m group, <[group := true]> m) groups (avoidGroups s)) s).
End operations.
