(* ===== verification/Pods.v ===== *)
(** * pkg/util/k8sutil/pod_util.go: the marks on pods

    The conditions and annotations by which the operator remembers, across
    reconcile cycles, which pods wait for initialisation, for external DNS or for
    their ejection. The Kubernetes API, the informer cache and the Couchbase REST
    API are the class [Platform]. *)

From S2P Require Import Prelude Effects GoLib Api Member Persistence NodeStatus UpgradeOrder.
Local Open Scope Z_scope.

(** ** Pods *)

(** Times are nanoseconds since the epoch; [zero_time] is [metav1.Time{}]. *)
Definition zero_time : Z := - 62135596800 * 10 ^ 9.

Record PodCondition := mkCondition {
  pc_Type : string;
  pc_Status : string;
  pc_Message : string;
  pc_LastTransitionTime : Z;
}.
#[export] Instance PodCondition_eq_dec : EqDecision PodCondition.
Proof. solve_decision. Defined.

Record KPod := mkKPod {
  kp_Name : string;
  kp_Namespace : string;
  kp_Labels : gmap string string;
  kp_Annotations : gmap string string;
  kp_OwnerReferences : list string;           (* the UIDs *)
  kp_Containers : list (string * string);     (* name and image *)
  kp_ContainerStatuses : list (string * bool); (* name and readiness *)
  kp_Conditions : list PodCondition;
  kp_Terminating : bool;                      (* has a deletion timestamp *)
  kp_CreationTimestamp : Z;
  kp_NodeName : string;
  kp_NodeSelector : option (gmap string string);
  kp_Phase : string;
}.

(** The specification of a claim: quantities by resource, in the smallest unit (a nil
    map is [None]), the access modes, and the other fields, which are only compared. *)
Record PVCSpec := mkPVCSpec {
  Requests : option (gmap string Z);
  Limits : option (gmap string Z);
  AccessModes : list string;
  spec_rest : string;
}.
#[export] Instance PVCSpec_eq_dec : EqDecision PVCSpec.
Proof. solve_decision. Defined.

(** A persistent volume claim; a nil map of annotations is [None]. *)
Record PVC := mkPVC {
  pvc_Name : string;
  pvc_Labels : gmap string string;
  pvc_Annotations : option (gmap string string);
  pvc_Phase : string;
  pvc_Terminating : bool;                     (* has a deletion timestamp *)
  pvc_Spec : PVCSpec;
  pvc_Capacity : gmap string Z;               (* of its status *)
  pvc_Conditions : list PodCondition;
}.

Definition with_annotations (pvc : PVC) (a : gmap string string) : PVC :=
  mkPVC (pvc_Name pvc) (pvc_Labels pvc) (Some a) (pvc_Phase pvc) (pvc_Terminating pvc) (pvc_Spec pvc)
    (pvc_Capacity pvc) (pvc_Conditions pvc).

(** What [/pools] says of a node; the UUID is empty unless the node has one. *)
Record PoolsInfo := mkPoolsInfo { Enterprise : bool; pools_Version : string; GetUUID : string }.

(** What [/pools/default/terseClusterInfo] says of the cluster. *)
Record TerseClusterInfo := mkTerseInfo { Orchestrator : string; ClusterCompatVersion : string }.

Definition with_conditions (pod : KPod) (conditions : list PodCondition) : KPod :=
  mkKPod (kp_Name pod) (kp_Namespace pod) (kp_Labels pod) (kp_Annotations pod)
    (kp_OwnerReferences pod) (kp_Containers pod) (kp_ContainerStatuses pod) conditions
    (kp_Terminating pod) (kp_CreationTimestamp pod) (kp_NodeName pod) (kp_NodeSelector pod) (kp_Phase pod).

Definition PodReadinessCondition : string := "pod.couchbase.com/readiness".
Definition PodPendingExternalDNSCondition : string := "pod.couchbase.com/pending-external-dns".
Definition PodPendingInitializationCondition : string := "pod.couchbase.com/pending-initialization".
Definition PodPendingUpgradeBeforeEjectionCondition : string :=
  "pod.couchbase.com/pending-upgrade-before-ejection".
Definition PodPendingEjectionCondition : string := "pod.couchbase.com/pending-ejection".
Definition UpgradeTrackingAnnotation : string := "operator.couchbase.com/upgrade-tracking".
Definition LabelCluster : string := "couchbase_cluster".
Definition CouchbaseVersionAnnotationKey : string := "server.couchbase.com/version".
Definition CouchbaseHostnameAnnotation : string := "server.couchbase.com/hostname".
Definition PodTLSAnnotation : string := "pod.couchbase.com/tls".

Definition GetPodCondition (pod : KPod) (conditionType : string) : option PodCondition :=
  find (λ condition, bool_decide (pc_Type condition = conditionType)) (kp_Conditions pod).

Definition condition_true (pod : KPod) (conditionType : string) : bool :=
  match GetPodCondition pod conditionType with
  | Some condition => bool_decide (pc_Status condition = "True")
  | None => false
  end.

Definition HasPendingInitializationCondition pod := condition_true pod PodPendingInitializationCondition.
Definition IsPendingDNSMember pod := condition_true pod PodPendingExternalDNSCondition.
Definition IsPodPendingUpgradeBeforeEjection pod :=
  condition_true pod PodPendingUpgradeBeforeEjectionCondition.
Definition IsPodPendingEjection pod := condition_true pod PodPendingEjectionCondition.
Definition IsPodPendingAnyEjection pod :=
  IsPodPendingUpgradeBeforeEjection pod || IsPodPendingEjection pod.

Definition GetPodUpgradeTracking (pod : KPod) : string :=
  default "" (kp_Annotations pod !! UpgradeTrackingAnnotation).

Definition GetPendingTransitionTime (pod : KPod) : Z :=
  match GetPodCondition pod PodPendingExternalDNSCondition with
  | Some condition => pc_LastTransitionTime condition
  | None => zero_time
  end.

(** ** The platform *)

(** Who a Couchbase request is sent to: any of the members, or a URL. *)
Inductive Target := ToMembers (ms : MemberSet) | ToURL (url : string).

Class Platform (W : Type) := {
  (* the informer cache and the clock *)
  Pods_Get : W → string → option KPod;
  Pods_List : W → list KPod;
  PVCs_List : W → list PVC;
  Backups_Get : W → string → bool;   (* a backup of the name exists *)
  time_now : W → Z;
  time_Format : Z → string;          (* RFC 3339, in the local zone *)
  (* the Kubernetes API *)
  api_GetPod : string → M W KPod;
  api_PatchConditions : string → list PodCondition → M W ();
  cache_Update : KPod → M W ();
  (* the object the cache shares with its readers, changed in place *)
  cache_SetPod : KPod → W → W;
  cache_SetPVC : PVC → W → W;
  api_UpdatePod : KPod → M W ();
  api_DeletePod : string → M W ();
  api_WaitForDeletePod : string → M W ();
  createPod : Member → ServerConfig → M W ();   (* its claims and the pod, waiting to be initialised *)
  api_DeleteCouchbasePod : string → bool → M W ();
  api_UpdatePVC : PVC → M W ();
  api_GetCluster : M W (string * ClusterStatus);   (* the UID and the stored status *)
  api_UpdateStatus : ClusterStatus → M W ();
  api_PatchStatus : ClusterStatus → M W ();
  (* retries: how often the ticker fires and what happens meanwhile *)
  retry_ticks : W → nat;
  retry_tick : W → W;
  (* how often a rebalance is polled until it is over, four seconds apart *)
  watch_polls : W → nat;
  watch_tick : W → W;
  (* Couchbase *)
  cb_GetPoolsDefault : Target → M W ClusterInfo;
  cb_GetPools : Target → M W PoolsInfo;
  cb_GetTerseClusterInfo : Target → M W TerseClusterInfo;
  cb_ListTasks : Target → M W (list Task);
  cb_Rebalance : list string → list string → Target → M W ();
  cb_StopRebalance : Target → M W ();
  cb_Failover : list string → bool → Target → M W ();
  cb_AddNode : string → list string → Target → M W ();
  cb_CancelAddNode : string → Target → M W ();
  cb_SetRecoveryType : string → string → Target → M W ();
}.

(** [retryutil.RetryFor]. *)
Definition retry_for `{Platform W} {A} (callback : M W A) : M W A := λ w,
  Retry (retry_ticks w) retry_tick callback w.

(** ** Writing the marks *)
Section marks.
Context `{Platform W}.

Definition patchConditions (pod : KPod) (conditions : list PodCondition) : M W () :=
  retry_for (api_PatchConditions (kp_Name pod) conditions);;
  cache_Update (with_conditions pod conditions).

(** The loop of [UpsertPodCondition] over the current conditions. *)
Fixpoint upsert_condition (condition : PodCondition) (l : list PodCondition) : list PodCondition :=
  match l with
  | [] => [condition]
  | existingCondition :: l =>
      if bool_decide (pc_Type existingCondition = pc_Type condition) then
        (if bool_decide (pc_Status existingCondition = pc_Status condition)
         then mkCondition (pc_Type condition) (pc_Status condition) (pc_Message condition)
                (pc_LastTransitionTime existingCondition)
         else condition) :: l
      else existingCondition :: upsert_condition condition l
  end.

Definition UpsertPodCondition (pod : KPod) (condition : PodCondition) : M W () :=
  currentPod ← api_GetPod (kp_Name pod);
  patchConditions pod (upsert_condition condition (kp_Conditions currentPod)).

Definition RemovePodCondition (pod : KPod) (conditionType : string) : M W () :=
  currentPod ← api_GetPod (kp_Name pod);
  let currentConditions := kp_Conditions currentPod in
  let filteredConditions := filter (λ c, pc_Type c ≠ conditionType) currentConditions in
  if bool_decide (length filteredConditions = length currentConditions) then mret tt
  else patchConditions pod filteredConditions.

Definition NewPodCondition (conditionType status message : string) : M W PodCondition :=
  now ← gets time_now; mret (mkCondition conditionType status message now).

Definition mark_pod (conditionType message name : string) : M W () :=
  w ← get;
  match Pods_Get w name with
  | None => throw ErrResourceRequired
  | Some pod =>
      condition ← NewPodCondition conditionType "True" message;
      UpsertPodCondition pod condition
  end.

Definition SetPodPendingUpgradeBeforeEjection : string → M W () :=
  mark_pod PodPendingUpgradeBeforeEjectionCondition "Pod marked for ejection during swap-rebalance upgrade".
Definition SetPodPendingEjection : string → M W () :=
  mark_pod PodPendingEjectionCondition "Pod marked for ejection during scale down".

Definition clear_mark (conditionType name : string) : M W () :=
  w ← get;
  match Pods_Get w name with
  | None => mret tt
  | Some pod => RemovePodCondition pod conditionType
  end.

Definition ClearPodPendingUpgradeBeforeEjection : string → M W () :=
  clear_mark PodPendingUpgradeBeforeEjectionCondition.
Definition ClearPodPendingEjection : string → M W () := clear_mark PodPendingEjectionCondition.

Definition PodInitializedAnnotation : string := "pod.couchbase.com/initialized".

Definition set_initialized (pod : KPod) : KPod :=
  mkKPod (kp_Name pod) (kp_Namespace pod) (kp_Labels pod)
    (<[PodInitializedAnnotation := "true"]> (kp_Annotations pod))
    (kp_OwnerReferences pod) (kp_Containers pod) (kp_ContainerStatuses pod) (kp_Conditions pod)
    (kp_Terminating pod) (kp_CreationTimestamp pod) (kp_NodeName pod) (kp_NodeSelector pod) (kp_Phase pod).

Definition SetPodInitialized (name : string) : M W () := retry_for (
  w ← get;
  match Pods_Get w name with
  | None => throw ErrResourceRequired
  | Some pod => modify (cache_SetPod (set_initialized pod));; api_UpdatePod (set_initialized pod)
  end).

(** [IsPodMainContainerReady]: the state of the first container of the name. *)
Definition IsPodMainContainerReady (pod : KPod) : bool :=
  match list_find (λ s, s.1 = CouchbaseContainerName) (kp_ContainerStatuses pod) with
  | Some (_, s) => s.2
  | None => false
  end.

Definition FlagPodUnready (name : string) : M W () :=
  w ← get;
  match Pods_Get w name with
  | None => mret tt
  | Some pod =>
      readinessCondition ← NewPodCondition PodReadinessCondition "False" "";
      UpsertPodCondition pod readinessCondition
  end.
End marks.

(** ** Members from pods *)
Definition pod_image (pod : KPod) : string :=
  extractCouchbaseImage (mkServerPod (kp_Containers pod) (kp_Annotations pod) None).

Definition pod_member (pod : KPod) : Member :=
  let cluster := default "" (kp_Labels pod !! LabelCluster) in
  let config := default "" (kp_Labels pod !! LabelNodeConf) in
  let version := default "" (kp_Annotations pod !! CouchbaseVersionAnnotationKey) in
  let secure := bool_decide (is_Some (kp_Annotations pod !! PodTLSAnnotation)) in
  let hostname := default "" (kp_Annotations pod !! CouchbaseHostnameAnnotation) in
  let image := pod_image pod in
  let m := NewMember (kp_Namespace pod) cluster (kp_Name pod) version config secure image in
  if bool_decide (hostname ≠ "") && bool_decide (hostname ≠ GetDNSName m)
  then NewExtConnectedMember (kp_Namespace pod) cluster (kp_Name pod) version config secure hostname image
  else m.

Definition podsToMemberSet (pods : list KPod) : MemberSet := add_all (pod_member <$> pods) ∅.

Definition discardUntrustedPods (uid : string) (pods : list KPod) : list KPod :=
  filter (λ pod, match kp_OwnerReferences pod with
                 | [] => false
                 | owner :: _ => bool_decide (owner = uid)
                 end = true) pods.
