(* ===== verification/Volumes.v ===== *)
(** * pkg/util/k8sutil/pod_util.go, pkg/cluster/pod.go: the volumes of a member

    The persistent volume claims of the members: which paths a class persists,
    which claim holds a path, whether a member can be recovered from its volumes,
    and the count of the attempts to do so. *)

From Stdlib Require Import Ascii.
From S2P Require Import Prelude Effects GoLib Regex Digests Version Api Member Persistence.
From S2P Require Import ServerGroups UpgradeOrder StripeScheduler NodeStatus Pods.
Local Open Scope Z_scope.

Definition CouchbaseVolumeMountLogsDir : string := "/opt/couchbase/var/lib/couchbase/logs".
Definition couchbaseVolumeDefaultConfigDir : string := "/opt/couchbase/var/lib/couchbase".
Definition CouchbaseVolumeMountDataDir : string := "/mnt/data".
Definition CouchbaseVolumeMountIndexDir : string := "/mnt/index".
Definition LabelNode : string := "couchbase_node".
Definition LocalStorageAnnotation : string := "storage.couchbase.com/local".
Definition AnnotationVolumeMountPath : string := "path".
Definition AnnotationVolumeMountSubPaths : string := "subpaths".
Definition AnnotationServerGroup : string := "pvc.couchbase.com/serverGroup".
Definition AnnotationAvailabilityZone : string := "pvc.couchbase.com/availabilityZone".
Definition PodRecoveryAttemptsAnnotation : string := "pvc.couchbase.com/recovery-attempts".
Definition ClaimBound : string := "Bound".

Definition annotations (pvc : PVC) : gmap string string := default ∅ (pvc_Annotations pvc).
Definition annotation (pvc : PVC) (key : string) : string := default "" (annotations pvc !! key).

(** ** The paths a class persists *)
Record volumeMount := mkVolumeMount {
  vm_name : string;
  persistentVolumeClaimTemplateName : string;
  mountPath : string;
  persistentVolumeClaimName : string;
  subPath : string;
}.

(** [fmt.Sprintf("%02d", n)] of a number that is not negative. *)
Definition fmt_02d (n : Z) : string :=
  let digits := pretty (Z.to_N n) in zeros (2 - String.length digits) +:+ digits.

Definition NameForPersistentVolumeClaim (memberName : string) (index : Z) (mountName : string) : string :=
  memberName +:+ "-" +:+ mountName +:+ "-" +:+ fmt_02d index.

Definition pathForVolumeMountName (id : string) : string :=
  if bool_decide (id = "default") then couchbaseVolumeDefaultConfigDir
  else if bool_decide (id = "data") then CouchbaseVolumeMountDataDir
  else if bool_decide (id = "index") then CouchbaseVolumeMountIndexDir
  else if bool_decide (id = "logs") then CouchbaseVolumeMountLogsDir
  else if strings_Contains id "analytics" then "/mnt/" +:+ id
  else "".

Definition newVolumeMount (member : Member) (name template : string) : volumeMount :=
  mkVolumeMount name template (pathForVolumeMountName name)
    (NameForPersistentVolumeClaim (Name member) 0 name) "".

Definition mount_leb (a b : volumeMount) : bool := String.leb (vm_name a) (vm_name b).

Definition analytics_mount (index : nat) : string := "analytics-" +:+ fmt_02d (Z.of_nat index).

Definition getPathsToPersist (member : Member) (mounts : VolumeMounts) : result (list volumeMount) :=
  let analyticsClaims := default [] (AnalyticsClaims mounts) in
  let hasSecondaryMounts := bool_decide (DataClaim mounts ≠ "") || bool_decide (IndexClaim mounts ≠ "")
                            || bool_decide (is_Some (AnalyticsClaims mounts)) in
  if bool_decide (DefaultClaim mounts = "") && hasSecondaryMounts then Err ErrConfigurationInvalid
  else if bool_decide (LogsClaim mounts ≠ "") then
    if bool_decide (DefaultClaim mounts ≠ "") || hasSecondaryMounts then Err ErrConfigurationInvalid
    else Ok [newVolumeMount member "logs" (LogsClaim mounts)]
  else
    Ok (stable_sort mount_leb
      ([newVolumeMount member "default" (DefaultClaim mounts)] ++
       (if bool_decide (DataClaim mounts ≠ "") then [newVolumeMount member "data" (DataClaim mounts)] else []) ++
       (if bool_decide (IndexClaim mounts ≠ "") then [newVolumeMount member "index" (IndexClaim mounts)] else []) ++
       imap (λ index template, newVolumeMount member (analytics_mount index) template) analyticsClaims)).

(** [SnapshotMountPaths] *)
Definition SnapshotMountPaths (mounts : option VolumeMounts) : list string :=
  match mounts with
  | None => []
  | Some mounts =>
      if bool_decide (DefaultClaim mounts = "") then []
      else [pathForVolumeMountName "default"] ++
        (if bool_decide (DataClaim mounts ≠ "") then [pathForVolumeMountName "data"] else []) ++
        (if bool_decide (IndexClaim mounts ≠ "") then [pathForVolumeMountName "index"] else []) ++
        imap (λ index _, pathForVolumeMountName (analytics_mount index)) (default [] (AnalyticsClaims mounts))
  end.

(** ** The claims of a member *)
Definition pvc_of (memberName : string) (pvc : PVC) : bool :=
  bool_decide (pvc_Labels pvc !! LabelNode = Some memberName).

Definition listMemberPVCS (pvcs : list PVC) (memberName : string) : list PVC :=
  filter (λ pvc, pvc_of memberName pvc = true) pvcs.

(** The loop stops at a claim without any annotations. *)
Fixpoint MemberHasLogVolumes_loop (l : list PVC) : bool :=
  match l with
  | [] => false
  | pvc :: l =>
      match pvc_Annotations pvc with
      | None => false
      | Some a =>
          if bool_decide (a !! AnnotationVolumeMountPath = Some CouchbaseVolumeMountLogsDir) then true
          else MemberHasLogVolumes_loop l
      end
  end.

Definition MemberHasLogVolumes (pvcs : list PVC) (name : string) : bool :=
  MemberHasLogVolumes_loop (listMemberPVCS pvcs name).

Definition isPathPersisted (pvc : PVC) (path : string) : bool :=
  bool_decide (annotations pvc !! AnnotationVolumeMountPath = Some path) ||
  match annotations pvc !! AnnotationVolumeMountSubPaths with
  | Some annotationSubPaths => bool_decide (path ∈ strings_Split annotationSubPaths ","%char)
  | None => false
  end.

Fixpoint findMemberPVC_loop (l : list PVC) (path : string) : result PVC :=
  match l with
  | [] => Err ErrResourceRequired
  | pvc :: l =>
      if isPathPersisted pvc path
      then if bool_decide (pvc_Phase pvc = ClaimBound) then Ok pvc else Err ErrKubernetesError
      else findMemberPVC_loop l path
  end.

Definition findMemberPVC (pvcs : list PVC) (memberName path : string) : result PVC :=
  findMemberPVC_loop (listMemberPVCS pvcs memberName) path.

Definition pvcServerGroup (pvc : PVC) : string :=
  match annotations pvc !! AnnotationServerGroup with
  | Some group => group
  | None => annotation pvc ServerGroupLabel_const
  end.

Definition pvcAvailabilityZone (pvc : PVC) : string :=
  match annotations pvc !! AnnotationAvailabilityZone with
  | Some az => az
  | None => annotation pvc ServerGroupLabel_const
  end.

Definition isLPV (pvc : PVC) : bool := bool_decide (is_Some (annotations pvc !! LocalStorageAnnotation)).

(** ** Can a member be recovered? *)
Section recoverable.
Context `{Environment} (learned : gmap string string).

(** One claim of [CheckIfPodIsRecoverable]: its version (or else that it is not
    local), then where it lives. *)
Definition check_claim_version (targetVersion : option Version) (checkForLPV : bool) (pvc : PVC) : result () :=
  let version := annotation pvc CouchbaseVersionAnnotationKey in
  match targetVersion with
  | Some target =>
      if VersionKnown version then
        pvcServerVersion ← NewVersion learned version;
        if Less target pvcServerVersion then Err ErrInvalidVersion else Ok tt
      else if checkForLPV && isLPV pvc then Err ErrResourceAttributeRequired else Ok tt
  | None => if checkForLPV && isLPV pvc then Err ErrResourceAttributeRequired else Ok tt
  end.

Definition check_claim_place (restrictedServerGroups : list string) (restrictedZone : string) (pvc : PVC) :
    result () :=
  if bool_decide (restrictedZone ≠ "") then
    let pvcZone := pvcAvailabilityZone pvc in
    if bool_decide (pvcZone = "") then Err ErrResourceAttributeRequired
    else if bool_decide (pvcZone ≠ restrictedZone) then Err ErrResourceAttributeRequired else Ok tt
  else
    let pvcGroup := pvcServerGroup pvc in
    if bool_decide (0 < length restrictedServerGroups)%nat && bool_decide (pvcGroup ≠ "") &&
       negb (bool_decide (pvcGroup ∈ restrictedServerGroups))
    then Err ErrResourceAttributeRequired else Ok tt.

Fixpoint check_mounts (pvcs : list PVC) (memberName : string) (targetVersion : option Version)
    (checkForLPV : bool) (groups : list string) (zone : string) (l : list volumeMount) : result () :=
  match l with
  | [] => Ok tt
  | mountMapping :: l =>
      pvc ← findMemberPVC pvcs memberName (mountPath mountMapping);
      check_claim_version targetVersion checkForLPV pvc;;
      check_claim_place groups zone pvc;;
      check_mounts pvcs memberName targetVersion checkForLPV groups zone l
  end.

Definition CheckIfPodIsRecoverable (pvcs : list PVC) (config : ServerConfig) (member : Member)
    (targetVersion : option Version) (checkForLPV : bool) (restrictedServerGroups : list string)
    (restrictedZone : string) : result () :=
  match GetVolumeMounts (Some config) with
  | None => Err ErrNoVolumeMounts
  | Some mounts =>
      if LogsOnly mounts then Err ErrNoVolumeMounts
      else if bool_decide (DefaultClaim mounts = "") then Err ErrResourceAttributeRequired
      else
        mountMappings ← getPathsToPersist member mounts;
        check_mounts pvcs (Name member) targetVersion checkForLPV restrictedServerGroups restrictedZone mountMappings
  end.

Definition getRestrictedZoneForConfig (cc : CouchbaseCluster) (config : ServerConfig) : string :=
  if bool_decide (ServerGroupLabel cc = ServerGroupLabel_const) then ""
  else match sc_NodeSelector config with
       | Some selector => default "" (selector !! ServerGroupLabel_const)
       | None => ""
       end.

Definition getRestrictedServerGroupsForConfig (cc : CouchbaseCluster) (config : ServerConfig) : list string :=
  let restrictedGroups := match GetServerGroupsForClass cc config with Ok groups => groups | _ => [] end in
  match restrictedGroups, sc_NodeSelector config with
  | [], Some selector =>
      match selector !! ServerGroupLabel cc with Some group => [group] | None => [] end
  | _, _ => restrictedGroups
  end.

(** [checkPodRecoverability]: the error, if any, is what the callers log. *)
Definition checkPodRecoverability (cc : CouchbaseCluster) (pvcs : list PVC) (m : Member)
    (checkReschedulability : bool) : result bool :=
  match GetServerConfigByName (Spec cc) (Config m) with
  | None => Ok false
  | Some config =>
      targetVersion ← CouchbaseImageVersion learned (ServerClassCouchbaseImage (Spec cc) (Some config));
      targetSemVersion ← NewVersion learned targetVersion;
      CheckIfPodIsRecoverable pvcs config m (Some targetSemVersion) checkReschedulability
        (getRestrictedServerGroupsForConfig cc config) (getRestrictedZoneForConfig cc config);;
      Ok true
  end.

Definition is_true_result (r : result bool) : bool := match r with Ok b => b | _ => false end.

Definition isPodRecoverable (cc : CouchbaseCluster) (pvcs : list PVC) (m : Member) : bool :=
  is_true_result (checkPodRecoverability cc pvcs m false).
Definition isPodReschedulable (cc : CouchbaseCluster) (pvcs : list PVC) (m : Member) : bool :=
  is_true_result (checkPodRecoverability cc pvcs m true).

Definition verifyMemberVolumes (cc : CouchbaseCluster) (pvcs : list PVC) (m : Member) : result () :=
  match GetServerConfigByName (Spec cc) (Config m) with
  | None => Ok tt
  | Some config =>
      targetVersion ← CouchbaseImageVersion learned (ServerClassCouchbaseImage (Spec cc) (Some config));
      targetSemVersion ← NewVersion learned targetVersion;
      match CheckIfPodIsRecoverable pvcs config m (Some targetSemVersion) false [] "" with
      | Err ErrNoVolumeMounts => Ok tt
      | r => r
      end
  end.
End recoverable.

(** ** Attempts at recovery *)
Definition parse_attempts (pvc : PVC) : Z :=
  match annotations pvc !! PodRecoveryAttemptsAnnotation with
  | Some attemptsStr => match Atoi attemptsStr with Ok attempts => attempts | _ => 0 end
  | None => 0
  end.

Definition getRecoveryAttempts (pvcs : list PVC) (memberName : string) : Z :=
  fold_left (λ maxAttempts pvc, Z.max maxAttempts (parse_attempts pvc)) (listMemberPVCS pvcs memberName) 0.

Definition hasExceededRecoveryMaxRetries (maxRetries : Z) (pvcs : list PVC) (memberName : string) : bool :=
  if bool_decide (maxRetries = 0) then false
  else bool_decide (maxRetries ≤ getRecoveryAttempts pvcs memberName).

Section attempts.
Context `{Platform W}.

(** The claims in the cache are changed in place, whether or not the update succeeds. *)
Definition update_shared (pvc : PVC) : M W () := modify (cache_SetPVC pvc);; api_UpdatePVC pvc.

Definition incrementRecoveryAttempts (memberName : string) : M W () :=
  w ← get;
  for_each (λ pvc, update_shared (with_annotations pvc
      (<[PodRecoveryAttemptsAnnotation := strconv_Itoa (wrap64 (parse_attempts pvc + 1))]> (annotations pvc))))
    (listMemberPVCS (PVCs_List w) memberName).

Definition resetRecoveryAttempts (memberName : string) : M W () :=
  w ← get;
  for_each (λ pvc, match annotations pvc !! PodRecoveryAttemptsAnnotation with
      | None => mret tt
      | Some _ => update_shared (with_annotations pvc (delete PodRecoveryAttemptsAnnotation (annotations pvc)))
      end)
    (listMemberPVCS (PVCs_List w) memberName).
End attempts.
