(* ===== verification/VolumesSpec.v ===== *)
(** * The volumes of a member: distinct paths, and what recovery takes *)

From Stdlib Require Import Ascii.
From S2P Require Import Prelude Effects GoLib Regex Digests Version Api Member Persistence.
From S2P Require Import ServerGroups UpgradeOrder StripeScheduler NodeStatus Pods Volumes.
Local Open Scope Z_scope.

(** ** Paths *)
Lemma fmt_02d_inj a b : 0 ≤ a → 0 ≤ b → fmt_02d a = fmt_02d b → a = b.
Proof.
  intros Ha Hb Heq. apply (f_equal (parse_digits 0)) in Heq. unfold fmt_02d in Heq.
  rewrite !parse_digits_zeros, !parse_digits_pretty in Heq. injection Heq. lia.
Qed.

Lemma analytics_path index :
  pathForVolumeMountName (analytics_mount index) = "/mnt/analytics-" +:+ fmt_02d (Z.of_nat index).
Proof.
  unfold pathForVolumeMountName, analytics_mount. rewrite !bool_decide_eq_false_2 by done.
  reflexivity.
Qed.

(** The paths of the mounts are those a snapshot is told of. *)
Lemma getPathsToPersist_paths member mounts l :
  getPathsToPersist member mounts = Ok l → LogsClaim mounts = "" → DefaultClaim mounts ≠ "" →
  mountPath <$> l ≡ₚ SnapshotMountPaths (Some mounts).
Proof.
  intros Hl Hlogs Hdef. unfold getPathsToPersist in Hl.
  rewrite (bool_decide_eq_false_2 (DefaultClaim mounts = "")) in Hl by done. cbn [andb] in Hl.
  rewrite (bool_decide_eq_false_2 (LogsClaim mounts ≠ "")) in Hl by (intros Hn; by apply Hn).
  match type of Hl with Ok ?x = _ => assert (l = x) as -> by congruence end.
  clear Hl. etrans; [apply fmap_Permutation, stable_sort_perm|]. unfold SnapshotMountPaths.
  rewrite (bool_decide_eq_false_2 (DefaultClaim mounts = "")) by done.
  rewrite !fmap_app, fmap_imap. apply reflexive_eq. f_equal.
  f_equal; [by case_bool_decide|].
  f_equal. by case_bool_decide.
Qed.

Lemma getPathsToPersist_ok member mounts :
  LogsClaim mounts = "" → DefaultClaim mounts ≠ "" → ∃ l, getPathsToPersist member mounts = Ok l.
Proof.
  intros Hlogs Hdef. unfold getPathsToPersist.
  rewrite (bool_decide_eq_false_2 (DefaultClaim mounts = "")) by done. cbn [andb].
  rewrite (bool_decide_eq_false_2 (LogsClaim mounts ≠ "")) by (intros Hn; by apply Hn). by eexists.
Qed.

Lemma getPathsToPersist_sorted member mounts l :
  getPathsToPersist member mounts = Ok l → StronglySorted (leb_rel mount_leb) l.
Proof.
  assert (∀ ms : list volumeMount, StronglySorted (leb_rel mount_leb) (stable_sort mount_leb ms)) as Hsort.
  { intros ms. apply stable_sort_sorted; unfold mount_leb.
    - intros x y. apply string_leb_total.
    - intros x y z. apply string_leb_trans. }
  unfold getPathsToPersist. case_match; [done|]. case_match.
  2: { intros Hl. match type of Hl with Ok ?x = _ => assert (l = x) as -> by congruence end. apply Hsort. }
  case_match; [done|]. intros Hl. injection Hl as <-. apply SSorted_cons; [apply SSorted_nil|apply Forall_nil_2].
Qed.

(** No two volumes of a member are mounted at the same path. *)
Lemma SnapshotMountPaths_NoDup mounts : NoDup (SnapshotMountPaths mounts).
Proof.
  destruct mounts as [mounts|]; [|constructor]. unfold SnapshotMountPaths.
  case_bool_decide; [constructor|].
  assert (∀ p i, pathForVolumeMountName (analytics_mount i) = p →
    p ∉ [couchbaseVolumeDefaultConfigDir; CouchbaseVolumeMountDataDir; CouchbaseVolumeMountIndexDir]) as Hne.
  { intros p i <-. rewrite analytics_path. rewrite !not_elem_of_cons. split_and!; [done..|apply not_elem_of_nil]. }
  assert (NoDup (imap (λ index (_ : string), pathForVolumeMountName (analytics_mount index))
    (default [] (AnalyticsClaims mounts)))) as Hana.
  { generalize (default [] (AnalyticsClaims mounts)). intros l. apply NoDup_alt. intros i j p Hi Hj.
    rewrite list_lookup_imap in Hi, Hj.
    apply fmap_Some in Hi as (?&_&->). apply fmap_Some in Hj as (?&_&Hj).
    rewrite !analytics_path in Hj. injection Hj as Hj. apply fmt_02d_inj in Hj; lia. }
  assert (∀ p, p ∈ imap (λ index (_ : string), pathForVolumeMountName (analytics_mount index))
    (default [] (AnalyticsClaims mounts)) → ∃ i, pathForVolumeMountName (analytics_mount i) = p) as Hin.
  { intros p Hp. apply elem_of_lookup_imap in Hp as (i&x&->&_). by exists i. }
  change (pathForVolumeMountName "default") with couchbaseVolumeDefaultConfigDir.
  change (pathForVolumeMountName "data") with CouchbaseVolumeMountDataDir.
  change (pathForVolumeMountName "index") with CouchbaseVolumeMountIndexDir.
  apply NoDup_app. split; [apply NoDup_singleton|]. split.
  - intros p ->%list_elem_of_singleton Hp. repeat (apply elem_of_app in Hp as [Hp|Hp]).
    + case_bool_decide; [by apply list_elem_of_singleton in Hp|by apply not_elem_of_nil in Hp].
    + case_bool_decide; [by apply list_elem_of_singleton in Hp|by apply not_elem_of_nil in Hp].
    + apply Hin in Hp as [i Hp]. apply Hne in Hp. apply Hp. by left.
  - apply NoDup_app. split; [case_bool_decide; [apply NoDup_singleton|constructor]|]. split.
    + intros p Hp. case_bool_decide; [|by apply not_elem_of_nil in Hp]. apply list_elem_of_singleton in Hp as ->.
      intros Hp. apply elem_of_app in Hp as [Hp|Hp].
      * case_bool_decide; [by apply list_elem_of_singleton in Hp|by apply not_elem_of_nil in Hp].
      * apply Hin in Hp as [i Hp]. apply Hne in Hp. apply Hp. right. by left.
    + apply NoDup_app. split; [case_bool_decide; [apply NoDup_singleton|constructor]|]. split; [|done].
      intros p Hp. case_bool_decide; [|by apply not_elem_of_nil in Hp]. apply list_elem_of_singleton in Hp as ->.
      intros Hp. apply Hin in Hp as [i Hp]. apply Hne in Hp. apply Hp. right. right. by left.
Qed.

(** ** Recoverable members *)

(** The claim that holds a path: the first of the member's that persists it. *)
Definition first_claim (pvcs : list PVC) (memberName path : string) (pvc : PVC) : Prop :=
  ∃ l1 l2, listMemberPVCS pvcs memberName = l1 ++ pvc :: l2 ∧ isPathPersisted pvc path = true ∧
    ∀ q, q ∈ l1 → isPathPersisted q path = false.

Lemma findMemberPVC_spec pvcs memberName path pvc :
  findMemberPVC pvcs memberName path = Ok pvc ↔
  first_claim pvcs memberName path pvc ∧ pvc_Phase pvc = ClaimBound.
Proof.
  unfold findMemberPVC, first_claim. generalize (listMemberPVCS pvcs memberName). intros l.
  induction l as [|q l IH]; simpl.
  { split; [done|]. by intros [(l1&l2&Heq&_) _]; destruct l1. }
  destruct (isPathPersisted q path) eqn:E.
  - case_bool_decide as Hb.
    + split.
      * intros [= ->]. split; [|done]. exists [], l. split; [done|]. split; [done|]. intros x Hx. by apply not_elem_of_nil in Hx.
      * intros [([|x l1]&l2&[= <- Heq]&Hp&Hno) _]; [done|]. by rewrite Hno in E by left.
    + split; [done|]. intros [([|x l1]&l2&[= <- Heq]&Hp&Hno) Hb']; [done|]. by rewrite Hno in E by left.
  - rewrite IH. split; intros [(l1&l2&Heq&Hp&Hno) Hb]; (split; [|done]).
    + exists (q :: l1), l2. split; [by rewrite Heq|]. split; [done|].
      intros x [->|Hx]%elem_of_cons; [done|by apply Hno].
    + destruct l1 as [|x l1]; simplify_eq/=; [congruence|]. exists l1, l2. split; [done|]. split; [done|].
      intros y Hy. apply Hno. by right.
Qed.

Section recoverable.
Context `{Environment} (learned : gmap string string).

(** The version recorded on the claim is not newer than the target; where none is
    recorded the claim is not local, if that matters. *)
Definition version_fits (target : Version) (checkForLPV : bool) (pvc : PVC) : Prop :=
  let version := annotation pvc CouchbaseVersionAnnotationKey in
  if VersionKnown version then ∃ v, NewVersion learned version = Ok v ∧ Less target v = false
  else checkForLPV = true → isLPV pvc = false.

Definition place_fits (groups : list string) (zone : string) (pvc : PVC) : Prop :=
  (zone ≠ "" → pvcAvailabilityZone pvc = zone) ∧
  (zone = "" → groups = [] ∨ pvcServerGroup pvc = "" ∨ pvcServerGroup pvc ∈ groups).

Lemma check_claim_version_spec target lpv pvc :
  check_claim_version learned (Some target) lpv pvc = Ok tt ↔ version_fits target lpv pvc.
Proof.
  unfold check_claim_version, version_fits. destruct (VersionKnown _).
  - destruct (NewVersion learned _) as [v|e|]; cbn; [|split; [done|by intros (?&?&_)]..].
    destruct (Less target v) eqn:E; split; [done| |intros _; by exists v|done].
    intros (v'&[= <-]&?). congruence.
  - destruct lpv, (isLPV pvc); simpl; split; try done; intros Hl; by specialize (Hl eq_refl).
Qed.

Lemma check_claim_place_spec groups zone pvc :
  check_claim_place groups zone pvc = Ok tt ↔ place_fits groups zone pvc.
Proof.
  unfold check_claim_place, place_fits. case_bool_decide as Hz.
  - case_bool_decide as Hp; [split; [done|intros [Hzone _]; by rewrite Hzone in Hp]|].
    case_bool_decide as Hq; [split; [done|intros [Hzone _]; by rewrite Hzone in Hq]|].
    split; [|done]. intros _. split; [done|congruence].
  - destruct groups as [|g groups].
    { simpl. split; [intros _|done]. split; [done|]. intros _. by left. }
    rewrite (bool_decide_eq_true_2 (0 < length _)%nat) by (simpl; lia). cbn [andb].
    case_bool_decide as Hg; cbn [andb].
    + case_bool_decide as Hin; simpl; split; try done.
      * intros _. split; [done|]. intros _. by right; right.
      * intros [_ Hf]. destruct (Hf Hz) as [?|[?|?]]; done.
    + split; [|done]. intros _. split; [done|]. intros _. by right; left.
Qed.

Definition claim_fits (pvcs : list PVC) (memberName : string) (target : Version) (checkForLPV : bool)
    (groups : list string) (zone path : string) : Prop :=
  ∃ pvc, first_claim pvcs memberName path pvc ∧ pvc_Phase pvc = ClaimBound ∧
    version_fits target checkForLPV pvc ∧ place_fits groups zone pvc.

Lemma check_mounts_spec pvcs memberName target lpv groups zone l :
  check_mounts learned pvcs memberName (Some target) lpv groups zone l = Ok tt ↔
  ∀ path, path ∈ mountPath <$> l → claim_fits pvcs memberName target lpv groups zone path.
Proof.
  induction l as [|m l IH]; cbn [check_mounts fmap list_fmap].
  { split; [|done]. intros _ path Hp. by apply not_elem_of_nil in Hp. }
  assert (∀ pvc, first_claim pvcs memberName (mountPath m) pvc ∧ pvc_Phase pvc = ClaimBound →
    (check_claim_version learned (Some target) lpv pvc;; check_claim_place groups zone pvc;;
     check_mounts learned pvcs memberName (Some target) lpv groups zone l) = Ok tt ↔
    version_fits target lpv pvc ∧ place_fits groups zone pvc ∧
    ∀ path, path ∈ mountPath <$> l → claim_fits pvcs memberName target lpv groups zone path) as Hstep.
  { intros pvc _. rewrite <- IH, <- check_claim_version_spec, <- check_claim_place_spec.
    destruct (check_claim_version _ _ _ _) as [[]|e|]; cbn; [|split; [done|by intros [? _]]..].
    destruct (check_claim_place _ _ _) as [[]|e|]; cbn; [|split; [done|by intros (_&?&_)]..].
    split; [done|by intros (_&_&?)]. }
  destruct (findMemberPVC pvcs memberName (mountPath m)) as [pvc|e|] eqn:E.
  - pose proof E as Hf. apply findMemberPVC_spec in Hf. cbn. rewrite (Hstep pvc Hf). split.
    + intros (?&?&Hl) path [->|Hp]%elem_of_cons; [|by apply Hl]. exists pvc. by destruct Hf.
    + intros Hall. destruct (Hall (mountPath m) ltac:(by left)) as (pvc'&Hf'&Hb&Hv&Hp).
      assert (pvc' = pvc) as -> by (apply (conj Hf'), findMemberPVC_spec in Hb; congruence).
      split; [done|]. split; [done|]. intros path Hp'. apply Hall. by right.
  - split; [done|]. intros Hall. destruct (Hall (mountPath m) ltac:(by left)) as (pvc'&Hf'&Hb&_).
    apply (conj Hf'), findMemberPVC_spec in Hb. congruence.
  - split; [done|]. intros Hall. destruct (Hall (mountPath m) ltac:(by left)) as (pvc'&Hf'&Hb&_).
    apply (conj Hf'), findMemberPVC_spec in Hb. congruence.
Qed.

(** *** The error *)

(** Why the claim of a path is refused, and with which error: none of the member's claims
    persists the path, the first that does is not bound, its version is unreadable or
    newer, it is local, or it lives elsewhere; in this order. *)
Definition version_refused (target : Version) (checkForLPV : bool) (pvc : PVC) (e : error) : Prop :=
  let version := annotation pvc CouchbaseVersionAnnotationKey in
  if VersionKnown version
  then e = ErrInvalidVersion ∧ ∀ v, NewVersion learned version = Ok v → Less target v = true
  else e = ErrResourceAttributeRequired ∧ checkForLPV = true ∧ isLPV pvc = true.

Definition claim_refused (pvcs : list PVC) (memberName : string) (target : Version) (checkForLPV : bool)
    (groups : list string) (zone path : string) (e : error) : Prop :=
  (e = ErrResourceRequired ∧ ∀ pvc, pvc ∈ listMemberPVCS pvcs memberName → isPathPersisted pvc path = false) ∨
  ∃ pvc, first_claim pvcs memberName path pvc ∧
    (e = ErrKubernetesError ∧ pvc_Phase pvc ≠ ClaimBound ∨
     pvc_Phase pvc = ClaimBound ∧
       (version_refused target checkForLPV pvc e ∨
        version_fits target checkForLPV pvc ∧ e = ErrResourceAttributeRequired ∧ ¬ place_fits groups zone pvc)).

Lemma findMemberPVC_refused pvcs memberName path e :
  findMemberPVC pvcs memberName path = Err e ↔
  (e = ErrResourceRequired ∧ ∀ pvc, pvc ∈ listMemberPVCS pvcs memberName → isPathPersisted pvc path = false) ∨
  ∃ pvc, first_claim pvcs memberName path pvc ∧ e = ErrKubernetesError ∧ pvc_Phase pvc ≠ ClaimBound.
Proof.
  unfold findMemberPVC, first_claim. generalize (listMemberPVCS pvcs memberName). intros l.
  induction l as [|q l IH]; simpl.
  { split; [intros [= <-]; left; split; [done|]; intros x Hx; by apply not_elem_of_nil in Hx|].
    by intros [[-> _]|(?&(l1&l2&Heq&_)&_)]; [|destruct l1]. }
  destruct (isPathPersisted q path) eqn:E.
  - assert ((∀ pvc, pvc ∈ q :: l → isPathPersisted pvc path = false) → False) as Hno
      by (intros Hall; rewrite Hall in E by left; done).
    assert (∀ pvc, (∃ l1 l2, q :: l = l1 ++ pvc :: l2 ∧ isPathPersisted pvc path = true ∧
      ∀ x, x ∈ l1 → isPathPersisted x path = false) → pvc = q) as Hfirst.
    { intros pvc ([|x l1]&l2&Heq&_&Hl1); simplify_eq/=; [done|]. by rewrite Hl1 in E by left. }
    assert (∃ l1 l2, q :: l = l1 ++ q :: l2 ∧ isPathPersisted q path = true ∧
      ∀ x, x ∈ l1 → isPathPersisted x path = false) as Hq.
    { exists [], l. split; [done|]. split; [done|]. intros x Hx. by apply not_elem_of_nil in Hx. }
    case_bool_decide as Hb; split.
    + done.
    + intros [[_ Hall]|(pvc&Hf&_&Hn)]; [done|]. by rewrite (Hfirst pvc Hf) in Hn.
    + intros [= <-]. right. by exists q.
    + by intros [[_ Hall]|(pvc&Hf&->&_)].
  - rewrite IH. split; (intros [[He Hall]|(pvc&(l1&l2&Heq&Hp&Hno)&He)]; [left; split; [done|]|right; exists pvc; split; [|done]]).
    + intros x [->|Hx]%elem_of_cons; [done|by apply Hall].
    + exists (q :: l1), l2. split; [by rewrite Heq|]. split; [done|].
      intros x [->|Hx]%elem_of_cons; [done|by apply Hno].
    + intros x Hx. apply Hall. by right.
    + destruct l1 as [|x l1]; simplify_eq/=; [congruence|]. exists l1, l2. split; [done|]. split; [done|].
      intros y Hy. apply Hno. by right.
Qed.

Lemma NewVersion_errs version : (∃ v, NewVersion learned version = Ok v) ∨ NewVersion learned version = Err ErrInvalidVersion.
Proof. unfold NewVersion. repeat (case_match; eauto). Qed.

Lemma check_claim_version_refused target lpv pvc e :
  check_claim_version learned (Some target) lpv pvc = Err e ↔ version_refused target lpv pvc e.
Proof.
  unfold check_claim_version, version_refused. destruct (VersionKnown _).
  - destruct (NewVersion_errs (annotation pvc CouchbaseVersionAnnotationKey)) as [[v ->]| ->]; cbn.
    + destruct (Less target v) eqn:E; (split; [intros Hr; try done|intros [-> Hl]; try done]).
      * injection Hr as <-. split; [done|]. by intros v' [= <-].
      * by rewrite Hl in E by done.
    + split; [intros Hr; by injection Hr as <-|by intros [-> _]].
  - destruct lpv, (isLPV pvc); simpl; naive_solver congruence.
Qed.

Lemma check_claim_place_refused groups zone pvc e :
  check_claim_place groups zone pvc = Err e ↔ e = ErrResourceAttributeRequired ∧ ¬ place_fits groups zone pvc.
Proof.
  rewrite <- check_claim_place_spec. unfold check_claim_place.
  repeat case_match; (split; [intros [= <-]; split; congruence|intros [-> Hn]; try done; by destruct Hn]).
Qed.

Lemma check_mounts_refused pvcs memberName target lpv groups zone e l :
  check_mounts learned pvcs memberName (Some target) lpv groups zone l = Err e ↔
  ∃ before path after, mountPath <$> l = before ++ path :: after ∧
    Forall (claim_fits pvcs memberName target lpv groups zone) before ∧
    claim_refused pvcs memberName target lpv groups zone path e.
Proof.
  induction l as [|m l IH]; cbn [check_mounts fmap list_fmap].
  { split; [done|]. by intros ([|??]&?&?&?&_). }
  assert (∀ r : result (), (r = Err e ↔ claim_refused pvcs memberName target lpv groups zone (mountPath m) e) →
    ¬ claim_fits pvcs memberName target lpv groups zone (mountPath m) →
    r = Err e ↔ ∃ before path after, mountPath m :: (mountPath <$> l) = before ++ path :: after ∧
      Forall (claim_fits pvcs memberName target lpv groups zone) before ∧
      claim_refused pvcs memberName target lpv groups zone path e) as Hhere.
  { intros r -> Hno. split; [intros Hr; by exists [], (mountPath m), (mountPath <$> l)|].
    intros ([|p before]&path&after&Heq&Hfits&Hr); simplify_eq/=; [done|]. by apply Forall_cons in Hfits as [? _]. }
  destruct (findMemberPVC pvcs memberName (mountPath m)) as [pvc|e'|] eqn:E; cbn [mbind result_bind].
  - pose proof E as [Hf Hb]%findMemberPVC_spec.
    assert (∀ pvc', first_claim pvcs memberName (mountPath m) pvc' → pvc' = pvc) as Huniq.
    { intros pvc' Hf'. destruct (decide (pvc_Phase pvc' = ClaimBound)) as [Hb'|Hb'].
      - apply (conj Hf'), findMemberPVC_spec in Hb'. congruence.
      - assert (findMemberPVC pvcs memberName (mountPath m) = Err ErrKubernetesError); [|congruence].
        apply findMemberPVC_refused. right. by exists pvc'. }
    assert ((∀ pvc', pvc' ∈ listMemberPVCS pvcs memberName → isPathPersisted pvc' (mountPath m) = false) → False) as Hsome.
    { intros Hall. destruct Hf as (l1&l2&Heq&Hp&_). rewrite Hall in Hp; [done|]. rewrite Heq. set_solver. }
    assert (∀ e0, claim_refused pvcs memberName target lpv groups zone (mountPath m) e0 ↔
      version_refused target lpv pvc e0 ∨
      version_fits target lpv pvc ∧ e0 = ErrResourceAttributeRequired ∧ ¬ place_fits groups zone pvc) as Href.
    { intros e0. split.
      - intros [[_ ?]|(pvc'&Hf'&Hr)]; [done|]. rewrite (Huniq _ Hf') in Hr. by destruct Hr as [[_ ?]|[_ ?]].
      - intros Hr. right. exists pvc. split; [done|]. by right. }
    assert (claim_fits pvcs memberName target lpv groups zone (mountPath m) ↔
      version_fits target lpv pvc ∧ place_fits groups zone pvc) as Hfit.
    { split; [|intros [??]; by exists pvc]. by intros (pvc'&<-%Huniq&_&?). }
    rewrite <- check_claim_version_spec, <- check_claim_place_spec in Hfit.
    destruct (check_claim_version learned (Some target) lpv pvc) as [[]|e1|] eqn:Ev; cbn [mbind result_bind].
    + destruct (check_claim_place groups zone pvc) as [[]|e2|] eqn:Ep; cbn [mbind result_bind].
      * rewrite IH. split.
        -- intros (before&path&after&Heq&Hfits&Hr). exists (mountPath m :: before), path, after.
           split; [by rewrite Heq|]. split; [|done]. apply Forall_cons. by rewrite Hfit.
        -- intros ([|p before]&path&after&Heq&Hfits&Hr).
           { injection Heq as <- _. exfalso. apply Href in Hr as [Hr|(_&_&Hr)].
             - apply check_claim_version_refused in Hr. congruence.
             - by apply Hr, check_claim_place_spec. }
           injection Heq as _ Heq. apply Forall_cons in Hfits as [_ ?]. by exists before, path, after.
      * apply Hhere; [|rewrite Hfit; by intros [_ ?]]. rewrite Href, <- check_claim_version_refused, Ev.
        rewrite <- check_claim_version_spec, Ev, <- check_claim_place_refused, Ep. split; [by right|by intros [?|[_ ?]]].
      * apply Hhere; [|rewrite Hfit; by intros [_ ?]]. rewrite Href, <- check_claim_version_refused, Ev.
        rewrite <- check_claim_place_refused, Ep. split; [done|by intros [?|[_ ?]]].
    + apply Hhere; [|rewrite Hfit; by intros [? _]]. rewrite Href, <- check_claim_version_refused, Ev.
      rewrite <- check_claim_version_spec, Ev. split; [by left|by intros [?|[? _]]].
    + apply Hhere; [|rewrite Hfit; by intros [? _]]. rewrite Href, <- check_claim_version_refused, Ev.
      rewrite <- check_claim_version_spec, Ev. split; [done|by intros [?|[? _]]].
  - apply Hhere.
    + transitivity (findMemberPVC pvcs memberName (mountPath m) = Err e); [rewrite E; split; congruence|].
      rewrite findMemberPVC_refused. unfold claim_refused. split.
      * intros [?|(pvc&?&?)]; [by left|right; exists pvc; auto].
      * intros [?|(pvc&Hf&[?|[Hb _]])]; [by left|right; by exists pvc|].
        apply (conj Hf), findMemberPVC_spec in Hb. congruence.
    + intros (pvc&Hf&Hb&_). apply (conj Hf), findMemberPVC_spec in Hb. congruence.
  - exfalso. revert E. unfold findMemberPVC. induction (listMemberPVCS pvcs memberName) as [|q l' IHl]; [done|].
    simpl. by repeat case_match.
Qed.

(** No outcome but success and an error. *)
Lemma CheckIfPodIsRecoverable_returns pvcs config member target lpv groups zone :
  CheckIfPodIsRecoverable learned pvcs config member (Some target) lpv groups zone ≠ Panic.
Proof.
  unfold CheckIfPodIsRecoverable, GetVolumeMounts. destruct (sc_VolumeMounts config) as [mounts|]; [|done].
  destruct (LogsOnly mounts); [done|]. case_bool_decide; [done|].
  destruct (getPathsToPersist member mounts) as [l|e|] eqn:El; cbn; [|done|unfold getPathsToPersist in El; by repeat case_match].
  clear El. induction l as [|m l IH]; cbn [check_mounts]; [done|].
  destruct (findMemberPVC _ _ _) as [pvc|e|] eqn:E; cbn; [|done|].
  - unfold check_claim_version, check_claim_place.
    destruct (NewVersion_errs (annotation pvc CouchbaseVersionAnnotationKey)) as [[v ->]| ->];
      repeat (case_match; cbn); done.
  - revert E. unfold findMemberPVC. induction (listMemberPVCS _ _) as [|q l' IHl]; [done|].
    simpl. by repeat case_match.
Qed.

(** C5: a member can be recovered from its volumes exactly when its class has volumes
    with a default claim and none for the logs, and the first claim of the member
    for each of the (distinct) mount paths is bound, records no version newer than
    the target, and lives where the specification wants the pod: in the zone when
    the class is pinned to one, else in one of the groups, if there are any.
    Whether a claim is local matters only where it records no version.  Otherwise an
    error is returned, and exactly this one: that there are no volumes; that the default
    claim is missing; or that of the first path, in the order of the mounts' names,
    whose claim is refused ([claim_refused]). *)
Theorem CheckIfPodIsRecoverable_spec pvcs config member target checkForLPV groups zone :
  let r := CheckIfPodIsRecoverable learned pvcs config member (Some target) checkForLPV groups zone in
  let fits := claim_fits pvcs (Name member) target checkForLPV groups zone in
  (r = Ok tt ↔
   ∃ mounts, sc_VolumeMounts config = Some mounts ∧ LogsClaim mounts = "" ∧ DefaultClaim mounts ≠ "" ∧
     NoDup (SnapshotMountPaths (Some mounts)) ∧ ∀ path, path ∈ SnapshotMountPaths (Some mounts) → fits path) ∧
  (∀ e, r = Err e ↔
   (e = ErrNoVolumeMounts ∧ ∀ mounts, sc_VolumeMounts config = Some mounts → LogsClaim mounts ≠ "") ∨
   ∃ mounts, sc_VolumeMounts config = Some mounts ∧ LogsClaim mounts = "" ∧
     (e = ErrResourceAttributeRequired ∧ DefaultClaim mounts = "" ∨
      DefaultClaim mounts ≠ "" ∧ ∃ mappings before path after,
        getPathsToPersist member mounts = Ok mappings ∧ StronglySorted (leb_rel mount_leb) mappings ∧
        mountPath <$> mappings ≡ₚ SnapshotMountPaths (Some mounts) ∧
        mountPath <$> mappings = before ++ path :: after ∧ Forall fits before ∧
        claim_refused pvcs (Name member) target checkForLPV groups zone path e)) ∧
  r ≠ Panic.
Proof.
  intros r fits. split; [|split; [|apply CheckIfPodIsRecoverable_returns]].
  - unfold r, CheckIfPodIsRecoverable, GetVolumeMounts, LogsOnly.
    destruct (sc_VolumeMounts config) as [mounts|]; [|split; [done|by intros (?&?&_)]].
    assert (∀ P : VolumeMounts → Prop, (∃ m, Some mounts = Some m ∧ P m) ↔ P mounts) as Hex
      by (intros P; split; [intros (m&[= <-]&?); done|eauto]).
    rewrite Hex. case_bool_decide as Hlogs; [split; [done|by intros (?&_)]|].
    case_bool_decide as Hdef; [split; [done|by intros (_&?&_)]|].
    destruct (getPathsToPersist_ok member mounts Hlogs Hdef) as [l Hl]. rewrite Hl. cbn [mbind result_bind].
    rewrite check_mounts_spec. setoid_rewrite (getPathsToPersist_paths _ _ _ Hl Hlogs Hdef).
    pose proof (SnapshotMountPaths_NoDup (Some mounts)). clear Hex. tauto.
  - intros e. unfold r, CheckIfPodIsRecoverable, GetVolumeMounts, LogsOnly.
    destruct (sc_VolumeMounts config) as [mounts|].
    2: { split; [intros [= <-]; by left|]. by intros [[-> _]|(?&?&_)]. }
    case_bool_decide as Hlogs.
    { split; [intros [= <-]; left; split; [done|]; by intros ? [= <-]|]. by intros [[-> _]|(?&[= <-]&?&_)]. }
    assert ((∀ m, Some mounts = Some m → LogsClaim m ≠ "") → False) as Hl by (intros Hl; by apply (Hl mounts)).
    case_bool_decide as Hdef.
    { split; [intros [= <-]; right; exists mounts; auto|]. by intros [[_ ?]|(?&[= <-]&_&[[-> _]|[? _]])]. }
    destruct (getPathsToPersist_ok member mounts Hlogs Hdef) as [l Hpaths]. rewrite Hpaths. cbn [mbind result_bind].
    rewrite check_mounts_refused. split.
    + intros (before&path&after&Heq&?&?). right. exists mounts. split; [done|]. split; [done|]. right. split; [done|].
      exists l, before, path, after. split; [done|]. split; [|split; [by eapply getPathsToPersist_paths|done]].
      by eapply getPathsToPersist_sorted.
    + intros [[_ ?]|(?&[= <-]&_&[[_ ?]|(_&?&before&path&after&Hp&_&_&?&?)])]; [done..|].
      rewrite Hpaths in Hp. injection Hp as <-. by exists before, path, after.
Qed.
End recoverable.

(** The check for local volumes is skipped where a version is recorded. *)
Definition local_pvc : PVC :=
  mkPVC "cb-0000-default-00" {[LabelNode := "cb-0000"]}
    (Some {[AnnotationVolumeMountPath := couchbaseVolumeDefaultConfigDir;
            CouchbaseVersionAnnotationKey := "7.2.5"; LocalStorageAnnotation := "true"]}) ClaimBound false (mkPVCSpec None None [] "") ∅ [].

Example local_volume_reschedulable :
  let config := {| sc_Size := 3; sc_Name := "data"; sc_Services := ["data"]; sc_ServerGroups := [];
                   sc_VolumeMounts := Some {| DefaultClaim := "couchbase"; DataClaim := ""; IndexClaim := "";
                                              AnalyticsClaims := None; LogsClaim := "" |};
                   sc_Image := ""; sc_NodeSelector := None; sc_AutoscaleEnabled := false |} in
  isLPV local_pvc = true ∧
  (target ← NewVersion (H := const None) ∅ "7.2.5";
   CheckIfPodIsRecoverable (H := const None) ∅ [local_pvc] config (NewMember "ns" "cb" "cb-0000" "7.2.5" "data" false "")
     (Some target) true [] "") = Ok tt.
Proof. split; vm_compute; reflexivity. Qed.
