(* ===== verification/Machine.v ===== *)
(** * pkg/cluster/nodereconcile.go: the reconcile machine

    What one reconcile cycle knows about the members ([ReconcileMachine]), how it
    is built from the status of Couchbase, the pods and the marks on them
    ([newReconcileMachine]), and the operations that change it. *)

From Stdlib Require Import Ascii.
From S2P Require Import Prelude Effects GoLib Digests Version UpgradePath Api Member Persistence.
From S2P Require Import Status UpgradeOrder RollingUpgrade NodeStatus Pods Volumes.
Local Open Scope Z_scope.

(** ** State *)
Record MemberState := mkMemberState {
  ActiveNodes : MemberSet;
  PendingAddNodes : MemberSet;
  AddBackNodes : MemberSet;
  FailedAddNodes : MemberSet;
  WarmupNodes : MemberSet;
  DownNodes : MemberSet;
  FailedNodes : MemberSet;
  UnclusteredNodes : MemberSet;
  IsRebalancing : bool;
  NeedsRebalance : bool;
}.

Definition nodes_of (state : NodeState) (st : MemberState) : MemberSet :=
  match state with
  | NodeStateActive => ActiveNodes st
  | NodeStatePendingAdd => PendingAddNodes st
  | NodeStateFailedAdd => FailedAddNodes st
  | NodeStateWarmup => WarmupNodes st
  | NodeStateDown => DownNodes st
  | NodeStateFailed => FailedNodes st
  | NodeStateAddBack => AddBackNodes st
  end.

Definition settled (m : option MemberState) : bool :=
  match m with
  | None => true
  | Some m =>
      negb (NeedsRebalance m) && negb (IsRebalancing m) &&
      Empty (PendingAddNodes m) && Empty (AddBackNodes m) && Empty (FailedAddNodes m) &&
      Empty (FailedNodes m)
  end.

Record ReconcileMachine := mkMachine {
  clusteredMembers : MemberSet;
  runningMembers : MemberSet;
  ejectMembers : MemberSet;
  stabilizingMembers : MemberSet;
  unclusteredMembers : MemberSet;
  pendingDNSMembers : MemberSet;
  pendingInitPods : MemberSet;
  needsRebalance : bool;
  couchbase : MemberState;
  preserveVolumes : gset string;
  abortReason : string;
  rebalanceRetries : Z;
  holdNodeAdditions : bool;
}.

(** [networking.tls], as far as it says whether TLS is on. *)
Record TLSPolicy := mkTLSPolicy { TLS_Static : bool; TLS_SecretSource : bool }.

(** The part of [spec.networking] read here. *)
Record Networking := mkNetworking {
  AllowExternallyUnreachablePods : option bool;
  WaitForAddressReachableDelay : option Z;
  WaitForAddressReachable : option Z;
  InitPodsWithNodeHostname : bool;
  ImprovedHostNetwork : bool;
  net_CloudNativeGateway : option CloudNativeGateway;
  net_TLS : option TLSPolicy;
  net_DNS : option string;               (* the domain *)
  ExposedFeatures : list string;
  net_AddressFamily : option string;
}.

(** The part of [spec.buckets] read here. *)
Record Buckets := mkBuckets {
  Managed : bool;
  EnableBucketMigrationRoutines : bool;
  MaxConcurrentPodSwaps : Z;
}.

(** Of the cluster settings, the operator's configuration and the annotations. *)
Record Settings := mkSettings {
  AutoFailoverTimeout : Z;
  PodRecoveryMaxRetries : Z;
  AddNodeInsecure : bool;
  spec_Buckets : Buckets;
  AutoscaleStabilizationPeriod : option Z;
  RescheduleDifferentServerGroup : bool;
  PodCreateTimeout : Z;
  PodDeleteDelay : Z;
}.

Record Cluster := mkCluster {
  c_cluster : CouchbaseCluster;
  c_networking : Networking;
  c_settings : Settings;
  c_UID : string;
  c_members : MemberSet;
  c_callableMembers : MemberSet;
  c_recoveryTime : gmap string Z;
  c_lastRecoveryAttemptTime : gmap string Z;
  c_lastSuccessfulRecoveryTime : gmap string Z;
  c_learned : gmap string string;
}.

(** What the operator does to the outside world, in order. *)
Inductive Effect :=
  | StatusSeen (status : ClusterState)
  | RebalanceAsked (known eject : list string)
  | PodDeleted (name : string) (removeVolumes : bool)
  | PodRecreated (name : string)
  | FailoverForced (nodes : list string) (allowUnsafe : bool)
  | GracefulFailoverAsked (node : string)
  | EjectionMarked (name : string)
  | ReplacementsAsked (names : list string)
  | RebalanceStopped
  | SizeAsked (class : string) (size : Z).

(** The state of a cycle: the machine, the cluster object, the world and the
    effects so far. *)
Record RS (W : Type) := mkRS {
  fsm : ReconcileMachine;
  cl : Cluster;
  world : W;
  trace : list Effect;
}.
Arguments mkRS {W} _ _ _ _.
Arguments fsm {W} _.
Arguments cl {W} _.
Arguments world {W} _.
Arguments trace {W} _.

Definition set_fsm {W} (f : ReconcileMachine → ReconcileMachine) (s : RS W) : RS W :=
  mkRS (f (fsm s)) (cl s) (world s) (trace s).
Definition set_cl {W} (f : Cluster → Cluster) (s : RS W) : RS W :=
  mkRS (fsm s) (f (cl s)) (world s) (trace s).
Definition set_world {W} (w : W) (s : RS W) : RS W := mkRS (fsm s) (cl s) w (trace s).
Definition log_effect {W} (e : Effect) (s : RS W) : RS W :=
  mkRS (fsm s) (cl s) (world s) (trace s ++ [e]).

Definition on_world {W A} (m : M W A) : M (RS W) A := zoom world set_world m.

(** A call worth recording: it is on the trace whatever its outcome. *)
Definition perform {W A} (e : Effect) (m : M W A) : M (RS W) A :=
  modify (log_effect e);; on_world m.

(** *** Updates *)
Definition set_clustered (ms : MemberSet) r := mkMachine ms (runningMembers r) (ejectMembers r)
  (stabilizingMembers r) (unclusteredMembers r) (pendingDNSMembers r) (pendingInitPods r)
  (needsRebalance r) (couchbase r) (preserveVolumes r) (abortReason r) (rebalanceRetries r)
  (holdNodeAdditions r).
Definition set_running (ms : MemberSet) r := mkMachine (clusteredMembers r) ms (ejectMembers r)
  (stabilizingMembers r) (unclusteredMembers r) (pendingDNSMembers r) (pendingInitPods r)
  (needsRebalance r) (couchbase r) (preserveVolumes r) (abortReason r) (rebalanceRetries r)
  (holdNodeAdditions r).
Definition set_eject (ms : MemberSet) r := mkMachine (clusteredMembers r) (runningMembers r) ms
  (stabilizingMembers r) (unclusteredMembers r) (pendingDNSMembers r) (pendingInitPods r)
  (needsRebalance r) (couchbase r) (preserveVolumes r) (abortReason r) (rebalanceRetries r)
  (holdNodeAdditions r).
Definition set_stabilizing (ms : MemberSet) r := mkMachine (clusteredMembers r) (runningMembers r)
  (ejectMembers r) ms (unclusteredMembers r) (pendingDNSMembers r) (pendingInitPods r)
  (needsRebalance r) (couchbase r) (preserveVolumes r) (abortReason r) (rebalanceRetries r)
  (holdNodeAdditions r).
Definition set_pendingDNS (ms : MemberSet) r := mkMachine (clusteredMembers r) (runningMembers r)
  (ejectMembers r) (stabilizingMembers r) (unclusteredMembers r) ms (pendingInitPods r)
  (needsRebalance r) (couchbase r) (preserveVolumes r) (abortReason r) (rebalanceRetries r)
  (holdNodeAdditions r).
Definition set_needsRebalance (b : bool) r := mkMachine (clusteredMembers r) (runningMembers r)
  (ejectMembers r) (stabilizingMembers r) (unclusteredMembers r) (pendingDNSMembers r)
  (pendingInitPods r) b (couchbase r) (preserveVolumes r) (abortReason r) (rebalanceRetries r)
  (holdNodeAdditions r).
Definition set_preserve (names : gset string) r := mkMachine (clusteredMembers r) (runningMembers r)
  (ejectMembers r) (stabilizingMembers r) (unclusteredMembers r) (pendingDNSMembers r)
  (pendingInitPods r) (needsRebalance r) (couchbase r) names (abortReason r) (rebalanceRetries r)
  (holdNodeAdditions r).
Definition set_abort (reason : string) r := mkMachine (clusteredMembers r) (runningMembers r)
  (ejectMembers r) (stabilizingMembers r) (unclusteredMembers r) (pendingDNSMembers r)
  (pendingInitPods r) (needsRebalance r) (couchbase r) (preserveVolumes r) reason
  (rebalanceRetries r) (holdNodeAdditions r).

Definition addMember_fsm (m : Member) r :=
  set_needsRebalance true
    (set_running (Add m (runningMembers r)) (set_clustered (Add m (clusteredMembers r)) r)).

Definition removeMemberNoEject_fsm (m : Member) r :=
  set_running (Remove (Name m) (runningMembers r))
    (set_clustered (Remove (Name m) (clusteredMembers r)) r).

Definition removeMemberUser_fsm (m : Member) r :=
  set_needsRebalance true (set_eject (Add m (ejectMembers r)) (removeMemberNoEject_fsm m r)).

Definition set_status (f : ClusterStatus → ClusterStatus) (c : Cluster) : Cluster :=
  let cc := c_cluster c in
  mkCluster
    {| Namespace := Namespace cc; Api.Name := Api.Name cc; Spec := Spec cc; Status := f (Status cc) |}
    (c_networking c) (c_settings c) (c_UID c) (c_members c) (c_callableMembers c) (c_recoveryTime c)
    (c_lastRecoveryAttemptTime c) (c_lastSuccessfulRecoveryTime c) (c_learned c).

Definition set_members (ms callable : MemberSet) (c : Cluster) : Cluster :=
  mkCluster (c_cluster c) (c_networking c) (c_settings c) (c_UID c) ms callable (c_recoveryTime c)
    (c_lastRecoveryAttemptTime c) (c_lastSuccessfulRecoveryTime c) (c_learned c).

Definition set_recovery (t : gmap string Z) (c : Cluster) : Cluster :=
  mkCluster (c_cluster c) (c_networking c) (c_settings c) (c_UID c) (c_members c) (c_callableMembers c) t
    (c_lastRecoveryAttemptTime c) (c_lastSuccessfulRecoveryTime c) (c_learned c).

(** [lastRecoveryAttemptTime] and [lastSuccessfulRecoveryTime]. *)
Definition set_recovery_times (attempts successes : gmap string Z) (c : Cluster) : Cluster :=
  mkCluster (c_cluster c) (c_networking c) (c_settings c) (c_UID c) (c_members c) (c_callableMembers c)
    (c_recoveryTime c) attempts successes (c_learned c).

(** ** The operations of the machine *)
Section machine.
Context `{Platform W} `{PersistentStorage W} `{Environment} `{MapRange}.
Abbreviation R := (RS W).

Definition addMember (m : Member) : M R () := modify (set_fsm (addMember_fsm m)).
Definition removeMemberUser (m : Member) : M R () := modify (set_fsm (removeMemberUser_fsm m)).
Definition removeMemberNoEject (m : Member) : M R () := modify (set_fsm (removeMemberNoEject_fsm m)).

Definition removeMember (m : Member) : M R () :=
  removeMemberUser m;;
  w ← gets world;
  if MemberHasLogVolumes (PVCs_List w) (Name m)
  then modify (set_fsm (λ r, set_preserve ({[Name m]} ∪ preserveVolumes r) r))
  else mret tt.

Definition abort (reason : string) : M R () := modify (set_fsm (set_abort reason)).

Definition shouldRemoveVolumes (server : string) (r : ReconcileMachine) : bool :=
  bool_decide (server ∉ preserveVolumes r).

Definition readyMembers (c : Cluster) : MemberSet := c_callableMembers c.

Definition getMigratingReadyTarget (c : Cluster) : Target :=
  match cs_UnmanagedClusterHost (Spec (c_cluster c)) with
  | Some host =>
      if IsMigrationCluster (c_cluster c) && Empty (readyMembers c)
      then ToURL ("http://" +:+ host +:+ ":8091") else ToMembers (readyMembers c)
  | None => ToMembers (readyMembers c)
  end.

Definition hostNetwork (c : Cluster) : bool :=
  InitPodsWithNodeHostname (c_networking c) && ImprovedHostNetwork (c_networking c).

(** [getStatusFromTarget]: a status that was obtained is on the trace. *)
Definition getStatusFromTarget (pos : list nat) (target : Target) (ms : MemberSet) : M R ClusterState :=
  c ← gets cl;
  info ← on_world (retry_for (cb_GetPoolsDefault target));
  status ← on_world (getStatusFromClusterInfo (c_learned c) pos (hostNetwork c) info ms);
  tasks ← on_world (retry_for (cb_ListTasks target));
  let status := applyRebalanceError status tasks in
  modify (log_effect (StatusSeen status));;
  mret status.

Definition GetStatus (pos : list nat) : M R ClusterState :=
  c ← gets cl;
  let target := getMigratingReadyTarget c in
  let ms := match target with ToMembers _ => c_callableMembers c | ToURL _ => c_members c end in
  getStatusFromTarget pos target ms.

(** The status from members that are not trusted yet. *)
Definition GetStatusUnsafe (pos : list nat) (ms : MemberSet) : M R ClusterState :=
  getStatusFromTarget pos (ToMembers ms) ms.

(** The stored cluster may be another one of the same name, or up to date; an API
    without the status subresource is patched. *)
Definition updateCRStatus : M R () :=
  c ← gets cl;
  cluster ← on_world api_GetCluster;
  let status := Status (c_cluster c) in
  if bool_decide (cluster.1 ≠ c_UID c) then mret tt
  else if bool_decide (status = cluster.2) then mret tt
  else
    updated ← attempt (on_world (api_UpdateStatus status));
    match updated with
    | inl _ => mret tt
    | inr ErrNotFound => on_world (api_PatchStatus status)
    | inr e => throw e
    end.

(** ** Pods of the cluster *)
Definition getClusterPods (c : Cluster) (w : W) : list KPod :=
  discardUntrustedPods (c_UID c) (Pods_List w).

Definition getPendingInitPods (c : Cluster) (w : W) : list KPod :=
  filter (λ pod, HasPendingInitializationCondition pod = true) (getClusterPods c w).

Definition getPendingDNSPods (c : Cluster) (w : W) : list KPod :=
  filter (λ pod, IsPendingDNSMember pod = true) (getClusterPods c w).

(** ** Building the machine *)
Definition add_node (state : NodeState) (m : Member) (st : MemberState) : MemberState :=
  let add s ms := if bool_decide (s = state) then Add m ms else ms in
  mkMemberState
    (add NodeStateActive (ActiveNodes st)) (add NodeStatePendingAdd (PendingAddNodes st))
    (add NodeStateAddBack (AddBackNodes st)) (add NodeStateFailedAdd (FailedAddNodes st))
    (add NodeStateWarmup (WarmupNodes st)) (add NodeStateDown (DownNodes st))
    (add NodeStateFailed (FailedNodes st)) (UnclusteredNodes st) (IsRebalancing st)
    (NeedsRebalance st || bool_decide (state = NodeStatePendingAdd)).

(** One node of the status. *)
Definition classify (ms : MemberSet) (st : MemberState) (e : string * NodeState) : MemberState :=
  match ms !! e.1 with
  | None => st
  | Some member => add_node e.2 member st
  end.

(** The members Couchbase does not know, pods still to be initialised aside. *)
Definition unclustered_step (w : W) (states : gmap string NodeState) (acc : MemberSet)
    (e : string * Member) : MemberSet :=
  match states !! e.1 with
  | Some _ => acc
  | None =>
      match Pods_Get w e.1 with
      | Some pod => if HasPendingInitializationCondition pod then acc else Add e.2 acc
      | None => Add e.2 acc
      end
  end.

Definition member_state (pos : list nat) (w : W) (ms : MemberSet) (status : ClusterState) : MemberState :=
  let st0 := mkMemberState ∅ ∅ ∅ ∅ ∅ ∅ ∅ ∅ (Balancing status) (negb (Balanced status)) in
  let st := fold_left (classify ms) (range (0%nat :: pos) (NodeStates status)) st0 in
  mkMemberState (ActiveNodes st) (PendingAddNodes st) (AddBackNodes st) (FailedAddNodes st)
    (WarmupNodes st) (DownNodes st) (FailedNodes st)
    (fold_left (unclustered_step w (NodeStates status)) (range (1%nat :: pos) ms) ∅)
    (IsRebalancing st) (NeedsRebalance st).

Definition parse_retries (val : string + error) : Z :=
  match val with
  | inl val => match Atoi val with Ok rr => rr | _ => 1 end
  | inr _ => 1
  end.

(** The conversion [uint(n)]. *)
Definition uint (n : Z) : Z := n mod 2 ^ 64.

Definition initial_machine (c : Cluster) (w : W) (st : MemberState) (retries : Z) : ReconcileMachine :=
  let pendingInit := podsToMemberSet (getPendingInitPods c w) in
  mkMachine
    (Diff (Diff (c_members c) (UnclusteredNodes st)) pendingInit)
    (Intersect (c_members c) (podsToMemberSet (getClusterPods c w)))
    ∅ ∅ (Copy (UnclusteredNodes st))
    (Diff (Intersect (c_members c) (podsToMemberSet (getPendingDNSPods c w))) pendingInit)
    pendingInit (NeedsRebalance st) st ∅ "" (uint retries) false.

(** [deriveStabilizingFSMMembers] *)
Definition stabilizing_step (c : Cluster) (w : W) (acc : MemberSet) (e : string * Member) : MemberSet :=
  match Pods_Get w e.1 with
  | None => acc
  | Some pod =>
      if bool_decide (GetPodUpgradeTracking pod ≠ "") then
        match c_members c !! e.1 with Some member => Add member acc | None => acc end
      else acc
  end.

(** [deriveEjectFSMMembers]: the marks of the active nodes. *)
Definition mark_step (c : Cluster) (w : W) (acc : MemberSet * gmap string MemberList)
    (e : string * Member) : MemberSet * gmap string MemberList :=
  match Pods_Get w e.1, c_members c !! e.1 with
  | Some pod, Some member =>
      if IsPodPendingUpgradeBeforeEjection pod then (Add member acc.1, acc.2)
      else if IsPodPendingEjection pod
      then (acc.1, <[Config member := default [] (acc.2 !! Config member) ++ [member]]> acc.2)
      else acc
  | _, _ => acc
  end.

Definition wanted_sizes (servers : list ServerConfig) : gmap string Z :=
  fold_left (λ want serverSpec, <[sc_Name serverSpec := sc_Size serverSpec]> want) servers ∅.

(** How many of the marked members of a class are still to go. *)
Definition keep_count (total want marked : Z) : Z := Z.min (Z.max (wrap64 (total - want)) 0) marked.

Definition class_total (r : ReconcileMachine) (class : string) : Z :=
  Z.of_nat (Size (GroupByServerConfig class (clusteredMembers r))) +
  Z.of_nat (Size (GroupByServerConfig class (pendingInitPods r))).

Definition scale_down_class (r : ReconcileMachine) (want : gmap string Z) (eject : MemberSet)
    (e : string * MemberList) : M R MemberSet :=
  let '(class, ms) := e in
  let ms := stable_sort name_leb ms in
  let keep := Z.to_nat (keep_count (class_total r class) (default 0 (want !! class)) (Z.of_nat (length ms))) in
  for_each (λ member, ignore_error (on_world (ClearPodPendingEjection (Name member)))) (drop keep ms);;
  mret (add_all (take keep ms) eject).

Definition eject_one (r : ReconcileMachine) (e : string * Member) : ReconcileMachine :=
  set_needsRebalance true
    (set_clustered (Remove e.1 (clusteredMembers r)) (set_eject (Add e.2 (ejectMembers r)) r)).

Definition deriveEjectFSMMembers (pos : list nat) (r : ReconcileMachine) : M R ReconcileMachine :=
  c ← gets cl; w ← gets world;
  let '(eject, scaleDown) :=
    fold_left (mark_step c w) (range (0%nat :: pos) (ActiveNodes (couchbase r))) (∅, ∅) in
  let want := wanted_sizes (cs_Servers (Spec (c_cluster c))) in
  eject ← for_fold (scale_down_class r want) eject (range (1%nat :: pos) scaleDown);
  mret (fold_left eject_one (range (2%nat :: pos) eject) r).

Definition newReconcileMachine (pos : list nat) : M R ReconcileMachine :=
  status ← GetStatus (0%nat :: pos);
  c ← gets cl; w ← gets world;
  let st := member_state (1%nat :: pos) w (c_members c) status in
  val ← attempt (on_world (ps_Get RebalanceRetries));
  w ← gets world;
  let r := initial_machine c w st (parse_retries val) in
  modify (set_cl (λ c, set_recovery (filter (λ e, ActiveNodes st !! e.1 = None) (c_recoveryTime c)) c));;
  let r := set_stabilizing
    (fold_left (stabilizing_step c w) (range (2%nat :: pos) (ActiveNodes st)) ∅) r in
  deriveEjectFSMMembers (3%nat :: pos) r.
End machine.
