(* ===== verification/Rebalance.v ===== *)
(** * pkg/cluster/rebalance.go and the last handlers of a cycle

    Rebalancing and checking that it happened, deleting the pods that were
    balanced out, and the loop over the handlers ([exec]). *)

From Stdlib Require Import Ascii.
From S2P Require Import Prelude Effects GoLib Api Member Persistence Status UpgradeOrder.
From S2P Require Import RollingUpgrade NodeStatus Pods Machine.
Local Open Scope Z_scope.

Definition RebalanceEjectMembers : string := "rebalanceEjectMembers".
Definition RebalanceClusteredMembers : string := "rebalanceClusteredMembers".
Definition RecoveryTypeDelta : string := "delta".
Definition RecoveryTypeFull : string := "full".

(** ** Watching a rebalance *)
Section watch.
Context `{Platform W}.

(** One round of the goroutine of [NewRebalanceProgress]: an entry for the
    channel, or the channel closed. *)
Definition progress_poll (ms : MemberSet) : M W (option string) :=
  tasks ← cb_ListTasks (ToMembers ms);
  task ← lift (GetTask TaskTypeRebalance tasks);
  let status := getRebalanceStatus task in
  mret (if bool_decide (status = RebalanceStatusNotRunning) then None else Some status).

(** [witnessRebalance]: a fresh goroutine every second until one has an entry. *)
Fixpoint witness_loop (n : nat) (ms : MemberSet) : M W bool := λ w,
  match progress_poll ms w with
  | (Ok (Some _), w') => (Ok true, w')
  | (Panic, w') => (Panic, w')
  | (_, w') =>
      match n with
      | O => (Ok false, w')
      | S n => witness_loop n ms (retry_tick w')
      end
  end.

Definition witnessRebalance (ms : MemberSet) : M W bool := λ w, witness_loop (retry_ticks w) ms w.

(** The streaming loop, from the entry the witness saw. *)
Fixpoint stream_loop (n : nat) (ms : MemberSet) : M W () := λ w,
  match n with
  | O => (Err ErrNoPolls, w)
  | S n =>
      match progress_poll ms (watch_tick w) with
      | (Ok (Some _), w') => stream_loop n ms w'
      | (Ok None, w') => (Ok tt, w')
      | (Err e, w') => (Err e, w')
      | (Panic, w') => (Panic, w')
      end
  end.

Definition stream_rebalance (ms : MemberSet) : M W () := λ w, stream_loop (watch_polls w) ms w.

Definition watch_rebalance (ms : MemberSet) : M W () :=
  witnessed ← witnessRebalance ms;
  if witnessed : bool then stream_rebalance ms else mret tt.

(** [IsRebalanceActive] *)
Definition IsRebalanceActive (ms : MemberSet) : M W bool :=
  tasks ← cb_ListTasks (ToMembers ms);
  task ← lift (GetTask TaskTypeRebalance tasks);
  mret (bool_decide (getRebalanceStatus task = RebalanceStatusRunning)).
End watch.

Section rebalance.
Context `{Platform W} `{PersistentStorage W} `{Environment} `{MapRange}.
Abbreviation R := (RS W).

(** A status setter, at the time of the call. *)
Definition set_status_now (f : string → ClusterStatus → ClusterStatus) : M R () :=
  modify (λ s, set_cl (set_status (f (time_Format (W := W) (time_now (world s))))) s).

(** ** Rebalancing *)

(** The callback of [verifyRebalance]. *)
Definition verify_once (pos : list nat) (ms : MemberSet) : M R () :=
  status ← GetStatus (0%nat :: pos);
  lift (verify_status (1%nat :: pos) status ms).

Fixpoint verify_loop (n : nat) (pos : list nat) (ms : MemberSet) : M R () := λ s,
  match verify_once (n :: pos) ms s with
  | (Err e, s') =>
      match n with
      | O => (Err e, s')
      | S n => verify_loop n pos ms (set_world (retry_tick (world s')) s')
      end
  | r => r
  end.

Definition verifyRebalance (pos : list nat) (ms : MemberSet) : M R () := λ s,
  verify_loop (retry_ticks (world s)) pos ms s.

(** The loop over the attempts: the error of the last verification, if any. *)
Fixpoint rebalance_attempts (pos : list nat) (known eject : list string) (ms : MemberSet)
    (n : nat) : M R (option error) :=
  match n with
  | O => mret None
  | S n =>
      perform (RebalanceAsked known eject) (cb_Rebalance known eject (ToMembers ms));;
      on_world (watch_rebalance ms);;
      r ← attempt (verifyRebalance (n :: pos) ms);
      match r, n with
      | inl _, _ => mret None
      | inr e, O => mret (Some e)
      | inr _, _ => rebalance_attempts pos known eject ms n
      end
  end.

Definition rebalance_body (pos : list nat) (ms ejectMembers : MemberSet) (maxRetries : Z) : M R () :=
  updateCRStatus;;
  info ← on_world (cb_GetPoolsDefault (ToMembers ms));
  failure ← rebalance_attempts pos (ni_OTPNode <$> Nodes info) (OTPNodes ejectMembers) ms
    (Z.to_nat maxRetries);
  match failure with
  | Some e =>
      modify (set_cl (set_status AddRebalanceAttempt));;
      throw e
  | None =>
      set_status_now SetBalancedCondition;;
      on_world (ps_Delete RebalanceClusteredMembers);;
      on_world (ps_Delete RebalanceEjectMembers);;
      updateCRStatus
  end.

Definition rebalanceWithRetriesOnVerifyFails (pos : list nat) (ms ejectMembers : MemberSet)
    (maxRetries : Z) : M R () :=
  let maxRetries := if bool_decide (maxRetries = 0) then 1 else maxRetries in
  set_status_now SetUnbalancedCondition;;
  set_status_now SetRebalancingCondition;;
  finally (rebalance_body pos ms ejectMembers maxRetries)
    (set_cl (set_status (ClearCondition ClusterConditionRebalancing))).

(** ** What holds a rebalance back *)
Definition hasDNSCheckDelayElapsed (c : Cluster) (w : W) (pod : KPod) : bool :=
  match WaitForAddressReachableDelay (c_networking c) with
  | None => true
  | Some delay => bool_decide (kp_CreationTimestamp pod + delay < time_now w)
  end.

Definition hasDNSCheckTimeoutElapsed (c : Cluster) (w : W) (pod : KPod) : bool :=
  match WaitForAddressReachable (c_networking c) with
  | None => false
  | Some timeout => bool_decide (GetPendingTransitionTime pod + timeout < time_now w)
  end.

Definition unskip (ms : MemberSet) (pod : KPod) : MemberSet :=
  if bool_decide (GetPodUpgradeTracking pod ≠ "") then Remove (kp_Name pod) ms else ms.

Definition pendingPodsBlockingRebalance (pendingInit : MemberSet) (pendingDNSPods : list KPod) : MemberSet :=
  Diff pendingInit (fold_left unskip pendingDNSPods (podsToMemberSet pendingDNSPods)).

Definition podsBlockingRebalance (c : Cluster) (w : W) (r : ReconcileMachine) : MemberSet :=
  pendingPodsBlockingRebalance (pendingInitPods r) (getPendingDNSPods c w).

Definition canRebalance (c : Cluster) (w : W) (r : ReconcileMachine) : bool :=
  match AllowExternallyUnreachablePods (c_networking c) with
  | Some true =>
      forallb (λ member, match Pods_Get w (Name member) with
                         | None => true
                         | Some pod => hasDNSCheckDelayElapsed c w pod
                         end) (members (pendingDNSMembers r))
  | _ => Empty (Diff (pendingDNSMembers r) (ActiveNodes (couchbase r)))
  end.

Definition shouldRebalance (c : Cluster) (w : W) (r : ReconcileMachine) : bool :=
  needsRebalance r && canRebalance c w r.

(** ** Cluster membership *)

(** [updateMemberStatusWithClusterInfo]: a failure to write is logged. *)
Definition updateMemberStatusWithClusterInfo (ready unready : MemberSet) : M R () :=
  modify (set_cl (set_status (set_Members (Names ready) (Names unready))));;
  ignore_error updateCRStatus.

Definition updateMemberStatus (pos : list nat) (firstMember : bool) : M R () :=
  c ← gets cl;
  if firstMember then updateMemberStatusWithClusterInfo (c_members c) ∅
  else
    status ← GetStatus (0%nat :: pos);
    let ready := fold_left (λ ready (e : string * Member),
      if bool_decide (NodeStates status !! e.1 = Some NodeStateActive) then Add e.2 ready else ready)
      (range (1%nat :: pos) (c_members c)) ∅ in
    updateMemberStatusWithClusterInfo ready (Diff (c_members c) ready).

Definition clusterRemoveMember (pos : list nat) (name : string) : M R () :=
  modify (set_cl (λ c, set_members (Remove name (c_members c)) (Remove name (c_callableMembers c)) c));;
  modify (λ s, set_cl (set_status (set_Size (Z.of_nat (Size (c_members (cl s)))))) s);;
  c ← gets cl;
  if Empty (c_members c) then mret tt else updateMemberStatus pos false.

(** [removePod] and [destroyMember] *)
Definition removePod (name : string) (removeVolumes : bool) : M R () :=
  perform (PodDeleted name removeVolumes) (api_DeleteCouchbasePod name removeVolumes).

Definition destroyMember (pos : list nat) (name : string) (removeVolumes : bool) : M R () :=
  removePod name removeVolumes;;
  clusterRemoveMember pos name;;
  updateCRStatus.

(** ** The handlers *)

(** [checkRebalanceStarted]: a rebalance the operator had begun is taken up again. *)
Definition restore_members (pos : list nat) (c : Cluster) (stored : string) (ms : MemberSet) : MemberSet :=
  fold_left (λ ms name,
      fold_left (λ ms (e : string * Member), if bool_decide (name = Name e.2) then Add e.2 ms else ms)
        (range pos (c_members c)) ms)
    (strings_Split stored ","%char) ms.

Definition checkRebalanceStarted (pos : list nat) : M R bool :=
  c ← gets cl;
  match GetCondition (Status (c_cluster c)) ClusterConditionBalanced with
  | None => lift Panic
  | Some cond =>
      if bool_decide (cc_Status cond ≠ ConditionTrue) then
        modify (set_fsm (set_needsRebalance true));;
        eject ← on_world (ps_Get RebalanceEjectMembers);
        modify (set_fsm (λ r, set_eject (restore_members (0%nat :: pos) c eject (ejectMembers r)) r));;
        clustered ← on_world (ps_Get RebalanceClusteredMembers);
        modify (set_fsm (λ r, set_clustered (restore_members (1%nat :: pos) c clustered (clusteredMembers r)) r));;
        mret true
      else mret false
  end.

Definition handleRebalanceCheck (pos : list nat) : M R () :=
  r ← gets fsm; c ← gets cl;
  if negb (IsRebalancing (couchbase r)) then mret tt
  else
    running ← attempt (on_world (IsRebalanceActive (readyMembers c)));
    match running with
    | inr _ => throw ErrReconcileInhibited
    | inl true => abort "cluster is currently rebalancing"
    | inl false =>
        ok ← checkRebalanceStarted pos;
        if ok : bool then mret tt
        else perform RebalanceStopped (cb_StopRebalance (ToMembers (readyMembers c)))
    end.

Definition handleWarmupNodes : M R () :=
  r ← gets fsm;
  if bool_decide (0 < Size (WarmupNodes (couchbase r)))%nat && Empty (DownNodes (couchbase r))
  then abort "pods are warming up" else mret tt.

(** Both branches of the loop destroy the member; they differ in what is logged. *)
Definition handleUnclusteredNodes (pos : list nat) : M R () :=
  r ← gets fsm;
  if Empty (unclusteredMembers r) then mret tt
  else for_each (λ e : string * Member, destroyMember (0%nat :: pos) e.1 (shouldRemoveVolumes e.1 r))
         (range (1%nat :: pos) (unclusteredMembers r)).

Definition removeMemberIfUnknownServerConfig (m : Member) : M R () :=
  c ← gets cl;
  match GetServerConfigByName (Spec (c_cluster c)) (Config m) with
  | Some _ => mret tt
  | None =>
      r ← attempt (on_world (retry_for (cb_GetPools (ToMembers {[Name m := m]}))));
      match r with inl _ => mret tt | inr _ => abort "unknown node is going down" end;;
      removeMemberUser m
  end.

Definition handleUnknownServerConfigs (pos : list nat) : M R () :=
  r ← gets fsm;
  for_each (λ e : string * Member, removeMemberIfUnknownServerConfig e.2) (range pos (clusteredMembers r)).

(** [handleRebalance], after a rebalance that failed: the members whose delta
    recovery is to blame. *)
Definition delta_member (c : Cluster) (deltaNodes : MemberSet) (e : string * Member) : M R MemberSet :=
  info ← on_world (cb_GetPoolsDefault (ToMembers (readyMembers c)));
  node ← lift (GetNode info (GetHostName e.2));
  mret (if bool_decide (ni_RecoveryType node = RecoveryTypeDelta) then Add e.2 deltaNodes else deltaNodes).

Definition rebalance_failed (pos : list nat) (e : error) : M R () :=
  r ← gets fsm; c ← gets cl;
  let addNodes := Merge (Copy (AddBackNodes (couchbase r))) (PendingAddNodes (couchbase r)) in
  deltaNodes ← for_fold (delta_member c) ∅ (range (0%nat :: pos) addNodes);
  if negb (Empty deltaNodes) then
    for_each (λ m : string * Member,
        on_world (cb_SetRecoveryType (GetOTPNode m.2) RecoveryTypeFull (ToMembers (readyMembers c))))
      (range (1%nat :: pos) deltaNodes);;
    abort "rebalance failed, retrying with full recovery"
  else throw e.

Definition clear_ejection_marks (m : Member) : M R () :=
  ignore_error (on_world (ClearPodPendingUpgradeBeforeEjection (Name m)));;
  ignore_error (on_world (ClearPodPendingEjection (Name m))).

Definition handleRebalance (pos : list nat) : M R () :=
  r ← gets fsm; c ← gets cl; w ← gets world;
  if negb (shouldRebalance c w r) then mret tt
  else if bool_decide (0 < Size (podsBlockingRebalance c w r))%nat then mret tt
  else
    on_world (ps_Upsert RebalanceClusteredMembers (strings_Join (Names (clusteredMembers r)) ","));;
    on_world (ps_Upsert RebalanceEjectMembers (strings_Join (Names (ejectMembers r)) ","));;
    for_each (λ e : string * Member, on_world (FlagPodUnready (Name e.2)))
      (range (0%nat :: pos) (ejectMembers r));;
    outcome ← attempt (rebalanceWithRetriesOnVerifyFails (1%nat :: pos) (clusteredMembers r)
                         (ejectMembers r) (rebalanceRetries r));
    match outcome with
    | inr e => rebalance_failed (2%nat :: pos) e
    | inl _ => for_each (λ e : string * Member, clear_ejection_marks e.2) (range (3%nat :: pos) (ejectMembers r))
    end.

(** The pod of one ejected member, unless it is still marked. *)
Definition eject_pod (pos : list nat) (r : ReconcileMachine) (name : string) : M R () :=
  w ← gets world;
  match Pods_Get w name with
  | Some pod =>
      if IsPodPendingAnyEjection pod then mret tt
      else destroyMember pos name (shouldRemoveVolumes name r)
  | None => destroyMember pos name (shouldRemoveVolumes name r)
  end.

Definition handleEjectedMembers (pos : list nat) : M R () :=
  r ← gets fsm; c ← gets cl; w ← gets world;
  if negb (canRebalance c w r) then mret tt
  else if bool_decide (0 < Size (podsBlockingRebalance c w r))%nat then mret tt
  else for_each (λ e : string * Member, eject_pod (0%nat :: pos) r e.1) (range (1%nat :: pos) (ejectMembers r)).

Definition handleNotifyFinished : M R () := mret tt.
End rebalance.
