(* ===== verification/Baseline.v ===== *)
(** * pkg/cluster/member.go, pod.go: who the members are, and the version of the cluster

    The members as pods and volume claims tell them ([updateMembers]), the versions
    of members Couchbase is asked for, and the version recorded for the cluster (its
    baseline), which follows the lowest of the members.  A member is one object, shared
    by [c.members] and [c.callableMembers]: a change of its version shows in both. *)

From Stdlib Require Import Ascii.
From S2P Require Import Prelude Effects GoLib Regex Digests Version Api Member Persistence Status.
From S2P Require Import UpgradeOrder RollingUpgrade NodeStatus Pods Volumes Machine Rebalance.
Local Open Scope Z_scope.

Definition PVCImageAnnotation : string := "pvc.couchbase.com/image".
Definition AnnotationVolumeNodeConf : string := "serverConfig".
Definition PodRunning : string := "Running".

Definition IsTLSEnabled (c : Cluster) : bool :=
  match net_TLS (c_networking c) with
  | Some tls => TLS_Static tls || TLS_SecretSource tls
  | None => false
  end.

Definition IsLogPVC (pvc : PVC) : bool :=
  bool_decide (annotations pvc !! AnnotationVolumeMountPath = Some CouchbaseVolumeMountLogsDir).

Definition set_learned (t : gmap string string) (c : Cluster) : Cluster :=
  mkCluster (c_cluster c) (c_networking c) (c_settings c) (c_UID c) (c_members c) (c_callableMembers c)
    (c_recoveryTime c) (c_lastRecoveryAttemptTime c) (c_lastSuccessfulRecoveryTime c) t.

(** [member.SetVersion], on the object both sets refer to. *)
Definition set_member_version (name version : string) (c : Cluster) : Cluster :=
  let set m := Member.SetVersion m version in
  set_members (alter set name (c_members c)) (alter set name (c_callableMembers c)) c.

Definition set_pod_annotation (key value : string) (pod : KPod) : KPod :=
  mkKPod (kp_Name pod) (kp_Namespace pod) (kp_Labels pod) (<[key := value]> (kp_Annotations pod))
    (kp_OwnerReferences pod) (kp_Containers pod) (kp_ContainerStatuses pod) (kp_Conditions pod)
    (kp_Terminating pod) (kp_CreationTimestamp pod) (kp_NodeName pod) (kp_NodeSelector pod) (kp_Phase pod).

(** [CouchbaseCluster.IsAtLeastVersion] *)
Definition IsAtLeastVersion `{Environment} (learned : gmap string string) (cc : CouchbaseCluster) (v : string) :
    result bool :=
  lowestImage ← LowestInUseCouchbaseVersionImage (Spec cc);
  tag ← CouchbaseImageVersion learned lowestImage;
  VersionAfter learned tag v.

Section baseline.
Context `{Platform W} `{PersistentStorage W} `{Environment} `{MapRange}.
Abbreviation R := (RS W).

(** ** The members *)

(** One claim of [PVCToMemberset]: the member it belongs to, if it can be brought
    back from it. *)
Definition claim_member (c : Cluster) (w : W) (pvc : PVC) : option Member :=
  if pvc_Terminating pvc then None
  else if bool_decide (pvc_Phase pvc ≠ ClaimBound) then None
  else if IsLogPVC pvc then None
  else if Backups_Get w (pvc_Name pvc) then None
  else
    match annotations pvc !! AnnotationVolumeMountPath, pvc_Labels pvc !! LabelNode,
          annotations pvc !! AnnotationVolumeNodeConf with
    | Some _, Some name, Some config =>
        Some (NewMember (Namespace (c_cluster c)) (Api.Name (c_cluster c)) name
                (annotation pvc CouchbaseVersionAnnotationKey) config (IsTLSEnabled c)
                (annotation pvc PVCImageAnnotation))
    | _, _, _ => None
    end.

Definition PVCToMemberset (c : Cluster) (w : W) : MemberSet :=
  add_all (omap (claim_member c w) (PVCs_List w)) ∅.

Definition pvcMembers (c : Cluster) (w : W) : MemberSet := PVCToMemberset c w.

(** The running ones of [getClusterPodsByPhase]. *)
Definition runningPods (c : Cluster) (w : W) : list KPod :=
  filter (λ pod, kp_Phase pod = PodRunning) (getClusterPods c w).

(** The members whose node is in a state [P] holds of. *)
Definition members_in (pos : list nat) (P : NodeState → bool) (status : ClusterState) (ms : MemberSet) : MemberSet :=
  fold_left (λ acc (e : string * Member),
      match NodeStates status !! e.1 with
      | Some state => if P state then Add e.2 acc else acc
      | None => acc
      end) (range pos ms) ∅.

(** The members, those that are ready and those that can be called.  The status comes
    from the running pods; without any there is none to ask. *)
Definition find_members (pos : list nat) : M R (MemberSet * MemberSet * MemberSet) :=
  c ← gets cl; w ← gets world;
  let runningMembers := podsToMemberSet (runningPods c w) in
  let ms := Merge (Merge ∅ runningMembers) (pvcMembers c w) in
  if Empty runningMembers then mret (ms, ∅, ∅)
  else
    outcome ← attempt (GetStatusUnsafe (0%nat :: pos) runningMembers);
    match outcome with
    | inr e => if IsMigrationCluster (c_cluster c) then mret (ms, ∅, ∅) else throw e
    | inl status =>
        mret (Merge ms (UnknownMembers status),
              members_in (1%nat :: pos) (λ st, bool_decide (st = NodeStateActive)) status runningMembers,
              members_in (1%nat :: pos) Callable status runningMembers)
    end.

Definition updateMembers (pos : list nat) : M R () :=
  found ← find_members pos;
  let '(ms, ready, callable) := found in
  updateMemberStatusWithClusterInfo ready (Diff ms ready);;
  modify (set_cl (set_members ms callable)).

(** ** The version of a member *)

(** One claim of the member: its annotation is changed in the cache, then written. *)
Definition stamp_claim (name version : string) (pvc : PVC) : M W () :=
  if negb (pvc_of name pvc) then mret tt
  else if bool_decide (annotation pvc CouchbaseVersionAnnotationKey = version) then mret tt
  else match pvc_Annotations pvc with
       | None => lift Panic
       | Some a => update_shared (with_annotations pvc (<[CouchbaseVersionAnnotationKey := version]> a))
       end.

(** On its pod and its claims. *)
Definition record_version (name version : string) : M W () :=
  w ← get;
  match Pods_Get w name with
  | None => throw ErrResourceRequired
  | Some pod =>
      if bool_decide (kp_Annotations pod !! CouchbaseVersionAnnotationKey = Some version) then mret tt
      else
        let pod := set_pod_annotation CouchbaseVersionAnnotationKey version pod in
        modify (cache_SetPod pod);;
        api_UpdatePod pod;;
        w ← get;
        for_each (stamp_claim name version) (PVCs_List w)
  end.

Definition updateMemberVersion (m : Member) (version : string) : M R () :=
  if negb (VersionKnown version) then mret tt
  else if bool_decide (MemberVersion m = version) then mret tt
  else
    modify (set_cl (set_member_version (Name m) version));;
    on_world (record_version (Name m) version).

(** The version of the image a pod runs, from Couchbase where the digest is new. *)
Definition resolve_version (m : Member) (image : string) : M R (option string) :=
  c ← gets cl;
  match CouchbaseImageVersion (c_learned c) image with
  | Panic => lift Panic
  | Err _ => mret None
  | Ok resolved =>
      if VersionKnown resolved then mret (Some resolved)
      else
        answer ← attempt (on_world (retry_for (cb_GetPools (ToMembers {[Name m := m]}))));
        match answer with
        | inr _ => mret None
        | inl info =>
            let '(learnedVersion, _, table) := UpdateImageDigestMap (c_learned c) image (pools_Version info) in
            modify (set_cl (set_learned table));;
            mret (Some learnedVersion)
        end
  end.

Definition fill_version (e : string * Member) : M R () :=
  let m := e.2 in
  w ← gets world;
  match Pods_Get w (Name m) with
  | None => mret tt
  | Some pod =>
      if kp_Terminating pod then mret tt
      else
        resolved ← resolve_version m (pod_image pod);
        match resolved with
        | None => mret tt
        | Some version => if VersionKnown (MemberVersion m) then mret tt else updateMemberVersion m version
        end
  end.

Definition reconcilePodServerVersions (pos : list nat) : M R () :=
  c ← gets cl;
  for_each fill_version (range pos (c_callableMembers c)).

(** ** The version of the cluster *)
Definition clusterVersion : M R string :=
  version ← attempt (on_world (ps_Get VersionKey));
  match version with
  | inl version => mret version
  | inr e =>
      c ← gets cl;
      let current := st_CurrentVersion (Status (c_cluster c)) in
      if bool_decide (current ≠ "") then mret current else throw e
  end.

(** The functions of [helper.go] and [upgrade.go], on the cluster as it is: what of it
    they read, the stored version and the orchestrator given. *)
Definition server_pod (pod : KPod) : ServerPod :=
  mkServerPod (kp_Containers pod) (kp_Annotations pod) (kp_NodeSelector pod).

Definition upgrade_view (c : Cluster) (w : W) (version orchestrator : result string) : UpgradeCluster :=
  mkUpgradeCluster (c_cluster c) (c_members c) (c_callableMembers c)
    (map_imap (λ name _, server_pod <$> Pods_Get w name) (c_members c)) version orchestrator.

(** Where neither the stored version nor the orchestrator is read. *)
Definition members_view (c : Cluster) (w : W) : UpgradeCluster :=
  upgrade_view c w (Err ErrInternalError) (Err ErrInternalError).

Definition setClusterVersion (version : string) : M R () :=
  if negb (VersionKnown version) then mret tt
  else
    current ← attempt (on_world (ps_Get VersionKey));
    c ← gets cl; w ← gets world;
    if bool_decide (current = inl version) then modify (set_cl (set_status (SetVersion version)))
    else if negb (allMemberVersionsKnown (members_view c w)) then mret tt
    else
      on_world (ps_Upsert VersionKey version);;
      modify (set_cl (set_status (SetVersion version))).

Definition updateVersionBaseline (pos : list nat) (learned : string) : M R () :=
  c ← gets cl; w ← gets world;
  let lowest := GetLowestKnownMemberVersion (c_learned c) pos (members_view c w) in
  setClusterVersion (if bool_decide (lowest = "") then learned else lowest).

Definition reconcileVersionBaseline (pos : list nat) : M R () := updateVersionBaseline pos "".

(** ** The images of claims *)

(** "" where there is nothing to write. *)
Definition pvcImageToStamp (pvc : PVC) (pod : option KPod) : string :=
  match annotations pvc !! PVCImageAnnotation with
  | Some _ => ""
  | None =>
      match pod with
      | Some pod => if kp_Terminating pod then "" else pod_image pod
      | None => ""
      end
  end.

Definition stamp_image (pvc : PVC) : M W () :=
  if IsLogPVC pvc then mret tt
  else match pvc_Labels pvc !! LabelNode with
       | None => mret tt
       | Some name =>
           w ← get;
           let image := pvcImageToStamp pvc (Pods_Get w name) in
           if bool_decide (image = "") then mret tt
           else api_UpdatePVC (with_annotations pvc (<[PVCImageAnnotation := image]> (annotations pvc)))
       end.

Definition reconcilePVCImages : M R () :=
  w ← gets world;
  on_world (for_each stamp_image (PVCs_List w)).

(** ** An upgrade while hibernated *)
Definition restamp_claim (memberName image version : string) (pvc : PVC) : M W () :=
  if negb (pvc_of memberName pvc) then mret tt
  else
    let a := annotations pvc in
    let current := default "" (a !! CouchbaseVersionAnnotationKey) in
    if bool_decide (default "" (a !! PVCImageAnnotation) = image) &&
       (bool_decide (current = version) ||
        negb (VersionKnown version) && bool_decide (a !! CouchbaseVersionAnnotationKey = None))
    then mret tt
    else
      let a := <[PVCImageAnnotation := image]> a in
      api_UpdatePVC (with_annotations pvc
        (if VersionKnown version then <[CouchbaseVersionAnnotationKey := version]> a
         else delete CouchbaseVersionAnnotationKey a)).

Definition restampPVCImage (memberName image version : string) : M R () :=
  w ← gets world;
  on_world (for_each (restamp_claim memberName image version) (PVCs_List w)).

(** Who is to ask for the orchestrator ([selectCandidatesByNodesOrder]): nobody
    while hibernated, and only the order by nodes needs it. *)
Definition asks_orchestrator (c : Cluster) : bool :=
  match cs_Upgrade (Spec (c_cluster c)) with
  | Some u => bool_decide (us_UpgradeOrderType u = UpgradeOrderTypeNodes) && negb (Empty (readyMembers c))
  | None => false
  end.

Definition query_orchestrator : M R (result string) :=
  c ← gets cl;
  if asks_orchestrator c then
    info ← attempt (on_world (cb_GetTerseClusterInfo (ToMembers (readyMembers c))));
    mret (match info with inl info => Ok (Orchestrator info) | inr e => Err e end)
  else mret (Err ErrInternalError).

(** An unresolvable version is told apart by its image. *)
Definition versionKey (version image : string) : string :=
  if VersionKnown version then version else image.

Definition versions_in_use (newVersion newImage : string) (ms : MemberSet) : gset string :=
  {[versionKey newVersion newImage]} ∪
  list_to_set ((λ m, versionKey (MemberVersion m) (GetImage m)) <$> members ms).

Definition needs_offline_upgrade (learned : gmap string string) (newVersion newImage : string) (m : Member) : bool :=
  if bool_decide (GetImage m = newImage) then false
  else match VersionBefore learned newVersion (MemberVersion m) with Ok true => false | _ => true end.

Definition offline_needs (learned : gmap string string) (newVersion newImage : string) (ms : MemberSet) : MemberSet :=
  filter (λ e : string * Member, needs_offline_upgrade learned newVersion newImage e.2 = true) ms.

(** How many are still to change: all but [keepOld], of which those on the target, or
    held for a rollback, are done. *)
Definition offline_remaining (keepOld : Z) (ms needsUpgrade : MemberSet) : Z :=
  let total := Z.of_nat (size ms) in
  let numToUpgrade := wrap64 (total - Z.min keepOld total) in
  wrap64 (numToUpgrade - (total - Z.of_nat (size needsUpgrade))).

Definition keep_old (c : Cluster) : Z :=
  match cs_Upgrade (Spec (c_cluster c)) with Some u => us_PreviousVersionPodCount u | None => 0 end.

(** The members to be woken on the new image, and whether three versions are in use. *)
Definition offlineUpgradeCandidates : M R (list Member * bool) :=
  c ← gets cl;
  let newImage := CouchbaseImage (Spec (c_cluster c)) in
  newVersion ← lift (CouchbaseImageVersion (c_learned c) newImage);
  if bool_decide (size (c_members c) = 0%nat) then mret ([], false)
  else if bool_decide (2 < size (versions_in_use newVersion newImage (c_members c)))%nat then mret ([], true)
  else
    let needsUpgrade := offline_needs (c_learned c) newVersion newImage (c_members c) in
    let remaining := offline_remaining (keep_old c) (c_members c) needsUpgrade in
    if bool_decide (remaining ≤ 0) then mret ([], false)
    else
      orchestrator ← query_orchestrator;
      w ← gets world;
      let ordered := sortCandidatesByUpgradeOrder
        (upgrade_view c w (Err ErrInternalError) orchestrator) needsUpgrade in
      mret (take (Z.to_nat remaining) ordered, false).
End baseline.
