(* ===== verification/Buckets.v ===== *)
(** * pkg/apis/couchbase/v2/helpers.go: what a bucket gets without asking for it

    The version a cluster is taken to run, and from it the storage backend and the number
    of vbuckets of a bucket that does not name them. *)

From S2P Require Import Prelude GoLib Version Api Status Machine Baseline.
Local Open Scope Z_scope.

Definition CouchbaseStorageBackendMagma : string := "magma".
Definition CouchbaseStorageBackendCouchstore : string := "couchstore".
Definition DefaultNumVBucketsMagma : Z := 128.
Definition DefaultNumVBucketsCouchstore : Z := 1024.

(** Of the specification of a [CouchbaseBucket]. *)
Record BackendSpec := mkBackendSpec {
  StorageBackend : string;
  SampleBucket : bool;
  CollectionDefault : option bool;   (* of the history retention settings *)
}.

(** A bucket as the status of the cluster has it. *)
Record StatusBucket := mkBucketStatus {
  bst_BucketName : string;
  bst_BucketType : string;
  bst_BucketStorageBackend : string;
  bst_NumVBuckets : option Z;
  bst_BucketMemoryQuota : Z;
  bst_ConflictResolution : string;
}.
#[export] Instance StatusBucket_eq_dec : EqDecision StatusBucket.
Proof. solve_decision. Defined.

Definition named_status (buckets : list StatusBucket) (bucketName : string) : option StatusBucket :=
  find (λ bucket, bool_decide (bst_BucketName bucket = bucketName)) buckets.

Definition GetBucketVBucketsFromStatus (buckets : list StatusBucket) (bucketName : string) : option Z :=
  b ← named_status buckets bucketName; bst_NumVBuckets b.

Definition GetBucketStorageBackendFromStatus (buckets : list StatusBucket) (bucketName : string) : string :=
  from_option bst_BucketStorageBackend "" (named_status buckets bucketName).

Section buckets.
Context `{Environment} (learned : gmap string string).

Definition RunningVersion (cc : CouchbaseCluster) (tag : string) : result bool :=
  let current := st_CurrentVersion (Status cc) in
  if bool_decide (current ≠ "") then VersionAfter learned current tag else IsAtLeastVersion learned cc tag.

(** [defaultBackend] is the one of the specification of the cluster. *)
Definition GetDefaultBucketStorageBackend (cc : CouchbaseCluster) (defaultBackend : string) : string * bool :=
  if bool_decide (defaultBackend ≠ "") then (defaultBackend, true)
  else match RunningVersion cc "8.0.0" with
       | Ok true => (CouchbaseStorageBackendMagma, false)
       | _ => (CouchbaseStorageBackendCouchstore, false)
       end.

(** [fromStatus]: the backend the status of the cluster has for the bucket. *)
Definition GetStorageBackend (cc : CouchbaseCluster) (defaultBackend fromStatus : string) (b : BackendSpec) : string * bool :=
  let fallback :=
    if bool_decide (StorageBackend b ≠ "") then (StorageBackend b, true)
    else (CouchbaseStorageBackendCouchstore, false) in
  match RunningVersion cc "7.1.0" with
  | Ok false => (CouchbaseStorageBackendCouchstore, false)
  | Ok true =>
      if SampleBucket b then
        match RunningVersion cc "8.0.0" with
        | Ok true => (CouchbaseStorageBackendMagma, false)
        | Ok false => (CouchbaseStorageBackendCouchstore, false)
        | _ => fallback
        end
      else if bool_decide (StorageBackend b ≠ "") then (StorageBackend b, true)
      else
        let '(backend, explicit) := GetDefaultBucketStorageBackend cc defaultBackend in
        if explicit : bool then (backend, true)
        else if bool_decide (fromStatus ≠ "") then (fromStatus, false) else (backend, false)
  | _ => fallback
  end.
End buckets.
