(* ===== verification/PreviousVersion.v ===== *)
(** * pkg/cluster/upgrade.go, helper.go: new pods on the previous version

    While part of a cluster is to stay on the version before the upgrade
    ([previousVersionPodCount]), a scale up creates some of its pods there
    ([applyPreviousVersionToNewPods]); and what the versions that run say of the
    features there are ([SupportsVersionFeatures] and others). *)

From Stdlib Require Import Ascii.
From S2P Require Import Prelude Effects GoLib Regex Digests Version Api Member Persistence Status.
From S2P Require Import UpgradeOrder RollingUpgrade NodeStatus Pods Volumes Machine Rebalance Baseline.
Local Open Scope Z_scope.

(** ** Which of the additions

    [old class] is the number of the members of the class that run the old version. *)
Definition old_members (ms : MemberSet) (baselineVersion : string) : list Member :=
  filter (λ m, MemberVersion m = baselineVersion) (members ms).

Definition old_in_class (ms : MemberSet) (baselineVersion class : string) : Z :=
  Z.of_nat (length (filter (λ m, Config m = class) (old_members ms baselineVersion))).

(** The positions of the additions of a class. *)
Definition additions_of (additions : list ServerConfig) (class : string) : list nat :=
  filter (λ i, from_option sc_Name "" (additions !! i) = class) (seq 0 (length additions)).

(** The walk from the class that is upgraded last: the members there are come first. *)
Fixpoint spend (old : string → Z) (additions : list ServerConfig) (budget : Z) (classes : list string) : list nat :=
  match classes with
  | [] => []
  | className :: classes =>
      if bool_decide (budget ≤ 0) then []
      else
        let budget := budget - old className in
        if bool_decide (budget ≤ 0) then []
        else
          let here := take (Z.to_nat budget) (rev (additions_of additions className)) in
          here ++ spend old additions (budget - Z.of_nat (length here)) classes
  end.

Definition set_images (image : string) (positions : list nat) (additions : list ServerConfig) : list ServerConfig :=
  imap (λ i a, if bool_decide (i ∈ positions) then with_image a image else a) additions.

Section order.
Context (c : UpgradeCluster).

(** By services: the classes as their first service comes. *)
Definition classes_by_service : list string :=
  fold_left (λ classOrder svc,
      fold_left (λ classOrder sc,
          if bool_decide (sc_Name sc ∉ classOrder) && HasService sc svc
          then classOrder ++ [sc_Name sc] else classOrder)
        (cs_Servers (Spec (u_cluster c))) classOrder)
    (serviceUpgradeOrder c) [].

Definition buildClassOrder : list string :=
  match cs_Upgrade (Spec (u_cluster c)) with
  | None => []
  | Some u =>
      if bool_decide (us_UpgradeOrderType u = UpgradeOrderTypeServerClasses) then serverClassUpgradeOrder c
      else if bool_decide (us_UpgradeOrderType u = UpgradeOrderTypeServices) then classes_by_service
      else []
  end.

(** The positions that are to have the old image: where the order of the additions is
    known, and where it is not. *)
Definition applyPreviousVersionCandidateKnown (baselineVersion : string) (pvpc : Z) (additions : list ServerConfig) :
    list nat :=
  spend (old_in_class (u_members c) baselineVersion) additions pvpc (rev buildClassOrder).

Definition applyPreviousVersionCandidateUnknown (baselineVersion : string) (pvpc : Z)
    (additions : list ServerConfig) : result (list nat) :=
  let newPodsOnOldVersion := wrap64 (pvpc - Z.of_nat (length (old_members (u_members c) baselineVersion))) in
  if bool_decide (newPodsOnOldVersion ≤ 0) then Ok []
  else if bool_decide (Z.of_nat (length additions) < newPodsOnOldVersion) then Err ErrNewPodsExceedAdditions
  else Ok (seq 0 (Z.to_nat newPodsOnOldVersion)).
End order.

Section previous_version.
Context `{Platform W} `{PersistentStorage W} `{Environment} `{MapRange}.
Abbreviation R := (RS W).

(** ** Versions and features *)

(** Couchbase says of the compatibility version only the first two numbers. *)
Definition with_patch (compatVersion : string) : string :=
  if bool_decide (length (strings_Split compatVersion "."%char) = 2%nat) then compatVersion +:+ ".0" else compatVersion.

Definition CheckClusterCompatVersion (version : string) (compatAfter : bool) : M R bool :=
  c ← gets cl;
  info ← on_world (cb_GetTerseClusterInfo (ToMembers (readyMembers c)));
  let compatVersion := with_patch (ClusterCompatVersion info) in
  lift (if compatAfter then VersionAfter (c_learned c) compatVersion version
        else
          before ← VersionBefore (c_learned c) compatVersion version;
          equal ← VersionEqual (c_learned c) compatVersion version;
          Ok (before || equal)).

Definition is_true (r : result bool) : bool := match r with Ok b => b | _ => false end.

Definition SupportsVersionFeatures (pos : list nat) (version : string) : M R bool :=
  compat ← attempt (CheckClusterCompatVersion version true);
  match compat with
  | inl versionAfter => mret versionAfter
  | inr _ =>
      c ← gets cl; w ← gets world;
      let lowestVersion := GetLowestKnownMemberVersion (c_learned c) pos (members_view c w) in
      mret (is_true (if bool_decide (lowestVersion = "") then IsAtLeastVersion (c_learned c) (c_cluster c) version
                     else VersionAfter (c_learned c) lowestVersion version))
  end.

(** Every member, external ones too, says that it runs the version or a later one. *)
Definition SupportsMaintenanceVersionFeatures (c : Cluster) (version : string) : bool :=
  negb (Empty (c_members c)) &&
  forallb (λ m, VersionKnown (MemberVersion m) && is_true (VersionAfter (c_learned c) (MemberVersion m) version))
    (members (c_members c)).

(** The pods that there are run the version or a later one, by their images. *)
Fixpoint containers_at_least (learned : gmap string string) (v : string) (l : list (string * string)) : result bool :=
  match l with
  | [] => Ok true
  | (name, image) :: l =>
      if bool_decide (name ≠ CouchbaseContainerName) then containers_at_least learned v l
      else
        tag ← CouchbaseImageVersion learned image;
        available ← VersionAfter learned tag v;
        if available : bool then containers_at_least learned v l else Ok false
  end.

Fixpoint pods_at_least (learned : gmap string string) (w : W) (v : string) (l : list (string * Member)) : result bool :=
  match l with
  | [] => Ok true
  | e :: l =>
      match Pods_Get w e.1 with
      | None => pods_at_least learned w v l
      | Some pod =>
          enough ← containers_at_least learned v (kp_Containers pod);
          if enough : bool then pods_at_least learned w v l else Ok false
      end
  end.

Definition RunningVersionIsAtLeast (pos : list nat) (c : Cluster) (w : W) (v : string) : result bool :=
  if bool_decide (size (c_members c) = 0%nat) then IsAtLeastVersion (c_learned c) (c_cluster c) v
  else pods_at_least (c_learned c) w v (range pos (c_members c)).

(** ** The image of a version

    Of a running pod, or else as a claim of a member remembers it. *)
Definition pod_image_for (version : string) (pod : KPod) : option string :=
  if bool_decide (kp_Annotations pod !! CouchbaseVersionAnnotationKey = Some version)
  then snd <$> find (λ con, bool_decide (con.1 = CouchbaseContainerName)) (kp_Containers pod) else None.

Definition claim_image_for (name : string) (pvc : PVC) : option string :=
  if bool_decide (pvc_Labels pvc !! LabelNode = Some name) then annotations pvc !! PVCImageAnnotation else None.

Definition member_image_for (w : W) (version : string) (m : Member) : option string :=
  if bool_decide (MemberVersion m ≠ version) then None else head (omap (claim_image_for (Name m)) (PVCs_List w)).

Definition GetRunningImageForVersion (pos : list nat) (c : Cluster) (w : W) (version : string) : string :=
  match head (omap (pod_image_for version) (runningPods c w)) with
  | Some image => image
  | None => default "" (head (omap (member_image_for w version) (range pos (c_members c)).*2))
  end.

(** ** The additions of a scale up *)
Definition previous_positions (pos : list nat) (u : UpgradeSpec) (baselineVersion : string)
    (additions : list ServerConfig) : M R (list nat * string) :=
  compat ← attempt (CheckClusterCompatVersion baselineVersion false);
  c ← gets cl; w ← gets world;
  let view := members_view c w in
  match compat with
  | inl false => throw ErrClusterNoLongerCompatible
  | _ =>
      if match compat with inl _ => false | inr _ => true end &&
         bool_decide (GetLowestKnownMemberVersion (c_learned c) (0%nat :: pos) view =
                      GetHighestKnownMemberVersion (c_learned c) (1%nat :: pos) view)
      then mret ([], "")
      else
        let baselineImage := GetRunningImageForVersion (2%nat :: pos) c w baselineVersion in
        if bool_decide (baselineImage = "") then throw ErrOldImageNotFound
        else
          let pvpc := us_PreviousVersionPodCount u in
          positions ← lift
            (if bool_decide (us_UpgradeOrderType u = UpgradeOrderTypeServerClasses) ||
                bool_decide (us_UpgradeOrderType u = UpgradeOrderTypeServices)
             then Ok (applyPreviousVersionCandidateKnown view baselineVersion pvpc additions)
             else applyPreviousVersionCandidateUnknown view baselineVersion pvpc additions);
          mret (positions, baselineImage)
  end.

Definition apply_previous (pos : list nat) (additions : list ServerConfig) : M R (list ServerConfig) :=
  c ← gets cl;
  match cs_Upgrade (Spec (c_cluster c)) with
  | None => mret additions
  | Some u =>
      if bool_decide (us_PreviousVersionPodCount u = 0) then mret additions
      else
        targetVersion ← lift (CouchbaseImageVersion (c_learned c) (CouchbaseImage (Spec (c_cluster c))));
        baselineVersion ← Baseline.clusterVersion;
        if bool_decide (targetVersion = baselineVersion) then mret additions
        else
          plan ← previous_positions pos u baselineVersion additions;
          mret (set_images plan.2 plan.1 additions)
  end.

(** The list as it is left, with the error: no image is set where there is one. *)
Definition applyPreviousVersionToNewPods (pos : list nat) (additions : list ServerConfig) :
    M R (list ServerConfig * option error) :=
  applied ← attempt (apply_previous pos additions);
  mret (match applied with inl additions => (additions, None) | inr e => (additions, Some e) end).
End previous_version.

(** ** Lemmas: the walk *)
Definition class_at (additions : list ServerConfig) (i : nat) : string := from_option sc_Name "" (additions !! i).

(** How many of the positions are of the class. *)
Definition given (additions : list ServerConfig) (positions : list nat) (class : string) : Z :=
  Z.of_nat (length (filter (λ i, class_at additions i = class) positions)).

Definition sum_over (f : string → Z) (classes : list string) : Z := foldr (λ c acc, f c + acc) 0 classes.

Section walk.
Context (old : string → Z) (Hold : ∀ c, 0 ≤ old c) (additions : list ServerConfig).

Lemma elem_of_additions i class :
  i ∈ additions_of additions class ↔ (i < length additions)%nat ∧ class_at additions i = class.
Proof. unfold additions_of. rewrite list_elem_of_filter, elem_of_seq. unfold class_at. split; intros []; split; auto; lia. Qed.

Lemma additions_NoDup class : NoDup (additions_of additions class).
Proof. apply NoDup_filter, NoDup_seq. Qed.

Lemma given_app l l' class : given additions (l ++ l') class = given additions l class + given additions l' class.
Proof. unfold given. rewrite filter_app, length_app. lia. Qed.

Lemma given_all l class : (∀ i, i ∈ l → class_at additions i = class) → given additions l class = Z.of_nat (length l).
Proof.
  unfold given. intros Hl. induction l as [|i l IH]; [done|].
  rewrite filter_cons_True by (apply Hl; by left).
  simpl. rewrite !Nat2Z.inj_succ, IH; [done|]. intros j Hj. apply Hl. by right.
Qed.

Lemma given_none l class : (∀ i, i ∈ l → class_at additions i ≠ class) → given additions l class = 0.
Proof.
  unfold given. intros Hl. induction l as [|i l IH]; [done|].
  rewrite filter_cons_False by (apply Hl; by left). apply IH. intros j Hj. apply Hl. by right.
Qed.

Lemma given_nonneg l class : 0 ≤ given additions l class.
Proof. unfold given. lia. Qed.

Lemma sum_over_nonneg f classes : (∀ c, 0 ≤ f c) → 0 ≤ sum_over f classes.
Proof. intros Hf. induction classes as [|c l IH]; simpl; [lia|]. specialize (Hf c). lia. Qed.

Lemma sum_over_ext f g classes : (∀ c, c ∈ classes → f c = g c) → sum_over f classes = sum_over g classes.
Proof.
  intros Hfg. induction classes as [|c l IH]; simpl; [done|].
  rewrite Hfg by (by left). rewrite IH; [done|]. intros x Hx. apply Hfg. by right.
Qed.

(** What the walk gives to a class, where the budget was spent before and where not. *)
Definition share_ok (budget : Z) (positions : list nat) (classes : list string) : Prop :=
  ∀ l1 class l2, classes = l1 ++ class :: l2 →
    let used := sum_over (λ c, old c + given additions positions c) (l1 ++ [class]) in
    (given additions positions class = 0 ∨ used ≤ budget) ∧
    (given additions positions class < Z.of_nat (length (additions_of additions class)) → budget ≤ used).

Lemma share_none budget class classes :
  budget ≤ old class → share_ok budget [] (class :: classes).
Proof.
  intros Hb l1 c l2 Hc. split; [by left|]. intros _.
  assert (∀ l, 0 ≤ sum_over (λ c, old c + given additions [] c) l) as Hs
    by (intros l; apply sum_over_nonneg; intros x; specialize (Hold x); unfold given; simpl; lia).
  destruct l1 as [|x l1]; injection Hc as -> Hc; simpl; [unfold given; simpl; lia|].
  specialize (Hs (l1 ++ [c])). unfold given at 1. simpl. lia.
Qed.

Lemma spend_spec classes : ∀ budget, NoDup classes →
  let positions := spend old additions budget classes in
  NoDup positions ∧ (∀ i, i ∈ positions → (i < length additions)%nat ∧ class_at additions i ∈ classes) ∧
  share_ok budget positions classes.
Proof.
  induction classes as [|class classes IH]; intros budget Hnd; simpl.
  { split; [constructor|]. split; [intros i Hi; by apply not_elem_of_nil in Hi|]. intros [] ? ? [=]. }
  apply NoDup_cons in Hnd as [Hni Hnd].
  assert (∀ b, b ≤ old class → NoDup ([] : list nat) ∧
    (∀ i, i ∈ ([] : list nat) → (i < length additions)%nat ∧ class_at additions i ∈ class :: classes) ∧
    share_ok b [] (class :: classes)) as Hstop.
  { intros b Hb. split; [constructor|]. split; [intros i Hi; by apply not_elem_of_nil in Hi|]. by apply share_none. }
  pose proof (Hold class) as Hc0.
  case_bool_decide as Hb; [apply Hstop; lia|]. case_bool_decide as Hb'; [apply Hstop; lia|].
  set (here := take (Z.to_nat (budget - old class)) (rev (additions_of additions class))).
  assert (∀ i, i ∈ here → i ∈ additions_of additions class) as Hin.
  { intros i Hi. rewrite (Permutation_rev (additions_of additions class)). rewrite <- (take_drop (Z.to_nat (budget - old class)) (rev _)).
    apply elem_of_app. by left. }
  assert (NoDup here) as Hnh.
  { eapply sublist_NoDup; [|apply sublist_take]. rewrite <- Permutation_rev. apply additions_NoDup. }
  assert (∀ i, i ∈ here → class_at additions i = class) as Hhc.
  { intros i Hi. by destruct (proj1 (elem_of_additions _ _) (Hin i Hi)). }
  assert (Z.of_nat (length here) =
    Z.min (budget - old class) (Z.of_nat (length (additions_of additions class)))) as Hlen.
  { unfold here. rewrite length_take, length_rev. lia. }
  destruct (IH (budget - old class - Z.of_nat (length here)) Hnd) as (Hn&Hi&Hshare).
  set (rest := spend _ _ _ classes) in *.
  assert (∀ i, i ∈ rest → class_at additions i ≠ class) as Hrc.
  { intros i Hr Heq. apply Hi in Hr as [_ Hr]. by rewrite Heq in Hr. }
  assert (given additions (here ++ rest) class = Z.of_nat (length here)) as Hgc.
  { rewrite given_app, given_all, given_none by done. lia. }
  assert (∀ c, c ∈ classes → given additions (here ++ rest) c = given additions rest c) as Hgo.
  { intros c Hc. rewrite given_app, (given_none here); [lia|]. intros i Hh Heq. apply Hhc in Hh. congruence. }
  split; [|split].
  - apply NoDup_app. split; [done|]. split; [|done]. intros i Hh Hr. apply (Hrc i Hr). by apply Hhc.
  - intros i [Hh|Hr]%elem_of_app.
    + destruct (proj1 (elem_of_additions _ _) (Hin i Hh)) as [? ->]. split; [done|by left].
    + apply Hi in Hr as [? ?]. split; [done|by right].
  - intros l1 c l2 Hc. destruct l1 as [|x l1]; injection Hc as -> Hc; simpl.
    + rewrite Hgc. split; [right|intros]; lia.
    + rewrite Hgc. destruct (Hshare l1 c l2 Hc) as [Hs1 Hs2].
      assert (∀ y, y ∈ l1 ++ [c] → y ∈ classes) as Hsub.
      { intros y Hy. rewrite Hc, cons_middle, app_assoc. apply elem_of_app. by left. }
      rewrite (Hgo c) by (apply Hsub, elem_of_app; right; by left).
      rewrite (sum_over_ext _ (λ c, old c + given additions rest c)) by (intros y Hy; rewrite Hgo; [done|by apply Hsub]).
      split; [destruct Hs1; [by left|right; lia]|intros Hlt; specialize (Hs2 Hlt); lia].
Qed.
End walk.

Lemma fold_add_NoDup {A} (ok : A → bool) (name : A → string) l : ∀ order, NoDup order →
  NoDup (fold_left (λ order x, if bool_decide (name x ∉ order) && ok x then order ++ [name x] else order) l order).
Proof.
  induction l as [|x l IH]; intros order Hnd; simpl; [done|].
  case_bool_decide as Hx; simpl; [|by apply IH]. destruct (ok x); [|by apply IH].
  apply IH, NoDup_app. split; [done|]. split; [|apply NoDup_singleton].
  intros y Hy ->%list_elem_of_singleton. by apply Hx.
Qed.

Lemma append_missing_NoDup extra : ∀ order, NoDup order → NoDup (append_missing order extra).
Proof.
  unfold append_missing. induction extra as [|x l IH]; intros order Hnd; simpl; [done|].
  case_bool_decide as Hx; apply IH; [done|]. apply NoDup_app. split; [done|]. split; [|apply NoDup_singleton].
  intros y Hy ->%list_elem_of_singleton. by apply Hx.
Qed.

Lemma buildClassOrder_NoDup c :
  NoDup (upgrade_order c) → NoDup (buildClassOrder c).
Proof.
  intros Hnd. unfold buildClassOrder.
  destruct (cs_Upgrade _) as [u|] eqn:Hu; [|constructor].
  case_bool_decide; [by apply append_missing_NoDup|].
  case_bool_decide; [|constructor].
  unfold classes_by_service. generalize (serviceUpgradeOrder c). intros l.
  assert (∀ order, NoDup order → NoDup (fold_left (λ classOrder svc,
    fold_left (λ classOrder sc, if bool_decide (sc_Name sc ∉ classOrder) && HasService sc svc
      then classOrder ++ [sc_Name sc] else classOrder) (cs_Servers (Spec (u_cluster c))) classOrder) l order)) as Hl.
  { induction l as [|svc l IH]; intros order Ho; simpl; [done|]. by apply IH, (fold_add_NoDup (λ sc, HasService sc svc)). }
  apply Hl. constructor.
Qed.

(** Where the order of the classes is known, the pods of a scale up that start on the
    previous version are those of the classes that are upgraded last.  For every class of
    the order, count what runs the old version, or is to, in it and in the classes after
    it: when the class gets a pod, that is at most [previousVersionPodCount]; and when the
    class gets fewer than there are additions for, it is at least that. *)
Theorem applyPreviousVersionCandidateKnown_greedy (c : UpgradeCluster) (baselineVersion : string) (pvpc : Z)
    (additions : list ServerConfig) (later earlier : list string) (class : string) :
  NoDup (upgrade_order c) →
  rev (buildClassOrder c) = later ++ class :: earlier →
  let positions := applyPreviousVersionCandidateKnown c baselineVersion pvpc additions in
  let used := sum_over (λ x, old_in_class (u_members c) baselineVersion x + given additions positions x)
                (later ++ [class]) in
  NoDup positions ∧ (∀ i, i ∈ positions → (i < length additions)%nat) ∧
  (given additions positions class = 0 ∨ used ≤ pvpc) ∧
  (given additions positions class < Z.of_nat (length (additions_of additions class)) → pvpc ≤ used).
Proof.
  intros Hnd Hc positions used.
  destruct (spend_spec (old_in_class (u_members c) baselineVersion) ltac:(intros; unfold old_in_class; lia)
    additions (rev (buildClassOrder c)) pvpc) as (Hn&Hi&Hs).
  { rewrite <- Permutation_rev. by apply buildClassOrder_NoDup. }
  split; [exact Hn|]. split; [intros i Hp; apply (Hi i Hp)|]. exact (Hs later class earlier Hc).
Qed.

Definition example_mixed : UpgradeCluster :=
  example_cluster (example_upgrade UpgradeOrderTypeServerClasses ["idx"; "data"] 5).

Definition example_additions : list ServerConfig :=
  [example_class "idx" "index"; example_class "data" "data"; example_class "data" "data"; example_class "data" "data"].

Lemma applyPreviousVersionCandidateKnown_greedy_witness :
  let positions := applyPreviousVersionCandidateKnown example_mixed "7.2.5" 5 example_additions in
  positions = [3; 2]%nat ∧
  sum_over (λ x, old_in_class example_members "7.2.5" x + given example_additions positions x) ["data"] = 5 ∧
  (given example_additions positions "data" = 0 ∨
   sum_over (λ x, old_in_class example_members "7.2.5" x + given example_additions positions x) ["data"] ≤ 5).
Proof.
  intros positions. split; [vm_compute; reflexivity|]. split; [vm_compute; reflexivity|].
  apply (applyPreviousVersionCandidateKnown_greedy example_mixed "7.2.5" 5 example_additions [] ["idx"] "data").
  - apply (bool_decide_eq_true_1 (NoDup _)). vm_compute. reflexivity.
  - vm_compute. reflexivity.
Defined.
