(* ===== verification/Claims.v ===== *)
(** * pkg/util/k8sutil/pod_util.go: the claims of a pod

    Which volume claims a pod needs, which of them are to be created, updated or are
    being resized ([GetPodVolumes]), and the creation and deletion of a pod together
    with its claims.  Claims are objects that several lists share: a change of the
    annotations of one shows wherever it is listed. *)

From Stdlib Require Import Ascii.
From S2P Require Import Prelude Effects GoLib Regex Digests Version Api Member Persistence Status.
From S2P Require Import Scheduler UpgradeOrder RollingUpgrade NodeStatus Pods Volumes Baseline.
Local Open Scope Z_scope.

Definition PVCSpecAnnotation : string := "pvc.couchbase.com/spec".
Definition ResourceVersionAnnotation : string := "operator.couchbase.com/version".
Definition LabelVolumeName : string := "couchbase_volume".
Definition LabelDataVolume : string := "couchbase_data_volume".
Definition EKSTopologyLabel : string := "topology.ebs.csi.aws.com/zone".
Definition GKETopologyLabel : string := "topology.gke.io/zone".
Definition AzureTopologyLabel : string := "topology.disk.csi.azure.com/zone".
Definition ResourceStorage : string := "storage".
Definition couchbaseVolumeDefaultEtcDir : string := "/opt/couchbase/etc".
Definition defaultSubPathName : string := "default".
Definition etcSubPathName : string := "etc".
Definition minute : Z := 60 * 10 ^ 9.

(** A template of [spec.volumeClaimTemplates], and what else of the specification
    concerns volumes. *)
Record ClaimTemplate := mkTemplate {
  ct_Name : string;
  ct_Labels : gmap string string;
  ct_Annotations : gmap string string;
  ct_Spec : PVCSpec;
}.

Record StorageSpec := mkStorageSpec {
  VolumeClaimTemplates : list ClaimTemplate;
  Platform_type : string;
  OnlineVolumeExpansionTimeoutInMins : option Z;
  FSGroup : option Z;
}.

(** An event of the Kubernetes API. *)
Record Event := mkEvent { ev_Reason : string; ev_LastTimestamp : Z }.

(** [encoding/json] on the specification of a claim. *)
Class SpecJSON := {
  marshal_spec : PVCSpec → string;
  unmarshal_spec : string → result PVCSpec;
}.

(** An empty map is left out when written, and is nil when read again. *)
Definition omit_empty (m : option (gmap string Z)) : option (gmap string Z) :=
  match m with Some q => if bool_decide (q = ∅) then None else Some q | None => None end.

Definition json_form (spec : PVCSpec) : PVCSpec :=
  mkPVCSpec (omit_empty (Requests spec)) (omit_empty (Limits spec)) (AccessModes spec) (spec_rest spec).

Class SpecJSONLaws `{SpecJSON} := {
  unmarshal_marshal spec : unmarshal_spec (marshal_spec spec) = Ok (json_form spec);
}.

(** ** Templates *)
Definition GetVolumeClaimTemplate (storage : StorageSpec) (name : string) : option ClaimTemplate :=
  find (λ claim, bool_decide (name = ct_Name claim)) (VolumeClaimTemplates storage).

Definition HasAnyVolumeExpansionEnabled (spec : ClusterSpec) (storage : StorageSpec) : bool :=
  existsb (λ template, IsVolumeExpansionEnabled spec (ct_Annotations template)) (VolumeClaimTemplates storage).

(** [mergeLabels]: the second map wins. *)
Definition mergeLabels (l1 l2 : gmap string string) : gmap string string := l2 ∪ l1.

(** ** What a pod needs

    An annotation map made for a mount may be extended later, wherever it is listed:
    each entry says whose map its claim has ([Some] the name of the mount). *)
Abbreviation entry := (option string * PVC)%type.

Record VolumeState := mkVolumeState {
  vs_pvcs : list entry;
  vs_create : list entry;
  vs_update : list entry;
  vs_expanding : list PVC;
  resizeFailed : gmap string error;
  vs_volumes : list string;
  vs_volumeMounts : list (string * string * string);   (* name, mount path, sub-path *)
  RecordedServerGroup : string;
  vs_Image : string;
}.

Definition empty_volumes : VolumeState := mkVolumeState [] [] [] [] ∅ [] [] "" "".

Definition volumes_need_update (p : VolumeState) : bool :=
  bool_decide (length (vs_update p) ≠ 0%nat) || bool_decide (length (vs_create p) ≠ 0%nat) ||
  bool_decide (size (resizeFailed p) ≠ 0%nat).

Definition vs_lookup (name : string) (pvcs : list PVC) : option PVC :=
  find (λ pvc, bool_decide (pvc_Name pvc = name)) pvcs.

Definition IsUpdated (p : VolumeState) (name : string) : bool :=
  bool_decide (is_Some (vs_lookup name (vs_update p).*2)).
Definition IsExpanding (p : VolumeState) (name : string) : bool :=
  bool_decide (is_Some (vs_lookup name (vs_expanding p))).
Definition IsResizeFailed (p : VolumeState) (name : string) : bool :=
  bool_decide (is_Some (resizeFailed p !! name)).

(** A change of the annotation map made for [mount]. *)
Definition alter_shared (mount key value : string) (e : entry) : entry :=
  if bool_decide (e.1 = Some mount) then (e.1, with_annotations e.2 (<[key := value]> (annotations e.2))) else e.

Definition extend_shared (mount key value : string) (p : VolumeState) : VolumeState :=
  mkVolumeState (alter_shared mount key value <$> vs_pvcs p) (alter_shared mount key value <$> vs_create p)
    (alter_shared mount key value <$> vs_update p) (vs_expanding p) (resizeFailed p) (vs_volumes p)
    (vs_volumeMounts p) (RecordedServerGroup p) (vs_Image p).

(** [ResourceList.Storage()]: a missing quantity is zero, never nil. *)
Definition Storage (l : option (gmap string Z)) : Z := default 0 (l ≫= (.!! ResourceStorage)).
Definition drop_storage (l : option (gmap string Z)) : option (gmap string Z) := delete ResourceStorage <$> l.

(** [checkIfPVCRequiresUpdate], and what it leaves of the required specification,
    whose maps it changes. *)
Definition checkIfPVCRequiresUpdate (existingSpec requiredSpec : PVCSpec) : bool * PVCSpec :=
  if bool_decide (Storage (Requests existingSpec) ≠ Storage (Requests requiredSpec)) then (true, requiredSpec)
  else
    let drop_requests s := mkPVCSpec (drop_storage (Requests s)) (Limits s) (AccessModes s) (spec_rest s) in
    let drop_limits s := mkPVCSpec (Requests s) (drop_storage (Limits s)) (AccessModes s) (spec_rest s) in
    let existingSpec := drop_requests existingSpec in
    let requiredSpec := drop_requests requiredSpec in
    if bool_decide (Storage (Limits existingSpec) ≠ Storage (Limits requiredSpec)) then (true, requiredSpec)
    else
      let existingSpec := drop_limits existingSpec in
      let requiredSpec := drop_limits requiredSpec in
      (negb (bool_decide (existingSpec = requiredSpec)), requiredSpec).

(** The keys a resize must not lose. *)
Definition placement_keys : list string :=
  [AnnotationServerGroup; AnnotationAvailabilityZone; ServerGroupLabel_const; EKSTopologyLabel; GKETopologyLabel;
   AzureTopologyLabel].

Definition keep_placement (old new : gmap string string) : gmap string string :=
  foldl (λ new key, match old !! key with Some v => <[key := v]> new | None => new end) new placement_keys.

Section volumes.
Context `{Environment} `{SpecJSON} (operator_version : string).
Context (learned : gmap string string) (storage : StorageSpec) (cc : CouchbaseCluster).
(** The claims in the cache, the events of a claim and the time. *)
Context (pvcs : list PVC) (events : string → result (list Event)) (now : Z).

Definition generatePVC (m : Member) (mount : volumeMount) (config : ServerConfig) : result PVC :=
  let cbImage := ServerClassCouchbaseImage (Spec cc) (Some config) in
  version ← CouchbaseImageVersion learned cbImage;
  match GetVolumeClaimTemplate storage (persistentVolumeClaimTemplateName mount) with
  | None => Err ErrResourceAttributeRequired
  | Some template =>
      let labels : gmap string string :=
        {["app" := "couchbase"; LabelNode := Name m; LabelCluster := Api.Name cc;
          LabelVolumeName := persistentVolumeClaimTemplateName mount]} in
      let labels := if bool_decide (mountPath mount ≠ CouchbaseVolumeMountLogsDir)
                    then <[LabelDataVolume := "true"]> labels else labels in
      let annotations : gmap string string :=
        {[AnnotationVolumeMountPath := mountPath mount; AnnotationVolumeNodeConf := sc_Name config;
          PVCImageAnnotation := cbImage]} in
      let annotations := if VersionKnown version
                         then <[CouchbaseVersionAnnotationKey := version]> annotations else annotations in
      let annotations := mergeLabels (ct_Annotations template) annotations in
      let annotations := mergeLabels annotations {[ResourceVersionAnnotation := operator_version]} in
      let annotations := match FSGroup storage with
                         | Some gid => <["pv.beta.kubernetes.io/gid" := fmt_d gid]> annotations
                         | None => annotations
                         end in
      Ok (mkPVC (persistentVolumeClaimName mount) (mergeLabels (ct_Labels template) labels)
            (Some (<[PVCSpecAnnotation := marshal_spec (ct_Spec template)]> annotations))
            "" false (ct_Spec template) ∅ [])
  end.

(** ** Resizes that failed *)
Definition resize_condition (c : PodCondition) : bool :=
  (bool_decide (pc_Type c = "Resizing") || bool_decide (pc_Type c = "FileSystemResizePending")) &&
  bool_decide (pc_Status c = "True").

Definition checkVolumeResizeFailure (claim : PVC) : result () :=
  let expansionTimestamp :=
    match find resize_condition (pvc_Conditions claim) with
    | Some c => pc_LastTransitionTime c
    | None => zero_time
    end in
  if bool_decide (expansionTimestamp = zero_time) then Ok tt
  else
    evs ← events (pvc_Name claim);
    if existsb (λ ev, bool_decide (expansionTimestamp < ev_LastTimestamp ev) &&
                      (bool_decide (ev_Reason ev = "VolumeResizeSuccessful") ||
                       bool_decide (ev_Reason ev = "FileSystemResizeSuccessful"))) evs
    then Ok tt
    else
      let timeout := default 10 (OnlineVolumeExpansionTimeoutInMins storage) in
      if bool_decide (expansionTimestamp + wrap64 (timeout * minute) < now) then Err ErrVolumeResizeError else Ok tt.

(** ** One claim *)
Definition add_pvc (e : entry) (p : VolumeState) : VolumeState :=
  mkVolumeState (vs_pvcs p ++ [e]) (vs_create p) (vs_update p) (vs_expanding p) (resizeFailed p) (vs_volumes p)
    (vs_volumeMounts p) (RecordedServerGroup p) (vs_Image p).
Definition add_create (e : entry) (p : VolumeState) : VolumeState :=
  mkVolumeState (vs_pvcs p) (vs_create p ++ [e]) (vs_update p) (vs_expanding p) (resizeFailed p) (vs_volumes p)
    (vs_volumeMounts p) (RecordedServerGroup p) (vs_Image p).
Definition add_update (e : entry) (p : VolumeState) : VolumeState :=
  mkVolumeState (vs_pvcs p) (vs_create p) (vs_update p ++ [e]) (vs_expanding p) (resizeFailed p) (vs_volumes p)
    (vs_volumeMounts p) (RecordedServerGroup p) (vs_Image p).
Definition add_expanding (pvc : PVC) (p : VolumeState) : VolumeState :=
  mkVolumeState (vs_pvcs p) (vs_create p) (vs_update p) (vs_expanding p ++ [pvc]) (resizeFailed p) (vs_volumes p)
    (vs_volumeMounts p) (RecordedServerGroup p) (vs_Image p).
Definition add_failed (name : string) (e : error) (p : VolumeState) : VolumeState :=
  mkVolumeState (vs_pvcs p) (vs_create p) (vs_update p) (vs_expanding p) (<[name := e]> (resizeFailed p))
    (vs_volumes p) (vs_volumeMounts p) (RecordedServerGroup p) (vs_Image p).
Definition set_hints (pvc : PVC) (p : VolumeState) : VolumeState :=
  mkVolumeState (vs_pvcs p) (vs_create p) (vs_update p) (vs_expanding p) (resizeFailed p) (vs_volumes p)
    (vs_volumeMounts p)
    (if bool_decide (pvcServerGroup pvc ≠ "") then pvcServerGroup pvc else RecordedServerGroup p)
    (default (vs_Image p) (annotations pvc !! PVCImageAnnotation)).

(** The claim as it is to be: the resources and annotations of the required one. *)
Definition updated_claim (pvc required : PVC) (requiredSpec : PVCSpec) : PVC :=
  mkPVC (pvc_Name pvc) (pvc_Labels pvc) (Some (keep_placement (annotations pvc) (annotations required)))
    (pvc_Phase pvc) (pvc_Terminating pvc)
    (mkPVCSpec (Requests requiredSpec) (Limits requiredSpec) (AccessModes (pvc_Spec pvc)) (spec_rest (pvc_Spec pvc)))
    (pvc_Capacity pvc) (pvc_Conditions pvc).

Definition existing_spec (pvc : PVC) : result PVCSpec :=
  match annotations pvc !! PVCSpecAnnotation with
  | Some annotation => unmarshal_spec annotation
  | None => Ok (mkPVCSpec None None [] "")
  end.

(** The error of [findMemberPVC] is dropped. *)
Definition addVolume (required : PVC) (m : Member) (mount : volumeMount) (expandable : bool) (p : VolumeState) :
    result VolumeState :=
  match findMemberPVC pvcs (Name m) (mountPath mount) with
  | Ok pvc =>
      let p := set_hints pvc (add_pvc (None, pvc) p) in
      existingSpec ← existing_spec pvc;
      let '(update, requiredSpec) := checkIfPVCRequiresUpdate existingSpec (pvc_Spec required) in
      if update : bool then
        Ok (add_update (Some (vm_name mount), updated_claim pvc required requiredSpec) p)
      else if negb expandable then Ok p
      else
        let actualSize := default 0 (pvc_Capacity pvc !! ResourceStorage) in
        let requestedSize := Storage (Requests (pvc_Spec pvc)) in
        if bool_decide (requestedSize ≤ actualSize) then Ok p
        else
          match checkVolumeResizeFailure pvc with
          | Ok _ => Ok (add_expanding required p)
          | Err e => if bool_decide (e = ErrVolumeResizeError) then Ok (add_failed (pvc_Name pvc) e p) else Err e
          | Panic => Panic
          end
  | _ => Ok (add_create (Some (vm_name mount), required) (add_pvc (Some (vm_name mount), required) p))
  end.

(** ** The mounts *)
Definition mounts_of (mount : volumeMount) : list (string * string * string) :=
  if bool_decide (vm_name mount = "default")
  then [(persistentVolumeClaimName mount, mountPath mount, defaultSubPathName);
        (persistentVolumeClaimName mount, couchbaseVolumeDefaultEtcDir, etcSubPathName)]
  else [(persistentVolumeClaimName mount, mountPath mount, subPath mount)].

Definition addVolumeMount (p : VolumeState) (mount : volumeMount) : VolumeState :=
  mkVolumeState (vs_pvcs p) (vs_create p) (vs_update p) (vs_expanding p) (resizeFailed p)
    (if bool_decide (persistentVolumeClaimName mount ∈ vs_volumes p) then vs_volumes p
     else vs_volumes p ++ [persistentVolumeClaimName mount])
    (vs_volumeMounts p ++ mounts_of mount) (RecordedServerGroup p) (vs_Image p).

Definition addVolumeMounts (mountMappings : list volumeMount) (p : VolumeState) : VolumeState :=
  fold_left addVolumeMount mountMappings p.

(** A template whose claim several mounts share: the mount the claim was made for, its
    name, and the paths it holds so far. *)
Record Reusable := mkReusable { ru_mount : string; ru_claim : string; ru_paths : string }.

Definition on_claim (claim sub : string) (mount : volumeMount) : volumeMount :=
  mkVolumeMount (vm_name mount) (persistentVolumeClaimTemplateName mount) (mountPath mount) claim sub.

Fixpoint pod_volumes_loop (m : Member) (config : ServerConfig) (reusable : gmap string Reusable)
    (state : VolumeState) (l : list volumeMount) : result (VolumeState * list volumeMount) :=
  match l with
  | [] => Ok (state, [])
  | mount :: l =>
      let templateName := persistentVolumeClaimTemplateName mount in
      match GetVolumeClaimTemplate storage templateName with
      | None => Err ErrResourceAttributeRequired
      | Some claimTemplate =>
          pvc ← generatePVC m mount config;
          let expandable := IsVolumeExpansionEnabled (Spec cc) (ct_Annotations claimTemplate) in
          match ct_Annotations claimTemplate !! LocalStorageAnnotation, reusable !! templateName with
          | Some _, Some r =>
              let paths := ru_paths r +:+ "," +:+ mountPath mount in
              let reusable := <[templateName := mkReusable (ru_mount r) (ru_claim r) paths]> reusable in
              rest ← pod_volumes_loop m config reusable
                (extend_shared (ru_mount r) AnnotationVolumeMountSubPaths paths state) l;
              Ok (rest.1, on_claim (ru_claim r) (vm_name mount) mount :: rest.2)
          | Some _, None =>
              let reusable := <[templateName := mkReusable (vm_name mount) (pvc_Name pvc) (mountPath mount)]> reusable in
              let pvc := with_annotations pvc (<[AnnotationVolumeMountSubPaths := mountPath mount]> (annotations pvc)) in
              let mount := on_claim (persistentVolumeClaimName mount) (vm_name mount) mount in
              state ← addVolume pvc m mount expandable state;
              rest ← pod_volumes_loop m config reusable state l;
              Ok (rest.1, mount :: rest.2)
          | None, _ =>
              state ← addVolume pvc m mount expandable state;
              rest ← pod_volumes_loop m config reusable state l;
              Ok (rest.1, mount :: rest.2)
          end
      end
  end.

Definition PodVolumes (m : Member) (config : ServerConfig) : result (option VolumeState) :=
  match GetVolumeMounts (Some config) with
  | None => Ok None
  | Some mounts =>
      mountMappings ← getPathsToPersist m mounts;
      found ← pod_volumes_loop m config ∅ empty_volumes mountMappings;
      Ok (Some (addVolumeMounts (stable_sort mount_leb found.2) found.1))
  end.
End volumes.

(** ** Creating and deleting pods with their claims

    The API and what generates the objects of a pod.  Reading events changes nothing. *)
Class ClaimPlatform (W : Type) `{Platform W} := {
  api_Events : W → string → result (list Event);
  api_CreatePVC : PVC → string → M W ();          (* the claim and the UID of its owner *)
  api_DeletePVC : string → M W ();
  api_CreatePod : KPod → M W KPod;
  establish_CNG : M W ();
  pod_spec : Member → ServerConfig → string → option VolumeState → string → result KPod;
  storage_spec : StorageSpec;
  operator_version : string;
}.

Definition ReadWriteOnce : string := "ReadWriteOnce".

Definition read_write_once (pvc : PVC) : PVC :=
  let s := pvc_Spec pvc in
  mkPVC (pvc_Name pvc) (pvc_Labels pvc) (pvc_Annotations pvc) (pvc_Phase pvc) (pvc_Terminating pvc)
    (mkPVCSpec (Requests s) (Limits s) [ReadWriteOnce] (spec_rest s)) (pvc_Capacity pvc) (pvc_Conditions pvc).

Definition addServerGroupAnnotations (platform serverGroup zone : string) (pvc : PVC) : PVC :=
  let a := <[AnnotationServerGroup := serverGroup]> (annotations pvc) in
  if bool_decide (zone = "") then with_annotations pvc a
  else
    let a := <[AnnotationAvailabilityZone := zone]> a in
    with_annotations pvc
      (if bool_decide (platform = "aws") then <[EKSTopologyLabel := zone]> a
       else if bool_decide (platform = "gce") then <[GKETopologyLabel := zone]> a
       else if bool_decide (platform = "azure") then <[AzureTopologyLabel := zone]> a
       else a).

Section claims.
Context `{ClaimPlatform W} `{Environment} `{SpecJSON}.

Definition GetPodVolumes (learned : gmap string string) (cc : CouchbaseCluster) (w : W) (m : Member)
    (config : ServerConfig) : result (option VolumeState) :=
  PodVolumes operator_version learned storage_spec cc (PVCs_List w) (api_Events w) (time_now w) m config.

Definition createPersistentVolumeClaim (claim : PVC) (owner : string) : M W () :=
  api_CreatePVC (read_write_once claim) owner.

Definition updatePersistentVolumeClaim (claim : PVC) : M W () := api_UpdatePVC (read_write_once claim).

(** [PersistentVolumeClaimState.Update] *)
Definition update_claim (p : VolumeState) (name : string) : M W () :=
  match vs_lookup name (vs_update p).*2 with
  | Some claim => updatePersistentVolumeClaim claim
  | None => throw ErrResourceAttributeRequired
  end.

Definition claim_zone (cc : CouchbaseCluster) (serverGroup : string) (pod : KPod) : string :=
  if bool_decide (ServerGroupLabel cc ≠ ServerGroupLabel_const)
  then default "" (default ∅ (kp_NodeSelector pod) !! ServerGroupLabel_const) else serverGroup.

(** The creation and the deletion of pods run in goroutines: each request and each look at
    the caches is a step. *)
Definition createPvcsForPod (cc : CouchbaseCluster) (owner : string) (pvcState : VolumeState) (serverGroup : string)
    (pod : KPod) : proc W () :=
  proc_each (λ pvc, atom (createPersistentVolumeClaim
      (if bool_decide (serverGroup ≠ "")
       then addServerGroupAnnotations (Platform_type storage_spec) serverGroup (claim_zone cc serverGroup pod) pvc
       else pvc) owner))
    (vs_create pvcState).*2.

(** One claim is deleted and seen to go; the deadline of all of them is one. *)
Definition claim_gone (name : string) : M W () :=
  w ← get;
  match find (λ pvc, bool_decide (pvc_Name pvc = name)) (PVCs_List w) with
  | None => mret tt
  | Some pvc => if pvc_Terminating pvc then mret tt else throw ErrResourceExists
  end.

Definition deletePodVolumes (memberName : string) : proc W () :=
  w ← atom get;
  proc_each (λ pvc,
      atom (api_DeletePVC (pvc_Name pvc));;
      ticks ← atom (gets retry_ticks);
      proc_retry ticks retry_tick (atom (claim_gone (pvc_Name pvc))))
    (listMemberPVCS (PVCs_List w) memberName).

Definition DeleteCouchbasePod (name : string) (removeVolumes : bool) : proc W () :=
  atom (api_DeletePod name);;
  if removeVolumes then deletePodVolumes name else mret tt.

Context `{Scheduler Sc}.

Definition in_world {A} (p : proc W A) : proc (W * Sc) A := proc_zoom fst (λ w f, (w, f.2)) p.
Definition in_scheduler {A} (m : M Sc A) : proc (W * Sc) A := atom (zoom snd (λ sc f, (f.1, sc)) m).

(** The image the pod is to run: that of its volumes, or the member's own. *)
Definition image_to_run (cc : CouchbaseCluster) (m : Member) (config : ServerConfig)
    (pvcState : option VolumeState) : string :=
  let image := if bool_decide (GetImage m = "") then ServerClassCouchbaseImage (Spec cc) (Some config)
               else GetImage m in
  match pvcState with
  | Some p => if bool_decide (vs_Image p ≠ "") then vs_Image p else image
  | None => image
  end.

(** The group a pod is pinned to: that of its volumes, where groups are zones. *)
Definition pinned_group (cc : CouchbaseCluster) (pvcState : option VolumeState) : string :=
  match pvcState with
  | Some p => if bool_decide (ServerGroupLabel cc = ServerGroupLabel_const) then RecordedServerGroup p else ""
  | None => ""
  end.

Definition CreateCouchbasePod (pos : list nat) (learned : gmap string string) (cc : CouchbaseCluster)
    (owner : string) (m : Member) (config : ServerConfig) : proc (W * Sc) KPod :=
  w ← in_world (atom get);
  pvcState ← Done (GetPodVolumes learned cc w m config);
  let image := image_to_run cc m config pvcState in
  serverGroup ← in_scheduler (Create pos (sc_Name config) (Name m) (pinned_group cc pvcState));
  in_world (atom establish_CNG);;
  pod ← Done (pod_spec m config serverGroup pvcState image);
  let serverGroup :=
    if bool_decide (serverGroup = "")
    then default "" (default ∅ (kp_NodeSelector pod) !! ServerGroupLabel cc) else serverGroup in
  match pvcState with
  | Some p => in_world (createPvcsForPod cc owner p serverGroup pod)
  | None => mret tt
  end;;
  in_world (atom (api_CreatePod pod)).
End claims.
