(* ===== verification/Admission.v ===== *)
(** * pkg/validator/v2/validator.go: which changes of a cluster are admitted

    The checks of an update against what was there before: the fields that may not change
    ([CheckImmutableFields]) and the changes that need the right moment
    ([CheckChangeConstraintsCluster]), with those of the buckets of a cluster that leaves
    migration mode.  The same checks guard the admission of an object and, in the
    reconciler, its acceptance.

    An error is a value with its place in the code; errors of other parts are [Upstream]. *)

From Stdlib Require Import Ascii SpecFloat.
From S2P Require Import Prelude Effects GoLib Digests Version UpgradePath Api Status Pods.
From S2P Require Import Machine Baseline Buckets Claims.
Local Open Scope Z_scope.

(** ** Verdicts *)
#[warnings="-register-all"] Inductive verror :=
  | Upstream (e : error)
  | UpdateError (field : string)
  | ServicesModified (i : nat)
  | AdminServiceBefore76
  | IndexStorageModified
  | OnlyRollback (version : string)
  | VolumeShrinks (template : string)
  | PDB (why : string)
  | BackendBefore76 (bucket : string)
  | HibernatingChange
  | MigrationChange (why : string)
  | UpgradeBlocked (why : string)
  | PodCountIncreased
  | BucketChange (bucket why : string)
  | Composite (errs : list verror).

Inductive V (A : Type) :=
  | Valid (a : A)
  | Invalid (e : verror)
  | Crashes.
Arguments Valid {A} _.
Arguments Invalid {A} _.
Arguments Crashes {A}.

#[export] Instance V_ret : MRet V := @Valid.
#[export] Instance V_bind : MBind V := λ A B k m,
  match m with Valid a => k a | Invalid e => Invalid e | Crashes => Crashes end.

Definition from {A} (r : result A) : V A :=
  match r with Ok a => Valid a | Err e => Invalid (Upstream e) | Panic => Crashes end.

(** [errs = append(errs, err)] over the checks, in order. *)
Fixpoint gather (checks : list (V ())) : V (list verror) :=
  match checks with
  | [] => Valid []
  | check :: checks =>
      match check with
      | Valid _ => gather checks
      | Invalid e => rest ← gather checks; Valid (e :: rest)
      | Crashes => Crashes
      end
  end.

(** [if errs != nil { return CompositeValidationError(errs...) }] *)
Definition composite (errs : list verror) : V () :=
  if bool_decide (length errs = 0%nat) then Valid tt else Invalid (Composite errs).

Definition checked (checks : list (V ())) : V () := errs ← gather checks; composite errs.

(** A loop that collects errors but gives up at an error of its own. *)
Fixpoint collect {A} (f : nat → A → V (list verror)) (i : nat) (l : list A) : V (list verror) :=
  match l with
  | [] => Valid []
  | x :: l => errs ← f i x; rest ← collect f (S i) l; Valid (errs ++ rest)
  end.

(** ** The objects *)
Record IndexerSettings := mkIndexer { ix_StorageMode : string; ix_NumberOfReplica : Z }.

(** [Populate] works on all of the specification; a selector is kept as its text, as are
    the fields that are only compared ([spec_other], [meta_other], [status_other]; they also tell
    the empty lists of the other fields from nil ones). *)
Record ResourceSpec := mkResourceSpec {
  rs_Spec : ClusterSpec;
  rs_Storage : StorageSpec;
  rs_IndexStorageSetting : string;
  rs_Indexer : option IndexerSettings;
  rs_MinReplicasCount : option Z;         (* of the data settings, when there are such *)
  rs_PerServiceClassPDB : bool;
  rs_BucketsManaged : bool;
  rs_BucketsSelector : option string;
  rs_DefaultStorageBackend : string;
  rs_UsersManaged : bool;
  rs_UsersSelector : option string;
  spec_other : string;
}.

(** A [CouchbaseCluster] object; [r_object] has its specification again as [Spec]. *)
Record Resource := mkResource {
  r_Namespace : string;
  r_Name : string;
  r_UID : string;
  r_Generation : Z;
  r_Annotations : gmap string string;
  meta_other : string;
  r_Spec : ResourceSpec;
  r_Status : ClusterStatus;
  r_Buckets : list StatusBucket;     (* of the status *)
  status_other : string;
}.

Definition r_object (r : Resource) : CouchbaseCluster := {|
  Namespace := r_Namespace r; Name := r_Name r; Spec := rs_Spec (r_Spec r); Status := r_Status r |}.

Definition with_r_Spec (spec : ResourceSpec) (r : Resource) : Resource :=
  mkResource (r_Namespace r) (r_Name r) (r_UID r) (r_Generation r) (r_Annotations r) (meta_other r) spec (r_Status r)
    (r_Buckets r) (status_other r).
Definition with_r_Status (status : ClusterStatus) (r : Resource) : Resource :=
  mkResource (r_Namespace r) (r_Name r) (r_UID r) (r_Generation r) (r_Annotations r) (meta_other r) (r_Spec r) status
    (r_Buckets r) (status_other r).
Definition AddAnnotation (key value : string) (r : Resource) : Resource :=
  mkResource (r_Namespace r) (r_Name r) (r_UID r) (r_Generation r) (<[key := value]> (r_Annotations r)) (meta_other r)
    (r_Spec r) (r_Status r) (r_Buckets r) (status_other r).

#[export] Instance IndexerSettings_eq_dec : EqDecision IndexerSettings.
Proof. solve_decision. Defined.
#[export] Instance RollingUpgradeConstraints_eq_dec : EqDecision RollingUpgradeConstraints.
Proof. solve_decision. Defined.
#[export] Instance UpgradeSpec_eq_dec : EqDecision UpgradeSpec.
Proof. solve_decision. Defined.
#[export] Instance VolumeMounts_eq_dec : EqDecision VolumeMounts.
Proof. solve_decision. Defined.
#[export] Instance ServerConfig_eq_dec : EqDecision ServerConfig.
Proof. solve_decision. Defined.
#[export] Instance ClusterSpec_eq_dec : EqDecision ClusterSpec.
Proof. solve_decision. Defined.
#[export] Instance ClaimTemplate_eq_dec : EqDecision ClaimTemplate.
Proof. solve_decision. Defined.
#[export] Instance StorageSpec_eq_dec : EqDecision StorageSpec.
Proof. solve_decision. Defined.
#[export] Instance ResourceSpec_eq_dec : EqDecision ResourceSpec.
Proof. solve_decision. Defined.
#[export] Instance Resource_eq_dec : EqDecision Resource.
Proof. solve_decision. Defined.

(** A [CouchbaseBucket] and a [CouchbaseEphemeralBucket] object. *)
Record CouchbaseBucket := mkBucket {
  b_Name : string;
  b_Namespace : string;
  b_Labels : gmap string string;
  b_Annotations : gmap string string;
  b_SpecName : string;
  b_Backend : BackendSpec;
  b_NumVBuckets : option Z;
  b_EnableCrossClusterVersioning : option bool;
  b_MemoryQuota : option Z;
  b_ConflictResolution : string;
}.

Record EphemeralBucket := mkEphemeral {
  eb_Name : string;
  eb_Annotations : gmap string string;
  eb_SpecName : string;
  eb_EnableCrossClusterVersioning : option bool;
  eb_ConflictResolution : string;
}.

Definition GetCouchbaseName (b : CouchbaseBucket) : string :=
  if bool_decide (b_SpecName b ≠ "") then b_SpecName b else b_Name b.
Definition ephemeral_CouchbaseName (b : EphemeralBucket) : string :=
  if bool_decide (eb_SpecName b ≠ "") then eb_SpecName b else eb_Name b.

(** The listings of the validator ([v.Abstraction]), what a selector selects, and the
    fields that annotations set ([pkg/util/annotations]). *)
Class Validator := {
  GetCouchbaseBuckets : string → option string → result (list CouchbaseBucket);
  GetCouchbaseEphemeralBuckets : string → option string → result (list EphemeralBucket);
  GetCouchbaseMemcachedBuckets : string → option string → result (list string);
  GetCouchbaseClusters : string → result (list Resource);
  GetCouchbaseUsers : string → option string → result (list string);
  GetCouchbaseCollections : string → result (list (option bool));       (* their histories *)
  GetCouchbaseCollectionGroups : string → result (list (option bool));
  AsMatcher : option string → result (string → gmap string string → bool);
  PopulateCluster : ResourceSpec → gmap string string → ResourceSpec * option error;   (* what is set, on errors too *)
  PopulateBucket : CouchbaseBucket → result CouchbaseBucket;
  PopulateEphemeral : EphemeralBucket → result EphemeralBucket;
}.

(** ** Annotations that turn validation off *)
Definition AnnotationDisableAdmissionController : string := "dac.couchbase.com/skipDAC".
Definition AnnotationSkipDACValidation : string := "dac.couchbase.com/skipvalidation".

Definition lower_ascii (a : ascii) : ascii :=
  let n := nat_of_ascii a in
  if (65 <=? n)%nat && (n <=? 90)%nat then ascii_of_nat (n + 32) else a.

(** [strings.EqualFold] against a text of ASCII letters: none of [true] has another
    letter outside ASCII that folds to it. *)
Definition EqualFold (s t : string) : bool :=
  bool_decide (lower_ascii <$> String.list_ascii_of_string s = lower_ascii <$> String.list_ascii_of_string t).

Definition checkAnnotationTrue (annotations : gmap string string) (annotation : string) : bool :=
  match annotations !! annotation with Some value => EqualFold value "true" | None => false end.

Definition checkAnnotationSkipValidation (annotations : gmap string string) : bool :=
  checkAnnotationTrue annotations AnnotationDisableAdmissionController.

(** ** pkg/validator/util: whether two lists are the same but for their order *)
Definition count_up (m : gmap string Z) (val : string) : gmap string Z := <[val := default 0 (m !! val) + 1]> m.

Fixpoint count_down (m : gmap string Z) (a2 : list string) : option (gmap string Z) :=
  match a2 with
  | [] => Some m
  | val :: a2 =>
      match m !! val with
      | Some n => if bool_decide (n > 0) then count_down (<[val := n - 1]> m) a2 else None
      | None => None
      end
  end.

Definition StringArrayCompare (a1 a2 : list string) : bool :=
  match count_down (fold_left count_up a1 ∅) a2 with
  | None => false
  | Some m => forallb (λ entry, negb (bool_decide (entry.2 > 0))) (map_to_list m)
  end.

Section checks.
Context `{Environment} `{Validator} (learned : gmap string string).
Implicit Types current updated prev curr : Resource.

(** [k8sutil.CouchbaseVersion] *)
Definition CouchbaseVersion (image : string) : V string := from (CouchbaseImageVersion learned image).

Definition spec_image (r : Resource) : string := cs_Image (rs_Spec (r_Spec r)).
Definition couchbase_image (r : Resource) : string := CouchbaseImage (rs_Spec (r_Spec r)).
Definition has (r : Resource) (condition : ClusterConditionType) : bool := HasCondition (r_object r) condition.

(** ** Fields that may not change *)

(** [before76]: a version that does not parse is taken to be an old one. *)
Definition before76 (tag : string) : V bool :=
  match VersionAfter learned tag "7.6.0" with Ok after76 => Valid (negb after76) | Err _ => Valid true | Panic => Crashes end.

Definition class_errors (cur : ServerConfig) (before76 : bool) (i : nat) (up : ServerConfig) : list verror :=
  if bool_decide (sc_Name cur = sc_Name up) && negb (StringArrayCompare (sc_Services cur) (sc_Services up))
  then [ServicesModified i]
  else if before76 && (ServiceList.Contains (sc_Services up) AdminService || bool_decide (length (sc_Services up) = 0%nat))
  then [AdminServiceBefore76]
  else [].

Definition checkImmutableServerClass current updated : V () :=
  errs ← collect (λ _ cur,
    tag ← CouchbaseVersion (ServerClassCouchbaseImage (rs_Spec (r_Spec current)) (Some cur));
    before76 ← before76 tag;
    Valid (concat (imap (class_errors cur before76) (cs_Servers (rs_Spec (r_Spec updated))))))
    0%nat (cs_Servers (rs_Spec (r_Spec current)));
  composite errs.

Definition index_storage (r : Resource) : string :=
  match rs_Indexer (r_Spec r) with Some ix => ix_StorageMode ix | None => rs_IndexStorageSetting (r_Spec r) end.

(** The text of [errors.ErrIndexStorageModeMismatch]. *)
Definition IndexStorageModeMismatch : string := "index storage mode mismatch".

Definition IsInIndexMismatchErrorState (r : Resource) : bool :=
  match GetCondition (r_Status r) ClusterConditionError with
  | Some cond => bool_decide (cc_Status cond = ConditionTrue) && bool_decide (cc_Message cond = IndexStorageModeMismatch)
  | None => false
  end.

Definition checkImmutableIndexStorage current updated : V () :=
  if negb (IsIndexerEnabled (r_object updated)) then Valid tt
  else if bool_decide (index_storage current ≠ index_storage updated) && negb (IsInIndexMismatchErrorState current)
  then Invalid IndexStorageModified
  else Valid tt.

Definition isFullyUpgraded (c : Resource) : V bool :=
  imageVersion ← CouchbaseVersion (spec_image c);
  Valid (if negb (VersionKnown imageVersion) then true
         else if bool_decide (imageVersion ≠ st_CurrentVersion (r_Status c)) then false
         else if has c ClusterConditionMixedMode then false
         else negb (has c ClusterConditionWaitingBetweenUpgrades)).

Definition checkClusterVersionUpgradePath prev curr : V () :=
  oldVersion ← CouchbaseVersion (couchbase_image prev);
  let oldVersion :=
    if negb (VersionKnown oldVersion) && bool_decide (st_CurrentVersion (r_Status prev) ≠ "")
    then st_CurrentVersion (r_Status prev) else oldVersion in
  newVersion ← CouchbaseVersion (couchbase_image curr);
  let asleep := has prev ClusterConditionHibernating in
  let spec := rs_Spec (r_Spec curr) in
  from (if asleep || cs_Hibernate spec || bool_decide (GetUpgradeProcess (r_object curr) = OfflineUpgrade) then
          let wakesMixed :=
            match cs_Upgrade spec with Some u => bool_decide (us_PreviousVersionPodCount u > 0) | None => false end in
          CheckHibernationUpgradePath learned oldVersion newVersion (IsIndexerEnabled (r_object curr)) (wakesMixed || negb asleep)
        else CheckUpgradePath learned oldVersion newVersion).

Definition checkImmutableImage current updated : V () :=
  if bool_decide (spec_image current = spec_image updated) then Valid tt
  else
    updatedVersion ← CouchbaseVersion (spec_image updated);
    if negb (VersionKnown updatedVersion) then Valid tt
    else
      fullyUpgraded ← isFullyUpgraded current;
      let isUpgrading := has current ClusterConditionUpgrading in
      let isMigrating := has current ClusterConditionMigrating in
      if negb isUpgrading && negb isMigrating && fullyUpgraded
      then checkClusterVersionUpgradePath current updated
      else if bool_decide (updatedVersion ≠ st_CurrentVersion (r_Status current))
      then Invalid (OnlyRollback (st_CurrentVersion (r_Status current)))
      else Valid tt.

Definition storage_request (template : ClaimTemplate) : option Z :=
  requests ← Requests (ct_Spec template); requests !! ResourceStorage.

Definition template_errors current updated (updatedClaimTemplate : ClaimTemplate) : list verror :=
  if negb (IsVolumeExpansionEnabled (rs_Spec (r_Spec updated)) (ct_Annotations updatedClaimTemplate)) then []
  else match GetVolumeClaimTemplate (rs_Storage (r_Spec current)) (ct_Name updatedClaimTemplate) with
       | None => []
       | Some currentClaimTemplate =>
           match storage_request currentClaimTemplate, storage_request updatedClaimTemplate with
           | Some currentQuantity, Some updatedQuantity =>
               if bool_decide (updatedQuantity < currentQuantity)
               then [VolumeShrinks (ct_Name updatedClaimTemplate)] else []
           | _, _ => []
           end
       end.

Definition checkImmutableVolumeTemplateSize current updated : V () :=
  composite (concat (template_errors current updated <$> VolumeClaimTemplates (rs_Storage (r_Spec updated)))).

(** The errors inside a composite one are taken out of it. *)
Definition flatten (err : verror) : list verror := match err with Composite errs => errs | _ => [err] end.

Definition CheckImmutableFields current updated : V () :=
  if checkAnnotationSkipValidation (r_Annotations updated) then Valid tt
  else
    errs ← gather [checkImmutableServerClass current updated; checkImmutableIndexStorage current updated;
                   checkImmutableImage current updated; checkImmutableVolumeTemplateSize current updated];
    composite (concat (flatten <$> errs)).

(** ** Disruption budgets per server class

    Sizes are added up as 32-bit floating point numbers. *)
Definition float32 (n : Z) : spec_float := binary_normalize 24 128 n 0 false.
Definition float32_add : spec_float → spec_float → spec_float := SFadd 24 128.
Definition float32_sub : spec_float → spec_float → spec_float := SFsub 24 128.
Definition float32_div : spec_float → spec_float → spec_float := SFdiv 24 128.

Record available := mkAvailable { av_total : spec_float; av_index : Z; av_kv : Z }.

Definition add_service (size : Z) (a : available) (service : Service) : available :=
  let a := if bool_decide (service = IndexService)
           then mkAvailable (av_total a) (wrap64 (av_index a + wrap64 (size - 1))) (av_kv a) else a in
  if bool_decide (service = DataService)
  then mkAvailable (av_total a) (av_index a) (wrap64 (av_kv a + wrap64 (size - 1))) else a.

Fixpoint add_classes (classes : list ServerConfig) (a : available) : V available :=
  match classes with
  | [] => Valid a
  | serverClass :: classes =>
      let size := sc_Size serverClass in
      if bool_decide (size < 2) then Invalid (PDB ("server class " +:+ sc_Name serverClass))
      else
        let total := float32_add (av_total a) (float32_sub (float32 size) (float32 1)) in
        add_classes classes (fold_left (add_service size) (sc_Services serverClass) (mkAvailable total (av_index a) (av_kv a)))
  end.

Definition checkConstraintPerServiceClassPDB (cluster : Resource) : V () :=
  let spec := r_Spec cluster in
  let servers := cs_Servers (rs_Spec spec) in
  if negb (rs_PerServiceClassPDB spec) then Valid tt
  else if bool_decide (TotalSize (rs_Spec spec) < 2 * Z.of_nat (length servers) + 1) then Invalid (PDB "not enough nodes")
  else
    a ← add_classes servers (mkAvailable (float32 0) 0 0);
    if from_option (λ ix, bool_decide (av_index a < ix_NumberOfReplica ix)) false (rs_Indexer spec)
    then Invalid (PDB "index disruption")
    else if from_option (λ n, bool_decide (av_kv a < n)) false (rs_MinReplicasCount spec)
    then Invalid (PDB "data disruption")
    else if SFltb (av_total a) (float32_div (float32 (TotalSize (rs_Spec spec))) (float32 2))
    then Invalid (PDB "total disruption")
    else Valid tt.

(** ** Buckets *)
Definition running (r : Resource) (tag : string) : result bool := RunningVersion learned (r_object r) tag.

Definition bucket_backend (b : CouchbaseBucket) (cluster : Resource) : string :=
  (GetStorageBackend learned (r_object cluster) (rs_DefaultStorageBackend (r_Spec cluster))
     (GetBucketStorageBackendFromStatus (r_Buckets cluster) (GetCouchbaseName b)) (b_Backend b)).1.

Definition GetNumVBuckets (b : CouchbaseBucket) (cluster : Resource) : Z :=
  match b_NumVBuckets b, GetBucketVBucketsFromStatus (r_Buckets cluster) (GetCouchbaseName b) with
  | Some n, _ => n
  | None, Some vbuckets => vbuckets
  | None, None =>
      if bool_decide (bucket_backend b cluster = CouchbaseStorageBackendCouchstore) then DefaultNumVBucketsCouchstore
      else match running cluster "8.0.0" with
           | Ok true => DefaultNumVBucketsMagma
           | _ => DefaultNumVBucketsCouchstore
           end
  end.

Definition Mi : Z := 2 ^ 20.

Definition checkNumVBucketsChangeConstraint (prevBucket currBucket : CouchbaseBucket) (prevCluster currCluster : Resource) : V () :=
  let prevVBuckets := GetNumVBuckets prevBucket prevCluster in
  let currVBuckets := GetNumVBuckets currBucket currCluster in
  checked [
    if bool_decide (prevVBuckets ≠ currVBuckets)
    then Invalid (BucketChange (GetCouchbaseName currBucket) "spec.numVBuckets") else Valid tt;
    if bool_decide (bucket_backend currBucket currCluster = CouchbaseStorageBackendMagma) && bool_decide (currVBuckets = 1024)
    then match b_MemoryQuota currBucket with
         | None => Crashes
         | Some quota => if bool_decide (quota < 1024 * Mi)
                         then Invalid (BucketChange (GetCouchbaseName currBucket) "spec.memoryQuota") else Valid tt
         end
    else Valid tt].

Definition CheckImmutableFieldsBucket (prev curr : CouchbaseBucket) : V () :=
  if checkAnnotationSkipValidation (b_Annotations curr) then Valid tt
  else if bool_decide (b_ConflictResolution prev ≠ b_ConflictResolution curr)
  then Invalid (Composite [UpdateError "spec.conflictResolution"]) else Valid tt.

Definition CheckImmutableFieldsEphemeralBucket (prev curr : EphemeralBucket) : V () :=
  if checkAnnotationSkipValidation (eb_Annotations curr) then Valid tt
  else if bool_decide (eb_ConflictResolution prev ≠ eb_ConflictResolution curr)
  then Invalid (Composite [UpdateError "spec.conflictResolution"]) else Valid tt.

(** [enableCrossClusterVersioning] stays on. *)
Definition versioning_disabled (prev curr : option bool) : bool :=
  default false prev && negb (default false curr).

Definition checkBucketHistoryDisabled (bucket : CouchbaseBucket) : V () :=
  match CollectionDefault (b_Backend bucket) with
  | Some false => Valid tt
  | _ => Invalid (BucketChange (b_Name bucket) "historyRetention")
  end.

Definition explicit_history (histories : list (option bool)) : bool :=
  existsb (λ h, bool_decide (h = Some true)) histories.

Definition checkUserCollectionsHistoryExplicitTrue (namespace : string) : V () :=
  collections ← from (GetCouchbaseCollections namespace);
  if explicit_history collections then Invalid (BucketChange "" "collection history")
  else
    groups ← from (GetCouchbaseCollectionGroups namespace);
    if explicit_history groups then Invalid (BucketChange "" "collection group history") else Valid tt.

Definition checkClusterValidForBucketMigration (cluster : Resource) : V () :=
  if has cluster ClusterConditionUpgrading then Invalid (BucketChange "" "upgrade")
  else if has cluster ClusterConditionMixedMode then Invalid (BucketChange "" "mixed mode")
  else
    after76 ← from (running cluster "7.6.0");
    if after76 : bool then Valid tt else Invalid (BucketChange "" "before 7.6.0").

Definition getBucketsRelatedClusters (bucket : CouchbaseBucket) : V (list Resource) :=
  clusters ← from (GetCouchbaseClusters (b_Namespace bucket));
  (fix related (clusters : list Resource) : V (list Resource) :=
     match clusters with
     | [] => Valid []
     | cluster :: clusters =>
         if negb (rs_BucketsManaged (r_Spec cluster)) then related clusters
         else match rs_BucketsSelector (r_Spec cluster) with
              | None => rest ← related clusters; Valid (cluster :: rest)
              | Some _ =>
                  Matches ← from (AsMatcher (rs_BucketsSelector (r_Spec cluster)));
                  rest ← related clusters;
                  Valid (if Matches (b_Name bucket) (b_Labels bucket) : bool then cluster :: rest else rest)
              end
     end) clusters.

(** The errors a cluster that has the bucket adds; one of reading versions ends the check. *)
Definition cluster_bucket_errors (prev curr : CouchbaseBucket) (c : Resource) : V (list verror) :=
  spec ← match PopulateCluster (r_Spec c) (r_Annotations c) with
         | (spec, None) => Valid spec
         | (_, Some e) => Invalid (Upstream e)
         end;
  let c := with_r_Spec spec c in
  let currBackend := bucket_backend curr c in
  let prevBackend := bucket_backend prev c in
  errs ← (if bool_decide (prevBackend ≠ currBackend) || (SampleBucket (b_Backend prev) && negb (SampleBucket (b_Backend curr)))
          then gather (checkClusterValidForBucketMigration c ::
                 if bool_decide (prevBackend = CouchbaseStorageBackendMagma) && bool_decide (currBackend = CouchbaseStorageBackendCouchstore)
                 then [checkBucketHistoryDisabled prev; checkUserCollectionsHistoryExplicitTrue (b_Namespace curr)] else [])
          else Valid []);
  after80 ← from (running c "8.0.0");
  if after80 : bool then
    more ← gather [checkNumVBucketsChangeConstraint prev curr c c];
    Valid (errs ++ more)
  else Valid errs.

(** Without its warnings. *)
Definition CheckChangeConstraintsBucket (prev curr : CouchbaseBucket) (cluster : option Resource) : V () :=
  prev ← from (PopulateBucket prev);
  curr ← from (PopulateBucket curr);
  if checkAnnotationSkipValidation (b_Annotations curr) then Valid tt
  else
    let own :=
      (if negb (SampleBucket (b_Backend prev)) && SampleBucket (b_Backend curr)
       then [BucketChange (b_Name curr) "sampleBucket"] else []) ++
      (if versioning_disabled (b_EnableCrossClusterVersioning prev) (b_EnableCrossClusterVersioning curr)
       then [BucketChange (b_Name curr) "enableCrossClusterVersioning"] else []) in
    clusters ← match cluster with Some c => Valid [c] | None => getBucketsRelatedClusters curr end;
    errs ← collect (λ _, cluster_bucket_errors prev curr) 0%nat clusters;
    composite (own ++ errs).

Definition CheckChangeConstraintsEphemeralBucket (prev curr : EphemeralBucket) : V () :=
  if checkAnnotationSkipValidation (eb_Annotations curr) then Valid tt
  else
    prev ← from (PopulateEphemeral prev);
    curr ← from (PopulateEphemeral curr);
    composite (if versioning_disabled (eb_EnableCrossClusterVersioning prev) (eb_EnableCrossClusterVersioning curr)
               then [BucketChange (eb_Name curr) "enableCrossClusterVersioning"] else []).

(** ** Changes that need the right moment *)
Definition IsAtLeast (r : Resource) (v : string) : result bool := IsAtLeastVersion learned (r_object r) v.

Definition default_backend (r : Resource) : string :=
  (GetDefaultBucketStorageBackend learned (r_object r) (rs_DefaultStorageBackend (r_Spec r))).1.

Definition bucket_errors prev curr (checkVBuckets currAbove76 : bool) (bucket : CouchbaseBucket) : V (list verror) :=
  errs ← (if checkVBuckets then gather [checkNumVBucketsChangeConstraint bucket bucket prev curr] else Valid []);
  Valid (errs ++ if negb currAbove76 && bool_decide (bucket_backend bucket prev ≠ bucket_backend bucket curr)
                 then [BackendBefore76 (b_Name bucket)] else []).

Definition checkDefaultBucketStorageBackendConstraint prev curr : V () :=
  if bool_decide (default_backend curr = default_backend prev) then Valid tt
  else match IsAtLeast curr "7.6.0" with
  | Err _ => Valid tt
  | Panic => Crashes
  | Ok currAbove76 =>
      checkVBuckets ← (if currAbove76 then
          currAbove80 ← from (IsAtLeast curr "8.0.0");
          if currAbove80 : bool then
            prevAbove80 ← from (IsAtLeast prev "8.0.0"); Valid (currAbove80 && negb prevAbove80)
          else Valid false
        else Valid false);
      if negb checkVBuckets && currAbove76 then Valid tt
      else
        buckets ← from (GetCouchbaseBuckets (r_Namespace curr) (rs_BucketsSelector (r_Spec curr)));
        match AsMatcher (rs_BucketsSelector (r_Spec prev)) with
        | Err _ => Valid tt
        | Panic => Crashes
        | Ok Matches =>
            errs ← collect (λ _ bucket,
                if Matches (b_Name bucket) (b_Labels bucket) : bool
                then bucket_errors prev curr checkVBuckets currAbove76 bucket else Valid []) 0%nat buckets;
            composite errs
        end
  end.

(** *** Hibernation: the fields that may change are made equal first *)
Definition set_Hibernate_Image (hibernate : bool) (image : string) (s : ClusterSpec) : ClusterSpec := {|
  cs_Image := image; cs_EnvImagePrecedence := cs_EnvImagePrecedence s; cs_Servers := cs_Servers s;
  cs_ServerGroups := cs_ServerGroups s; cs_ServerGroupsLabelOverride := cs_ServerGroupsLabelOverride s;
  cs_ShuffleServerGroups := cs_ShuffleServerGroups s; cs_RecoveryPolicy := cs_RecoveryPolicy s;
  cs_UpgradeProcess := cs_UpgradeProcess s; cs_UpgradeStrategy := cs_UpgradeStrategy s;
  cs_RollingUpgrade := cs_RollingUpgrade s; cs_Upgrade := cs_Upgrade s;
  cs_EnableOnlineVolumeExpansion := cs_EnableOnlineVolumeExpansion s;
  cs_UnmanagedClusterHost := cs_UnmanagedClusterHost s; cs_Paused := cs_Paused s; cs_Hibernate := hibernate |}.

Definition set_PreviousVersionPodCount (n : Z) (u : UpgradeSpec) : UpgradeSpec := {|
  us_UpgradeProcess := us_UpgradeProcess u; us_UpgradeStrategy := us_UpgradeStrategy u;
  us_StabilizationPeriod := us_StabilizationPeriod u; us_RollingUpgrade := us_RollingUpgrade u;
  us_PreviousVersionPodCount := n; us_UpgradeOrderType := us_UpgradeOrderType u; us_UpgradeOrder := us_UpgradeOrder u;
  us_SwapRebalanceIndexServiceUpgrades := us_SwapRebalanceIndexServiceUpgrades u;
  us_RollbackMethod := us_RollbackMethod u |}.

Definition set_Upgrade (u : option UpgradeSpec) (s : ClusterSpec) : ClusterSpec := {|
  cs_Image := cs_Image s; cs_EnvImagePrecedence := cs_EnvImagePrecedence s; cs_Servers := cs_Servers s;
  cs_ServerGroups := cs_ServerGroups s; cs_ServerGroupsLabelOverride := cs_ServerGroupsLabelOverride s;
  cs_ShuffleServerGroups := cs_ShuffleServerGroups s; cs_RecoveryPolicy := cs_RecoveryPolicy s;
  cs_UpgradeProcess := cs_UpgradeProcess s; cs_UpgradeStrategy := cs_UpgradeStrategy s;
  cs_RollingUpgrade := cs_RollingUpgrade s; cs_Upgrade := u;
  cs_EnableOnlineVolumeExpansion := cs_EnableOnlineVolumeExpansion s;
  cs_UnmanagedClusterHost := cs_UnmanagedClusterHost s; cs_Paused := cs_Paused s; cs_Hibernate := cs_Hibernate s |}.

Definition with_rs_Spec (spec : ClusterSpec) (s : ResourceSpec) : ResourceSpec :=
  mkResourceSpec spec (rs_Storage s) (rs_IndexStorageSetting s) (rs_Indexer s) (rs_MinReplicasCount s)
    (rs_PerServiceClassPDB s) (rs_BucketsManaged s) (rs_BucketsSelector s) (rs_DefaultStorageBackend s)
    (rs_UsersManaged s) (rs_UsersSelector s) (spec_other s).

Definition normalised (cur upd : ClusterSpec) : ClusterSpec :=
  let cur := set_Hibernate_Image (cs_Hibernate upd) (cs_Image upd) cur in
  match cs_Upgrade cur, cs_Upgrade upd with
  | Some u, Some u' =>
      if bool_decide (us_PreviousVersionPodCount u' ≤ us_PreviousVersionPodCount u)
      then set_Upgrade (Some (set_PreviousVersionPodCount (us_PreviousVersionPodCount u') u)) cur else cur
  | _, _ => cur
  end.

Definition checkChangeConstraintsHibernate current updated : V () :=
  let cur := rs_Spec (r_Spec current) in
  let upd := rs_Spec (r_Spec updated) in
  if negb (has current ClusterConditionHibernating) then Valid tt
  else if HasNeverRun (r_object current) then Valid tt
  else if cs_Hibernate cur && negb (cs_Hibernate upd) then Valid tt
  else if bool_decide (r_Spec updated ≠ with_rs_Spec (normalised cur upd) (r_Spec current))
  then Invalid HibernatingChange
  else Valid tt.

(** *** Migration *)
Definition checkForVersionChange current updated : V bool :=
  currentVersion ← CouchbaseVersion (couchbase_image current);
  updatedVersion ← CouchbaseVersion (couchbase_image updated);
  Valid (bool_decide (currentVersion ≠ updatedVersion)).

Definition BucketTypeCouchbase : string := "couchbase".
Definition BucketTypeEphemeral : string := "ephemeral".

Definition getClusterBucketsByType (cluster : Resource) :
    V (gmap string CouchbaseBucket * gmap string EphemeralBucket) :=
  buckets ← from (GetCouchbaseBuckets (r_Namespace cluster) (rs_BucketsSelector (r_Spec cluster)));
  ephemeral ← from (GetCouchbaseEphemeralBuckets (r_Namespace cluster) (rs_BucketsSelector (r_Spec cluster)));
  Valid (fold_left (λ m b, <[GetCouchbaseName b := b]> m) buckets ∅,
         fold_left (λ m b, <[ephemeral_CouchbaseName b := b]> m) ephemeral ∅).

Definition BucketStatusToCouchbaseBucket (status : StatusBucket) : CouchbaseBucket :=
  mkBucket "" "" ∅ ∅ (bst_BucketName status) (mkBackendSpec (bst_BucketStorageBackend status) false None)
    (bst_NumVBuckets status) None (Some (wrap64 (Z.shiftl (bst_BucketMemoryQuota status) 20)))
    (bst_ConflictResolution status).

Definition BucketStatusToEphemeralBucket (status : StatusBucket) : EphemeralBucket :=
  mkEphemeral "" ∅ (bst_BucketName status) None (bst_ConflictResolution status).

Definition status_bucket_checks updated (requestedCBuckets : gmap string CouchbaseBucket)
    (requestedEBuckets : gmap string EphemeralBucket) (statusBucket : StatusBucket) : list (V ()) :=
  let name := bst_BucketName statusBucket in
  if bool_decide (bst_BucketType statusBucket = BucketTypeCouchbase) then
    match requestedCBuckets !! name with
    | Some requested =>
        let actualAsCRD := BucketStatusToCouchbaseBucket statusBucket in
        [CheckImmutableFieldsBucket actualAsCRD requested;
         CheckChangeConstraintsBucket actualAsCRD requested (Some updated)]
    | None => []
    end
  else if bool_decide (bst_BucketType statusBucket = BucketTypeEphemeral) then
    match requestedEBuckets !! name with
    | Some requested =>
        let actualAsCRD := BucketStatusToEphemeralBucket statusBucket in
        [CheckImmutableFieldsEphemeralBucket actualAsCRD requested;
         CheckChangeConstraintsEphemeralBucket actualAsCRD requested]
    | None => []
    end
  else [].

Definition checkChangeConstraintsBucketLeavingMigrationMode current updated : V () :=
  if negb (rs_BucketsManaged (r_Spec current)) then Valid tt
  else
    requested ← getClusterBucketsByType updated;
    if bool_decide (size requested.1 = 0%nat) && bool_decide (size requested.2 = 0%nat)
    then Invalid (MigrationChange "create bucket CRDs or disable bucket management")
    else checked (concat (status_bucket_checks updated requested.1 requested.2 <$> r_Buckets current)).

(** [spec.migration], which is its host here. *)
Definition migration (r : Resource) : option string := cs_UnmanagedClusterHost (rs_Spec (r_Spec r)).

Definition checkChangeConstraintsMigration current updated : V () :=
  match migration current, migration updated with
  | None, None => Valid tt
  | None, Some _ => Invalid (MigrationChange "added")
  | Some host, Some host' =>
      vc ← checkForVersionChange current updated;
      if vc && bool_decide (is_Some (GetCondition (r_Status current) ClusterConditionMigrating))
      then Invalid (MigrationChange "version")
      else if IsMigrating (r_object current) && bool_decide (host ≠ host') then Invalid (MigrationChange "host")
      else Valid tt
  | Some _, None =>
      if IsMigrating (r_object current) then Invalid (MigrationChange "removed")
      else
        users ← from (GetCouchbaseUsers (r_Namespace updated) (rs_UsersSelector (r_Spec updated)));
        if bool_decide (length users = 0%nat) && rs_UsersManaged (r_Spec updated)
        then Invalid (MigrationChange "users")
        else checkChangeConstraintsBucketLeavingMigrationMode current updated
  end.

(** *** Upgrades *)

Definition checkClusterUpgradePrerequisites prev curr : V () :=
  let asleepWithMemcached := HibernatedWithMemcached (r_object prev) in
  if negb (rs_BucketsManaged (r_Spec curr)) && negb asleepWithMemcached then Valid tt
  else
    let bucketMigrating := has curr ClusterConditionBucketMigration || has prev ClusterConditionBucketMigration in
    if bucketMigrating && bool_decide (spec_image prev ≠ spec_image curr) then Invalid (UpgradeBlocked "bucket migration")
    else
      startVersion ← CouchbaseVersion (couchbase_image prev);
      targetVersion ← CouchbaseVersion (couchbase_image curr);
      crosses ← from (UpgradeCrosses learned startVersion targetVersion MemcachedBucketsRemovedVersion);
      if negb crosses then Valid tt
      else if asleepWithMemcached then Invalid (UpgradeBlocked "asleep with memcached buckets")
      else
        buckets ← from (GetCouchbaseMemcachedBuckets (r_Namespace curr) (rs_BucketsSelector (r_Spec curr)));
        if bool_decide (0 < length buckets)%nat then Invalid (UpgradeBlocked "memcached buckets") else Valid tt.

Definition pod_count (r : Resource) : Z := from_option us_PreviousVersionPodCount 0 (cs_Upgrade (rs_Spec (r_Spec r))).

Definition checkChangeConstraintsPreviousVersionPodCount prev curr : V () :=
  if negb (has curr ClusterConditionMixedMode) && negb (has curr ClusterConditionUpgrading) then Valid tt
  else if bool_decide (pod_count curr ≤ pod_count prev) then Valid tt
  else
    let newNodesBeingAdded := wrap64 (TotalSize (rs_Spec (r_Spec curr)) - TotalSize (rs_Spec (r_Spec prev))) in
    if bool_decide (newNodesBeingAdded ≤ 0) then Invalid PodCountIncreased
    else if bool_decide (wrap64 (pod_count curr - pod_count prev) > newNodesBeingAdded) then Invalid PodCountIncreased
    else Valid tt.

(** Whether there is nothing but a new status, and the verdict; with the objects as they
    are then, their annotations applied. *)
Definition status_of (r : Resource) : ClusterStatus * list StatusBucket * string := (r_Status r, r_Buckets r, status_other r).

Definition CheckChangeConstraintsCluster prev curr : Resource * Resource * V bool :=
  let '(spec, err) := PopulateCluster (r_Spec prev) (r_Annotations prev) in
  let prev := with_r_Spec spec prev in
  match err with
  | Some e => (prev, curr, Invalid (Upstream e))
  | None =>
      let '(spec, err) := PopulateCluster (r_Spec curr) (r_Annotations curr) in
      let curr := with_r_Spec spec curr in
      match err with
      | Some e => (prev, curr, Invalid (Upstream e))
      | None =>
          (prev, curr,
           if checkAnnotationSkipValidation (r_Annotations curr) then Valid false
           else if bool_decide (r_Spec prev = r_Spec curr) && bool_decide (status_of prev ≠ status_of curr) then Valid true
           else
             _ ← checked [checkConstraintPerServiceClassPDB curr; checkDefaultBucketStorageBackendConstraint prev curr;
                          checkChangeConstraintsHibernate prev curr; checkChangeConstraintsMigration prev curr;
                          checkClusterUpgradePrerequisites prev curr;
                          checkChangeConstraintsPreviousVersionPodCount prev curr];
             Valid false)
      end
  end.
End checks.
