(* ===== verification/Controller.v ===== *)
(** * pkg/controller/controller.go: what the operator does about an event

    The reconciler of clusters: it keeps the cluster it manages in memory, has every new
    version of the object checked ([pkg/validationrunner]), goes on with the old one when
    the change is not allowed, and otherwise with the new one. *)

From S2P Require Import Prelude Effects GoLib Digests Version UpgradePath Api Status Pods.
From S2P Require Import Machine Baseline Buckets Claims Admission.
Local Open Scope Z_scope.

Definition AnnotationLastReconciledSpec : string := "operator.couchbase.com/lastReconciledSpec".

(** A cluster in memory; the generation is the one of its last status update. *)
Record Managed := mkManaged {
  mg_cluster : Resource;
  mg_generation : Z;
}.

Definition on_cluster (f : Resource → Resource) (m : Managed) : Managed := mkManaged (f (mg_cluster m)) (mg_generation m).
Definition on_status (f : ClusterStatus → ClusterStatus) : Resource → Resource := λ r, with_r_Status (f (r_Status r)) r.

(** What the reconciler has done, the latest last. *)
Inductive Action :=
  | Reconciled (key : string) (c : Resource)             (* a round with this object *)
  | SpecAnnotated (key : string) (spec : ResourceSpec)    (* the annotation of the spec reconciled last *)
  | Deleted (key : string).

Record Controller := mkController {
  clusters : gmap string Managed;
  actions : list Action;
}.

Definition did (a : Action) (k : Controller) : Controller := mkController (clusters k) (actions k ++ [a]).
Definition Store (key : string) (m : Managed) (k : Controller) : Controller :=
  mkController (<[key := m]> (clusters k)) (actions k).

(** The parts of the operator around it: a new cluster ([cluster.New]), a round, the update
    of the status and of the watchdog, the rules for an object and for the resources around
    it, the reading of a specification from its text, and the texts of errors. *)
Class Operator := {
  New : Resource → option Managed;
  RunReconcile : Managed → Managed;
  updateCRStatus : Managed → Managed;
  ReconcileMirWatchdogContext : Managed → Managed;
  CheckConstraints : Resource → V ();
  validateManagedResources : Managed → list string;
  unmarshal_ResourceSpec : string → option ResourceSpec;
  verror_Error : verror → string;
  now : string;
}.

Section controller.
Context `{Environment} `{Validator} `{Operator} (learned : gmap string string).

(** ** pkg/validationrunner *)
Definition skips_validation (r : Resource) : bool := checkAnnotationTrue (r_Annotations r) AnnotationSkipDACValidation.

Definition validated (r : Resource) : Resource := AddAnnotation AnnotationDisableAdmissionController "false" r.

Definition CheckCouchbaseClusterResource (cluster : Resource) : Resource * V () :=
  if skips_validation cluster then (cluster, Valid tt)
  else (validated cluster, CheckConstraints (validated cluster)).

Definition CheckCouchbaseClusterResourceImmutableFields (update cluster : Resource) : Resource * V () :=
  if skips_validation update then (update, Valid tt)
  else if bool_decide (update = cluster) then (update, Valid tt)
  else (validated update, CheckImmutableFields learned cluster (validated update)).

(** The objects come first, as the check leaves them: the old, then the new one. *)
Definition CheckCouchbaseClusterResourceUpdate (update cluster : Resource) : Resource * Resource * V () :=
  if skips_validation update then (cluster, update, Valid tt)
  else if bool_decide (update = cluster) then (cluster, update, Valid tt)
  else
    let '(cluster, update, v) := CheckChangeConstraintsCluster learned cluster (validated update) in
    (cluster, update, _ ← v; Valid tt).

Definition CheckClusterChangeConstraints (currentCluster updatedCluster : Resource) : Resource * Resource * V () :=
  let '(updatedCluster, v) := CheckCouchbaseClusterResourceImmutableFields updatedCluster currentCluster in
  match v with
  | Valid _ => CheckCouchbaseClusterResourceUpdate updatedCluster currentCluster
  | _ => (currentCluster, updatedCluster, v)
  end.

(** ** The reconciler *)
Definition run (key : string) (m : Managed) (k : Controller) : Controller :=
  Store key (RunReconcile m) (did (Reconciled key (mg_cluster m)) k).

Definition drop (key : string) (k : Controller) : Controller :=
  mkController (delete key (clusters k)) (actions k ++ [Deleted key]).

Definition reconcileFailedValidationCluster (validationErr : verror) (m : Managed) : Managed :=
  updateCRStatus (on_cluster (on_status (SetUnreconcilableCondition now (verror_Error validationErr))) m).

(** [Cluster.Update]; the result of the round is what is stored. *)
Definition Update (key : string) (m : Managed) (cluster : Resource) (k : Controller) : Controller :=
  if bool_decide (r_Generation cluster < mg_generation m) then Store key m k
  else
    let cluster := with_r_Spec (PopulateCluster (r_Spec cluster) (r_Annotations cluster)).1 cluster in
    run key (mkManaged cluster (mg_generation m)) k.

Definition GetSpecFromAnnotation (r : Resource) : option ResourceSpec :=
  match r_Annotations r !! AnnotationLastReconciledSpec with
  | Some annotation => if bool_decide (annotation = "") then None else unmarshal_ResourceSpec annotation
  | None => None
  end.

(** The object a cluster goes on with that was not known: after a restart of the operator
    the change since the specification that was reconciled last is checked.  [None]: a
    panic, here and below. *)
Definition resumed (c : Managed) : option Managed :=
  match GetSpecFromAnnotation (mg_cluster c) with
  | None => Some c
  | Some existingSpec =>
      let '(existingCluster, updated, v) :=
        CheckClusterChangeConstraints (with_r_Spec existingSpec (mg_cluster c)) (mg_cluster c) in
      match v with
      | Valid _ => Some (on_cluster (λ _, updated) c)
      | Invalid _ => Some (on_cluster (λ _, existingCluster) c)
      | Crashes => None
      end
  end.

Definition reconcile_new (key : string) (couchbase : Resource) (k : Controller) : option Controller :=
  match New couchbase with
  | None => Some k
  | Some c =>
      match (CheckCouchbaseClusterResource couchbase).2 with
      | Invalid err => Some (Store key (reconcileFailedValidationCluster err c) k)
      | Valid _ => c ← resumed c; Some (run key c k)
      | Crashes => None
      end
  end.

(** The condition for errors of the validation, of the object and of the resources around it. *)
Definition mark_validation (errs : list string) (cs : ClusterStatus) : ClusterStatus :=
  if bool_decide (length errs ≠ 0%nat) then SetErrorCondition now (strings_Join errs "; ") cs
  else ClearCondition ClusterUnreconcilable (ClearCondition ClusterConditionError cs).

Definition reconcile_known (key : string) (m : Managed) (couchbase : Resource) (k : Controller) : option Controller :=
  let '(couchbase, v) := CheckCouchbaseClusterResource couchbase in
  match v with
  | Crashes => None
  | Invalid err => Some (Store key (reconcileFailedValidationCluster err m) k)
  | Valid _ =>
      let m := ReconcileMirWatchdogContext m in
      let '(current, couchbase, v) := CheckClusterChangeConstraints (mg_cluster m) couchbase in
      let m := on_cluster (λ _, current) m in
      let go (validationErrors : list string) (validationFailed : bool) :=
        let validationErrors := validationErrors ++ validateManagedResources m in
        let m := on_cluster (on_status (mark_validation validationErrors)) m in
        if validationFailed then run key m k
        else Update key m (on_status (mark_validation validationErrors) couchbase) (did (SpecAnnotated key (r_Spec (mg_cluster m))) k) in
      match v with
      | Crashes => None
      | Invalid err => Some (go [verror_Error err] true)
      | Valid _ => Some (go [] false)
      end
  end.

(** An event of the cluster [key]; [fetched] is what the cache has, or the error. *)
Definition Reconcile (key : string) (fetched : result (option Resource)) (k : Controller) : option Controller :=
  match fetched with
  | Panic => None
  | Err _ => Some k
  | Ok None => Some (if bool_decide (is_Some (clusters k !! key)) then drop key k else k)
  | Ok (Some couchbase) =>
      match clusters k !! key with
      | Some m =>
          if bool_decide (r_UID (mg_cluster m) ≠ r_UID couchbase)
          then reconcile_new key couchbase (drop key k)
          else reconcile_known key m couchbase k
      | None => reconcile_new key couchbase k
      end
  end.
End controller.
