(* ===== verification/Creation.v ===== *)
(** * pkg/cluster/pod.go, member.go: creating pods

    [createPod], and [createMembers], which creates the pods of new members in
    goroutines.  These interleave within [createPod], which is a computation in steps:
    each request, each look at a cache and each call of the scheduler is one.  They also
    share a variable of the enclosing function, in which they store what [createPod]
    returns and from which they read it back.  A schedule says who takes the next step. *)

From Stdlib Require Import Ascii.
From S2P Require Import Prelude Effects GoLib Regex Digests Version Api Member Persistence Status.
From S2P Require Import ServerGroups Scheduler UpgradeOrder RollingUpgrade NodeStatus Pods Volumes Machine Rebalance.
From S2P Require Import Baseline Claims.
Local Open Scope Z_scope.

Definition FailedSchedulingServerGroupsTracker : string := "failedSchedulingServerGroupsTracker".

(** [encoding/json] on a map from strings to numbers. *)
Class TrackerJSON := {
  marshal_tracker : gmap string Z → string;
  unmarshal_tracker : string → result (gmap string Z);
}.

Definition isSGReschedulingEnabled (c : Cluster) : bool :=
  ServerGroupsEnabled (Spec (c_cluster c)) && RescheduleDifferentServerGroup (c_settings c).

(** ** The server groups in which pods could not be scheduled *)
Section tracker.
Context `{Platform W} `{PersistentStorage W} `{MapRange} `{TrackerJSON}.
Abbreviation R := (RS W).

Definition getFailedServerGroupsTracker : M R (gmap string Z) :=
  tracker ← attempt (on_world (ps_Get FailedSchedulingServerGroupsTracker));
  match tracker with
  | inl trackerString => lift (unmarshal_tracker trackerString)
  | inr e => if bool_decide (e = ErrKeyError) then mret ∅ else throw e
  end.

(** Groups that have failed more than once. *)
Definition getServerGroupsToAvoid (pos : list nat) : M R (list string) :=
  tracker ← getFailedServerGroupsTracker;
  mret (filter (λ e : string * Z, 1 < e.2) (range pos tracker)).*1.

Definition addFailedSchedulingServerGroups (serverGroup : string) : M R () :=
  c ← gets cl;
  if negb (isSGReschedulingEnabled c) then mret tt
  else
    tracker ← getFailedServerGroupsTracker;
    let count := match tracker !! serverGroup with Some v => wrap64 (v + 1) | None => 1 end in
    on_world (ps_Upsert FailedSchedulingServerGroupsTracker (marshal_tracker (<[serverGroup := count]> tracker))).

Definition readyConditions : list string := [ClusterConditionBalanced; ClusterConditionAvailable].
Definition notReadyConditions : list string :=
  [ClusterConditionScaling; ClusterConditionScalingDown; ClusterConditionScalingUp; ClusterConditionUpgrading].

Definition clearFailedSchedulingServerGroupsIfReady : M R () :=
  c ← gets cl;
  let cc := c_cluster c in
  if negb (isSGReschedulingEnabled c) then mret tt
  else if existsb (λ condition, negb (HasCondition cc condition)) readyConditions then mret tt
  else if existsb (HasCondition cc) notReadyConditions then mret tt
  else
    let desiredSize := fold_left (λ n server, wrap64 (n + sc_Size server)) (cs_Servers (Spec cc)) 0 in
    if bool_decide (st_Size (Status cc) ≠ desiredSize) then mret tt
    else ignore_error (on_world (ps_Delete FailedSchedulingServerGroupsTracker)).
End tracker.

(** ** One pod *)
Section pod.
Context `{ClaimPlatform W} `{PersistentStorage W} `{Environment} `{MapRange} `{SpecJSON} `{TrackerJSON} `{Scheduler Sc}.
Abbreviation R := (RS W).
Abbreviation FS := (RS W * Sc)%type.

Definition with_rs {A} (m : M R A) : M FS A := zoom fst (λ s f, (s, f.2)) m.
Definition with_scheduler {A} (m : M Sc A) : M FS A := zoom snd (λ sc f, (f.1, sc)) m.

Definition proc_both {A} (p : proc (W * Sc) A) : proc FS A :=
  proc_zoom (λ f, (world f.1, f.2)) (λ x f, (set_world x.1 f.1, x.2)) p.
Definition proc_world {A} (p : proc W A) : proc FS A :=
  proc_zoom (λ f, world f.1) (λ w f, (set_world w f.1, f.2)) p.

Definition FlagPodPendingInitialization (pod : KPod) (message : string) : proc W () :=
  condition ← atom (NewPodCondition PodPendingInitializationCondition "True" message);
  currentPod ← atom (api_GetPod (kp_Name pod));
  let conditions := upsert_condition condition (kp_Conditions currentPod) in
  ticks ← atom (gets retry_ticks);
  proc_retry ticks retry_tick (atom (api_PatchConditions (kp_Name pod) conditions));;
  atom (cache_Update (with_conditions pod conditions));;
  atom (cache_Update (with_conditions pod conditions)).

(** The body of [createPod]: with rescheduling the scheduler is told first which groups
    to avoid.  A read of the tracker and a call of the stripe scheduler hold a lock, and
    are one step each; calls of the null scheduler hold none, and its races are not modelled. *)
Definition create_and_flag (pos : list nat) (m : Member) (serverSpec : ServerConfig) : proc FS () :=
  c ← atom (with_rs (gets cl));
  (if isSGReschedulingEnabled c then
     groups ← proc_attempt (atom (with_rs (getServerGroupsToAvoid (0%nat :: pos))));
     match groups with
     | inl groups =>
         if bool_decide (0 < length groups)%nat then atom (with_scheduler (AvoidGroups groups)) else mret tt
     | inr _ => mret tt
     end
   else mret tt);;
  pod ← proc_both (CreateCouchbasePod (1%nat :: pos) (c_learned c) (c_cluster c) (c_UID c) m serverSpec);
  proc_world (FlagPodPendingInitialization pod
    (if isSGReschedulingEnabled c then "pod created with rescheduling, waiting for readiness"
     else "pod created, waiting for readiness")).

(** The deferred function removes what was created, unless the name is taken: then
    somebody else's pod has it. *)
Definition create_pod (pos : list nat) (m : Member) (serverSpec : ServerConfig) (deleteVolumes : bool) : proc FS () :=
  created ← proc_attempt (create_and_flag pos m serverSpec);
  match created with
  | inl _ => mret tt
  | inr e =>
      (if bool_decide (e = ErrAlreadyExists) then mret tt
       else _ ← proc_attempt (proc_world (DeleteCouchbasePod (Name m) deleteVolumes)); mret tt);;
      Done (Err e)
  end.

(** ** Many pods *)
Definition IsExternalMigrationCluster (c : Cluster) : bool :=
  IsMigrationCluster (c_cluster c) && bool_decide (is_Some (net_DNS (c_networking c))).

Definition newMember (c : Cluster) (id : Z) (serverSpecName image : string) : result Member :=
  version ← CouchbaseImageVersion (c_learned c) image;
  let cc := c_cluster c in
  let name := CreateMemberName (Api.Name cc) id in
  match net_DNS (c_networking c) with
  | Some domain =>
      if IsExternalMigrationCluster c
      then Ok (NewExtConnectedMember (Namespace cc) (Api.Name cc) name version serverSpecName (IsTLSEnabled c)
                 (name +:+ "." +:+ domain) image)
      else Ok (NewMember (Namespace cc) (Api.Name cc) name version serverSpecName (IsTLSEnabled c) image)
  | None => Ok (NewMember (Namespace cc) (Api.Name cc) name version serverSpecName (IsTLSEnabled c) image)
  end.

(** The members of a batch, each on the image of its class. *)
Fixpoint new_members (c : Cluster) (indexes : list Z) (serverSpecs : list ServerConfig) : result (list Member) :=
  match indexes, serverSpecs with
  | index :: indexes, serverSpec :: serverSpecs =>
      m ← newMember c index (sc_Name serverSpec) (ServerClassCouchbaseImage (Spec (c_cluster c)) (Some serverSpec));
      ms ← new_members c indexes serverSpecs;
      Ok (m :: ms)
  | _, [] => Ok []
  | [], _ :: _ => Panic
  end.

(** Where a goroutine is: within [createPod]; with what that returned; with that stored in
    the shared [err]; having seen an error there; over. *)
Inductive pc := Creating (p : proc FS ()) | Returned (err : option error) | Stored | Failing | Over.

(** The goroutines: who they create, where they are and what they have recorded. *)
Record Goroutine := mkGoroutine {
  g_member : Member;
  g_pc : pc;
  g_Err : option error;
}.

Definition at_pc (p : pc) (g : Goroutine) : Goroutine := mkGoroutine (g_member g) p (g_Err g).

(** [createPod] is over; [None] where the process panics. *)
Definition returned (r : result ()) : option pc :=
  match r with Ok _ => Some (Returned None) | Err e => Some (Returned (Some e)) | Panic => None end.

(** One step of goroutine [i]. *)
Definition goroutine_step (i : nat) (st : FS * option error * list Goroutine) :
    option (FS * option error * list Goroutine) :=
  let '(s, err, gs) := st in
  match gs !! i with
  | None => Some st
  | Some g =>
      match g_pc g with
      | Creating (Done r) => pc ← returned r; Some (s, err, <[i := at_pc pc g]> gs)
      | Creating (Step f) => let '(p, s') := f s in Some (s', err, <[i := at_pc (Creating p) g]> gs)
      | Returned e => Some (s, e, <[i := at_pc Stored g]> gs)
      | Stored => Some (s, err, <[i := at_pc (match err with Some _ => Failing | None => Over end) g]> gs)
      | Failing => Some (s, err, <[i := mkGoroutine (g_member g) Over err]> gs)
      | Over => Some st
      end
  end.

Fixpoint run_goroutines (schedule : list nat) (st : FS * option error * list Goroutine) :
    option (FS * option error * list Goroutine) :=
  match schedule with
  | [] => Some st
  | i :: schedule => st ← goroutine_step i st; run_goroutines schedule st
  end.

(** The rest of [createPod] of goroutine [i]. *)
Definition run_on (i : nat) (st : FS * option error * list Goroutine) : FS * option error * list Goroutine :=
  let '(s, err, gs) := st in
  match gs !! i with
  | Some g => match g_pc g with
              | Creating p => let '(r, s') := run_proc p s in (s', err, <[i := at_pc (Creating (Done r)) g]> gs)
              | _ => st
              end
  | None => st
  end.

(** [wg.Wait()]: whoever is left runs on.  After [createPod], four steps end a goroutine. *)
Definition drain (n : nat) (st : FS * option error * list Goroutine) : option (FS * option error * list Goroutine) :=
  foldl (λ st i, st ← st; run_goroutines [i; i; i; i] (run_on i st)) (Some st) (seq 0 n).

(** Each goroutine creates the pod of its member. *)
Definition create_pods (pos : list nat) (ms : list Member) (serverSpecs : list ServerConfig) : list (proc FS ()) :=
  imap (λ i x, create_pod (i :: pos) x.1 x.2 true) (zip ms serverSpecs).

Definition start_goroutines (ms : list Member) (creating : list (proc FS ())) : list Goroutine :=
  zip_with (λ m p, mkGoroutine m (Creating p) None) ms creating.

(** [createMembers]: the members and what was recorded of them.  If all failed the pod
    index is set back. *)
Definition createMembers (pos : list nat) (schedule : list nat) (serverSpecs : list ServerConfig) :
    M FS (list (Member * option error)) :=
  indexes ← with_rs (on_world (getAvailableIndexes (Z.of_nat (length serverSpecs))));
  c ← with_rs (gets cl);
  ms ← lift (new_members c indexes serverSpecs);
  results ← (λ s, match run_goroutines schedule (s, None, start_goroutines ms (create_pods pos ms serverSpecs))
                          ≫= drain (length ms) with
                  | Some (s', _, gs) => (Ok ((λ g, (g_member g, g_Err g)) <$> gs), s')
                  | None => (Panic, s)
                  end);
  if existsb (λ r : Member * option error, bool_decide (r.2 = None)) results then mret results
  else
    match indexes with
    | [] => lift Panic
    | first :: _ => ignore_error (with_rs (on_world (setPodIndex first)));; mret results
    end.

(** [addMembers]: a cluster that is migrated adds its nodes at once, which is an
    argument. *)
Definition addMembers (addMigrationMembers : list ServerConfig → list (Member * option error) →
      M FS (list (Member * option error)))
    (pos schedule : list nat) (serverSpecs : list ServerConfig) : M FS (list (Member * option error)) :=
  memberResults ← createMembers pos schedule serverSpecs;
  c ← with_rs (gets cl);
  if negb (IsMigrationCluster (c_cluster c)) then mret memberResults
  else addMigrationMembers serverSpecs memberResults.
End pod.
