(* ===== verification/Recovery.v ===== *)
(** * pkg/cluster/nodereconcile.go: members that are down or failed

    Waiting for the automatic failover, recreating pods from their volumes,
    forcing a failover when the policy asks for uptime, and bringing failed nodes
    back ([handleDownNodes], [handleFailedAddNodes], [handleAddBackNodes],
    [handleFailedNodes]). *)

From Stdlib Require Import Ascii.
From S2P Require Import Prelude Effects GoLib Regex Digests Version Api Member Persistence Status.
From S2P Require Import UpgradeOrder RollingUpgrade NodeStatus Pods Volumes Machine Rebalance.
Local Open Scope Z_scope.

Definition LastRecoveryAttemptTimes : string := "lastRecoveryAttemptTimes".
Definition LastSuccessfulRecoveryTimes : string := "lastSuccessfulRecoveryTimes".

(** Thirty seconds, in nanoseconds. *)
Definition recovery_grace : Z := 30 * 10 ^ 9.

(** [MapServiceNameToServerServiceName] and [ServiceListFromStringArray] of
    [couchbaseutil/types.go]. *)
Definition MapServiceNameToServerServiceName (service : string) : result string :=
  if bool_decide (service ∈ ["kv"; "data"]) then Ok "kv"
  else if bool_decide (service = "index") then Ok "index"
  else if bool_decide (service ∈ ["n1ql"; "query"]) then Ok "n1ql"
  else if bool_decide (service ∈ ["fts"; "search"]) then Ok "fts"
  else if bool_decide (service = "eventing") then Ok "eventing"
  else if bool_decide (service ∈ ["cbas"; "analytics"]) then Ok "cbas"
  else Err ErrInvalidResourceName.

Fixpoint ServiceListFromStringArray (arr : list string) : result (list string) :=
  match arr with
  | [] => Ok []
  | svc :: arr =>
      if bool_decide (svc = "admin") then ServiceListFromStringArray arr
      else
        serviceName ← MapServiceNameToServerServiceName svc;
        list ← ServiceListFromStringArray arr;
        Ok (serviceName :: list)
  end.

Section recovery.
Context `{Platform W} `{PersistentStorage W} `{Environment} `{MapRange}.
Abbreviation R := (RS W).

(** ** Times of recovery *)
Definition hasMemberRecoveryTimeElapsed (memberName : string) : M R bool :=
  c ← gets cl; w ← gets world;
  recoveryTime ←
    match c_recoveryTime c !! memberName with
    | Some recoveryTime => mret recoveryTime
    | None =>
        let recoveryTime := time_now w + AutoFailoverTimeout (c_settings c) + recovery_grace in
        modify (set_cl (λ c, set_recovery (<[memberName := recoveryTime]> (c_recoveryTime c)) c));;
        mret recoveryTime
    end;
  mret (negb (bool_decide (time_now w < recoveryTime))).

Definition allDownNodesRecoveryTimedout (pos : list nat) (ms : MemberSet) : M R bool :=
  for_fold (λ recoverable (e : string * Member),
      elapsed ← hasMemberRecoveryTimeElapsed e.1; mret (elapsed && recoverable))
    true (range pos ms).

(** A map of times, as [json.Marshal] writes it. *)
Definition times_json (times : gmap string Z) : string :=
  json_object ((λ name, (name, json_string (time_Format (W := W) (default 0 (times !! name))))) <$> sorted_keys times).

(** [persistRecoveryTimestamps]: failures are logged. *)
Definition persist_times (key : string) (times : gmap string Z) : M R () :=
  if bool_decide (times = ∅) then mret tt
  else ignore_error (on_world (ps_Upsert key (times_json times))).

Definition persistRecoveryTimestamps : M R () :=
  c ← gets cl;
  persist_times LastRecoveryAttemptTimes (c_lastRecoveryAttemptTime c);;
  persist_times LastSuccessfulRecoveryTimes (c_lastSuccessfulRecoveryTime c).

Definition note_attempt (name : string) : M R () :=
  modify (λ s, set_cl (λ c, set_recovery_times
    (<[name := time_now (world s)]> (c_lastRecoveryAttemptTime c)) (c_lastSuccessfulRecoveryTime c) c) s).
Definition note_success (name : string) : M R () :=
  modify (λ s, set_cl (λ c, set_recovery_times
    (c_lastRecoveryAttemptTime c) (<[name := time_now (world s)]> (c_lastSuccessfulRecoveryTime c)) c) s).

(** ** Recreating a pod *)
Definition recreatePod (m : Member) (recovery : bool) : M R () :=
  c ← gets cl;
  match GetServerConfigByName (Spec (c_cluster c)) (Config m) with
  | None => throw ErrResourceAttributeRequired
  | Some config =>
      (if recovery then ignore_error (on_world (incrementRecoveryAttempts (Name m))) else mret tt);;
      perform (PodRecreated (Name m)) (api_DeletePod (Name m));;
      on_world (api_WaitForDeletePod (Name m));;
      on_world (createPod m config);;
      on_world (SetPodInitialized (Name m));;
      (if recovery then ignore_error (on_world (resetRecoveryAttempts (Name m))) else mret tt)
  end.

(** The pod was recreated in an earlier cycle and waits to be initialised. *)
Definition already_recreated (w : W) (name : string) : bool :=
  match Pods_Get w name with
  | Some pod => negb (kp_Terminating pod) && HasPendingInitializationCondition pod
  | None => false
  end.

Definition recoverable (s : R) (m : Member) : bool :=
  isPodRecoverable (c_learned (cl s)) (c_cluster (cl s)) (PVCs_List (world s)) m.
Definition exceeded (s : R) (name : string) : bool :=
  hasExceededRecoveryMaxRetries (PodRecoveryMaxRetries (c_settings (cl s))) (PVCs_List (world s)) name.
Definition policy (s : R) : string := GetRecoveryPolicy (c_cluster (cl s)).

(** ** Down nodes *)

(** One turn of the loop that recreates pods: [None] when the function returns. *)
Definition recover_down (e : string * Member) (recovered : nat) : M R (option nat) :=
  let '(name, m) := e in
  s ← get;
  if negb (recoverable s m) && bool_decide (policy s = PrioritizeDataIntegrity) then mret None
  else if negb (recoverable s m) then mret (Some recovered)
  else if exceeded s name then mret (Some recovered)
  else if already_recreated (world s) name then mret (Some recovered)
  else
    note_attempt name;;
    persistRecoveryTimestamps;;
    recreatePod m true;;
    modify (set_cl (λ c, set_recovery (delete name (c_recoveryTime c)) c));;
    note_success name;;
    persistRecoveryTimestamps;;
    mret (Some (recovered + 1)%nat).

Fixpoint recover_loop (l : list (string * Member)) (recovered : nat) : M R (option nat) :=
  match l with
  | [] => mret (Some recovered)
  | e :: l =>
      r ← recover_down e recovered;
      match r with
      | None => mret None
      | Some recovered => recover_loop l recovered
      end
  end.

(** The node of a name to recover: a missing entry of the map is a nil member. *)
Definition failover_node (down : MemberSet) (name : string) : M R string :=
  ignore_error (on_world (resetRecoveryAttempts name));;
  match down !! name with
  | Some m => mret (GetOTPNode m)
  | None => lift Panic
  end.

Definition failover_down (pos : list nat) (r : ReconcileMachine) (nodesToRecover : list string) : M R () :=
  let down := DownNodes (couchbase r) in
  recovering ← for_fold (λ acc name, otp ← failover_node down name; mret (acc ++ [otp])) [] nodesToRecover;
  s ← get;
  let nodesToFailover := recovering ++
    (if bool_decide (policy s = PrioritizeUptime) then
       ((λ e : string * Member, GetOTPNode e.2) <$> range (0%nat :: pos) down) ++
       ((λ e : string * Member, GetOTPNode e.2) <$> range (1%nat :: pos) (FailedNodes (couchbase r)))
     else []) in
  if bool_decide (0 < length nodesToFailover)%nat then
    perform (FailoverForced nodesToFailover true)
      (cb_Failover nodesToFailover true (getMigratingReadyTarget (cl s)));;
    abort "pods are failing over"
  else mret tt.

Definition handleDownNodes (pos : list nat) : M R () :=
  r ← gets fsm;
  let down := DownNodes (couchbase r) in
  if Empty down then mret tt
  else
    set_status_now (λ now, SetUnavailableCondition now (Names down));;
    updateCRStatus;;
    timedout ← allDownNodesRecoveryTimedout (0%nat :: pos) down;
    if negb timedout then abort "waiting for down node failover timeout"
    else
      s ← get;
      let nodesToRecover :=
        (filter (λ e : string * Member, recoverable s e.2 && exceeded s e.1 = true) (range (1%nat :: pos) down)).*1 in
      let manualActionNodes :=
        (filter (λ e : string * Member, recoverable s e.2 = false) (range (2%nat :: pos) down)).*1 ++ nodesToRecover in
      if bool_decide (policy s = PrioritizeDataIntegrity) && bool_decide (0 < length manualActionNodes)%nat
      then abort "waiting for manual action of down nodes"
      else
        recovered ← recover_loop (range (3%nat :: pos) down) 0;
        match recovered with
        | None => mret tt
        | Some O => failover_down (4%nat :: pos) r nodesToRecover
        | Some (S _) => abort "waiting for cluster recovery"
        end.

(** ** Adding a node again *)
Definition checkTargetPodAvailable (w : W) (target : Target) : result () :=
  match target with
  | ToMembers ms =>
      if existsb (λ e : string * Member, match Pods_Get w e.1 with
                                         | Some pod => negb (kp_Terminating pod)
                                         | None => false
                                         end) (map_to_list ms)
      then Ok tt else Err ErrPodNotFound
  | ToURL _ => Ok tt
  end.

Definition attemptAddNode (member : Member) (url : string) (services : list string) (target : Target) : M W bool :=
  w ← get;
  match Pods_Get w (Name member) with
  | None => throw ErrPodNotFound
  | Some pod =>
      if kp_Terminating pod then throw ErrPodNotFound
      else
        info ← attempt (cb_GetPoolsDefault target);
        match info with
        | inr _ => mret false
        | inl info =>
            if existsb (λ node, bool_decide (WithoutPort (ni_HostName node) = url)) (Nodes info) then mret true
            else if negb (IsPodMainContainerReady pod) then mret false
            else cb_AddNode url services target;; mret true
        end
  end.

(** [AddNodeWithPodReadyCheck]: at once, then every second until the deadline. *)
Fixpoint add_node_loop (n : nat) (member : Member) (url : string) (services : list string) (target : Target) :
    M W () := λ w,
  match checkTargetPodAvailable w target with
  | Ok _ =>
      let retry w' := match n with
        | O => (Err ErrNodeNotAdded, w')
        | S n => add_node_loop n member url services target (retry_tick w')
        end in
      match attemptAddNode member url services target w with
      | (Ok true, w') => (Ok tt, w')
      | (Ok false, w') => retry w'
      | (Err e, w') => if bool_decide (e = ErrPodNotFound) then (Err e, w') else retry w'
      | (Panic, w') => (Panic, w')
      end
  | Err e => (Err e, w)
  | Panic => (Panic, w)
  end.

Definition AddNodeWithPodReadyCheck (member : Member) (url : string) (services : list string)
    (target : Target) : M W () := λ w,
  add_node_loop (retry_ticks w) member url services target w.

(** A call retried by the client ([RetryFor]) until the deadline. *)
Definition cancelAddNode (m : Member) (c : Cluster) : M W () :=
  retry_for (cb_CancelAddNode (GetOTPNode m) (getMigratingReadyTarget c)).

Definition attemptSilentReAdd (m : Member) : M R bool :=
  c ← gets cl;
  match GetServerConfigByName (Spec (c_cluster c)) (Config m) with
  | None => mret false
  | Some config =>
      let url := if AddNodeInsecure (c_settings c) then GetHostURLPlaintext m else GetDNSName m in
      match ServiceListFromStringArray (sc_Services config) with
      | Ok services =>
          cancelled ← attempt (on_world (cancelAddNode m c));
          match cancelled with
          | inr _ => mret false
          | inl _ =>
              added ← attempt (on_world (AddNodeWithPodReadyCheck m url services (ToMembers (readyMembers c))));
              mret (match added with inl _ => true | inr _ => false end)
          end
      | _ => mret false
      end
  end.

Definition cancelAddMember (m : Member) : M R () :=
  c ← gets cl; on_world (cancelAddNode m c).

(** The pod runs: it is there and not terminating. *)
Definition pod_runs (w : W) (name : string) : bool :=
  match Pods_Get w name with Some pod => negb (kp_Terminating pod) | None => false end.

(** ** Failed additions *)
Definition silent_readd (name : string) (m : Member) : M R bool :=
  w ← gets world;
  if pod_runs w name then attemptSilentReAdd m else mret false.

Definition handle_failed_add (pos : list nat) (e : string * Member) : M R bool :=
  let '(name, m) := e in
  s ← get;
  if recoverable s m then
    if already_recreated (world s) name then mret false
    else
      readded ← silent_readd name m;
      if readded : bool then abort ("FailedAdd node silently re-added after retry: " +:+ name);; mret true
      else
        recreated ← attempt (recreatePod m false);
        match recreated with
        | inr _ => abort "unable to recover pod pending addition"
        | inl _ => abort ("pending add pod recreated asynchronously, waiting for initialization: " +:+ name)
        end;;
        mret true
  else
    readded ← silent_readd name m;
    if readded : bool then abort ("FailedAdd stateless node silently re-added after retry: " +:+ name);; mret true
    else
      cancelAddMember m;;
      clusterRemoveMember pos name;;
      removeMemberNoEject m;;
      mret false.

Definition handleFailedAddNodes (pos : list nat) : M R () :=
  r ← gets fsm;
  if Empty (FailedAddNodes (couchbase r)) then mret tt
  else for_until (handle_failed_add (0%nat :: pos)) (range (1%nat :: pos) (FailedAddNodes (couchbase r)));; mret tt.

(** ** Nodes to add back *)
Definition isPodTerminating (w : W) (m : Member) : result bool :=
  match Pods_Get w (Name m) with
  | None => Err ErrResourceRequired
  | Some pod => Ok (kp_Terminating pod)
  end.

(** [true] where the loop ends, by a return or a break. *)
Definition handle_add_back (ready : MemberSet) (e : string * Member) : M R bool :=
  let '(name, m) := e in
  s ← get;
  terminating ← lift (isPodTerminating (world s) m);
  if terminating : bool then abort "add back node is terminating";; mret true
  else match verifyMemberVolumes (c_learned (cl s)) (c_cluster (cl s)) (PVCs_List (world s)) m with
  | Panic => lift Panic
  | Err _ => removeMember m;; mret true
  | Ok _ =>
      match GetServerConfigByName (Spec (c_cluster (cl s))) (Config m) with
      | None =>
          modify (set_fsm (λ r, set_eject (Add m (ejectMembers r)) r));;
          mret true
      | Some sc =>
          let recoveryType := if ServiceList.Contains (sc_Services sc) DataService
                              then RecoveryTypeDelta else RecoveryTypeFull in
          on_world (cb_SetRecoveryType (GetOTPNode m) recoveryType (ToMembers ready));;
          modify (set_fsm (set_needsRebalance true));;
          mret false
      end
  end.

Definition handleAddBackNodes (pos : list nat) : M R () :=
  r ← gets fsm; c ← gets cl;
  if Empty (AddBackNodes (couchbase r)) then mret tt
  else if Empty (readyMembers c) then mret tt
  else for_until (handle_add_back (readyMembers c)) (range pos (AddBackNodes (couchbase r)));; mret tt.

(** ** Failed nodes *)
Definition handle_failed (e : string * Member) : M R bool :=
  let '(name, m) := e in
  s ← get;
  if recoverable s m && negb (exceeded s name) then
    if already_recreated (world s) name then mret false
    else
      note_attempt name;;
      persistRecoveryTimestamps;;
      recreated ← attempt (recreatePod m true);
      match recreated with
      | inr _ => abort "unable to recover pod";; mret true
      | inl _ =>
          note_success name;;
          persistRecoveryTimestamps;;
          abort ("failed pod recreated asynchronously, waiting for initialization: " +:+ name);;
          mret true
      end
  else removeMember m;; mret false.

Definition handleFailedNodes (pos : list nat) : M R () :=
  r ← gets fsm;
  if Empty (FailedNodes (couchbase r)) then mret tt
  else for_until handle_failed (range pos (FailedNodes (couchbase r)));; mret tt.
End recovery.
