(* ===== verification/PendingInit.v ===== *)
(** * pkg/cluster/cluster.go, member.go, networking.go: pods waiting to be initialised

    A pod is created with a mark that it waits for its initialisation.  Before each
    cycle the marked pods are looked at: one that is ready is configured, added to the
    cluster and loses the mark ([handleReadyPendingPod]); one that takes too long is
    removed ([handleTimedOutPendingPod]).  Errors are logged by the handlers: the mark
    stays, and the next cycle tries again. *)

From Stdlib Require Import Ascii.
From S2P Require Import Prelude Effects GoLib Regex Digests Version Api Member Persistence Status.
From S2P Require Import Scheduler UpgradeOrder RollingUpgrade NodeStatus Pods Volumes Machine Rebalance Baseline.
From S2P Require Import Claims Creation Recovery.
Local Open Scope Z_scope.

Definition DefaultDataPath : string := "/opt/couchbase/var/lib/couchbase/data".

(** The REST API of a single node, the network and what else is not modelled of the
    initialisation. *)
Class NodeInit (W : Type) `{Platform W} := {
  (* the object somebody was given, as it is by now: it may still be the one in the
     cache, which is changed in place *)
  deref : KPod → W → KPod;
  (* what clients are to reach the member by, if it is known *)
  createAlternateAddressesExternal : Cluster → Member → M W (option string);
  waitAlternateAddressReachable : string → M W ();
  cb_EnableExternalListener : string → Member → M W ();
  cb_SetNodeNetworkConfiguration : string → option bool → Member → M W ();
  cb_LoadCAs : Member → M W ();
  cb_SetClusterCACert : string → Member → M W ();
  cb_ReloadNodeCert : option string → Member → M W ();
  passphraseSettings : M W (option string);
  WaitForHostPortTLS : Member → string → M W ();
  cb_SetHostname : string → Member → M W ();
  cb_SetStoragePaths : string → string → list string → Member → M W ();
  cb_GetNodesSelf : Member → M W string;          (* the membership *)
  initInitialMember : Cluster → Member → ServerConfig → M W ();
}.

(** ** Members of pods *)
Definition memberFromPod (c : Cluster) (pod : KPod) : Member :=
  let configName := default "" (kp_Labels pod !! LabelNodeConf) in
  let version := default "" (kp_Annotations pod !! CouchbaseVersionAnnotationKey) in
  let secure := bool_decide (is_Some (kp_Annotations pod !! PodTLSAnnotation)) in
  let hostname := default "" (kp_Annotations pod !! CouchbaseHostnameAnnotation) in
  let cluster := Api.Name (c_cluster c) in
  let member := NewMember (kp_Namespace pod) cluster (kp_Name pod) version configName secure (pod_image pod) in
  if bool_decide (hostname ≠ "") && bool_decide (hostname ≠ GetDNSName member)
  then NewExtConnectedMember (kp_Namespace pod) cluster (kp_Name pod) version configName secure hostname
         (pod_image pod)
  else member.

Definition isPodActuallyReady (pod : KPod) : bool :=
  bool_decide (kp_Phase pod = PodRunning) && IsPodMainContainerReady pod.

Definition is_initialized (pod : KPod) : bool :=
  bool_decide (is_Some (kp_Annotations pod !! PodInitializedAnnotation)).

(** ** Settings of a node *)

(** Couchbase's name of the address family, and whether it is the only one. *)
Definition addressFamilyResourceToCouchbase (af : string) : string * bool :=
  if bool_decide (af = "IPv4") || bool_decide (af = "IPv4Only") then ("ipv4", true)
  else if bool_decide (af = "IPv6") || bool_decide (af = "IPv6Only") then ("ipv6", true)
  else if bool_decide (af = "IPv6Priority") then ("ipv6", false)
  else ("ipv4", false).

Definition AddressFamily (c : Cluster) : string := default "IPv4Priority" (net_AddressFamily (c_networking c)).

Definition supportsAFFiltering `{Environment} (c : Cluster) : bool :=
  match
    lowestImage ← LowestInUseCouchbaseVersionImage (Spec (c_cluster c));
    tag ← CouchbaseImageVersion (c_learned c) lowestImage;
    version ← NewVersion (c_learned c) tag;
    GreaterEqualString (c_learned c) version "7.0.2"
  with Ok b => b | _ => false end.

(** The family, whether others are filtered, and the families listened to. *)
Definition generateNetworkConfiguration `{Environment} (c : Cluster) (onInit : bool) :
    string * option bool * list string :=
  let '(addressFamily, addressFamilyOnly) := addressFamilyResourceToCouchbase (AddressFamily c) in
  let addressFamilyOnly := if onInit then false else addressFamilyOnly in
  (addressFamily, if supportsAFFiltering c then Some addressFamilyOnly else None, [addressFamily]).

Definition GetAnalyticsVolumePaths (mounts : VolumeMounts) : list string :=
  imap (λ index _, "/mnt/" +:+ analytics_mount index) (default [] (AnalyticsClaims mounts)).

Definition getServiceDataPaths (mounts : option VolumeMounts) : string * string * list string :=
  match mounts with
  | Some mounts =>
      if LogsOnly mounts then (DefaultDataPath, DefaultDataPath, [])
      else
        (if bool_decide (DataClaim mounts ≠ "") then CouchbaseVolumeMountDataDir else DefaultDataPath,
         if bool_decide (IndexClaim mounts ≠ "") then CouchbaseVolumeMountIndexDir else DefaultDataPath,
         if bool_decide (0 < length (default [] (AnalyticsClaims mounts)))%nat
         then GetAnalyticsVolumePaths mounts else [])
  | None => (DefaultDataPath, DefaultDataPath, [])
  end.

Section init.
Context `{NodeInit W} `{PersistentStorage W} `{Environment} `{MapRange} `{TrackerJSON}.
(** The certificate authority in the cache of the TLS reconciler, which may be empty. *)
Context (tlsCache : option string).
Abbreviation R := (RS W).

Definition single (m : Member) : Target := ToMembers {[Name m := m]}.

(** ** Marks *)
Definition ClearPodPendingInitialization (pod : KPod) : M W () :=
  w ← get; RemovePodCondition (deref pod w) PodPendingInitializationCondition.

Definition FlagPodPendingExternalDNS (pod : KPod) (message : string) : M W () :=
  condition ← NewPodCondition PodPendingExternalDNSCondition "True" message;
  w ← get;
  UpsertPodCondition (deref pod w) condition;;
  w ← get;
  cache_Update (deref pod w).

(** [canAddNodeToCluster]: is the node's external address known and reachable? *)
Definition canAddNodeToCluster (c : Cluster) (pod : KPod) (member : Member) : M W bool :=
  if bool_decide (ExposedFeatures (c_networking c) = []) then mret true
  else if bool_decide (AllowExternallyUnreachablePods (c_networking c) = Some true) then mret true
  else
    addresses ← createAlternateAddressesExternal c member;
    match addresses with
    | None => FlagPodPendingExternalDNS pod "Waiting for external address";; mret false
    | Some hostname =>
        if bool_decide (hostname = "") then FlagPodPendingExternalDNS pod "Waiting for external address";; mret false
        else
          w ← get;
          if negb (hasDNSCheckDelayElapsed c w (deref pod w))
          then FlagPodPendingExternalDNS pod "Delaying DNS Check";; mret false
          else
            reachable ← attempt (waitAlternateAddressReachable hostname);
            match reachable with
            | inl _ => mret true
            | inr _ => FlagPodPendingExternalDNS pod "Waiting on DNS Propagation";; mret false
            end
    end.

Definition waitForPodAdded (member : Member) : M W () := retry_for (
  membership ← cb_GetNodesSelf member;
  if bool_decide (membership = "inactiveAdded") || bool_decide (membership = "active") then mret tt
  else throw ErrNodeNotAdded).

(** ** Configuring a node *)
Definition initMemberNetworking (c : Cluster) (member : Member) : M W () :=
  let '(addressFamily, only, listenerSettings) := generateNetworkConfiguration c true in
  for_each (λ listenerSetting, retry_for (cb_EnableExternalListener listenerSetting member)) listenerSettings;;
  retry_for (cb_SetNodeNetworkConfiguration addressFamily only member).

Definition initMemberTLSNew (m : Member) : M W () :=
  match tlsCache with
  | None => throw ErrInternalError
  | Some serverCA =>
      cb_LoadCAs m;;
      settings ← passphraseSettings;
      cb_ReloadNodeCert settings m;;
      WaitForHostPortTLS m serverCA
  end.

Definition initMemberTLSLegacy (m : Member) : M W () :=
  match tlsCache with
  | None => throw ErrInternalError
  | Some serverCA =>
      cb_SetClusterCACert serverCA m;;
      settings ← passphraseSettings;
      cb_ReloadNodeCert settings m;;
      WaitForHostPortTLS m serverCA
  end.

Definition initMemberTLS (c : Cluster) (m : Member) : M W () :=
  if negb (IsTLSEnabled c) then mret tt
  else
    ok ← lift (IsAtLeastVersion (c_learned c) (c_cluster c) "7.1.0");
    if ok : bool then initMemberTLSNew m else initMemberTLSLegacy m.

Definition clusterCreateMember (pos : list nat) (member : Member) : M R () :=
  c ← gets cl;
  let firstMember := Empty (c_members c) in
  modify (set_cl (λ c, set_members (Add member (c_members c)) (c_callableMembers c) c));;
  modify (λ s, set_cl (set_status (set_Size (Z.of_nat (Size (c_members (cl s)))))) s);;
  updateMemberStatus pos firstMember.

Definition clusterAddMember (member : Member) : M R () :=
  modify (set_cl (λ c, set_members (c_members c) (Add member (c_callableMembers c)) c)).

(** An error that is stored in the variable of the function: the deferred one sees it and
    removes the pod. *)
Definition cleaned {A} (cleanupOnFailure : bool) (name : string) (m : M R A) : M R A :=
  outcome ← attempt m;
  match outcome with
  | inl a => mret a
  | inr e => (if cleanupOnFailure then ignore_error (removePod name true) else mret tt);; throw e
  end.

(** A node that is known by the name of its host. *)
Definition name_by_host (newMember : Member) : M R Member :=
  c ← gets cl; w ← gets world;
  match Pods_Get w (Name newMember) with
  | Some pod =>
      if hostNetwork c then
        let pod := set_pod_annotation CouchbaseHostnameAnnotation (kp_NodeName pod) pod in
        on_world (modify (cache_SetPod pod));;
        on_world (cache_Update pod);;
        on_world (api_UpdatePod pod);;
        mret (SetDNSName newMember (kp_NodeName pod))
      else mret newMember
  | None => mret newMember
  end.

(** [updateMemberVersion], on a member that no set holds. *)
Definition update_new_version (m : Member) (version : string) : M R Member :=
  if negb (VersionKnown version) then mret m
  else if bool_decide (MemberVersion m = version) then mret m
  else
    on_world (record_version (Name m) version);;
    mret (Member.SetVersion m version).

Definition initMember (pos : list nat) (newMember : Member) (serverSpec : ServerConfig) (cleanupOnFailure : bool) :
    M R Member :=
  let name := Name newMember in
  newMember ← name_by_host newMember;
  c ← gets cl;
  cleaned cleanupOnFailure name (on_world (initMemberNetworking c newMember));;
  info ← cleaned cleanupOnFailure name (on_world (retry_for (cb_GetPools (single newMember))));
  cleaned cleanupOnFailure name (if Enterprise info then mret tt else throw ErrConfigurationInvalid);;
  let serverImage := ServerClassCouchbaseImage (Spec (c_cluster c)) (Some serverSpec) in
  let '(newVersion, updated, table) := UpdateImageDigestMap (c_learned c) serverImage (pools_Version info) in
  modify (set_cl (set_learned table));;
  newMember ← update_new_version newMember newVersion;
  (if updated : bool then updateVersionBaseline (0%nat :: pos) newVersion else mret tt);;
  c ← gets cl;
  cleaned cleanupOnFailure name (on_world (initMemberTLS c newMember));;
  cleaned cleanupOnFailure name (on_world (retry_for (cb_SetHostname (GetDNSName newMember) newMember)));;
  let '(dataPath, indexPath, analyticsPaths) := getServiceDataPaths (GetVolumeMounts (Some serverSpec)) in
  cleaned cleanupOnFailure name
    (on_world (retry_for (cb_SetStoragePaths dataPath indexPath analyticsPaths newMember)));;
  cleaned cleanupOnFailure name (clusterCreateMember (1%nat :: pos) newMember);;
  updateCRStatus;;
  mret newMember.

Definition configureInitialMember (member : Member) (class : ServerConfig) : M R () :=
  c ← gets cl;
  configured ← attempt (on_world (initInitialMember c member class));
  match configured with
  | inr e => ignore_error (removePod (Name member) true);; throw e
  | inl _ => on_world (SetPodInitialized (Name member))
  end.

Definition fetchAndPersistClusterUUID (target : Target) : M W string :=
  uuid ← retry_for (
    info ← cb_GetPools target;
    if bool_decide (GetUUID info = "") then throw ErrCouchbaseServerError else mret (GetUUID info));
  ps_Upsert UUID uuid;;
  mret uuid.

(** ** The handlers *)
Definition pod_now (pod : KPod) : M R KPod := gets (λ s, deref pod (world s)).

Definition clear_pending (pod : KPod) : M R () := on_world (ClearPodPendingInitialization pod).

Definition handlePendingPodForExistingCluster (pos : list nat) (pod : KPod) (member : Member)
    (config : ServerConfig) : M R () := ignore_error (
  c ← gets cl;
  canAddNode ← on_world (canAddNodeToCluster c pod member);
  if negb canAddNode then mret tt
  else
    member ← initMember pos member config false;
    c ← gets cl;
    let url := if AddNodeInsecure (c_settings c) then GetHostURLPlaintext member else GetDNSName member in
    services ← lift (ServiceListFromStringArray (sc_Services config));
    on_world (AddNodeWithPodReadyCheck member url services (ToMembers (readyMembers c)));;
    on_world (waitForPodAdded member);;
    on_world (SetPodInitialized (Name member));;
    clear_pending pod).

Definition handlePendingPodAlreadyInitialized (pod : KPod) (member : Member) : M R () := ignore_error (
  on_world (SetPodInitialized (Name member));;
  clear_pending pod).

Definition nobody_callable : M R () := modify (set_cl (λ c, set_members (c_members c) ∅ c)).

Definition handlePendingPodForNewCluster (pos : list nat) (pod : KPod) (member : Member)
    (config : ServerConfig) : M R () :=
  initialised ← attempt (initMember pos member config false);
  match initialised with
  | inr _ => mret tt
  | inl member =>
      clusterAddMember member;;
      pod ← pod_now pod;
      configured ← attempt (if is_initialized pod then mret tt else configureInitialMember member config);
      match configured with
      | inr _ => nobody_callable
      | inl _ =>
          uuid ← attempt (on_world (fetchAndPersistClusterUUID (single member)));
          match uuid with
          | inr _ => nobody_callable
          | inl uuid =>
              modify (set_cl (set_status (SetClusterID uuid)));;
              set_status_now SetBalancedCondition;;
              ignore_error (clear_pending pod)
          end
      end
  end.

Definition handleReadyPendingPod (pos : list nat) (pod : KPod) : M R () :=
  pod ← pod_now pod;
  if kp_Terminating pod then mret tt
  else
    s ← get;
    let c := cl s in
    let member := memberFromPod c pod in
    let clusterID := st_ClusterID (Status (c_cluster c)) in
    match GetServerConfigByName (Spec (c_cluster c)) (Config member) with
    | None => mret tt
    | Some config =>
        if is_initialized pod && bool_decide (clusterID ≠ "") then ignore_error (clear_pending pod)
        else if negb (Empty (c_callableMembers c)) && bool_decide (clusterID ≠ "") then
          match c_callableMembers c !! Name member with
          | Some _ => handlePendingPodAlreadyInitialized pod member
          | None => handlePendingPodForExistingCluster pos pod member config
          end
        else if bool_decide (clusterID ≠ "") && recoverable s member
        then handlePendingPodAlreadyInitialized pod member
        else handlePendingPodForNewCluster pos pod member config
    end.

Definition handleTimedOutPendingPod (pod : KPod) : M R () :=
  pod ← pod_now pod;
  c ← gets cl;
  (if bool_decide (kp_Phase pod ≠ PodRunning) then
     match default ∅ (kp_NodeSelector pod) !! ServerGroupLabel (c_cluster c) with
     | Some serverGroup =>
         if bool_decide (serverGroup ≠ "") then ignore_error (addFailedSchedulingServerGroups serverGroup)
         else mret tt
     | None => mret tt
     end
   else mret tt);;
  removed ← attempt (removePod (kp_Name pod) true);
  match removed with
  | inr _ => mret tt
  | inl _ => ignore_error (clear_pending pod)
  end.

Definition update_pending_pod (pos : list nat) (e : nat * KPod) : M R () :=
  pod ← pod_now e.2;
  c ← gets cl; w ← gets world;
  match GetPodCondition pod PodPendingInitializationCondition with
  | None => mret tt
  | Some condition =>
      if IsPendingDNSMember pod && hasDNSCheckTimeoutElapsed c w pod then handleTimedOutPendingPod pod
      else if isPodActuallyReady pod then handleReadyPendingPod (e.1 :: pos) pod
      else if bool_decide (PodCreateTimeout (c_settings c) < time_now w - pc_LastTransitionTime condition)
      then handleTimedOutPendingPod pod
      else mret tt
  end.

Definition updatePendingInitializationConditions (pos : list nat) : M R () :=
  c ← gets cl; w ← gets world;
  for_each (update_pending_pod pos) (imap pair (getPendingInitPods c w)).
End init.
