(* ===== verification/Failover.v ===== *)
(** * pkg/cluster/nodereconcile.go: taking a node out and bringing it back

    The annotations on pods ([setPodAnnotation], [removePodAnnotation] of
    [k8sutil]), the graceful failover of a node ([gracefullyFailoverNode]), its
    recreation ([recreateNode]), and the choice of how a bucket migration cycles its
    nodes ([migrationCycleStrategy]).  What these calls ask of Couchbase beyond
    [Platform] is the class [UpgradePlatform]. *)

From Stdlib Require Import Ascii.
From S2P Require Import Prelude Effects GoLib Regex Digests Version Api Member Persistence Status.
From S2P Require Import Scheduler UpgradeOrder RollingUpgrade NodeStatus Pods Volumes Machine Rebalance Baseline.
From S2P Require Import Claims Creation Recovery PendingInit.
Local Open Scope Z_scope.

(** A node of a bucket's status: the storage backend and the eviction policy it still
    has, if a migration is under way. *)
Record BucketNode := mkBucketNode {
  bn_HostName : string;
  bn_StorageBackend : string;
  bn_EvictionPolicy : string;
}.

Record BucketStatus := mkBucketStatus {
  bs_BucketName : string;
  bs_BucketType : string;
  bs_Nodes : list BucketNode;
}.

(** A bucket as the resources ask for it. *)
Record Bucket := mkBucket {
  BucketName : string;
  BucketReplicas : Z;
  BucketStorageBackend : string;
  bk_EvictionPolicy : string;
}.

Class UpgradePlatform (W : Type) `{Platform W} := {
  cb_GracefulFailover : list string → Target → M W ();
  is_unavailable : error → bool;      (* a request that failed with status 500 or 503 *)
  cb_NodeServices : Member → M W (list string);
  cb_ListBucketStatuses : Target → M W (list BucketStatus);
  cb_BucketReplicas : Target → M W (list Z);      (* of the buckets of [ListBuckets] *)
  time_String : Z → string;
  time_ParseRFC3339 : string → result Z;
  time_ParseStamp : string → result Z;            (* the layout of [time_String] *)
  (* generation of the pod and comparison, with the volumes it needs *)
  compare_pods : W → Member → ServerPod → ServerConfig → string → option VolumeState → result SpecComparison;
}.

(** ** Annotations

    The pod is the object the cache holds: it is changed there before the API is
    asked, and stays changed if the API refuses. *)
Definition drop_pod_annotation (key : string) (pod : KPod) : KPod :=
  mkKPod (kp_Name pod) (kp_Namespace pod) (kp_Labels pod) (delete key (kp_Annotations pod))
    (kp_OwnerReferences pod) (kp_Containers pod) (kp_ContainerStatuses pod) (kp_Conditions pod)
    (kp_Terminating pod) (kp_CreationTimestamp pod) (kp_NodeName pod) (kp_NodeSelector pod) (kp_Phase pod).

Section annotations.
Context `{Platform W}.

Definition setPodAnnotation (name key value : string) : M W () := retry_for (
  w ← get;
  match Pods_Get w name with
  | None => throw ErrResourceRequired
  | Some pod =>
      let pod := set_pod_annotation key value pod in
      modify (cache_SetPod pod);; api_UpdatePod pod
  end).

Definition removePodAnnotation (name key : string) : M W () := retry_for (
  w ← get;
  match Pods_Get w name with
  | None => throw ErrResourceRequired
  | Some pod =>
      if bool_decide (kp_Annotations pod !! key = None) then mret tt
      else
        let pod := drop_pod_annotation key pod in
        modify (cache_SetPod pod);; api_UpdatePod pod
  end).

Definition SetPodUpgradeTracking (name process : string) : M W () :=
  setPodAnnotation name UpgradeTrackingAnnotation process.

Definition SetPodRescheduleAnnotation (name : string) : M W () :=
  setPodAnnotation name AnnotationReschedule "true".

Definition ClearPodUpgradeTracking (name : string) : M W () :=
  removePodAnnotation name UpgradeTrackingAnnotation.

(** [retryutil.RetryUntilErrorOrSuccess]: the callback says whether it is done. *)
Fixpoint until_done (n : nat) (callback : M W bool) : M W () := λ w,
  match callback w with
  | (Ok true, w') => (Ok tt, w')
  | (Ok false, w') =>
      match n with
      | O => (Err ErrDeadlineExceeded, w')
      | S n => until_done n callback (retry_tick w')
      end
  | (Err e, w') => (Err e, w')
  | (Panic, w') => (Panic, w')
  end.

Definition RetryUntilErrorOrSuccess (callback : M W bool) : M W () := λ w,
  until_done (retry_ticks w) callback w.
End annotations.

(** ** Graceful failover *)
Definition graceful_failover_start : string := "graceful_failover_start".
Definition graceful_failover_success : string := "graceful_failover_success".

(** The node of the candidate must be a member's, and active. *)
Definition check_node (c : Cluster) (candidate : Member) (node : NodeInfo) : result () :=
  if bool_decide (ni_HostName node ≠ GetHostName candidate) then Ok tt
  else if bool_decide (c_members c !! GetMemberName (ni_HostName node) = None) then Err ErrNodeNotInCluster
  else if bool_decide (ni_Membership node ≠ "active") then Err ErrNodeNotActive
  else if bool_decide (ni_Membership node = "inactiveFailed") || bool_decide (ni_Membership node = "inactiveAdded")
       then Err ErrNodeNotActive
  else Ok tt.

Definition counter (counters : gmap string Z) (name : string) : Z := default 0 (counters !! name).

(** What a counter may be after the failover. *)
Definition counter_ok (initial : gmap string Z) (e : string * Z) : bool :=
  if bool_decide (e.1 = graceful_failover_start) || bool_decide (e.1 = graceful_failover_success) then true
  else if bool_decide (e.1 = "failover") || bool_decide (e.1 = "failover_complete")
       then bool_decide (e.2 ≤ wrap64 (counter initial e.1 + 1))
  else bool_decide (e.2 = counter initial e.1).

(** One look at the counters: whether the failover has succeeded. *)
Definition judge_counters (initial : gmap string Z) (info : ClusterInfo) : result bool :=
  let now := Counters info in
  let succeeded := bool_decide (counter now graceful_failover_success =
                                wrap64 (counter initial graceful_failover_success + 1)) in
  if bool_decide (counter now graceful_failover_start ≠ wrap64 (counter initial graceful_failover_start + 1))
  then Err ErrFailoverStartCounterNotIncremented
  else if bool_decide (size now < size initial)%nat then Err ErrUnexpectedCounterChange
  else if negb (forallb (counter_ok initial) (map_to_list now)) then Err ErrUnexpectedCounterChange
  else if bool_decide (ci_RebalanceStatus info = RebalanceStatusNone) && negb succeeded
       then Err ErrFailoverSuccessCounterNotIncremented
  else Ok succeeded.

Section failover.
Context `{UpgradePlatform W} `{PersistentStorage W} `{Environment} `{MapRange}.
Abbreviation R := (RS W).

Definition startGracefulFailover (candidate : Member) : M W () := RetryUntilErrorOrSuccess (
  answer ← attempt (cb_GracefulFailover [GetOTPNode candidate] (single candidate));
  match answer with
  | inl _ => mret true
  | inr e => if is_unavailable e then mret false else throw e
  end).

Definition failover_poll (candidate : Member) (initial : gmap string Z) : M W bool :=
  info ← cb_GetPoolsDefault (single candidate);
  lift (judge_counters initial info).

Definition gracefullyFailoverNode (candidate : Member) : M R () :=
  c ← gets cl;
  info ← on_world (cb_GetPoolsDefault (single candidate));
  for_each (λ node, lift (check_node c candidate node)) (Nodes info);;
  perform (GracefulFailoverAsked (GetOTPNode candidate)) (startGracefulFailover candidate);;
  on_world (RetryUntilErrorOrSuccess (failover_poll candidate (Counters info))).

(** A node with data leaves gracefully, any other at once. *)
Definition failoverNodeForInPlaceUpgrade (candidate : Member) : M R bool :=
  c ← gets cl;
  match GetServerConfigByName (Spec (c_cluster c)) (Config candidate) with
  | None => lift Panic
  | Some serverClass =>
      if bool_decide (DataService ∈ sc_Services serverClass)
      then gracefullyFailoverNode candidate;; mret true
      else
        perform (FailoverForced [GetOTPNode candidate] false)
          (retry_for (cb_Failover [GetOTPNode candidate] false (single candidate)));;
        mret true
  end.

Definition recreateNode (candidate : Member) (canDeltaRecover : bool) : M R () :=
  c ← gets cl;
  (if bool_decide (1 < size (c_members c))%nat then
     if Empty (readyMembers c) then throw ErrReconcileInhibited
     else on_world (cb_SetRecoveryType (GetOTPNode candidate)
            (if canDeltaRecover then RecoveryTypeDelta else RecoveryTypeFull) (ToMembers (readyMembers c)))
   else mret tt);;
  recreatePod candidate false;;
  ignore_error (on_world (SetPodUpgradeTracking (Name candidate) InPlaceUpgrade)).
End failover.

(** ** Bucket migration: in place, and with full recovery *)
Definition migrationCycleStrategy (upgradeProcess : string) (hasStorageBackendOverrides : bool) (members : Z) :
    bool * bool :=
  if bool_decide (upgradeProcess ≠ InPlaceUpgrade) && bool_decide (upgradeProcess ≠ DeltaRecovery)
  then (false, false)
  else if bool_decide (members < 2) then (false, false)
  else (true, hasStorageBackendOverrides).
