(* ===== verification/Scaling.v ===== *)
(** * pkg/cluster/nodereconcile.go: scaling, and the loop over the handlers

    Choosing how many members of each class leave or come ([handleRemoveNode],
    [handleAddNode]), the order in which members are offered to the scheduler for
    removal, and [exec].  The state of a cycle comes with the scheduler's. *)

From Stdlib Require Import Ascii.
From S2P Require Import Prelude Effects GoLib Regex Digests Version Api Member Persistence Status.
From S2P Require Import Scheduler UpgradeOrder RollingUpgrade NodeStatus Pods Volumes Machine Rebalance Baseline Recovery.
Local Open Scope Z_scope.

(** [ScalingMessage] and [BuildMessage] *)
Record ScalingMessage := mkScaling { sm_Server : string; sm_From : Z; sm_To : Z }.

Definition BuildMessage (sml : list ScalingMessage) : string :=
  strings_Join ((λ m, "Scaling Server Class " +:+ sm_Server m +:+ " from " +:+ fmt_d (sm_From m) +:+
                      " to " +:+ fmt_d (sm_To m)) <$> sml) ", ".

Section scaling.
Context `{Platform W} `{PersistentStorage W} `{Environment} `{MapRange} `{Scheduler Sc}.
Abbreviation R := (RS W).
Abbreviation FS := (RS W * Sc)%type.

Definition on_rs {A} (m : M R A) : M FS A := zoom fst (λ s f, (s, f.2)) m.
Definition on_scheduler {A} (m : M Sc A) : M FS A := zoom snd (λ sc f, (f.1, sc)) m.

(** ** The order of removal

    [populateRemovalQueuePerServerClass]: the members that need a move, an upgrade,
    a bucket migration or a change of services first (these candidates are what
    [needsMove] and the others return), then the rest by the size of their data.
    Sizes are floating-point numbers: [size_lt] is [<] on them, [size_ne] is [!=]. *)
Section removal_order.
Context (candidate_funcs : list (list nat → M R MemberSet)).
Context {Size : Type} (size_lt size_ne : Size → Size → bool) (member_size : W → string → Size).

Fixpoint queue_candidates (pos : list nat) (clustered : MemberSet) (fs : list (list nat → M R MemberSet))
    (queue : list string) (prioritized : MemberSet) : M R (list string * MemberSet) :=
  match fs with
  | [] => mret (queue, prioritized)
  | f :: fs =>
      candidates ← f (length fs :: pos);
      let candidates := Diff (Intersect candidates clustered) prioritized in
      queue_candidates pos clustered fs (queue ++ Names candidates) (Merge prioritized candidates)
  end.

(** [less(i, j)] of the sort, as the test that [i] need not come after [j]. *)
Definition size_leb (w : W) (a b : string) : bool :=
  if size_ne (member_size w b) (member_size w a)
  then negb (size_lt (member_size w b) (member_size w a)) else negb (String.ltb b a).

Definition populateRemovalQueuePerServerClass (pos : list nat) (serverClass : string) (clustered : MemberSet) :
    M FS () :=
  c ← on_rs (gets cl);
  match GetServerConfigByName (Spec (c_cluster c)) serverClass with
  | None => throw ErrServerClassNotFound
  | Some _ =>
      q ← on_rs (queue_candidates (0%nat :: pos) clustered candidate_funcs [] ∅);
      w ← on_rs (gets world);
      let remainingMembers := Diff clustered q.2 in
      let memNames := stable_sort (size_leb w) (range (1%nat :: pos) remainingMembers).*1 in
      on_scheduler (EnQueueRemovals serverClass (q.1 ++ memNames))
  end.

(** ** Removal *)

(** One class: how many members are too many. *)
Definition surplus (r : ReconcileMachine) (serverSpec : ServerConfig) : Z :=
  wrap64 (Z.of_nat (Member.Size (GroupByServerConfig (sc_Name serverSpec) (clusteredMembers r))) - sc_Size serverSpec).

Fixpoint removals (pos : list nat) (r : ReconcileMachine) (servers : list ServerConfig) :
    M FS (list ServerConfig * list ScalingMessage) :=
  match servers with
  | [] => mret ([], [])
  | serverSpec :: servers =>
      let ms := GroupByServerConfig (sc_Name serverSpec) (clusteredMembers r) in
      c ← on_rs (gets cl);
      match IsAtLeastVersion (c_learned c) (c_cluster c) "7.0.0" with
      | Ok true => populateRemovalQueuePerServerClass (length servers :: pos) (sc_Name serverSpec) ms
      | _ => mret tt
      end;;
      rest ← removals pos r servers;
      if bool_decide (surplus r serverSpec ≤ 0) then mret rest
      else mret (replicate (Z.to_nat (surplus r serverSpec)) serverSpec ++ rest.1,
                 mkScaling (sc_Name serverSpec) (Z.of_nat (Member.Size ms)) (sc_Size serverSpec) :: rest.2)
  end.

(** The members that serve the gateway must not fall below what is to be kept. *)
Definition cng_pod (pod : KPod) : CNGPod := mkCNGPod (kp_Name pod) (kp_ContainerStatuses pod).

Definition cng_blocks (s : R) (deletions : Z) : bool :=
  let preserveReadyCNG := PreserveCNGReadyInstances (net_CloudNativeGateway (c_networking (cl s))) in
  let ready := Z.of_nat (Member.Size (getReadyCNGMembers (cng_pod <$> getClusterPods (cl s) (world s))
                                        (c_members (cl s)))) in
  bool_decide (0 < preserveReadyCNG) && bool_decide (0 < ready) &&
  bool_decide (ready - preserveReadyCNG < deletions).

(** One removal: the scheduler chooses, the pod is marked, the machine follows.  A
    name that is no member is a nil member. *)
Definition remove_one (pos : list nat) (serverSpec : ServerConfig) : M FS () :=
  server ← on_scheduler (Delete pos (sc_Name serverSpec));
  on_rs (on_world (SetPodPendingEjection server));;
  c ← on_rs (gets cl);
  match c_members c !! server with
  | Some m => on_rs (removeMemberUser m)
  | None => lift Panic
  end.

Fixpoint remove_all (pos : list nat) (deletions : list ServerConfig) : M FS () :=
  match deletions with
  | [] => mret tt
  | serverSpec :: deletions => remove_one (length deletions :: pos) serverSpec;; remove_all pos deletions
  end.

Definition recovering (st : MemberState) : bool :=
  bool_decide (0 < size (FailedNodes st))%nat || bool_decide (0 < size (AddBackNodes st))%nat ||
  bool_decide (0 < size (PendingAddNodes st))%nat.

Definition handleRemoveNode (pos : list nat) : M FS () :=
  r ← on_rs (gets fsm); c ← on_rs (gets cl);
  if recovering (couchbase r) then mret tt
  else
    plan ← removals (0%nat :: pos) r (cs_Servers (Spec (c_cluster c)));
    if bool_decide (length plan.1 = 0%nat) then mret tt
    else
      s ← on_rs get;
      if cng_blocks s (Z.of_nat (length plan.1)) then mret tt
      else
        on_rs (set_status_now (λ now, SetScalingDownCondition now (BuildMessage plan.2)));;
        remove_all (1%nat :: pos) plan.1.
End removal_order.

(** ** Addition

    Creating the pods ([addMembers]) and giving some of them the old version
    ([applyPreviousVersionToNewPods]: the list as it left it, with the error) are
    arguments; the errors they return are logged. *)
Section addition.
Context (applyPreviousVersionToNewPods : list ServerConfig → M R (list ServerConfig * option error)).
Context (addMembers : list ServerConfig → M FS (list (Member * option error))).

Definition in_class (class : string) (m : Member) : bool := bool_decide (Config m = class).

Definition shortage (r : ReconcileMachine) (serverSpec : ServerConfig) : Z :=
  let existingNodes := Z.of_nat (Size (GroupBy (in_class (sc_Name serverSpec)) (clusteredMembers r))) +
                       Z.of_nat (Size (GroupBy (in_class (sc_Name serverSpec)) (pendingInitPods r))) in
  wrap64 (sc_Size serverSpec - existingNodes).

(** A class without a service, or whose first is the admin service. *)
Definition arbiter (serverSpec : ServerConfig) : bool :=
  match sc_Services serverSpec with
  | [] => true
  | service :: _ => bool_decide (service = AdminService)
  end.

Fixpoint additions (r : ReconcileMachine) (arbiterNodesSupported : bool) (servers : list ServerConfig) :
    list ServerConfig * list ScalingMessage :=
  match servers with
  | [] => ([], [])
  | serverSpec :: servers =>
      let rest := additions r arbiterNodesSupported servers in
      let nodesToCreate := shortage r serverSpec in
      if bool_decide (nodesToCreate ≤ 0) then rest
      else if arbiter serverSpec && negb arbiterNodesSupported then rest
      else (replicate (Z.to_nat nodesToCreate) serverSpec ++ rest.1,
            mkScaling (sc_Name serverSpec) (sc_Size serverSpec - nodesToCreate) (sc_Size serverSpec) :: rest.2)
  end.

(** The first of the errors joined, which stands for them all. *)
Fixpoint first_error (results : list (Member * option error)) : option error :=
  match results with
  | [] => None
  | (_, Some e) :: _ => Some e
  | (_, None) :: results => first_error results
  end.

Definition handleAddNode : M FS () :=
  r ← on_rs (gets fsm); c ← on_rs (gets cl);
  if holdNodeAdditions r then mret tt
  else
    currentVersion ← on_rs clusterVersion;
    arbiterNodesSupported ← lift (VersionAfter (c_learned c) currentVersion "7.6.0");
    let plan := additions r arbiterNodesSupported (cs_Servers (Spec (c_cluster c))) in
    if bool_decide (length plan.1 = 0%nat) then mret tt
    else
      applied ← on_rs (applyPreviousVersionToNewPods plan.1);
      on_rs (set_status_now (λ now, SetScalingUpCondition now (BuildMessage plan.2)));;
      on_rs (ignore_error updateCRStatus);;
      added ← attempt (addMembers applied.1);
      let memberResults := match added with inl results => results | inr _ => [] end in
      on_rs (for_each (λ result : Member * option error,
          match result.2 with
          | Some _ => mret tt
          | None => if IsMigrationCluster (c_cluster c) then addMember result.1 else mret tt
          end) memberResults);;
      match first_error memberResults with
      | Some e => throw e
      | None =>
          if IsMigrationCluster (c_cluster c) then mret tt
          else on_rs (abort "scale-up pods created, waiting for async initialization")
      end.
End addition.

(** ** The loop over the handlers

    The value says whether a handler gave the cycle up.  A status that cannot be
    written is logged. *)
Fixpoint exec (reconcileFunctions : list (M FS ())) : M FS bool :=
  match reconcileFunctions with
  | [] => mret false
  | f :: reconcileFunctions =>
      f;;
      r ← on_rs (gets fsm);
      if bool_decide (abortReason r ≠ "") then mret true
      else on_rs (ignore_error updateCRStatus);; exec reconcileFunctions
  end.

End scaling.
