(* ===== verification/Unreconcilable.v ===== *)
(** * pkg/unreconcilable, pkg/apis/couchbase/v2/conditions.go: resources left alone

    The tracker of the resources a cluster does not reconcile ([tracker.go]), the
    condition it writes on them, which carries the name of the cluster
    ([conditions.go]), and the writing of the conditions of all kinds ([Flush],
    [registry.go]). *)

From S2P Require Import Prelude Effects GoLib.
Local Open Scope Z_scope.

(** ** The condition *)
Definition ConditionTypeUnreconcilable : string := "Unreconcilable".
Definition unreconcilableMessageSeparator : string := ": ".

Record Condition := mkObjectCondition {
  oc_Type : string;
  oc_Status : string;
  oc_ObservedGeneration : Z;
  oc_LastTransitionTime : Z;
  oc_Reason : string;
  oc_Message : string;
}.

(** What a flush sees of a resource. *)
Record Aware := mkAware {
  aw_Name : string;
  aw_Generation : Z;
  aw_Conditions : list Condition;
}.

Definition SetConditions (conditions : list Condition) (object : Aware) : Aware :=
  mkAware (aw_Name object) (aw_Generation object) conditions.

Definition UnreconcilableMessage (clusterName detail : string) : string :=
  clusterName +:+ unreconcilableMessageSeparator +:+ detail.

Definition UnreconcilableClusterName (condition : Condition) : string :=
  match strings_Cut (oc_Message condition) unreconcilableMessageSeparator with
  | (clusterName, _, true) => clusterName
  | _ => ""
  end.

Definition UnreconcilableDetail (condition : Condition) : string :=
  match strings_Cut (oc_Message condition) unreconcilableMessageSeparator with
  | (_, detail, true) => detail
  | _ => oc_Message condition
  end.

Definition isUnreconcilableFor (clusterName : string) (condition : Condition) : bool :=
  bool_decide (oc_Type condition = ConditionTypeUnreconcilable) &&
  bool_decide (UnreconcilableClusterName condition = clusterName).

Definition doesConditionMatch (condition : Condition) (status reason message : string) (observedGeneration : Z) : bool :=
  bool_decide (oc_Status condition = status) && bool_decide (oc_Reason condition = reason) &&
  bool_decide (oc_Message condition = message) && bool_decide (oc_ObservedGeneration condition = observedGeneration).

Definition GetUnreconcilable (object : Aware) (clusterName : string) : option Condition :=
  find (isUnreconcilableFor clusterName) (aw_Conditions object).

Definition IsUnreconcilableConditionUpToDate (object : Aware) (clusterName status reason detail : string)
    (observedGeneration : Z) : bool :=
  match GetUnreconcilable object clusterName with
  | None => false
  | Some condition =>
      doesConditionMatch condition status reason (UnreconcilableMessage clusterName detail) observedGeneration
  end.

(** The condition as it is rewritten; the time is that of the last change of status. *)
Definition restate (condition : Condition) (status reason message : string) (observedGeneration now : Z) : Condition :=
  mkObjectCondition (oc_Type condition) status observedGeneration
    (if bool_decide (oc_Status condition ≠ status) then now else oc_LastTransitionTime condition) reason message.

(** The loop: whether something changed, and the conditions. *)
Fixpoint upsert_unreconcilable (clusterName status reason message : string) (observedGeneration now : Z)
    (l : list Condition) : bool * list Condition :=
  match l with
  | [] => (true, [mkObjectCondition ConditionTypeUnreconcilable status observedGeneration now reason message])
  | condition :: l =>
      if isUnreconcilableFor clusterName condition then
        if doesConditionMatch condition status reason message observedGeneration then (false, condition :: l)
        else (true, restate condition status reason message observedGeneration now :: l)
      else
        let '(changed, l) := upsert_unreconcilable clusterName status reason message observedGeneration now l in
        (changed, condition :: l)
  end.

Definition SetUnreconcilable (object : Aware) (clusterName status reason detail : string)
    (observedGeneration now : Z) : bool * Aware :=
  let '(changed, conditions) := upsert_unreconcilable clusterName status reason
    (UnreconcilableMessage clusterName detail) observedGeneration now (aw_Conditions object) in
  (changed, SetConditions conditions object).

(** ** The tracker *)
Definition ReasonValidationFailed : string := "ValidationFailed".
Definition ReasonImmutableFieldChanged : string := "ImmutableFieldChanged".
Definition ReasonDependencyMissing : string := "DependencyMissing".
Definition ReasonQuotaExceeded : string := "QuotaExceeded".
Definition ReasonValidated : string := "Validated".
Definition validatedDetail : string := "resource validated".
Definition KindBucketName : string := "couchbase.com/bucketName".
Definition KindXDCRRemoteCluster : string := "couchbase.com/xdcrRemoteCluster".

(** A kind and a name. *)
Definition Ref : Type := string * string.

Record Entry := mkEntry { en_Reason : string; en_Message : string }.

(** Without what limits the log. *)
Record Tracker := mkTracker {
  tr_clusterName : string;
  tr_entries : gmap Ref Entry;
  tr_skipped : gset Ref;
  tr_bucketRefs : gmap string Ref;
}.

Definition BeginCycle (t : Tracker) : Tracker := mkTracker (tr_clusterName t) ∅ ∅ ∅.

Definition NewTracker (clusterName : string) : Tracker := BeginCycle (mkTracker clusterName ∅ ∅ ∅).

Definition Mark (ref : Ref) (reason message : string) (t : Tracker) : Tracker :=
  let entry :=
    match tr_entries t !! ref with
    | Some existing => mkEntry (en_Reason existing) (en_Message existing +:+ "; " +:+ message)
    | None => mkEntry reason message
    end in
  mkTracker (tr_clusterName t) (<[ref := entry]> (tr_entries t)) ({[ref]} ∪ tr_skipped t) (tr_bucketRefs t).

Definition BucketRef (t : Tracker) (bucketName : string) : option Ref := tr_bucketRefs t !! bucketName.

Definition SetBucketRef (bucketName : string) (ref : Ref) (t : Tracker) : Tracker :=
  mkTracker (tr_clusterName t) (tr_entries t) (tr_skipped t) (<[bucketName := ref]> (tr_bucketRefs t)).

Definition MarkBucket (bucketName reason message : string) (t : Tracker) : Tracker :=
  let t := match BucketRef t bucketName with Some ref => Mark ref reason message t | None => t end in
  mkTracker (tr_clusterName t) (tr_entries t) ({[(KindBucketName, bucketName)]} ∪ tr_skipped t) (tr_bucketRefs t).

Definition IsSkipped (t : Tracker) (kind name : string) : bool := bool_decide ((kind, name) ∈ tr_skipped t).

Definition GetEntry (t : Tracker) (ref : Ref) : option Entry := tr_entries t !! ref.

(** Status, reason and detail of the condition a resource is to have. *)
Definition verdict (t : Tracker) (kind name : string) : string * string * string :=
  match GetEntry t (kind, name) with
  | Some entry => ("True", en_Reason entry, en_Message entry)
  | None => ("False", ReasonValidated, validatedDetail)
  end.

Definition needsStatusUpdate (t : Tracker) (kind : string) (object : Aware) : bool :=
  let '(status, reason, detail) := verdict t kind (aw_Name object) in
  negb (IsUnreconcilableConditionUpToDate object (tr_clusterName t) status reason detail (aw_Generation object)).

(** ** Writing the conditions *)
Definition registry : list string :=
  ["CouchbaseBucket"; "CouchbaseEphemeralBucket"; "CouchbaseMemcachedBucket"; "CouchbaseScope"; "CouchbaseScopeGroup";
   "CouchbaseCollection"; "CouchbaseCollectionGroup"; "CouchbaseUser"; "CouchbaseGroup"; "CouchbaseReplication";
   "CouchbaseMigrationReplication"; "CouchbaseBackup"; "CouchbaseBackupRestore"; "CouchbaseAutoscaler"].

(** The caches of the kinds, the status subresource and the clock. *)
Class StatusPlatform (W : Type) := {
  aware_list : W → string → list Aware;
  aware_updateStatus : string → Aware → M W ();
  aware_now : W → Z;
}.

Section flush.
Context `{StatusPlatform W}.

(** An update that fails is logged. *)
Definition flushObject (t : Tracker) (kind : string) (object : Aware) : M W () :=
  w ← get;
  let '(status, reason, detail) := verdict t kind (aw_Name object) in
  let '(changed, object) := SetUnreconcilable object (tr_clusterName t) status reason detail
    (aw_Generation object) (aware_now w) in
  if changed : bool then ignore_error (aware_updateStatus kind object) else mret tt.

Definition flush_kind (t : Tracker) (kind : string) : M W () :=
  w ← get;
  for_each (flushObject t kind) (filter (λ o, needsStatusUpdate t kind o = true) (aware_list w kind)).

Definition Flush (t : Tracker) : M W () := for_each (flush_kind t) registry.
End flush.

(** ** What a cycle asks of the tracker *)
Inductive TrackerOp :=
  | OpBeginCycle
  | OpMark (ref : Ref) (reason message : string)
  | OpMarkBucket (bucketName reason message : string)
  | OpSetBucketRef (bucketName : string) (ref : Ref).

Definition track (op : TrackerOp) (t : Tracker) : Tracker :=
  match op with
  | OpBeginCycle => BeginCycle t
  | OpMark ref reason message => Mark ref reason message t
  | OpMarkBucket bucketName reason message => MarkBucket bucketName reason message t
  | OpSetBucketRef bucketName ref => SetBucketRef bucketName ref t
  end.

Definition run_ops (ops : list TrackerOp) (t : Tracker) : Tracker := fold_left (λ t op, track op t) ops t.
