(* ===== verification/Collections.v ===== *)
(** * pkg/cluster/collections.go: scopes and collections of the buckets

    Which scopes and collections the resources ask for ([gatherScopes],
    [gatherCollections]), and how Couchbase gets them ([reconcileScopes],
    [reconcileCollections], [reconcileCollectionSettings]); with the annotations that
    set a field ([pkg/util/annotations]) as far as collections have such fields. *)

From Stdlib Require Import Ascii.
From S2P Require Import Prelude Effects GoLib Regex Digests Version Api Member Persistence Status.
From S2P Require Import UpgradeOrder NodeStatus Pods Machine Rebalance Baseline Buckets Unreconcilable.
Local Open Scope Z_scope.

Definition DefaultScopeOrCollection : string := "_default".
Definition SystemScope : string := "_system".
Definition ScopeCRDResourceKind : string := "CouchbaseScope".
Definition ScopeGroupCRDResourceKind : string := "CouchbaseScopeGroup".
Definition CollectionCRDResourceKind : string := "CouchbaseCollection".
Definition CollectionGroupCRDResourceKind : string := "CouchbaseCollectionGroup".

(** ** What Couchbase has *)
Record Collection := mkCollection {
  co_Name : string;
  co_MaxTTL : option Z;
  co_History : option bool;
}.

#[export] Instance Collection_eq_dec : EqDecision Collection.
Proof. solve_decision. Defined.

Record ScopeStatus := mkScope {
  so_Name : string;
  so_Collections : list Collection;
}.

Definition HasScope (l : list ScopeStatus) (name : string) : bool := existsb (λ s, bool_decide (so_Name s = name)) l.

Definition GetScope (l : list ScopeStatus) (name : string) : ScopeStatus :=
  default (mkScope "" []) (find (λ s, bool_decide (so_Name s = name)) l).

Definition HasCollection (s : ScopeStatus) (name : string) : bool :=
  existsb (λ c, bool_decide (co_Name c = name)) (so_Collections s).

Definition GetCollection (s : ScopeStatus) (name : string) : Collection :=
  default (mkCollection "" None None) (find (λ c, bool_decide (co_Name c = name)) (so_Collections s)).

(** ** The resources

    A label selector is what [metav1.LabelSelectorAsSelector] makes of it. *)
Definition Labels : Type := gmap string string.
Definition LabelSelector : Type := result (Labels → bool).

Record CollectionSelector := mkCollectionSelector {
  csel_Managed : bool;
  PreserveDefaultCollection : bool;
  csel_Resources : list (string * string);   (* kind and name *)
  csel_Selector : option LabelSelector;
}.

Record ScopeSelector := mkScopeSelector {
  ssel_Managed : bool;
  ssel_Resources : list (string * string);
  ssel_Selector : option LabelSelector;
}.

Record CouchbaseScope := mkCouchbaseScope {
  sr_Name : string;
  sr_Labels : Labels;
  sr_SpecName : string;
  DefaultScope : bool;
  sr_Collections : option CollectionSelector;
}.

Record CouchbaseScopeGroup := mkCouchbaseScopeGroup {
  sgr_Name : string;
  sgr_Labels : Labels;
  sgr_Names : list string;
  sgr_Collections : option CollectionSelector;
}.

Record CouchbaseCollection := mkCouchbaseCollection {
  cr_Name : string;
  cr_Labels : Labels;
  cr_Annotations : gmap string string;
  cr_SpecName : string;
  cr_MaxTTL : option Z;       (* nanoseconds *)
  cr_History : option bool;
}.

Record CouchbaseCollectionGroup := mkCouchbaseCollectionGroup {
  cgr_Name : string;
  cgr_Labels : Labels;
  cgr_Names : list string;
  cgr_MaxTTL : option Z;
  cgr_History : option bool;
}.

(** A bucket that may have scopes; [None]: an ephemeral one. *)
Record ScopedBucket := mkScopedBucket {
  sb_Name : string;
  sb_Labels : Labels;
  sb_CouchbaseName : string;
  sb_Scopes : option ScopeSelector;
  sb_Backend : option BackendSpec;
}.

Definition collection_CouchbaseName (c : CouchbaseCollection) : string :=
  if bool_decide (cr_SpecName c ≠ "") then cr_SpecName c else cr_Name c.

Definition scope_CouchbaseName (s : CouchbaseScope) : string :=
  if DefaultScope s then DefaultScopeOrCollection
  else if bool_decide (sr_SpecName s ≠ "") then sr_SpecName s else sr_Name s.

(** [uniqueByCouchbaseName]: the first of each name. *)
Fixpoint unique_by {A} (name : A → string) (seen : gset string) (l : list A) : list A :=
  match l with
  | [] => []
  | x :: l =>
      if bool_decide (name x ∈ seen) then unique_by name seen l else x :: unique_by name ({[name x]} ∪ seen) l
  end.

(** *** [annotations.Populate] of a collection

    The only field it can set is the history: by the annotation of that name, or by one
    that goes on after a dot.  A value that is no boolean ends the loop; what is rolled
    back then is the value before the failure, or the nil pointer. *)
Definition strconv_ParseBool (s : string) : option bool :=
  if bool_decide (s ∈ ["1"; "t"; "T"; "TRUE"; "true"; "True"]) then Some true
  else if bool_decide (s ∈ ["0"; "f"; "F"; "FALSE"; "false"; "False"]) then Some false
  else None.

Definition AnnotationPrefix : string := "cao.couchbase.com/".

Definition sets_history (key : string) : bool :=
  strings_HasPrefix key AnnotationPrefix &&
  bool_decide (head (strings_Split (string_drop (String.length AnnotationPrefix) key) "."%char) = Some "history").

Fixpoint populate_loop (original history : option bool) (l : list (string * string)) : option bool :=
  match l with
  | [] => history
  | (key, value) :: l =>
      if sets_history key then
        match strconv_ParseBool value with
        | Some b => populate_loop original (Some b) l
        | None => match original with None => None | Some _ => history end
        end
      else populate_loop original history l
  end.

Definition Populate `{MapRange} (pos : list nat) (c : CouchbaseCollection) : CouchbaseCollection :=
  mkCouchbaseCollection (cr_Name c) (cr_Labels c) (cr_Annotations c) (cr_SpecName c) (cr_MaxTTL c)
    (populate_loop (cr_History c) (cr_History c) (range pos (cr_Annotations c))).

(** The caches of the resources and the requests. *)
Class ScopePlatform (W : Type) := {
  Scopes_Get : W → string → option CouchbaseScope;
  Scopes_List : W → list CouchbaseScope;
  ScopeGroups_Get : W → string → option CouchbaseScopeGroup;
  ScopeGroups_List : W → list CouchbaseScopeGroup;
  Collections_Get : W → string → option CouchbaseCollection;
  Collections_List : W → list CouchbaseCollection;
  CollectionGroups_Get : W → string → option CouchbaseCollectionGroup;
  CollectionGroups_List : W → list CouchbaseCollectionGroup;
  Buckets_List : W → list ScopedBucket;      (* couchbase and ephemeral buckets *)
  cb_ListBuckets : Target → M W (list string);
  cb_ListScopes : string → Target → M W (list ScopeStatus);
  cb_CreateScope : string → string → Target → M W ();
  cb_DeleteScope : string → string → Target → M W ();
  cb_CreateCollection : string → string → Collection → Target → M W ();
  cb_PatchCollection : string → string → Collection → Target → M W ();
  cb_DeleteCollection : string → string → string → Target → M W ();
}.

(** Of the specification and the status of the cluster: the selector of buckets, the
    default storage backend, and the buckets of the status. *)
Class BucketSettings := {
  GetBucketObjectSelector : Cluster → result (string → Labels → bool);
  DefaultStorageBackend : Cluster → string;
  StatusBuckets : Cluster → list StatusBucket;
}.

Section collections.
Context `{Platform W} `{!ScopePlatform W} `{BucketSettings} `{Environment} `{MapRange}.
(** The tracker of the cycle. *)
Context (unreconcilable : Tracker).
Abbreviation R := (RS W).

Definition atLeast (c : Cluster) (v : string) : result bool := IsAtLeastVersion (c_learned c) (c_cluster c) v.

(** The storage backend of a bucket. *)
Definition backend_of_bucket (c : Cluster) (name : string) (b : BackendSpec) : string :=
  (GetStorageBackend (c_learned c) (c_cluster c) (DefaultStorageBackend c)
     (GetBucketStorageBackendFromStatus (StatusBuckets c) name) b).1.

(** ** The scopes a bucket is to have *)
Definition group_scopes (names : list string) (collections : option CollectionSelector) : list CouchbaseScope :=
  (λ name, mkCouchbaseScope "" ∅ name false collections) <$> names.

Definition scope_resource (w : W) (resource : string * string) : list CouchbaseScope :=
  let '(kind, name) := resource in
  if bool_decide (kind = ScopeCRDResourceKind) then
    match Scopes_Get w name with
    | Some scope => if IsSkipped unreconcilable ScopeCRDResourceKind (sr_Name scope) then [] else [scope]
    | None => []
    end
  else if bool_decide (kind = ScopeGroupCRDResourceKind) then
    match ScopeGroups_Get w name with
    | Some group =>
        if IsSkipped unreconcilable ScopeGroupCRDResourceKind (sgr_Name group) then []
        else group_scopes (sgr_Names group) (sgr_Collections group)
    | None => []
    end
  else [].

Definition gatherScopesExplicit (w : W) (spec : ScopeSelector) : list CouchbaseScope :=
  ssel_Resources spec ≫= scope_resource w.

Definition gatherScopesImplicit (w : W) (spec : ScopeSelector) : result (list CouchbaseScope) :=
  match ssel_Selector spec with
  | None => Ok []
  | Some selector =>
      matches ← selector;
      Ok (filter (λ s, matches (sr_Labels s) = true) (Scopes_List w) ++
          (filter (λ g, matches (sgr_Labels g) = true) (ScopeGroups_List w) ≫=
             λ g, group_scopes (sgr_Names g) (sgr_Collections g)))
  end.

Definition implied_default : CouchbaseScope := mkCouchbaseScope "" ∅ "" true None.
Definition implied_system : CouchbaseScope := mkCouchbaseScope "" ∅ SystemScope false None.

Definition gatherScopes (c : Cluster) (w : W) (spec : ScopeSelector) : result (list CouchbaseScope) :=
  implicit ← gatherScopesImplicit w spec;
  let scopes := gatherScopesExplicit w spec ++ implicit in
  let scopes := if existsb DefaultScope scopes then scopes else scopes ++ [implied_default] in
  addSystemScope ← atLeast c "7.6.0";
  Ok (unique_by scope_CouchbaseName ∅ (if addSystemScope : bool then scopes ++ [implied_system] else scopes)).

(** ** The collections a scope is to have *)
Definition group_collections (names : list string) (maxTTL : option Z) (history : option bool) :
    list CouchbaseCollection :=
  (λ name, mkCouchbaseCollection "" ∅ ∅ name maxTTL history) <$> names.

Definition collection_group (g : CouchbaseCollectionGroup) : list CouchbaseCollection :=
  if IsSkipped unreconcilable CollectionGroupCRDResourceKind (cgr_Name g) then []
  else group_collections (cgr_Names g) (cgr_MaxTTL g) (cgr_History g).

Definition collection_resource (w : W) (resource : string * string) : list CouchbaseCollection :=
  let '(kind, name) := resource in
  if bool_decide (kind = CollectionCRDResourceKind) then
    match Collections_Get w name with
    | Some collection =>
        if IsSkipped unreconcilable CollectionCRDResourceKind (cr_Name collection) then [] else [collection]
    | None => []
    end
  else if bool_decide (kind = CollectionGroupCRDResourceKind) then
    match CollectionGroups_Get w name with Some group => collection_group group | None => [] end
  else [].

Definition gatherCollectionsExplicit (w : W) (spec : CollectionSelector) : list CouchbaseCollection :=
  csel_Resources spec ≫= collection_resource w.

Definition gatherCollectionsImplicit (w : W) (spec : CollectionSelector) : result (list CouchbaseCollection) :=
  match csel_Selector spec with
  | None => Ok []
  | Some selector =>
      matches ← selector;
      Ok (filter (λ x, IsSkipped unreconcilable CollectionCRDResourceKind (cr_Name x) = false ∧
                       matches (cr_Labels x) = true) (Collections_List w) ++
          (filter (λ g, matches (cgr_Labels g) = true) (CollectionGroups_List w) ≫= collection_group))
  end.

Definition kept_default : CouchbaseCollection := mkCouchbaseCollection "" ∅ ∅ DefaultScopeOrCollection None None.

(** Called for scopes whose collections are managed. *)
Definition gatherCollections (w : W) (scope : CouchbaseScope) (spec : CollectionSelector) :
    result (list CouchbaseCollection) :=
  implicit ← gatherCollectionsImplicit w spec;
  let collections := gatherCollectionsExplicit w spec ++ implicit in
  Ok (unique_by collection_CouchbaseName ∅
        (if DefaultScope scope && csel_Managed spec && PreserveDefaultCollection spec
         then collections ++ [kept_default] else collections)).

(** ** Collections *)

(** Whole seconds of a duration. *)
Definition seconds (ns : Z) : Z := Z.quot ns (10 ^ 9).

(** The settings a collection has and those it is to have; [None]: nothing is patched. *)
Definition wanted_settings (c : Cluster) (bucket : ScopedBucket) (backend : BackendSpec)
    (collection : CouchbaseCollection) (existing : Collection) : result (Collection * Collection) :=
  let status := GetBucketStorageBackendFromStatus (StatusBuckets c) (sb_CouchbaseName bucket) in
  let actualBackend := if bool_decide (status = "") then StorageBackend backend else status in
  let '(existingHistory, requestedHistory) :=
    if bool_decide (actualBackend ≠ CouchbaseStorageBackendMagma) then (None, None)
    else match cr_History collection with
         | Some h => (co_History existing, Some h)
         | None => (co_History existing, Some (default true (CollectionDefault backend)))
         end in
  canEditTTL ← atLeast c "7.6.0";
  let '(existingTTL, requestedTTL) :=
    if canEditTTL : bool then
      (co_MaxTTL existing, match cr_MaxTTL collection with Some ns => Some (seconds ns) | None => co_MaxTTL existing end)
    else (None, None) in
  Ok (mkCollection (co_Name existing) existingTTL existingHistory,
      mkCollection (co_Name existing) requestedTTL requestedHistory).

Definition reconcileCollectionSettings (bucket : ScopedBucket) (scope : CouchbaseScope) (current : list ScopeStatus)
    (collection : CouchbaseCollection) : M R () :=
  c ← gets cl;
  ok ← lift (atLeast c "7.2.0");
  match sb_Backend bucket with
  | Some backend =>
      if negb ok then mret tt
      else
        let existing :=
          GetCollection (GetScope current (scope_CouchbaseName scope)) (collection_CouchbaseName collection) in
        settings ← lift (wanted_settings c bucket backend collection existing);
        if bool_decide (settings.1 = settings.2) then mret tt
        else on_world (cb_PatchCollection (sb_CouchbaseName bucket) (scope_CouchbaseName scope) settings.2
                         (ToMembers (readyMembers c)))
  | None => mret tt
  end.

(** The collection as it is created. *)
Definition new_collection (c : Cluster) (bucket : ScopedBucket) (collection : CouchbaseCollection) : result Collection :=
  maxTTL ← match cr_MaxTTL collection with
           | None => Ok None
           | Some ns =>
               if bool_decide (seconds ns < 0) then
                 allowNegMaxTTL ← atLeast c "7.6.0";
                 Ok (if allowNegMaxTTL : bool then Some (seconds ns) else None)
               else Ok (Some (seconds ns))
           end;
  cdcEnabled ← atLeast c "7.2.0";
  let history :=
    match sb_Backend bucket with
    | Some backend =>
        if cdcEnabled && bool_decide (backend_of_bucket c (sb_CouchbaseName bucket) backend = CouchbaseStorageBackendMagma)
        then cr_History collection else None
    | None => None
    end in
  Ok (mkCollection (collection_CouchbaseName collection) maxTTL history).

Definition delete_collection (bucket : ScopedBucket) (scope : string) (requested : gset string) (existing : Collection) :
    M R () :=
  if IsSkipped unreconcilable CollectionCRDResourceKind (co_Name existing) then mret tt
  else if bool_decide (co_Name existing ∈ requested) then mret tt
  else
    c ← gets cl;
    on_world (cb_DeleteCollection (sb_CouchbaseName bucket) scope (co_Name existing) (ToMembers (readyMembers c))).

Definition create_collection (pos : list nat) (bucket : ScopedBucket) (scope : CouchbaseScope)
    (current : list ScopeStatus) (collection : CouchbaseCollection) : M R () :=
  if IsSkipped unreconcilable CollectionCRDResourceKind (cr_Name collection) then mret tt
  else
    let collection := Populate pos collection in
    if HasCollection (GetScope current (scope_CouchbaseName scope)) (collection_CouchbaseName collection)
    then reconcileCollectionSettings bucket scope current collection
    else
      c ← gets cl;
      apiCollection ← lift (new_collection c bucket collection);
      on_world (cb_CreateCollection (sb_CouchbaseName bucket) (scope_CouchbaseName scope) apiCollection
                  (ToMembers (readyMembers c))).

Definition reconcileCollections (pos : list nat) (bucket : ScopedBucket) (scope : CouchbaseScope)
    (spec : CollectionSelector) (current : list ScopeStatus) : M R () :=
  w ← gets world;
  collections ← lift (gatherCollections w scope spec);
  let requested : gset string := list_to_set (collection_CouchbaseName <$> collections) in
  for_each (delete_collection bucket (scope_CouchbaseName scope) requested)
    (so_Collections (GetScope current (scope_CouchbaseName scope)));;
  for_each (create_collection pos bucket scope current) collections.

(** ** Scopes *)

(** An error counts as no such bucket. *)
Definition bucketExists (bucket : string) : M R bool :=
  c ← gets cl;
  buckets ← attempt (on_world (cb_ListBuckets (ToMembers (readyMembers c))));
  mret (match buckets with inl l => bool_decide (bucket ∈ l) | inr _ => false end).

Definition list_scopes (bucket : ScopedBucket) : M R (list ScopeStatus) :=
  c ← gets cl;
  on_world (cb_ListScopes (sb_CouchbaseName bucket) (ToMembers (readyMembers c))).

Definition delete_scope (bucket : ScopedBucket) (requested : gset string) (scope : ScopeStatus) : M R () :=
  if bool_decide (so_Name scope ∈ requested) then mret tt
  else if IsSkipped unreconcilable ScopeCRDResourceKind (so_Name scope) then mret tt
  else
    c ← gets cl;
    on_world (cb_DeleteScope (sb_CouchbaseName bucket) (so_Name scope) (ToMembers (readyMembers c))).

Definition create_scope (bucket : ScopedBucket) (current : list ScopeStatus) (scope : string) : M R () :=
  if HasScope current scope then mret tt
  else if IsSkipped unreconcilable ScopeCRDResourceKind scope then mret tt
  else
    c ← gets cl;
    on_world (cb_CreateScope (sb_CouchbaseName bucket) scope (ToMembers (readyMembers c))).

Definition scope_collections (pos : list nat) (bucket : ScopedBucket) (current : list ScopeStatus)
    (scope : CouchbaseScope) : M R () :=
  if bool_decide (scope_CouchbaseName scope = SystemScope) then mret tt
  else match sr_Collections scope with
       | Some spec => if csel_Managed spec then reconcileCollections pos bucket scope spec current else mret tt
       | None => mret tt
       end.

(** [spec]: the scopes of the bucket, which [listScopedBuckets] has made sure of. *)
Definition reconcileScopes (pos : list nat) (bucket : ScopedBucket) (spec : ScopeSelector) : M R () :=
  there ← bucketExists (sb_CouchbaseName bucket);
  if negb there then mret tt
  else
    current ← list_scopes bucket;
    c ← gets cl; w ← gets world;
    scopes ← lift (gatherScopes c w spec);
    let requested := scope_CouchbaseName <$> scopes in
    for_each (delete_scope bucket (list_to_set requested)) current;;
    for_each (create_scope bucket current)
      (range (0%nat :: pos) (list_to_map ((λ name, (name, tt)) <$> requested) : gmap string ())).*1;;
    current ← list_scopes bucket;
    for_each (scope_collections (1%nat :: pos) bucket current) scopes.

(** ** All buckets *)
Definition listScopedBuckets (c : Cluster) (w : W) : result (list (ScopedBucket * ScopeSelector)) :=
  selector ← GetBucketObjectSelector c;
  Ok (omap (λ b, match sb_Scopes b with
                 | Some spec => if selector (sb_Name b) (sb_Labels b) && ssel_Managed spec then Some (b, spec) else None
                 | None => None
                 end) (Buckets_List w)).

Definition reconcileScopesAndCollections (pos : list nat) : M R () :=
  c ← gets cl; w ← gets world;
  available ← lift (atLeast c "7.0.0");
  if negb available then mret tt
  else if negb (Managed (spec_Buckets (c_settings c))) then mret tt
  else
    buckets ← lift (listScopedBuckets c w);
    for_each (λ b, reconcileScopes pos b.1 b.2) buckets.
End collections.
