(* ===== verification/Rbac.v ===== *)
(** * pkg/cluster/rbacreconcile.go: groups, users and their roles

    The roles a group resource stands for ([handleRole], [getRoleCombinations]), the
    groups and the users the resources ask for, how Couchbase gets them ([reconcileGroups],
    [reconcileUsers]) and when a password has to be changed ([reconcileTemporaryPasswords]);
    with the tables of roles of [helpers.go] and the password policy of [pod_util.go]. *)

From Stdlib Require Import Ascii.
From S2P Require Import Prelude Effects GoLib Regex Digests Version Api Member Persistence Status.
From S2P Require Import UpgradeOrder RollingUpgrade NodeStatus Pods Machine Rebalance Baseline PreviousVersion.
From S2P Require Import Unreconcilable Collections.
Local Open Scope Z_scope.

Definition GroupCRDResourceKind : string := "CouchbaseGroup".
Definition UserCRDResourceKind : string := "CouchbaseUser".
Definition InternalAuthDomain : string := "local".
Definition RoleFullAdmin : string := "admin".
Definition RoleSecurityAdmin : string := "security_admin".
Definition RoleUserAdminLocal : string := "user_admin_local".
Definition RoleUserAdminExternal : string := "user_admin_external".
Definition CngAdminUserNamePrefix : string := "cng-admin".
Definition CngAdminUserSecretPrefix : string := "couchbase-cloud-native-gateway-admin-secret".
Definition AuthSecretPasswordKey : string := "password".

(** ** The tables of roles *)
Definition clusterRoles : list string :=
  ["admin"; "cluster_admin"; "security_admin"; "ro_admin"; "ro_security_admin"; "replication_admin";
   "query_external_access"; "query_system_catalog"; "query_manage_system_catalog"; "analytics_reader";
   "security_admin_external"; "security_admin_local"; "user_admin_external"; "user_admin_local"; "backup_admin";
   "query_manage_global_functions"; "query_execute_global_functions"; "query_manage_global_external_functions";
   "query_execute_global_external_functions"; "analytics_admin"; "external_stats_reader"; "eventing_admin";
   "eventing_manage_functions"; "sync_gateway_dev_ops"; "application_telemetry_writer"].

Definition bucketRoles : list string :=
  ["bucket_admin"; "fts_admin"; "bucket_full_access"; "data_backup"; "replication_target"; "analytics_manager";
   "views_admin"; "views_reader"; "mobile_sync_gateway"].

Definition scopeRoles : list string :=
  ["scope_admin"; "query_manage_functions"; "query_execute_functions"; "query_manage_external_functions";
   "query_execute_external_functions"; "query_use_sequences"; "query_manage_sequences"].

Definition collectionRoles : list string :=
  ["data_reader"; "data_writer"; "data_dcp_reader"; "data_monitoring"; "query_select"; "query_update"; "query_insert";
   "query_delete"; "query_manage_index"; "query_list_index"; "fts_searcher"; "analytics_select"; "sync_gateway_app";
   "sync_gateway_app_ro"; "sync_gateway_configurator"; "sync_gateway_replicator"; "query_use_sequential_scans"].

Definition IsClusterRole (role : string) : bool := bool_decide (role ∈ clusterRoles).
Definition IsCollectionRole (role : string) : bool := bool_decide (role ∈ collectionRoles).
Definition IsScopeRole (role : string) : bool := bool_decide (role ∈ scopeRoles) || IsCollectionRole role.
Definition IsBucketRole (role : string) : bool := bool_decide (role ∈ bucketRoles) || IsScopeRole role.

(** ** What Couchbase has *)
Record UserRole := mkUserRole {
  ur_Role : string;
  ur_BucketName : string;
  ur_ScopeName : string;
  ur_CollectionName : string;
  ur_Origins : list (string * string);   (* type and name *)
}.

#[export] Instance UserRole_eq_dec : EqDecision UserRole.
Proof. solve_decision. Defined.

Record Group := mkGroup {
  gr_ID : string;
  gr_Roles : list UserRole;
  gr_LDAPGroupRef : string;
}.

Record User := mkUser {
  ur_Name : string;
  ur_Password : string;
  ur_Domain : string;
  ur_ID : string;
  ur_Roles : list UserRole;
  ur_Groups : list string;
  ur_Locked : option bool;
  ur_TemporaryPassword : option bool;
  ur_PasswordChangeDate : option string;
}.

Definition set_groups (groups : list string) (u : User) : User :=
  mkUser (ur_Name u) (ur_Password u) (ur_Domain u) (ur_ID u) (ur_Roles u) groups (ur_Locked u)
    (ur_TemporaryPassword u) (ur_PasswordChangeDate u).

Definition HasTempPassword (u : User) : bool := bool_decide (ur_TemporaryPassword u = Some true).

Definition IsDirectRole (r : UserRole) : bool := existsb (λ o, bool_decide (o.1 = "user")) (ur_Origins r).

Definition wild (s : string) : bool := bool_decide (s = "*" ∨ s = "").

Definition RoleToStr (r : UserRole) : string :=
  if negb (wild (ur_CollectionName r)) then
    ur_Role r +:+ "[" +:+ ur_BucketName r +:+ ":" +:+ ur_ScopeName r +:+ ":" +:+ ur_CollectionName r +:+ "]"
  else if negb (wild (ur_ScopeName r)) then
    ur_Role r +:+ "[" +:+ ur_BucketName r +:+ ":" +:+ ur_ScopeName r +:+ "]"
  else if bool_decide (ur_BucketName r ≠ "") then ur_Role r +:+ "[" +:+ ur_BucketName r +:+ "]"
  else ur_Role r.

Definition RolesToStr (l : list UserRole) : list string := sort_Strings (RoleToStr <$> l).

(** ** The resources *)

(** What a role names of buckets, scopes or collections: kinds and names, and a selector. *)
Record RoleSpec := mkRoleSpec {
  rs_Resources : list (string * string);
  rs_Selector : option LabelSelector;
}.

Record Role := mkRole {
  ro_Name : string;
  ro_Bucket : string;
  ro_Buckets : RoleSpec;
  ro_Scopes : RoleSpec;
  ro_Collections : RoleSpec;
}.

Definition set_role_name (name : string) (r : Role) : Role :=
  mkRole name (ro_Bucket r) (ro_Buckets r) (ro_Scopes r) (ro_Collections r).

Record CouchbaseGroup := mkCouchbaseGroup {
  cg_Name : string;
  cg_Labels : Labels;
  cg_Roles : list Role;
  cg_LDAPGroupRef : string;
}.

Record UserPassword := mkUserPassword {
  RequireInitialChange : option bool;
  ExpiresAt : option Z;
  ExpiresAfter : option Z;
}.

Record CouchbaseUser := mkCouchbaseUser {
  cu_Name : string;
  cu_Labels : Labels;
  cu_SpecName : string;
  cu_FullName : string;
  cu_AuthDomain : string;
  cu_AuthSecret : string;
  cu_Locked : option bool;
  cu_Password : option UserPassword;
}.

Definition GetUserID (u : CouchbaseUser) : string :=
  if bool_decide (cu_SpecName u ≠ "") then cu_SpecName u else cu_Name u.

Record CouchbaseRoleBinding := mkRoleBinding {
  rb_Name : string;
  rb_RoleRef : string;
  rb_Subjects : list string;
}.

Record PasswordPolicySpec := mkPasswordPolicy {
  RequirePasswordResetOnPolicyChange : option bool;
  PasswordResetOnPolicyChangeExemptUsers : list string;
  MinLength : option Z;
  EnforceUppercase : option bool;
  EnforceLowercase : option bool;
  EnforceDigits : option bool;
  EnforceSpecialChars : option bool;
}.

Definition MigrateDeprecatedRoles (roles : list Role) : list Role :=
  roles ≫= λ r,
    if bool_decide (ro_Name r = "security_admin_local")
    then [set_role_name RoleSecurityAdmin r; set_role_name RoleUserAdminLocal r]
    else if bool_decide (ro_Name r = "security_admin_external")
    then [set_role_name RoleSecurityAdmin r; set_role_name RoleUserAdminExternal r]
    else [r].

(** *** The password policy

    The tables of package [unicode] are the standard library's. *)
Class UnicodeTables := {
  unicode_IsUpper : Z → bool;
  unicode_IsLower : Z → bool;
  unicode_IsDigit : Z → bool;
}.

(** [for _, c := range s]; bytes that are no UTF-8 are U+FFFD. *)
Fixpoint runes (skip : nat) (l : list Z) : list Z :=
  match l with
  | [] => []
  | b :: l' =>
      match skip with
      | S skip => runes skip l'
      | O =>
          let tail (n : nat) := fold_left (λ acc b, acc * 64 + (b - 128)) (take n l') in
          match utf8_len l with
          | 1%nat => b :: runes 0 l'
          | 2%nat => tail 1%nat (b - 192) :: runes 1 l'
          | 3%nat => tail 2%nat (b - 224) :: runes 2 l'
          | 4%nat => tail 3%nat (b - 240) :: runes 3 l'
          | _ => 65533 :: runes 0 l'
          end
      end
  end.

Definition string_runes (s : string) : list Z := runes 0 (byte_of <$> string_bytes s).

Definition allowedSpecials : list Z :=
  byte_of <$> (string_bytes "@%+/'\!#$^?:,(){}[]~`-_" ++ [quote]).

Definition enforced (o : option bool) : bool := bool_decide (o = Some true).

Definition PasswordCompliesWithCouchbasePasswordPolicy `{UnicodeTables} (policy : option PasswordPolicySpec)
    (password : string) : bool :=
  match policy with
  | None => true
  | Some p =>
      let cs := string_runes password in
      if from_option (λ n, bool_decide (Z.of_nat (String.length password) < n)) false (MinLength p) then false
      else if enforced (EnforceDigits p) && negb (existsb unicode_IsDigit cs) then false
      else if enforced (EnforceLowercase p) && negb (existsb unicode_IsLower cs) then false
      else if enforced (EnforceUppercase p) && negb (existsb unicode_IsUpper cs) then false
      else negb (enforced (EnforceSpecialChars p) && negb (existsb (λ c, bool_decide (c ∈ allowedSpecials)) cs))
  end.

(** *** LDAP: what Couchbase has, and what the specification says *)
Definition LDAPSecretCACert : string := "ca.crt".
Definition LDAPSecretPassword : string := "password".

Record LDAPSettings := mkLDAPSettings {
  AuthenticationEnabled : bool;
  AuthorizationEnabled : bool;
  Hosts : list string;
  Port : Z;
  Encryption : string;
  EnableCertValidation : bool;
  CACert : string;
  GroupsQuery : string;
  BindDN : string;
  BindPass : string;
  UserDNMapping : string * string;       (* template and query *)
  NestedGroupsEnabled : bool;
  NestedGroupsMaxDepth : Z;
  CacheValueLifetime : Z;
  MiddleboxCompMode : option bool;
}.

#[export] Instance LDAPSettings_eq_dec : EqDecision LDAPSettings.
Proof. solve_decision. Defined.

Definition set_BindPass (password : string) (s : LDAPSettings) : LDAPSettings :=
  mkLDAPSettings (AuthenticationEnabled s) (AuthorizationEnabled s) (Hosts s) (Port s) (Encryption s)
    (EnableCertValidation s) (CACert s) (GroupsQuery s) (BindDN s) password (UserDNMapping s) (NestedGroupsEnabled s)
    (NestedGroupsMaxDepth s) (CacheValueLifetime s) (MiddleboxCompMode s).

(** The settings a specification has itself, without certificate, password and mode. *)
Record CouchbaseClusterLDAPSpec := mkLDAPSpec {
  BindSecret : string;
  TLSSecret : string;
  ldap_MiddleboxCompMode : bool;
  ldap_Settings : LDAPSettings;
}.

Definition with_ca_and_mode (ca : string) (mode : option bool) (s : LDAPSettings) : LDAPSettings :=
  mkLDAPSettings (AuthenticationEnabled s) (AuthorizationEnabled s) (Hosts s) (Port s) (Encryption s)
    (EnableCertValidation s) ca (GroupsQuery s) (BindDN s) "" (UserDNMapping s) (NestedGroupsEnabled s)
    (NestedGroupsMaxDepth s) (CacheValueLifetime s) mode.

(** The caches and the requests. *)
Class RbacPlatform (W : Type) := {
  CouchbaseBuckets_Get : W → string → option ScopedBucket;
  CouchbaseBuckets_List : W → list ScopedBucket;
  Groups_List : W → list CouchbaseGroup;
  Users_Get : W → string → option CouchbaseUser;
  Users_List : W → list CouchbaseUser;
  RoleBindings_List : W → list CouchbaseRoleBinding;
  Secrets_Get : W → string → option (gmap string string);
  cb_ListGroups : Target → M W (list Group);
  cb_CreateGroup : Group → Target → M W ();
  cb_DeleteGroup : Group → Target → M W ();
  cb_ListUsers : Target → M W (list User);
  cb_CreateUser : User → Target → M W ();
  cb_DeleteUser : User → Target → M W ();
  cb_GetLDAPSettings : Target → M W LDAPSettings;
  cb_SetLDAPSettings : LDAPSettings → Target → M W ();
  rfc3339_Parse : string → result Z;
  zero_time : Z;
}.

(** Of the specification of the cluster. *)
Class RbacSettings := {
  RBAC_Selector : Cluster → option LabelSelector;
  PasswordPolicy : Cluster → option PasswordPolicySpec;
  LDAP : Cluster → option CouchbaseClusterLDAPSpec;
}.

Section rbac.
Context `{Platform W} `{PersistentStorage W} `{!ScopePlatform W} `{!RbacPlatform W}.
Context `{RbacSettings} `{Environment} `{MapRange} `{UnicodeTables}.
Context (unreconcilable : Tracker).
Abbreviation R := (RS W).

(** ** The roles of a group *)

(** What a selector finds; nothing if it is not valid. *)
Definition by_selector {A} (labels : A → Labels) (s : LabelSelector) (l : list A) : list A :=
  match s with Ok matches => filter (λ x, matches (labels x) = true) l | _ => [] end.

Definition getScopesFromGroup (w : W) (g : CouchbaseScopeGroup) : list CouchbaseScope :=
  (λ name, default (mkCouchbaseScope "" ∅ name false None) (Scopes_Get w name)) <$> sgr_Names g.

Definition getScopesBySelector (w : W) (s : LabelSelector) : list CouchbaseScope :=
  by_selector sr_Labels s (Scopes_List w) ++ (by_selector sgr_Labels s (ScopeGroups_List w) ≫= getScopesFromGroup w).

Definition role_scope_resource (w : W) (resource : string * string) : list CouchbaseScope :=
  let '(kind, name) := resource in
  if bool_decide (kind = ScopeCRDResourceKind) then option_list (Scopes_Get w name)
  else if bool_decide (kind = ScopeGroupCRDResourceKind) then
    match ScopeGroups_Get w name with Some g => getScopesFromGroup w g | None => [] end
  else [].

Definition getRoleScopes (w : W) (role : Role) : list CouchbaseScope :=
  from_option (getScopesBySelector w) [] (rs_Selector (ro_Scopes role)) ++
  (rs_Resources (ro_Scopes role) ≫= role_scope_resource w).

Definition getCollectionsFromGroup (w : W) (g : CouchbaseCollectionGroup) : list CouchbaseCollection :=
  (λ name, default (mkCouchbaseCollection "" ∅ ∅ name None None) (Collections_Get w name)) <$> cgr_Names g.

Definition getCollectionsBySelector (w : W) (s : LabelSelector) : list CouchbaseCollection :=
  by_selector cr_Labels s (Collections_List w) ++
  (by_selector cgr_Labels s (CollectionGroups_List w) ≫= getCollectionsFromGroup w).

Definition role_collection_resource (w : W) (resource : string * string) : list CouchbaseCollection :=
  let '(kind, name) := resource in
  if bool_decide (kind = CollectionCRDResourceKind) then option_list (Collections_Get w name)
  else if bool_decide (kind = CollectionGroupCRDResourceKind) then
    match CollectionGroups_Get w name with Some g => getCollectionsFromGroup w g | None => [] end
  else [].

Definition getRoleCollections (w : W) (role : Role) : list CouchbaseCollection :=
  from_option (getCollectionsBySelector w) [] (rs_Selector (ro_Collections role)) ++
  (rs_Resources (ro_Collections role) ≫= role_collection_resource w).

(** The names of the buckets of a role. *)
Definition getRoleBuckets (role : Role) : M R (list string) :=
  w ← gets world;
  let buckets := from_option (λ s, by_selector sb_Labels s (CouchbaseBuckets_List w)) [] (rs_Selector (ro_Buckets role)) ++
    (rs_Resources (ro_Buckets role) ≫= λ r, option_list (CouchbaseBuckets_Get w r.2)) in
  if bool_decide (buckets = [] ∧ ro_Bucket role ≠ "") then
    there ← bucketExists (ro_Bucket role);
    mret (if there : bool then [ro_Bucket role] else [])
  else mret (sb_Name <$> buckets).

(** The roles in one scope, and in one bucket of which the scopes are known. *)
Definition scope_roles (role : Role) (bucket : string) (cbScope : ScopeStatus) (scope : CouchbaseScope)
    (collections : list CouchbaseCollection) : list UserRole :=
  ((λ x, mkUserRole (ro_Name role) bucket (scope_CouchbaseName scope) (collection_CouchbaseName x) []) <$>
     filter (λ x, HasCollection cbScope (collection_CouchbaseName x) = true) collections) ++
  match collections, rs_Selector (ro_Collections role) with
  | [], None => [mkUserRole (ro_Name role) bucket (scope_CouchbaseName scope) "" []]
  | _, _ => []
  end.

Definition bucket_roles (role : Role) (bucket : string) (scopeList : list ScopeStatus) (scopes : list CouchbaseScope)
    (collections : list CouchbaseCollection) : list UserRole :=
  (filter (λ s, HasScope scopeList (scope_CouchbaseName s) = true) scopes ≫= λ s,
     scope_roles role bucket (GetScope scopeList (scope_CouchbaseName s)) s collections) ++
  match scopes, rs_Selector (ro_Scopes role) with
  | [], None => [mkUserRole (ro_Name role) bucket "" "" []]
  | _, _ => []
  end.

Definition getScopeList (bucket : string) (scopes : list CouchbaseScope) : M R (list ScopeStatus) :=
  match scopes with
  | [] => mret []
  | _ => c ← gets cl; on_world (cb_ListScopes bucket (ToMembers (readyMembers c)))
  end.

Definition add_combinations (role : Role) (scopes : list CouchbaseScope) (collections : list CouchbaseCollection)
    (roles : list UserRole) (bucket : string) : M R (list UserRole) :=
  there ← bucketExists bucket;
  if negb there then mret roles
  else
    scopeList ← getScopeList bucket scopes;
    mret (roles ++ bucket_roles role bucket scopeList scopes collections).

Definition getRoleCombinations (role : Role) (buckets : list string) (scopes : list CouchbaseScope)
    (collections : list CouchbaseCollection) : M R (list UserRole) :=
  for_fold (add_combinations role scopes collections) [] buckets.

Definition handleRole (role : Role) : M R (list UserRole) :=
  if IsClusterRole (ro_Name role) then mret [mkUserRole (ro_Name role) "" "" "" []]
  else if bool_decide (ro_Bucket role = "") && negb (bool_decide (is_Some (rs_Selector (ro_Buckets role)))) &&
    bool_decide (rs_Resources (ro_Buckets role) = []) && IsBucketRole (ro_Name role)
  then mret [mkUserRole (ro_Name role) "*" "" "" []]
  else
    c ← gets cl;
    available ← lift (atLeast c "7.0.0");
    buckets ← getRoleBuckets role;
    w ← gets world;
    getRoleCombinations role buckets (if available : bool then getRoleScopes w role else [])
      (if available : bool then getRoleCollections w role else []).

(** ** The groups *)

(** Which labels the cluster takes. *)
Definition rbac_selector (c : Cluster) : result (Labels → bool) := default (Ok (λ _, true)) (RBAC_Selector c).

Definition generate_group (pos : list nat) (matches : Labels → bool) (groups : gmap string Group) (g : CouchbaseGroup) :
    M R (gmap string Group) :=
  if IsSkipped unreconcilable GroupCRDResourceKind (cg_Name g) then mret groups
  else if negb (matches (cg_Labels g)) then mret groups
  else
    supported ← SupportsVersionFeatures pos "8.0.0";
    roles ← for_fold (λ roles role, l ← handleRole role; mret (roles ++ l)) []
              (if supported : bool then MigrateDeprecatedRoles (cg_Roles g) else cg_Roles g);
    mret (<[cg_Name g := mkGroup (cg_Name g) roles (cg_LDAPGroupRef g)]> groups).

Definition generateGroups (pos : list nat) : M R (gmap string Group) :=
  c ← gets cl; w ← gets world;
  matches ← lift (rbac_selector c);
  for_fold (λ groups g, generate_group (g.1 :: pos) matches groups g.2) ∅ (imap pair (Groups_List w)).

(** The buckets of its roles must be there. *)
Definition createGroup (group : Group) : M R () :=
  for_each (λ role,
    if wild (ur_BucketName role) then mret tt
    else
      c ← gets cl;
      buckets ← on_world (cb_ListBuckets (ToMembers (readyMembers c)));
      if bool_decide (ur_BucketName role ∈ buckets) then mret tt else throw ErrResourceRequired) (gr_Roles group);;
  c ← gets cl;
  on_world (cb_CreateGroup group (ToMembers (readyMembers c))).

Definition group_differs (r e : Group) : bool :=
  negb (bool_decide (RolesToStr (gr_Roles r) = RolesToStr (gr_Roles e))) ||
  negb (bool_decide (gr_LDAPGroupRef r = gr_LDAPGroupRef e)).

Definition reconcile_group (requested : gmap string Group) (existingGroupNames : list string) (e : Group) :
    M R (list string) :=
  if IsSkipped unreconcilable GroupCRDResourceKind (gr_ID e) then mret existingGroupNames
  else
    match requested !! gr_ID e with
    | Some r =>
        (if group_differs r e then createGroup r else mret tt);;
        mret (existingGroupNames ++ [gr_ID e])
    | None =>
        c ← gets cl;
        on_world (cb_DeleteGroup e (ToMembers (readyMembers c)));;
        mret existingGroupNames
    end.

(** The groups that were there already. *)
Definition reconcileGroups (pos : list nat) : M R (list string) :=
  requested ← generateGroups (0%nat :: pos);
  c ← gets cl;
  existing ← on_world (cb_ListGroups (ToMembers (readyMembers c)));
  existingGroupNames ← for_fold (reconcile_group requested) [] existing;
  for_each (λ e, if (HasItem (gr_ID e.2) existingGroupNames).2 then mret tt else createGroup e.2)
    (range (1%nat :: pos) requested);;
  mret existingGroupNames.

(** ** The users *)
Definition getRBACAuthPassword (w : W) (authSecret : string) : result string :=
  match Secrets_Get w authSecret with
  | None => Err ErrResourceRequired
  | Some data => match data !! AuthSecretPasswordKey with Some p => Ok p | None => Err ErrResourceAttributeRequired end
  end.

Definition gatherSubjectsForRoleBinding (c : Cluster) (w : W) (binding : CouchbaseRoleBinding) :
    result (list CouchbaseUser) :=
  matches ← rbac_selector c;
  Ok (filter (λ u, matches (cu_Labels u) = true) (omap (Users_Get w) (rb_Subjects binding))).

(** [id]: the name in Couchbase, which the caller has filled in. *)
Definition createAPIUserFromSubject (w : W) (id : string) (subject : CouchbaseUser) (atLeast80 : bool) : result User :=
  if bool_decide (cu_AuthDomain subject = InternalAuthDomain) then
    password ← getRBACAuthPassword w (cu_AuthSecret subject);
    Ok (if atLeast80 then
          mkUser (cu_FullName subject) password (cu_AuthDomain subject) id [] []
            (Some (default false (cu_Locked subject))) (cu_Password subject ≫= RequireInitialChange) None
        else mkUser (cu_FullName subject) password (cu_AuthDomain subject) id [] [] None None None)
  else Ok (mkUser (cu_FullName subject) "" (cu_AuthDomain subject) id [] [] None None None).

(** The users so far and those that are not to be reconciled.  A user is looked up by the
    name of its resource and stored by its name in Couchbase. *)
Definition add_subject (w : W) (group : string) (atLeast80 : bool) (acc : gmap string User * gset string)
    (subject : CouchbaseUser) : result (gmap string User * gset string) :=
  let '(users, unReconcilableUsers) := acc in
  if IsSkipped unreconcilable UserCRDResourceKind (cu_Name subject)
  then Ok (users, {[cu_Name subject]} ∪ unReconcilableUsers)
  else
    user ← match users !! cu_Name subject with
           | Some user => Ok user
           | None => createAPIUserFromSubject w (GetUserID subject) subject atLeast80
           end;
    Ok (<[GetUserID subject := set_groups (ur_Groups user ++ [group]) user]> users, unReconcilableUsers).

Definition result_fold {A B} (f : B → A → result B) : B → list A → result B :=
  fix go acc l := match l with [] => Ok acc | x :: l => acc ← f acc x; go acc l end.

Definition add_binding (c : Cluster) (w : W) (groups : list string) (atLeast80 : bool)
    (acc : gmap string User * gset string) (binding : CouchbaseRoleBinding) : result (gmap string User * gset string) :=
  if negb (HasItem (rb_RoleRef binding) groups).2 then Ok acc
  else
    subjects ← gatherSubjectsForRoleBinding c w binding;
    result_fold (add_subject w (rb_RoleRef binding) atLeast80) acc subjects.

Definition cng_user (c : Cluster) (w : W) : result User :=
  let userName := CngAdminUserNamePrefix +:+ "@" +:+ Api.Name (c_cluster c) in
  password ← getRBACAuthPassword w (CngAdminUserSecretPrefix +:+ "-" +:+ Api.Name (c_cluster c));
  Ok (mkUser userName password InternalAuthDomain userName [mkUserRole RoleFullAdmin "" "" "" []] [] None None None).

Definition createCloudNativeGatewayAdminUser : M R () :=
  c ← gets cl; w ← gets world;
  user ← lift (cng_user c w);
  on_world (cb_CreateUser user (ToMembers (readyMembers c))).

Definition generateUsers (pos : list nat) (groups : list string) : M R (gmap string User * gset string) :=
  atLeast80 ← SupportsVersionFeatures pos "8.0.0";
  c ← gets cl; w ← gets world;
  acc ← lift (result_fold (add_binding c w groups atLeast80) (∅, ∅) (RoleBindings_List w));
  match net_CloudNativeGateway (c_networking c) with
  | Some _ =>
      user ← lift (cng_user c w);
      mret (<[ur_Name user := user]> acc.1, acc.2)
  | None => mret acc
  end.

Definition shouldUpdateUser (r e : User) : bool :=
  negb (bool_decide (sort_Strings (ur_Groups r) = sort_Strings (ur_Groups e))) ||
  negb (bool_decide (RolesToStr (ur_Roles r) = RolesToStr (filter (λ x, IsDirectRole x = true) (ur_Roles e)))) ||
  negb (bool_decide (ur_Name r = ur_Name e)) ||
  match ur_Locked r with Some l => negb (bool_decide (ur_Locked e = Some l)) | None => false end.

(** What is asked for of a user there is: its groups sorted, its passwords left as they are. *)
Definition user_update (r e : User) : User :=
  mkUser (ur_Name r) "" (ur_Domain r) (ur_ID r) (ur_Roles r) (sort_Strings (ur_Groups r)) (ur_Locked r)
    (ur_TemporaryPassword e) (ur_PasswordChangeDate r).

Definition reconcile_user (requested : gmap string User) (unreconcilableUsers : gset string)
    (existingUserNames : list string) (e : User) : M R (list string) :=
  c ← gets cl;
  match requested !! ur_ID e with
  | Some r =>
      (if shouldUpdateUser r e then on_world (cb_CreateUser (user_update r e) (ToMembers (readyMembers c))) else mret tt);;
      mret (existingUserNames ++ [ur_ID e])
  | None =>
      if bool_decide (ur_ID e ∈ unreconcilableUsers) then mret existingUserNames
      else
        on_world (cb_DeleteUser e (ToMembers (readyMembers c)));;
        mret existingUserNames
  end.

Definition reconcileExistingUsers (requested : gmap string User) (unreconcilableUsers : gset string)
    (existing : list User) : M R (list string) :=
  for_fold (reconcile_user requested unreconcilableUsers) [] existing.

(** Whether a user that is not there is created. *)
Definition may_create (c : Cluster) (r : User) : bool :=
  negb (bool_decide (ur_Domain r = InternalAuthDomain)) ||
  PasswordCompliesWithCouchbasePasswordPolicy (PasswordPolicy c) (ur_Password r).

Definition create_user (existingUserNames : list string) (r : User) : M R () :=
  if (HasItem (ur_ID r) existingUserNames).2 then mret tt
  else
    c ← gets cl;
    if negb (may_create c r) then mret tt else on_world (cb_CreateUser r (ToMembers (readyMembers c))).

Definition createMissingUsers (pos : list nat) (requested : gmap string User) (existingUserNames : list string) : M R () :=
  for_each (λ e, create_user existingUserNames e.2) (range pos requested).

Definition reconcileUsers (pos : list nat) (groups : list string) : M R (list string) :=
  requested ← generateUsers (0%nat :: pos) groups;
  c ← gets cl;
  existing ← on_world (cb_ListUsers (ToMembers (readyMembers c)));
  existingUserNames ← reconcileExistingUsers requested.1 requested.2 existing;
  createMissingUsers (1%nat :: pos) requested.1 existingUserNames;;
  mret existingUserNames.

(** ** Temporary passwords *)
Definition GetPasswordChangeDate (u : User) : result Z :=
  match ur_PasswordChangeDate u with None => Ok zero_time | Some date => rfc3339_Parse date end.

Definition passwordExpired (lastChangedDate now : Z) (u : CouchbaseUser) : bool :=
  match cu_Password u ≫= ExpiresAt with
  | None => false
  | Some at_ => bool_decide (lastChangedDate < at_) && bool_decide (at_ < now)
  end.

Definition passwordResetDurationElapsed (lastChangedDate now : Z) (u : CouchbaseUser) : bool :=
  match cu_Password u ≫= ExpiresAfter with
  | None => false
  | Some d => bool_decide (lastChangedDate + d < now)
  end.

Definition shouldResetUserPasswordOnPolicyChange (c : Cluster) (u : CouchbaseUser) : bool :=
  match PasswordPolicy c with
  | None => false
  | Some p => enforced (RequirePasswordResetOnPolicyChange p) &&
      negb (bool_decide (cu_Name u ∈ PasswordResetOnPolicyChangeExemptUsers p))
  end.

Definition userRequiresPasswordReset (c : Cluster) (w : W) (policyChange : bool) (userSpec : CouchbaseUser) (user : User) :
    result bool :=
  if policyChange then Ok (shouldResetUserPasswordOnPolicyChange c userSpec)
  else
    lastChangedDate ← GetPasswordChangeDate user;
    let now := time_now w in
    Ok (passwordExpired lastChangedDate now userSpec || passwordResetDurationElapsed lastChangedDate now userSpec).

(** Without its roles, which would become its own. *)
Definition temporary (u : User) : User :=
  mkUser (ur_Name u) (ur_Password u) (ur_Domain u) (ur_ID u) [] (ur_Groups u) (ur_Locked u) (Some true)
    (ur_PasswordChangeDate u).

Definition reset_user (policyChange : bool) (resources : gmap string CouchbaseUser) (user : User) : M R () :=
  if negb (bool_decide (ur_Domain user = InternalAuthDomain)) || HasTempPassword user then mret tt
  else
    match resources !! ur_ID user with
    | None => mret tt
    | Some userSpec =>
        c ← gets cl; w ← gets world;
        resetPassword ← lift (userRequiresPasswordReset c w policyChange userSpec user);
        if resetPassword : bool then on_world (cb_CreateUser (temporary user) (ToMembers (readyMembers c))) else mret tt
    end.

Definition reconcileTemporaryPasswords (pos : list nat) (policyChange : bool) : M R () :=
  supported ← SupportsVersionFeatures pos "8.0.0";
  if negb supported then mret tt
  else
    c ← gets cl;
    users ← on_world (cb_ListUsers (ToMembers (readyMembers c)));
    w ← gets world;
    for_each (reset_user policyChange (fold_left (λ m u, <[GetUserID u := u]> m) (Users_List w) ∅)) users.

(** ** All of it: the names of the groups and of the users that were there *)
Definition reconcileRBACResources (pos : list nat) : M R (list string * list string) :=
  groups ← reconcileGroups (0%nat :: pos);
  users ← reconcileUsers (1%nat :: pos) groups;
  reconcileTemporaryPasswords (2%nat :: pos) false;;
  mret (groups, users).

(** ** LDAP *)
Definition secret_entry (w : W) (name key : string) : result string :=
  match Secrets_Get w name with
  | None => Err ErrResourceRequired
  | Some data => match data !! key with Some v => Ok v | None => Err ErrResourceAttributeRequired end
  end.

Definition wanted_LDAP (c : Cluster) (w : W) (ldap : CouchbaseClusterLDAPSpec) : result LDAPSettings :=
  ca ← (if EnableCertValidation (ldap_Settings ldap) && bool_decide (TLSSecret ldap ≠ "")
        then secret_entry w (TLSSecret ldap) LDAPSecretCACert else Ok "");
  Ok (with_ca_and_mode ca (if is_true (atLeast c "7.6.0") then Some (ldap_MiddleboxCompMode ldap) else None)
        (ldap_Settings ldap)).

Definition reconcileLDAPSettings : M R () :=
  c ← gets cl; w ← gets world;
  match LDAP c with
  | None => mret tt
  | Some ldap =>
      wanted ← lift (wanted_LDAP c w ldap);
      actual ← on_world (cb_GetLDAPSettings (ToMembers (readyMembers c)));
      if bool_decide (set_BindPass "" actual = wanted) then mret tt
      else
        w ← gets world;
        password ← lift (if bool_decide (BindSecret ldap ≠ "") then secret_entry w (BindSecret ldap) LDAPSecretPassword
                         else Ok "");
        on_world (cb_SetLDAPSettings (set_BindPass password wanted) (ToMembers (readyMembers c)))
  end.
End rbac.
