(* ===== verification/Janitor.v ===== *)
(** * pkg/cluster/janitor.go: the log volumes that outlive their pods

    Once a minute the janitor notes which log volumes have no pod ([updateDetachedAnnotations]),
    deletes those that were kept long enough ([deleteTimedOutVolumes]) and those that are too
    many ([deleteOverCapacityVolumes]).  It runs beside the reconciliation and shares its
    cache of claims: a claim is changed there before the API is asked. *)

From Stdlib Require Import Ascii.
From S2P Require Import Prelude Effects GoLib Regex Digests Version Api Member Persistence Status.
From S2P Require Import UpgradeOrder NodeStatus Pods Volumes Machine Rebalance Baseline.
Local Open Scope Z_scope.

Definition VolumeDetachedAnnotation : string := "pv.couchbase.com/detached".

(** Of [spec.logging]. *)
Record LoggingSpec := mkLogging {
  LogRetentionTime : string;
  LogRetentionCount : Z;
}.

(** The deletion of a claim, and what the standard library makes of a duration and a date. *)
Class JanitorPlatform (W : Type) := {
  api_DeletePVC : string → M W ();
  time_ParseDuration : string → result Z;
  time_ParseDate : string → result Z;
}.

Section janitor.
Context `{Platform W} `{!JanitorPlatform W}.

(** ** The abstraction of claims *)
Definition LogPVCList (w : W) : list PVC := filter (λ pvc, IsLogPVC pvc = true) (PVCs_List w).

(** A pod that collects logs does not count. *)
Definition PodExists (w : W) (name : string) : bool :=
  match Pods_Get w name with
  | Some pod => negb (bool_decide (kp_Labels pod !! "app" = Some "cbopinfo"))
  | None => false
  end.

Definition detached_since (pvc : PVC) : option string := annotations pvc !! VolumeDetachedAnnotation.

Definition getDetachedLogPVCs (w : W) : list PVC := filter (λ pvc, is_Some (detached_since pvc)) (LogPVCList w).

(** ** The annotations *)
Definition updateDetachedAnnotation (pvc : PVC) : M W () :=
  match pvc_Labels pvc !! LabelNode with
  | None => throw ErrResourceAttributeRequired
  | Some podName =>
      w ← get;
      match PodExists w podName, detached_since pvc with
      | true, None | false, Some _ => mret tt
      | true, Some _ => update_shared (with_annotations pvc (delete VolumeDetachedAnnotation (annotations pvc)))
      | false, None =>
          update_shared (with_annotations pvc
            (<[VolumeDetachedAnnotation := time_Format (W := W) (time_now w)]> (annotations pvc)))
      end
  end.

Definition updateDetachedAnnotations : M W () :=
  w ← get; for_each updateDetachedAnnotation (LogPVCList w).

(** ** The deletions *)
Definition delete_timed_out (logRetentionTime : Z) (pvc : PVC) : M W () :=
  detachedTime ← lift (time_ParseDate (default "" (detached_since pvc)));
  w ← get;
  if bool_decide (detachedTime + logRetentionTime < time_now w) then api_DeletePVC (pvc_Name pvc) else mret tt.

Definition deleteTimedOutVolumes (spec : LoggingSpec) : M W () :=
  if bool_decide (LogRetentionTime spec = "") then mret tt
  else
    logRetentionTime ← lift (time_ParseDuration (LogRetentionTime spec));
    if bool_decide (logRetentionTime = 0) then mret tt
    else w ← get; for_each (delete_timed_out logRetentionTime) (getDetachedLogPVCs w).

(** The dates are compared as strings. *)
Definition detached_before (a b : PVC) : bool := String.leb (default "" (detached_since a)) (default "" (detached_since b)).

(** A negative count would slice beyond the list. *)
Definition deleteOverCapacityVolumes (spec : LoggingSpec) : M W () :=
  let logRetentionCount := LogRetentionCount spec in
  if bool_decide (logRetentionCount = 0) then mret tt
  else
    w ← get;
    let pvcs := getDetachedLogPVCs w in
    let logCount := Z.of_nat (length pvcs) in
    if bool_decide (logCount ≤ logRetentionCount) then mret tt
    else if bool_decide (logRetentionCount < 0) then lift Panic
    else for_each (λ pvc, api_DeletePVC (pvc_Name pvc))
           (take (Z.to_nat (logCount - logRetentionCount)) (stable_sort detached_before pvcs)).

Definition cleanPeriodic (spec : LoggingSpec) : M W () :=
  updateDetachedAnnotations;;
  deleteTimedOutVolumes spec;;
  deleteOverCapacityVolumes spec.
End janitor.
