(* ===== verification/Autoscale.v ===== *)
(** * pkg/cluster/autoscalereconcile.go: autoscaled server classes

    A [CouchbaseAutoscaler] per server class carries the size a horizontal pod
    autoscaler asks for; a size of zero means maintenance, in which nothing is asked.
    The sizes asked for are written to the specification, one class at a time
    ([reconcileAutoscalers]). *)

From Stdlib Require Import Ascii.
From S2P Require Import Prelude Effects GoLib Regex Digests Version Api Member Persistence Status.
From S2P Require Import UpgradeOrder NodeStatus Pods Machine Rebalance Baseline Failover Unreconcilable.
Local Open Scope Z_scope.

Record AutoscalerSpec := mkAutoscalerSpec {
  as_Servers : string;
  as_Size : Z;
}.

Record AutoscalerStatus := mkAutoscalerStatus {
  ast_LabelSelector : string;
  ast_Size : Z;
  ast_Conditions : list Condition;
}.

Record Autoscaler := mkAutoscaler {
  as_Name : string;
  as_Spec : AutoscalerSpec;
  as_Status : AutoscalerStatus;
}.

#[export] Instance Condition_eq_dec : EqDecision Condition.
Proof. solve_decision. Defined.
#[export] Instance AutoscalerSpec_eq_dec : EqDecision AutoscalerSpec.
Proof. solve_decision. Defined.
#[export] Instance AutoscalerStatus_eq_dec : EqDecision AutoscalerStatus.
Proof. solve_decision. Defined.
#[export] Instance Autoscaler_eq_dec : EqDecision Autoscaler.
Proof. solve_decision. Defined.

Definition with_as_size (n : Z) (a : Autoscaler) : Autoscaler :=
  mkAutoscaler (as_Name a) (mkAutoscalerSpec (as_Servers (as_Spec a)) n) (as_Status a).
Definition with_as_spec (spec : AutoscalerSpec) (a : Autoscaler) : Autoscaler :=
  mkAutoscaler (as_Name a) spec (as_Status a).
Definition with_as_status (status : AutoscalerStatus) (a : Autoscaler) : Autoscaler :=
  mkAutoscaler (as_Name a) (as_Spec a) status.
Definition with_status_size (n : Z) (a : Autoscaler) : Autoscaler :=
  with_as_status (mkAutoscalerStatus (ast_LabelSelector (as_Status a)) n (ast_Conditions (as_Status a))) a.

(** A cluster object as the API returns it, in the parts the operator keeps it in. *)
Record StoredCluster := mkStored {
  sto_cluster : CouchbaseCluster;
  sto_networking : Networking;
  sto_settings : Settings;
  sto_UID : string;
}.

(** The cache, the API, and the selector of the pods of a class as a string. *)
Class AutoscalePlatform (W : Type) := {
  Autoscalers_Get : W → string → option Autoscaler;
  Autoscalers_List : W → list Autoscaler;
  cache_SetAutoscalerSpec : string → AutoscalerSpec → W → W;
  api_GetAutoscaler : string → M W Autoscaler;
  api_CreateAutoscaler : Autoscaler → M W Autoscaler;
  api_UpdateAutoscaler : Autoscaler → M W Autoscaler;
  api_UpdateAutoscalerStatus : Autoscaler → M W Autoscaler;
  api_DeleteAutoscaler : string → M W ();
  (* sets the size of the class at the index, if it still has the name *)
  api_PatchServerSize : nat → string → Z → M W StoredCluster;
  label_selector : CouchbaseCluster → string → string;
}.

(** ** Names

    Runs of other characters than letters and digits become a dash. *)
Definition is_alnum (x : ascii) : bool :=
  in_range 65 90 x || in_range 97 122 x || in_range 48 57 x.

Fixpoint dash_runs (in_run : bool) (s : string) : string :=
  match s with
  | "" => ""
  | String x s =>
      if is_alnum x then String x (dash_runs false s)
      else if in_run then dash_runs true s else String "-"%char (dash_runs true s)
  end.

Definition AutoscalerName (sc : ServerConfig) (cluster : string) : string :=
  dash_runs false (sc_Name sc) +:+ "." +:+ cluster.

Section autoscale.
Context `{UpgradePlatform W} `{!AutoscalePlatform W} `{PersistentStorage W} `{Environment} `{MapRange}.
Abbreviation R := (RS W).

(** ** Autoscalers *)
Definition CreateCouchbaseAutoscaler (cc : CouchbaseCluster) (config : ServerConfig) : M W Autoscaler :=
  autoscaler ← api_CreateAutoscaler
    (mkAutoscaler (AutoscalerName config (Api.Name cc)) (mkAutoscalerSpec (sc_Name config) (sc_Size config))
       (mkAutoscalerStatus "" 0 []));
  api_UpdateAutoscalerStatus
    (with_as_status (mkAutoscalerStatus (label_selector cc (sc_Name config)) (sc_Size config)
       (ast_Conditions (as_Status autoscaler))) autoscaler).

(** The cached object gets the new specification, not the status. *)
Definition UpdateAutoscaler (requested : Autoscaler) : M W Autoscaler :=
  w ← get;
  match Autoscalers_Get w (as_Name requested) with
  | None => throw ErrResourceRequired
  | Some autoscaler =>
      requested ← (if bool_decide (as_Spec autoscaler = as_Spec requested) then mret requested
                   else
                     updated ← api_UpdateAutoscaler requested;
                     modify (cache_SetAutoscalerSpec (as_Name requested) (as_Spec updated));;
                     mret updated);
      let autoscaler := with_as_spec (as_Spec requested) autoscaler in
      if bool_decide (as_Status autoscaler = as_Status requested) then mret autoscaler
      else api_UpdateAutoscalerStatus (with_as_status (as_Status requested) autoscaler)
  end.

(** ** Maintenance *)
Definition getAutoscalersToDisable (w : W) : list Autoscaler :=
  filter (λ a, as_Size (as_Spec a) ≠ 0) (Autoscalers_List w).

Definition disable_one (autoscaler : Autoscaler) : M W () :=
  requestedAutoscaler ← api_GetAutoscaler (as_Name autoscaler);
  UpdateAutoscaler (with_as_size 0 requestedAutoscaler);;
  mret tt.

Definition applyAutoscaleMaintenanceMode (autoscalers : list Autoscaler) : M W () :=
  for_each disable_one autoscalers.

Definition startAutoscalingMaintenanceMode : M R () :=
  w ← gets world;
  let requestedAutoscalers := getAutoscalersToDisable w in
  if bool_decide (requestedAutoscalers = []) then mret tt
  else
    set_status_now (λ now, SetAutoscalerUnreadyCondition now "autoscaling is paused");;
    on_world (applyAutoscaleMaintenanceMode requestedAutoscalers).

Definition restore_one (spec : ClusterSpec) (autoscaler : Autoscaler) : M W () :=
  match GetServerConfigByName spec (as_Servers (as_Spec autoscaler)) with
  | None => throw ErrResourceRequired
  | Some config =>
      if bool_decide (as_Size (as_Spec autoscaler) = 0)
      then UpdateAutoscaler (with_as_size (sc_Size config) autoscaler);; mret tt
      else mret tt
  end.

Definition endAutoscalingMaintenanceMode : M R () :=
  c ← gets cl; w ← gets world;
  on_world (for_each (restore_one (Spec (c_cluster c))) (Autoscalers_List w)).

Definition applyAutoscaleStabilization : M R () :=
  c ← gets cl;
  if HasCondition (c_cluster c) ClusterConditionAutoscaleReady then startAutoscalingMaintenanceMode else mret tt.

(** ** Readiness

    A paused cluster becomes ready once it is balanced, and is taken for ready in
    the round after, when the stabilisation period is over. *)
Definition stabilising (now : Z) (cond : ClusterCondition) (period : Z) : result bool :=
  match time_ParseRFC3339 (W := W) (cc_LastTransitionTime cond) with
  | Ok start => Ok (bool_decide (now < start + period))
  | Err e => Err e
  | Panic => Panic
  end.

Definition autoscalingReady (pos : list nat) : M R bool :=
  c ← gets cl; w ← gets world;
  match GetCondition (Status (c_cluster c)) ClusterConditionAutoscaleReady with
  | None => set_status_now (λ now, SetAutoscalerReadyCondition now "cluster is ready for autoscaling");; mret true
  | Some cond =>
      match cc_Status cond with
      | ConditionFalse =>
          status ← attempt (GetStatus pos);
          match status with
          | inl status =>
              (if negb (Balancing status) && Balanced status
               then set_status_now (λ now, SetAutoscalerReadyCondition now "cluster preparing for autoscaling")
               else mret tt);;
              mret false
          | inr _ => mret false
          end
      | ConditionTrue =>
          match AutoscaleStabilizationPeriod (c_settings c) with
          | None => mret true
          | Some period =>
              waits ← attempt (lift (stabilising (time_now w) cond period));
              match waits with
              | inr _ => mret false
              | inl true =>
                  ignore_error (on_world (applyAutoscaleMaintenanceMode (getAutoscalersToDisable w)));; mret false
              | inl false => mret true
              end
          end
      | ConditionUnknown =>
          modify (set_cl (set_status (ClearCondition ClusterConditionAutoscaleReady)));; mret false
      end
  end.

(** ** The sizes *)
Definition set_stored (stored : StoredCluster) (c : Cluster) : Cluster :=
  mkCluster (sto_cluster stored) (sto_networking stored) (sto_settings stored) (sto_UID stored)
    (c_members c) (c_callableMembers c) (c_recoveryTime c) (c_lastRecoveryAttemptTime c)
    (c_lastSuccessfulRecoveryTime c) (c_learned c).

(** The object the API returns takes the place of the one in memory, status included. *)
Definition applyAutoscaleSize (configName : string) (requestedSize : Z) : M R () :=
  c ← gets cl;
  match list_find (λ sc, sc_Name sc = configName) (cs_Servers (Spec (c_cluster c))) with
  | None => throw ErrResourceAttributeRequired
  | Some (index, _) =>
      updatedCluster ← perform (SizeAsked configName requestedSize)
        (api_PatchServerSize index configName requestedSize);
      modify (set_cl (set_stored updatedCluster))
  end.

Definition configPods (c : Cluster) (w : W) (config : ServerConfig) : Z :=
  Z.of_nat (length (filter (λ pod, default "" (kp_Labels pod !! LabelNodeConf) = sc_Name config) (getClusterPods c w))).

Definition updateAutoscalerStatusSize (autoscaler : Autoscaler) (config : ServerConfig) : M R Autoscaler :=
  c ← gets cl; w ← gets world;
  let n := configPods c w config in
  if bool_decide (n = ast_Size (as_Status autoscaler)) then mret autoscaler
  else
    requestedAutoscaler ← on_world (api_GetAutoscaler (as_Name autoscaler));
    on_world (UpdateAutoscaler (with_status_size n requestedAutoscaler)).

Definition create_missing (acc : list string) (config : ServerConfig) : M R (list string) :=
  if negb (sc_AutoscaleEnabled config) then mret acc
  else
    c ← gets cl; w ← gets world;
    match Autoscalers_Get w (AutoscalerName config (Api.Name (c_cluster c))) with
    | Some _ => mret (acc ++ [sc_Name config])
    | None =>
        on_world (CreateCouchbaseAutoscaler (c_cluster c) config);;
        mret (acc ++ [sc_Name config])
    end.

Definition keep_requested (requested acc : list string) (autoscaler : Autoscaler) : M R (list string) :=
  if (HasItem (as_Servers (as_Spec autoscaler)) requested).2 then mret (acc ++ [as_Name autoscaler])
  else on_world (api_DeleteAutoscaler (as_Name autoscaler));; mret acc.

(** An autoscaler for every class that wants one, and no others; their names, sorted. *)
Definition updateRequestedAutoscalers : M R (list string) :=
  c ← gets cl;
  requestedAutoscalers ← for_fold create_missing [] (cs_Servers (Spec (c_cluster c)));
  w ← gets world;
  actualAutoscalers ← for_fold (keep_requested requestedAutoscalers) [] (Autoscalers_List w);
  let actualAutoscalers := sort_Strings actualAutoscalers in
  modify (set_cl (set_status (set_Autoscalers actualAutoscalers)));;
  mret actualAutoscalers.

(** Whether the size of the class was changed. *)
Definition scale_class (autoscalerName : string) : M R bool :=
  w ← gets world;
  match Autoscalers_Get w autoscalerName with
  | None => throw ErrResourceRequired
  | Some autoscaler =>
      c ← gets cl;
      match GetServerConfigByName (Spec (c_cluster c)) (as_Servers (as_Spec autoscaler)) with
      | None => throw ErrResourceRequired
      | Some config =>
          autoscaler ← updateAutoscalerStatusSize autoscaler config;
          if bool_decide (sc_Size config = as_Size (as_Spec autoscaler)) then mret false
          else
            applyAutoscaleSize (sc_Name config) (as_Size (as_Spec autoscaler));;
            c ← gets cl;
            (if bool_decide (AutoscaleStabilizationPeriod (c_settings c) = None) then mret tt
             else applyAutoscaleStabilization);;
            mret true
      end
  end.

Definition reconcileAutoscalers (pos : list nat) : M R () :=
  c ← gets cl; w ← gets world;
  if bool_decide (getPendingInitPods c w ≠ []) then mret tt
  else
    autoscalers ← updateRequestedAutoscalers;
    if bool_decide (autoscalers = []) then mret tt
    else
      ready ← autoscalingReady pos;
      if negb ready then mret tt
      else
        endAutoscalingMaintenanceMode;;
        for_until scale_class autoscalers;;
        mret tt.
End autoscale.
