(* ===== verification/Upgrading.v ===== *)
(** * pkg/cluster/nodereconcile.go, upgrade.go: the handlers that replace nodes

    The upgrade step ([handleUpgradeNode]) with its ways of changing a pod: in place
    ([handleInPlaceUpgrade]), by a swap ([swapRebalanceMembers]) and, when rolling
    back, without spare capacity ([tryRollbackWithoutSpareCapacity]); moves, changes
    of services and host names, bucket migrations and volume expansion, which use the
    same ways; and what is recorded of an upgrade ([reportUpgrade] and others). *)

From Stdlib Require Import Ascii.
From S2P Require Import Prelude Effects GoLib Regex Digests Version UpgradePath Api Member Persistence Status.
From S2P Require Import ServerGroups Scheduler UpgradeOrder RollingUpgrade NodeStatus Pods Volumes Machine Rebalance.
From S2P Require Import Baseline PreviousVersion Claims Creation Recovery PendingInit Failover Scaling.
Local Open Scope Z_scope.

Definition BucketTypeMemcached : string := "memcached".
Definition rollbackPodDeleteTimeoutSeconds : Z := 120.

(** *** Changes of the specification in memory *)
Definition with_upgrade (deprecated : option string) (u : option UpgradeSpec) (s : ClusterSpec) : ClusterSpec := {|
  cs_Image := cs_Image s; cs_EnvImagePrecedence := cs_EnvImagePrecedence s; cs_Servers := cs_Servers s;
  cs_ServerGroups := cs_ServerGroups s; cs_ServerGroupsLabelOverride := cs_ServerGroupsLabelOverride s;
  cs_ShuffleServerGroups := cs_ShuffleServerGroups s; cs_RecoveryPolicy := cs_RecoveryPolicy s;
  cs_UpgradeProcess := deprecated; cs_UpgradeStrategy := cs_UpgradeStrategy s;
  cs_RollingUpgrade := cs_RollingUpgrade s; cs_Upgrade := u;
  cs_EnableOnlineVolumeExpansion := cs_EnableOnlineVolumeExpansion s;
  cs_UnmanagedClusterHost := cs_UnmanagedClusterHost s;
  cs_Paused := cs_Paused s; cs_Hibernate := cs_Hibernate s |}.

Definition with_process (process : string) (u : UpgradeSpec) : UpgradeSpec := {|
  us_UpgradeProcess := process; us_UpgradeStrategy := us_UpgradeStrategy u;
  us_StabilizationPeriod := us_StabilizationPeriod u; us_RollingUpgrade := us_RollingUpgrade u;
  us_PreviousVersionPodCount := us_PreviousVersionPodCount u; us_UpgradeOrderType := us_UpgradeOrderType u;
  us_UpgradeOrder := us_UpgradeOrder u;
  us_SwapRebalanceIndexServiceUpgrades := us_SwapRebalanceIndexServiceUpgrades u;
  us_RollbackMethod := us_RollbackMethod u |}.

Definition set_spec (f : ClusterSpec → ClusterSpec) (c : Cluster) : Cluster :=
  let cc := c_cluster c in
  mkCluster
    {| Namespace := Namespace cc; Api.Name := Api.Name cc; Spec := f (Spec cc); Status := Status cc |}
    (c_networking c) (c_settings c) (c_UID c) (c_members c) (c_callableMembers c) (c_recoveryTime c)
    (c_lastRecoveryAttemptTime c) (c_lastSuccessfulRecoveryTime c) (c_learned c).

Section upgrading.
Context `{UpgradePlatform W} `{!ClaimPlatform W} `{PersistentStorage W} `{Environment} `{SpecJSON} `{MapRange}
  `{Scheduler Sc}.
(** Parts that are not modelled: the buckets the resources ask for; and modelled
    apart: adding the pods of server classes. *)
Context (gatherBuckets : Cluster → M W (list Bucket)).
Context (addMembers : list nat → list ServerConfig → M (RS W * Sc) (list (Member * option error))).
Abbreviation R := (RS W).
Abbreviation FS := (RS W * Sc)%type.

(** ** What the choice of candidates reads

    Pod generation and comparison on the world as it is. *)
Definition pvc_state (p : option VolumeState) : option PersistentVolumeClaimState :=
  (λ p, mkPVCState (volumes_need_update p)) <$> p.

Definition world_specs (c : Cluster) (w : W) : PodSpecs :=
  let volumes m config : result (option VolumeState) :=
    Claims.GetPodVolumes (c_learned c) (c_cluster c) w m config in {|
  UpgradeOrder.GetPodVolumes m config :=
    match volumes m config with Ok p => Ok (pvc_state p) | Err e => Err e | Panic => Panic end;
  compareSpecs m pod config group _ :=
    match volumes m config with
    | Ok p => compare_pods w m pod config group p
    | Err e => Err e
    | Panic => Panic
    end |}.

Definition cng_view (s : R) : CNGCluster :=
  mkCNGCluster (net_CloudNativeGateway (c_networking (cl s))) (cng_pod <$> getClusterPods (cl s) (world s))
    (c_members (cl s)).

(** [fuel] bounds the search of the scheduler. *)
Definition getRescheduleMoves (pos : list nat) (fuel : nat) (c : Cluster) (sc : Sc) : result (list Move) :=
  if negb (ServerGroupsEnabled (Spec (c_cluster c))) then Ok []
  else if RescheduleDifferentServerGroup (c_settings c) then RescheduleUnschedulableOnly pos sc
  else match Reschedule pos fuel sc with Some moves => moves | None => Err ErrNoPolls end.

(** The stored version and the orchestrator are read before, which changes nothing. *)
Definition view_now : M FS UpgradeCluster :=
  version ← on_rs (attempt (on_world (ps_Get VersionKey)));
  orchestrator ← on_rs query_orchestrator;
  s ← on_rs get;
  mret (upgrade_view (cl s) (world s) (match version with inl v => Ok v | inr e => Err e end) orchestrator).

Definition detect_changes (pos : list nat) (fuel : nat) : M FS ChangeSet :=
  u ← view_now;
  s ← on_rs get; sc ← on_scheduler get;
  lift (let specs : PodSpecs := world_specs (cl s) (world s) in
        detectChangeSets (0%nat :: pos) u
          (getRescheduleMoves (1%nat :: pos) fuel (cl s) sc)).

Definition upgrade_candidates (pos : list nat) (fuel : nat) :
    M FS (list Member * gmap string Member * gmap string Member) :=
  u ← view_now;
  s ← on_rs get; sc ← on_scheduler get;
  lift (let specs : PodSpecs := world_specs (cl s) (world s) in
        getUpgradeCandidates (c_learned (cl s)) (0%nat :: pos) u
          (getRescheduleMoves (1%nat :: pos) fuel (cl s) sc)).

(** ** What is recorded of an upgrade *)

(** An upgrade that begins is stored with its time; then, as at every report, the
    condition says how far it is.  A time that does not print as expected ends the
    report without an error. *)
Definition begin_upgrade : M R bool :=
  on_world (ps_Update Upgrading UpgradeActive);;
  w ← gets world;
  match strings_Cut (time_String (time_now w)) " m" with
  | (startTime, _, true) => on_world (ps_Upsert UpgradeTime startTime);; mret true
  | (_, _, false) => mret false
  end.

Definition reportUpgrade (TargetCount TotalCount : Z) : M R () :=
  upgrading ← on_world isUpgrading;
  begun ← (if upgrading : bool then mret true else begin_upgrade);
  if begun : bool then
    set_status_now (λ now, SetUpgradingCondition now TargetCount TotalCount);;
    updateCRStatus
  else mret tt.

Definition reportMixedMode (pos : list nat) : M R () :=
  c ← gets cl; w ← gets world;
  let u := members_view c w in
  if bool_decide (GetLowestKnownMemberVersion (c_learned c) (0%nat :: pos) u ≠
                  GetHighestKnownMemberVersion (c_learned c) (1%nat :: pos) u)
  then set_status_now SetMixedModeCondition
  else modify (set_cl (set_status (ClearCondition ClusterConditionMixedMode))).

(** [reportUpgradeComplete]; [state] is what the cycle started with.  The metric of the
    duration is dropped, not the errors on the way to it. *)
Definition ejecting_members (c : Cluster) (w : W) : list string :=
  filter (λ name, from_option IsPodPendingUpgradeBeforeEjection false (Pods_Get w name) = true)
    (map_to_list (c_members c)).*1.

Definition retry_update : M R () := λ s,
  Retry (retry_ticks (world s)) (λ s, set_world (retry_tick (world s)) s) updateCRStatus s.

Definition finish_upgrade (pos : list nat) : M R () :=
  c ← gets cl; w ← gets world;
  setClusterVersion (GetLowestKnownMemberVersion (c_learned c) pos (members_view c w));;
  on_world (ps_Update Upgrading UpgradeInactive);;
  modify (set_cl (set_status (ClearCondition ClusterConditionUpgrading)));;
  modify (set_cl (set_status (ClearCondition ClusterConditionWaitingBetweenUpgrades)));;
  upgradeStartTime ← on_world (ps_Get UpgradeTime);
  _ ← lift (time_ParseStamp (W := W) upgradeStartTime);
  retry_update.

Definition reportUpgradeComplete (pos : list nat) (fuel : nat) (state : option MemberState) : M FS () :=
  upgrading ← on_rs (on_world isUpgrading);
  s ← on_rs get;
  if negb upgrading then mret tt
  else if bool_decide (getPendingInitPods (cl s) (world s) ≠ []) || negb (settled state) then mret tt
  else if bool_decide (ejecting_members (cl s) (world s) ≠ []) then mret tt
  else
    candidates ← upgrade_candidates (0%nat :: pos) fuel;
    if bool_decide (candidates.1.1 ≠ []) then mret tt else on_rs (finish_upgrade (1%nat :: pos)).

(** ** What stands in the way of an upgrade *)
Definition hasMemcachedBuckets : M R bool :=
  c ← gets cl;
  buckets ← on_world (cb_ListBucketStatuses (ToMembers (readyMembers c)));
  mret (existsb (λ bucket, bool_decide (bs_BucketType bucket = BucketTypeMemcached)) buckets).

Definition getUpgradeBlockers : M R (list string) :=
  startVersion ← clusterVersion;
  c ← gets cl;
  targetVersion ← lift (CouchbaseImageVersion (c_learned c) (CouchbaseImage (Spec (c_cluster c))));
  crosses ← lift (UpgradeCrosses (c_learned c) startVersion targetVersion MemcachedBucketsRemovedVersion);
  if negb crosses then mret []
  else
    hasMemcached ← (if HasCondition (c_cluster c) ClusterConditionHibernating
                    then mret (HibernatedWithMemcached (c_cluster c)) else hasMemcachedBuckets);
    mret (if hasMemcached : bool then ["cluster has memcached buckets, please remove them before upgrading"] else []).

(** [CouchbaseCluster.UpgradeWaitingForStabilizationPeriod] *)
Definition UpgradeWaitingForStabilizationPeriod (cc : CouchbaseCluster) (now : Z) : bool :=
  match cs_Upgrade (Spec cc) ≫= us_StabilizationPeriod with
  | None => false
  | Some period =>
      match GetCondition (Status cc) ClusterConditionWaitingBetweenUpgrades with
      | None => false
      | Some cond =>
          if bool_decide (cc_Status cond = ConditionFalse) then false
          else match time_ParseRFC3339 (W := W) (cc_LastTransitionTime cond) with
               | Ok t => bool_decide (now ≤ t + period)
               | _ => false
               end
      end
  end.

(** Whether the upgrade is to wait. *)
Definition handleUpgradeStabilization (pos : list nat) : M R bool :=
  r ← gets fsm; c ← gets cl;
  (if negb (Empty (stabilizingMembers r)) &&
      negb (HasCondition (c_cluster c) ClusterConditionWaitingBetweenUpgrades) &&
      bool_decide (is_Some (cs_Upgrade (Spec (c_cluster c)) ≫= us_StabilizationPeriod))
   then set_status_now SetWaitingBetweenUpgrades else mret tt);;
  c ← gets cl; w ← gets world;
  if UpgradeWaitingForStabilizationPeriod (c_cluster c) (time_now w) ||
     HasCondition (c_cluster c) ClusterConditionExpandingVolume
  then modify (set_cl (set_status (ClearCondition ClusterConditionUpgrading)));; mret true
  else
    modify (set_cl (set_status (ClearCondition ClusterConditionWaitingBetweenUpgrades)));;
    for_each (λ e : string * Member, ignore_error (on_world (ClearPodUpgradeTracking (Name e.2))))
      (range pos (stabilizingMembers r));;
    mret false.

(** ** Swapping pods

    The candidates leave the scheduler, a pod is added for each on its image, and the
    old pods are marked: they leave in a later rebalance. *)
Fixpoint prepare_swap (pos : list nat) (l : list Member) : M FS (list ServerConfig) :=
  match l with
  | [] => mret []
  | candidate :: l =>
      on_scheduler (Upgrade (length l :: pos) (Config candidate) (Name candidate));;
      c ← on_rs (gets cl);
      match GetServerConfigByName (Spec (c_cluster c)) (Config candidate) with
      | None => throw ErrResourceAttributeRequired
      | Some class =>
          toCreate ← prepare_swap pos l;
          mret (with_image class (GetImage candidate) :: toCreate)
      end
  end.

(** One replacement: it carries the annotation before the old pod is marked, or it is
    deleted.  The value is the error, if any. *)
Definition setup_swap (old : Member) (new : Member) : M R (option error) :=
  tracked ← attempt (on_world (SetPodUpgradeTracking (Name new) SwapRebalance));
  setup ← match tracked with
          | inl _ => attempt (perform (EjectionMarked (Name old)) (SetPodPendingUpgradeBeforeEjection (Name old)))
          | inr e => mret (inr e)
          end;
  match setup with
  | inl _ => mret None
  | inr _ => ignore_error (on_world (api_DeletePod (Name new)));; mret (Some ErrSwapRebalanceSetupFailed)
  end.

Definition note_error (acc e : option error) : option error := match acc with Some _ => acc | None => e end.

(** The loop over the results; the first of the errors joined stands for them all. *)
Fixpoint finish_swap (candidates : list Member) (acc : option error) (l : list (Member * option error)) :
    M R (option error) :=
  match l with
  | [] => mret acc
  | (_, Some e) :: l => finish_swap (drop 1 candidates) (note_error acc (Some e)) l
  | (new, None) :: l =>
      match candidates with
      | [] => lift Panic
      | old :: candidates => e ← setup_swap old new; finish_swap candidates (note_error acc e) l
      end
  end.

Definition swapRebalanceMembers (pos : list nat) (ms : MemberSet) : M FS () :=
  if Empty ms then mret tt
  else
    let candidates := (range (0%nat :: pos) ms).*2 in
    toCreate ← prepare_swap (1%nat :: pos) candidates;
    on_rs (modify (log_effect (ReplacementsAsked (Name <$> candidates))));;
    results ← addMembers (2%nat :: pos) toCreate;
    failure ← on_rs (finish_swap candidates None results);
    match failure with
    | None => on_rs (abort "swap rebalance pods created, waiting for async initialization")
    | Some e => throw e
    end.

(** ** In place *)
Definition multipleInPlaceUpgradesSupported (candidates : MemberSet) : M R bool :=
  c ← gets cl;
  match cs_Upgrade (Spec (c_cluster c)) with
  | None => mret false
  | Some u =>
      if bool_decide (us_UpgradeOrderType u ≠ UpgradeOrderTypeServerGroups) then mret false
      else if bool_decide (Z.quot (Z.of_nat (size (c_callableMembers c))) 2 ≤ Z.of_nat (size candidates))
      then mret false
      else
        buckets ← on_world (gatherBuckets c);
        mret (forallb (λ bucket, bool_decide (Z.of_nat (size candidates) < BucketReplicas bucket)) buckets)
  end.

(** A claim that is in the cache is changed there. *)
Definition stamp_volume (candidate : Member) (e : entry) : M W () :=
  match pvc_Annotations e.2 with
  | None => lift Panic
  | Some a =>
      let a := <[PVCImageAnnotation := GetImage candidate]> a in
      let a := if VersionKnown (MemberVersion candidate)
               then <[CouchbaseVersionAnnotationKey := MemberVersion candidate]> a else a in
      let volume := with_annotations e.2 a in
      if bool_decide (e.1 = None) then update_shared volume else api_UpdatePVC volume
  end.

Definition in_place_one (pos : list nat) (candidate : Member) : M FS () :=
  on_scheduler (Upgrade pos (Config candidate) (Name candidate));;
  c ← on_rs (gets cl); w ← on_rs (gets world);
  match GetServerConfigByName (Spec (c_cluster c)) (Config candidate) with
  | None => mret tt
  | Some serverClass =>
      pvcState ← lift (Claims.GetPodVolumes (c_learned c) (c_cluster c) w candidate serverClass);
      on_rs (on_world (for_each (stamp_volume candidate) (from_option vs_pvcs [] pvcState)));;
      failedOver ← (if bool_decide (1 < size (c_members c))%nat
                    then on_rs (failoverNodeForInPlaceUpgrade candidate) else mret false);
      on_rs (recreateNode candidate (failedOver && ConfigHasStatefulService (Spec (c_cluster c)) (Config candidate)))
  end.

Definition handleInPlaceUpgrade (pos : list nat) (candidates : MemberSet) : M FS () :=
  c ← on_rs (gets cl);
  on_rs (reportUpgrade (Z.of_nat (size (c_members c)) - Z.of_nat (size candidates))
           (Z.of_nat (size (c_members c))));;
  many ← on_rs (multipleInPlaceUpgradesSupported candidates);
  let l := (range (0%nat :: pos) candidates).*2 in
  for_each (in_place_one (1%nat :: pos)) (if many : bool then l else take 1 l);;
  on_rs (abort "in-place upgrade pods recreated, waiting for async initialization").

(** In place where [inPlace] is not empty, the others by a swap. *)
Definition split_upgrade (pos : list nat) (inPlace swap : MemberSet) : M FS () :=
  (if bool_decide (0 < Size inPlace)%nat then handleInPlaceUpgrade (0%nat :: pos) inPlace else mret tt);;
  swapRebalanceMembers (1%nat :: pos) swap.

(** ** Rolling back without spare capacity *)
Definition roll_back_one (method : string) (m : Member) : M R () :=
  if bool_decide (method = RollbackMethodConstrainedFailover) then
    failoverNodeForInPlaceUpgrade m;;
    removePod (Name m) true;;
    on_world (api_WaitForDeletePod (Name m));;
    modify (set_cl (λ c, set_members (c_members c) (Remove (Name m) (c_callableMembers c)) c));;
    removeMemberNoEject m
  else
    perform (EjectionMarked (Name m)) (SetPodPendingUpgradeBeforeEjection (Name m));;
    removeMemberUser m.

(** How many were removed: no more than [batch]. *)
Fixpoint roll_back (pos : list nat) (method : string) (batch removed : Z) (l : list Member) : M FS Z :=
  match l with
  | [] => mret removed
  | candidate :: l =>
      if bool_decide (removed = batch) then mret removed
      else
        c ← on_rs (gets cl);
        match c_members c !! Name candidate with
        | None => roll_back pos method batch removed l
        | Some member =>
            on_scheduler (Upgrade (length l :: pos) (Config member) (Name member));;
            on_rs (roll_back_one method member);;
            roll_back pos method batch (removed + 1) l
        end
  end.

Definition set_holdAdditions (b : bool) (r : ReconcileMachine) : ReconcileMachine :=
  mkMachine (clusteredMembers r) (runningMembers r) (ejectMembers r) (stabilizingMembers r) (unclusteredMembers r)
    (pendingDNSMembers r) (pendingInitPods r) (needsRebalance r) (couchbase r) (preserveVolumes r) (abortReason r)
    (rebalanceRetries r) b.

Definition rollback_batch (method : string) (candidates : MemberSet) : M R Z :=
  c ← gets cl; r ← gets fsm;
  buckets ← attempt (on_world (cb_BucketReplicas (ToMembers (readyMembers c))));
  lift (rollbackBatchSize (c_cluster c) (clusteredMembers r) (c_callableMembers c)
          (match buckets with inl l => Ok l | inr e => Err e end) method (Z.of_nat (size candidates))).

(** Whether the step is done. *)
Definition tryRollbackWithoutSpareCapacity (pos : list nat) (candidates : MemberSet) : M FS bool :=
  r ← on_rs (gets fsm); c ← on_rs (gets cl);
  let method := rollbackMethod (c_cluster c) in
  if bool_decide (method = RollbackMethodSwapRebalance) then mret false
  else if negb (Empty (FailedNodes (couchbase r))) || negb (Empty (AddBackNodes (couchbase r))) then mret true
  else
    batch ← on_rs (rollback_batch method candidates);
    if bool_decide (batch = 0) then mret false
    else
      removed ← roll_back (0%nat :: pos) method batch 0 (range (1%nat :: pos) candidates).*2;
      if bool_decide (removed = 0) then mret false
      else
        on_rs (modify (set_fsm (set_holdAdditions (bool_decide (method = RollbackMethodConstrainedRebalanceOut)))));;
        mret true.

(** ** The upgrade step *)
Definition upgrade_unsettled (r : ReconcileMachine) : bool :=
  needsRebalance r || negb (Empty (PendingAddNodes (couchbase r))) || negb (Empty (pendingInitPods r)).

(** Nodes are still to be created; an unknown version ends the step as well. *)
Definition upgrade_held : M R bool :=
  version ← attempt clusterVersion;
  match version with
  | inr _ => mret true
  | inl currentVersion =>
      c ← gets cl; r ← gets fsm;
      match VersionAfter (c_learned c) currentVersion "7.6.0" with
      | Ok arbiterNodesSupported =>
          mret (CheckNodesToCreate (c_cluster c) (clusteredMembers r) arbiterNodesSupported)
      | _ => mret true
      end
  end.

(** The deprecated field is set, whichever field said so. *)
Definition deprecate_delta (s : ClusterSpec) : ClusterSpec := with_upgrade (Some InPlaceUpgrade) (cs_Upgrade s) s.

Definition is_rollback (pos : list nat) : M R bool :=
  version ← attempt (on_world (ps_Get VersionKey));
  c ← gets cl; w ← gets world;
  lift (isRollback (c_learned c) pos
    (upgrade_view c w (match version with inl v => Ok v | inr e => Err e end) (Err ErrInternalError))).

(** [tryInPlaceUpgrade] of [RollingUpgrade] plans; here the plan is carried out. *)
Definition carry_out (pos : list nat) (candidates : MemberSet) (plan : UpgradePlan) : M FS () :=
  match plan with
  | AllInPlace ms => handleInPlaceUpgrade (0%nat :: pos) ms
  | Split inPlace swap => split_upgrade (1%nat :: pos) inPlace swap
  | SwapAll => swapRebalanceMembers (2%nat :: pos) candidates
  end.

(** The chosen pods are upgraded. *)
Definition upgrade_pods (pos : list nat) (candidates : MemberSet) (zoneChange pvcChange : bool) : M FS () :=
  c ← on_rs (gets cl);
  on_rs (reportUpgrade (Z.of_nat (size (c_members c)) - Z.of_nat (size candidates))
           (Z.of_nat (size (c_members c))));;
  c ← on_rs (gets cl);
  (if bool_decide (GetUpgradeProcess (c_cluster c) = DeltaRecovery)
   then on_rs (modify (set_cl (set_spec deprecate_delta))) else mret tt);;
  targetVersion ← lift (CouchbaseImageVersion (c_learned c) (CouchbaseImage (Spec (c_cluster c))));
  rollback ← on_rs (is_rollback (0%nat :: pos));
  handled ← (if rollback : bool then tryRollbackWithoutSpareCapacity (1%nat :: pos) candidates else mret false);
  if handled : bool then mret tt
  else
    c ← on_rs (gets cl); w ← on_rs (gets world);
    if bool_decide (GetUpgradeProcess (c_cluster c) = InPlaceUpgrade) then
      carry_out (2%nat :: pos) candidates
        (tryInPlaceUpgrade (c_learned c) (3%nat :: pos) (c_cluster c) (c_members c) candidates zoneChange pvcChange
           targetVersion (isPodRecoverable (c_learned c) (c_cluster c) (PVCs_List w)))
    else swapRebalanceMembers (4%nat :: pos) candidates.

Definition handleUpgradeNode (pos : list nat) (fuel : nat) : M FS () :=
  r ← on_rs (gets fsm);
  if upgrade_unsettled r then mret tt
  else
    waiting ← on_rs (handleUpgradeStabilization (0%nat :: pos));
    if waiting : bool then mret tt
    else
      held ← on_rs upgrade_held;
      if held : bool then mret tt
      else
        blockers ← on_rs getUpgradeBlockers;
        if bool_decide (blockers ≠ []) then mret tt
        else
          found ← upgrade_candidates (1%nat :: pos) fuel;
          let '(orderedCandidates, zoneChanges, pvcChanges) := found in
          if bool_decide (orderedCandidates = []) then mret tt
          else
            s ← on_rs get;
            selected ← lift (selectUpgradeCandidatesIgnoringOrchestrator (2%nat :: pos) (c_cluster (cl s))
                               (cng_view s) orderedCandidates zoneChanges pvcChanges);
            let '(constrained, zoneChange, pvcChange) := selected in
            if Empty constrained then mret tt
            else upgrade_pods (3%nat :: pos) constrained zoneChange pvcChange.

(** ** Moves *)
Definition orchestrator_name : M R string :=
  c ← gets cl;
  info ← on_world (cb_GetTerseClusterInfo (ToMembers (readyMembers c)));
  mret (Orchestrator info).

(** The candidates one step may take. *)
Definition constrain (pos : list nat) (candidates : MemberSet) (orchestrator : string) : M R MemberSet :=
  s ← get;
  lift (selectUpgradeCandidates pos (c_cluster (cl s)) (cng_view s) candidates orchestrator).

Definition selectMoveCandidates (pos : list nat) : M R MemberSet :=
  c ← gets cl; w ← gets world;
  let candidates := needsMove (members_view c w) in
  if Empty candidates then mret candidates
  else orchestrator ← orchestrator_name; constrain pos candidates orchestrator.

(** Whether all can be moved in place; the ones to be swapped nevertheless, and the
    others, up to the first that cannot be moved in place. *)
Fixpoint split_moves (cc : CouchbaseCluster) (reschedulable : Member → bool) (index nonIndex : MemberSet)
    (l : list Member) : bool * MemberSet * MemberSet :=
  match l with
  | [] => (true, index, nonIndex)
  | candidate :: l =>
      if negb (reschedulable candidate) then (false, index, nonIndex)
      else if ShouldRevertCandidateToSwapRebalance cc candidate
      then split_moves cc reschedulable (Add candidate index) nonIndex l
      else split_moves cc reschedulable index (Add candidate nonIndex) l
  end.

(** Here the field that is read is set. *)
Definition move_in_place (s : ClusterSpec) : ClusterSpec :=
  match cs_Upgrade s with
  | Some u => with_upgrade (cs_UpgradeProcess s) (Some (with_process InPlaceUpgrade u)) s
  | None => with_upgrade (Some InPlaceUpgrade) None s
  end.

Definition move_pods (pos : list nat) (candidates : MemberSet) : M FS () :=
  c ← on_rs (gets cl); w ← on_rs (gets world);
  let '(canDoInPlace, index, nonIndex) :=
    split_moves (c_cluster c) (isPodReschedulable (c_learned c) (c_cluster c) (PVCs_List w)) ∅ ∅
      (range (0%nat :: pos) candidates).*2 in
  (if bool_decide (GetUpgradeProcess (c_cluster c) = DeltaRecovery)
   then on_rs (modify (set_cl (set_spec move_in_place))) else mret tt);;
  c ← on_rs (gets cl);
  if bool_decide (GetUpgradeProcess (c_cluster c) = InPlaceUpgrade) && canDoInPlace then
    if Empty index then handleInPlaceUpgrade (1%nat :: pos) candidates
    else split_upgrade (2%nat :: pos) nonIndex index
  else swapRebalanceMembers (3%nat :: pos) candidates.

Definition handleMoveNodes (pos : list nat) : M FS () :=
  r ← on_rs (gets fsm);
  if needsRebalance r then mret tt
  else
    candidates ← on_rs (selectMoveCandidates (0%nat :: pos));
    if Empty candidates then mret tt else move_pods (1%nat :: pos) candidates.

(** ** Host names and services *)
Definition wrong_hostname (required : bool) (m : Member) (pod : KPod) : bool :=
  if required then bool_decide (GetDNSName m ≠ kp_NodeName pod) else bool_decide (GetDNSName m = kp_NodeName pod).

Definition hostname_mismatch (required : bool) (w : W) (acc : MemberSet) (e : string * Member) : M R MemberSet :=
  match Pods_Get w (Name e.2) with
  | None => throw ErrPodNotFound
  | Some pod => mret (if wrong_hostname required e.2 pod then Add e.2 acc else acc)
  end.

Definition handlePodHostname (pos : list nat) : M FS () :=
  orchestrator ← on_rs orchestrator_name;
  s ← on_rs get;
  mismatched ← on_rs (for_fold (hostname_mismatch (hostNetwork (cl s)) (world s)) ∅
                        (range (0%nat :: pos) (clusteredMembers (fsm s))));
  constrained ← on_rs (constrain (1%nat :: pos) mismatched orchestrator);
  swapRebalanceMembers (2%nat :: pos) constrained.

(** The name a resource uses for a service of Couchbase's. *)
Definition service_name (service : string) : string :=
  if bool_decide (service = "kv") then "data"
  else if bool_decide (service = "n1ql") then "query"
  else if bool_decide (service = "fts") then "search"
  else if bool_decide (service = "cbas") then "analytics"
  else service.

Definition services_match (actual expected : list string) : bool :=
  bool_decide (sort_Strings (service_name <$> actual) = sort_Strings (filter (λ x, x ≠ "admin") expected)).

Definition service_mismatch (acc : MemberSet) (e : string * Member) : M R MemberSet :=
  c ← gets cl;
  match GetServerConfigByName (Spec (c_cluster c)) (Config e.2) with
  | None => mret acc
  | Some serverConfig =>
      services ← on_world (cb_NodeServices e.2);
      mret (if services_match services (sc_Services serverConfig) then acc else Add e.2 acc)
  end.

Definition getNodeServiceMismatchCandidates (pos : list nat) : M R MemberSet :=
  c ← gets cl;
  for_fold service_mismatch ∅ (range pos (readyMembers c)).

Definition clear_condition (type : ClusterConditionType) : M R () :=
  modify (set_cl (set_status (ClearCondition type))).

Definition handleServerServices (pos : list nat) : M FS () :=
  r ← on_rs (gets fsm);
  if needsRebalance r then mret tt
  else
    candidates ← on_rs (getNodeServiceMismatchCandidates (0%nat :: pos));
    if Empty candidates then on_rs (clear_condition ClusterConditionServicesMismatch)
    else
      orchestrator ← on_rs orchestrator_name;
      constrained ← on_rs (constrain (1%nat :: pos) candidates orchestrator);
      if Empty constrained then on_rs (clear_condition ClusterConditionServicesMismatch)
      else
        on_rs (set_status_now SetServicesMismatchCondition);;
        swapRebalanceMembers (2%nat :: pos) constrained.

(** ** Volumes that grow *)

(** Whether the handler is done with one volume. *)
Definition expand_volume (p : VolumeState) (e : entry) : M R bool :=
  let name := pvc_Name e.2 in
  if IsResizeFailed p name then clear_condition ClusterConditionExpandingVolume;; mret true
  else if IsExpanding p name then mret true
  else if IsUpdated p name then
    on_world (update_claim p name);;
    set_status_now SetExpandingVolumeCondition;;
    mret true
  else mret false.

Definition expand_member (skip : MemberSet) (name : string) : M R bool :=
  c ← gets cl; w ← gets world;
  match c_members c !! name with
  | None => lift Panic
  | Some m =>
      match GetServerConfigByName (Spec (c_cluster c)) (Config m) with
      | None => mret false
      | Some serverClass =>
          if bool_decide (is_Some (skip !! Name m)) then mret false
          else
            pvcState ← lift (Claims.GetPodVolumes (c_learned c) (c_cluster c) w m serverClass);
            match pvcState with
            | None => mret false
            | Some p => for_until (expand_volume p) (vs_pvcs p)
            end
      end
  end.

(** The members a swap will replace, those whose only change is a volume aside. *)
Definition swapped_anyway (changes : ChangeSet) : MemberSet :=
  filter (λ e : string * Member, ChangedPVCs changes !! e.1 = None) (SpecOnly changes) ∪
  Merge (Merge ∅ (VersionOnly changes)) (Both changes).

Definition handleVolumeExpansion (pos : list nat) (fuel : nat) : M FS () :=
  c ← on_rs (gets cl);
  if negb (HasAnyVolumeExpansionEnabled (Spec (c_cluster c)) storage_spec) then mret tt
  else
    changes ← (if bool_decide (GetUpgradeProcess (c_cluster c) = SwapRebalance)
               then attempt (detect_changes pos fuel) else mret (inl empty_changes));
    let skip := match changes with inl changes => swapped_anyway changes | inr _ => ∅ end in
    stopped ← on_rs (for_until (expand_member skip) (Names (c_members c)));
    if stopped : bool then mret tt else on_rs (clear_condition ClusterConditionExpandingVolume).

(** ** Bucket migration *)
Record Migration := mkMigration {
  mg_candidates : MemberSet;
  cyclesNeeded : bool;
  hasStorageBackendOverrides : bool;
  hasEvictionOverrides : bool;
}.

Definition no_migration : Migration := mkMigration ∅ false false false.

(** A node of a bucket that is wanted as [spec] ([None] where buckets are not
    managed).  A node whose host is no member's is a nil member. *)
Definition migration_node (ms : MemberSet) (spec : option Bucket) (acc : Migration) (node : BucketNode) :
    result Migration :=
  let backend := bool_decide (bn_StorageBackend node ≠ "") in
  let eviction := bool_decide (bn_EvictionPolicy node ≠ "") in
  if negb backend && negb eviction then Ok acc
  else
    match ms !! GetMemberName (bn_HostName node) with
    | None => Panic
    | Some m =>
        let needed :=
          match spec with
          | None => true
          | Some spec =>
              (backend && bool_decide (bn_StorageBackend node ≠ BucketStorageBackend spec)) ||
              (eviction && bool_decide (bn_EvictionPolicy node ≠ bk_EvictionPolicy spec))
          end in
        Ok (mkMigration (Add m (mg_candidates acc)) (cyclesNeeded acc || needed)
              (hasStorageBackendOverrides acc || backend) (hasEvictionOverrides acc || eviction))
    end.

Fixpoint migration_nodes (ms : MemberSet) (spec : option Bucket) (acc : Migration) (l : list BucketNode) :
    result Migration :=
  match l with
  | [] => Ok acc
  | node :: l => acc ← migration_node ms spec acc node; migration_nodes ms spec acc l
  end.

(** The last resource of the name, or an empty one. *)
Definition bucket_spec (specs : list Bucket) (name : string) : Bucket :=
  default (mkBucket "" 0 "" "") (last (filter (λ b, BucketName b = name) specs)).

Fixpoint migration_buckets (ms : MemberSet) (spec_of : string → option Bucket) (acc : Migration)
    (l : list BucketStatus) : result Migration :=
  match l with
  | [] => Ok acc
  | bucket :: l =>
      acc ← migration_nodes ms (spec_of (bs_BucketName bucket)) acc (bs_Nodes bucket);
      migration_buckets ms spec_of acc l
  end.

Definition getBucketMigrationCandidates : M R Migration :=
  currentVersion ← clusterVersion;
  c ← gets cl;
  atleast76 ← lift (VersionAfter (c_learned c) currentVersion "7.6.0");
  if negb atleast76 then mret no_migration
  else
    bucketSpecs ← on_world (gatherBuckets c);
    c ← gets cl;
    clusterBuckets ← on_world (cb_ListBucketStatuses (ToMembers (readyMembers c)));
    lift (migration_buckets (c_members c)
            (λ name, if Managed (spec_Buckets (c_settings c)) then Some (bucket_spec bucketSpecs name) else None)
            no_migration clusterBuckets).

Definition failover_migrate_one (fullRecovery : bool) (ready : MemberSet) (candidate : Member) : M R () :=
  gracefullyFailoverNode candidate;;
  on_world (cb_SetRecoveryType (GetOTPNode candidate) (if fullRecovery then RecoveryTypeFull else RecoveryTypeDelta)
              (ToMembers ready));;
  modify (set_fsm (set_needsRebalance true)).

Definition failoverMigrateMembers (pos : list nat) (ms : MemberSet) (fullRecovery : bool) : M R () :=
  many ← (if bool_decide (1 < Size ms)%nat then multipleInPlaceUpgradesSupported ms else mret true);
  c ← gets cl;
  if Empty (readyMembers c) then throw ErrReconcileInhibited
  else
    for_each (failover_migrate_one fullRecovery (readyMembers c))
      (if many : bool then (range pos ms).*2 else take 1 (ToList ms)).

Definition set_or_clear (b : bool) (set : string → ClusterStatus → ClusterStatus) (type : ClusterConditionType) :
    M R () :=
  if b then set_status_now set else clear_condition type.

(** The condition is stored before a pod is replaced. *)
Definition announce_migration (driving : bool) : M R () :=
  c ← gets cl;
  if driving then
    if HasCondition (c_cluster c) ClusterConditionBucketMigration then mret tt
    else set_status_now SetBucketMigrationCondition;; updateCRStatus
  else clear_condition ClusterConditionBucketMigration.

Definition migration_batch (maxSwaps : Z) (candidates : MemberSet) (orchestrator : option Member) : MemberSet :=
  let explicitNumber := Z.min (Z.max 1 maxSwaps) (Z.of_nat (size candidates)) in
  let batch := NewMemberSet (omap (λ name, candidates !! name) (take (Z.to_nat explicitNumber) (Names candidates))) in
  match orchestrator with
  | Some o => if Empty batch then Add o batch else batch
  | None => batch
  end.

Definition migrate (pos : list nat) (m : Migration) (candidates : MemberSet) (orchestrator : option Member) :
    M FS () :=
  c ← on_rs (gets cl);
  let buckets := spec_Buckets (c_settings c) in
  on_rs (announce_migration
    (hasStorageBackendOverrides m && (Managed buckets || EnableBucketMigrationRoutines buckets)));;
  let cyclingNodes := EnableBucketMigrationRoutines buckets && cyclesNeeded m in
  on_rs (set_or_clear (hasEvictionOverrides m && cyclingNodes) SetBucketEvictionMigrationCondition
           ClusterConditionBucketEvictionMigration);;
  if negb cyclingNodes then mret tt
  else
    let batch := migration_batch (MaxConcurrentPodSwaps buckets) candidates orchestrator in
    if Empty batch then mret tt
    else
      let '(inPlace, fullRecovery) := migrationCycleStrategy (GetUpgradeProcess (c_cluster c))
        (hasStorageBackendOverrides m) (Z.of_nat (size (c_members c))) in
      if inPlace : bool then on_rs (failoverMigrateMembers (0%nat :: pos) batch fullRecovery)
      else swapRebalanceMembers (1%nat :: pos) batch.

(** Whether Couchbase says of its nodes what migrates; an unknown version ends it. *)
Definition reports_migration : M R bool :=
  version ← attempt clusterVersion;
  c ← gets cl;
  match version with
  | inr _ => mret false
  | inl currentVersion =>
      mret (match VersionAfter (c_learned c) currentVersion "7.6.0" with Ok b => b | _ => false end)
  end.

Definition handleBucketMigration (pos : list nat) : M FS () :=
  r ← on_rs (gets fsm);
  if needsRebalance r then mret tt
  else
    upgrading ← on_rs (on_world isUpgrading);
    if upgrading : bool then mret tt
    else
      orchestratorName ← on_rs orchestrator_name;
      reported ← on_rs reports_migration;
      if negb reported then mret tt
      else
        m ← on_rs getBucketMigrationCandidates;
        let '(candidates, orchestrator) := separateCandidatesAndOrchestrator (mg_candidates m) orchestratorName in
        if Empty candidates && bool_decide (orchestrator = None) then
          on_rs (clear_condition ClusterConditionBucketMigration);;
          on_rs (clear_condition ClusterConditionBucketEvictionMigration)
        else migrate pos m candidates orchestrator.
End upgrading.

(** ** Server groups, services and autoscaling

    What these handlers do around the reconcilers of the groups, of the services of
    pods and their addresses, and of the autoscalers. *)
Section surroundings.
Context `{Platform W} `{PersistentStorage W} `{MapRange}.
Context (reconcileServerGroups : M (RS W) bool).
Context (reconcilePodServices reconcileMemberAlternateAddresses : M (RS W) ()).
Context (startAutoscalingMaintenanceMode endAutoscalingMaintenanceMode : M (RS W) ()).
Context (autoscalingReady : M (RS W) bool).
Abbreviation R := (RS W).

Definition handleServerGroups : M R () :=
  updated ← reconcileServerGroups;
  if updated : bool then modify (set_fsm (set_needsRebalance true)) else mret tt.

(** A pod that is not reached in time is given up, if it has not joined. *)
Definition drop_unreachable (e : string * Member) : M R () :=
  c ← gets cl; w ← gets world;
  match Pods_Get w (Name e.2) with
  | None => mret tt
  | Some pod =>
      if hasDNSCheckTimeoutElapsed c w pod then
        removeMember e.2;;
        modify (set_fsm (λ r, set_pendingDNS (Remove (Name e.2) (pendingDNSMembers r)) r))
      else mret tt
  end.

Definition handleNodeServices (pos : list nat) : M R () :=
  reconcilePodServices;;
  reconcileMemberAlternateAddresses;;
  c ← gets cl; w ← gets world;
  let waiting := Diff (Intersect (c_members c) (podsToMemberSet (getPendingDNSPods c w)))
                   (podsToMemberSet (getPendingInitPods c w)) in
  modify (set_fsm (set_pendingDNS waiting));;
  r ← gets fsm;
  for_each drop_unreachable (range pos (Intersect (pendingDNSMembers r) (PendingAddNodes (couchbase r)))).

Definition handleAutoscaleServerConfigs : M R () :=
  c ← gets cl; r ← gets fsm;
  if bool_decide (AutoscaleStabilizationPeriod (c_settings c) = None) then mret tt
  else if IsRebalancing (couchbase r) || needsRebalance r then startAutoscalingMaintenanceMode
  else
    ready ← autoscalingReady;
    if ready : bool then endAutoscalingMaintenanceMode else mret tt.
End surroundings.

(** ** The whole of a cycle

    All the handlers of [exec], in its order; what they need from elsewhere are the
    arguments of the sections above. *)
Section cycle.
Context `{UpgradePlatform W} `{!ClaimPlatform W} `{PersistentStorage W} `{Environment} `{SpecJSON} `{MapRange}
  `{Scheduler Sc}.
Abbreviation R := (RS W).
Abbreviation FS := (RS W * Sc)%type.
Context (gatherBuckets : Cluster → M W (list Bucket)).
Context (addMembers : list nat → list ServerConfig → M FS (list (Member * option error))).
Context (candidate_funcs : list (list nat → M R MemberSet)).
Context {Size : Type} (size_lt size_ne : Size → Size → bool) (member_size : W → string → Size).
Context (reconcileServerGroups : M R bool).
Context (reconcilePodServices reconcileMemberAlternateAddresses : M R ()).
Context (startAutoscalingMaintenanceMode endAutoscalingMaintenanceMode : M R ()) (autoscalingReady : M R bool).

Definition reconcileFunctions (pos : list nat) (fuel : nat) : list (M FS ()) :=
  [on_rs (handleRebalanceCheck (0%nat :: pos));
   on_rs handleWarmupNodes;
   on_rs (handleDownNodes (2%nat :: pos));
   on_rs (handleUnclusteredNodes (3%nat :: pos));
   on_rs (handleFailedAddNodes (4%nat :: pos));
   on_rs (handleAddBackNodes (5%nat :: pos));
   on_rs (handleFailedNodes (6%nat :: pos));
   on_rs (handleUnknownServerConfigs (7%nat :: pos));
   handleVolumeExpansion (8%nat :: pos) fuel;
   handleServerServices addMembers (9%nat :: pos);
   handleMoveNodes gatherBuckets addMembers (10%nat :: pos);
   handlePodHostname addMembers (11%nat :: pos);
   handleRemoveNode candidate_funcs size_lt size_ne member_size (12%nat :: pos);
   handleUpgradeNode gatherBuckets addMembers (13%nat :: pos) fuel;
   handleBucketMigration gatherBuckets addMembers (14%nat :: pos);
   handleAddNode (applyPreviousVersionToNewPods (0%nat :: 15%nat :: pos)) (addMembers (1%nat :: 15%nat :: pos));
   on_rs (handleServerGroups reconcileServerGroups);
   on_rs (handleNodeServices reconcilePodServices reconcileMemberAlternateAddresses (17%nat :: pos));
   on_rs (handleAutoscaleServerConfigs startAutoscalingMaintenanceMode endAutoscalingMaintenanceMode autoscalingReady);
   on_rs (handleRebalance (19%nat :: pos));
   on_rs (handleEjectedMembers (20%nat :: pos));
   on_rs handleNotifyFinished].
End cycle.
