(* ===== verification/GroupSync.v ===== *)
(** * pkg/cluster/server_groups.go: the server groups of Couchbase

    Couchbase gets every server group the specification names, and every node is
    moved to the group its pod was scheduled in ([reconcileServerGroups]). *)

From Stdlib Require Import Ascii.
From S2P Require Import Prelude Effects GoLib Regex Digests Version Api Member Persistence Status.
From S2P Require Import UpgradeOrder NodeStatus Pods Machine Rebalance Baseline.
Local Open Scope Z_scope.

Record ServerGroup := mkServerGroup {
  sg_Name : string;
  sg_Nodes : list NodeInfo;
  sg_URI : string;
}.

Record ServerGroups := mkServerGroups {
  sgs_Groups : list ServerGroup;
  sgs_URI : string;
}.

(** A group of an update, and its nodes. *)
Record ServerGroupUpdate := mkServerGroupUpdate {
  su_Name : string;
  su_URI : string;
  su_Nodes : list string;
}.

(** The revision is what follows the first equals sign; without one the slice is
    too short. *)
Definition GetRevision (groups : ServerGroups) : result string :=
  match strings_Split (sgs_URI groups) "="%char !! 1%nat with
  | Some revision => Ok revision
  | None => Panic
  end.

Definition HasServerGroup (groups : ServerGroups) (name : string) : bool :=
  existsb (λ g, bool_decide (sg_Name g = name)) (sgs_Groups groups).

Class GroupPlatform (W : Type) := {
  cb_ListServerGroups : Target → M W ServerGroups;
  cb_CreateServerGroup : string → Target → M W ();
  cb_UpdateServerGroups : string → list ServerGroupUpdate → Target → M W ();
}.

(** ** Where the nodes go *)

(** The nodes with the name of the group they are in. *)
Definition grouped_nodes (existing : ServerGroups) : list (string * NodeInfo) :=
  g ← sgs_Groups existing; (λ n, (sg_Name g, n)) <$> sg_Nodes g.

Definition empty_update (g : ServerGroup) : ServerGroupUpdate := mkServerGroupUpdate (sg_Name g) (sg_URI g) [].

Definition serverGroupIndex (update : list ServerGroupUpdate) (name : string) : result nat :=
  match list_find (λ g, su_Name g = name) update with
  | Some (index, _) => Ok index
  | None => Err ErrInternalError
  end.

Definition add_node (otpNode : string) (g : ServerGroupUpdate) : ServerGroupUpdate :=
  mkServerGroupUpdate (su_Name g) (su_URI g) (su_Nodes g ++ [otpNode]).

(** The loop over the nodes; [None] when it returns because a pod has no group.
    [scheduled] is the group of the pod, or its error: then the node stays; it ranges
    over the members, in an order of its own for every node. *)
Fixpoint place_nodes (scheduled : nat → NodeInfo → result string) (update : bool) (newGroups : list ServerGroupUpdate)
    (l : list (string * NodeInfo)) : result (option (bool * list ServerGroupUpdate)) :=
  match l with
  | [] => Ok (Some (update, newGroups))
  | (existingGroup, existingMember) :: l =>
      let scheduledServerGroup :=
        match scheduled (length l) existingMember with Ok g => g | _ => existingGroup end in
      if bool_decide (scheduledServerGroup = "") then Ok None
      else
        index ← serverGroupIndex newGroups scheduledServerGroup;
        place_nodes scheduled (update || bool_decide (scheduledServerGroup ≠ existingGroup))
          (alter (add_node (ni_OTPNode existingMember)) index newGroups) l
  end.

Definition place (scheduled : nat → NodeInfo → result string) (existing : ServerGroups) :
    result (option (bool * list ServerGroupUpdate)) :=
  place_nodes scheduled false (empty_update <$> sgs_Groups existing) (grouped_nodes existing).

Section groups.
Context `{Platform W} `{!GroupPlatform W} `{MapRange}.
Abbreviation R := (RS W).

(** The set of the groups the specification names, in an order of its own. *)
Definition getServerGroups (pos : list nat) (c : Cluster) : list string :=
  let spec := Spec (c_cluster c) in
  let named := cs_ServerGroups spec ++ (cs_Servers spec ≫= sc_ServerGroups) in
  (range pos (list_to_map ((λ g, (g, tt)) <$> named) : gmap string ())).*1.

(** The callback that waits for a group that was created. *)
Definition list_until_there (serverGroup : string) : M R ServerGroups :=
  c ← gets cl;
  existing ← on_world (cb_ListServerGroups (ToMembers (readyMembers c)));
  if HasServerGroup existing serverGroup then mret existing else throw ErrCouchbaseServerError.

Definition retry_R {A} (callback : M R A) : M R A := λ s,
  Retry (retry_ticks (world s)) (λ s, set_world (retry_tick (world s)) s) callback s.

Definition create_group (existing : ServerGroups) (serverGroup : string) : M R ServerGroups :=
  if HasServerGroup existing serverGroup then mret existing
  else
    c ← gets cl;
    on_world (cb_CreateServerGroup serverGroup (ToMembers (readyMembers c)));;
    retry_R (list_until_there serverGroup).

Definition createServerGroups (pos : list nat) (existing : ServerGroups) : M R ServerGroups :=
  c ← gets cl;
  for_fold create_group existing (getServerGroups pos c).

Definition getPodName (pos : list nat) (c : Cluster) (node : NodeInfo) : string :=
  if negb (InitPodsWithNodeHostname (c_networking c)) then GetMemberName (ni_HostName node)
  else
    match list_find (λ e : string * Member, GetOTPNode e.2 = ni_OTPNode node) (range pos (c_members c)) with
    | Some (_, e) => Name e.2
    | None => GetMemberName (ni_HostName node)
    end.

(** [k8sutil.GetServerGroup] of the pod of a node. *)
Definition scheduled_group (pos : list nat) (c : Cluster) (w : W) (node : NodeInfo) : result string :=
  let podName := getPodName pos c node in
  GetServerGroup (from_option (λ pod, {[podName := server_pod pod]}) ∅ (Pods_Get w podName)) podName
    (ServerGroupLabel (c_cluster c)).

(** Whether the groups of nodes were changed. *)
Definition reconcileServerGroups (pos : list nat) : M R bool :=
  c ← gets cl;
  if negb (ServerGroupsEnabled (Spec (c_cluster c))) then mret false
  else
    existing ← on_world (cb_ListServerGroups (ToMembers (readyMembers c)));
    existing ← createServerGroups (0%nat :: pos) existing;
    c ← gets cl; w ← gets world;
    placed ← lift (place (λ i, scheduled_group (i :: 1%nat :: pos) c w) existing);
    match placed with
    | Some (true, newGroups) =>
        revision ← lift (GetRevision existing);
        on_world (cb_UpdateServerGroups revision newGroups (ToMembers (readyMembers c)));;
        mret true
    | _ => mret false
    end.
End groups.
