(* ===== verification/Sim.v ===== *)
(** * A simulated platform

    A small Kubernetes and Couchbase in which every call succeeds at once, to
    evaluate the handlers on concrete clusters: the pods, the nodes Couchbase
    knows, its tasks, the persistent store and the clock. *)

From S2P Require Import Prelude Effects GoLib Api Member Persistence Status UpgradeOrder RollingUpgrade.
From S2P Require Import NodeStatus Pods Volumes Machine Rebalance.
Local Open Scope Z_scope.

Record Sim := mkSim {
  sim_pods : list KPod;
  sim_info : ClusterInfo;
  sim_tasks : list Task;
  sim_store : gmap string string;
  sim_time : Z;
  sim_pvcs : list PVC;
}.

Definition sim_set_pods (pods : list KPod) (w : Sim) : Sim :=
  mkSim pods (sim_info w) (sim_tasks w) (sim_store w) (sim_time w) (sim_pvcs w).
Definition sim_set_info (info : ClusterInfo) (w : Sim) : Sim :=
  mkSim (sim_pods w) info (sim_tasks w) (sim_store w) (sim_time w) (sim_pvcs w).
Definition sim_set_store (store : gmap string string) (w : Sim) : Sim :=
  mkSim (sim_pods w) (sim_info w) (sim_tasks w) store (sim_time w) (sim_pvcs w).

Definition sim_set_pvcs (pvcs : list PVC) (w : Sim) : Sim :=
  mkSim (sim_pods w) (sim_info w) (sim_tasks w) (sim_store w) (sim_time w) pvcs.

Definition sim_put_pvc (p : PVC) (w : Sim) : Sim :=
  sim_set_pvcs ((λ q, if bool_decide (pvc_Name q = pvc_Name p) then p else q) <$> sim_pvcs w) w.

(** Writing the status takes a nanosecond; the stored one is never up to date. *)
Definition sim_advance (w : Sim) : Sim :=
  mkSim (sim_pods w) (sim_info w) (sim_tasks w) (sim_store w) (sim_time w + 1) (sim_pvcs w).

Definition sim_find (w : Sim) (name : string) : option KPod :=
  find (λ pod, bool_decide (kp_Name pod = name)) (sim_pods w).

Definition sim_alter (f : KPod → KPod) (name : string) (w : Sim) : Sim :=
  sim_set_pods ((λ pod, if bool_decide (kp_Name pod = name) then f pod else pod) <$> sim_pods w) w.

(** A rebalance: the ejected nodes leave, the others become active. *)
Definition sim_rebalance (eject : list string) (info : ClusterInfo) : ClusterInfo :=
  mkClusterInfo
    ((λ n, mkNodeInfo "active" "healthy" (ni_OTPNode n) (ni_HostName n) (ni_Version n) (ni_RecoveryType n) (ni_Services n))
       <$> filter (λ n, ni_OTPNode n ∉ eject) (Nodes info))
    RebalanceStatusNone true [] [] (Counters info).

Definition sim_fail_over (nodes : list string) (info : ClusterInfo) : ClusterInfo :=
  mkClusterInfo
    ((λ n, if bool_decide (ni_OTPNode n ∈ nodes)
           then mkNodeInfo "inactiveFailed" (ni_Status n) (ni_OTPNode n) (ni_HostName n) (ni_Version n)
                  (ni_RecoveryType n) (ni_Services n) else n) <$> Nodes info)
    (ci_RebalanceStatus info) false [] [] (Counters info).

Definition sim_recovery (otp type : string) (info : ClusterInfo) : ClusterInfo :=
  mkClusterInfo
    ((λ n, if bool_decide (ni_OTPNode n = otp)
           then mkNodeInfo (ni_Membership n) (ni_Status n) (ni_OTPNode n) (ni_HostName n) (ni_Version n) type (ni_Services n)
           else n) <$> Nodes info)
    (ci_RebalanceStatus info) (ci_Balanced info) [] [] (Counters info).

Definition sim_add_node (url : string) (info : ClusterInfo) : ClusterInfo :=
  mkClusterInfo (Nodes info ++ [mkNodeInfo "inactiveAdded" "healthy" ("ns_1@" +:+ url) (url +:+ ":8091") "" "none" ["kv"]])
    (ci_RebalanceStatus info) false [] [] (Counters info).

Definition sim_new_pod (m : Member) : KPod :=
  mkKPod (Name m) "ns" {[LabelCluster := "cb"; LabelNodeConf := Config m]}
    {[CouchbaseVersionAnnotationKey := MemberVersion m]} ["uid"] [(CouchbaseContainerName, GetImage m)] []
    [mkCondition PodPendingInitializationCondition "True" "" 0] false 0 "node" None "Running".

#[export] Instance sim_platform : Platform Sim := {|
  Pods_Get := sim_find;
  Pods_List := sim_pods;
  PVCs_List := sim_pvcs;
  Backups_Get _ _ := false;
  time_now := sim_time;
  time_Format t := pretty t;
  api_GetPod name w := (match sim_find w name with Some p => Ok p | None => Err ErrResourceRequired end, w);
  api_PatchConditions name cs w := (Ok tt, sim_alter (λ p, with_conditions p cs) name w);
  cache_Update p w := (Ok tt, sim_alter (λ _, p) (kp_Name p) w);
  cache_SetPod p := sim_alter (λ _, p) (kp_Name p);
  cache_SetPVC := sim_put_pvc;
  api_UpdatePod p w := (Ok tt, sim_alter (λ _, p) (kp_Name p) w);
  api_DeletePod name w := (Ok tt, sim_set_pods (filter (λ p, kp_Name p ≠ name) (sim_pods w)) w);
  api_WaitForDeletePod _ w := (Ok tt, w);
  createPod m _ w := (Ok tt, sim_set_pods (sim_new_pod m :: sim_pods w) w);
  api_DeleteCouchbasePod name _ w := (Ok tt, sim_set_pods (filter (λ p, kp_Name p ≠ name) (sim_pods w)) w);
  api_UpdatePVC p w := (Ok tt, sim_put_pvc p w);
  api_GetCluster w := (Ok ("uid", set_Size (-1) example_status), w);
  api_PatchStatus _ w := (Ok tt, sim_advance w);
  api_UpdateStatus _ w := (Ok tt, sim_advance w);
  retry_ticks _ := 0%nat;
  retry_tick w := w;
  watch_polls _ := 0%nat;
  watch_tick w := w;
  cb_GetPoolsDefault _ w := (Ok (sim_info w), w);
  cb_GetPools _ w := (Ok (mkPoolsInfo true "7.2.5-1-enterprise" "uuid"), w);
  cb_GetTerseClusterInfo _ w := (Ok (mkTerseInfo "undefined" "7.2"), w);
  cb_ListTasks _ w := (Ok (sim_tasks w), w);
  cb_Rebalance _ eject _ w := (Ok tt, sim_set_info (sim_rebalance eject (sim_info w)) w);
  cb_StopRebalance _ w := (Ok tt, w);
  cb_Failover nodes _ _ w := (Ok tt, sim_set_info (sim_fail_over nodes (sim_info w)) w);
  cb_AddNode url _ _ w := (Ok tt, sim_set_info (sim_add_node url (sim_info w)) w);
  cb_CancelAddNode otp _ w := (Ok tt, sim_set_info (sim_rebalance [otp] (sim_info w)) w);
  cb_SetRecoveryType otp type _ w := (Ok tt, sim_set_info (sim_recovery otp type (sim_info w)) w);
|}.

(** The platform next to more of a world. *)
Section beside.
Context {W X : Type} `{Platform W}.

Definition in_first {A} (m : M W A) : M (W * X) A := zoom fst (λ w p, (w, p.2)) m.
Definition on_first (f : W → W) (p : W * X) : W * X := (f p.1, p.2).

Definition platform_beside : Platform (W * X) := {|
  Pods_Get p := Pods_Get p.1;
  Pods_List p := Pods_List p.1;
  PVCs_List p := PVCs_List p.1;
  Backups_Get p := Backups_Get p.1;
  time_now p := time_now p.1;
  time_Format := time_Format (W := W);
  api_GetPod name := in_first (api_GetPod name);
  api_PatchConditions name cs := in_first (api_PatchConditions name cs);
  cache_Update pod := in_first (cache_Update pod);
  cache_SetPod pod := on_first (cache_SetPod pod);
  cache_SetPVC pvc := on_first (cache_SetPVC pvc);
  api_UpdatePod pod := in_first (api_UpdatePod pod);
  api_DeletePod name := in_first (api_DeletePod name);
  api_WaitForDeletePod name := in_first (api_WaitForDeletePod name);
  createPod m config := in_first (createPod m config);
  api_DeleteCouchbasePod name volumes := in_first (api_DeleteCouchbasePod name volumes);
  api_UpdatePVC pvc := in_first (api_UpdatePVC pvc);
  api_GetCluster := in_first api_GetCluster;
  api_UpdateStatus status := in_first (api_UpdateStatus status);
  api_PatchStatus status := in_first (api_PatchStatus status);
  retry_ticks p := retry_ticks p.1;
  retry_tick := on_first retry_tick;
  watch_polls p := watch_polls p.1;
  watch_tick := on_first watch_tick;
  cb_GetPoolsDefault t := in_first (cb_GetPoolsDefault t);
  cb_GetPools t := in_first (cb_GetPools t);
  cb_GetTerseClusterInfo t := in_first (cb_GetTerseClusterInfo t);
  cb_ListTasks t := in_first (cb_ListTasks t);
  cb_Rebalance known eject t := in_first (cb_Rebalance known eject t);
  cb_StopRebalance t := in_first (cb_StopRebalance t);
  cb_Failover nodes unsafe t := in_first (cb_Failover nodes unsafe t);
  cb_AddNode url services t := in_first (cb_AddNode url services t);
  cb_CancelAddNode otp t := in_first (cb_CancelAddNode otp t);
  cb_SetRecoveryType otp type t := in_first (cb_SetRecoveryType otp type t);
|}.

Definition storage_beside `{PersistentStorage W} : PersistentStorage (W * X) := {|
  ps_Insert k v := in_first (ps_Insert k v);
  ps_Upsert k v := in_first (ps_Upsert k v);
  ps_Update k v := in_first (ps_Update k v);
  ps_Delete k := in_first (ps_Delete k);
  ps_DeleteXDCR c := in_first (ps_DeleteXDCR c);
  ps_Get k := in_first (ps_Get k);
  ps_Clear := in_first ps_Clear |}.
End beside.

Definition sim_storage_op {A} (m : M (gmap string string) A) : M Sim A := zoom sim_store sim_set_store m.

#[export] Instance sim_storage : PersistentStorage Sim := {|
  ps_Insert k v := sim_storage_op (ps_Insert k v);
  ps_Upsert k v := sim_storage_op (ps_Upsert k v);
  ps_Update k v := sim_storage_op (ps_Update k v);
  ps_Delete k := sim_storage_op (ps_Delete k);
  ps_DeleteXDCR c := sim_storage_op (ps_DeleteXDCR c);
  ps_Get k := sim_storage_op (ps_Get k);
  ps_Clear := sim_storage_op ps_Clear |}.

(** ** A cluster of three data pods, of which the specification wants two *)
Definition sim_pod (i : Z) (config : string) (conditions : list PodCondition) : KPod :=
  mkKPod (CreateMemberName "cb" i) "ns" {[LabelCluster := "cb"; LabelNodeConf := config]}
    {[CouchbaseVersionAnnotationKey := "7.2.5"]} ["uid"]
    [(CouchbaseContainerName, "couchbase/server:7.2.5")] [] conditions false 0 "node" None "Running".

Definition mark (type : string) : PodCondition := mkCondition type "True" "" 0.

Definition sim_node (i : Z) (membership : string) : NodeInfo :=
  let m := NewMember "ns" "cb" (CreateMemberName "cb" i) "7.2.5" "data" false "" in
  mkNodeInfo membership "healthy" (GetOTPNode m) (GetHostName m) "7.2.5-1-enterprise" "none" ["kv"].

Definition sim_spec (size : Z) : ClusterSpec :=
  let spec := example_spec (example_upgrade "" [] 0) in
  {| cs_Image := cs_Image spec; cs_EnvImagePrecedence := false;
     cs_Servers := [{| sc_Size := size; sc_Name := "data"; sc_Services := ["data"];
                       sc_ServerGroups := []; sc_VolumeMounts := None; sc_Image := ""; sc_NodeSelector := None; sc_AutoscaleEnabled := false |}];
     cs_ServerGroups := []; cs_ServerGroupsLabelOverride := ""; cs_ShuffleServerGroups := false;
     cs_RecoveryPolicy := None; cs_UpgradeProcess := None; cs_UpgradeStrategy := None;
     cs_RollingUpgrade := None; cs_Upgrade := None; cs_EnableOnlineVolumeExpansion := false;
     cs_UnmanagedClusterHost := None;
  cs_Paused := false; cs_Hibernate := false |}.

Definition sim_networking : Networking := mkNetworking None None None false false None None None [] None.

Definition sim_cluster (size : Z) (pods : list KPod) : Cluster :=
  mkCluster
    {| Namespace := "ns"; Api.Name := "cb"; Spec := sim_spec size; Status := example_status |}
    sim_networking (mkSettings (120 * 10 ^ 9) 0 false (mkBuckets true false 0) None false (600 * 10 ^ 9) 0) "uid" (podsToMemberSet pods) (podsToMemberSet pods)
    ∅ ∅ ∅ ∅.

Definition empty_state : MemberState := mkMemberState ∅ ∅ ∅ ∅ ∅ ∅ ∅ ∅ false false.
Definition empty_machine : ReconcileMachine := mkMachine ∅ ∅ ∅ ∅ ∅ ∅ ∅ false empty_state ∅ "" 1 false.

(** [cb-0000] and [cb-0001] are marked by a scale down; the specification asks for
    one member less than there are. *)
Definition scaled_pods : list KPod :=
  [sim_pod 0 "data" [mark PodPendingEjectionCondition];
   sim_pod 1 "data" [mark PodPendingEjectionCondition]; sim_pod 2 "data" []].

Definition scaled_world : Sim :=
  mkSim scaled_pods (mkClusterInfo ((λ i, sim_node i "active") <$> [0; 1; 2]) "none" true [] [] ∅) [] ∅ 0 [].

Definition scaled_state : RS Sim := mkRS empty_machine (sim_cluster 2 scaled_pods) scaled_world [].
