(* ===== verification/MachineSpec.v ===== *)
(** * The reconcile machine: what a new one knows, and its invariant *)

From S2P Require Import Prelude Effects GoLib Digests Version UpgradePath Api Member Persistence.
From S2P Require Import Status UpgradeOrder RollingUpgrade NodeStatus Pods Machine Sim.
Local Open Scope Z_scope.

(** ** Folds that add members of a known set *)
Lemma fold_add {A} (sel : A → option Member) (step : MemberSet → A → MemberSet)
    (ms : MemberSet) (l : list A) : ∀ acc,
  (∀ acc e, step acc e = match sel e with Some m => Add m acc | None => acc end) →
  (∀ e m, e ∈ l → sel e = Some m → ms !! Name m = Some m) → acc ⊆ ms →
  (∀ n m, fold_left step l acc !! n = Some m ↔
     acc !! n = Some m ∨ (ms !! n = Some m ∧ Name m = n ∧ ∃ e, e ∈ l ∧ sel e = Some m)) ∧
  fold_left step l acc ⊆ ms.
Proof.
  induction l as [|e l IH]; intros acc Hstep Hsel Hsub; simpl.
  { split; [|done]. intros n m. split; [by left|]. intros [?|(_&_&e&He&_)]; [done|].
    by apply not_elem_of_nil in He. }
  assert (∀ o m, o ∈ l → sel o = Some m → ms !! Name m = Some m) as Hsel'
    by (intros o m Ho; apply Hsel; by right).
  rewrite Hstep. destruct (sel e) as [m0|] eqn:E.
  - assert (Add m0 acc ⊆ ms) as Hadd by (apply insert_subseteq_l; [eapply Hsel; [by left|done]|done]).
    destruct (IH _ Hstep Hsel' Hadd) as [Hin Hs]. split; [|done]. intros n m. rewrite Hin. unfold Add.
    rewrite lookup_insert_Some. split.
    + intros [[[<- <-]|[_ ?]]|(Hn&Hm&o&Ho&Hs')]; [|by left|].
      * right. split; [eapply Hsel; [by left|done]|]. split; [done|]. exists e. split; [by left|done].
      * right. split; [done|]. split; [done|]. exists o. split; [by right|done].
    + intros [Ha|(Hn&Hm&o&[->|Ho]%elem_of_cons&Hs')].
      * destruct (decide (Name m0 = n)) as [Heq|?]; [|left; right; done]. left. left. split; [done|].
        assert (ms !! n = Some m) as Hn by (by eapply lookup_weaken).
        rewrite <- Heq in Hn. rewrite (Hsel e m0 ltac:(by left) E) in Hn. congruence.
      * left. left. split; congruence.
      * right. eauto.
  - destruct (IH _ Hstep Hsel' Hsub) as [Hin Hs]. split; [|done]. intros n m. rewrite Hin. split.
    + intros [?|(?&?&o&?&?)]; [by left|]. right. split; [done|]. split; [done|]. exists o. split; [by right|done].
    + intros [?|(?&?&o&[->|Ho]%elem_of_cons&?)]; [by left|congruence|]. right. eauto.
Qed.

(** From an empty set. *)
Lemma fold_add_empty {A} (sel : A → option Member) (step : MemberSet → A → MemberSet)
    (ms : MemberSet) (l : list A) :
  (∀ acc e, step acc e = match sel e with Some m => Add m acc | None => acc end) →
  (∀ e m, e ∈ l → sel e = Some m → ms !! Name m = Some m) →
  ∀ n m, fold_left step l ∅ !! n = Some m ↔ ms !! n = Some m ∧ Name m = n ∧ ∃ e, e ∈ l ∧ sel e = Some m.
Proof.
  intros Hstep Hsel n m. destruct (fold_add sel step ms l ∅ Hstep Hsel) as [Hin _]; [apply map_empty_subseteq|].
  rewrite Hin, lookup_empty. naive_solver.
Qed.

Lemma elem_of_range_entry `{MapRange} {V} pos (m : gmap string V) k v :
  (k, v) ∈ range pos m ↔ m !! k = Some v.
Proof. rewrite (range_perm pos m). apply elem_of_map_to_list. Qed.

Lemma fold_left_proj {A B C} (f : A → C → A) (g : B → C → B) (p : A → B) (l : list C) : ∀ a,
  (∀ a c, p (f a c) = g (p a) c) → p (fold_left f l a) = fold_left g l (p a).
Proof. induction l as [|c l IH]; intros a Hp; simpl; [done|]. by rewrite IH, Hp. Qed.

(** ** Classification *)
Section classification.
Context `{MapRange} (ms : MemberSet) (Hk : keyed ms).

Definition class_sel (x : NodeState) (e : string * NodeState) : option Member :=
  if bool_decide (e.2 = x) then ms !! e.1 else None.

Lemma nodes_of_classify x st e :
  nodes_of x (classify ms st e) =
  match class_sel x e with Some m => Add m (nodes_of x st) | None => nodes_of x st end.
Proof.
  unfold classify, class_sel. destruct (ms !! e.1) as [m|]; [|by case_bool_decide].
  unfold add_node. destruct x, (e.2); reflexivity.
Qed.

Lemma classify_fold x pos (states : gmap string NodeState) b b' n m :
  nodes_of x (fold_left (classify ms) (range pos states) (mkMemberState ∅ ∅ ∅ ∅ ∅ ∅ ∅ ∅ b b')) !! n
    = Some m ↔ ms !! n = Some m ∧ states !! n = Some x.
Proof.
  rewrite (fold_left_proj (classify ms)
    (λ acc e, match class_sel x e with Some m => Add m acc | None => acc end) (nodes_of x))
    by (intros; apply nodes_of_classify).
  assert (nodes_of x (mkMemberState ∅ ∅ ∅ ∅ ∅ ∅ ∅ ∅ b b') = ∅) as -> by (by destruct x).
  rewrite (fold_add_empty (class_sel x) _ ms); [|done|].
  - split.
    + intros (Hn&Hm&[k y]&He&Hs). unfold class_sel in Hs. simpl in Hs. case_bool_decide; [subst|done].
      apply elem_of_range_entry in He. split; [done|]. by rewrite (Hk _ _ Hs).
    + intros [Hn Hx]. split; [done|]. split; [by apply Hk|]. exists (n, x).
      split; [by apply elem_of_range_entry|]. unfold class_sel. simpl. by rewrite bool_decide_eq_true_2.
  - intros e o _. unfold class_sel. case_bool_decide; [|done]. intros Ho. by rewrite (Hk _ _ Ho).
Qed.

Lemma needs_classify l : ∀ st,
  NeedsRebalance (fold_left (classify ms) l st) = true ↔
  NeedsRebalance st = true ∨ ∃ n, (n, NodeStatePendingAdd) ∈ l ∧ is_Some (ms !! n).
Proof.
  induction l as [|[k x] l IH]; intros st; simpl.
  { split; [by left|]. intros [?|(n&Hn&_)]; [done|]. by apply not_elem_of_nil in Hn. }
  rewrite IH. unfold classify. simpl. setoid_rewrite elem_of_cons.
  destruct (ms !! k) as [m|] eqn:E; simpl.
  - rewrite orb_true_iff, bool_decide_eq_true. split.
    + intros [[?| ->]|(n&Hn&?)]; [by left|right; exists k; split; [by left|by eexists]|right; eauto].
    + intros [?|(n&[[= -> <-]|Hn]&?)]; [left; by left|left; by right|right; eauto].
  - split; [intros [?|(n&?&?)]; [by left|right; eauto]|].
    intros [?|(n&[[= -> <-]|Hn]&Hs)]; [by left| |right; eauto]. rewrite E in Hs. by apply is_Some_None in Hs.
Qed.
End classification.

(** ** The unclustered members *)
Definition pending_init `{Platform W} (w : W) (n : string) : Prop :=
  ∃ pod, Pods_Get w n = Some pod ∧ HasPendingInitializationCondition pod = true.

Lemma unclustered_fold `{Platform W} `{MapRange} (w : W) pos (states : gmap string NodeState)
    (ms : MemberSet) n m :
  keyed ms →
  fold_left (unclustered_step w states) (range pos ms) ∅ !! n = Some m ↔
  ms !! n = Some m ∧ states !! n = None ∧ ¬ pending_init w n.
Proof.
  intros Hk.
  set (sel := λ e : string * Member,
    match states !! e.1 with
    | Some _ => None
    | None => match Pods_Get w e.1 with
              | Some pod => if HasPendingInitializationCondition pod then None else Some e.2
              | None => Some e.2
              end
    end).
  assert (∀ k o v, sel (k, o) = Some v ↔ v = o ∧ states !! k = None ∧ ¬ pending_init w k) as Hsel.
  { intros k o v. subst sel. simpl. unfold pending_init.
    destruct (states !! k); [split; [done|by intros (_&?&_)]|].
    destruct (Pods_Get w k) as [pod|].
    - destruct (HasPendingInitializationCondition pod) eqn:Ep.
      + split; [done|]. intros (_&_&Hn). exfalso. apply Hn. by exists pod.
      + split; [intros [= <-]; split; [done|]; split; [done|]|by intros (->&_)].
        intros (p&[= <-]&?). congruence.
    - split; [intros [= <-]; split; [done|]; split; [done|]|by intros (->&_)]. by intros (p&?&_). }
  rewrite (fold_add_empty sel _ ms).
  - split.
    + intros (Hn&Hm&[k o]&He&(->&?&?)%Hsel). apply elem_of_range_entry in He.
      rewrite (Hk _ _ He) in Hm. by subst.
    + intros (Hn&?&?). split; [done|]. split; [by apply Hk|]. exists (n, m).
      split; [by apply elem_of_range_entry|by apply Hsel].
  - intros acc [k o]. unfold unclustered_step, sel. simpl. destruct (states !! k); [done|].
    destruct (Pods_Get w k) as [pod|]; [|done]. by destruct (HasPendingInitializationCondition pod).
  - intros [k o] v He (->&_)%Hsel. apply elem_of_range_entry in He. by rewrite (Hk _ _ He).
Qed.

(** ** The marks for ejection *)
Section ejection.
Context `{Platform W} `{MapRange} (c : Cluster) (w : W).
Abbreviation ms := (c_members c).
Context (Hk : keyed ms).

Definition upgrade_marked (n : string) : bool :=
  match Pods_Get w n with Some pod => IsPodPendingUpgradeBeforeEjection pod | None => false end.

Definition scale_marked (n : string) : bool :=
  match Pods_Get w n with
  | Some pod => negb (IsPodPendingUpgradeBeforeEjection pod) && IsPodPendingEjection pod
  | None => false
  end.

(** The active members of a class that a scale down marked. *)
Definition marked_members (active : MemberSet) (class : string) : MemberSet :=
  filter (λ e, is_Some (active !! e.1) ∧ scale_marked e.1 = true ∧ Config e.2 = class) ms.

Lemma marked_keyed active class : keyed (marked_members active class).
Proof. eapply keyed_subseteq; [apply map_filter_subseteq|exact Hk]. Qed.

Definition scale_sel (class : string) (e : string * Member) : option Member :=
  if scale_marked e.1 then
    match ms !! e.1 with
    | Some m => if bool_decide (Config m = class) then Some m else None
    | None => None
    end
  else None.

Lemma mark_fold_1 l : ∀ acc,
  (fold_left (mark_step c w) l acc).1 =
  fold_left (λ a e, match (if upgrade_marked e.1 then ms !! e.1 else None) with
                    | Some m => Add m a | None => a end) l acc.1.
Proof.
  intros acc. apply (fold_left_proj (mark_step c w)). intros [a b] [k v]. unfold mark_step, upgrade_marked. simpl.
  destruct (Pods_Get w k) as [pod|]; [|done]. destruct (ms !! k) as [m|].
  - destruct (IsPodPendingUpgradeBeforeEjection pod); [done|]. by destruct (IsPodPendingEjection pod).
  - by destruct (IsPodPendingUpgradeBeforeEjection pod).
Qed.

Lemma mark_step_2 acc e class :
  (mark_step c w acc e).2 !! class =
  match scale_sel class e with
  | Some m => Some (default [] (acc.2 !! class) ++ [m])
  | None => acc.2 !! class
  end.
Proof.
  destruct acc as [a b], e as [k v]. unfold mark_step, scale_sel, scale_marked. simpl.
  destruct (Pods_Get w k) as [pod|]; [|done].
  destruct (ms !! k) as [m|].
  - destruct (IsPodPendingUpgradeBeforeEjection pod); [done|].
    destruct (IsPodPendingEjection pod); [simpl|done]. case_bool_decide as Hc.
    + subst class. by rewrite lookup_insert_eq.
    + by rewrite lookup_insert_ne by done.
  - destruct (IsPodPendingUpgradeBeforeEjection pod); [done|]. by destruct (IsPodPendingEjection pod).
Qed.

Lemma mark_fold_2 class l : ∀ acc,
  (fold_left (mark_step c w) l acc).2 !! class =
  match omap (scale_sel class) l with
  | [] => acc.2 !! class
  | ml => Some (default [] (acc.2 !! class) ++ ml)
  end.
Proof.
  induction l as [|e l IH]; intros acc; [done|]. cbn [fold_left]. rewrite IH, mark_step_2.
  cbn [omap list_omap]. destruct (scale_sel class e) as [m|]; [|done].
  destruct (omap (scale_sel class) l) as [|m' ml]; simpl; [done|]. by rewrite <- app_assoc.
Qed.

Lemma omap_names_NoDup (sel : string * Member → option Member) l :
  (∀ e m, sel e = Some m → Name m = e.1) → NoDup l.*1 → NoDup (Name <$> omap sel l).
Proof.
  intros Hsel. induction l as [|e l IH]; intros Hnd; [constructor|].
  rewrite fmap_cons in Hnd. apply NoDup_cons in Hnd as [Hnin Hnd]. cbn [omap list_omap].
  destruct (sel e) as [m|] eqn:E; [|by apply IH]. rewrite fmap_cons. constructor; [|by apply IH].
  rewrite (Hsel _ _ E). intros (o&Ho&Hin)%list_elem_of_fmap. apply list_elem_of_omap in Hin as (e'&He'&Hs).
  apply Hnin. rewrite Ho, (Hsel _ _ Hs). by apply list_elem_of_fmap_2.
Qed.

Lemma scale_sel_spec class e m :
  scale_sel class e = Some m ↔ scale_marked e.1 = true ∧ ms !! e.1 = Some m ∧ Config m = class.
Proof.
  unfold scale_sel. destruct (scale_marked e.1); [|naive_solver].
  destruct (ms !! e.1) as [m'|]; [|naive_solver]. case_bool_decide; naive_solver.
Qed.

Lemma scale_list_perm pos active class :
  omap (scale_sel class) (range pos active) ≡ₚ members (marked_members active class).
Proof.
  apply NoDup_Permutation.
  - eapply NoDup_fmap_1, omap_names_NoDup.
    + intros e m (_&Hm&_)%scale_sel_spec. by apply Hk.
    + rewrite (range_perm pos active). apply NoDup_fst_map_to_list.
  - apply members_NoDup, marked_keyed.
  - intros m. rewrite list_elem_of_omap, elem_of_members. unfold marked_members.
    setoid_rewrite map_lookup_filter_Some. setoid_rewrite scale_sel_spec. split.
    + intros ([k v]&He&?&?&?). apply elem_of_range_entry in He. exists k. split; [done|].
      split; [by eexists|done].
    + intros (n&Hn&[v Hv]&?&?). exists (n, v). split; [by apply elem_of_range_entry|done].
Qed.

Lemma sorted_marked pos active class :
  stable_sort name_leb (omap (scale_sel class) (range pos active)) = ToList (marked_members active class).
Proof.
  apply stable_sort_perm_on; [intros x y; apply string_leb_total|intros x y z; apply string_leb_trans| |].
  - intros x y Hx Hy H1 H2.
    rewrite (scale_list_perm pos active class) in Hx, Hy.
    eapply keyed_name_inj; [apply marked_keyed|exact Hx|exact Hy|]. by apply string_leb_antisym.
  - apply scale_list_perm.
Qed.
End ejection.

(** ** Calls that only touch the world *)
Definition only_world {W} (s s' : RS W) : Prop := fsm s' = fsm s ∧ cl s' = cl s ∧ trace s' = trace s.

#[export] Instance only_world_preorder {W} : PreOrder (@only_world W).
Proof.
  split; [by intros s|]. intros s1 s2 s3 (?&?&?) (?&?&?). unfold only_world. split_and!; congruence.
Qed.

Lemma on_world_only {W A} (m : M W A) : keeps only_world (on_world m).
Proof. apply keeps_zoom. intros s w. done. Qed.
#[export] Hint Resolve on_world_only : keeps.

Section building.
Context `{Platform W} `{PersistentStorage W} `{Environment} `{MapRange}.
Abbreviation R := (RS W).

Lemma updateCRStatus_only : keeps only_world (updateCRStatus (W := W)).
Proof. unfold updateCRStatus. keeps_tac. Qed.

Definition chosen (r : ReconcileMachine) (want : gmap string Z) (e : string * MemberList) : MemberList :=
  take (Z.to_nat (keep_count (class_total r e.1) (default 0 (want !! e.1)) (Z.of_nat (length e.2))))
    (stable_sort name_leb e.2).

Lemma scale_down_class_only r want eject e : keeps only_world (scale_down_class (W := W) r want eject e).
Proof. destruct e as [class l]. unfold scale_down_class. keeps_tac. Qed.
Hint Resolve scale_down_class_only : keeps.

Lemma scale_down_class_ok r want eject e (s s' : R) eject' :
  scale_down_class r want eject e s = (Ok eject', s') → eject' = add_all (chosen r want e) eject.
Proof.
  destruct e as [class l]. unfold scale_down_class, chosen. cbn [fst snd]. unfold mbind, M_bind.
  rewrite stable_sort_length. destruct (for_each _ _ s) as [[[]| |] s1]; [|done..]. by intros [= <- _].
Qed.

Lemma scale_down_ok r want l : ∀ eject (s s' : R) eject',
  for_fold (scale_down_class r want) eject l s = (Ok eject', s') →
  eject' = add_all (concat (chosen r want <$> l)) eject.
Proof.
  induction l as [|e l IH]; intros eject s s' eject'; cbn [for_fold].
  { by intros [= <- _]. }
  unfold mbind at 1, M_bind.
  destruct (scale_down_class r want eject e s) as [[e1| |] s1] eqn:E1; [|done..].
  intros Hf. rewrite (IH _ _ _ _ Hf), (scale_down_class_ok _ _ _ _ _ _ _ E1). cbn [fmap list_fmap concat].
  unfold add_all. by rewrite foldl_app.
Qed.

(** *** Applying the marks *)
Lemma eject_fold pos eject r : keyed eject →
  let r' := fold_left eject_one (range pos eject) r in
  (∀ n, clusteredMembers r' !! n =
     match eject !! n with Some _ => None | None => clusteredMembers r !! n end) ∧
  (ejectMembers r = ∅ → ejectMembers r' = eject) ∧
  (needsRebalance r' = true ↔ needsRebalance r = true ∨ eject ≠ ∅) ∧
  runningMembers r' = runningMembers r ∧ stabilizingMembers r' = stabilizingMembers r ∧
  unclusteredMembers r' = unclusteredMembers r ∧ pendingDNSMembers r' = pendingDNSMembers r ∧
  pendingInitPods r' = pendingInitPods r ∧ couchbase r' = couchbase r ∧
  preserveVolumes r' = preserveVolumes r ∧ abortReason r' = abortReason r ∧
  rebalanceRetries r' = rebalanceRetries r ∧ holdNodeAdditions r' = holdNodeAdditions r.
Proof.
  intros Hk r'. subst r'. split; [|split; [|split]].
  - intros n.
    assert (∀ l r, clusteredMembers (fold_left eject_one l r) !! n =
      if bool_decide (n ∈ l.*1) then None else clusteredMembers r !! n) as Hl.
    { induction l as [|[k m] l IH]; intros r0; [done|]. cbn [fold_left fmap list_fmap]. rewrite IH. simpl.
      unfold Remove. destruct (decide (n = k)) as [->|Hne].
      - rewrite lookup_delete_eq. rewrite (bool_decide_eq_true_2 (k ∈ k :: _)) by by left. by case_bool_decide.
      - rewrite lookup_delete_ne by done. erewrite (bool_decide_ext (n ∈ k :: _)); [done|]. set_solver. }
    rewrite Hl. destruct (eject !! n) as [m|] eqn:E.
    + rewrite bool_decide_eq_true_2; [done|]. apply list_elem_of_fmap. exists (n, m).
      split; [done|]. by apply elem_of_range_entry.
    + rewrite bool_decide_eq_false_2; [done|]. intros ([k m]&->&Hm)%list_elem_of_fmap.
      apply elem_of_range_entry in Hm. simpl in E. congruence.
  - intros He. rewrite (fold_left_proj eject_one (λ acc e, Add e.2 acc) ejectMembers) by done.
    rewrite He. apply map_eq. intros n. apply option_eq. intros m.
    rewrite (fold_add_empty (λ e : string * Member, Some e.2) _ eject); [|done|].
    + split; [by intros (?&_)|]. intros Hn. split; [done|]. split; [by apply Hk|].
      exists (n, m). split; [by apply elem_of_range_entry|done].
    + intros [k v] o He' [= <-]. apply elem_of_range_entry in He'. simpl. by rewrite (Hk _ _ He').
  - assert (∀ l r, needsRebalance (fold_left eject_one l r) = true ↔ needsRebalance r = true ∨ l ≠ []) as Hl.
    { induction l as [|e l IH]; intros r0; simpl; [split; [by left|by intros [?|[]]]|]. rewrite IH. simpl.
      split; [by right|by left]. }
    rewrite Hl. assert (range pos eject = [] ↔ eject = ∅) as Hr; [|by rewrite Hr].
    split; [|intros ->; apply Permutation_nil_r; by rewrite range_perm, map_to_list_empty].
    intros Hn. apply map_to_list_empty_iff. apply Permutation_nil_r. by rewrite <- (range_perm pos eject), Hn.
  - assert (∀ {B} (p : ReconcileMachine → B), (∀ r e, p (eject_one r e) = p r) →
      ∀ l r, p (fold_left eject_one l r) = p r) as Hp.
    { intros B p He l. induction l as [|e l IH]; intros r0; simpl; [done|]. by rewrite IH. }
    split_and!; by apply Hp.
Qed.

Lemma getStatusFromTarget_ok pos target ms (s s' : R) status :
  getStatusFromTarget pos target ms s = (Ok status, s') →
  fsm s' = fsm s ∧ cl s' = cl s ∧ trace s' = trace s ++ [StatusSeen status].
Proof.
  unfold getStatusFromTarget. intros Hs. inv_ok Hs. injection Hs0 as <- <-.
  inv_ok Hs. inv_ok Hs. inv_ok Hs. inv_ok Hs. injection Hs as <- <-. injection Hs3 as <- <-.
  pose proof (on_world_only (retry_for (cb_GetPoolsDefault target)) s) as K1. rewrite Hs0 in K1.
  match type of Hs1 with on_world ?m _ = _ => pose proof (on_world_only m s0) as K2 end. rewrite Hs1 in K2.
  match type of Hs2 with on_world ?m _ = _ => pose proof (on_world_only m s1) as K3 end. rewrite Hs2 in K3.
  destruct K1 as (?&?&?), K2 as (?&?&?), K3 as (?&?&?). simpl in *. split_and!; congruence.
Qed.

Lemma GetStatus_ok pos (s s' : R) status :
  GetStatus pos s = (Ok status, s') →
  fsm s' = fsm s ∧ cl s' = cl s ∧ trace s' = trace s ++ [StatusSeen status].
Proof. unfold GetStatus. intros Hs. inv_ok Hs. injection Hs0 as <- <-. by eapply getStatusFromTarget_ok. Qed.
End building.

(** ** What a new machine knows *)

(** How many members of a class there are before any of them is ejected. *)
Definition present (r : ReconcileMachine) (ms : MemberSet) : MemberSet :=
  Diff (Diff ms (unclusteredMembers r)) (pendingInitPods r).

Definition to_go `{Platform W} (c : Cluster) (w : W) (r : ReconcileMachine) (class : string) : MemberList :=
  let marked := marked_members c w (ActiveNodes (couchbase r)) class in
  take (Z.to_nat (keep_count
      (Z.of_nat (Size (GroupByServerConfig class (present r (c_members c)))) +
       Z.of_nat (Size (GroupByServerConfig class (pendingInitPods r))))
      (default 0 (wanted_sizes (cs_Servers (Spec (c_cluster c))) !! class)) (Z.of_nat (size marked))))
    (ToList marked).

(** [w1] is the world when the nodes are classified, [w2] when the marks are read. *)
Record new_machine `{Platform W} (c : Cluster) (status : ClusterState) (w1 w2 : W)
    (r : ReconcileMachine) : Prop := {
  nm_nodes x n m : nodes_of x (couchbase r) !! n = Some m ↔
    c_members c !! n = Some m ∧ NodeStates status !! n = Some x;
  nm_unclustered n m : unclusteredMembers r !! n = Some m ↔
    c_members c !! n = Some m ∧ NodeStates status !! n = None ∧ ¬ pending_init w1 n;
  nm_pending : pendingInitPods r = podsToMemberSet (getPendingInitPods c w2);
  nm_eject n m : ejectMembers r !! n = Some m ↔
    c_members c !! n = Some m ∧ NodeStates status !! n = Some NodeStateActive ∧
    (upgrade_marked w2 n = true ∨ m ∈ to_go c w2 r (Config m));
  nm_clustered n m : clusteredMembers r !! n = Some m ↔
    c_members c !! n = Some m ∧ unclusteredMembers r !! n = None ∧
    pendingInitPods r !! n = None ∧ ejectMembers r !! n = None;
  nm_rebalance : needsRebalance r = true ↔
    Balanced status = false ∨ PendingAddNodes (couchbase r) ≠ ∅ ∨ ejectMembers r ≠ ∅;
}.

Section new_machine_lemmas.
Context `{Platform W} `{MapRange} (c : Cluster) (status : ClusterState) (w1 w2 : W).
Context (Hk : keyed (c_members c)).

Abbreviation st pos := (member_state pos w1 (c_members c) status).

Lemma member_state_nodes pos x n m :
  nodes_of x (st pos) !! n = Some m ↔ c_members c !! n = Some m ∧ NodeStates status !! n = Some x.
Proof.
  rewrite <- (classify_fold (c_members c) Hk x (0%nat :: pos) (NodeStates status)
    (Balancing status) (negb (Balanced status))). by destruct x.
Qed.

Lemma member_state_needs pos :
  NeedsRebalance (st pos) = true ↔ Balanced status = false ∨ PendingAddNodes (st pos) ≠ ∅.
Proof.
  unfold member_state at 1. cbn [NeedsRebalance]. rewrite needs_classify. cbn [NeedsRebalance].
  rewrite negb_true_iff.
  assert ((∃ n, (n, NodeStatePendingAdd) ∈ range (0%nat :: pos) (NodeStates status) ∧
    is_Some (c_members c !! n)) ↔ PendingAddNodes (st pos) ≠ ∅) as ->; [|done].
  split.
  - intros (n&Hn%elem_of_range_entry&[m Hm]) He.
    assert (nodes_of NodeStatePendingAdd (st pos) !! n = Some m) as Hp by (by apply member_state_nodes).
    change (PendingAddNodes (st pos) !! n = Some m) in Hp. by rewrite He, lookup_empty in Hp.
  - intros (n&m&Hn)%map_choose. apply (member_state_nodes pos NodeStatePendingAdd) in Hn as [Hm Hn].
    exists n. split; [by apply elem_of_range_entry|by eexists].
Qed.

(** The set the marks give, whatever order they are read in. *)
Lemma marks_eject pos pos' (active : MemberSet) (cnt : string → nat → nat) n m :
  (∀ k a, active !! k = Some a → c_members c !! k = Some a) →
  let acc := fold_left (mark_step c w2) (range pos active) (∅, ∅) in
  add_all (concat ((λ e : string * MemberList, take (cnt e.1 (length e.2)) (stable_sort name_leb e.2))
             <$> range pos' acc.2)) acc.1 !! n = Some m ↔
  c_members c !! n = Some m ∧ is_Some (active !! n) ∧
  (upgrade_marked w2 n = true ∨
   m ∈ take (cnt (Config m) (size (marked_members c w2 active (Config m))))
         (ToList (marked_members c w2 active (Config m)))).
Proof.
  intros Hact acc.
  assert (∀ class, acc.2 !! class = match omap (scale_sel c w2 class) (range pos active) with
                                    | [] => None | ml => Some ml end) as H2.
  { intros class. unfold acc. rewrite mark_fold_2. cbn [snd]. by rewrite lookup_empty. }
  assert (∀ k o, acc.1 !! k = Some o ↔
    c_members c !! k = Some o ∧ is_Some (active !! k) ∧ upgrade_marked w2 k = true) as H1.
  { intros k o. unfold acc. rewrite mark_fold_1. cbn [fst].
    rewrite (fold_add_empty (λ e, if upgrade_marked w2 e.1 then c_members c !! e.1 else None) _ (c_members c)).
    - split.
      + intros (Hm&Hn&[j a]&He&Hs). simpl in Hs. apply elem_of_range_entry in He.
        destruct (upgrade_marked w2 j) eqn:Eu; [|done].
        assert (j = k) as -> by (rewrite <- (Hk _ _ Hs); done). split; [done|]. split; [by eexists|done].
      + intros (Hm&[a Ha]&Hu). split; [done|]. split; [by apply Hk|]. exists (k, a).
        split; [by apply elem_of_range_entry|]. simpl. by rewrite Hu.
    - done.
    - intros [j a] o' _. simpl. destruct (upgrade_marked w2 j); [|done]. intros Ho. by rewrite (Hk _ _ Ho). }
  assert (∀ o, o ∈ concat ((λ e : string * MemberList,
      take (cnt e.1 (length e.2)) (stable_sort name_leb e.2)) <$> range pos' acc.2) ↔
    o ∈ take (cnt (Config o) (size (marked_members c w2 active (Config o))))
          (ToList (marked_members c w2 active (Config o)))) as Hin.
  { intros o. rewrite list_elem_of_In, in_concat. setoid_rewrite <- list_elem_of_In.
    assert (∀ class ml, (class, ml) ∈ range pos' acc.2 →
      take (cnt class (length ml)) (stable_sort name_leb ml) =
      take (cnt class (size (marked_members c w2 active class))) (ToList (marked_members c w2 active class)))
      as Hsort.
    { intros class ml Hml. apply elem_of_range_entry in Hml. rewrite H2 in Hml.
      assert (ml = omap (scale_sel c w2 class) (range pos active)) as -> by (by destruct (omap _ _); simplify_eq).
      rewrite sorted_marked by done. f_equal. f_equal.
      rewrite (scale_list_perm c w2 Hk pos active class). unfold members. by rewrite length_fmap, length_map_to_list. }
    split.
    - intros (l&Hl&Ho). apply list_elem_of_fmap in Hl as ([class ml]&->&Hml). cbn [fst snd] in Ho.
      rewrite (Hsort _ _ Hml) in Ho.
      assert (Config o = class) as ->; [|done].
      apply elem_of_take in Ho as (i&Ho&_). apply list_elem_of_lookup_2 in Ho.
      rewrite ToList_perm in Ho. apply elem_of_members in Ho as (k&Hko).
      unfold marked_members in Hko. by apply map_lookup_filter_Some in Hko as (_&_&_&?).
    - intros Ho. set (class := Config o) in *.
      destruct (omap (scale_sel c w2 class) (range pos active)) as [|a ml] eqn:E.
      + exfalso. apply elem_of_take in Ho as (i&Ho&_). apply list_elem_of_lookup_2 in Ho.
        rewrite ToList_perm, <- (scale_list_perm c w2 Hk pos active class), E in Ho. by apply not_elem_of_nil in Ho.
      + exists (take (cnt class (length (a :: ml))) (stable_sort name_leb (a :: ml))).
        assert ((class, a :: ml) ∈ range pos' acc.2) as Hml by (apply elem_of_range_entry; by rewrite H2, E).
        split; [apply list_elem_of_fmap; by exists (class, a :: ml)|]. by rewrite (Hsort _ _ Hml). }
  assert (∀ o, o ∈ concat ((λ e : string * MemberList,
      take (cnt e.1 (length e.2)) (stable_sort name_leb e.2)) <$> range pos' acc.2) →
    c_members c !! Name o = Some o ∧ is_Some (active !! Name o)) as Hms.
  { intros o Ho. apply Hin in Ho. apply elem_of_take in Ho as (i&Ho&_). apply list_elem_of_lookup_2 in Ho.
    rewrite ToList_perm in Ho. apply elem_of_members in Ho as (k&Hko). unfold marked_members in Hko.
    apply map_lookup_filter_Some in Hko as (Hko&Ha&_). rewrite (Hk _ _ Hko). done. }
  rewrite add_all_spec.
  2: { intros x y Hx Hy Heq. apply Hms in Hx as [Hx _], Hy as [Hy _]. rewrite Heq in Hx. congruence. }
  rewrite Hin, H1. split.
  - intros [[Hm <-]|[_ (?&?&?)]]; [|naive_solver].
    pose proof Hm as Hm'. rewrite <- Hin in Hm'. apply Hms in Hm' as [? ?]. naive_solver.
  - intros (Hn&Ha&Hor). assert (Name m = n) as Hnm by (by apply Hk).
    destruct (decide (m ∈ take (cnt (Config m) (size (marked_members c w2 active (Config m))))
      (ToList (marked_members c w2 active (Config m))))) as [Hd|Hd]; [by left|right].
    destruct Hor as [Hu|?]; [|done]. split; [|done].
    intros o Ho Hon. pose proof Ho as Ho'. apply Hms in Ho' as [Ho' _]. rewrite Hon in Ho'.
    assert (o = m) as -> by congruence. apply Hd. by apply Hin.
Qed.
End new_machine_lemmas.

Lemma classify_balancing ms l : ∀ st, IsRebalancing (fold_left (classify ms) l st) = IsRebalancing st.
Proof.
  induction l as [|e l IH]; intros st; simpl; [done|]. rewrite IH. unfold classify.
  by destruct (ms !! e.1).
Qed.

Lemma member_state_balancing `{Platform W} `{MapRange} pos (w : W) ms status :
  IsRebalancing (member_state pos w ms status) = Balancing status.
Proof. unfold member_state. cbn [IsRebalancing]. by rewrite classify_balancing. Qed.

(** *** Ejection, as a whole *)
Record ejected `{Platform W} (c : Cluster) (w : W) (r0 r : ReconcileMachine) : Prop := {
  ej_clustered n : clusteredMembers r !! n =
    match ejectMembers r !! n with Some _ => None | None => clusteredMembers r0 !! n end;
  ej_eject n m : ejectMembers r !! n = Some m ↔
    c_members c !! n = Some m ∧ is_Some (ActiveNodes (couchbase r0) !! n) ∧
    (upgrade_marked w n = true ∨
     m ∈ take (Z.to_nat (keep_count (class_total r0 (Config m))
                 (default 0 (wanted_sizes (cs_Servers (Spec (c_cluster c))) !! Config m))
                 (Z.of_nat (size (marked_members c w (ActiveNodes (couchbase r0)) (Config m))))))
           (ToList (marked_members c w (ActiveNodes (couchbase r0)) (Config m))));
  ej_needs : needsRebalance r = true ↔ needsRebalance r0 = true ∨ ejectMembers r ≠ ∅;
  ej_unclustered : unclusteredMembers r = unclusteredMembers r0;
  ej_pending : pendingInitPods r = pendingInitPods r0;
  ej_couchbase : couchbase r = couchbase r0;
  ej_preserve : preserveVolumes r = preserveVolumes r0;
  ej_abort : abortReason r = abortReason r0;
  ej_retries : rebalanceRetries r = rebalanceRetries r0;
}.

Lemma deriveEject_ok `{Platform W} `{MapRange} pos r0 (s s' : RS W) r :
  keyed (c_members (cl s)) →
  (∀ k a, ActiveNodes (couchbase r0) !! k = Some a → c_members (cl s) !! k = Some a) →
  ejectMembers r0 = ∅ → deriveEjectFSMMembers pos r0 s = (Ok r, s') →
  trace s' = trace s ∧ ejected (cl s) (world s) r0 r.
Proof.
  intros Hkeyed Hact He0 Hrun. unfold deriveEjectFSMMembers in Hrun.
  inv_ok Hrun. injection Hrun0 as <- <-. inv_ok Hrun. injection Hrun0 as <- <-.
  set (want := wanted_sizes _) in *.
  pose proof (λ n m, marks_eject (cl s) (world s) Hkeyed (0%nat :: pos) (1%nat :: pos)
    (ActiveNodes (couchbase r0)) (λ class n, Z.to_nat (keep_count (class_total r0 class)
      (default 0 (want !! class)) (Z.of_nat n))) n m Hact) as Hmarks.
  cbv zeta in Hmarks.
  destruct (fold_left (mark_step (cl s) (world s)) _ _) as [eject0 scaleDown].
  inv_ok Hrun. rename a into eject. injection Hrun as <- ->.
  assert (keeps only_world (for_fold (scale_down_class (W := W) r0 want) eject0
    (range (1%nat :: pos) scaleDown))) as Hkeep
    by (apply keeps_for_fold; [apply _|intros; apply scale_down_class_only]).
  specialize (Hkeep s). rewrite Hrun0 in Hkeep. destruct Hkeep as (_&_&Ht). split; [done|].
  apply scale_down_ok in Hrun0. unfold chosen in Hrun0. cbn [fst snd] in Hmarks.
  rewrite <- Hrun0 in Hmarks.
  assert (keyed eject) as Hke by (intros n m (Hn&_)%Hmarks; by apply Hkeyed).
  destruct (eject_fold (2%nat :: pos) eject r0 Hke)
    as (Hcl&Hej&Hneeds&_&_&Hunc&_&Hpend&Hcb&Hpres&Hab&Hret&_).
  specialize (Hej He0). split; rewrite ?Hej; done.
Qed.

Lemma initial_unclustered `{Platform W} `{MapRange} pos c status (w1 w2 : W) n m :
  keyed (c_members c) →
  UnclusteredNodes (member_state pos w1 (c_members c) status) !! n = Some m ↔
  c_members c !! n = Some m ∧ NodeStates status !! n = None ∧ ¬ pending_init w1 n.
Proof. intros Hk. unfold member_state. cbn [UnclusteredNodes]. by apply unclustered_fold. Qed.

(** The machine the two steps give. *)
Lemma new_machine_built `{Platform W} `{MapRange} pos c status (w1 w2 : W) retries stab r :
  keyed (c_members c) →
  let r0 := set_stabilizing stab
    (initial_machine c w2 (member_state pos w1 (c_members c) status) retries) in
  ejected c w2 r0 r → new_machine c status w1 w2 r.
Proof.
  intros Hk r0 [Hcl Hej Hneeds Hunc Hpend Hcb _ _ _].
  set (st := member_state pos w1 (c_members c) status) in *.
  assert (unclusteredMembers r = UnclusteredNodes st) as Hunc'
    by (rewrite Hunc; unfold r0, initial_machine; simpl; unfold Copy; by rewrite list_to_map_to_list).
  assert (couchbase r = st) as Hst by (by rewrite Hcb).
  assert (∀ n m, unclusteredMembers r !! n = Some m ↔
    c_members c !! n = Some m ∧ NodeStates status !! n = None ∧ ¬ pending_init w1 n) as Hun
    by (intros n m; rewrite Hunc'; by apply initial_unclustered).
  split; [|done|by rewrite Hpend|..].
  - intros x n m. rewrite Hst. by apply member_state_nodes.
  - intros n m. rewrite Hej.
    assert (is_Some (ActiveNodes st !! n) ∧ c_members c !! n = Some m ↔
      NodeStates status !! n = Some NodeStateActive ∧ c_members c !! n = Some m) as Hactive.
    { split.
      - intros [[a Ha] Hm]. by apply (member_state_nodes c status w1 Hk _ NodeStateActive) in Ha as [_ ?].
      - intros [Hs Hm]. split; [|done]. exists m.
        by apply (member_state_nodes c status w1 Hk _ NodeStateActive). }
    assert (clusteredMembers r0 = present r (c_members c)) as Hpres
      by (unfold present; rewrite Hunc', Hpend; done).
    unfold to_go. rewrite Hst. rewrite <- Hpres, Hpend. unfold class_total.
    assert (couchbase r0 = st) as -> by reflexivity. clear -Hactive. split.
    + intros (Hn&Ha&Hor). apply (conj Ha), Hactive in Hn as [Hs Hn]. split; [exact Hn|]. split; [exact Hs|exact Hor].
    + intros (Hn&Hs&Hor). apply (conj Hs), Hactive in Hn as [Ha Hn]. split; [exact Hn|]. split; [exact Ha|exact Hor].
  - intros n m. rewrite Hcl, Hunc', Hpend. unfold r0, initial_machine.
    cbn [clusteredMembers pendingInitPods set_stabilizing]. unfold Diff.
    destruct (ejectMembers r !! n); [split; [done|by intros (_&_&_&?)]|].
    rewrite !map_lookup_filter_Some. simpl. clear. tauto.
  - rewrite Hneeds, Hst. unfold r0, initial_machine. cbn [needsRebalance set_stabilizing].
    unfold st. rewrite (member_state_needs c status w1 Hk). clear. tauto.
Qed.

Lemma newReconcileMachine_made `{Platform W} `{PersistentStorage W} `{Environment} `{MapRange}
    pos (s s' : RS W) r :
  keyed (c_members (cl s)) → newReconcileMachine pos s = (Ok r, s') →
  ∃ status w1 w2, trace s' = trace s ++ [StatusSeen status] ∧
    new_machine (cl s) status w1 w2 r ∧ abortReason r = "" ∧ preserveVolumes r = ∅ ∧
    0 ≤ rebalanceRetries r < 2 ^ 64 ∧
    IsRebalancing (couchbase r) = Balancing status.
Proof.
  intros Hkeyed Hnew.
  unfold newReconcileMachine in Hnew. inv_ok Hnew. rename a into status.
  destruct (GetStatus_ok _ _ _ _ Hnew0) as (Hf0&Hc0&Ht0).
  inv_ok Hnew. injection Hnew1 as <- <-. inv_ok Hnew. injection Hnew1 as <- <-.
  set (st := member_state _ _ _ _) in *. inv_ok Hnew. rename a into val.
  pose proof (keeps_attempt only_world _ (on_world_only (ps_Get RebalanceRetries)) s0) as Hw.
  rewrite Hnew1 in Hw. destruct Hw as (Hf1&Hc1&Ht1). simpl in Hf1, Hc1, Ht1.
  inv_ok Hnew. injection Hnew2 as <- <-. inv_ok Hnew. injection Hnew2 as <- <-.
  rewrite <- Hc0 in Hkeyed |- *. set (c := cl s0) in *. set (w1 := world s0) in *. set (w2 := world s1) in *.
  set (r0 := set_stabilizing _ _) in Hnew.
  apply deriveEject_ok in Hnew as [Ht2 Hej]; [|simpl; by rewrite Hc1| |done].
  2: { intros k a Ha. simpl. rewrite Hc1.
       by apply (member_state_nodes c status w1 Hkeyed _ NodeStateActive) in Ha as [? _]. }
  assert (ejected c w2 r0 r) as Hej' by (unfold set_cl in Hej; cbn [cl] in Hej; rewrite Hc1 in Hej; destruct Hej; split; assumption).
  exists status, w1, w2. split; [simpl in Ht2; congruence|].
  split; [by eapply new_machine_built|].
  split; [by rewrite (ej_abort _ _ _ _ Hej')|]. split; [by rewrite (ej_preserve _ _ _ _ Hej')|].
  rewrite (ej_retries _ _ _ _ Hej'), (ej_couchbase _ _ _ _ Hej'). split; [|].
  { unfold r0, initial_machine, uint. simpl. apply Z.mod_pos_bound. lia. }
  unfold r0, st. apply member_state_balancing.
Qed.

(** C1: a new reconcile machine: whatever order the maps are visited in, when it can
    be built, every member is filed under the state Couchbase reports for it; the
    members Couchbase does not know (and whose pod does not wait for
    initialisation) are unclustered; the active members to eject are those a swap
    marked and, of each class, the alphabetically first of those a scale down
    marked, only as many as the class is still over its size; everything else
    Couchbase knows and that is initialised is clustered; and a rebalance is
    needed exactly when Couchbase is unbalanced, a node waits to be added or one
    has to go. *)
Theorem newReconcileMachine_spec `{Platform W} `{PersistentStorage W} `{Environment} `{MapRange}
    pos (s s' : RS W) r
    (Hkeyed : keyed (c_members (cl s))) (Hnew : newReconcileMachine pos s = (Ok r, s')) :
  ∃ status w1 w2, trace s' = trace s ++ [StatusSeen status] ∧
    new_machine (cl s) status w1 w2 r ∧
    (∀ n m, clusteredMembers r !! n = Some m → ejectMembers r !! n = None) ∧
    abortReason r = "" ∧ preserveVolumes r = ∅ ∧ 0 ≤ rebalanceRetries r < 2 ^ 64.
Proof.
  destruct (newReconcileMachine_made pos s s' r Hkeyed Hnew) as (status&w1&w2&Ht&Hm&Ha&Hp&Hr&_).
  exists status, w1, w2. do 2 (split; [done|]). split; [|done].
  intros n m Hn. by apply (nm_clustered _ _ _ _ _ Hm) in Hn as (_&_&_&?).
Qed.

Lemma newReconcileMachine_spec_witness :
  ∃ r, (newReconcileMachine (H1 := const None) (H2 := canonical_range) [] scaled_state).1 = Ok r ∧
    (Names (ejectMembers r), Names (clusteredMembers r)) = (["cb-0000"], ["cb-0001"; "cb-0002"]) ∧
    ∀ n m, clusteredMembers r !! n = Some m → ejectMembers r !! n = None.
Proof.
  assert ((λ r, (Names (ejectMembers r), Names (clusteredMembers r))) <$>
    (newReconcileMachine (H1 := const None) (H2 := canonical_range) [] scaled_state).1 =
    Ok (["cb-0000"], ["cb-0001"; "cb-0002"])) as Hr by (vm_compute; reflexivity).
  destruct (newReconcileMachine (H1 := const None) (H2 := canonical_range) [] scaled_state)
    as [[r| |] s'] eqn:E; [|discriminate Hr..].
  exists r. split; [reflexivity|]. split; [by injection Hr as -> ->|].
  assert (keyed (c_members (cl scaled_state))) as Hk by (apply add_all_keyed, keyed_empty).
  destruct (newReconcileMachine_spec (H1 := const None) (H2 := canonical_range) [] scaled_state s' r Hk E)
    as (_&_&_&_&_&Hdisj&_). exact Hdisj.
Defined.
