(* ===== verification/BaselineSpec.v ===== *)
(** * Who the members are; the baseline follows the lowest version *)

From S2P Require Import Prelude Effects GoLib Regex Digests Version Api Member Persistence Status.
From S2P Require Import UpgradeOrder RollingUpgrade NodeStatus Pods Volumes Machine Rebalance Sim MachineSpec.
From S2P Require Import Baseline.
Local Open Scope Z_scope.

(** What a version baseline is: what is stored and its copy in the status. *)
Definition baseline {W} (view : W → gmap string string) (s : RS W) : option string := view (world s) !! VersionKey.
Definition baseline_copy {W} (s : RS W) : string := st_CurrentVersion (Status (c_cluster (cl s))).

(** A version none of the members is below. *)
Definition lowest_version `{Environment} (learned : gmap string string) (ms : MemberSet) (lo : Version) : Prop :=
  (∃ m, m ∈ members ms ∧ VersionKnown (MemberVersion m) = true ∧ NewVersion learned (MemberVersion m) = Ok lo) ∧
  ∀ m v, m ∈ members ms → VersionKnown (MemberVersion m) = true → NewVersion learned (MemberVersion m) = Ok v →
    ¬ key_lt v lo.

(** Every member of the operator says its version. *)
Definition all_known (ms : MemberSet) : Prop :=
  ∀ m, m ∈ members ms → IsExternal m = true ∨ VersionKnown (MemberVersion m) = true.

Section versions.
Context `{Platform W} `{PersistentStorage W} `{Environment} `{MapRange}.
Abbreviation R := (RS W).

Lemma allMemberVersionsKnown_spec (c : Cluster) (w : W) :
  allMemberVersionsKnown (members_view c w) = true ↔ all_known (c_members c).
Proof.
  unfold allMemberVersionsKnown, all_known. rewrite forallb_forall. simpl.
  split; intros Hm m Hin; apply orb_true_iff, Hm; by apply list_elem_of_In.
Qed.

Lemma lowest_spec pos (c : Cluster) (w : W) learned :
  (GetLowestKnownMemberVersion learned pos (members_view c w) = "" ∧
   ∀ m v, m ∈ members (c_members c) → VersionKnown (MemberVersion m) = true →
     NewVersion learned (MemberVersion m) ≠ Ok v) ∨
  ∃ lo, GetLowestKnownMemberVersion learned pos (members_view c w) = v_version lo ∧
    lowest_version learned (c_members c) lo.
Proof.
  unfold GetLowestKnownMemberVersion.
  set (l := GetKnownMemberVersions learned pos (members_view c w)).
  assert (∀ v, v ∈ stable_sort version_leb l ↔ known_version learned (members_view c w) v) as Hin
    by (intros v; by rewrite stable_sort_perm; apply elem_of_known).
  pose proof (version_sorted l) as Hs. destruct (stable_sort version_leb l) as [|lo l'].
  - left. split; [done|]. intros m v Hm Hk Hv. apply (not_elem_of_nil v), Hin. by exists m.
  - right. exists lo. split; [done|]. split; [apply Hin; by left|]. intros m v Hm Hk Hv.
    assert (v ∈ lo :: l') as [->|Hl]%elem_of_cons by (apply Hin; by exists m); [apply key_lt_irrefl|].
    inversion_clear Hs as [|? ? _ Hlo]. rewrite Forall_forall in Hlo. by apply version_leb_spec, Hlo.
Qed.
End versions.

(** ** The baseline *)
Section baseline_spec.
Context `{Platform W} `{StorageLaws W view ready} `{Environment} `{MapRange}.
Abbreviation R := (RS W).

(** Only the stored version and its copy in the status may differ. *)
Record moved (s s' : R) : Prop := {
  moved_fsm : fsm s' = fsm s;
  moved_trace : trace s' = trace s;
  moved_cl : cl s' = cl s ∨ ∃ v, cl s' = set_status (SetVersion v) (cl s);
  moved_store k : k ≠ VersionKey → view (world s') !! k = view (world s) !! k;
}.

Lemma get_current (s : R) :
  ready (world s) →
  ∃ w', attempt (on_world (ps_Get VersionKey)) s =
    (Ok match baseline view s with Some v => inl v | None => inr ErrKeyError end, set_world w' s) ∧
    view w' = view (world s).
Proof.
  intros Hr. unfold baseline, attempt, on_world, zoom. destruct (view (world s) !! VersionKey) as [v|] eqn:Hv.
  - rewrite (get_law VersionKey v _ Hr Hv). by exists (world s).
  - destruct (get_missing_law VersionKey _ Hr Hv) as (w'&->&Hw). by exists w'.
Qed.

Lemma setClusterVersion_spec version (s : R) :
  ready (world s) →
  let '(r, s') := setClusterVersion version s in
  moved s s' ∧
  (baseline view s' = baseline view s ∧ baseline_copy s' = baseline_copy s ∨
   VersionKnown version = true ∧ baseline view s' = Some version ∧
     (baseline_copy s' = baseline_copy s ∨ baseline_copy s' = version) ∧
     (baseline view s = Some version ∨ all_known (c_members (cl s)))) ∧
  (r = Ok tt → VersionKnown version = true → all_known (c_members (cl s)) →
     baseline view s' = Some version ∧ baseline_copy s' = version).
Proof.
  intros Hr. unfold setClusterVersion.
  destruct (VersionKnown version) eqn:Hk; cbn [negb].
  2: { split; [by split; [..|left|]|]. split; [by left|done]. }
  destruct (get_current s Hr) as (w'&Hg&Hw). run Hg. rewrite run_bind with (a := cl s) (s' := set_world w' s) by done.
  rewrite run_bind with (a := w') (s' := set_world w' s) by done.
  case_bool_decide as Hcur.
  - assert (baseline view s = Some version) as Hb by (destruct (baseline view s); [by injection Hcur as ->|done]).
    unfold modify. split; [split; [done..|right; by exists version|intros k _; simpl; by rewrite Hw]|].
    split; [right; split; [done|]; unfold baseline; simpl; rewrite Hw; auto|].
    intros _ _ _. unfold baseline. simpl. by rewrite Hw.
  - destruct (allMemberVersionsKnown _) eqn:Hall; cbn [negb].
    2: { split; [split; [done..|by left|intros k _; simpl; by rewrite Hw]|].
         split; [left; unfold baseline; simpl; by rewrite Hw|].
         intros _ _ Hknown. apply (allMemberVersionsKnown_spec (cl s) w') in Hknown. congruence. }
    apply (allMemberVersionsKnown_spec (cl s) w') in Hall.
    pose proof (upsert_law VersionKey version w') as Hu. unfold written in Hu.
    unfold mbind, M_bind, on_world, zoom. cbn [world set_world].
    destruct (ps_Upsert VersionKey version w') as [[[]|e|] w2]; simpl; [| |done].
    + split; [split; [done..|right; by exists version|]|].
      { intros k Hk'. simpl. by rewrite Hu, lookup_insert_ne, Hw. }
      unfold baseline. simpl. rewrite Hu, lookup_insert_eq. split; [right; auto|done].
    + assert (view w2 = view w' ∨ view w2 = <[VersionKey := version]> (view w')) as Hor by exact Hu.
      split; [split; [done..|by left|]|].
      { intros k Hk'. simpl. destruct Hor as [->| ->]; [by rewrite Hw|]. by rewrite lookup_insert_ne, Hw. }
      split; [|done]. unfold baseline. simpl. destruct Hor as [->| ->]; [left; by rewrite Hw|right].
      rewrite lookup_insert_eq. auto.
Qed.

(** C17: the recorded version of a cluster follows its lowest member and nothing else.
    Where the store is up to date, [reconcileVersionBaseline] changes no other key
    and nothing else of the cluster; it moves the baseline only to the text of a
    version no known version of a member is below, and only if every member of the
    operator says its version; it does so whenever it ends well and can; and the copy
    in the status never says what is not stored. *)
Theorem reconcileVersionBaseline_spec pos (s : R) (Hready : ready (world s)) :
  let '(r, s') := reconcileVersionBaseline pos s in
  let lowest := lowest_version (c_learned (cl s)) (c_members (cl s)) in
  moved s s' ∧
  (baseline view s' = baseline view s ∨
   all_known (c_members (cl s)) ∧ ∃ lo, lowest lo ∧ baseline view s' = Some (v_version lo)) ∧
  (baseline_copy s' = baseline_copy s ∨ baseline view s' = Some (baseline_copy s')) ∧
  (r = Ok tt → all_known (c_members (cl s)) → (∃ lo, lowest lo) →
   (∀ lo, lowest lo → VersionKnown (v_version lo) = true) →
   ∃ lo, lowest lo ∧ baseline view s' = Some (v_version lo) ∧ baseline_copy s' = v_version lo).
Proof.
  unfold reconcileVersionBaseline, updateVersionBaseline.
  rewrite run_bind with (a := cl s) (s' := s) by done. rewrite run_bind with (a := world s) (s' := s) by done.
  destruct (lowest_spec pos (cl s) (world s) (c_learned (cl s))) as [[-> Hno]|(lo&Hlo&Hlow)].
  - rewrite bool_decide_eq_true_2 by done. unfold setClusterVersion. simpl.
    split; [split; [..|left|]; done|]. split; [by left|]. split; [by left|].
    intros _ _ (lo&(m&Hm&Hk&Hv)&_). by destruct (Hno m lo).
  - assert ((if bool_decide (GetLowestKnownMemberVersion (c_learned (cl s)) pos (members_view (cl s) (world s)) = "")
             then "" else GetLowestKnownMemberVersion (c_learned (cl s)) pos (members_view (cl s) (world s)))
            = v_version lo) as -> by (rewrite Hlo; by case_bool_decide).
    pose proof (setClusterVersion_spec (v_version lo) s Hready) as Hs.
    destruct (setClusterVersion (v_version lo) s) as [r s']. destruct Hs as (Hm&Hor&Hex). split; [done|].
    split; [|split].
    + destruct Hor as [[Hb _]|(_&Hb&_&[Hb'|Hall])]; [by left|left; congruence|right]. split; [done|]. by exists lo.
    + destruct Hor as [[_ ?]|(_&Hb&[?| ->]&_)]; [by left|by left|by right].
    + intros -> Hall _ Hk. exists lo. split; [done|]. by apply Hex; [|apply Hk|].
Qed.
End baseline_spec.

(** ** The members *)

(** Members and who can be called stay as they are. *)
Definition same_members {W} (s s' : RS W) : Prop :=
  c_members (cl s') = c_members (cl s) ∧ c_callableMembers (cl s') = c_callableMembers (cl s).

#[export] Instance same_members_preorder {W} : PreOrder (@same_members W).
Proof.
  split; [by intros s; split|]. intros s1 s2 s3 [] []. split; congruence.
Qed.

Lemma same_members_world {W A} (m : M W A) : keeps same_members (on_world m).
Proof. by apply keeps_zoom. Qed.
#[export] Hint Resolve same_members_world : keeps.
#[export] Hint Extern 1 (keeps same_members (modify (log_effect _))) => by apply keeps_modify : keeps.
#[export] Hint Extern 1 (keeps same_members (modify (set_cl (set_status _)))) => by apply keeps_modify : keeps.

(** Nodes nobody knows of come from Couchbase only. *)
Definition foreign (ms : MemberSet) : Prop := keyed ms ∧ ∀ n m, ms !! n = Some m → IsExternal m = true.

Lemma foreign_Add host (ms : MemberSet) : foreign ms → foreign (Add (NewExternalMember host "" false) ms).
Proof.
  intros [Hk He]. split; [by apply keyed_Add|]. intros n m. unfold Add.
  rewrite lookup_insert_Some. intros [[_ <-]|[_ ?]]; [done|by eapply He].
Qed.

Section members.
Context `{Platform W} `{PersistentStorage W} `{Environment} `{MapRange}.
Abbreviation R := (RS W).

Lemma nodes_loop_foreign pos hostNetwork ms l : ∀ i states unknown states' unknown',
  nodes_loop pos i hostNetwork ms states unknown l = Ok (states', unknown') → foreign unknown → foreign unknown'.
Proof.
  induction l as [|node l IH]; intros i states unknown states' unknown'; cbn [nodes_loop].
  { by intros [= <- <-]. }
  destruct (getNodeState node) as [x| |]; [|done..]. cbn [mbind result_bind]. intros Hl Hf.
  eapply IH; [exact Hl|]. case_match; [done|by apply foreign_Add].
Qed.

Lemma status_foreign learned pos hostNetwork info ms (w : W) status w' :
  getStatusFromClusterInfo learned pos hostNetwork info ms w = (Ok status, w') → foreign (UnknownMembers status).
Proof.
  unfold getStatusFromClusterInfo. destruct (nodes_loop _ _ _ _ _ _ _) as [[states unknown]| |] eqn:E; [|done..].
  destruct (isUpgrading w) as [upgrading w1]. destruct (upgrade_balanced _ _ _ _) as [b| |]; [|done..].
  intros [= <- _]. simpl. eapply nodes_loop_foreign; [exact E|]. split; [apply keyed_empty|done].
Qed.

Lemma GetStatusUnsafe_foreign pos ms (s s' : R) status :
  GetStatusUnsafe pos ms s = (Ok status, s') → foreign (UnknownMembers status).
Proof.
  unfold GetStatusUnsafe, getStatusFromTarget. intros Hs. inv_ok Hs. inv_ok Hs. inv_ok Hs. inv_ok Hs. inv_ok Hs.
  injection Hs as <- _. unfold on_world, zoom in Hs2.
  destruct (getStatusFromClusterInfo _ _ _ _ _ _) as [r w] eqn:E. injection Hs2 as -> _.
  apply status_foreign in E. unfold applyRebalanceError. by repeat case_match.
Qed.

Lemma members_in_spec pos P status ms : keyed ms → ∀ n m,
  members_in pos P status ms !! n = Some m ↔
  ms !! n = Some m ∧ ∃ st, NodeStates status !! n = Some st ∧ P st = true.
Proof.
  intros Hk n m. unfold members_in.
  rewrite (fold_add_empty (λ e : string * Member, st ← NodeStates status !! e.1; if P st then Some e.2 else None) _ ms).
  - split.
    + intros (Hn&Hm&[k m']&Hin&Hsel). apply elem_of_range_entry in Hin. simpl in Hsel.
      apply bind_Some in Hsel as (st&Hst&Hp). destruct (P st) eqn:E; [|done]. injection Hp as ->.
      apply Hk in Hin as Hkey. split; [done|]. exists st. split; [|done]. congruence.
    + intros (Hn&st&Hst&Hp). split; [done|]. split; [by apply Hk|]. exists (n, m).
      rewrite elem_of_range_entry. simpl. by rewrite Hst; simpl; rewrite Hp.
  - intros acc e. destruct (NodeStates status !! e.1) as [st|]; simpl; [by destruct (P st)|done].
  - intros [k m'] o Hin Hsel. apply elem_of_range_entry in Hin. simpl in Hsel.
    apply bind_Some in Hsel as (st&_&Hp). destruct (P st); [|done]. injection Hp as <-. by rewrite (Hk _ _ Hin).
Qed.

(** What the members are, out of the running pods, the claims and what Couchbase
    reports besides. *)
Record member_sources (run claims ms callable : MemberSet) : Prop := {
  ms_running : run ⊆ ms;
  ms_claims n m : run !! n = None → claims !! n = Some m → ms !! n = Some m;
  ms_only n m : ms !! n = Some m → run !! n = Some m ∨ claims !! n = Some m ∨ IsExternal m = true;
  ms_callable : callable ⊆ run;
}.

Lemma sources_merge run claims unknown callable :
  keyed run → keyed claims → foreign unknown → callable ⊆ run →
  member_sources run claims (Merge (Merge (Merge ∅ run) claims) unknown) callable.
Proof.
  intros Hr Hc [Hu He] Hs. rewrite !Merge_union, (left_id_L ∅ (∪)) by done. split; [| | |done].
  - etrans; apply map_union_subseteq_l.
  - intros n m Hn Hm. rewrite !lookup_union, Hn, Hm. by destruct (unknown !! n).
  - intros n m. rewrite !lookup_union.
    destruct (run !! n), (claims !! n), (unknown !! n) as [o|] eqn:E; simpl; intros [= ->]; auto.
    right. right. by eapply He.
Qed.

Lemma status_written ready unready (s : R) :
  let '(r, s') := updateMemberStatusWithClusterInfo ready unready s in same_members s s' ∧ trace s' = trace s.
Proof.
  assert (keeps (λ s s' : R, same_members s s' ∧ trace s' = trace s)
            (updateMemberStatusWithClusterInfo (W := W) ready unready)) as Hk.
  { assert (PreOrder (λ s s' : R, same_members s s' ∧ trace s' = trace s)).
    { split; [by intros s0|]. intros s1 s2 s3 [??] [??]. split; [by etrans|congruence]. }
    unfold updateMemberStatusWithClusterInfo. apply keeps_bind; [apply _|by apply keeps_modify|].
    intros _. apply keeps_ignore; [apply _|]. eapply keeps_weaken; [apply updateCRStatus_only|].
    intros s1 s2 (_&Hc&Ht). unfold same_members. by rewrite Hc. }
  specialize (Hk s). by destruct (updateMemberStatusWithClusterInfo ready unready s).
Qed.

(** The last two steps of [updateMembers]. *)
Lemma members_written ms ready callable (s : R) :
  let '(r, s') := (updateMemberStatusWithClusterInfo ready (Diff ms ready);;
                   modify (set_cl (set_members ms callable))) s in
  match r with
  | Ok _ => c_members (cl s') = ms ∧ c_callableMembers (cl s') = callable ∧ trace s' = trace s
  | _ => same_members s s'
  end.
Proof.
  unfold mbind, M_bind. pose proof (status_written ready (Diff ms ready) s) as Hw.
  destruct (updateMemberStatusWithClusterInfo _ _ s) as [[[]|e|] s']; naive_solver.
Qed.

Lemma find_members_same pos : keeps same_members (find_members (W := W) pos).
Proof. unfold find_members, GetStatusUnsafe, getStatusFromTarget. keeps_tac. Qed.

Lemma find_members_ok pos (s s1 : R) ms ready callable :
  find_members pos s = (Ok (ms, ready, callable), s1) →
  let run := podsToMemberSet (runningPods (cl s) (world s)) in
  member_sources run (pvcMembers (cl s) (world s)) ms callable ∧
  (run ≠ ∅ → IsMigrationCluster (c_cluster (cl s)) = false → ∃ status,
     StatusSeen status ∈ trace s1 ∧
     ∀ n m, callable !! n = Some m ↔ run !! n = Some m ∧ ∃ st, NodeStates status !! n = Some st ∧ Callable st = true).
Proof.
  unfold find_members. intros Hs. inv_ok Hs. injection Hs0 as <- <-. inv_ok Hs. injection Hs0 as <- <-.
  set (run := podsToMemberSet _) in *. set (claims := pvcMembers _ _) in *.
  assert (keyed run) as Hr by apply add_all_keyed, keyed_empty.
  assert (keyed claims) as Hc by apply add_all_keyed, keyed_empty.
  assert (member_sources run claims (Merge (Merge ∅ run) claims) ∅) as Hempty.
  { pose proof (sources_merge run claims ∅ ∅ Hr Hc) as Hm.
    rewrite (Merge_union _ ∅), (right_id_L ∅ (∪)) in Hm by apply keyed_empty.
    apply Hm; [|apply map_empty_subseteq]. by split; [apply keyed_empty|]. }
  destruct (Empty run) eqn:Ee.
  { injection Hs as <- _ <- <-. split; [done|]. intros Hne. destruct Hne.
    unfold Empty in Ee. by apply bool_decide_eq_true, map_size_empty_inv in Ee. }
  inv_ok Hs. destruct a as [status|e].
  - injection Hs as <- _ <- <-. unfold attempt in Hs0.
    destruct (GetStatusUnsafe _ run s) as [[st|e|] s2] eqn:Eg; [|done..]. injection Hs0 as <- <-.
    pose proof (members_in_spec (1%nat :: pos) Callable st run Hr) as Hin. split.
    + apply sources_merge; [done|done|by eapply GetStatusUnsafe_foreign|].
      apply map_subseteq_spec. intros n m Hn. by apply Hin in Hn as [? _].
    + intros _ _. exists st. split; [|exact Hin].
      unfold GetStatusUnsafe in Eg. apply getStatusFromTarget_ok in Eg as (_&_&->). set_solver.
  - destruct (IsMigrationCluster _); [|done]. injection Hs as <- _ <- <-. by split.
Qed.

(** C18: who the members are: where [updateMembers] ends well every running pod is a
    member, a claim that can be recovered stands for its member where the pod is gone,
    and nothing else is a member except nodes only Couchbase knows; only running pods are
    called, and those exactly by the state Couchbase reported for them.  Where it
    does not end well the members are those of the last time. *)
Theorem updateMembers_spec pos (s : R) :
  let '(r, s') := updateMembers pos s in
  let run := podsToMemberSet (runningPods (cl s) (world s)) in
  let claims := pvcMembers (cl s) (world s) in
  match r with
  | Ok _ =>
      member_sources run claims (c_members (cl s')) (c_callableMembers (cl s')) ∧
      (run ≠ ∅ → IsMigrationCluster (c_cluster (cl s)) = false → ∃ status,
         StatusSeen status ∈ trace s' ∧
         ∀ n m, c_callableMembers (cl s') !! n = Some m ↔
           run !! n = Some m ∧ ∃ st, NodeStates status !! n = Some st ∧ Callable st = true)
  | _ => same_members s s'
  end.
Proof.
  unfold updateMembers. pose proof (find_members_same pos s) as Hsame.
  destruct (find_members pos s) as [[[[ms ready] callable]|e|] s1] eqn:E;
    unfold mbind at 1, M_bind at 1; rewrite E; [|done..].
  destruct (find_members_ok _ _ _ _ _ _ E) as [Hsrc Hcall].
  pose proof (members_written ms ready callable s1) as Hw.
  destruct ((updateMemberStatusWithClusterInfo _ _;; _) s1) as [[[]|e|] s']; [|by etrans..].
  destruct Hw as (->&->&->). done.
Qed.
End members.

(** ** Upgrades while hibernated settle *)
Lemma dom_add_all (l : list Member) : ∀ ms : MemberSet,
  (∀ m, m ∈ l → Name m ∈ (dom ms : gset string)) → dom (add_all l ms) = (dom ms : gset string).
Proof.
  unfold add_all. induction l as [|m l IH]; intros ms Hl; simpl; [done|].
  assert (dom (Add m ms) = (dom ms : gset string)) as Hd.
  { unfold Add. rewrite dom_insert_L. assert (Name m ∈ (dom ms : gset string)) by (apply Hl; by left). set_solver. }
  rewrite IH; [done|]. intros o Ho. rewrite Hd. apply Hl. by right.
Qed.

Lemma GetImage_stamp image version m : IsExternal m = false → GetImage (stamp image version m) = image.
Proof. by destruct m as [[]|]. Qed.

Lemma MemberVersion_stamp image version m : IsExternal m = false → MemberVersion (stamp image version m) = version.
Proof. by destruct m as [[]|]. Qed.

Section offline.
Context `{Environment} (learned : gmap string string) (newVersion newImage : string).
Context (ms : MemberSet) (Hk : keyed ms) (Hint : ∀ m, m ∈ members ms → IsExternal m = false).
Context (taken rest : list Member).
Context (Hall : taken ++ rest ≡ₚ members (offline_needs learned newVersion newImage ms)).

Let woken : MemberSet := add_all (stamp newImage newVersion <$> taken) ms.

Lemma needs_in m : m ∈ taken ++ rest ↔ ms !! Name m = Some m ∧ needs_offline_upgrade learned newVersion newImage m = true.
Proof.
  rewrite Hall, elem_of_keyed by (by apply keyed_filter). unfold offline_needs. by rewrite map_lookup_filter_Some.
Qed.

Lemma taken_picks : picks ms taken.
Proof.
  assert (picks ms (taken ++ rest)) as [Hn Hi].
  { eapply picks_perm; [symmetry; exact Hall|]. eapply picks_perm; [apply ToList_perm|].
    apply (picks_mono (offline_needs learned newVersion newImage ms)); [apply map_filter_subseteq|].
    apply picks_ToList. by apply keyed_filter. }
  split; [rewrite fmap_app in Hn; by apply NoDup_app in Hn as [? _]|]. intros m Hm. apply Hi, elem_of_app. by left.
Qed.

Lemma woken_members m :
  m ∈ members woken ↔ m ∈ stamp newImage newVersion <$> taken ∨ (m ∈ members ms ∧ Name m ∉ Name <$> taken).
Proof. unfold woken. apply (stamped_members _ _ taken ms ms); [done|apply taken_picks]. Qed.

Lemma woken_keyed : keyed woken.
Proof. by apply add_all_keyed. Qed.

Lemma woken_size : size woken = size ms.
Proof.
  rewrite <- !(size_dom (D := gset string)). f_equal. apply dom_add_all.
  intros m (o&->&Ho)%list_elem_of_fmap. rewrite Name_stamp. apply elem_of_dom. exists o.
  by apply (picks_in _ _ taken_picks).
Qed.

Lemma stamped_done m : m ∈ stamp newImage newVersion <$> taken →
  GetImage m = newImage ∧ MemberVersion m = newVersion.
Proof.
  intros (o&->&Ho)%list_elem_of_fmap. assert (IsExternal o = false) as Hi.
  { apply Hint. apply (elem_of_keyed _ _ Hk). by apply (picks_in _ _ taken_picks). }
  by rewrite GetImage_stamp, MemberVersion_stamp.
Qed.

Lemma woken_needs : members (offline_needs learned newVersion newImage woken) ≡ₚ rest.
Proof.
  assert (NoDup (Name <$> (taken ++ rest))) as Hnd.
  { rewrite Hall. apply members_names_NoDup. by apply keyed_filter. }
  assert (NoDup (taken ++ rest)) as Hnd' by (by eapply NoDup_fmap_1).
  apply NoDup_app in Hnd' as (_&_&Hr).
  assert (keyed (offline_needs learned newVersion newImage woken)) as Hkn by (apply keyed_filter, woken_keyed).
  apply NoDup_Permutation; [by apply members_NoDup|done|]. intros m. rewrite elem_of_keyed by done.
  unfold offline_needs. rewrite map_lookup_filter_Some. rewrite <- (elem_of_keyed _ _ woken_keyed), woken_members. simpl.
  split.
  - intros [[Hm|[Hm Hno]] Hneed].
    + apply stamped_done in Hm as [Hi _]. unfold needs_offline_upgrade in Hneed. by rewrite bool_decide_eq_true_2 in Hneed.
    + apply (elem_of_keyed _ _ Hk) in Hm.
      assert (m ∈ taken ++ rest) as [Ht|?]%elem_of_app by (by apply needs_in); [|done].
      destruct Hno. by apply list_elem_of_fmap_2.
  - intros Hm. assert (m ∈ taken ++ rest) as Hin by (apply elem_of_app; by right).
    apply needs_in in Hin as [Hms Hneed]. split; [right|done]. split; [by apply (elem_of_keyed _ _ Hk)|].
    rewrite fmap_app in Hnd. apply NoDup_app in Hnd as (_&Hdis&_).
    intros Ht. by eapply Hdis; [exact Ht|apply list_elem_of_fmap_2].
Qed.

Lemma woken_versions : versions_in_use newVersion newImage woken ⊆ versions_in_use newVersion newImage ms.
Proof.
  unfold versions_in_use. intros v [Hv|Hv]%elem_of_union; apply elem_of_union; [by left|].
  apply elem_of_list_to_set, list_elem_of_fmap in Hv as (m&->&[Hm|[Hm _]]%woken_members).
  - left. apply stamped_done in Hm as [-> ->]. by apply elem_of_singleton.
  - right. apply elem_of_list_to_set. by apply (list_elem_of_fmap_2 (λ m, versionKey (MemberVersion m) (GetImage m))).
Qed.
End offline.

Section settle.
Context `{Platform W} `{PersistentStorage W} `{Environment} `{MapRange}.
Abbreviation R := (RS W).

(** No overflow where a set of members can be counted. *)
Lemma offline_remaining_eq keep (ms needs : MemberSet) :
  0 ≤ keep → Z.of_nat (size ms) ≤ MaxInt → (size needs ≤ size ms)%nat →
  offline_remaining keep ms needs = Z.of_nat (size needs) - Z.min keep (Z.of_nat (size ms)).
Proof.
  intros. unfold offline_remaining. unfold MaxInt in *.
  rewrite (wrap64_id (_ - Z.min _ _)) by (unfold MinInt, MaxInt; lia).
  rewrite wrap64_id by (unfold MinInt, MaxInt; lia). lia.
Qed.

(** A run that names candidates, taken apart. *)
Lemma offline_ok (s s' : R) l :
  offlineUpgradeCandidates s = (Ok (l, false), s') →
  order_ok (members_view (cl s) (world s)) → keyed (c_members (cl s)) →
  ∃ newVersion, let c := cl s in let newImage := CouchbaseImage (Spec (c_cluster c)) in
    let needs := offline_needs (c_learned c) newVersion newImage (c_members c) in
    CouchbaseImageVersion (c_learned c) newImage = Ok newVersion ∧
    (l = [] ∨
     (size (versions_in_use newVersion newImage (c_members c)) ≤ 2)%nat ∧
     0 < offline_remaining (keep_old c) (c_members c) needs ∧
     ∃ rest, l ++ rest ≡ₚ members needs ∧
       length l = Nat.min (Z.to_nat (offline_remaining (keep_old c) (c_members c) needs)) (size needs)).
Proof.
  unfold offlineUpgradeCandidates. intros Hs Hord Hk. inv_ok Hs. injection Hs0 as <- <-. inv_ok Hs.
  injection Hs0 as Hv <-. exists a. split; [done|].
  case_bool_decide as Hsize; [left; by injection Hs|]. case_bool_decide as Hvs; [done|].
  case_bool_decide as Hrem; [left; by injection Hs|]. right. split; [lia|]. split; [lia|].
  inv_ok Hs. inv_ok Hs. injection Hs1 as <- <-. injection Hs as <- <-.
  set (needs := offline_needs _ _ _ _) in *. set (rem := offline_remaining _ _ _) in *.
  set (u := upgrade_view (cl s) (world s0) (Err ErrInternalError) a0).
  assert (sortCandidatesByUpgradeOrder u needs ≡ₚ members needs) as Hp.
  { apply sortCandidates_perm; [by apply keyed_filter|exact Hord]. }
  exists (drop (Z.to_nat rem) (sortCandidatesByUpgradeOrder u needs)).
  split; [by rewrite take_drop|]. by rewrite length_take, Hp, length_members.
Qed.

(** C19: waking a hibernated cluster on a new image settles at once: the members to be
    woken are distinct members that were not on the image; once they are stamped with
    it and its version, and whatever else the world did meanwhile, no member is left
    to upgrade, so the members held back by [previousVersionPodCount] never start
    the upgrade again. *)
Theorem offlineUpgradeCandidates_settles (s s1 t t1 : R) l l' blocked
    (Hrun : offlineUpgradeCandidates s = (Ok (l, false), s1))
    (Horder : order_ok (members_view (cl s) (world s)))
    (Hkeyed : keyed (c_members (cl s)))
    (Hpods : ∀ m, m ∈ members (c_members (cl s)) → IsExternal m = false)
    (Hcount : 0 ≤ keep_old (cl s)) (Hsize : Z.of_nat (size (c_members (cl s))) ≤ MaxInt)
    (Hnext : ∀ newVersion, CouchbaseImageVersion (c_learned (cl s)) (CouchbaseImage (Spec (c_cluster (cl s)))) = Ok newVersion →
       cl t = set_members (add_all (stamp (CouchbaseImage (Spec (c_cluster (cl s)))) newVersion <$> l)
                (c_members (cl s))) (c_callableMembers (cl t)) (cl s))
    (Hagain : offlineUpgradeCandidates t = (Ok (l', blocked), t1)) (Hsome : l ≠ []) :
  NoDup (Name <$> l) ∧ (∀ m, m ∈ l → c_members (cl s) !! Name m = Some m ∧
    GetImage m ≠ CouchbaseImage (Spec (c_cluster (cl s)))) ∧
  l' = [] ∧ blocked = false.
Proof.
  destruct (offline_ok _ _ _ Hrun Horder Hkeyed) as (v&Hv&[->|(Hvs&Hrem&rest&Hperm&Hlen)]); [done|].
  specialize (Hnext v Hv).
  set (img := CouchbaseImage (Spec (c_cluster (cl s)))) in *. set (ms := c_members (cl s)) in *.
  set (learned := c_learned (cl s)) in *.
  destruct (taken_picks learned v img ms Hkeyed l rest Hperm) as [Hnd Hin].
  split; [done|]. split.
  { intros m Hm. split; [by apply Hin|]. intros Himg.
    assert (m ∈ l ++ rest) as Hmr by (apply elem_of_app; by left).
    apply (needs_in learned v img ms Hkeyed l rest Hperm) in Hmr as [_ Hneed].
    unfold needs_offline_upgrade in Hneed. by rewrite bool_decide_eq_true_2 in Hneed. }
  pose proof (woken_needs learned v img ms Hkeyed Hpods l rest Hperm) as Hneeds.
  pose proof (woken_versions learned v img ms Hkeyed Hpods l rest Hperm) as Hvers.
  pose proof (woken_size learned v img ms Hkeyed l rest Hperm) as Htotal.
  set (woken := add_all _ ms) in *.
  assert (offline_remaining (keep_old (cl s)) woken (offline_needs learned v img woken) ≤ 0) as Hdone.
  { assert (size (offline_needs learned v img woken) = length rest) as Hsn by (by rewrite <- length_members, Hneeds).
    assert ((length l + length rest)%nat = size (offline_needs learned v img ms)) as Hsl
      by (by rewrite <- length_app, Hperm, length_members).
    assert (size (offline_needs learned v img ms) ≤ size ms)%nat as Hle
      by (rewrite <- !(size_dom (D := gset string)); apply subseteq_size, dom_filter_subseteq).
    rewrite offline_remaining_eq in Hrem, Hlen by done.
    rewrite offline_remaining_eq by (rewrite ?Htotal; lia). lia. }
  revert Hagain. unfold offlineUpgradeCandidates. intros Hs. inv_ok Hs. injection Hs0 as <- <-.
  inv_ok Hs. injection Hs0 as Hv' <-. rewrite Hnext in Hv', Hs. cbn in Hv', Hs. fold img learned woken in Hv', Hs.
  assert (a = v) as -> by congruence.
  rewrite (bool_decide_eq_false_2 (size _ = 0)%nat) in Hs.
  2: { rewrite Htotal. intros Hzero. apply map_size_empty_inv in Hzero. destruct l as [|m l]; [done|].
       assert (ms !! Name m = Some m) by (apply Hin; by left). rewrite Hzero in *. set_solver. }
  rewrite bool_decide_eq_false_2 in Hs; [|apply subseteq_size in Hvers; lia].
  rewrite bool_decide_eq_true_2 in Hs by done. by injection Hs.
Qed.
End settle.

(** ** On the simulated platform *)
#[export] Instance sim_storage_laws : StorageLaws Sim sim_store (λ _, True).
Proof.
  split; intros; cbn [ps_Insert ps_Upsert ps_Update ps_Delete ps_DeleteXDCR ps_Get ps_Clear sim_storage];
    unfold written, sim_storage_op, zoom, ps_Insert, ps_Upsert, ps_Update, ps_Delete, ps_DeleteXDCR, ps_Get, ps_Clear,
      map_storage; simpl; repeat case_match; simplify_eq; try done.
  - by destruct s.
  - eexists. by split.
Qed.

Lemma reconcileVersionBaseline_spec_witness :
  let '(r, s') := reconcileVersionBaseline (H1 := const None) (H2 := canonical_range) [] scaled_state in
  r = Ok tt ∧ baseline sim_store scaled_state = None ∧ baseline sim_store s' = Some "7.2.5" ∧
  ∃ lo, lowest_version (H := const None) ∅ (c_members (cl scaled_state)) lo ∧ v_version lo = "7.2.5".
Proof.
  pose proof (reconcileVersionBaseline_spec (view := sim_store) (ready := λ _, True) (H2 := const None)
    (H3 := canonical_range) [] scaled_state I) as Hs.
  assert ((λ rs : result () * RS Sim, (rs.1, baseline sim_store rs.2))
    (reconcileVersionBaseline (H1 := const None) (H2 := canonical_range) [] scaled_state) = (Ok tt, Some "7.2.5")) as Hr
    by (vm_compute; reflexivity).
  destruct (reconcileVersionBaseline [] scaled_state) as [r s']. injection Hr as -> Hb.
  split; [done|]. split; [done|]. split; [done|].
  destruct Hs as (_&[Hs|(_&lo&Hlo&Hs)]&_); [rewrite Hb in Hs; discriminate Hs|]. exists lo. split; [exact Hlo|]. congruence.
Defined.

(** Three members asleep on 7.2.5; the specification asks for 7.6.2, one of them to be
    kept on the old version. *)
Definition hibernated_cluster : Cluster :=
  mkCluster
    {| Namespace := "ns"; Api.Name := "cb"; Spec := example_spec (example_upgrade "" [] 1); Status := example_status |}
    sim_networking (c_settings (sim_cluster 3 scaled_pods)) "uid" (podsToMemberSet scaled_pods) ∅ ∅ ∅ ∅ ∅.

Definition hibernated_state : RS Sim := mkRS empty_machine hibernated_cluster scaled_world [].

Definition woken_state (l : list Member) : RS Sim :=
  set_cl (set_members (add_all (stamp "couchbase/server:7.6.2" "7.6.2" <$> l) (c_members hibernated_cluster)) ∅)
    hibernated_state.

Lemma offlineUpgradeCandidates_settles_witness :
  ∃ l, (offlineUpgradeCandidates (H1 := const None) hibernated_state).1 = Ok (l, false) ∧
    length l = 2%nat ∧ NoDup (Member.Name <$> l) ∧
    (offlineUpgradeCandidates (H1 := const None) (woken_state l)).1 = Ok ([], false).
Proof.
  assert ((λ p, (length p.1, p.2)) <$>
    (offlineUpgradeCandidates (H1 := const None) hibernated_state).1 = Ok (2%nat, false)) as Hr
    by (vm_compute; reflexivity).
  destruct (offlineUpgradeCandidates (H1 := const None) hibernated_state)
    as [[[l b]| |] s1] eqn:E; [|discriminate Hr..]. injection Hr as Hl ->.
  assert (is_ok (offlineUpgradeCandidates (H1 := const None) (woken_state l)).1 = true) as Hr'.
  { assert (l = match (offlineUpgradeCandidates (H1 := const None) hibernated_state).1 with
               | Ok (l, _) => l | _ => [] end) as -> by (rewrite E; reflexivity). vm_compute. reflexivity. }
  destruct (offlineUpgradeCandidates (H1 := const None) (woken_state l))
    as [[[l' b']| |] t1] eqn:E'; [|discriminate Hr'..].
  exists l. split; [reflexivity|]. split; [exact Hl|].
  edestruct (offlineUpgradeCandidates_settles (H1 := const None)
    hibernated_state s1 (woken_state l) t1 l l' b') as (Hnd&_&->&->); [exact E| | | | | | |exact E'| |].
  - vm_compute. intros Hn. discriminate Hn.
  - apply add_all_keyed, keyed_empty.
  - apply Forall_forall. vm_compute. repeat constructor.
  - vm_compute. done.
  - vm_compute. done.
  - intros v Hv. assert (v = "7.6.2") as -> by (vm_compute in Hv; congruence). reflexivity.
  - intros ->. discriminate Hl.
  - split; [exact Hnd|]. rewrite E'. reflexivity.
Defined.
