(* ===== verification/ClaimsSpec.v ===== *)
(** * The claims of a pod: when they are settled, and what a resize keeps *)

From Stdlib Require Import Ascii.
From S2P Require Import Prelude Effects GoLib Regex Digests Version Api Member Persistence Status.
From S2P Require Import Scheduler UpgradeOrder RollingUpgrade NodeStatus Pods Volumes Baseline Claims.
Local Open Scope Z_scope.

(** ** One claim against its template *)
Lemma Storage_json spec :
  Storage (omit_empty (Requests spec)) = Storage (Requests spec) ∧
  Storage (omit_empty (Limits spec)) = Storage (Limits spec).
Proof.
  unfold Storage, omit_empty. split.
  - destruct (Requests spec) as [q|]; [|done]. by case_bool_decide; subst.
  - destruct (Limits spec) as [q|]; [|done]. by case_bool_decide; subst.
Qed.

Lemma drop_storage_json l : drop_storage (omit_empty l) = drop_storage l ↔ l ≠ Some ∅.
Proof.
  unfold drop_storage, omit_empty. destruct l as [q|]; simpl; [|done]. case_bool_decide as Hq; simpl.
  - subst. split; [done|]. by intros [].
  - split; [|done]. intros _ [= ->]. done.
Qed.

(** What [checkIfPVCRequiresUpdate] compares, and what it leaves. *)
Lemma check_spec existing required :
  let '(update, kept) := checkIfPVCRequiresUpdate existing required in
  (update = false ↔
     Storage (Requests existing) = Storage (Requests required) ∧ Storage (Limits existing) = Storage (Limits required) ∧
     drop_storage (Requests existing) = drop_storage (Requests required) ∧
     drop_storage (Limits existing) = drop_storage (Limits required) ∧
     AccessModes existing = AccessModes required ∧ spec_rest existing = spec_rest required) ∧
  Requests kept = (if bool_decide (Storage (Requests existing) = Storage (Requests required))
                   then drop_storage (Requests required) else Requests required) ∧
  Limits kept = (if bool_decide (Storage (Requests existing) = Storage (Requests required) ∧
                                 Storage (Limits existing) = Storage (Limits required))
                 then drop_storage (Limits required) else Limits required).
Proof.
  unfold checkIfPVCRequiresUpdate. case_bool_decide as Hr.
  { rewrite !bool_decide_eq_false_2 by tauto. split; [split; [done|tauto]|done]. }
  simpl. case_bool_decide as Hl.
  { rewrite bool_decide_eq_true_2, bool_decide_eq_false_2 by tauto. split; [split; [done|tauto]|done]. }
  simpl. rewrite (bool_decide_eq_true_2 (Storage (Requests existing) = _)) by done.
  rewrite (bool_decide_eq_true_2 (_ ∧ _)) by done. split; [|done].
  rewrite negb_false_iff, bool_decide_eq_true. split; [|by intros (_&_&->&->&->&->)].
  intros Heq. by injection Heq.
Qed.

(** A claim that carries the template as it is written settles, unless the template
    spells out an empty map. *)
Lemma written_template_settles (spec : PVCSpec) :
  (checkIfPVCRequiresUpdate (json_form spec) spec).1 = false ↔ Requests spec ≠ Some ∅ ∧ Limits spec ≠ Some ∅.
Proof.
  pose proof (check_spec (json_form spec) spec) as Hs. destruct (checkIfPVCRequiresUpdate _ _) as [u kept].
  destruct Hs as [-> _]. destruct (Storage_json spec) as [Hr Hl]. simpl. rewrite Hr, Hl, !drop_storage_json. tauto.
Qed.

(** ** All claims of a pod *)
Section settled.
Context `{Environment} `{SpecJSON} (operator_version : string).
Context (learned : gmap string string) (storage : StorageSpec) (cc : CouchbaseCluster).
Context (pvcs : list PVC) (events : string → result (list Event)) (now : Z).

Definition is_local (template : ClaimTemplate) : bool :=
  bool_decide (is_Some (ct_Annotations template !! LocalStorageAnnotation)).

(** The mounts that have a claim of their own: of the mounts on one local template, the
    first. *)
Fixpoint own_claims (seen : gset string) (l : list volumeMount) : list volumeMount :=
  match l with
  | [] => []
  | mount :: l =>
      match GetVolumeClaimTemplate storage (persistentVolumeClaimTemplateName mount) with
      | None => []
      | Some template =>
          if is_local template && bool_decide (persistentVolumeClaimTemplateName mount ∈ seen)
          then own_claims seen l
          else mount :: own_claims (if is_local template
                                    then {[persistentVolumeClaimTemplateName mount]} ∪ seen else seen) l
      end
  end.

(** The claim of a mount is there, as the template wants it, and no resize of it failed. *)
Definition claim_settled (m : Member) (mount : volumeMount) : bool :=
  match GetVolumeClaimTemplate storage (persistentVolumeClaimTemplateName mount),
        findMemberPVC pvcs (Name m) (mountPath mount) with
  | Some template, Ok pvc =>
      match existing_spec pvc with
      | Ok existing =>
          negb (checkIfPVCRequiresUpdate existing (ct_Spec template)).1 &&
          negb (IsVolumeExpansionEnabled (Spec cc) (ct_Annotations template) &&
                bool_decide (default 0 (pvc_Capacity pvc !! ResourceStorage) < Storage (Requests (pvc_Spec pvc))) &&
                bool_decide (checkVolumeResizeFailure storage events now pvc = Err ErrVolumeResizeError))
      | _ => false
      end
  | _, _ => false
  end.

Lemma extend_need mount key value p :
  volumes_need_update (extend_shared mount key value p) = volumes_need_update p.
Proof. unfold volumes_need_update, extend_shared. simpl. by rewrite !length_fmap. Qed.

Lemma need_create e e' p : volumes_need_update (add_create e (add_pvc e' p)) = true.
Proof.
  unfold volumes_need_update. simpl. rewrite length_app. simpl.
  rewrite (bool_decide_eq_true_2 (_ + 1 ≠ 0)%nat) by lia. by rewrite orb_true_r.
Qed.

Lemma need_update e p : volumes_need_update (add_update e p) = true.
Proof.
  unfold volumes_need_update. simpl. rewrite length_app. simpl. by rewrite bool_decide_eq_true_2 by lia.
Qed.

Lemma need_failed n e p : volumes_need_update (add_failed n e p) = true.
Proof.
  unfold volumes_need_update. simpl. rewrite (bool_decide_eq_true_2 (size _ ≠ 0%nat)); [by rewrite orb_true_r|].
  intros Hs%map_size_empty_inv. by apply insert_non_empty in Hs.
Qed.

Definition mounted (p : VolumeState) : list string * list (string * string * string) :=
  (vs_volumes p, vs_volumeMounts p).

Lemma addVolume_need required m mount template p p' :
  GetVolumeClaimTemplate storage (persistentVolumeClaimTemplateName mount) = Some template →
  pvc_Spec required = ct_Spec template →
  addVolume storage pvcs events now required m mount
    (IsVolumeExpansionEnabled (Spec cc) (ct_Annotations template)) p = Ok p' →
  volumes_need_update p' = volumes_need_update p || negb (claim_settled m mount) ∧ mounted p' = mounted p.
Proof.
  intros Ht Hspec. unfold addVolume, claim_settled. rewrite Ht, Hspec.
  destruct (findMemberPVC pvcs (Name m) (mountPath mount)) as [pvc|e|].
  2-3: by intros [= <-]; rewrite need_create, orb_true_r.
  destruct (existing_spec pvc) as [existing|e|]; [|done..]. cbn [mbind result_bind].
  destruct (checkIfPVCRequiresUpdate existing (ct_Spec template)) as [[] kept]; simpl.
  { intros [= <-]. by rewrite need_update, orb_true_r. }
  assert (volumes_need_update (set_hints pvc (add_pvc (None, pvc) p)) = volumes_need_update p) as Hsame by done.
  destruct (IsVolumeExpansionEnabled _ _); simpl; [|intros [= <-]; by rewrite orb_false_r].
  case_bool_decide as Hsize.
  { rewrite bool_decide_eq_false_2 by lia. intros [= <-]. by rewrite orb_false_r. }
  rewrite bool_decide_eq_true_2 by lia. simpl.
  destruct (checkVolumeResizeFailure storage events now pvc) as [[]|e|]; [| |done].
  - intros [= <-]. rewrite bool_decide_eq_false_2 by done. by rewrite orb_false_r.
  - case_bool_decide as He; [subst|done]. intros [= <-]. rewrite bool_decide_eq_true_2 by done.
    by rewrite need_failed, orb_true_r.
Qed.

Lemma generatePVC_spec m mount config pvc template :
  GetVolumeClaimTemplate storage (persistentVolumeClaimTemplateName mount) = Some template →
  generatePVC operator_version learned storage cc m mount config = Ok pvc →
  pvc_Spec pvc = ct_Spec template ∧ pvc_Name pvc = persistentVolumeClaimName mount ∧
  pvc_Labels pvc !! LabelNode = Some (Name m) ∧
  annotations pvc !! AnnotationVolumeMountPath = Some (mountPath mount) ∧
  annotations pvc !! PVCSpecAnnotation = Some (marshal_spec (ct_Spec template)) ∧
  annotations pvc !! PVCImageAnnotation = Some (ServerClassCouchbaseImage (Spec cc) (Some config)).
Proof.
  intros Ht. unfold generatePVC. rewrite Ht. destruct (CouchbaseImageVersion _ _) as [v| |]; [|done..].
  cbn [mbind result_bind]. intros [= <-]. simpl. split; [done|]. split; [done|]. unfold annotations, mergeLabels. simpl.
  split.
  - apply lookup_union_Some_l. case_bool_decide; [rewrite lookup_insert_ne by done|]; by simpl_map.
  - assert (∀ a : gmap string string, ∀ k x, k ≠ PVCSpecAnnotation → k ≠ "pv.beta.kubernetes.io/gid" →
      k ≠ ResourceVersionAnnotation → a !! k = Some x →
      <[PVCSpecAnnotation:=marshal_spec (ct_Spec template)]>
        match FSGroup storage with
        | Some gid => <["pv.beta.kubernetes.io/gid" := fmt_d gid]>
            ({[ResourceVersionAnnotation := operator_version]} ∪ (a ∪ ct_Annotations template))
        | None => {[ResourceVersionAnnotation := operator_version]} ∪ (a ∪ ct_Annotations template)
        end !! k = Some x) as Hkeep.
    { intros a k x H1 H2 H3 Hk. rewrite lookup_insert_ne by done.
      assert (({[ResourceVersionAnnotation := operator_version]} ∪ (a ∪ ct_Annotations template)) !! k = Some x) as Hu.
      { apply lookup_union_Some_raw. right. split; [by rewrite lookup_singleton_ne by done|].
        by apply lookup_union_Some_l. }
      destruct (FSGroup storage); [by rewrite lookup_insert_ne|done]. }
    split; [|split; [by rewrite lookup_insert_eq|]]; apply Hkeep; try done.
    all: destruct (VersionKnown v); [rewrite lookup_insert_ne by done|]; by simpl_map.
Qed.

(** The loop, mount by mount. *)
Lemma loop_settled m config l : ∀ reusable p p' req,
  pod_volumes_loop operator_version learned storage cc pvcs events now m config reusable p l = Ok (p', req) →
  volumes_need_update p' =
    volumes_need_update p || existsb (λ mount, negb (claim_settled m mount)) (own_claims (dom reusable) l) ∧
  mounted p' = mounted p ∧ mountPath <$> req = mountPath <$> l.
Proof.
  induction l as [|mount l IH]; intros reusable p p' req; cbn [pod_volumes_loop own_claims].
  { intros [= <- <-]. by rewrite orb_false_r. }
  destruct (GetVolumeClaimTemplate storage (persistentVolumeClaimTemplateName mount)) as [template|] eqn:Ht; [|done].
  destruct (generatePVC _ _ _ _ m mount config) as [pvc| |] eqn:Hg; [|done..].
  apply (generatePVC_spec _ _ _ _ template) in Hg as (Hspec&_); [|done].
  cbn [mbind result_bind]. unfold is_local.
  destruct (ct_Annotations template !! LocalStorageAnnotation) as [loc|]; simpl.
  - destruct (reusable !! persistentVolumeClaimTemplateName mount) as [r|] eqn:Hr.
    + rewrite (bool_decide_eq_true_2 (_ ∈ _)) by (by apply elem_of_dom_2 in Hr).
      destruct (pod_volumes_loop _ _ _ _ _ _ _ _ _ _ _ l) as [[p2 req2]| |] eqn:El; [|done..].
      cbn [mbind result_bind]. intros [= <- <-]. apply IH in El as (->&->&Hp).
      rewrite extend_need, dom_insert_lookup_L by done. split; [done|]. split; [done|]. by rewrite !fmap_cons, Hp.
    + rewrite (bool_decide_eq_false_2 (_ ∈ _)) by (by apply not_elem_of_dom).
      match goal with |- context [addVolume ?s ?l ?e ?n ?pv ?mm ?mo ?x ?pp] =>
        destruct (addVolume s l e n pv mm mo x pp) as [p1| |] eqn:Ha; [|done..] end.
      cbn [mbind result_bind]. destruct (pod_volumes_loop _ _ _ _ _ _ _ _ _ _ _ l) as [[p2 req2]| |] eqn:El; [|done..].
      cbn [mbind result_bind]. intros [= <- <-]. apply IH in El as (->&->&Hp).
      apply (addVolume_need _ _ _ template) in Ha as [-> ->]; [|done..].
      rewrite dom_insert_L. split; [simpl; by rewrite orb_assoc|]. split; [done|]. by rewrite !fmap_cons, Hp.
  - match goal with |- context [addVolume ?s ?l ?e ?n ?pv ?mm ?mo ?x ?pp] =>
      destruct (addVolume s l e n pv mm mo x pp) as [p1| |] eqn:Ha; [|done..] end.
    cbn [mbind result_bind]. destruct (pod_volumes_loop _ _ _ _ _ _ _ _ _ _ _ l) as [[p2 req2]| |] eqn:El; [|done..].
    cbn [mbind result_bind]. intros [= <- <-]. apply IH in El as (->&->&Hp).
    apply (addVolume_need _ _ _ template) in Ha as [-> ->]; [|done..].
    split; [simpl; by rewrite orb_assoc|]. split; [done|]. by rewrite !fmap_cons, Hp.
Qed.

Lemma mounts_need l : ∀ p, volumes_need_update (addVolumeMounts l p) = volumes_need_update p.
Proof. induction l as [|mount l IH]; intros p; [done|]. unfold addVolumeMounts in *. simpl. by rewrite IH. Qed.

(** What a pod is given to mount. *)
Lemma addVolumeMounts_spec l : ∀ p,
  vs_volumeMounts (addVolumeMounts l p) = vs_volumeMounts p ++ (l ≫= mounts_of) ∧
  (NoDup (vs_volumes p) → NoDup (vs_volumes (addVolumeMounts l p))) ∧
  ∀ v, v ∈ vs_volumes (addVolumeMounts l p) ↔ v ∈ vs_volumes p ∨ v ∈ persistentVolumeClaimName <$> l.
Proof.
  unfold addVolumeMounts. induction l as [|mount l IH]; intros p; simpl.
  { rewrite app_nil_r. split; [done|]. split; [done|]. set_solver. }
  destruct (IH (addVolumeMount p mount)) as (->&Hnd&Hin). simpl in *. rewrite <- app_assoc. split; [done|]. split.
  - intros Hp. apply Hnd. case_bool_decide; [done|]. apply NoDup_app. split; [done|].
    split; [set_solver|apply NoDup_singleton].
  - intros v. rewrite Hin. case_bool_decide; set_solver.
Qed.

(** C20: what [GetPodVolumes] answers: nothing is to be created, updated or taken for
    failed exactly when every mount that has a claim of its own (of the mounts on one
    local template, the first) finds its claim, bound, as its template wants it.  The
    pod mounts the paths of its class, once each and in order, out of claims listed
    once. *)
Theorem PodVolumes_spec m config mounts p
    (Hmounts : sc_VolumeMounts config = Some mounts)
    (Hok : PodVolumes operator_version learned storage cc pvcs events now m config = Ok (Some p)) :
  ∃ l, getPathsToPersist m mounts = Ok l ∧
    (volumes_need_update p = false ↔ ∀ mount, mount ∈ own_claims ∅ l → claim_settled m mount = true) ∧
    ∃ req, vs_volumeMounts p = req ≫= mounts_of ∧ mountPath <$> req ≡ₚ mountPath <$> l ∧ StronglySorted (leb_rel mount_leb) req ∧
      NoDup (vs_volumes p) ∧ ∀ v, v ∈ vs_volumes p ↔ v ∈ persistentVolumeClaimName <$> req.
Proof.
  unfold PodVolumes in Hok. simpl in Hok. rewrite Hmounts in Hok.
  destruct (getPathsToPersist m mounts) as [l| |]; [|done..]. cbn [mbind result_bind] in Hok.
  exists l. split; [done|].
  destruct (pod_volumes_loop _ _ _ _ _ _ _ _ _ _ _ l) as [[p1 req]| |] eqn:El; [|done..].
  cbn [mbind result_bind fst snd] in Hok. injection Hok as <-. apply loop_settled in El as (Hneed&Hmounted&Hpath).
  rewrite mounts_need. split.
  - rewrite Hneed. simpl. rewrite dom_empty_L. split.
    + intros Hf mount Hm. destruct (claim_settled m mount) eqn:E; [done|]. exfalso.
      apply not_true_iff_false in Hf. apply Hf, existsb_exists. exists mount.
      by rewrite E, <- list_elem_of_In.
    + intros Hall. apply not_true_iff_false. intros (mount&Hm&Hs)%existsb_exists.
      apply list_elem_of_In, Hall in Hm. by rewrite Hm in Hs.
  - exists (stable_sort mount_leb req). destruct (addVolumeMounts_spec (stable_sort mount_leb req) p1) as (Hv&Hnd&Hin).
    injection Hmounted as Hvol Hvm. rewrite Hvol in Hnd, Hin. rewrite Hvm in Hv.
    split; [done|]. split; [by rewrite (stable_sort_perm mount_leb req), Hpath|].
    split; [apply stable_sort_sorted; [intros ? ?; apply string_leb_total|intros ? ? ?; apply string_leb_trans]|].
    split; [apply Hnd, NoDup_nil_2|]. intros v. rewrite Hin. set_solver.
Qed.

(** A claim that carries its template is settled, if it is not too small: except where
    the template spells out an empty map of quantities, which is nil when read back. *)
Lemma written_claim_settled `{!SpecJSONLaws} m mount template pvc :
  GetVolumeClaimTemplate storage (persistentVolumeClaimTemplateName mount) = Some template →
  findMemberPVC pvcs (Name m) (mountPath mount) = Ok pvc →
  annotations pvc !! PVCSpecAnnotation = Some (marshal_spec (ct_Spec template)) →
  Storage (Requests (pvc_Spec pvc)) ≤ default 0 (pvc_Capacity pvc !! ResourceStorage) →
  claim_settled m mount = true ↔ Requests (ct_Spec template) ≠ Some ∅ ∧ Limits (ct_Spec template) ≠ Some ∅.
Proof.
  intros Ht Hf Ha Hsize. unfold claim_settled, existing_spec. rewrite Ht, Hf, Ha, unmarshal_marshal.
  rewrite (bool_decide_eq_false_2 (_ < _)) by lia. rewrite andb_false_r. simpl. rewrite andb_true_r, negb_true_iff.
  apply written_template_settles.
Qed.
End settled.

(** ** What a resize keeps *)
Lemma keep_placement_spec (old new : gmap string string) key :
  keep_placement old new !! key =
  if decide (key ∈ placement_keys) then match old !! key with Some v => Some v | None => new !! key end else new !! key.
Proof.
  unfold keep_placement. generalize placement_keys as l. intros l. revert new.
  induction l as [|k l IH]; intros new; simpl; [done|]. rewrite IH.
  destruct (decide (key = k)) as [->|Hne].
  - rewrite (decide_True (P := k ∈ k :: l)) by (by left).
    destruct (old !! k) as [v|] eqn:E; [by case_decide; simpl_map|by case_decide].
  - assert (match old !! k with Some v => <[k := v]> new | None => new end !! key = new !! key) as Hnew
      by (destruct (old !! k); [by rewrite lookup_insert_ne|done]).
    rewrite Hnew. destruct (decide (key ∈ l)); [rewrite decide_True by (by right)|
      rewrite decide_False by (intros [?|?]%elem_of_cons; done)]; done.
Qed.

(** What a claim becomes whose template changed: its name, labels, access mode and
    place stay; the other annotations are those made from the specification, its image
    included, whatever the member runs.  It asks for the template's storage exactly
    where that differs from what the claim was made for: otherwise the claim that is
    sent asks for no storage at all. *)
Theorem updated_claim_spec pvc required existing :
  let '(update, spec) := checkIfPVCRequiresUpdate existing (pvc_Spec required) in
  let u := updated_claim pvc required spec in
  pvc_Name u = pvc_Name pvc ∧ pvc_Labels u = pvc_Labels pvc ∧ AccessModes (pvc_Spec u) = AccessModes (pvc_Spec pvc) ∧
  (∀ key v, key ∈ placement_keys → annotations pvc !! key = Some v → annotations u !! key = Some v) ∧
  (∀ key, key ∉ placement_keys → annotations u !! key = annotations required !! key) ∧
  Storage (Requests (pvc_Spec u)) =
    (if bool_decide (Storage (Requests existing) = Storage (Requests (pvc_Spec required))) then 0
     else Storage (Requests (pvc_Spec required))).
Proof.
  pose proof (check_spec existing (pvc_Spec required)) as Hc.
  destruct (checkIfPVCRequiresUpdate existing (pvc_Spec required)) as [update spec]. destruct Hc as (_&Hr&_).
  simpl. do 3 (split; [done|]). split; [|split].
  - intros key v Hin Hv. unfold annotations at 1. simpl. by rewrite keep_placement_spec, decide_True, Hv.
  - intros key Hout. unfold annotations at 1. simpl. by rewrite keep_placement_spec, decide_False.
  - rewrite Hr. case_bool_decide; [|done]. unfold Storage, drop_storage.
    destruct (Requests (pvc_Spec required)); simpl; [by rewrite lookup_delete_eq|done].
Qed.


(** ** Two mounts on one local volume *)
Definition local_template : ClaimTemplate :=
  mkTemplate "vol" ∅ {[LocalStorageAnnotation := "true"]} (mkPVCSpec (Some {[ResourceStorage := 10]}) None [] "fast").

Definition local_storage : StorageSpec := mkStorageSpec [local_template] "" None None.

Definition local_mounts : VolumeMounts := {|
  DefaultClaim := "vol"; DataClaim := ""; IndexClaim := "vol"; AnalyticsClaims := None; LogsClaim := "" |}.

Definition local_class : ServerConfig := {|
  sc_Size := 1; sc_Name := "data"; sc_Services := ["data"; "index"]; sc_ServerGroups := [];
  sc_VolumeMounts := Some local_mounts; sc_Image := ""; sc_NodeSelector := None; sc_AutoscaleEnabled := false |}.

#[local] Instance local_json : SpecJSON :=
  {| marshal_spec _ := "spec"; unmarshal_spec _ := Ok (json_form (ct_Spec local_template)) |}.

Definition local_claim : PVC :=
  mkPVC "cb-0000-default-00" {[LabelNode := "cb-0000"]}
    (Some {[AnnotationVolumeMountPath := couchbaseVolumeDefaultConfigDir; PVCSpecAnnotation := "spec";
            AnnotationVolumeMountSubPaths := "/opt/couchbase/var/lib/couchbase,/mnt/index"]})
    ClaimBound false (mkPVCSpec (Some {[ResourceStorage := 10]}) None [ReadWriteOnce] "fast")
    {[ResourceStorage := 10]} [].

Definition local_volumes (pvcs : list PVC) : result (option VolumeState) :=
  PodVolumes (H := const None) "2.9.0" ∅ local_storage
    {| Namespace := "ns"; Api.Name := "cb"; Spec := example_spec (example_upgrade "" [] 0); Status := example_status |}
    pvcs (λ _, Ok []) 0 (example_member 0 "data") local_class.

(** Without a claim there is one to create, for both paths. *)
Example local_volume_created :
  match local_volumes [] with
  | Ok (Some p) => ((λ e : option string * PVC, (pvc_Name e.2, annotation e.2 AnnotationVolumeMountSubPaths)) <$> vs_create p,
                    volumes_need_update p)
  | _ => ([], false)
  end = ([("cb-0000-default-00", "/opt/couchbase/var/lib/couchbase,/mnt/index")], true).
Proof. vm_compute. reflexivity. Qed.

Lemma PodVolumes_spec_witness :
  ∃ p, local_volumes [local_claim] = Ok (Some p) ∧ volumes_need_update p = false ∧
    ∃ req, vs_volumeMounts p = req ≫= mounts_of ∧ length req = 2%nat.
Proof.
  assert (match local_volumes [local_claim] with Ok (Some p) => Some (volumes_need_update p) | _ => None end = Some false) as Hr
    by (vm_compute; reflexivity).
  destruct (local_volumes [local_claim]) as [[p|]| |] eqn:E; [|discriminate Hr..].
  exists p. split; [reflexivity|]. injection Hr as Hr. split; [exact Hr|].
  destruct (PodVolumes_spec (H := const None) _ _ _ _ _ _ _ _ local_class local_mounts p eq_refl E)
    as (l&Hl&_&req&Hreq&Hpath&_).
  exists req. split; [exact Hreq|].
  assert (length (mountPath <$> req) = length (mountPath <$> l)) as Hlen by (by rewrite Hpath).
  rewrite !length_fmap in Hlen. rewrite Hlen. vm_compute in Hl. by injection Hl as <-.
Defined.
