(* ===== verification/CreationSpec.v ===== *)
(** * Creating pods in goroutines: what is certain under every schedule

    The goroutines of a batch interleave the steps of one [createPod] per member, under
    consecutive names, and a batch that fails, or succeeds, as a whole is recorded as such.
    What is recorded of one member of a mixed batch depends on the schedule: the examples
    at the end show both ways in which it goes wrong. *)

From Stdlib Require Import Ascii.
From S2P Require Import Prelude Effects GoLib Regex Digests Version Api Member Persistence Status.
From S2P Require Import ServerGroups Scheduler NullScheduler UpgradeOrder RollingUpgrade NodeStatus Pods Volumes.
From S2P Require Import Machine Rebalance Baseline Claims Creation Sim MachineSpec BaselineSpec.
Local Open Scope Z_scope.

Section goroutines.
Context `{ClaimPlatform W} `{PersistentStorage W} `{Environment} `{MapRange} `{SpecJSON} `{TrackerJSON} `{Scheduler Sc}.
Abbreviation R := (RS W).
Abbreviation FS := (RS W * Sc)%type.
Abbreviation Goroutine := (Goroutine (W := W) (Sc := Sc)).
Abbreviation Run := (FS * option error * list Goroutine)%type.

(** Computations side by side: one of them takes a step. *)
Inductive interleave : relation (FS * list (proc FS ())) :=
  | interleave_step s ps i f p s' :
      ps !! i = Some (Step f) → f s = (p, s') → interleave (s, ps) (s', <[i := p]> ps).

(** One of them has ended, with [e] for an error. *)
Definition ended (ps : list (proc FS ())) (i : nat) (e : option error) : Prop :=
  ∃ r, ps !! i = Some (Done r) ∧ returned (W := W) (Sc := Sc) r = Some (Returned e).

Definition some_ended (ps : list (proc FS ())) (e : option error) : Prop := ∃ i, ended ps i e.

(** What holds between any two steps: the computations of the goroutines have interleaved,
    and what is stored and recorded is their outcome. *)
Record running (ms : list Member) (s0 : FS) (ps0 : list (proc FS ()))
    (st : Run) (ps : list (proc FS ())) : Prop := {
  rn_created : rtc interleave (s0, ps0) (st.1.1, ps);
  rn_length : length ps = length st.2;
  rn_members : g_member <$> st.2 = ms;
  rn_pc i g : st.2 !! i = Some g →
    match g_pc g with
    | Creating p => ps !! i = Some p
    | Returned e => ended ps i e
    | _ => ∃ e, ended ps i e
    end;
  rn_stored e : st.1.2 = Some e → some_ended ps (Some e);
  rn_recorded i g e : st.2 !! i = Some g → g_Err g = Some e → some_ended ps (Some e);
  (* as long as nothing succeeded: whoever stored left an error, and is recorded *)
  rn_failing i g : ¬ some_ended ps None → st.2 !! i = Some g →
    (g_pc g = Stored ∨ g_pc g = Failing ∨ g_pc g = Over → st.1.2 ≠ None) ∧ (g_pc g = Over → g_Err g ≠ None);
}.

Lemma running_start ms s0 ps0 :
  length ms = length ps0 → running ms s0 ps0 (s0, None, start_goroutines ms ps0) ps0.
Proof.
  intros Hlen. assert (∀ i g, start_goroutines ms ps0 !! i = Some g → ∃ p, ps0 !! i = Some p ∧ g_pc g = Creating p ∧ g_Err g = None) as Hstart.
  { intros i g. unfold start_goroutines. intros (x&y&->&_&Hy)%lookup_zip_with_Some. by exists y. }
  split; simpl.
  - constructor.
  - unfold start_goroutines. rewrite length_zip_with. lia.
  - apply fmap_zip_with_l; [done|lia].
  - intros i g (p&Hp&->&_)%Hstart. done.
  - done.
  - intros i g e (p&_&_&->)%Hstart. done.
  - intros i g _ (p&_&->&->)%Hstart. split; [naive_solver|done].
Qed.

Lemma lookup_insert_cases {A} (l : list A) i x j y :
  <[i := x]> l !! j = Some y → j = i ∧ y = x ∨ j ≠ i ∧ l !! j = Some y.
Proof. rewrite list_lookup_insert_Some. naive_solver. Qed.

(** A step of a goroutine that is not in [createPod]. *)
Lemma running_move ms s0 ps0 s err err' gs ps i g g' :
  running ms s0 ps0 (s, err, gs) ps → gs !! i = Some g → g_member g' = g_member g →
  (match g_pc g' with Creating _ => False | Returned e => ended ps i e | _ => ∃ e, ended ps i e end) →
  (∀ e, err' = Some e → some_ended ps (Some e)) → (∀ e, g_Err g' = Some e → some_ended ps (Some e)) →
  (¬ some_ended ps None → (err ≠ None → err' ≠ None) ∧
     (g_pc g' = Stored ∨ g_pc g' = Failing ∨ g_pc g' = Over → err' ≠ None) ∧ (g_pc g' = Over → g_Err g' ≠ None)) →
  running ms s0 ps0 (s, err', <[i := g']> gs) ps.
Proof.
  intros [Hc Hlen Hm Hpc He Hr Hf] Hi Hgm Hp Herr Hrec Hfail. simpl in *. split; simpl; try done.
  - by rewrite length_insert.
  - rewrite list_fmap_insert, Hgm, list_insert_id; [done|]. by rewrite list_lookup_fmap, Hi.
  - intros j x [[-> ->]|[_ Hj]]%lookup_insert_cases; [by destruct (g_pc g')|by apply Hpc].
  - intros j x e [[-> ->]|[_ Hj]]%lookup_insert_cases; [apply Hrec|by apply (Hr j)].
  - intros j x Hno [[-> ->]|[_ Hj]]%lookup_insert_cases; destruct (Hfail Hno) as (Hkeep&Hnew&Hover); [by split|].
    destruct (Hf j x Hno Hj) as [Hst Ho]. split; [by intros Hx; apply Hkeep, Hst|done].
Qed.

Lemma ended_insert ps i f p j e : ps !! i = Some (Step f) → ended ps j e → ended (<[i := p]> ps) j e.
Proof. intros Hi (r&Hj&Hr). exists r. split; [|done]. rewrite list_lookup_insert_ne; [done|congruence]. Qed.

(** A step within [createPod]. *)
Lemma running_create ms s0 ps0 s err gs ps i g f p s' :
  running ms s0 ps0 (s, err, gs) ps → gs !! i = Some g → g_pc g = Creating (Step f) → f s = (p, s') →
  running ms s0 ps0 (s', err, <[i := at_pc (Creating p) g]> gs) (<[i := p]> ps).
Proof.
  intros [Hc Hlen Hm Hpc He Hr Hf] Hi Hg Hs. simpl in *.
  pose proof (Hpc i g Hi) as Hps. rewrite Hg in Hps.
  assert (∀ j e, ended ps j e → ended (<[i := p]> ps) j e) as Hmono by (intros j e; by eapply ended_insert).
  assert (∀ e, some_ended ps e → some_ended (<[i := p]> ps) e) as Hsome by (intros e [j Hj]; exists j; auto).
  split; simpl.
  - eapply rtc_r; [exact Hc|]. by econstructor.
  - by rewrite !length_insert.
  - rewrite list_fmap_insert, list_insert_id; [done|]. simpl. by rewrite list_lookup_fmap, Hi.
  - intros j x [[-> ->]|[Hne Hj]]%lookup_insert_cases.
    + simpl. apply list_lookup_insert_eq. by eapply lookup_lt_Some.
    + pose proof (Hpc j x Hj) as Hx. destruct (g_pc x); [by rewrite list_lookup_insert_ne|auto|naive_solver..].
  - intros e Hx. by apply Hsome, He.
  - intros j x e [[-> ->]|[_ Hj]]%lookup_insert_cases Hx; eapply Hsome, Hr; [exact Hi|exact Hx|exact Hj|exact Hx].
  - intros j x Hno [[-> ->]|[_ Hj]]%lookup_insert_cases; [split; [naive_solver|done]|].
    apply (Hf j x); [|done]. intros Hx. by apply Hno, Hsome.
Qed.

Lemma running_step ms s0 ps0 i st st' ps :
  running ms s0 ps0 st ps → goroutine_step i st = Some st' → ∃ ps', running ms s0 ps0 st' ps'.
Proof.
  destruct st as [[s err] gs]. intros Hrun. unfold goroutine_step.
  destruct (gs !! i) as [g|] eqn:Hi; [|intros [= <-]; by exists ps].
  pose proof Hrun as [Hc Hlen Hm Hpc He Hr Hf]. simpl in *. pose proof (Hpc i g Hi) as Hg.
  destruct (g_pc g) as [[r|f]|e| | |] eqn:Hp.
  - intros (q&Hq&[= <-])%bind_Some. exists ps.
    assert (∃ e, q = Returned e) as [e ->] by (destruct r; simplify_eq/=; eauto).
    assert (ended ps i e) as Hend by (by exists r).
    eapply running_move; [exact Hrun|exact Hi|done|exact Hend|done|by intros; eapply Hr|].
    intros _. split; [done|]. split; [simpl; naive_solver|done].
  - destruct (f s) as [p s'] eqn:Hs. intros [= <-]. eexists. by eapply running_create.
  - intros [= <-]. exists ps. eapply running_move; [exact Hrun|exact Hi|done|by exists e| | |].
    + intros e' ->. by exists i.
    + intros e' He'. by eapply Hr.
    + intros Hno. assert (e ≠ None) as Hne by (intros ->; apply Hno; by exists i). split; [done|]. by split.
  - intros [= <-]. exists ps. eapply running_move; [exact Hrun|exact Hi|done| |done|by intros e' He'; eapply Hr|].
    + simpl. by destruct err.
    + intros Hno. assert (err ≠ None) as Herr by (apply (Hf i g Hno Hi); auto).
      split; [done|]. split; [done|]. simpl. by destruct err.
  - intros [= <-]. exists ps. eapply running_move; [exact Hrun|exact Hi|done|exact Hg|done|exact He|].
    intros Hno. assert (err ≠ None) as Herr by (apply (Hf i g Hno Hi); auto). done.
  - intros [= <-]. by exists ps.
Qed.

Lemma running_run ms s0 ps0 schedule : ∀ st st' ps,
  running ms s0 ps0 st ps → run_goroutines schedule st = Some st' → ∃ ps', running ms s0 ps0 st' ps'.
Proof.
  induction schedule as [|i schedule IH]; intros st st' ps Hrun; simpl; [intros [= <-]; by exists ps|].
  intros (st1&Hstep&Hrest)%bind_Some. destruct (running_step _ _ _ _ _ _ _ Hrun Hstep) as [ps1 Hps1]. by eapply IH.
Qed.

(** ** Every goroutine ends *)

(** To run on is to be scheduled again and again. *)
Lemma steps_scheduled n i p (s : FS) p' s' err (gs : list Goroutine) g :
  proc_steps n p s p' s' → gs !! i = Some g → g_pc g = Creating p →
  run_goroutines (replicate n i) (s, err, gs) = Some (s', err, <[i := at_pc (Creating p') g]> gs).
Proof.
  intros Hs. revert gs g. induction Hs as [p s|n f s p1 s1 p2 s2 Hf Hs IH]; intros gs g Hi Hg.
  { simpl. rewrite list_insert_id; [done|]. by destruct g; simpl in *; subst. }
  cbn [replicate run_goroutines]. unfold goroutine_step. rewrite Hi, Hg, Hf. cbn [mbind option_bind].
  rewrite (IH _ (at_pc (Creating p1) g)); [|apply list_lookup_insert_eq; by eapply lookup_lt_Some|done].
  by rewrite list_insert_insert_eq.
Qed.

Lemma run_on_scheduled i (st : Run) : ∃ n, run_goroutines (replicate n i) st = Some (run_on i st).
Proof.
  destruct st as [[s err] gs]. unfold run_on. destruct (gs !! i) as [g|] eqn:Hi; [|by exists 0%nat].
  destruct (g_pc g) as [p|e| | |] eqn:Hg; try by exists 0%nat.
  destruct (run_proc_steps p s) as [n Hn]. destruct (run_proc p s) as [r s']. exists n. by eapply steps_scheduled.
Qed.

Lemma run_goroutines_app l1 l2 (st : Run) : run_goroutines (l1 ++ l2) st = run_goroutines l1 st ≫= run_goroutines l2.
Proof.
  revert st. induction l1 as [|i l1 IH]; intros st; [done|]. simpl. destruct (goroutine_step i st) as [st1|]; [|done].
  simpl. apply IH.
Qed.

Lemma drain_scheduled l : ∀ (st : option Run) st',
  foldl (λ st i, st ← st; run_goroutines [i; i; i; i] (run_on i st)) st l = Some st' →
  ∃ st0 l', st = Some st0 ∧ run_goroutines l' st0 = Some st'.
Proof.
  induction l as [|i l IH]; intros st st'; cbn [foldl]; [intros ->; by exists st', []|].
  intros (st1&l1&(st0&->&Hfour)%bind_Some&Hl)%IH. destruct (run_on_scheduled i st0) as [n Hn].
  exists st0, (replicate n i ++ [i; i; i; i] ++ l1). split; [done|].
  rewrite run_goroutines_app, Hn. cbn [mbind option_bind]. rewrite run_goroutines_app, Hfour. exact Hl.
Qed.

Definition over (st : Run) (i : nat) : Prop :=
  ∀ g, st.2 !! i = Some g → g_pc g = Over.

Lemma over_step (st st' : Run) i j : goroutine_step j st = Some st' → over st i → over st' i.
Proof.
  destruct st as [[s err] gs]. unfold goroutine_step, over. simpl. destruct (gs !! j) as [g|] eqn:Hj; [|by intros [= <-]].
  intros Hstep Hover g'. assert (st'.2 = gs ∨ i ≠ j ∧ ∃ x, st'.2 = <[j := x]> gs) as [->|(Hne&x&->)]; [|apply Hover|].
  2: { rewrite list_lookup_insert_ne by done. apply Hover. }
  destruct (decide (i = j)) as [->|Hne].
  { left. specialize (Hover g Hj). rewrite Hover in Hstep. by injection Hstep as <-. }
  right. split; [done|]. destruct (g_pc g) as [[r|f]|e| | |]; [| |by injection Hstep as <-; eexists..|].
  - apply bind_Some in Hstep as (q&_&[= <-]). by eexists.
  - destruct (f s). injection Hstep as <-. by eexists.
  - injection Hstep as <-. exists g. by rewrite list_insert_id.
Qed.

Lemma over_run l i : ∀ (st st' : Run), run_goroutines l st = Some st' → over st i → over st' i.
Proof.
  induction l as [|j l IH]; intros st st'; simpl; [by intros [= <-]|].
  intros (st1&Hstep&Hrest)%bind_Some Hover. by eapply IH, over_step.
Qed.

(** Four steps after [createPod]. *)
Lemma over_four i (st st' : Run) : run_goroutines [i; i; i; i] (run_on i st) = Some st' → over st' i.
Proof.
  destruct st as [[s err] gs]. unfold run_on. destruct (gs !! i) as [g|] eqn:Hi.
  2: { simpl. unfold goroutine_step. rewrite Hi. cbn. rewrite Hi. cbn. rewrite Hi. cbn. rewrite Hi. cbn.
       intros [= <-] g. simpl. by rewrite Hi. }
  assert (i < length gs)%nat as Hlt by (by eapply lookup_lt_Some).
  assert (∀ (s : FS) err (gs' : list Goroutine) g', gs' !! i = Some g' → g_pc g' ≠ Over → (∀ p, g_pc g' ≠ Creating p) →
    ∃ err' g'', goroutine_step i (s, err, gs') = Some (s, err', <[i := g'']> gs') ∧
      match g_pc g' with Returned _ => g_pc g'' = Stored | Stored => g_pc g'' = Failing ∨ g_pc g'' = Over
                       | _ => g_pc g'' = Over end) as Hnext.
  { intros s1 err1 gs' g' Hi' Hno Hcr. unfold goroutine_step. rewrite Hi'.
    destruct (g_pc g') as [p|e| | |]; [by destruct (Hcr p)|..|done]; eexists _, _; (split; [reflexivity|]); simpl; auto.
    destruct err1; auto. }
  assert (∀ n (s : FS) err (gs' : list Goroutine) g', gs' !! i = Some g' → (∀ p, g_pc g' ≠ Creating p) →
    (match g_pc g' with Returned _ => 3 | Stored => 2 | Failing => 1 | _ => 0 end ≤ n)%nat →
    ∀ st', run_goroutines (replicate n i) (s, err, gs') = Some st' → over st' i) as Hrest.
  { induction n as [|n IH]; intros s1 err1 gs' g' Hi' Hcr Hle st1.
    { simpl. intros [= <-] x. simpl. rewrite Hi'. intros [= <-]. destruct (g_pc g') as [p|e| | |]; try lia; [by destruct (Hcr p)|done]. }
    cbn [replicate run_goroutines]. assert (g_pc g' = Over ∨ g_pc g' ≠ Over) as [Ho|Ho] by (destruct (g_pc g'); first [by left|by right]).
    { unfold goroutine_step. rewrite Hi', Ho. cbn [mbind option_bind]. intros Hr. eapply over_run; [exact Hr|].
      intros x. simpl. rewrite Hi'. by intros [= <-]. }
    destruct (Hnext s1 err1 gs' g' Hi' Ho Hcr) as (err2&g2&->&Hg2). cbn [mbind option_bind].
    apply (IH _ _ _ g2).
    - apply list_lookup_insert_eq. by eapply lookup_lt_Some.
    - intros p Hp. destruct (g_pc g'); [by destruct (Hcr p0)|congruence|destruct Hg2; congruence|congruence|done].
    - destruct (g_pc g'); [by destruct (Hcr p)|rewrite Hg2; lia|destruct Hg2 as [->| ->]; lia|rewrite Hg2; lia|done]. }
  destruct (g_pc g) as [p|e| | |] eqn:Hg.
  2-5: apply (Hrest 4%nat s err gs g Hi); [by rewrite Hg|rewrite Hg; lia].
  destruct (run_proc p s) as [r s']. change [i; i; i; i] with (i :: replicate 3 i). cbn [run_goroutines].
  unfold goroutine_step at 1. rewrite list_lookup_insert_eq by done. simpl.
  intros (x&(q&Hq&[= <-])%bind_Some&Hr)%bind_Some. eapply (Hrest 3%nat); [|..|exact Hr].
  - rewrite list_lookup_insert_eq; [done|]. by rewrite length_insert.
  - simpl. destruct r; by simplify_eq/=.
  - simpl. destruct r; simplify_eq/=; lia.
Qed.

Lemma drain_over l : ∀ (st : option Run) st' i,
  foldl (λ st i, st ← st; run_goroutines [i; i; i; i] (run_on i st)) st l = Some st' → i ∈ l → over st' i.
Proof.
  induction l as [|j l IH]; intros st st' i; cbn [foldl]; [by intros _ ?%not_elem_of_nil|].
  intros Hrun [->|Hi]%elem_of_cons; [|by eapply IH].
  apply drain_scheduled in Hrun as (st1&l1&(st0&->&Hfour)%bind_Some&Hl). eapply over_run; [exact Hl|]. by eapply over_four.
Qed.

(** The whole run: everybody is over. *)
Lemma goroutines_end schedule ms s0 ps0 s err gs :
  length ms = length ps0 →
  run_goroutines schedule (s0, None, start_goroutines ms ps0) ≫= drain (length ms) = Some (s, err, gs) →
  ∃ ps, running ms s0 ps0 (s, err, gs) ps ∧ ∀ i g, gs !! i = Some g → g_pc g = Over.
Proof.
  intros Hlen (st1&Hsched&Hdrain)%bind_Some.
  destruct (running_run _ _ _ _ _ _ _ (running_start ms s0 ps0 Hlen) Hsched) as [ps1 Hps1].
  pose proof Hdrain as (st2&l'&[= <-]&Hl)%drain_scheduled.
  destruct (running_run _ _ _ _ _ _ _ Hps1 Hl) as [ps Hps]. exists ps. split; [done|].
  intros i g Hg. apply (drain_over _ _ _ i Hdrain); [|done]. apply elem_of_seq.
  rewrite <- (rn_members _ _ _ _ _ Hps), length_fmap. apply lookup_lt_Some in Hg. simpl in *. lia.
Qed.

(** ** The batch *)
Definition class_label (class : string) : string := if bool_decide (class = "") then "unknown" else class.

Lemma newMember_spec (c : Cluster) id class image m :
  newMember c id class image = Ok m →
  Name m = CreateMemberName (Api.Name (c_cluster c)) id ∧ Config m = class_label class ∧ GetImage m = image ∧ IsExternal m = false.
Proof.
  unfold newMember. destruct (CouchbaseImageVersion _ _) as [v| |]; [|done..]. cbn [mbind result_bind].
  destruct (net_DNS _) as [d|]; [destruct (IsExternalMigrationCluster c)|]; intros [= <-]; split_and!; reflexivity.
Qed.

Lemma new_members_spec (c : Cluster) specs : ∀ indexes ms,
  length indexes = length specs → new_members c indexes specs = Ok ms →
  Name <$> ms = CreateMemberName (Api.Name (c_cluster c)) <$> indexes ∧ Config <$> ms = (λ spec, class_label (sc_Name spec)) <$> specs ∧
  GetImage <$> ms = (λ spec, ServerClassCouchbaseImage (Spec (c_cluster c)) (Some spec)) <$> specs.
Proof.
  induction specs as [|spec specs IH]; intros [|index indexes] ms Hlen; try done; cbn [new_members].
  { by intros [= <-]. }
  destruct (newMember _ _ _ _) as [m| |] eqn:Em; [|done..]. cbn [mbind result_bind].
  destruct (new_members c indexes specs) as [ms'| |] eqn:Ems; [|done..]. cbn [mbind result_bind]. intros [= <-].
  apply newMember_spec in Em as (Hn&Hc&Hi&_). injection Hlen as Hlen. apply IH in Ems as (Hns&Hcs&His); [|done].
  by rewrite !fmap_cons, Hn, Hc, Hi, Hns, Hcs, His.
Qed.

(** ** What every step preserves

    Creating pods changes the world and the scheduler. *)
Section preserved.
Context (Q : relation FS) `{!PreOrder Q} (Hput : ∀ (f : FS) w sc, Q f (set_world w f.1, sc)).

Lemma with_rs_keeps {A} (m : M R A) : keeps only_world m → keeps Q (with_rs (Sc := Sc) m).
Proof.
  intros Hm [s sc]. specialize (Hm s). unfold with_rs, zoom. cbn [fst snd]. destruct (m s) as [r s'].
  destruct Hm as (Hf&Hc&Ht). specialize (Hput (s, sc) (world s') sc). destruct s, s'; simpl in *; subst. exact Hput.
Qed.

Lemma with_scheduler_keeps {A} (m : M Sc A) : keeps Q (with_scheduler (W := W) m).
Proof.
  intros [s sc]. unfold with_scheduler, zoom. cbn [fst snd]. destruct (m sc) as [r sc'].
  specialize (Hput (s, sc) (world s) sc'). destruct s. exact Hput.
Qed.

Lemma groups_only pos : keeps only_world (getServerGroupsToAvoid (W := W) pos).
Proof. unfold getServerGroupsToAvoid, getFailedServerGroupsTracker. keeps_tac. Qed.

Lemma create_pod_keeps pos m spec b : proc_keeps Q (create_pod (Sc := Sc) pos m spec b).
Proof.
  assert (∀ A (p : proc (W * Sc) A), proc_keeps Q (proc_both p)) as Hboth
    by (intros A p; by apply proc_keeps_zoom).
  assert (∀ A (p : proc W A), proc_keeps Q (proc_world (Sc := Sc) p)) as Hworld
    by (intros A p; by apply proc_keeps_zoom).
  unfold create_pod. apply proc_keeps_bind.
  - apply proc_keeps_attempt. unfold create_and_flag.
    apply proc_keeps_bind; [apply proc_keeps_atom, with_rs_keeps, keeps_gets, _|]. intros c.
    apply proc_keeps_bind; [destruct (isSGReschedulingEnabled c); [|done]|].
    { apply proc_keeps_bind; [apply proc_keeps_attempt, proc_keeps_atom, with_rs_keeps, groups_only|].
      intros [groups|e]; [|done]. destruct (bool_decide _); [apply proc_keeps_atom, with_scheduler_keeps|done]. }
    intros _. by apply proc_keeps_bind.
  - intros [u|e]; [done|]. apply proc_keeps_bind; [|done]. destruct (bool_decide _); [done|].
    apply proc_keeps_bind; [by apply proc_keeps_attempt|done].
Qed.

Definition all_keep (gs : list Goroutine) : Prop :=
  ∀ i g p, gs !! i = Some g → g_pc g = Creating p → proc_keeps Q p.

Lemma goroutine_keeps i (st st' : Run) :
  goroutine_step i st = Some st' → all_keep st.2 →
  Q st.1.1 st'.1.1 ∧ all_keep st'.2 ∧ g_member <$> st'.2 = g_member <$> st.2.
Proof.
  destruct st as [[s err] gs]. unfold goroutine_step. intros Hstep Hall.
  destruct (gs !! i) as [g|] eqn:Hi; [|by injection Hstep as <-]. cbn [fst snd] in *.
  assert (∀ g', g_member g' = g_member g → (∀ p, g_pc g' = Creating p → proc_keeps Q p) →
    all_keep (<[i := g']> gs) ∧ g_member <$> <[i := g']> gs = g_member <$> gs) as Hset.
  { intros g' Hm Hp. split.
    - intros j x p [[-> ->]|[_ Hj]]%lookup_insert_cases; [apply Hp|by apply (Hall j)].
    - rewrite list_fmap_insert, Hm. apply list_insert_id. by rewrite list_lookup_fmap, Hi. }
  destruct (g_pc g) as [[r|f]|e| | |] eqn:Hg; [| |injection Hstep as <-; split; [reflexivity|apply Hset; [done|intros p; by destruct err]]..|by injection Hstep as <-].
  - apply bind_Some in Hstep as (q&Hq&[= <-]). split; [done|]. apply Hset; [done|]. by destruct r; simplify_eq/=.
  - destruct (f s) as [p s'] eqn:Hf. injection Hstep as <-. destruct (proc_keeps_step _ _ _ _ _ (Hall i g _ Hi Hg) Hf).
    split; [done|]. apply Hset; [done|]. by intros p' [= <-].
Qed.

Lemma goroutines_keep l : ∀ (st st' : Run),
  run_goroutines l st = Some st' → all_keep st.2 →
  Q st.1.1 st'.1.1 ∧ all_keep st'.2 ∧ g_member <$> st'.2 = g_member <$> st.2.
Proof.
  induction l as [|i l IH]; intros st st'; simpl; [by intros [= <-]|].
  intros (st1&Hstep&Hrest)%bind_Some Hall. apply goroutine_keeps in Hstep as (Hq&Hall1&Hm); [|done].
  apply IH in Hrest as (Hq'&Hall'&Hm'); [|done]. split; [by etrans|]. split; [done|congruence].
Qed.

Lemma batch_keeps pos schedule ms specs (s s' : FS) err gs :
  length ms = length specs →
  run_goroutines schedule (s, None, start_goroutines ms (create_pods pos ms specs)) ≫= drain (length ms) = Some (s', err, gs) →
  Q s s' ∧ g_member <$> gs = ms.
Proof.
  intros Hlen (st1&Hsched&Hdrain)%bind_Some.
  assert (length (create_pods (W := W) (Sc := Sc) pos ms specs) = length ms) as Hpods
    by (unfold create_pods; rewrite length_imap, length_zip; lia).
  assert (all_keep (start_goroutines ms (create_pods pos ms specs))) as Hall.
  { intros i g p (m&q&->&_&Hq)%lookup_zip_with_Some [= ->]. unfold create_pods in Hq.
    apply list_lookup_imap_Some in Hq as ([m' spec]&_&->). apply create_pod_keeps. }
  apply goroutines_keep in Hsched as (Hq&Hall1&Hm); [|exact Hall].
  apply drain_scheduled in Hdrain as (st2&l'&[= <-]&Hl). apply goroutines_keep in Hl as (Hq'&_&Hm'); [|exact Hall1].
  cbn [fst snd] in *. split; [by etrans|]. rewrite Hm', Hm. apply fmap_zip_with_l; [done|lia].
Qed.

Lemma new_members_length (c : Cluster) specs : ∀ indexes ms, new_members c indexes specs = Ok ms → length ms = length specs.
Proof.
  induction specs as [|spec specs IH]; intros [|index indexes] ms; cbn [new_members]; try by intros [= <-].
  destruct (newMember _ _ _ _) as [m| |]; [|done..]. cbn [mbind result_bind].
  destruct (new_members c indexes specs) as [ms'| |] eqn:E; [|done..]. intros [= <-]. simpl. by rewrite (IH _ _ E).
Qed.

Lemma createMembers_keeps pos schedule specs : keeps Q (createMembers (Sc := Sc) pos schedule specs).
Proof.
  assert (∀ A (m : M W A), keeps Q (with_rs (Sc := Sc) (on_world m))) as Hworld
    by (intros A m; apply with_rs_keeps, on_world_only).
  intros f. unfold createMembers. apply bind_state; [apply Hworld|]. intros indexes f1 _ H1'.
  apply bind_state; [etrans; [exact H1'|apply with_rs_keeps, keeps_gets, _]|]. intros c f2 _ H2'.
  apply bind_state; [done|]. intros ms f3 Hms H3'. unfold lift in Hms. injection Hms as Hms <-.
  apply new_members_length in Hms. apply bind_state.
  - destruct (_ ≫= drain _) as [[[s' e] gs]|] eqn:E; [|done]. apply batch_keeps in E as [Hq _]; [|done]. by etrans.
  - intros results f4 _ H4'. match goal with |- Q f (?m f4).2 => enough (keeps Q m) as Hm by (etrans; [exact H4'|apply Hm]) end.
    destruct (existsb _ _); [apply keeps_ret, _|]. destruct indexes; [apply keeps_lift, _|].
    apply keeps_bind; [apply _|apply keeps_ignore; [apply _|apply Hworld]|]. intros _. apply keeps_ret, _.
Qed.
End preserved.

(** Everybody has ended, and nobody with a panic. *)
Lemma all_ended (ps : list (proc FS ())) : (∀ i p, ps !! i = Some p → ∃ e, ended ps i e) →
  ∃ outcomes, ps = Done <$> outcomes ∧ Panic ∉ outcomes.
Proof.
  intros Hall. assert (Forall (λ p, ∃ r, p = Done r ∧ r ≠ Panic) ps) as Hf.
  { apply Forall_lookup. intros i p Hi. destruct (Hall i p Hi) as (e&r&Hr&He). exists r. split; [congruence|]. by intros ->. }
  clear Hall. induction Hf as [|p ps (r&->&Hr) _ (outcomes&->&Hno)]; [exists []; split; [done|apply not_elem_of_nil]|].
  exists (r :: outcomes). split; [done|]. rewrite not_elem_of_cons. by split.
Qed.

Lemma some_ended_outcome (outcomes : list (result ())) e :
  some_ended (Done <$> outcomes) e → match e with None => Ok tt | Some e => Err e end ∈ outcomes.
Proof.
  intros (i&r&Hr&He). rewrite list_lookup_fmap in Hr. destruct (outcomes !! i) as [r'|] eqn:E; [|done].
  injection Hr as ->. apply list_elem_of_lookup_2 in E. by destruct r as [[]| |]; simplify_eq/=.
Qed.

Context {view : W → gmap string string} {ready : W → Prop} `{!StorageLaws W view ready}.

(** C21: what [createMembers] promises, whatever the order in which its goroutines take
    their steps.  Its members have the names from the pod index on, one for each class it
    was given, on the image of the class, and the index is behind them.  Then the
    [createPod] of each member, once for each and nothing else, are run to their ends,
    interleaved in some way.  An error that is recorded was the outcome of some creation
    of the batch, and a success is recorded only if some creation succeeded: so a batch
    that fails or succeeds as a whole, or is a single pod, is recorded as it was.  The
    names are given back only if every record is an error.  (Nobody has these names only
    as long as the index is behind every name in use, which [success_lost_names_given_back]
    shows the records can break.) *)
Theorem createMembers_spec pos schedule specs (s s' : FS) results n
    (Hready : ready (world s.1)) (Hindex : view (world s.1) !! PodIndex = Some (strconv_Itoa n))
    (Hn : 0 ≤ n) (Hmax : n + Z.of_nat (length specs) ≤ MaxInt)
    (Hrun : createMembers pos schedule specs s = (Ok results, s')) :
  let cc := c_cluster (cl s.1) in let count := length specs in
  ∃ s1 outcomes s2,
    Name <$> results.*1 = CreateMemberName (Api.Name cc) <$> seqZ n (Z.of_nat count) ∧
    Config <$> results.*1 = (λ spec, class_label (sc_Name spec)) <$> specs ∧
    GetImage <$> results.*1 = (λ spec, ServerClassCouchbaseImage (Spec cc) (Some spec)) <$> specs ∧
    cl s1.1 = cl s.1 ∧ s1.2 = s.2 ∧ view (world s1.1) !! PodIndex = Some (strconv_Itoa (n + Z.of_nat count)) ∧
    rtc interleave (s1, create_pods pos results.*1 specs) (s2, Done <$> outcomes) ∧ (Panic ∉ outcomes) ∧
    (∀ i m e, results !! i = Some (m, Some e) → Err e ∈ outcomes) ∧
    (∀ i m, results !! i = Some (m, None) → Ok tt ∈ outcomes) ∧
    (if existsb (λ r : Member * option error, bool_decide (r.2 = None)) results then s' = s2
     else s' = (ignore_error (with_rs (on_world (setPodIndex n))) s2).2).
Proof.
  unfold createMembers in Hrun. inv_ok Hrun. inv_ok Hrun. injection Hrun1 as <- <-. inv_ok Hrun. inv_ok Hrun.
  unfold with_rs, on_world, zoom in Hrun0. cbn [fst snd] in Hrun0.
  pose proof (getAvailableIndexes_spec (view := view) (ready := ready) n (Z.of_nat (length specs)) (world s.1)
    Hready Hindex Hn ltac:(lia)) as Hidx.
  destruct (getAvailableIndexes (Z.of_nat (length specs)) (world s.1)) as [r w1]. injection Hrun0 as -> <-.
  destruct Hidx as (->&Hview&_). rewrite Z.max_r in Hview by lia. unfold lift in Hrun1. cbn [fst snd] in Hrun1.
  destruct (new_members _ _ specs) as [ms| |] eqn:Ems; [|discriminate Hrun1..]. injection Hrun1 as <- <-.
  apply new_members_spec in Ems as (Hnames&Hconfig&Himages); [|rewrite length_seqZ; lia].
  assert (length ms = length specs) as Hlen by (apply (f_equal length) in Hconfig; by rewrite !length_fmap in Hconfig).
  destruct (_ ≫= drain _) as [[[s3 err] gs]|] eqn:Eg; [|discriminate Hrun2]. injection Hrun2 as <- <-.
  apply goroutines_end in Eg as (ps&Hps&Hover); [|unfold create_pods; rewrite length_imap, length_zip; lia].
  set (results' := (λ g : Goroutine, (g_member g, g_Err g)) <$> gs) in *.
  assert (results'.*1 = ms) as Hms.
  { unfold results'. rewrite <- list_fmap_compose. apply (rn_members _ _ _ _ _ Hps). }
  assert (results = results' ∧ (if existsb (λ r : Member * option error, bool_decide (r.2 = None)) results' then s' = s3
    else s' = (ignore_error (with_rs (on_world (setPodIndex n))) s3).2)) as [-> Hend].
  { destruct (existsb _ results'); [by injection Hrun as <- <-|].
    destruct (seqZ n (Z.of_nat (length specs))) as [|first rest] eqn:Eq; [discriminate Hrun|].
    assert (first = n) as ->.
    { assert ((first :: rest) !! 0%nat = Some (n + 0)) as Hhead; [|simpl in Hhead; injection Hhead; lia].
      rewrite <- Eq. apply lookup_seqZ. split; [lia|]. assert (length (seqZ n (Z.of_nat (length specs))) ≠ 0%nat) by (by rewrite Eq).
      rewrite length_seqZ in *. lia. }
    unfold mbind, M_bind in Hrun. destruct (ignore_error _ s3) as [[[]| |] s4]; [|discriminate Hrun..].
    by injection Hrun as <- <-. }
  destruct (all_ended ps) as (outcomes&->&Hno).
  { intros i p Hi. apply lookup_lt_Some in Hi. rewrite (rn_length _ _ _ _ _ Hps) in Hi.
    apply lookup_lt_is_Some_2 in Hi as [g Hg]. pose proof (rn_pc _ _ _ _ _ Hps i g Hg) as Hg'.
    by rewrite (Hover i g Hg) in Hg'. }
  exists (set_world w1 s.1, s.2), outcomes, s3. rewrite Hms. split; [by rewrite Hnames|]. split; [done|]. split; [done|].
  split; [done|]. split; [done|]. split; [done|]. split; [exact (rn_created _ _ _ _ _ Hps)|]. split; [done|].
  assert (∀ i m e, results' !! i = Some (m, e) → ∃ g, gs !! i = Some g ∧ g_Err g = e) as Hin.
  { intros i m e. unfold results'. rewrite list_lookup_fmap. destruct (gs !! i) as [g|]; [|done].
    intros [= _ <-]. by exists g. }
  split; [|split; [|exact Hend]].
  - intros i m e (g&Hg&He)%Hin. apply (some_ended_outcome outcomes (Some e)). by eapply (rn_recorded _ _ _ _ _ Hps i g).
  - intros i m (g&Hg&He)%Hin. apply dec_stable. intros Hex.
    eapply (rn_failing _ _ _ _ _ Hps i g); [|exact Hg|by eapply Hover|done].
    intros Hend'. by apply Hex, (some_ended_outcome outcomes None).
Qed.
End goroutines.

(** ** On the simulated platform *)
#[export] Instance sim_claims : ClaimPlatform Sim := {|
  api_Events _ _ := Ok [];
  api_CreatePVC p _ w := (Ok tt, sim_set_pvcs (p :: sim_pvcs w) w);
  api_DeletePVC name w := (Ok tt, sim_set_pvcs (filter (λ p, pvc_Name p ≠ name) (sim_pvcs w)) w);
  api_CreatePod p w := match sim_find w (kp_Name p) with
                       | Some _ => (Err ErrAlreadyExists, w)
                       | None => (Ok p, sim_set_pods (p :: sim_pods w) w)
                       end;
  establish_CNG w := (Ok tt, w);
  pod_spec m _ _ _ _ := Ok (with_conditions (sim_new_pod m) []);
  storage_spec := mkStorageSpec [] "" None None;
  operator_version := "2.9.0" |}.

#[local] Instance no_json : SpecJSON := {| marshal_spec _ := ""; unmarshal_spec _ := Err ErrSyntax |}.
#[local] Instance no_tracker : TrackerJSON := {| marshal_tracker _ := ""; unmarshal_tracker _ := Err ErrSyntax |}.

Definition class_of (name : string) : ServerConfig := {|
  sc_Size := 1; sc_Name := name; sc_Services := ["data"]; sc_ServerGroups := [];
  sc_VolumeMounts := None; sc_Image := ""; sc_NodeSelector := None; sc_AutoscaleEnabled := false |}.

(** Three pods there are; the scheduler knows the class [data] only. *)
Definition before : RS Sim * nullSchedulerImpl :=
  (set_world (sim_set_store {[PodIndex := "3"]} scaled_world) scaled_state,
   NullScheduler {["data" := ServerList []]} ∅).

Definition create_batch (schedule : list nat) (specs : list ServerConfig) :
    result (list (Member * option error)) * (RS Sim * nullSchedulerImpl) :=
  createMembers (H2 := const None) (H3 := canonical_range) [] schedule specs before.

Definition recorded (schedule : list nat) (specs : list ServerConfig) :
    list (string * bool) * list string * option string :=
  let '(r, (s, _)) := create_batch schedule specs in
  (match r with Ok l => (λ x : Member * option error, (Name x.1, bool_decide (x.2 = None))) <$> l | _ => [] end,
   kp_Name <$> sim_pods (world s), sim_store (world s) !! PodIndex).

(** One after the other, the creation of the second pod, whose class the scheduler does
    not know, is recorded as the failure it is. *)
Example in_turn :
  recorded [] [class_of "data"; class_of "other"] =
  ([("cb-0003", true); ("cb-0004", false)], ["cb-0003"; "cb-0000"; "cb-0001"; "cb-0002"], Some "5").
Proof. vm_compute. reflexivity. Qed.

(** The first goroutine stores its success between the store of the second and its
    test: the failure is recorded as a success. *)
Example failure_lost :
  recorded (replicate 7 1 ++ replicate 13 0 ++ [1])%nat [class_of "data"; class_of "other"] =
  ([("cb-0003", true); ("cb-0004", true)], ["cb-0003"; "cb-0000"; "cb-0001"; "cb-0002"], Some "5").
Proof. vm_compute. reflexivity. Qed.

(** The other way round, the success is recorded as a failure; then all have failed and
    the pod index is set back to the name of a pod that lives. *)
Example success_lost_names_given_back :
  recorded (replicate 6 1 ++ replicate 13 0 ++ [1])%nat [class_of "data"; class_of "other"] =
  ([("cb-0003", false); ("cb-0004", false)], ["cb-0003"; "cb-0000"; "cb-0001"; "cb-0002"], Some "3").
Proof. vm_compute. reflexivity. Qed.

Lemma createMembers_spec_witness :
  ∃ results s', create_batch [0; 1; 1; 0]%nat [class_of "data"; class_of "data"] = (Ok results, s') ∧
    Name <$> results.*1 = ["cb-0003"; "cb-0004"] ∧ results.*2 = [None; None] ∧
    ∃ s1 outcomes s2, rtc interleave
        (s1, create_pods (H2 := const None) (H3 := canonical_range) [] results.*1 [class_of "data"; class_of "data"])
        (s2, Done <$> outcomes) ∧ Ok tt ∈ outcomes.
Proof.
  assert ((λ r, r.*2) <$> (create_batch [0; 1; 1; 0]%nat [class_of "data"; class_of "data"]).1 = Ok [None; None])
    as Hr by (vm_compute; reflexivity).
  destruct (create_batch _ _) as [[results| |] s'] eqn:E; [|discriminate Hr..]. injection Hr as Hr.
  exists results, s'. split; [reflexivity|]. unfold create_batch in E.
  assert (sim_store (world before.1) !! PodIndex = Some (strconv_Itoa 3)) as Hindex by (vm_compute; reflexivity).
  assert (3 + Z.of_nat (length [class_of "data"; class_of "data"]) ≤ MaxInt) as Hmax by (vm_compute; discriminate).
  assert (0 ≤ 3) as Hthree by lia.
  destruct (createMembers_spec (H2 := const None) (H3 := canonical_range) (view := sim_store) (ready := λ _, True)
    [] [0; 1; 1; 0]%nat [class_of "data"; class_of "data"] before s' results 3 I Hindex Hthree Hmax E)
    as (s1&outcomes&s2&Hn&_&_&_&_&_&Hrun&_&_&Hok&_).
  split; [rewrite Hn; vm_compute; reflexivity|]. split; [exact Hr|]. exists s1, outcomes, s2. split; [exact Hrun|].
  destruct results as [|[m o] results]; [discriminate Hr|]. injection Hr as Ho _. subst o.
  exact (Hok 0%nat m eq_refl).
Defined.
