(* ===== verification/PendingInitSpec.v ===== *)
(** * Pods waiting to be initialised: nobody loses the mark unnoticed

    A pod without the mark and without the annotation of an initialised one is deleted
    with its data in the next cycle.  The handlers clear the mark of a pod only when it
    carries the annotation, or is being removed; that holds as long as the annotations in
    the cache are those of the API, and fails otherwise (see the example at the end). *)

From Stdlib Require Import Ascii.
From S2P Require Import Prelude Effects GoLib Regex Digests Version Api Member Persistence Status.
From S2P Require Import Scheduler UpgradeOrder RollingUpgrade NodeStatus Pods Volumes Machine Rebalance Baseline.
From S2P Require Import Claims Creation Recovery PendingInit Sim MachineSpec.
Local Open Scope Z_scope.

Definition has_mark (l : list PodCondition) : bool :=
  existsb (λ c, bool_decide (pc_Type c = PodPendingInitializationCondition)) l.

(** ** What the API knows of the pods *)

(** [marked]: the pod has the mark; [safe]: it has the annotation, or it is gone or
    being deleted. *)
Class PodView (W : Type) := { marked : W → string → bool; safe : W → string → bool }.

Section view.
Context `{NodeInit W} `{PodView W}.

(** A cached object is annotated only if the pod is. *)
Definition truthful (w : W) (n : string) : Prop :=
  (∀ pod, kp_Name pod = n → is_initialized (deref pod w) = true → safe w n = true) ∧
  (∀ pod, Pods_Get w n = Some pod → is_initialized pod = true → safe w n = true).

Record kept (n : string) (w w' : W) : Prop := {
  k_safe : safe w n = true → safe w' n = true;
  k_mark : marked w n = true → marked w' n = true ∨ safe w' n = true;
  k_fresh : marked w' n = true → marked w n = true ∨ safe w' n = true;
}.

Definition apart (P : string → Prop) (w w' : W) : Prop :=
  ∀ n, kept n w w' ∧ (P n → truthful w n → truthful w' n).
Definition gentle : relation W := apart (λ _, True).
Definition but (a : string) : relation W := apart (λ n, n ≠ a).

#[export] Instance apart_preorder P : PreOrder (apart P).
Proof.
  split.
  - intros w n. split; [split; auto|done].
  - intros w1 w2 w3 H12 H23 n. destruct (H12 n) as [[S1 M1 F1] T1], (H23 n) as [[S2 M2 F2] T2].
    split; [|auto]. split; [auto|intros Hm; apply M1 in Hm as [Hm|Hs]; auto|].
    intros Hm. apply F2 in Hm as [Hm|Hs]; [|auto]. apply F1 in Hm as [Hm|Hs]; auto.
Qed.
#[export] Instance gentle_preorder : PreOrder gentle.
Proof. apply _. Qed.
#[export] Instance but_preorder a : PreOrder (but a).
Proof. apply _. Qed.

Lemma gentle_but a w w' : gentle w w' → but a w w'.
Proof. intros Hg n. destruct (Hg n) as [Hk Ht]. split; [done|]. intros _. by apply Ht. Qed.

(** Each call returns without harm.  The cache is not the API: only the annotation put
    into it can be untrue.  An update that would drop the annotation is a conflict and
    refused; only the operator writes the mark. *)
Class InitLaws `{PersistentStorage W} := {
  deref_name pod w : kp_Name (deref pod w) = kp_Name pod;
  get_name w n pod : Pods_Get w n = Some pod → kp_Name pod = n;
  law_tick w : gentle w (retry_tick w);
  law_get name w : gentle w (api_GetPod name w).2 ∧
    ∀ pod, (api_GetPod name w).1 = Ok pod → has_mark (kp_Conditions pod) = marked (api_GetPod name w).2 name;
  law_patch name conditions w :
    (marked w name = true → has_mark conditions = true ∨ safe w name = true) →
    (has_mark conditions = true → marked w name = true ∨ safe w name = true) →
    gentle w (api_PatchConditions name conditions w).2;
  law_SetPod pod w : but (kp_Name pod) w (cache_SetPod pod w) ∧
    ((is_initialized pod = true → safe w (kp_Name pod) = true) → gentle w (cache_SetPod pod w));
  law_Update pod w : but (kp_Name pod) w (cache_Update pod w).2 ∧
    ((is_initialized pod = true → safe w (kp_Name pod) = true) → gentle w (cache_Update pod w).2);
  law_UpdatePod pod w : gentle w (api_UpdatePod pod w).2 ∧
    ((api_UpdatePod pod w).1 = Ok tt → is_initialized pod = true → safe (api_UpdatePod pod w).2 (kp_Name pod) = true);
  law_Delete name volumes w : gentle w (api_DeleteCouchbasePod name volumes w).2 ∧
    ((api_DeleteCouchbasePod name volumes w).1 = Ok tt → safe (api_DeleteCouchbasePod name volumes w).2 name = true);
  law_SetPVC pvc w : gentle w (cache_SetPVC pvc w);
  law_UpdatePVC pvc : keeps gentle (api_UpdatePVC pvc);
  law_GetCluster : keeps gentle api_GetCluster;
  law_UpdateStatus status : keeps gentle (api_UpdateStatus status);
  law_PatchStatus status : keeps gentle (api_PatchStatus status);
  law_store_Get kind : keeps gentle (ps_Get kind);
  law_store_Insert kind value : keeps gentle (ps_Insert kind value);
  law_store_Upsert kind value : keeps gentle (ps_Upsert kind value);
  law_GetPoolsDefault target : keeps gentle (cb_GetPoolsDefault target);
  law_GetPools target : keeps gentle (cb_GetPools target);
  law_ListTasks target : keeps gentle (cb_ListTasks target);
  law_AddNode url services target : keeps gentle (cb_AddNode url services target);
  law_GetNodesSelf m : keeps gentle (cb_GetNodesSelf m);
  law_addresses c m : keeps gentle (createAlternateAddressesExternal c m);
  law_reachable hostname : keeps gentle (waitAlternateAddressReachable hostname);
  law_listener family m : keeps gentle (cb_EnableExternalListener family m);
  law_network family only m : keeps gentle (cb_SetNodeNetworkConfiguration family only m);
  law_LoadCAs m : keeps gentle (cb_LoadCAs m);
  law_SetCA ca m : keeps gentle (cb_SetClusterCACert ca m);
  law_Reload settings m : keeps gentle (cb_ReloadNodeCert settings m);
  law_passphrase : keeps gentle passphraseSettings;
  law_tls m ca : keeps gentle (WaitForHostPortTLS m ca);
  law_hostname host m : keeps gentle (cb_SetHostname host m);
  law_paths data index analytics m : keeps gentle (cb_SetStoragePaths data index analytics m);
  law_initial c m class : keeps gentle (initInitialMember c m class);
}.
End view.

(** Their instances are found by unification, which [auto] leaves to [apply]. *)
Ltac gentle_law := first
  [apply law_UpdatePVC | apply law_GetCluster | apply law_UpdateStatus | apply law_PatchStatus | apply
  law_store_Get | apply law_store_Insert | apply law_store_Upsert | apply law_GetPoolsDefault | apply
  law_GetPools | apply law_ListTasks | apply law_AddNode | apply law_GetNodesSelf | apply law_addresses | apply
  law_reachable | apply law_listener | apply law_network | apply law_LoadCAs | apply law_SetCA | apply
  law_Reload | apply law_passphrase | apply law_tls | apply law_hostname | apply law_paths | apply law_initial].
#[export] Hint Extern 1 (keeps gentle _) => gentle_law : keeps.

Section init.
Context `{NodeInit W} `{PersistentStorage W} `{Environment} `{MapRange} `{TrackerJSON} `{PodView W} `{!InitLaws}.
Context (tlsCache : option string).
Abbreviation R := (RS W).

Lemma gentle_retry {A} (m : M W A) : keeps gentle m → keeps gentle (retry_for m).
Proof.
  intros Hm w. unfold retry_for. generalize (retry_ticks w). intros n. revert w.
  induction n as [|n IH]; intros w; simpl; specialize (Hm w); destruct (m w) as [[a|e|] w']; simpl in *; try done.
  etrans; [exact Hm|]. etrans; [apply law_tick|apply IH].
Qed.

Lemma gentle_UpdatePod pod : keeps gentle (api_UpdatePod pod).
Proof. intros w. apply law_UpdatePod. Qed.
Lemma gentle_Delete name v : keeps gentle (api_DeleteCouchbasePod name v).
Proof. intros w. apply law_Delete. Qed.
#[local] Hint Resolve gentle_UpdatePod gentle_Delete : keeps.
#[local] Hint Extern 2 (keeps gentle (retry_for _)) => apply gentle_retry; keeps_tac : keeps.
#[local] Hint Extern 1 (keeps gentle (modify (cache_SetPVC _))) => apply keeps_modify; intros; apply law_SetPVC : keeps.

(** ** The state of a cycle *)
Definition calm : relation R := λ s s', gentle (world s) (world s').
Definition calm_but (a : string) : relation R := λ s s', but a (world s) (world s').

#[local] Instance calm_preorder : PreOrder calm.
Proof. unfold calm. split; [intros s; reflexivity|intros s1 s2 s3 ??; by etrans]. Qed.
#[local] Instance calm_but_preorder a : PreOrder (calm_but a).
Proof. unfold calm_but. split; [intros s; reflexivity|intros s1 s2 s3 ??; by etrans]. Qed.

Lemma calm_world {A} (m : M W A) : keeps gentle m → keeps calm (on_world m).
Proof. intros Hm s. unfold calm, on_world, zoom. specialize (Hm (world s)). by destruct (m (world s)). Qed.

Lemma calm_same (s s' : R) : world s' = world s → calm s s'.
Proof. unfold calm. intros ->. reflexivity. Qed.

#[local] Hint Extern 2 (keeps calm (on_world _)) => apply calm_world; keeps_tac : keeps.
#[local] Hint Extern 1 (keeps calm (modify _)) => apply keeps_modify; intros; by apply calm_same : keeps.
#[local] Hint Extern 1 (keeps calm (set_status_now _)) => apply keeps_modify; intros; by apply calm_same : keeps.

Lemma calm_isUpgrading : keeps gentle (isUpgrading (ST := W)).
Proof.
  intros w. unfold isUpgrading. pose proof (law_store_Get Upgrading w) as Hg. destruct (ps_Get Upgrading w) as [[v|e|] w'].
  - done.
  - simpl in *. etrans; [exact Hg|].
    assert (keeps gentle (ps_Insert Upgrading UpgradeInactive;; mret (M := M W) false)) as Hk by keeps_tac. apply Hk.
  - done.
Qed.

Lemma gentle_status learned pos b info ms : keeps gentle (getStatusFromClusterInfo (ST := W) learned pos b info ms).
Proof.
  intros w. unfold getStatusFromClusterInfo. destruct (nodes_loop _ _ _ _ _ _ _) as [[states unknown]| |]; [|reflexivity..].
  pose proof (calm_isUpgrading w) as Hu. by destruct (isUpgrading w).
Qed.
#[local] Hint Resolve gentle_status : keeps.

Lemma calm_GetStatus pos : keeps calm (GetStatus pos).
Proof. unfold GetStatus, getStatusFromTarget. keeps_tac. Qed.

Lemma calm_updateCRStatus : keeps calm updateCRStatus.
Proof. unfold updateCRStatus. keeps_tac. Qed.
#[local] Hint Resolve calm_GetStatus calm_updateCRStatus : keeps.

Lemma calm_updateMemberStatus pos b : keeps calm (updateMemberStatus pos b).
Proof. unfold updateMemberStatus, updateMemberStatusWithClusterInfo. keeps_tac. Qed.
#[local] Hint Resolve calm_updateMemberStatus : keeps.

Lemma calm_clusterCreateMember pos m : keeps calm (clusterCreateMember pos m).
Proof. unfold clusterCreateMember. keeps_tac. Qed.

Lemma calm_removePod name v : keeps calm (removePod name v).
Proof. unfold removePod, perform. keeps_tac. Qed.
#[local] Hint Resolve calm_clusterCreateMember calm_removePod : keeps.

Lemma calm_cleaned {A} b name (m : M R A) : keeps calm m → keeps calm (cleaned b name m).
Proof. intros Hm. unfold cleaned. keeps_tac. Qed.

(** ** Changes of cached objects *)
Lemma annotated_other key value pod :
  key ≠ PodInitializedAnnotation → is_initialized (set_pod_annotation key value pod) = is_initialized pod.
Proof.
  intros Hne. unfold is_initialized, set_pod_annotation. simpl. by rewrite lookup_insert_ne by done.
Qed.

(** The object put into the cache is annotated only if the cached one it was made from. *)
Lemma gentle_cached w w1 w2 pod :
  gentle w w1 → (truthful w (kp_Name pod) → is_initialized pod = true → safe w (kp_Name pod) = true) →
  but (kp_Name pod) w1 w2 ∧ ((is_initialized pod = true → safe w1 (kp_Name pod) = true) → gentle w1 w2) →
  gentle w w2.
Proof.
  intros Hw Htrue [Hbut Hgentle] a.
  assert (kept a w w2 ∧ (a ≠ kp_Name pod → truthful w a → truthful w2 a)) as [Hk Ht].
  { assert (but (kp_Name pod) w w2) as Hb by (etrans; [by apply gentle_but|done]). apply Hb. }
  split; [done|]. intros _ Ha. destruct (decide (a = kp_Name pod)) as [->|]; [|by apply Ht].
  destruct (Hw (kp_Name pod)) as [Hk1 Ht1]. apply Hgentle; [|done|by apply Ht1].
  intros Hi. apply Hk1. by apply Htrue.
Qed.

(** An annotation other than that of the initialised. *)
Lemma annotated_true w name pod key value :
  Pods_Get w name = Some pod → key ≠ PodInitializedAnnotation →
  let pod' := set_pod_annotation key value pod in
  kp_Name pod' = name ∧ (truthful w (kp_Name pod') → is_initialized pod' = true → safe w (kp_Name pod') = true).
Proof.
  intros Hget Hkey pod'. assert (kp_Name pod' = name) as Hname by (by apply get_name in Hget).
  split; [done|]. rewrite Hname. unfold pod'. rewrite annotated_other by done. intros [_ Ht]. by apply Ht.
Qed.

Lemma gentle_record_version name version : keeps gentle (record_version name version).
Proof.
  intros w. unfold record_version. run (eq_refl : get w = (Ok w, w)). destruct (Pods_Get w name) as [pod|] eqn:Hget; [|reflexivity].
  case_bool_decide; [reflexivity|].
  destruct (annotated_true w name pod CouchbaseVersionAnnotationKey version Hget ltac:(done)) as [_ Htrue].
  set (pod' := set_pod_annotation _ _ pod) in *.
  assert (gentle w (cache_SetPod pod' w)) as Hset.
  { eapply (gentle_cached w w); [reflexivity|exact Htrue|apply law_SetPod]. }
  assert (keeps gentle (api_UpdatePod pod';; (w ← get; for_each (stamp_claim name version) (PVCs_List w)))) as Hk.
  { keeps_tac. unfold stamp_claim, update_shared. keeps_tac. }
  etrans; [exact Hset|apply Hk].
Qed.
#[local] Hint Resolve gentle_record_version : keeps.

Lemma calm_name_by_host m : keeps calm (name_by_host m).
Proof.
  intros s. unfold name_by_host. run (eq_refl : gets cl s = (Ok (cl s), s)).
  run (eq_refl : gets world s = (Ok (world s), s)). destruct (Pods_Get _ _) as [pod|] eqn:Hget; [|reflexivity].
  destruct (hostNetwork (cl s)); [|reflexivity].
  destruct (annotated_true (world s) (Name m) pod CouchbaseHostnameAnnotation (kp_NodeName pod) Hget ltac:(done)) as [_ Htrue].
  set (pod' := set_pod_annotation _ _ pod) in *. unfold calm.
  assert (gentle (world s) (cache_SetPod pod' (world s))) as Hset.
  { eapply (gentle_cached (world s) (world s)); [reflexivity|exact Htrue|apply law_SetPod]. }
  assert (gentle (world s) (cache_Update pod' (cache_SetPod pod' (world s))).2) as Hup.
  { eapply gentle_cached; [exact Hset|exact Htrue|apply law_Update]. }
  unfold on_world, zoom, modify, mbind, M_bind. simpl.
  destruct (cache_Update pod' (cache_SetPod pod' (world s))) as [[u|e|] w2]; simpl in *; try done.
  pose proof (gentle_UpdatePod pod' w2) as Hup2.
  destruct (api_UpdatePod pod' w2) as [[u2|e|] w3]; simpl in *; by etrans.
Qed.
#[local] Hint Resolve calm_name_by_host : keeps.

Lemma calm_updateVersionBaseline pos v : keeps calm (updateVersionBaseline pos v).
Proof. unfold updateVersionBaseline, setClusterVersion. keeps_tac. Qed.
#[local] Hint Resolve calm_updateVersionBaseline calm_cleaned : keeps.

Lemma gentle_initMemberNetworking c m : keeps gentle (initMemberNetworking c m).
Proof. unfold initMemberNetworking. keeps_tac. Qed.
Lemma gentle_initMemberTLS c m : keeps gentle (initMemberTLS tlsCache c m).
Proof. unfold initMemberTLS, initMemberTLSNew, initMemberTLSLegacy. keeps_tac. Qed.
#[local] Hint Resolve gentle_initMemberNetworking gentle_initMemberTLS : keeps.

Lemma calm_initMember pos m spec b : keeps calm (initMember tlsCache pos m spec b).
Proof.
  unfold initMember, update_new_version. keeps_tac; try (apply calm_cleaned; keeps_tac).
Qed.
#[local] Hint Resolve calm_initMember : keeps.

(** ** The marks *)
Lemma patch_gentle w0 w pod conditions :
  gentle w0 w → (truthful w0 (kp_Name pod) → is_initialized pod = true → safe w0 (kp_Name pod) = true) →
  (marked w (kp_Name pod) = true → has_mark conditions = true ∨ safe w (kp_Name pod) = true) →
  (has_mark conditions = true → marked w (kp_Name pod) = true ∨ safe w (kp_Name pod) = true) →
  gentle w0 (patchConditions pod conditions w).2.
Proof.
  intros Hw Htrue Hlose Hgain. unfold patchConditions. set (name := kp_Name pod) in *.
  assert (∀ w1, gentle w w1 → gentle w1 (api_PatchConditions name conditions w1).2) as Hpatch.
  { intros w1 Hw1. destruct (Hw1 name) as [[S M F] _]. apply law_patch.
    - intros [Hm|Hs]%F; [|by right]. apply Hlose in Hm as [|Hs]; auto.
    - intros [Hm|Hs]%Hgain; auto. }
  assert (gentle w (retry_for (api_PatchConditions name conditions) w).2) as Hretry.
  { unfold retry_for. generalize (retry_ticks w). intros n. assert (gentle w w) as Hw1 by reflexivity. revert Hw1.
    generalize w at 2 4. induction n as [|n IH]; intros w1 Hw1; simpl; specialize (Hpatch w1 Hw1) as Hp;
      destruct (api_PatchConditions name conditions w1) as [[a|e|] w2]; simpl in *; try by etrans.
    apply IH. etrans; [exact Hw1|]. etrans; [exact Hp|apply law_tick]. }
  unfold mbind, M_bind. destruct (retry_for _ w) as [[a|e|] w1]; simpl in *; [|by etrans..].
  eapply gentle_cached; [by etrans|exact Htrue|]. apply (law_Update (with_conditions pod conditions) w1).
Qed.

(** The object somebody was given is annotated only if the cached one is. *)
Lemma deref_true w pod :
  truthful w (kp_Name (deref pod w)) → is_initialized (deref pod w) = true → safe w (kp_Name (deref pod w)) = true.
Proof. rewrite deref_name. intros [Ht _]. by apply Ht. Qed.

Lemma filter_mark l : has_mark (filter (λ c, pc_Type c ≠ PodPendingInitializationCondition) l) = false.
Proof.
  apply not_true_iff_false. unfold has_mark. intros (c&Hin&Hc)%existsb_exists.
  apply list_elem_of_In in Hin.
  apply list_elem_of_filter in Hin as [Hne _]. by apply bool_decide_eq_true in Hc.
Qed.

(** The mark of a pod that is safe is cleared without harm. *)
Lemma clear_gentle pod w : safe w (kp_Name pod) = true → gentle w (ClearPodPendingInitialization pod w).2.
Proof.
  intros Hsafe. unfold ClearPodPendingInitialization. run (eq_refl : get w = (Ok w, w)).
  unfold RemovePodCondition. set (p := deref pod w). assert (kp_Name p = kp_Name pod) as Hname by apply deref_name.
  destruct (law_get (kp_Name p) w) as [Hg _]. unfold mbind, M_bind.
  destruct (api_GetPod (kp_Name p) w) as [[current|e|] w1]; simpl in *; [|done..].
  case_bool_decide; [done|]. apply patch_gentle.
  - done.
  - apply deref_true.
  - intros _. right. rewrite Hname. by apply Hg.
  - by rewrite filter_mark.
Qed.

Lemma upsert_mark condition l :
  pc_Type condition ≠ PodPendingInitializationCondition → has_mark (upsert_condition condition l) = has_mark l.
Proof.
  intros Hne. induction l as [|c l IH]; simpl.
  - unfold has_mark. simpl. by rewrite bool_decide_eq_false_2.
  - case_bool_decide as Ht.
    + unfold has_mark. simpl. f_equal. rewrite (bool_decide_eq_false_2 (pc_Type c = _)) by congruence.
      destruct (bool_decide (pc_Status c = _)); by apply bool_decide_eq_false_2.
    + unfold has_mark in *. simpl. by rewrite IH.
Qed.

Lemma upsert_gentle w0 w pod condition :
  gentle w0 w → pc_Type condition ≠ PodPendingInitializationCondition →
  (truthful w0 (kp_Name pod) → is_initialized pod = true → safe w0 (kp_Name pod) = true) →
  gentle w0 (UpsertPodCondition pod condition w).2.
Proof.
  intros Hw Hne Htrue. unfold UpsertPodCondition.
  destruct (law_get (kp_Name pod) w) as [Hg Hread]. unfold mbind, M_bind.
  destruct (api_GetPod (kp_Name pod) w) as [[current|e|] w1]; simpl in *; [|by etrans..].
  specialize (Hread current eq_refl). apply patch_gentle; [by etrans|done|..]; rewrite upsert_mark, Hread by done; auto.
Qed.

Lemma flag_gentle pod message : keeps gentle (FlagPodPendingExternalDNS pod message).
Proof.
  intros w. unfold FlagPodPendingExternalDNS, NewPodCondition.
  run (eq_refl : (now ← gets time_now; mret (mkCondition PodPendingExternalDNSCondition "True" message now)) w
                 = (Ok (mkCondition PodPendingExternalDNSCondition "True" message (time_now w)), w)).
  run (eq_refl : get w = (Ok w, w)). set (condition := mkCondition _ _ _ _).
  pose proof (upsert_gentle w w (deref pod w) condition ltac:(reflexivity) ltac:(done) (deref_true w pod)) as Hu.
  unfold mbind, M_bind. destruct (UpsertPodCondition _ _ w) as [[a|e|] w1]; simpl in *; [|done..].
  etrans; [exact Hu|]. eapply (gentle_cached w1 w1); [reflexivity|apply deref_true|]. apply (law_Update (deref pod w1) w1).
Qed.
#[local] Hint Resolve flag_gentle : keeps.

(** [SetPodInitialized] may leave the annotation in the cache only. *)
Lemma initialized_spec name w :
  but name w (SetPodInitialized name w).2 ∧
  ((SetPodInitialized name w).1 = Ok tt → safe (SetPodInitialized name w).2 name = true).
Proof.
  unfold SetPodInitialized, retry_for. generalize (retry_ticks w). intros n. revert w.
  match goal with |- context [Retry _ _ ?f] => set (callback := f) end.
  assert (∀ w, but name w (callback w).2 ∧ ((callback w).1 = Ok tt → safe (callback w).2 name = true)) as Hone.
  { intros w. unfold callback. run (eq_refl : get w = (Ok w, w)).
    destruct (Pods_Get w name) as [pod|] eqn:Hget; [|split; [reflexivity|done]].
    apply get_name in Hget as Hname. unfold modify, mbind, M_bind. simpl.
    set (pod' := set_initialized pod). assert (kp_Name pod' = name) as Hname' by done.
    destruct (law_SetPod pod' w) as [Hb _]. destruct (law_UpdatePod pod' (cache_SetPod pod' w)) as [Hg Hok].
    rewrite Hname' in *. split; [etrans; [exact Hb|by apply gentle_but]|].
    intros Hr. apply Hok; [done|]. unfold is_initialized, pod'. simpl. by rewrite lookup_insert_eq. }
  induction n as [|n IH]; intros w; simpl; destruct (Hone w) as [Hb Hok];
    destruct (callback w) as [[[]|e|] w1]; simpl in *; try done.
  destruct (IH (retry_tick w1)) as [Hb2 Hok2]. split; [|done].
  etrans; [exact Hb|]. etrans; [apply gentle_but, law_tick|exact Hb2].
Qed.

(** ** The handlers *)
Lemma gentle_canAddNode c pod m : keeps gentle (canAddNodeToCluster c pod m).
Proof. unfold canAddNodeToCluster. keeps_tac. Qed.

Lemma gentle_attemptAddNode m url services target : keeps gentle (attemptAddNode m url services target).
Proof. unfold attemptAddNode. keeps_tac. Qed.

Lemma gentle_addNode m url services target : keeps gentle (AddNodeWithPodReadyCheck m url services target).
Proof.
  intros w. unfold AddNodeWithPodReadyCheck. generalize (retry_ticks w). intros n. revert w.
  induction n as [|n IH]; intros w; simpl; destruct (checkTargetPodAvailable w target) as [[]|e|]; try reflexivity;
    pose proof (gentle_attemptAddNode m url services target w) as Ha;
    destruct (attemptAddNode m url services target w) as [[[]|e|] w']; simpl in *; try done;
    try case_bool_decide; simpl; try done;
    (etrans; [exact Ha|]; etrans; [apply law_tick|apply IH]).
Qed.

Lemma gentle_waitForPodAdded m : keeps gentle (waitForPodAdded m).
Proof. unfold waitForPodAdded. keeps_tac. Qed.
#[local] Hint Resolve gentle_canAddNode gentle_addNode gentle_waitForPodAdded : keeps.

Lemma calm_apart a s s' : calm s s' → calm_but a s s'.
Proof. apply gentle_but. Qed.

Lemma calm_truthful s s' n : calm s s' → truthful (world s) n → truthful (world s') n.
Proof. intros Hc. by apply Hc. Qed.

Lemma clear_calm pod s : safe (world s) (kp_Name pod) = true → calm s (clear_pending pod s).2.
Proof.
  intros Hs. unfold calm, clear_pending, on_world, zoom. pose proof (clear_gentle pod (world s) Hs) as Hg.
  by destruct (ClearPodPendingInitialization pod (world s)).
Qed.

Lemma initialized_calm name s :
  calm_but name s (on_world (SetPodInitialized name) s).2 ∧
  ((on_world (SetPodInitialized name) s).1 = Ok tt → safe (world (on_world (SetPodInitialized name) s).2) name = true).
Proof.
  unfold calm_but, on_world, zoom. pose proof (initialized_spec name (world s)) as [Hb Hok].
  by destruct (SetPodInitialized name (world s)).
Qed.

(** The annotation, then the mark: what both kinds of handlers end with. *)
Lemma set_then_clear pod s :
  calm_but (kp_Name pod) s ((on_world (SetPodInitialized (kp_Name pod));; clear_pending pod) s).2.
Proof.
  destruct (initialized_calm (kp_Name pod) s) as [Hb Hok]. apply bind_state; [exact Hb|].
  intros [] s1 Hrun _. rewrite Hrun in Hb, Hok. simpl in *. etrans; [exact Hb|]. apply calm_apart, clear_calm. by apply Hok.
Qed.

Lemma ignore_state {A} (P : R → Prop) (m : M R A) s : P (m s).2 → P (ignore_error m s).2.
Proof. unfold ignore_error, attempt, mbind, M_bind. by destruct (m s) as [[a|e|] s']. Qed.

Lemma name_by_host_name m s m' s' : name_by_host m s = (Ok m', s') → Name m' = Name m.
Proof.
  unfold name_by_host. intros Hrun. inv_ok Hrun. inv_ok Hrun. destruct (Pods_Get _ _) as [pod|]; [|by injection Hrun as <- <-].
  destruct (hostNetwork _); [|by injection Hrun as <- <-]. inv_ok Hrun. inv_ok Hrun. inv_ok Hrun.
  injection Hrun as <- <-. by destruct m as [[]|].
Qed.

Lemma update_new_version_name m v s m' s' : update_new_version m v s = (Ok m', s') → Name m' = Name m.
Proof.
  unfold update_new_version. destruct (negb _); [by intros [= <- _]|]. case_bool_decide; [by intros [= <- _]|].
  intros Hrun. inv_ok Hrun. injection Hrun as <- <-. by destruct m as [[]|].
Qed.

Lemma initMember_name pos m spec b s m' s' : initMember tlsCache pos m spec b s = (Ok m', s') → Name m' = Name m.
Proof.
  unfold initMember. intros Hrun. inv_ok Hrun. inv_ok Hrun. inv_ok Hrun. inv_ok Hrun. inv_ok Hrun.
  destruct (UpdateImageDigestMap _ _ _) as [[v updated] table]. inv_ok Hrun. inv_ok Hrun. inv_ok Hrun. inv_ok Hrun.
  inv_ok Hrun. inv_ok Hrun. destruct (getServiceDataPaths _) as [[data index] analytics].
  inv_ok Hrun. inv_ok Hrun. inv_ok Hrun. injection Hrun as <- <-.
  apply name_by_host_name in Hrun0 as <-. by eapply update_new_version_name.
Qed.

Lemma memberFromPod_name c pod : Name (memberFromPod c pod) = kp_Name pod.
Proof. unfold memberFromPod. destruct (_ && _); done. Qed.

Lemma existing_calm pos pod m config s :
  Name m = kp_Name pod → calm_but (kp_Name pod) s (handlePendingPodForExistingCluster tlsCache pos pod m config s).2.
Proof.
  intros Hm. unfold handlePendingPodForExistingCluster. apply (ignore_state (calm_but (kp_Name pod) s)).
  run (eq_refl : gets cl s = (Ok (cl s), s)).
  assert (keeps calm (on_world (canAddNodeToCluster (cl s) pod m))) as Hcan by keeps_tac.
  apply bind_state; [apply calm_apart, Hcan|]. intros can s1 _ H01. destruct can; simpl; [|done].
  assert (keeps calm (initMember tlsCache pos m config false)) as Hinit by keeps_tac.
  apply bind_state; [etrans; [exact H01|apply calm_apart, Hinit]|]. intros m' s2 Hrun H02.
  apply initMember_name in Hrun. rewrite Hm in Hrun. run (eq_refl : gets cl s2 = (Ok (cl s2), s2)).
  apply bind_state; [exact H02|]. intros services s3 [= _ <-] _.
  match goal with |- context [(on_world ?add ≫= _) _] => assert (keeps calm (on_world add)) as Hadd by keeps_tac end.
  apply bind_state; [etrans; [exact H02|apply calm_apart, Hadd]|]. intros _ s4 _ H04.
  assert (keeps calm (on_world (waitForPodAdded m'))) as Hwait by keeps_tac.
  apply bind_state; [etrans; [exact H04|apply calm_apart, Hwait]|]. intros _ s5 _ H05.
  rewrite Hrun. etrans; [exact H05|]. apply set_then_clear.
Qed.

Lemma already_calm pod m s :
  Name m = kp_Name pod → calm_but (kp_Name pod) s (handlePendingPodAlreadyInitialized pod m s).2.
Proof. intros Hm. apply (ignore_state (calm_but (kp_Name pod) s)). rewrite Hm. apply set_then_clear. Qed.

Lemma gentle_fetch m : keeps gentle (fetchAndPersistClusterUUID m).
Proof. unfold fetchAndPersistClusterUUID. keeps_tac. Qed.
#[local] Hint Resolve gentle_fetch : keeps.

Lemma configure_calm m config s :
  calm_but (Name m) s (configureInitialMember m config s).2 ∧
  ((configureInitialMember m config s).1 = Ok tt → safe (world (configureInitialMember m config s).2) (Name m) = true).
Proof.
  unfold configureInitialMember. run (eq_refl : gets cl s = (Ok (cl s), s)).
  assert (keeps calm (attempt (on_world (initInitialMember (cl s) m config)))) as Hinit by keeps_tac.
  specialize (Hinit s). unfold mbind at 1 3 5, M_bind at 1 3 5.
  destruct (attempt _ s) as [[[[]|e]| |] s1]; simpl in *; [| |split; [by apply calm_apart|done]..].
  - destruct (initialized_calm (Name m) s1) as [Hb Hok]. split; [|exact Hok].
    etrans; [by apply calm_apart|exact Hb].
  - assert (keeps calm (ignore_error (removePod (Name m) true);; throw (A := ()) e)) as Hr by keeps_tac.
    split; [apply calm_apart; etrans; [exact Hinit|apply Hr]|].
    unfold mbind, M_bind. by destruct (ignore_error _ s1) as [[]].
Qed.

Lemma new_cluster_calm pos pod m config s :
  Name m = kp_Name pod → truthful (world s) (kp_Name pod) →
  calm_but (kp_Name pod) s (handlePendingPodForNewCluster tlsCache pos pod m config s).2.
Proof.
  intros Hm Htrue. unfold handlePendingPodForNewCluster.
  assert (keeps calm (attempt (initMember tlsCache pos m config false))) as Hinit by keeps_tac.
  pose proof (Hinit s) as H01. unfold mbind at 1, M_bind at 1. destruct (attempt _ s) as [[[m'|e]| |] s1] eqn:Hrun;
    simpl in *; [|by apply calm_apart..].
  assert (Name m' = kp_Name pod) as Hm'.
  { rewrite <- Hm. unfold attempt in Hrun. destruct (initMember _ _ _ _ _ s) as [[x|x|] s'] eqn:E; [|done..].
    injection Hrun as -> ->. by eapply initMember_name. }
  set (s2 := set_cl (λ c, set_members (c_members c) (Add m' (c_callableMembers c)) c) s1).
  assert (calm s s2) as H02 by exact H01.
  run (eq_refl : clusterAddMember m' s1 = (Ok tt, s2)). run (eq_refl : pod_now pod s2 = (Ok (deref pod (world s2)), s2)).
  set (p := deref pod (world s2)). assert (kp_Name p = kp_Name pod) as Hp by apply deref_name.
  set (step := if is_initialized p then _ else _).
  assert (calm_but (kp_Name pod) s2 (step s2).2 ∧ ((step s2).1 = Ok tt → safe (world (step s2).2) (kp_Name pod) = true))
    as [Hstep Hsafe].
  { unfold step. destruct (is_initialized p) eqn:Hi.
    - split; [reflexivity|]. intros _. apply (calm_truthful s s2) in Htrue; [|done]. rewrite <- Hp.
      apply deref_true; [|done]. by rewrite deref_name.
    - rewrite <- Hm'. apply configure_calm. }
  unfold mbind at 1, M_bind at 1. unfold attempt at 1.
  destruct (step s2) as [[[]|e|] s3]; simpl in *; [|etrans; [by apply calm_apart|exact Hstep]..].
  specialize (Hsafe eq_refl). assert (calm_but (kp_Name pod) s s3) as H03 by (etrans; [by apply calm_apart|exact Hstep]).
  assert (keeps calm (attempt (on_world (fetchAndPersistClusterUUID (single m'))))) as Hfetch by keeps_tac.
  specialize (Hfetch s3). unfold mbind at 1, M_bind at 1.
  destruct (attempt _ s3) as [[[uuid|e]| |] s4]; simpl in *; [|etrans; [exact H03|by apply calm_apart]..].
  etrans; [exact H03|]. apply calm_apart, (ignore_state (calm s3)).
  etrans; [exact Hfetch|]. etrans; [|apply clear_calm]; [by apply calm_same|].
  rewrite <- Hp in Hsafe. simpl. by apply Hfetch.
Qed.

Lemma gentle_track g : keeps calm (addFailedSchedulingServerGroups g).
Proof. unfold addFailedSchedulingServerGroups, getFailedServerGroupsTracker. keeps_tac. Qed.
#[local] Hint Resolve gentle_track : keeps.

Lemma timed_out_calm pod s : calm s (handleTimedOutPendingPod pod s).2.
Proof.
  unfold handleTimedOutPendingPod. run (eq_refl : pod_now pod s = (Ok (deref pod (world s)), s)).
  set (p := deref pod (world s)). run (eq_refl : gets cl s = (Ok (cl s), s)).
  match goal with |- context [(?m ≫= _) s] => assert (keeps calm m) as Htrack by keeps_tac end.
  apply bind_state; [apply Htrack|]. intros _ s1 _ H01.
  unfold removePod, perform. set (s2 := log_effect (PodDeleted (kp_Name p) true) s1). assert (calm s s2) as H02 by exact H01.
  destruct (law_Delete (kp_Name p) true (world s2)) as [Hg Hok].
  unfold attempt, on_world, zoom, mbind, M_bind, modify. simpl. fold s2.
  change (world s1) with (world s2). destruct (api_DeleteCouchbasePod (kp_Name p) true (world s2)) as [[[]|e|] w3]; simpl in *;
    [|etrans; [exact H02|exact Hg]..].
  set (s3 := set_world w3 (log_effect (PodDeleted (kp_Name p) true) s1)).
  assert (calm s s3) as H03 by (etrans; [exact H02|exact Hg]). change (calm s (ignore_error (clear_pending p) s3).2).
  etrans; [exact H03|]. apply (ignore_state (calm s3)), clear_calm. by apply Hok.
Qed.

Lemma ready_calm pos pod s :
  truthful (world s) (kp_Name pod) → calm_but (kp_Name pod) s (handleReadyPendingPod tlsCache pos pod s).2.
Proof.
  intros Htrue. unfold handleReadyPendingPod. run (eq_refl : pod_now pod s = (Ok (deref pod (world s)), s)).
  set (p := deref pod (world s)). assert (kp_Name p = kp_Name pod) as Hp by apply deref_name.
  destruct (kp_Terminating p); [reflexivity|]. run (eq_refl : get s = (Ok s, s)). rewrite <- Hp in Htrue |- *.
  destruct (GetServerConfigByName _ _) as [config|]; [|reflexivity].
  pose proof (memberFromPod_name (cl s) p) as Hm.
  destruct (is_initialized p) eqn:Hi; simpl; repeat case_bool_decide; simpl.
  1: { apply calm_apart, (ignore_state (calm s)), clear_calm. by apply deref_true. }
  all: repeat match goal with
    | |- context [if ?b then _ else _] => destruct b; simpl
    | |- context [match ?x with Some _ => _ | None => _ end] => destruct x
    end; first [by apply already_calm | by apply existing_calm | by apply new_cluster_calm].
Qed.

Lemma update_pending_calm pos i pod s :
  truthful (world s) (kp_Name pod) → calm_but (kp_Name pod) s (update_pending_pod tlsCache pos (i, pod) s).2.
Proof.
  intros Htrue. unfold update_pending_pod. run (eq_refl : pod_now (i, pod).2 s = (Ok (deref pod (world s)), s)).
  set (p := deref pod (world s)). assert (kp_Name p = kp_Name pod) as Hp by apply deref_name.
  run (eq_refl : gets cl s = (Ok (cl s), s)). run (eq_refl : gets world s = (Ok (world s), s)).
  destruct (GetPodCondition _ _); [|reflexivity]. destruct (_ && _); [apply calm_apart, timed_out_calm|].
  rewrite <- Hp in Htrue |- *. destruct (isPodActuallyReady _); [by apply ready_calm|].
  case_bool_decide; [apply calm_apart, timed_out_calm|reflexivity].
Qed.

Lemma pending_loop pos l : ∀ s,
  NoDup ((λ e : nat * KPod, kp_Name e.2) <$> l) → (∀ e, e ∈ l → truthful (world s) (kp_Name e.2)) →
  ∀ n, kept n (world s) (world (for_each (update_pending_pod tlsCache pos) l s).2).
Proof.
  induction l as [|[i pod] l IH]; intros s Hnames Htrue n; cbn [for_each]; [by split; auto|].
  rewrite fmap_cons in Hnames. apply NoDup_cons in Hnames as [Hnew Hnames].
  pose proof (update_pending_calm pos i pod s ltac:(apply (Htrue (i, pod)); by left)) as Hstep.
  unfold mbind, M_bind. destruct (update_pending_pod tlsCache pos (i, pod) s) as [[[]|e|] s1]; simpl in *;
    [|apply (Hstep n)..].
  assert (∀ e, e ∈ l → truthful (world s1) (kp_Name e.2)) as Htrue1.
  { intros e He. apply (Hstep (kp_Name e.2)); [|apply Htrue; by right].
    intros Heq. apply Hnew. rewrite <- Heq. by apply (list_elem_of_fmap_2 (λ e : nat * KPod, kp_Name e.2)). }
  destruct (Hstep n) as [[S1 M1 F1] _]. destruct (IH s1 Hnames Htrue1 n) as [S2 M2 F2].
  split; [auto|intros [Hm|Hs]%M1; auto|intros [Hm|Hs]%F2; [apply F1 in Hm as [|]; auto|auto]].
Qed.

Lemma imap_names (l : list KPod) : ∀ k, (λ e : nat * KPod, kp_Name e.2) <$> imap (λ i, pair (k + i)%nat) l = kp_Name <$> l.
Proof.
  induction l as [|pod l IH]; intros k; [done|]. rewrite imap_cons, !fmap_cons. f_equal. rewrite <- (IH (S k)).
  f_equal. apply imap_ext. intros i x _. simpl. by rewrite Nat.add_succ_r.
Qed.

(** C22: after one look at the pending pods that starts with a truthful cache, whichever
    requests fail during it, a pod that waits for its initialisation still carries the
    mark, unless it carries the annotation of an initialised one or is being removed; and
    no annotation is lost.  So no pod of a node that was just added is taken for a failed
    one.  A cache is truthful if it has the annotation only of pods for which the API has
    stored it.  A refused update can leave it untruthful, and then the next look is not
    covered: see [stale_annotation]. *)
Theorem pending_pods_keep_mark pos (s : R)
    (Htrue : ∀ n, truthful (world s) n) (Hnames : NoDup (kp_Name <$> Pods_List (world s))) :
  let s' := (updatePendingInitializationConditions tlsCache pos s).2 in
  ∀ n, (marked (world s) n = true → marked (world s') n = true ∨ safe (world s') n = true) ∧
       (safe (world s) n = true → safe (world s') n = true).
Proof.
  intros s' n. unfold s', updatePendingInitializationConditions.
  run (eq_refl : gets cl s = (Ok (cl s), s)). run (eq_refl : gets world s = (Ok (world s), s)).
  destruct (pending_loop pos (imap pair (getPendingInitPods (cl s) (world s))) s) with (n := n) as [S M _];
    [|intros; apply Htrue|by split].
  change (imap pair _) with (imap (λ i, pair (0 + i)%nat) (getPendingInitPods (cl s) (world s))). rewrite imap_names.
  unfold getPendingInitPods, getClusterPods, discardUntrustedPods.
  eapply sublist_NoDup; [exact Hnames|]. apply fmap_sublist. etrans; apply sublist_filter.
Qed.
End init.

(** ** An API and its cache

    The pods of the simulated platform are what the API has; the cache is apart.  While
    [refuses] holds, the API refuses to update pods. *)
Record Two := mkTwo { api : Sim; cached : list KPod; refuses : bool }.

Definition set_api (w : Sim) (t : Two) : Two := mkTwo w (cached t) (refuses t).
Definition put_cached (pod : KPod) (t : Two) : Two :=
  mkTwo (api t) ((λ p, if bool_decide (kp_Name p = kp_Name pod) then pod else p) <$> cached t) (refuses t).
Definition in_api {A} (m : M Sim A) : M Two A := zoom api set_api m.
Definition find_cached (t : Two) (name : string) : option KPod :=
  find (λ pod, bool_decide (kp_Name pod = name)) (cached t).

(** What an update writes: everything but the conditions. *)
Definition written (pod old : KPod) : KPod :=
  if bool_decide (kp_Name old = kp_Name pod) then with_conditions pod (kp_Conditions old) else old.

(** One that would drop the annotation is a conflict. *)
Definition update_pod (pod : KPod) : M Two () := λ t,
  match sim_find (api t) (kp_Name pod) with
  | None => (Err ErrNotFound, t)
  | Some old =>
      if refuses t || is_initialized old && negb (is_initialized pod) then (Err ErrKubernetesError, t)
      else (Ok tt, set_api (sim_alter (written pod) (kp_Name pod) (api t)) t)
  end.

#[export] Instance two_platform : Platform Two := {|
  Pods_Get := find_cached;
  Pods_List := cached;
  PVCs_List t := PVCs_List (api t);
  Backups_Get t := Backups_Get (api t);
  time_now t := time_now (api t);
  time_Format := time_Format (W := Sim);
  api_GetPod name := in_api (api_GetPod name);
  api_PatchConditions name cs := in_api (api_PatchConditions name cs);
  cache_Update p t := (Ok tt, put_cached p t);
  cache_SetPod := put_cached;
  cache_SetPVC p t := set_api (cache_SetPVC p (api t)) t;
  api_UpdatePod := update_pod;
  api_DeletePod name := in_api (api_DeletePod name);
  api_WaitForDeletePod name := in_api (api_WaitForDeletePod name);
  createPod m config := in_api (createPod m config);
  api_DeleteCouchbasePod name v := in_api (api_DeleteCouchbasePod name v);
  api_UpdatePVC p := in_api (api_UpdatePVC p);
  api_GetCluster := in_api api_GetCluster;
  api_UpdateStatus s := in_api (api_UpdateStatus s);
  api_PatchStatus s := in_api (api_PatchStatus s);
  retry_ticks t := retry_ticks (api t);
  retry_tick t := t;
  watch_polls t := watch_polls (api t);
  watch_tick t := t;
  cb_GetPoolsDefault target := in_api (cb_GetPoolsDefault target);
  cb_GetPools target := in_api (cb_GetPools target);
  cb_GetTerseClusterInfo target := in_api (cb_GetTerseClusterInfo target);
  cb_ListTasks target := in_api (cb_ListTasks target);
  cb_Rebalance known eject target := in_api (cb_Rebalance known eject target);
  cb_StopRebalance target := in_api (cb_StopRebalance target);
  cb_Failover nodes unsafe target := in_api (cb_Failover nodes unsafe target);
  cb_AddNode url services target := in_api (cb_AddNode url services target);
  cb_CancelAddNode otp target := in_api (cb_CancelAddNode otp target);
  cb_SetRecoveryType otp type target := in_api (cb_SetRecoveryType otp type target) |}.

#[export] Instance two_storage : PersistentStorage Two := {|
  ps_Insert k v := in_api (ps_Insert k v);
  ps_Upsert k v := in_api (ps_Upsert k v);
  ps_Update k v := in_api (ps_Update k v);
  ps_Delete k := in_api (ps_Delete k);
  ps_DeleteXDCR c := in_api (ps_DeleteXDCR c);
  ps_Get k := in_api (ps_Get k);
  ps_Clear := in_api ps_Clear |}.

#[export] Instance two_init : NodeInit Two := {|
  deref pod t := default pod (find_cached t (kp_Name pod));
  createAlternateAddressesExternal _ _ t := (Ok None, t);
  waitAlternateAddressReachable _ t := (Ok tt, t);
  cb_EnableExternalListener _ _ t := (Ok tt, t);
  cb_SetNodeNetworkConfiguration _ _ _ t := (Ok tt, t);
  cb_LoadCAs _ t := (Ok tt, t);
  cb_SetClusterCACert _ _ t := (Ok tt, t);
  cb_ReloadNodeCert _ _ t := (Ok tt, t);
  passphraseSettings t := (Ok None, t);
  WaitForHostPortTLS _ _ t := (Ok tt, t);
  cb_SetHostname _ _ t := (Ok tt, t);
  cb_SetStoragePaths _ _ _ _ t := (Ok tt, t);
  cb_GetNodesSelf _ t := (Ok "inactiveAdded", t);
  initInitialMember _ _ _ t := (Ok tt, t) |}.

#[export] Instance two_view : PodView Two := {|
  marked t n := match sim_find (api t) n with Some pod => has_mark (kp_Conditions pod) | None => false end;
  safe t n := match sim_find (api t) n with Some pod => is_initialized pod | None => true end |}.

Lemma same_pods (t t' : Two) :
  sim_pods (api t') = sim_pods (api t) → cached t' = cached t → gentle t t'.
Proof.
  intros Hp Hc n. destruct t as [w ca f], t' as [w' ca' f']. simpl in *. subst ca'.
  assert (∀ n, sim_find w' n = sim_find w n) as Hf by (intros m; unfold sim_find; by rewrite Hp).
  split; [split|intros _ [H1 H2]; split]; cbn; rewrite ?Hf; auto.
Qed.

Lemma in_api_quiet {A} (m : M Sim A) :
  (∀ w, sim_pods (m w).2 = sim_pods w) → keeps gentle (in_api m).
Proof.
  intros Hm t. unfold in_api, zoom. specialize (Hm (api t)). destruct (m (api t)) as [r w]. by apply same_pods.
Qed.

Lemma find_alter f name n w : (∀ p, kp_Name (f p) = kp_Name p) →
  sim_find (sim_alter f name w) n = (if bool_decide (n = name) then f else id) <$> sim_find w n.
Proof.
  intros Hf. unfold sim_find, sim_alter. cbn [sim_pods sim_set_pods]. induction (sim_pods w) as [|p l IH]; [by case_bool_decide|].
  cbn. rewrite (bool_decide_ext (kp_Name (if bool_decide (kp_Name p = name) then f p else p) = n) (kp_Name p = n))
    by (destruct (bool_decide (kp_Name p = name)); rewrite ?Hf; reflexivity).
  destruct (decide (kp_Name p = n)) as [<-|Hn].
  - rewrite (bool_decide_eq_true_2 (kp_Name p = kp_Name p)) by done. by destruct (bool_decide (kp_Name p = name)).
  - rewrite (bool_decide_eq_false_2 (kp_Name p = n)) by done. exact IH.
Qed.

Lemma find_put pod t n :
  find_cached (put_cached pod t) n =
  (λ p, if bool_decide (n = kp_Name pod) then pod else p) <$> find_cached t n.
Proof.
  unfold find_cached, put_cached. cbn [cached]. induction (cached t) as [|p l IH]; [done|]. cbn.
  rewrite (bool_decide_ext (kp_Name (if bool_decide (kp_Name p = kp_Name pod) then pod else p) = n) (kp_Name p = n))
    by (destruct (decide (kp_Name p = kp_Name pod)) as [Hp|Hp];
        [rewrite bool_decide_eq_true_2 by done; by rewrite Hp|by rewrite bool_decide_eq_false_2 by done]).
  destruct (decide (kp_Name p = n)) as [<-|Hn].
  - rewrite (bool_decide_eq_true_2 (kp_Name p = kp_Name p)) by done. done.
  - rewrite (bool_decide_eq_false_2 (kp_Name p = n)) by done. exact IH.
Qed.

Lemma truthful_two t n :
  truthful t n ↔ ∀ pod, find_cached t n = Some pod ∨ find_cached t n = None ∧ kp_Name pod = n →
    is_initialized pod = true → safe t n = true.
Proof.
  split.
  - intros [H1 H2] pod [Hget|[Hget Hn]] Hi; [by apply (H2 pod)|]. apply (H1 pod Hn).
    change (deref pod t) with (default pod (find_cached t (kp_Name pod))). by rewrite Hn, Hget.
  - intros Ht. split; intros pod Hget; [|by apply Ht; left].
    change (deref pod t) with (default pod (find_cached t (kp_Name pod))). rewrite Hget. intros Hi.
    destruct (find_cached t n) as [p|] eqn:Hf; apply (Ht _ ltac:(eauto) Hi).
Qed.

(** A change of the cache only. *)
Lemma put_but pod t : but (kp_Name pod) t (put_cached pod t).
Proof.
  intros n. split; [by split; auto|]. intros Hne. rewrite !truthful_two. intros Ht p.
  rewrite find_put, bool_decide_eq_false_2 by done. intros Hget. apply (Ht p). by destruct (find_cached t n).
Qed.

Lemma put_gentle pod t :
  (is_initialized pod = true → safe t (kp_Name pod) = true) → gentle t (put_cached pod t).
Proof.
  intros Hpod n. destruct (put_but pod t n) as [Hk Hne]. split; [done|]. intros _ Ht.
  destruct (decide (n = kp_Name pod)) as [->|]; [|by apply Hne]. revert Ht. rewrite !truthful_two. intros Ht p.
  rewrite find_put, bool_decide_eq_true_2 by done. destruct (find_cached t (kp_Name pod)); simpl.
  - intros [[= <-]|[? _]] Hi; [by apply Hpod|done].
  - intros Hget Hi. by apply (Ht p).
Qed.

Lemma safe_two t n :
  safe t n = match sim_find (api t) n with Some pod => is_initialized pod | None => true end.
Proof. done. Qed.
Lemma marked_two t n :
  marked t n = match sim_find (api t) n with Some pod => has_mark (kp_Conditions pod) | None => false end.
Proof. done. Qed.

(** What is found in the API afterwards decides. *)
Lemma two_gentle t t' :
  cached t' = cached t → (∀ n, kept n t t') → gentle t t'.
Proof.
  intros Hc Hk n. split; [done|]. intros _. rewrite !truthful_two. unfold find_cached. rewrite Hc.
  intros Ht pod Hget Hi. destruct (Hk n) as [Hs _ _]. apply Hs. by apply (Ht pod).
Qed.

Lemma patch_two name conditions t :
  (marked t name = true → has_mark conditions = true ∨ safe t name = true) →
  (has_mark conditions = true → marked t name = true ∨ safe t name = true) →
  gentle t (api_PatchConditions name conditions t).2.
Proof.
  intros Hlose Hgain. set (t' := (api_PatchConditions name conditions t).2).
  assert (∀ m, sim_find (api t') m =
    (if bool_decide (m = name) then λ p, with_conditions p conditions else id) <$> sim_find (api t) m) as Hf
    by (intros m; by apply find_alter).
  assert (cached t' = cached t) as Hc by done. clearbody t'.
  assert (∀ n, safe t' n = safe t n) as Hsafe.
  { intros n. rewrite !safe_two, Hf. case_bool_decide; by destruct (sim_find (api t) n). }
  apply two_gentle; [done|]. intros n. split; rewrite Hsafe, ?marked_two, ?Hf; [done|..];
    (case_bool_decide as Hn; [subst n|by destruct (sim_find (api t) n); auto]);
    rewrite marked_two in Hlose, Hgain; destruct (sim_find (api t) name); simpl in *; auto.
Qed.

Lemma update_two pod t :
  gentle t (update_pod pod t).2 ∧
  ((update_pod pod t).1 = Ok tt → is_initialized pod = true → safe (update_pod pod t).2 (kp_Name pod) = true).
Proof.
  unfold update_pod. destruct (sim_find (api t) (kp_Name pod)) as [old|] eqn:Hold; [|split; [reflexivity|done]].
  destruct (refuses t); [split; [reflexivity|done]|]. cbn [orb].
  destruct (is_initialized old && negb (is_initialized pod)) eqn:Hconflict; [split; [reflexivity|done]|]. cbn [fst snd].
  assert (kp_Name old = kp_Name pod) as Hname.
  { unfold sim_find in Hold. apply find_some in Hold as [_ Hn]. by apply bool_decide_eq_true in Hn. }
  set (t' := set_api _ t).
  assert (∀ m, sim_find (api t') m =
    (if bool_decide (m = kp_Name pod) then written pod else id) <$> sim_find (api t) m) as Hf.
  { intros m. apply find_alter. intros p. unfold written. by case_bool_decide. }
  assert (cached t' = cached t) as Hc by done. clearbody t'.
  assert (has_mark (kp_Conditions (written pod old)) = has_mark (kp_Conditions old) ∧
          is_initialized (written pod old) = is_initialized pod) as [Hm Hi].
  { unfold written. by rewrite bool_decide_eq_true_2. }
  assert (is_initialized old = true → is_initialized pod = true) as Hmono.
  { intros Ho. rewrite Ho in Hconflict. by destruct (is_initialized pod). }
  split.
  - apply two_gentle; [done|]. intros n. split; rewrite ?safe_two, ?marked_two, Hf;
      (case_bool_decide as Hn; [subst n|by destruct (sim_find (api t) n); auto]); rewrite Hold; simpl;
      rewrite ?Hm, ?Hi; auto.
  - intros _ Hp. rewrite safe_two, Hf, bool_decide_eq_true_2, Hold by done. simpl. by rewrite Hi.
Qed.

Lemma delete_two name v t :
  gentle t (api_DeleteCouchbasePod name v t).2 ∧ safe (api_DeleteCouchbasePod name v t).2 name = true.
Proof.
  set (t' := (api_DeleteCouchbasePod name v t).2).
  assert (∀ m, sim_find (api t') m = if bool_decide (m = name) then None else sim_find (api t) m) as Hf.
  { intros m. unfold t', sim_find. cbn [api_DeleteCouchbasePod two_platform sim_platform in_api zoom snd api set_api sim_pods sim_set_pods].
    induction (sim_pods (api t)) as [|p l IH]; [by case_bool_decide|].
    destruct (decide (kp_Name p = name)) as [Hp|Hp].
    - rewrite filter_cons_False by (intros Hn; by apply Hn). etrans; [exact IH|]. subst name.
      case_bool_decide as Hm; [done|]. cbn. by rewrite (bool_decide_eq_false_2 (kp_Name p = m)) by congruence.
    - rewrite filter_cons_True by done. cbn. destruct (decide (kp_Name p = m)) as [<-|Hm].
      + rewrite (bool_decide_eq_true_2 (kp_Name p = kp_Name p)), bool_decide_eq_false_2 by done. done.
      + rewrite (bool_decide_eq_false_2 (kp_Name p = m)) by done. exact IH. }
  assert (cached t' = cached t) as Hc by done. clearbody t'. split.
  - apply two_gentle; [done|]. intros n. split; rewrite ?safe_two, ?marked_two, Hf; case_bool_decide; auto.
  - by rewrite safe_two, Hf, bool_decide_eq_true_2.
Qed.

Lemma cached_name t n pod : find_cached t n = Some pod → kp_Name pod = n.
Proof. unfold find_cached. intros [_ Hn]%find_some. by apply bool_decide_eq_true in Hn. Qed.

#[export] Instance two_laws : InitLaws (W := Two).
Proof.
  split; try (intros; first [apply in_api_quiet; reflexivity | by apply same_pods | intros t; by apply same_pods]).
  - intros pod t. change (deref pod t) with (default pod (find_cached t (kp_Name pod))).
    destruct (find_cached t (kp_Name pod)) as [p|] eqn:Hf; [|done]. by apply cached_name in Hf.
  - intros t n pod. apply cached_name.
  - intros name t. cbn. split; [by apply same_pods|]. intros pod.
    destruct (sim_find (api t) name); [by intros [= ->]|done].
  - intros name conditions t. apply patch_two.
  - intros pod t. split; [apply put_but|apply put_gentle].
  - intros pod t. split; [apply put_but|apply put_gentle].
  - intros pod t. apply update_two.
  - intros name v t. split; [apply delete_two|]. intros _. apply delete_two.
Qed.

#[local] Instance no_tracker : TrackerJSON := {| marshal_tracker _ := ""; unmarshal_tracker _ := Err ErrSyntax |}.

(** ** What happens to three pods

    [cb-0003] is ready, [cb-0004] is late, and [cb-0005] was recreated from its claims
    and is late as well. *)
Definition with_status (ready : bool) (phase : string) (initialized : bool) (pod : KPod) : KPod :=
  mkKPod (kp_Name pod) (kp_Namespace pod) (kp_Labels pod)
    (if initialized then <[PodInitializedAnnotation := "true"]> (kp_Annotations pod) else kp_Annotations pod)
    (kp_OwnerReferences pod) (kp_Containers pod) [(CouchbaseContainerName, ready)] (kp_Conditions pod)
    (kp_Terminating pod) (kp_CreationTimestamp pod) (kp_NodeName pod) (kp_NodeSelector pod) phase.

Definition waiting (i : Z) : KPod := sim_pod i "data" [mark PodPendingInitializationCondition].

Definition clustered : list KPod := with_status true "Running" true <$> [sim_pod 0 "data" []; sim_pod 1 "data" []].

Definition two_state (pods cache : list KPod) (refuses : bool) : RS Two :=
  mkRS empty_machine (sim_cluster 3 clustered)
    (mkTwo (mkSim pods (mkClusterInfo ((λ i, sim_node i "active") <$> [0; 1]) "none" true [] [] ∅) [] ∅ (700 * 10 ^ 9) [])
       cache refuses) [].

Definition three : list KPod := clustered ++
  [with_status true "Running" false (waiting 3); with_status false "Pending" false (waiting 4);
   with_status false "Running" true (waiting 5)].

Definition look (s : RS Two) : RS Two :=
  (updatePendingInitializationConditions (H2 := const None) (H3 := canonical_range) None [] s).2.

(** Name, mark and annotation. *)
Definition marks_of (s : RS Two) : list (string * bool * bool) :=
  (λ pod, (kp_Name pod, has_mark (kp_Conditions pod), is_initialized pod)) <$> sim_pods (api (world s)).

(** The ready pod is added and marked as initialised.  The late ones are removed with
    their volumes, the recreated one too, although its volumes hold data. *)
Example three_pods :
  let s := look (two_state three three false) in
  marks_of s = [("cb-0000", false, true); ("cb-0001", false, true); ("cb-0003", false, true)] ∧
  omap (λ e, match e with PodDeleted name v => Some (name, v) | _ => None end) (trace s) =
    [("cb-0004", true); ("cb-0005", true)].
Proof. vm_compute. split; reflexivity. Qed.

(** While the API refuses updates, the pod keeps its mark; but the cached object has the
    annotation now. *)
Example refused_annotation :
  let pods := clustered ++ [with_status true "Running" false (waiting 3)] in
  let s := look (two_state pods pods true) in
  marks_of s = [("cb-0000", false, true); ("cb-0001", false, true); ("cb-0003", true, false)] ∧
  (is_initialized <$> find_cached (world s) "cb-0003") = Some true.
Proof. vm_compute. split; reflexivity. Qed.

(** From there the next look finds the annotation in the cache and clears the mark: the
    pod of a live node has neither. *)
Example stale_annotation :
  let pods := clustered ++ [with_status true "Running" false (waiting 3)] in
  let s := look (look (two_state pods pods true)) in
  marks_of s = [("cb-0000", false, true); ("cb-0001", false, true); ("cb-0003", false, false)].
Proof. vm_compute. reflexivity. Qed.

Lemma pending_pods_keep_mark_witness :
  let s := two_state three three false in
  marked (world s) "cb-0003" = true ∧ marked (world s) "cb-0004" = true ∧
  ∀ n, marked (world s) n = true → marked (world (look s)) n = true ∨ safe (world (look s)) n = true.
Proof.
  intros s. split; [vm_compute; reflexivity|]. split; [vm_compute; reflexivity|]. intros n.
  assert (NoDup (kp_Name <$> Pods_List (world s))) as Hnames by (refine (bool_decide_unpack _ _); vm_compute; exact I).
  assert (∀ n, truthful (world s) n) as Htrue.
  { intros m. apply truthful_two. intros pod Hget Hi. rewrite safe_two.
    change (sim_find (api (world s)) m) with (find_cached (world s) m). by destruct Hget as [->|[-> _]]. }
  exact (proj1 (pending_pods_keep_mark (H2 := const None) (H3 := canonical_range) None [] s Htrue Hnames n)).
Defined.
