(* ===== verification/RebalanceSpec.v ===== *)
(** * No pod of a clustered node is deleted

    What a reconcile cycle deletes: the pods of members a status of Couchbase did
    not list, either from the start (unclustered) or after a rebalance that was
    verified (ejected). *)

From S2P Require Import Prelude Effects GoLib Api Member Persistence Status UpgradeOrder.
From S2P Require Import Scheduler NullScheduler RollingUpgrade NodeStatus Pods Volumes Machine Rebalance Baseline Recovery Scaling Sim MachineSpec.
Local Open Scope Z_scope.

(** ** Traces *)
Definition harmless (e : Effect) : Prop := match e with PodDeleted _ _ => False | _ => True end.

(** How the node of a member leaves Couchbase, as the trace shows it.  The first status,
    which the machine was built from, does not list it; *)
Definition not_listed (l : list Effect) (n : string) : Prop :=
  ∃ st l', l = StatusSeen st :: l' ∧ NodeStates st !! n = None.

(** or says that it has been failed over (it is ready to be added back); *)
Definition added_back (l : list Effect) (n : string) : Prop :=
  ∃ st l', l = StatusSeen st :: l' ∧ NodeStates st !! n = Some NodeStateAddBack.

(** or a rebalance was asked for that ejects it, and after that Couchbase said it is
    balanced and does not list it; *)
Definition rebalanced_out (l : list Effect) (n : string) : Prop :=
  ∃ l1 known eject l2 st m, l = l1 ++ RebalanceAsked known eject :: l2 ∧ Name m = n ∧ GetOTPNode m ∈ eject ∧
    StatusSeen st ∈ l2 ∧ Balanced st = true ∧ NodeStates st !! n = None.

(** or its node, and no other, was failed over in this cycle. *)
Definition failed_over (l : list Effect) (n : string) : Prop :=
  ∃ m, Name m = n ∧
    (GracefulFailoverAsked (GetOTPNode m) ∈ l ∨ FailoverForced [GetOTPNode m] false ∈ l).

Definition out (l : list Effect) (n : string) : Prop :=
  not_listed l n ∨ added_back l n ∨ rebalanced_out l n ∨ failed_over l n.

(** Every deletion comes after that. *)
Definition justified (l : list Effect) : Prop :=
  ∀ l1 n v l2, l = l1 ++ PodDeleted n v :: l2 → out l1 n.

Lemma not_listed_app l l' n : not_listed l n → not_listed (l ++ l') n.
Proof. intros (st&l1&->&Hst). by exists st, (l1 ++ l'). Qed.

Lemma added_back_app l l' n : added_back l n → added_back (l ++ l') n.
Proof. intros (st&l1&->&Hst). by exists st, (l1 ++ l'). Qed.

Lemma rebalanced_app l l' n : rebalanced_out l n → rebalanced_out (l ++ l') n.
Proof.
  intros (l1&known&eject&l2&st&m&->&Hm&He&Hst&Hrest). exists l1, known, eject, (l2 ++ l'), st, m.
  rewrite <- app_assoc. do 3 (split; [done|]). split; [apply elem_of_app; by left|done].
Qed.

Lemma out_app l l' n : out l n → out (l ++ l') n.
Proof.
  intros [Hl|[Hl|[Hl|(m&Hm&Hl)]]]; [left; by apply not_listed_app|right; left; by apply added_back_app
    |right; right; left; by apply rebalanced_app|right; right; right].
  exists m. split; [done|]. rewrite !elem_of_app. naive_solver.
Qed.

Lemma justified_nil : justified [].
Proof. intros l1 n v l2 Heq. by destruct l1. Qed.

Lemma justified_snoc l e :
  justified l → (∀ n v, e = PodDeleted n v → out l n) → justified (l ++ [e]).
Proof.
  intros Hl He l1 n v l2 Heq. induction l2 as [|e' l2 _] using rev_ind.
  - apply app_inj_tail in Heq as [<- ->]. by eapply He.
  - rewrite app_comm_cons, app_assoc in Heq. apply app_inj_tail in Heq as [-> _]. by eapply Hl.
Qed.

Lemma justified_app l l' : justified l → Forall harmless l' → justified (l ++ l').
Proof.
  intros Hl. induction l' as [|e l' IH] using rev_ind; intros Hh; [by rewrite app_nil_r|].
  apply Forall_app in Hh as [Hh He]. inversion_clear He as [|? ? He' _]. rewrite app_assoc.
  apply justified_snoc; [by apply IH|]. by intros n v ->.
Qed.

(** ** Computations that delete nothing *)

(** What of the cluster object no handler changes. *)
Definition lasting (s : ClusterSpec) : list ServerConfig * option string * option string :=
  (cs_Servers s, cs_RecoveryPolicy s, cs_UnmanagedClusterHost s).

Definition fixed (c : Cluster) :=
  (lasting (Spec (c_cluster c)), c_networking c, c_UID c).

Lemma fixed_server c c' name :
  fixed c = fixed c' → GetServerConfigByName (Spec (c_cluster c)) name = GetServerConfigByName (Spec (c_cluster c')) name.
Proof. intros [= Hs _ _ _ _]. unfold GetServerConfigByName. by rewrite Hs. Qed.

Lemma fixed_migration c c' :
  fixed c = fixed c' → IsMigrationCluster (c_cluster c) = IsMigrationCluster (c_cluster c').
Proof. intros [= _ _ Hh _ _]. unfold IsMigrationCluster. by rewrite Hh. Qed.

Definition quiet {W} (s s' : RS W) : Prop :=
  fsm s' = fsm s ∧ fixed (cl s') = fixed (cl s) ∧
  ∃ l, trace s' = trace s ++ l ∧ Forall harmless l ∧ (keyed (c_members (cl s)) → keyed (c_members (cl s'))).

#[export] Instance quiet_preorder {W} : PreOrder (@quiet W).
Proof.
  split.
  - intros s. unfold quiet. do 2 (split; [done|]). exists []. by rewrite app_nil_r.
  - intros s1 s2 s3 (?&?&l1&?&?&?) (?&?&l2&?&?&?). unfold quiet.
    split_and!; [congruence..|]. exists (l1 ++ l2). rewrite app_assoc. split; [congruence|].
    split; [by apply Forall_app|auto].
Qed.

Lemma quiet_on_world {W A} (m : M W A) : keeps quiet (on_world m).
Proof.
  apply (keeps_weaken only_world); [apply on_world_only|]. intros s s' (Hf&Hc&Ht). unfold quiet.
  rewrite Hf, Hc, Ht. do 2 (split; [done|]). exists []. by rewrite app_nil_r.
Qed.

Lemma quiet_log {W} e : harmless e → keeps quiet (modify (log_effect (W := W) e)).
Proof.
  intros He. apply keeps_modify. intros s. unfold quiet. do 2 (split; [done|]). exists [e].
  split; [done|]. split; [by constructor|done].
Qed.

Lemma quiet_perform {W A} e (m : M W A) : harmless e → keeps quiet (perform e m).
Proof. intros He. apply keeps_bind; [apply _|by apply quiet_log|]. intros _. apply quiet_on_world. Qed.

(** Updates of the status, the members and the recovery times. *)
Lemma quiet_same {W} (s s' : RS W) :
  fsm s' = fsm s → fixed (cl s') = fixed (cl s) → trace s' = trace s →
  (keyed (c_members (cl s)) → keyed (c_members (cl s'))) → quiet s s'.
Proof.
  intros Hf Hn Ht Hk. unfold quiet. do 2 (split; [done|]). exists []. by rewrite app_nil_r.
Qed.

#[export] Hint Resolve quiet_on_world : keeps.
#[export] Hint Extern 1 (keeps quiet (modify (set_cl _))) =>
  apply keeps_modify; intros; by apply quiet_same : keeps.
#[export] Hint Extern 1 (keeps quiet (modify (log_effect _))) => by apply quiet_log : keeps.
#[export] Hint Extern 1 (keeps quiet (perform _ _)) => by apply quiet_perform : keeps.

Section quiet_parts.
Context `{Platform W} `{PersistentStorage W} `{Environment} `{MapRange}.
Abbreviation R := (RS W).

Lemma quiet_GetStatus pos : keeps quiet (GetStatus (W := W) pos).
Proof. unfold GetStatus, getStatusFromTarget. keeps_tac. Qed.

Lemma quiet_updateCRStatus : keeps quiet (updateCRStatus (W := W)).
Proof. unfold updateCRStatus. keeps_tac. Qed.
#[local] Hint Resolve quiet_GetStatus quiet_updateCRStatus : keeps.

Lemma quiet_set_status_now f : keeps quiet (set_status_now (W := W) f).
Proof. apply keeps_modify. intros s. by apply quiet_same. Qed.
#[local] Hint Resolve quiet_set_status_now : keeps.

Lemma quiet_verify_loop n pos ms : keeps quiet (verify_loop (W := W) n pos ms).
Proof.
  assert (∀ p, keeps quiet (verify_once (W := W) p ms)) as Honce by (intros p; unfold verify_once; keeps_tac).
  induction n as [|n IH]; intros s; simpl.
  - pose proof (Honce (0%nat :: pos) s) as Hs. destruct (verify_once _ _ s) as [[]]; exact Hs.
  - pose proof (Honce (S n :: pos) s) as Hs. destruct (verify_once _ _ s) as [[] s']; [exact Hs| |exact Hs].
    etrans; [exact Hs|]. etrans; [|apply IH]. by apply quiet_same.
Qed.

Lemma quiet_verifyRebalance pos ms : keeps quiet (verifyRebalance (W := W) pos ms).
Proof. intros s. apply quiet_verify_loop. Qed.
#[local] Hint Resolve quiet_verifyRebalance : keeps.

Lemma quiet_attempts pos known eject ms n : keeps quiet (rebalance_attempts (W := W) pos known eject ms n).
Proof. induction n as [|n IH]; simpl; keeps_tac. Qed.
#[local] Hint Resolve quiet_attempts : keeps.

Lemma quiet_rebalance pos ms eject n :
  keeps quiet (rebalanceWithRetriesOnVerifyFails (W := W) pos ms eject n).
Proof.
  unfold rebalanceWithRetriesOnVerifyFails, rebalance_body. keeps_tac. intros s. by apply quiet_same.
Qed.

Lemma quiet_updateMemberStatus pos b : keeps quiet (updateMemberStatus (W := W) pos b).
Proof. unfold updateMemberStatus, updateMemberStatusWithClusterInfo. keeps_tac. Qed.
#[local] Hint Resolve quiet_updateMemberStatus : keeps.

Lemma keyed_delete n (ms : MemberSet) : keyed ms → keyed (delete n ms).
Proof. intros Hk. eapply keyed_subseteq; [apply delete_subseteq|done]. Qed.

Lemma quiet_set_members (f g : Cluster → MemberSet) :
  (∀ c, keyed (c_members c) → keyed (f c)) →
  keeps quiet (modify (set_cl (W := W) (λ c, set_members (f c) (g c) c))).
Proof. intros Hf. apply keeps_modify. intros s. apply quiet_same; [done..|]. apply Hf. Qed.

Lemma quiet_clusterRemoveMember pos n : keeps quiet (clusterRemoveMember (W := W) pos n).
Proof.
  unfold clusterRemoveMember. apply keeps_bind; [apply _| |intros; keeps_tac].
  - apply quiet_set_members. intros c. by apply keyed_delete.
  - apply keeps_modify. intros s. by apply quiet_same.
Qed.
End quiet_parts.
#[export] Hint Extern 2 (keeps quiet (modify (λ s, set_cl _ s))) =>
  apply keeps_modify; intros; by apply quiet_same : keeps.
#[export] Hint Resolve quiet_GetStatus quiet_updateCRStatus quiet_set_status_now quiet_verifyRebalance
  quiet_rebalance quiet_updateMemberStatus quiet_clusterRemoveMember : keeps.

(** ** What a verified rebalance shows *)
Definition balanced_with (ms : MemberSet) (l : list Effect) : Prop :=
  ∃ st, StatusSeen st ∈ l ∧ Balanced st = true ∧ ∀ n, is_Some (NodeStates st !! n) → is_Some (ms !! n).

Definition verified (ms : MemberSet) (eject : list string) (l : list Effect) : Prop :=
  ∃ l1 known l2, l = l1 ++ RebalanceAsked known eject :: l2 ∧ balanced_with ms l2.

Lemma balanced_app ms l l' : balanced_with ms l' → balanced_with ms (l ++ l').
Proof. intros (st&?&?&?). exists st. split; [|done]. apply elem_of_app. by right. Qed.

Lemma verified_app ms eject l l' : verified ms eject l → verified ms eject (l ++ l').
Proof.
  intros (l1&known&l2&->&st&?&?&?). exists l1, known, (l2 ++ l'). rewrite <- app_assoc. split; [done|].
  exists st. split; [apply elem_of_app; by left|done].
Qed.

Lemma verified_quiet {W} ms eject (s s' : RS W) : quiet s s' → verified ms eject (trace s) → verified ms eject (trace s').
Proof. intros (_&_&l&->&_). apply verified_app. Qed.

Lemma verified_out ms eject l n m :
  verified ms eject l → ms !! n = None → Name m = n → GetOTPNode m ∈ eject → rebalanced_out l n.
Proof.
  intros (l1&known&l2&->&st&Hin&Hb&Hst) Hn Hm He. exists l1, known, eject, l2, st, m. do 5 (split; [done|]).
  destruct (NodeStates st !! n) eqn:E; [|done]. destruct (Hst n) as [x Hx]; [by eexists|]. congruence.
Qed.

Section verified.
Context `{Platform W} `{PersistentStorage W} `{Environment} `{MapRange}.
Abbreviation R := (RS W).

Lemma verify_status_ok pos status ms :
  verify_status pos status ms = Ok tt →
  Balanced status = true ∧ ∀ n, is_Some (NodeStates status !! n) → is_Some (ms !! n).
Proof.
  unfold verify_status. destruct (Balanced status); [|done]. simpl.
  destruct (forallb _ (range pos ms)); [|done]. simpl.
  destruct (forallb _ (range (0%nat :: pos) _)) eqn:E; [|done]. intros _. split; [done|].
  intros n [x Hx]. rewrite forallb_forall in E.
  specialize (E (n, x)). apply bool_decide_eq_true in E; [done|].
  rewrite <- list_elem_of_In. by apply elem_of_range_entry.
Qed.

Lemma verify_once_ok p ms (s s' : R) u :
  verify_once p ms s = (Ok u, s') → ∃ l, trace s' = trace s ++ l ∧ balanced_with ms l.
Proof.
  destruct u. intros Hrun. unfold verify_once in Hrun. inv_ok Hrun. injection Hrun as Hv <-.
  apply GetStatus_ok in Hrun0 as (_&_&Ht). apply verify_status_ok in Hv as [? ?].
  eexists. split; [exact Ht|]. exists a. split; [by left|done].
Qed.

Lemma verify_loop_ok n pos ms : ∀ (s s' : R) u,
  verify_loop n pos ms s = (Ok u, s') → ∃ l, trace s' = trace s ++ l ∧ balanced_with ms l.
Proof.
  assert (∀ p (s : R), keeps quiet (verify_once (W := W) p ms)) as Hq by (intros p s; unfold verify_once; keeps_tac).
  induction n as [|n IH]; intros s s' u; simpl.
  - destruct (verify_once _ ms s) as [[x|e|] s1] eqn:E; intros [= ]; subst. by eapply verify_once_ok.
  - destruct (verify_once _ ms s) as [[x|e|] s1] eqn:E; [| |done].
    { intros [= -> ->]. by eapply verify_once_ok. }
    intros (l&Ht&Hb)%IH. apply (keeps_run _ _ _ _ _ (Hq _ s)) in E as (_&_&l0&Ht0&_).
    exists (l0 ++ l). split; [|by apply balanced_app]. rewrite Ht. cbn. by rewrite Ht0, app_assoc.
Qed.

Lemma attempts_ok pos known eject ms n : ∀ (s s' : R),
  n ≠ 0%nat → rebalance_attempts pos known eject ms n s = (Ok None, s') → verified ms eject (trace s').
Proof.
  induction n as [|n IH]; intros s s' Hn Hrun; [done|]. cbn [rebalance_attempts] in Hrun.
  inv_ok Hrun. inv_ok Hrun. inv_ok Hrun. unfold attempt in Hrun2.
  destruct (verifyRebalance (n :: pos) ms s1) as [[x|e|] s3] eqn:E; simplify_eq.
  - injection Hrun as <-. apply verify_loop_ok in E as (l&Ht&Hb).
    unfold perform in Hrun0. inv_ok Hrun0. injection Hrun2 as _ <-.
    apply (keeps_run _ _ _ _ _ (on_world_only _)) in Hrun0 as (_&_&T1).
    apply (keeps_run _ _ _ _ _ (on_world_only _)) in Hrun1 as (_&_&T2).
    exists (trace s), known, l. split; [|done]. rewrite Ht, T2, T1. cbn. by rewrite <- app_assoc.
  - destruct n as [|n]; [done|]. eapply IH, Hrun. done.
Qed.

Lemma rebalance_ok pos ms eject maxRetries (s s' : R) u :
  0 ≤ maxRetries →
  rebalanceWithRetriesOnVerifyFails pos ms eject maxRetries s = (Ok u, s') → verified ms (OTPNodes eject) (trace s').
Proof.
  intros Hmax Hrun. unfold rebalanceWithRetriesOnVerifyFails in Hrun. inv_ok Hrun. inv_ok Hrun.
  unfold finally in Hrun. destruct (rebalance_body _ _ _ _ s1) as [r s2] eqn:E. injection Hrun as -> <-.
  cbn [trace set_cl]. unfold rebalance_body in E. inv_ok E. inv_ok E. inv_ok E.
  destruct a3 as [e|]; [by inv_ok E|].
  apply attempts_ok in E2; [|case_bool_decide; lia].
  match type of E with ?m _ = _ => assert (keeps quiet m) as Hq by keeps_tac end.
  specialize (Hq s5). rewrite E in Hq. by eapply verified_quiet.
Qed.
End verified.

(** ** The invariant of a cycle *)
Record cycle_inv {W} (c0 : Cluster) (s : RS W) : Prop := {
  ci_disjoint n : is_Some (clusteredMembers (fsm s) !! n) → is_Some (ejectMembers (fsm s) !! n) →
    added_back (trace s) n;
  ci_needs n : is_Some (ejectMembers (fsm s) !! n) → needsRebalance (fsm s) = true ∨ added_back (trace s) n;
  ci_retries : 0 ≤ rebalanceRetries (fsm s);
  ci_keyed : keyed (ejectMembers (fsm s));
  ci_unclustered n : is_Some (unclusteredMembers (fsm s) !! n) → not_listed (trace s) n;
  ci_stopped : IsRebalancing (couchbase (fsm s)) = false;
  ci_justified : justified (trace s);
  ci_fixed : fixed (cl s) = fixed c0;
  ci_addback n m : AddBackNodes (couchbase (fsm s)) !! n = Some m → added_back (trace s) (Name m);
}.

Definition pres {W} (c0 : Cluster) (s s' : RS W) : Prop := cycle_inv c0 s → cycle_inv c0 s'.

#[export] Instance pres_preorder {W} c0 : PreOrder (@pres W c0).
Proof. split; [by intros s Hs|]. intros s1 s2 s3 H12 H23 H1. by apply H23, H12. Qed.

Lemma quiet_inv {W} c0 (s s' : RS W) : quiet s s' → pres c0 s s'.
Proof.
  intros (Hf&Hn&l&Ht&Hh&_) [Hd Hr ? ? Hunc ? Hj ? Hb].
  split; rewrite ?Hf, ?Ht, ?Hn; try done.
  - intros n Hc He. by apply added_back_app, Hd.
  - intros n [?|?]%Hr; [by left|right; by apply added_back_app].
  - intros n Hs. by apply not_listed_app, Hunc.
  - by apply justified_app.
  - intros n m Hm. by eapply added_back_app, Hb.
Qed.

Lemma quiet_pres {W A} c0 (m : M (RS W) A) : keeps quiet m → keeps (pres c0) m.
Proof. intros Hm. eapply keeps_weaken; [exact Hm|]. intros s s'. apply quiet_inv. Qed.

(** The trace grows. *)
Lemma logged_inv {W} c0 e (s : RS W) :
  (∀ n v, e = PodDeleted n v → out (trace s) n) → pres c0 s (log_effect e s).
Proof.
  intros He [Hd Hr ? ? Hunc ? Hj ? Hb]. split; cbn [fsm cl trace log_effect]; try done.
  - intros n Hc Hn. by apply added_back_app, Hd.
  - intros n [?|?]%Hr; [by left|right; by apply added_back_app].
  - intros k Hk. by apply not_listed_app, Hunc.
  - by apply justified_snoc.
  - intros n m Hm. by eapply added_back_app, Hb.
Qed.

Lemma deleted_inv {W} c0 n v (s : RS W) : out (trace s) n → pres c0 s (log_effect (PodDeleted n v) s).
Proof. intros Hout. apply logged_inv. by intros ? ? [= <- <-]. Qed.

(** Changes of the machine that keep the members to eject apart. *)
Lemma fsm_inv {W} c0 (f : ReconcileMachine → ReconcileMachine) (s : RS W) :
  (∀ n, is_Some (clusteredMembers (f (fsm s)) !! n) → is_Some (ejectMembers (f (fsm s)) !! n) → added_back (trace s) n) →
  (∀ n, is_Some (ejectMembers (f (fsm s)) !! n) → needsRebalance (f (fsm s)) = true ∨ added_back (trace s) n) →
  rebalanceRetries (f (fsm s)) = rebalanceRetries (fsm s) →
  unclusteredMembers (f (fsm s)) = unclusteredMembers (fsm s) →
  couchbase (f (fsm s)) = couchbase (fsm s) →
  (keyed (ejectMembers (fsm s)) → keyed (ejectMembers (f (fsm s)))) →
  pres c0 s (set_fsm f s).
Proof. intros ? ? Hr Hu Hc Hk []. split; cbn [fsm set_fsm]; rewrite ?Hr, ?Hu, ?Hc; auto. Qed.

Section handlers.
Context `{Platform W} `{PersistentStorage W} `{Environment} `{MapRange} (c0 : Cluster).
Abbreviation R := (RS W).

Lemma abort_pres reason : keeps (pres c0) (abort (W := W) reason).
Proof. apply keeps_modify. intros s Hs. destruct Hs. by apply fsm_inv. Qed.

Lemma removeMemberUser_pres m : keeps (pres c0) (removeMemberUser (W := W) m).
Proof.
  apply keeps_modify. intros s Hs. pose proof Hs as [Hd ? ? ? ? ? ? ? ?]. apply fsm_inv; try done; simpl.
  - intros n [x Hx]. unfold Remove in Hx. apply lookup_delete_Some in Hx as [Hne Hx].
    unfold Add. rewrite lookup_insert_ne by done. apply Hd. by eexists.
  - intros n _. by left.
  - by apply keyed_Add.
Qed.

(** Destroying a member a status did not list. *)
Lemma destroyMember_pres pos n v (s : R) :
  out (trace s) n → pres c0 s (destroyMember pos n v s).2.
Proof.
  intros Hgone Hs. unfold destroyMember, removePod, perform.
  assert (cycle_inv c0 (log_effect (PodDeleted n v) s)) as Hlog.
  { by apply deleted_inv. }
  set (rest := on_world (api_DeleteCouchbasePod n v) ≫= λ _, clusterRemoveMember pos n;; updateCRStatus).
  assert (keeps (pres c0) rest) as Hrest by (apply quiet_pres; unfold rest; keeps_tac).
  specialize (Hrest _ Hlog). unfold rest in Hrest. revert Hrest. clear.
  unfold mbind, M_bind, modify, on_world, zoom. cbn [world log_effect].
  destruct (api_DeleteCouchbasePod n v (world s)) as [[]]; done.
Qed.

(** A loop that destroys such members. *)
Definition gone_all (P : string → Prop) (s : R) : Prop := ∀ n, P n → out (trace s) n.

Lemma destroyMember_grows pos n v (s : R) :
  ∃ l, trace (destroyMember pos n v s).2 = trace s ++ l.
Proof.
  set (grows := λ s s' : R, ∃ l, trace s' = trace s ++ l).
  assert (PreOrder grows).
  { split; [intros x; exists []; by rewrite app_nil_r|].
    intros x y z [l Hl] [l' Hl']. exists (l ++ l'). by rewrite app_assoc, <- Hl. }
  assert (∀ A (m : M R A), keeps quiet m → keeps grows m) as Hq.
  { intros A m Hm. eapply keeps_weaken; [exact Hm|]. intros x y (_&_&l&?&_). by exists l. }
  assert (keeps grows (destroyMember pos n v)) as Hd; [|apply Hd].
  unfold destroyMember, removePod, perform. keeps_tac; [|apply Hq; auto with keeps..].
  apply keeps_modify. intros x. by exists [PodDeleted n v].
Qed.

Lemma destroy_loop_pres {A} (f : A → M R ()) (P : string → Prop) (l : list A) :
  (∀ x s, x ∈ l → gone_all P s → pres c0 s (f x s).2 ∧ ∃ t, trace (f x s).2 = trace s ++ t) →
  ∀ s, gone_all P s → pres c0 s (for_each f l s).2.
Proof.
  induction l as [|x l IH]; intros Hf s Hs; simpl; [done|]. unfold mbind, M_bind.
  destruct (Hf x s (ltac:(by left)) Hs) as [Hp [t Ht]].
  destruct (f x s) as [[u|e|] s'] eqn:E; [|done..]. simpl in *. etrans; [exact Hp|].
  apply IH; [intros y s1 Hy; apply Hf; by right|]. intros n Hn. rewrite Ht. by apply out_app, Hs.
Qed.

#[local] Hint Resolve abort_pres removeMemberUser_pres : keeps.
#[local] Hint Extern 2 (keeps (pres _) (on_world _)) => apply quiet_pres, quiet_on_world : keeps.

Lemma handleRebalanceCheck_pres pos : keeps (pres c0) (handleRebalanceCheck (W := W) pos).
Proof.
  intros s Hs. unfold handleRebalanceCheck, mbind, M_bind, gets. cbn [fst snd].
  by rewrite (ci_stopped _ _ Hs).
Qed.

Lemma handleWarmupNodes_pres : keeps (pres c0) (handleWarmupNodes (W := W)).
Proof. unfold handleWarmupNodes. keeps_tac. Qed.

Lemma handleUnclusteredNodes_pres pos : keeps (pres c0) (handleUnclusteredNodes (W := W) pos).
Proof.
  intros s Hs. unfold handleUnclusteredNodes, mbind, M_bind, gets. cbn [fst snd].
  destruct (Empty _); [done|].
  refine (destroy_loop_pres _ (λ n, is_Some (unclusteredMembers (fsm s) !! n)) _ _ s _ Hs).
  - intros [n m] s' Hin%elem_of_range_entry Hgone. split; [|apply destroyMember_grows].
    apply destroyMember_pres, Hgone. by eexists.
  - intros n Hn. left. by apply (ci_unclustered _ _ Hs).
Qed.

Lemma handleUnknownServerConfigs_pres pos : keeps (pres c0) (handleUnknownServerConfigs (W := W) pos).
Proof. unfold handleUnknownServerConfigs, removeMemberIfUnknownServerConfig. keeps_tac. Qed.

(** *** The rebalance *)
Definition gate (c : Cluster) (w : W) (r : ReconcileMachine) : bool :=
  canRebalance c w r && bool_decide (Size (podsBlockingRebalance c w r) = 0%nat).

(** What [handleEjectedMembers] needs: the gate is shut, or the members are out. *)
Definition ready_to_delete (s : R) : Prop :=
  gate (cl s) (world s) (fsm s) = false ∨
  ∀ n, is_Some (ejectMembers (fsm s) !! n) → out (trace s) n.

Lemma rebalance_failed_pres pos e : keeps (pres c0) (rebalance_failed (W := W) pos e).
Proof. unfold rebalance_failed, delta_member. keeps_tac. Qed.

Lemma rebalance_failed_aborts pos e (s s' : R) u :
  rebalance_failed pos e s = (Ok u, s') → abortReason (fsm s') ≠ "".
Proof.
  unfold rebalance_failed. intros Hrun. inv_ok Hrun. inv_ok Hrun. inv_ok Hrun.
  destruct (negb (Empty a1)); [|done]. inv_ok Hrun. injection Hrun as _ <-. done.
Qed.

Lemma handleRebalance_pres pos : keeps (pres c0) (handleRebalance (W := W) pos).
Proof.
  unfold handleRebalance, clear_ejection_marks. keeps_tac; try apply rebalance_failed_pres.
  apply quiet_pres; auto with keeps.
Qed.

Lemma handleRebalance_ready pos (s s' : R) u :
  cycle_inv c0 s → handleRebalance pos s = (Ok u, s') →
  abortReason (fsm s') ≠ "" ∨ ready_to_delete s'.
Proof.
  intros Hs Hrun. unfold handleRebalance in Hrun.
  inv_ok Hrun. injection Hrun0 as <- <-. inv_ok Hrun. injection Hrun0 as <- <-.
  inv_ok Hrun. injection Hrun0 as <- <-. unfold ready_to_delete, gate.
  destruct (shouldRebalance (cl s) (world s) (fsm s)) eqn:Eshould; simpl in Hrun.
  2: { injection Hrun as _ <-. right. unfold shouldRebalance in Eshould.
       destruct (needsRebalance (fsm s)) eqn:En; [left; simpl in Eshould; by rewrite Eshould|].
       right. intros n [?|?]%(ci_needs _ _ Hs); [congruence|]. by right; left. }
  case_bool_decide as Hblock.
  { injection Hrun as _ <-. right. left. apply andb_false_intro2, bool_decide_eq_false. lia. }
  inv_ok Hrun. inv_ok Hrun. inv_ok Hrun. inv_ok Hrun. destruct a2 as [[]|e].
  2: { left. by eapply rebalance_failed_aborts. }
  right. right. unfold attempt in Hrun3.
  destruct (rebalanceWithRetriesOnVerifyFails _ _ _ _ s2) as [[v|e|] s4] eqn:E; simplify_eq.
  assert (quiet s s3) as (Hf&_&l'&Hlog&_).
  { etrans; [eapply keeps_run; [apply quiet_on_world|done]|].
    etrans; [eapply keeps_run; [apply quiet_on_world|done]|].
    etrans; [eapply keeps_run; [|exact Hrun2]; keeps_tac|].
    eapply keeps_run; [apply quiet_rebalance|exact E]. }
  apply rebalance_ok in E; [|by apply (ci_retries _ _ Hs)].
  match type of Hrun with ?m _ = _ => assert (keeps quiet m) as Hq by (unfold clear_ejection_marks; keeps_tac) end.
  apply (keeps_run _ _ _ _ _ Hq) in Hrun. apply (verified_quiet _ _ _ _ Hrun) in E.
  destruct Hrun as (Hf'&_&l&Ht&_). rewrite Hf', Hf. intros n [m Hn]. right.
  destruct (clusteredMembers (fsm s) !! n) as [m'|] eqn:Ec.
  { left. rewrite Ht, Hlog. apply added_back_app, added_back_app, (ci_disjoint _ _ Hs); by eexists. }
  right. left. eapply verified_out; [exact E|done| |].
  - by apply (ci_keyed _ _ Hs).
  - apply list_elem_of_fmap. exists m. split; [done|]. apply elem_of_members. by exists n.
Qed.

(** *** The deletions *)
Lemma gate_cluster (c c' : Cluster) (w : W) r :
  fixed c = fixed c' → gate c w r = gate c' w r.
Proof.
  intros [= _ _ _ Hn Hu]. unfold gate, canRebalance, podsBlockingRebalance, getPendingDNSPods, getClusterPods,
    hasDNSCheckDelayElapsed. by rewrite Hn, Hu.
Qed.

Lemma handleEjectedMembers_pres pos (s : R) :
  ready_to_delete s → pres c0 s (handleEjectedMembers pos s).2.
Proof.
  intros Hready Hs. unfold handleEjectedMembers, mbind, M_bind, gets. cbn [fst snd].
  destruct (negb (canRebalance (cl s) (world s) (fsm s))) eqn:Ecan; [done|].
  case_bool_decide as Hblock; [done|]. apply negb_false_iff in Ecan.
  destruct Hready as [Hgate|Hgone].
  { unfold gate in Hgate. rewrite Ecan in Hgate. apply bool_decide_eq_false in Hgate. lia. }
  refine (destroy_loop_pres _ (λ n, is_Some (ejectMembers (fsm s) !! n)) _ _ s _ Hs); [|done].
  intros [n m] s' Hin%elem_of_range_entry Hall. cbn [fst].
  assert (∀ v, pres c0 s' (destroyMember (0%nat :: pos) n v s').2 ∧
    ∃ t, trace (destroyMember (0%nat :: pos) n v s').2 = trace s' ++ t) as Hdel.
  { intros v. split; [|apply destroyMember_grows]. apply destroyMember_pres, Hall. by eexists. }
  unfold eject_pod, mbind, M_bind, gets. cbn [fst snd].
  destruct (Pods_Get (world s') n) as [pod|]; [|done].
  destruct (IsPodPendingAnyEjection pod); [|done]. split; [done|]. exists []. by rewrite app_nil_r.
Qed.

(** Writing the status does not open the gate (it is time or another pod that does). *)
Definition gate_stable : Prop :=
  ∀ (s : R) r, gate c0 (world s) r = false → gate c0 (world (updateCRStatus s).2) r = false.

Lemma updateCRStatus_ready (s : R) :
  gate_stable → cycle_inv c0 s → ready_to_delete s → ready_to_delete (ignore_error updateCRStatus s).2.
Proof.
  intros Hstable Hs Hready.
  assert ((ignore_error updateCRStatus s).2 = (updateCRStatus s).2) as ->.
  { unfold ignore_error, attempt, mbind, M_bind. by destruct (updateCRStatus s) as [[]]. }
  pose proof (quiet_updateCRStatus s) as (Hf&Hfix&l&Ht&_).
  unfold ready_to_delete in *. rewrite Hf, Ht. destruct Hready as [Hgate|Hgone].
  - left. rewrite (gate_cluster _ c0) in Hgate by apply Hs.
    rewrite (gate_cluster _ c0) by (rewrite Hfix; apply Hs). by apply Hstable.
  - right. intros n Hn. by apply out_app, Hgone.
Qed.


(** *** Recovery *)
Lemma removeMember_pres m : keeps (pres c0) (removeMember (W := W) m).
Proof.
  unfold removeMember. keeps_tac. apply keeps_modify. intros s Hs. destruct Hs. by apply fsm_inv.
Qed.

Lemma removeMemberNoEject_pres m : keeps (pres c0) (removeMemberNoEject (W := W) m).
Proof.
  apply keeps_modify. intros s Hs. pose proof Hs as [Hd ? ? ? ? ? ? ? ?]. apply fsm_inv; try done. simpl.
  intros n [x Hx]. unfold Remove in Hx. apply lookup_delete_Some in Hx as [Hne Hx]. apply Hd. by eexists.
Qed.
#[local] Hint Resolve removeMember_pres removeMemberNoEject_pres : keeps.

Lemma quiet_recoveryTime name : keeps quiet (hasMemberRecoveryTimeElapsed (W := W) name).
Proof. unfold hasMemberRecoveryTimeElapsed. keeps_tac. Qed.
#[local] Hint Resolve quiet_recoveryTime : keeps.

Lemma quiet_persist : keeps quiet (persistRecoveryTimestamps (W := W)).
Proof. unfold persistRecoveryTimestamps, persist_times. keeps_tac. Qed.
#[local] Hint Resolve quiet_persist : keeps.

Lemma quiet_recreatePod m b : keeps quiet (recreatePod (W := W) m b).
Proof. unfold recreatePod. keeps_tac. Qed.
#[local] Hint Resolve quiet_recreatePod : keeps.

Lemma quiet_recover_down e n : keeps quiet (recover_down (W := W) e n).
Proof. unfold recover_down, note_attempt, note_success. keeps_tac. Qed.

Lemma quiet_recover_loop l : ∀ n, keeps quiet (recover_loop (W := W) l n).
Proof.
  induction l as [|e l IH]; intros n; simpl; [keeps_tac|].
  apply keeps_bind; [apply _|apply quiet_recover_down|]. intros [k|]; [apply IH|keeps_tac].
Qed.

#[local] Hint Extern 3 (keeps (pres _) _) => apply quiet_pres; solve [auto with keeps] : keeps.

Lemma handleDownNodes_pres pos : keeps (pres c0) (handleDownNodes (W := W) pos).
Proof.
  unfold handleDownNodes, allDownNodesRecoveryTimedout, failover_down, failover_node.
  pose proof quiet_recover_loop. keeps_tac.
Qed.

Lemma handleFailedAddNodes_pres pos : keeps (pres c0) (handleFailedAddNodes (W := W) pos).
Proof.
  unfold handleFailedAddNodes, handle_failed_add, silent_readd, attemptSilentReAdd, cancelAddMember. keeps_tac.
Qed.

Lemma handleFailedNodes_pres pos : keeps (pres c0) (handleFailedNodes (W := W) pos).
Proof. unfold handleFailedNodes, handle_failed, note_attempt, note_success. keeps_tac. Qed.

(** A member to add back whose class the specification no longer has is ejected, with
    or without a rebalance. *)
Lemma eject_added_back (s : R) m :
  added_back (trace s) (Name m) → pres c0 s (set_fsm (λ r, set_eject (Add m (ejectMembers r)) r) s).
Proof.
  intros Hback Hs. pose proof Hs as [Hd Hn ? ? ? ? ? ? ?]. apply fsm_inv; try done; simpl; [| |by apply keyed_Add].
  - intros n Hc He. destruct (decide (n = Name m)) as [->|Hne]; [done|]. unfold Add in He.
    rewrite lookup_insert_ne in He by done. by apply Hd.
  - intros n He. destruct (decide (n = Name m)) as [->|Hne]; [by right|]. unfold Add in He.
    rewrite lookup_insert_ne in He by done. by apply Hn.
Qed.

Lemma handle_add_back_pres ready e (s : R) :
  added_back (trace s) (Name e.2) → pres c0 s (handle_add_back (W := W) ready e s).2.
Proof.
  destruct e as [name m]. cbn [snd]. intros Hback Hs. unfold handle_add_back.
  apply bind_state; [done|]. intros s0 s1 [= <- <-] _. apply bind_state; [done|]. intros b s1 [= _ <-] _.
  destruct b; [by apply (keeps_bind (pres c0) _ _ (abort_pres _) (λ _, keeps_ret _ _))|].
  destruct (verifyMemberVolumes _ _ _ _) as [u|e|]; [|by apply (keeps_bind (pres c0) _ _ (removeMember_pres _) (λ _, keeps_ret _ _))|done].
  destruct (GetServerConfigByName _ _) as [sc|].
  - match goal with |- cycle_inv _ (?f s).2 => enough (keeps (pres c0) f) as Hm by by apply Hm end.
    keeps_tac. apply keeps_modify. intros s' Hs'. pose proof Hs'. destruct Hs'. apply fsm_inv; simpl; auto.
  - by apply (eject_added_back s m).
Qed.

Definition same_trace (s s' : R) : Prop := trace s' = trace s.
#[local] Instance same_trace_preorder : PreOrder same_trace.
Proof. split; [by intros s|]. intros s1 s2 s3. unfold same_trace. congruence. Qed.

Lemma handle_add_back_trace ready e : keeps same_trace (handle_add_back (W := W) ready e).
Proof.
  assert (∀ A (m : M W A), keeps same_trace (on_world m)) as Hw by (intros A m; apply keeps_zoom; by intros s w).
  assert (∀ f, keeps same_trace (modify (set_fsm (W := W) f))) as Hf by (intros f; by apply keeps_modify).
  unfold handle_add_back, removeMember, removeMemberUser, abort. keeps_tac.
Qed.

Lemma add_back_loop ready l : ∀ s : R,
  (∀ e, e ∈ l → added_back (trace s) (Name e.2)) → pres c0 s (for_until (handle_add_back ready) l s).2.
Proof.
  induction l as [|e l IH]; intros s Hl Hs; simpl; [done|].
  apply bind_state; [apply handle_add_back_pres; [apply Hl; by left|done]|]. intros b s1 Hr Hs1.
  destruct b; [done|]. apply IH; [|done]. intros e' He'.
  apply (keeps_run _ _ _ _ _ (handle_add_back_trace _ _)) in Hr. rewrite Hr. apply Hl. by right.
Qed.

Lemma handleAddBackNodes_pres pos : keeps (pres c0) (handleAddBackNodes (W := W) pos).
Proof.
  intros s Hs. unfold handleAddBackNodes. apply bind_state; [done|]. intros r s1 [= <- <-] _.
  apply bind_state; [done|]. intros c s1 [= <- <-] _.
  destruct (Empty _); [done|]. destruct (Empty _); [done|].
  apply bind_state; [|by intros ? ? _]. apply add_back_loop; [|done].
  intros [n m] Hin%elem_of_range_entry. by apply (ci_addback _ _ Hs n).
Qed.

(** *** Scaling *)
Section scaling.
Context `{Scheduler Sc}.
Abbreviation FS := (R * Sc)%type.

Definition pres2 (f f' : FS) : Prop := pres c0 f.1 f'.1.

#[local] Instance pres2_preorder : PreOrder pres2.
Proof. split; [by intros f Hf|]. intros f1 f2 f3 H12 H23 H1'. by apply H23, H12. Qed.

Lemma on_rs_pres {A} (m : M R A) : keeps (pres c0) m → keeps pres2 (on_rs (Sc := Sc) m).
Proof. intros Hm [s sc]. unfold pres2, on_rs, zoom. cbn [fst snd]. specialize (Hm s). by destruct (m s). Qed.

Lemma on_scheduler_pres {A} (m : M Sc A) : keeps pres2 (on_scheduler (W := W) m).
Proof. intros [s sc]. unfold pres2, on_scheduler, zoom. cbn [fst snd]. by destruct (m sc). Qed.
#[local] Hint Resolve on_scheduler_pres : keeps.
#[local] Hint Extern 1 (keeps pres2 (on_rs _)) => apply on_rs_pres; keeps_tac : keeps.

Lemma handleRemoveNode_pres (fs : list (list nat → M R MemberSet)) {Size} lt ne (size : W → string → Size) pos :
  Forall (λ f, ∀ p, keeps quiet (f p)) fs →
  keeps pres2 (handleRemoveNode (Sc := Sc) fs lt ne size pos).
Proof.
  intros Hfs.
  assert (∀ p clustered queue prio, keeps (pres c0) (queue_candidates p clustered fs queue prio)) as Hqueue.
  { clear pos. induction Hfs as [|f fs' Hf _ IH]; intros p clustered queue prio; simpl; [keeps_tac|].
    apply keeps_bind; [apply _|by apply quiet_pres|]. intros a. apply IH. }
  assert (∀ p servers r, keeps pres2 (removals (Sc := Sc) fs lt ne size p r servers)) as Hrem.
  { intros p servers r. induction servers as [|sc servers IH]; simpl; [keeps_tac|].
    unfold populateRemovalQueuePerServerClass. keeps_tac. }
  assert (∀ p l, keeps pres2 (remove_all (Sc := Sc) (W := W) p l)) as Hall.
  { intros p l. induction l as [|sc l IH]; simpl; unfold remove_one; keeps_tac. }
  unfold handleRemoveNode. keeps_tac.
Qed.

(** Computations on both states that delete nothing. *)
Definition quiet2 (f f' : FS) : Prop := quiet f.1 f'.1.

Lemma quiet2_pres {A} (m : M FS A) : keeps quiet2 m → keeps pres2 m.
Proof. intros Hm f. apply quiet_inv, Hm. Qed.

Lemma handleAddNode_pres apply_previous add :
  (∀ l, keeps quiet (apply_previous l)) → (∀ l, keeps quiet2 (add l)) →
  cs_UnmanagedClusterHost (Spec (c_cluster c0)) = None →
  keeps pres2 (handleAddNode (W := W) apply_previous add).
Proof.
  intros Happly Hadd Hhost f Hf. unfold handleAddNode. destruct f as [s sc]. simpl in Hf.
  apply (bind_state (λ f, cycle_inv c0 f.1)); [done|]. intros r f1 [= <- <-] _.
  apply (bind_state (λ f, cycle_inv c0 f.1)); [done|]. intros c f1 [= <- <-] _.
  rewrite (fixed_migration _ c0) by apply Hf. unfold IsMigrationCluster. rewrite Hhost.
  match goal with |- cycle_inv _ (?f (?x, _)).2.1 => enough (keeps pres2 f) as Hm by by apply (Hm (x, sc)) end.
  unfold clusterVersion. keeps_tac; try (apply quiet_pres, Happly); by apply quiet2_pres.
Qed.

(** *** The loop *)
Lemma exec_pres (handlers : list (M FS ())) pos pos' :
  gate_stable → Forall (keeps pres2) handlers →
  keeps pres2 (exec (handlers ++ [on_rs (handleRebalance pos); on_rs (handleEjectedMembers pos');
                                  on_rs handleNotifyFinished])).
Proof.
  intros Hstable. assert (keeps (pres c0) (updateCRStatus (W := W))) as Hupdate
    by (apply quiet_pres; keeps_tac).
  assert (keeps (pres c0) (handleRebalance (W := W) pos)) as Hreb by apply handleRebalance_pres.
  induction 1 as [|f handlers Hf _ IH]; cbn [app exec].
  2: { apply keeps_bind; [apply _|done|]. intros _. keeps_tac. }
  intros [s sc] Hs. apply (bind_state (λ f, cycle_inv c0 f.1)); [by apply (on_rs_pres _ Hreb (s, sc))|].
  intros u [s1 sc1] E Hs1. unfold on_rs, zoom in E. cbn [fst snd] in E, Hs, Hs1.
  destruct (handleRebalance pos s) as [res s1'] eqn:E'. injection E as -> -> ->.
  apply handleRebalance_ready in E'; [|done]. apply (bind_state (λ f, cycle_inv c0 f.1)); [done|].
  intros r [s1' sc1'] [= <- <- <-] _.
  case_bool_decide as Habort; [done|]. destruct E' as [?|Hready]; [done|].
  pose proof (updateCRStatus_ready s1 Hstable Hs1 Hready) as Hready2.
  apply (bind_state (λ f, cycle_inv c0 f.1)); [by apply (on_rs_pres _ (keeps_ignore (pres c0) _ Hupdate) (s1, sc1))|].
  intros u2 [s2 sc2] E2 Hs2. unfold on_rs, zoom in E2. cbn [fst snd] in E2, Hs2.
  destruct (ignore_error updateCRStatus s1) as [res s2'] eqn:E2'. injection E2 as -> -> ->.
  cbn [snd] in Hready2. apply (bind_state (λ f, cycle_inv c0 f.1)).
  { pose proof (handleEjectedMembers_pres pos' s2 Hready2 Hs2) as He. unfold on_rs, zoom. cbn [fst snd].
    by destruct (handleEjectedMembers pos' s2). }
  intros u3 f3 _. revert f3.
  match goal with |- ∀ f3, _ → cycle_inv _ (?m f3).2.1 => enough (keeps pres2 m) as Hm by apply Hm end.
  unfold handleNotifyFinished. keeps_tac.
Qed.
End scaling.
End handlers.

(** ** A whole cycle *)
Section cycle.
Context `{Platform W} `{PersistentStorage W} `{Environment} `{MapRange} `{Scheduler Sc}.
Abbreviation R := (RS W).

Lemma quiet_newReconcileMachine pos : keeps quiet (newReconcileMachine (W := W) pos).
Proof. unfold newReconcileMachine, deriveEjectFSMMembers, scale_down_class. keeps_tac. Qed.

(** A new machine satisfies the invariant. *)
Lemma new_machine_inv pos (s s1 : R) r :
  keyed (c_members (cl s)) → trace s = [] → newReconcileMachine pos s = (Ok r, s1) →
  IsRebalancing (couchbase r) = false →
  cycle_inv (cl s) (set_fsm (const r) s1).
Proof.
  intros Hkeyed Ht Hnew Hidle.
  pose proof (keeps_run _ _ _ _ _ (quiet_newReconcileMachine pos) Hnew) as (_&Hfix&_).
  destruct (newReconcileMachine_made pos s s1 r Hkeyed Hnew) as (status&w1&w2&Htr&Hm&_&_&Hr&_).
  rewrite Ht in Htr. cbn in Htr. split; cbn [fsm cl trace set_fsm]; unfold const.
  - intros n [m Hn] [m' Hn']. apply (nm_clustered _ _ _ _ _ Hm) in Hn as (_&_&_&Hn). congruence.
  - intros n [m Hn]. left. apply (nm_rebalance _ _ _ _ _ Hm). right; right. intros He. by rewrite He in Hn.
  - lia.
  - intros n m Hn. apply (nm_eject _ _ _ _ _ Hm) in Hn as (Hn&_). by apply Hkeyed.
  - intros n [m Hn]. apply (nm_unclustered _ _ _ _ _ Hm) in Hn as (_&Hn&_). rewrite Htr. by exists status, [].
  - done.
  - rewrite Htr. by apply (justified_snoc []); [apply justified_nil|].
  - done.
  - intros n m Hn. apply (nm_nodes _ _ _ _ _ Hm NodeStateAddBack) in Hn as [Hn Hst]. rewrite (Hkeyed _ _ Hn), Htr.
    by exists status, [].
Qed.
End cycle.

(** Of an effect, what it did to the pod. *)
Definition deleted (l : list Effect) : list string :=
  omap (λ e, match e with PodDeleted n _ => Some n | _ => None end) l.
Definition rebalances (l : list Effect) : list (list string) :=
  omap (λ e, match e with RebalanceAsked _ eject => Some eject | _ => None end) l.
