(* ===== verification/MachineTypes.v ===== *)
(** * The reconcile machine is well formed throughout a cycle

    Every set of the machine is keyed by the names of its members, the number of
    rebalance retries is a 64-bit unsigned integer, and what the machine noted
    when it was built (the state of the nodes, the unclustered members, those that
    are stabilising, the pods to be initialised, the retries) never changes. *)

From Stdlib Require Import Ascii.
From S2P Require Import Prelude Effects GoLib Api Member Persistence Status UpgradeOrder.
From S2P Require Import Scheduler NullScheduler RollingUpgrade NodeStatus Pods Volumes Machine Rebalance Baseline Recovery.
From S2P Require Import Scaling Sim MachineSpec RebalanceSpec.
Local Open Scope Z_scope.

Record well_formed_state (st : MemberState) : Prop := {
  wfs_nodes x : keyed (nodes_of x st);
  wfs_unclustered : keyed (UnclusteredNodes st);
}.

Record well_formed (r : ReconcileMachine) : Prop := {
  wf_clustered : keyed (clusteredMembers r);
  wf_running : keyed (runningMembers r);
  wf_eject : keyed (ejectMembers r);
  wf_stabilizing : keyed (stabilizingMembers r);
  wf_unclustered : keyed (unclusteredMembers r);
  wf_pendingDNS : keyed (pendingDNSMembers r);
  wf_pendingInit : keyed (pendingInitPods r);
  wf_couchbase : well_formed_state (couchbase r);
  wf_retries : 0 ≤ rebalanceRetries r < 2 ^ 64;
}.

(** ** A new machine *)
Lemma fold_Add_keyed {A} (step : MemberSet → A → MemberSet) (l : list A) : ∀ acc,
  (∀ acc e, step acc e = acc ∨ ∃ m, step acc e = Add m acc) → keyed acc → keyed (fold_left step l acc).
Proof.
  induction l as [|e l IH]; intros acc Hstep Hacc; simpl; [done|]. apply IH; [done|].
  destruct (Hstep acc e) as [->|[m ->]]; [done|by apply keyed_Add].
Qed.

#[local] Hint Resolve keyed_empty keyed_Add keyed_delete keyed_filter : core.

Section types.
Context `{Platform W} `{PersistentStorage W} `{Environment} `{MapRange}.
Abbreviation R := (RS W).

Lemma member_state_well_formed pos (w : W) ms status :
  well_formed_state (member_state pos w ms status).
Proof.
  assert (∀ l st, well_formed_state st → well_formed_state (fold_left (classify ms) l st)) as Hfold.
  { induction l as [|[k x] l IH]; intros st Hst; simpl; [done|]. apply IH. unfold classify. simpl.
    destruct (ms !! k) as [m|]; [|done]. destruct Hst as [Hn Hu]. split; [|done].
    intros y. specialize (Hn y). destruct y, x; simpl in *; auto. }
  unfold member_state.
  match goal with |- context [fold_left (classify ms) ?l ?st] => destruct (Hfold l st) as [Hn Hu] end.
  { split; [intros []; simpl; auto|simpl; auto]. }
  split; [intros x; specialize (Hn x); by destruct x|]. simpl. apply fold_Add_keyed; [|auto].
  intros acc e. unfold unclustered_step. repeat case_match; eauto.
Qed.

Lemma podsToMemberSet_keyed pods : keyed (podsToMemberSet pods).
Proof. apply add_all_keyed, keyed_empty. Qed.

Lemma eject_fold_well_formed l : ∀ r, well_formed r → well_formed (fold_left eject_one l r).
Proof.
  induction l as [|[n m] l IH]; intros r Hr; simpl; [done|]. apply IH. destruct Hr.
  split; simpl; unfold Remove; auto.
Qed.

Lemma new_machine_well_formed pos (s s' : R) r :
  keyed (c_members (cl s)) → newReconcileMachine pos s = (Ok r, s') → well_formed r.
Proof.
  intros Hkeyed Hnew. unfold newReconcileMachine in Hnew. inv_ok Hnew.
  destruct (GetStatus_ok _ _ _ _ Hnew0) as (_&Hc0&_).
  inv_ok Hnew. injection Hnew1 as <- <-. inv_ok Hnew. injection Hnew1 as <- <-. inv_ok Hnew. inv_ok Hnew.
  injection Hnew2 as <- <-. inv_ok Hnew. injection Hnew2 as _ <-. unfold deriveEjectFSMMembers in Hnew.
  inv_ok Hnew. injection Hnew2 as <- <-. inv_ok Hnew. injection Hnew2 as <- <-.
  destruct (fold_left (mark_step _ _) _ _) as [eject0 scaleDown]. inv_ok Hnew. injection Hnew as <- _.
  apply eject_fold_well_formed. rewrite Hc0. unfold initial_machine.
  split; cbn [clusteredMembers runningMembers ejectMembers stabilizingMembers unclusteredMembers
    pendingDNSMembers pendingInitPods couchbase rebalanceRetries set_stabilizing];
    unfold Diff, Intersect; auto using podsToMemberSet_keyed.
  - apply fold_Add_keyed; [|auto]. intros acc e. unfold stabilizing_step. repeat case_match; eauto.
  - unfold Copy. rewrite list_to_map_to_list. apply wfs_unclustered, member_state_well_formed.
  - apply member_state_well_formed.
  - unfold uint. apply Z.mod_pos_bound. lia.
Qed.

(** ** The handlers *)

(** What is noted when the machine is built. *)
Definition noted (r : ReconcileMachine) : MemberState * MemberSet * MemberSet * MemberSet * Z :=
  (couchbase r, unclusteredMembers r, stabilizingMembers r, pendingInitPods r, rebalanceRetries r).

Definition sound (s : R) : Prop := well_formed (fsm s) ∧ keyed (c_members (cl s)).

Definition stays_well_formed (s s' : R) : Prop := noted (fsm s') = noted (fsm s) ∧ (sound s → sound s').

#[local] Instance stays_preorder : PreOrder stays_well_formed.
Proof. split; [by intros s|]. intros s1 s2 s3 [? ?] [? ?]. split; [congruence|auto]. Qed.

Lemma quiet_stays_state (s s' : R) : quiet s s' → stays_well_formed s s'.
Proof. intros (Hf&_&_&_&_&Hk). unfold stays_well_formed, sound. rewrite Hf. naive_solver. Qed.

Lemma quiet_stays {A} (m : M R A) : keeps quiet m → keeps stays_well_formed m.
Proof. intros Hm s. apply quiet_stays_state, Hm. Qed.

Lemma fsm_stays_from (f : ReconcileMachine → ReconcileMachine) (s : R) :
  noted (f (fsm s)) = noted (fsm s) →
  (sound s → keyed (clusteredMembers (f (fsm s))) ∧ keyed (runningMembers (f (fsm s))) ∧
     keyed (ejectMembers (f (fsm s))) ∧ keyed (pendingDNSMembers (f (fsm s)))) →
  stays_well_formed s (set_fsm f s).
Proof.
  intros Hn Hk. split; [exact Hn|]. intros Hs. pose proof Hs as [Hwf Hc]. split; [|exact Hc]. simpl.
  destruct (Hk Hs) as (?&?&?&?). pose proof Hn as [= Hcb Hu Hst Hp Hr]. destruct Hwf.
  split; rewrite ?Hcb, ?Hu, ?Hst, ?Hp, ?Hr; done.
Qed.

Lemma fsm_stays (f : ReconcileMachine → ReconcileMachine) :
  (∀ r, noted (f r) = noted r) →
  (∀ r, well_formed r → keyed (clusteredMembers (f r)) ∧ keyed (runningMembers (f r)) ∧
     keyed (ejectMembers (f r)) ∧ keyed (pendingDNSMembers (f r))) →
  keeps stays_well_formed (modify (set_fsm (W := W) f)).
Proof.
  intros Hn Hk. apply keeps_modify. intros s. apply fsm_stays_from; [apply Hn|]. intros [Hwf _]. by apply Hk.
Qed.

#[local] Hint Extern 1 (keeps stays_well_formed (modify (set_fsm _))) =>
  apply fsm_stays; [done|intros ? []; simpl; unfold Remove; auto] : keeps.

Lemma restore_keyed pos c stored ms : keyed ms → keyed (restore_members pos c stored ms).
Proof.
  unfold restore_members. generalize (strings_Split stored ","%char). intros l. revert ms.
  induction l as [|name l IH]; intros ms Hms; simpl; [done|]. apply IH. apply fold_Add_keyed; [|done].
  intros acc e. case_bool_decide; eauto.
Qed.
#[local] Hint Resolve restore_keyed : core.

#[local] Hint Extern 2 (keeps stays_well_formed (on_world _)) => apply quiet_stays, quiet_on_world : keeps.
#[local] Hint Extern 2 (keeps stays_well_formed (perform _ _)) => apply quiet_stays; auto with keeps : keeps.

#[local] Hint Extern 2 (keeps stays_well_formed (updateCRStatus)) => apply quiet_stays; auto with keeps : keeps.
#[local] Hint Extern 2 (keeps stays_well_formed (set_status_now _)) => apply quiet_stays; auto with keeps : keeps.
#[local] Hint Extern 2 (keeps stays_well_formed (destroyMember _ _ _)) =>
  unfold destroyMember, removePod, perform : keeps.

Lemma abort_stays reason : keeps stays_well_formed (abort (W := W) reason).
Proof. unfold abort. auto with keeps. Qed.

Lemma removeMemberUser_stays m : keeps stays_well_formed (removeMemberUser (W := W) m).
Proof. unfold removeMemberUser. auto with keeps. Qed.

Lemma removeMember_stays m : keeps stays_well_formed (removeMember (W := W) m).
Proof. unfold removeMember. pose proof (removeMemberUser_stays m). keeps_tac. Qed.

Lemma removeMemberNoEject_stays m : keeps stays_well_formed (removeMemberNoEject (W := W) m).
Proof. unfold removeMemberNoEject. auto with keeps. Qed.

Lemma addMember_stays m : keeps stays_well_formed (addMember (W := W) m).
Proof. unfold addMember. auto with keeps. Qed.

Lemma destroyMember_stays pos n v : keeps stays_well_formed (destroyMember (W := W) pos n v).
Proof.
  unfold destroyMember, removePod, perform.
  assert (∀ m : M R (), keeps quiet m → keeps stays_well_formed m) as Hq by (intros m; apply quiet_stays).
  keeps_tac; [|apply Hq; auto with keeps..].
  apply keeps_modify. intros s. by split.
Qed.

#[local] Hint Resolve abort_stays removeMember_stays removeMemberUser_stays removeMemberNoEject_stays
  addMember_stays destroyMember_stays : keeps.
#[local] Hint Resolve quiet_recreatePod quiet_persist quiet_recoveryTime quiet_recover_loop : keeps.
#[local] Hint Extern 4 (keeps stays_well_formed _) => apply quiet_stays; solve [auto with keeps] : keeps.

Lemma handleRebalanceCheck_stays pos : keeps stays_well_formed (handleRebalanceCheck (W := W) pos).
Proof. unfold handleRebalanceCheck, checkRebalanceStarted. keeps_tac. Qed.

Lemma handleDownNodes_stays pos : keeps stays_well_formed (handleDownNodes (W := W) pos).
Proof.
  unfold handleDownNodes, allDownNodesRecoveryTimedout, failover_down, failover_node. keeps_tac.
Qed.

Lemma handleUnclusteredNodes_stays pos : keeps stays_well_formed (handleUnclusteredNodes (W := W) pos).
Proof. unfold handleUnclusteredNodes. keeps_tac. Qed.

Lemma handleFailedAddNodes_stays pos : keeps stays_well_formed (handleFailedAddNodes (W := W) pos).
Proof.
  unfold handleFailedAddNodes, handle_failed_add, silent_readd, attemptSilentReAdd, cancelAddMember. keeps_tac.
Qed.

Lemma handleAddBackNodes_stays pos : keeps stays_well_formed (handleAddBackNodes (W := W) pos).
Proof. unfold handleAddBackNodes, handle_add_back. keeps_tac. Qed.

Lemma handleFailedNodes_stays pos : keeps stays_well_formed (handleFailedNodes (W := W) pos).
Proof. unfold handleFailedNodes, handle_failed, note_attempt, note_success. keeps_tac. Qed.

Lemma handleUnknownServerConfigs_stays pos : keeps stays_well_formed (handleUnknownServerConfigs (W := W) pos).
Proof. unfold handleUnknownServerConfigs, removeMemberIfUnknownServerConfig. keeps_tac. Qed.

Lemma handleRebalance_stays pos : keeps stays_well_formed (handleRebalance (W := W) pos).
Proof. unfold handleRebalance, clear_ejection_marks, rebalance_failed, delta_member. keeps_tac. Qed.

Lemma handleEjectedMembers_stays pos : keeps stays_well_formed (handleEjectedMembers (W := W) pos).
Proof. unfold handleEjectedMembers, eject_pod. keeps_tac. Qed.

(** *** With the scheduler *)
Section scaling.
Context `{Scheduler Sc}.
Abbreviation FS := (R * Sc)%type.

Definition stays2 (f f' : FS) : Prop := stays_well_formed f.1 f'.1.

#[local] Instance stays2_preorder : PreOrder stays2.
Proof. split; [by intros f|]. intros f1 f2 f3 ? ?. unfold stays2. by etrans. Qed.

Lemma on_rs_stays {A} (m : M R A) : keeps stays_well_formed m → keeps stays2 (on_rs (Sc := Sc) m).
Proof. intros Hm [s sc]. unfold stays2, on_rs, zoom. cbn [fst snd]. specialize (Hm s). by destruct (m s). Qed.

Lemma on_scheduler_stays {A} (m : M Sc A) : keeps stays2 (on_scheduler (W := W) m).
Proof. intros [s sc]. unfold stays2, on_scheduler, zoom. cbn [fst snd]. by destruct (m sc). Qed.
#[local] Hint Resolve on_scheduler_stays : keeps.
#[local] Hint Extern 1 (keeps stays2 (on_rs _)) => apply on_rs_stays; keeps_tac : keeps.

Context (fs : list (list nat → M R MemberSet)) {Size : Type} (lt ne : Size → Size → bool) (size : W → string → Size).
Context (Hfs : Forall (λ f, ∀ p, keeps quiet (f p)) fs).

Lemma handleRemoveNode_stays pos : keeps stays2 (handleRemoveNode (Sc := Sc) fs lt ne size pos).
Proof.
  assert (∀ p clustered queue prio, keeps stays_well_formed (queue_candidates p clustered fs queue prio)) as Hqueue.
  { clear pos. induction Hfs as [|f fs' Hf Hfs' IH]; intros p clustered queue prio; simpl; [keeps_tac|].
    apply keeps_bind; [apply _|by apply quiet_stays|]. intros a. by apply IH. }
  assert (∀ p servers r, keeps stays2 (removals (Sc := Sc) fs lt ne size p r servers)) as Hrem.
  { intros p servers r. induction servers as [|sc servers IH]; simpl; [keeps_tac|].
    unfold populateRemovalQueuePerServerClass. keeps_tac. }
  assert (∀ p l, keeps stays2 (remove_all (Sc := Sc) (W := W) p l)) as Hall.
  { intros p l. induction l as [|sc l IH]; simpl; unfold remove_one; keeps_tac. }
  unfold handleRemoveNode. keeps_tac.
Qed.

Lemma quiet2_stays {A} (m : M FS A) : keeps quiet2 m → keeps stays2 m.
Proof. intros Hm f. apply quiet_stays_state, Hm. Qed.

Lemma handleAddNode_stays apply_previous add :
  (∀ l, keeps quiet (apply_previous l)) → (∀ l, keeps quiet2 (add l)) →
  keeps stays2 (handleAddNode (W := W) apply_previous add).
Proof.
  intros Happly Hadd. unfold handleAddNode, clusterVersion.
  keeps_tac; try (apply quiet_stays, Happly); by apply quiet2_stays.
Qed.

Lemma exec_stays (handlers : list (M FS ())) : Forall (keeps stays2) handlers → keeps stays2 (exec handlers).
Proof.
  induction 1 as [|f handlers Hf _ IH]; simpl; [keeps_tac|].
  apply keeps_bind; [apply _|done|]. intros _. keeps_tac.
Qed.

End scaling.
End types.
