(* ===== verification/RecoverySpec.v ===== *)
(** * Members that are down: when a failover is forced *)

From S2P Require Import Prelude Effects GoLib Api Member Persistence Status UpgradeOrder.
From S2P Require Import Scheduler RollingUpgrade NodeStatus Pods Volumes Machine Rebalance Recovery.
From S2P Require Import Scaling Sim MachineSpec RebalanceSpec.
Local Open Scope Z_scope.

(** ** Computations that have only certain effects *)
Definition emits {W} (P : Effect → Prop) (s s' : RS W) : Prop :=
  fixed (cl s') = fixed (cl s) ∧ ∃ l, trace s' = trace s ++ l ∧ Forall P l.

#[export] Instance emits_preorder {W} P : PreOrder (@emits W P).
Proof.
  split.
  - intros s. split; [done|]. exists []. by rewrite app_nil_r.
  - intros s1 s2 s3 (?&l1&?&?) (?&l2&?&?). split; [congruence|]. exists (l1 ++ l2).
    rewrite app_assoc. split; [congruence|]. by apply Forall_app.
Qed.

Lemma emits_same {W} P (s s' : RS W) : fixed (cl s') = fixed (cl s) → trace s' = trace s → emits P s s'.
Proof. intros Hf Ht. split; [done|]. exists []. by rewrite app_nil_r. Qed.

Lemma emits_on_world {W A} P (m : M W A) : keeps (emits P) (on_world m).
Proof. eapply keeps_weaken; [apply on_world_only|]. intros s s' (_&Hc&Ht). apply emits_same; by rewrite ?Hc. Qed.

Lemma emits_perform {W A} (P : Effect → Prop) e (m : M W A) : P e → keeps (emits P) (perform e m).
Proof.
  intros He. apply keeps_bind; [apply _| |intros; apply emits_on_world].
  apply keeps_modify. intros s. split; [done|]. exists [e]. split; [done|]. by constructor.
Qed.

#[export] Hint Resolve emits_on_world : keeps.
#[export] Hint Extern 1 (keeps (emits _) (perform _ _)) => by apply emits_perform : keeps.
#[export] Hint Extern 1 (keeps (emits _) (modify _)) =>
  apply keeps_modify; intros; by apply emits_same : keeps.

(** ** The deadline of a down node *)
Section down.
Context `{Platform W} `{PersistentStorage W} `{Environment} `{MapRange}.
Abbreviation R := (RS W).

Definition deadline_passed (s : R) (n : string) : Prop :=
  ∃ t, c_recoveryTime (cl s) !! n = Some t ∧ t ≤ time_now (world s).

(** A deadline set now has not passed. *)
Lemma recoveryTime_elapsed n (s s' : R) :
  - recovery_grace < AutoFailoverTimeout (c_settings (cl s)) →
  hasMemberRecoveryTimeElapsed n s = (Ok true, s') → s' = s ∧ deadline_passed s n.
Proof.
  intros Htime Hrun. unfold hasMemberRecoveryTimeElapsed in Hrun.
  inv_ok Hrun. injection Hrun0 as <- <-. inv_ok Hrun. injection Hrun0 as <- <-. inv_ok Hrun.
  injection Hrun as Hb <-. apply negb_true_iff, bool_decide_eq_false in Hb. unfold deadline_passed.
  destruct (c_recoveryTime (cl s) !! n) as [t|] eqn:E.
  - injection Hrun0 as <- <-. split; [done|]. exists t. split; [done|lia].
  - inv_ok Hrun0. injection Hrun0 as <- <-. lia.
Qed.

Lemma fold_false (l : list (string * Member)) : ∀ (s s' : R) b,
  for_fold (λ recoverable (e : string * Member),
    elapsed ← hasMemberRecoveryTimeElapsed e.1; mret (elapsed && recoverable)) false l s = (Ok b, s') → b = false.
Proof.
  induction l as [|e l IH]; intros s s' b Hrun; simpl in Hrun; [by injection Hrun|].
  inv_ok Hrun. inv_ok Hrun0. injection Hrun0 as <- <-. rewrite andb_false_r in Hrun. by apply IH in Hrun.
Qed.

Lemma allDown_elapsed pos (ms : MemberSet) (s s' : R) :
  - recovery_grace < AutoFailoverTimeout (c_settings (cl s)) →
  allDownNodesRecoveryTimedout pos ms s = (Ok true, s') →
  s' = s ∧ ∀ n, is_Some (ms !! n) → deadline_passed s n.
Proof.
  intros Htime Hrun. unfold allDownNodesRecoveryTimedout in Hrun.
  assert (∀ n, is_Some (ms !! n) → ∃ m, (n, m) ∈ range pos ms) as Hin
    by (intros n [m Hm]; exists m; by apply elem_of_range_entry).
  assert (s' = s ∧ ∀ e, e ∈ range pos ms → deadline_passed s e.1) as [-> Hall].
  2: { split; [done|]. intros n (m&Hm)%Hin. by apply Hall in Hm. }
  clear Hin. revert Hrun. generalize (range pos ms). intros l.
  induction l as [|e l IH]; intros Hrun; simpl in Hrun.
  { injection Hrun as <-. split; [done|]. intros e He. by apply not_elem_of_nil in He. }
  inv_ok Hrun. inv_ok Hrun0. injection Hrun0 as <- <-. destruct a0.
  - apply recoveryTime_elapsed in Hrun1 as [-> He]; [|done]. apply IH in Hrun as [-> Hl].
    split; [done|]. intros e' [->|?]%elem_of_cons; [done|by apply Hl].
  - simpl in Hrun. by apply fold_false in Hrun.
Qed.

(** ** No failover but at the end *)
Definition no_failover (e : Effect) : Prop := match e with FailoverForced _ _ => False | _ => True end.

Lemma no_failover_in l nodes b : Forall no_failover l → FailoverForced nodes b ∈ l → False.
Proof. rewrite Forall_forall. intros Hl Hin. by apply Hl in Hin. Qed.

Lemma policy_fixed (s s' : R) : fixed (cl s') = fixed (cl s) → policy s' = policy s.
Proof. intros [= _ Hs _ _ _]. unfold policy, GetRecoveryPolicy. by rewrite Hs. Qed.

Lemma emits_persist : keeps (emits no_failover) (persistRecoveryTimestamps (W := W)).
Proof. unfold persistRecoveryTimestamps, persist_times. keeps_tac. Qed.

Lemma emits_recreatePod m b : keeps (emits no_failover) (recreatePod (W := W) m b).
Proof. unfold recreatePod. keeps_tac. Qed.
#[local] Hint Resolve emits_persist emits_recreatePod : keeps.

Lemma emits_recover_loop l : ∀ n, keeps (emits no_failover) (recover_loop (W := W) l n).
Proof.
  induction l as [|[name m] l IH]; intros n; simpl; [keeps_tac|].
  unfold recover_down, note_attempt, note_success. keeps_tac.
Qed.

(** The nodes a forced failover names. *)
Definition down_or_failed (r : ReconcileMachine) (otp : string) : Prop :=
  ∃ n m, (DownNodes (couchbase r) !! n = Some m ∨ FailedNodes (couchbase r) !! n = Some m) ∧ otp = GetOTPNode m.

Lemma recovering_nodes (down : MemberSet) (l : list string) : ∀ acc (s s' : R) otps,
  for_fold (λ acc name, otp ← failover_node down name; mret (acc ++ [otp])) acc l s = (Ok otps, s') →
  ∃ new, otps = acc ++ new ∧ length new = length l ∧
    ∀ otp, otp ∈ new → ∃ n m, down !! n = Some m ∧ otp = GetOTPNode m.
Proof.
  induction l as [|name l IH]; intros acc s s' otps Hrun; simpl in Hrun.
  { injection Hrun as <- <-. exists []. rewrite app_nil_r. split; [done|]. split; [done|].
    intros otp Ho. by apply not_elem_of_nil in Ho. }
  inv_ok Hrun. inv_ok Hrun0. injection Hrun0 as <- <-. unfold failover_node in Hrun1. inv_ok Hrun1.
  destruct (down !! name) as [m|] eqn:E; [|done]. injection Hrun1 as <- <-.
  apply IH in Hrun as (new&->&Hlen&Hnew). exists (GetOTPNode m :: new). rewrite <- app_assoc. simpl.
  split; [done|]. split; [by rewrite Hlen|].
  intros otp [->|Ho]%elem_of_cons; [by exists name, m|by apply Hnew].
Qed.

Lemma failover_down_effects pos r nodesToRecover (s : R) :
  policy s = PrioritizeDataIntegrity ∨ policy s = PrioritizeUptime →
  (policy s = PrioritizeDataIntegrity → nodesToRecover = []) →
  ∃ l, trace (failover_down pos r nodesToRecover s).2 = trace s ++ l ∧
    ∀ nodes b, FailoverForced nodes b ∈ l →
      policy s = PrioritizeUptime ∧ b = true ∧ ∀ otp, otp ∈ nodes ↔ down_or_failed r otp.
Proof.
  intros Hpol Hnone. unfold failover_down.
  set (gather := for_fold _ _ _).
  assert (keeps (emits no_failover) gather) as Hg by (unfold gather, failover_node; keeps_tac).
  unfold mbind at 1, M_bind at 1. specialize (Hg s).
  destruct (gather s) as [[otps|e|] s1] eqn:E; cbn [snd] in *; destruct Hg as (Hfix&l1&Ht1&Hl1).
  2-3: exists l1; split; [done|]; intros nodes b Hin; by apply no_failover_in in Hin.
  apply recovering_nodes in E as (new&->&Hlen&Hnew). cbn [app].
  unfold mbind at 1, M_bind at 1, get. rewrite <- (policy_fixed _ _ Hfix) in Hpol, Hnone |- *.
  case_bool_decide as Hlen0.
  2: { exists l1. split; [done|]. intros nodes b Hin. by apply no_failover_in in Hin. }
  set (nodes := new ++ _) in *.
  assert (trace ((perform (FailoverForced nodes true) (cb_Failover nodes true (getMigratingReadyTarget (cl s1)));;
    abort "pods are failing over") s1).2 = trace s ++ (l1 ++ [FailoverForced nodes true])) as ->.
  { rewrite app_assoc, <- Ht1. unfold perform, on_world, zoom, modify, mbind, M_bind, log_effect, abort. simpl.
    by destruct (cb_Failover _ _ _ _) as [[]]. }
  eexists. split; [done|]. intros nodes' b [Hin|Hin]%elem_of_app; [by apply no_failover_in in Hin|].
  apply list_elem_of_singleton in Hin. injection Hin as -> ->.
  destruct Hpol as [Hp|Hp].
  { exfalso. unfold nodes in Hlen0. rewrite Hnone in Hlen by done. rewrite Hp in Hlen0. simpl in Hlen.
    destruct new; [simpl in Hlen0; lia|done]. }
  split; [done|]. split; [done|]. intros otp. unfold nodes, down_or_failed. rewrite Hp.
  rewrite bool_decide_eq_true_2 by done. rewrite !elem_of_app, !list_elem_of_fmap. split.
  - intros [Ho|[([n m]&->&Hin%elem_of_range_entry)|([n m]&->&Hin%elem_of_range_entry)]].
    + apply Hnew in Ho as (n&m&?&?). exists n, m. auto.
    + exists n, m. auto.
    + exists n, m. auto.
  - intros (n&m&[Hn|Hn]&->); right; [left|right]; exists (n, m); (split; [done|by apply elem_of_range_entry]).
Qed.

(** Once the cluster is noted as unavailable, which is when the deadlines are looked at. *)
Definition unavailable_noted (s : R) : R :=
  ((set_status_now (λ now, SetUnavailableCondition now (Names (DownNodes (couchbase (fsm s)))));; updateCRStatus) s).2.

(** Every down node had a deadline in [s0], which had passed then. *)
Definition deadlines_passed (s0 : R) : Prop :=
  ∀ n, is_Some (DownNodes (couchbase (fsm s0)) !! n) →
    ∃ t, c_recoveryTime (cl s0) !! n = Some t ∧ t ≤ time_now (world (unavailable_noted s0)).

(** The claim on a run from [s0] to [s]. *)
Definition failover_justified (s0 s : R) : Prop :=
  ∃ l, trace s = trace s0 ++ l ∧
    ∀ nodes b, FailoverForced nodes b ∈ l →
      policy s0 = PrioritizeUptime ∧ b = true ∧
      deadlines_passed s0 ∧
      ∀ otp, otp ∈ nodes ↔ down_or_failed (fsm s0) otp.

Lemma emits_justified (s0 s : R) : emits no_failover s0 s → failover_justified s0 s.
Proof. intros (_&l&Ht&Hl). exists l. split; [done|]. intros nodes b Hin. by apply no_failover_in in Hin. Qed.

(** What the status setters and the status leave alone. *)
Definition same_times (s s' : R) : Prop :=
  c_recoveryTime (cl s') = c_recoveryTime (cl s) ∧ c_settings (cl s') = c_settings (cl s) ∧ fsm s' = fsm s.

Lemma unavailable_run (down : list string) (s s1 s2 : R) u v :
  set_status_now (λ now, SetUnavailableCondition now down) s = (Ok u, s1) → updateCRStatus s1 = (Ok v, s2) →
  emits no_failover s s2 ∧ same_times s s2.
Proof.
  intros [= <- <-] Hup. apply (keeps_run only_world) in Hup as (Hf&Hc&Ht); [|apply updateCRStatus_only].
  split; [apply emits_same; [by rewrite Hc|by rewrite Ht]|]. unfold same_times. by rewrite Hc, Hf.
Qed.

Lemma handleDownNodes_justified pos (s : R) :
  - recovery_grace < AutoFailoverTimeout (c_settings (cl s)) →
  policy s = PrioritizeDataIntegrity ∨ policy s = PrioritizeUptime →
  failover_justified s (handleDownNodes pos s).2.
Proof.
  intros Htime Hpol. unfold handleDownNodes.
  apply (bind_state (failover_justified s)); [by apply emits_justified|]. intros r s1 [= <- <-] Hs.
  destruct (Empty (DownNodes (couchbase (fsm s)))); [done|].
  apply bind_state; [apply emits_justified; by apply emits_same|]. intros u s1 Hset _.
  apply bind_state.
  { destruct (updateCRStatus_only s1) as (_&Hc&Ht). injection Hset as _ <-.
    apply emits_justified, emits_same; [by rewrite Hc|by rewrite Ht]. }
  intros v s2 Hup _. destruct (unavailable_run _ _ _ _ _ _ Hset Hup) as [Hem (Htimes&Hset'&Hfsm)].
  assert (keeps (emits no_failover) (allDownNodesRecoveryTimedout (W := W) (0%nat :: pos) (DownNodes (couchbase (fsm s)))))
    as Hall by (unfold allDownNodesRecoveryTimedout, hasMemberRecoveryTimeElapsed; keeps_tac).
  apply bind_state; [apply emits_justified; etrans; [exact Hem|apply Hall]|]. intros timedout s3 Hdown _.
  pose proof (keeps_run _ _ _ _ _ Hall Hdown) as Hem3.
  destruct timedout; cbn [negb].
  2: { apply emits_justified. etrans; [exact Hem|]. etrans; [exact Hem3|]. by apply emits_same. }
  apply allDown_elapsed in Hdown as [-> Hpassed]; [|by rewrite Hset'].
  apply bind_state; [by apply emits_justified|]. intros s3 s4 [= <- <-] Hs2.
  pose proof (policy_fixed _ _ (proj1 Hem)) as Hpol2.
  set (nodesToRecover := (filter _ (range (1%nat :: pos) _)).*1).
  set (manual := (filter _ (range (2%nat :: pos) _)).*1 ++ nodesToRecover).
  destruct (bool_decide (policy s2 = PrioritizeDataIntegrity) && _) eqn:Emanual.
  { apply emits_justified. etrans; [exact Hem|]. by apply emits_same. }
  apply bind_state.
  { apply emits_justified. etrans; [exact Hem|apply emits_recover_loop]. }
  intros recovered s4 Hloop _.
  pose proof (keeps_run _ _ _ _ _ (emits_recover_loop _ _) Hloop) as Hem4.
  assert (emits no_failover s s4) as Hem' by (etrans; [exact Hem|done]).
  destruct recovered as [[|k]|]; [|by apply emits_justified; etrans; [exact Hem'|by apply emits_same]|by apply emits_justified].
  pose proof (policy_fixed _ _ (proj1 Hem')) as Hpol4.
  destruct (failover_down_effects (4%nat :: pos) (fsm s) nodesToRecover s4) as (l&Hl&Hforced).
  { by rewrite Hpol4. }
  { intros Hp. rewrite Hpol2, <- Hpol4, Hp in Emanual. rewrite bool_decide_eq_true_2 in Emanual by done.
    apply bool_decide_eq_false in Emanual. unfold manual in Emanual. rewrite length_app in Emanual.
    apply length_zero_iff_nil. lia. }
  destruct Hem' as (_&l1&Ht1&Hl1). exists (l1 ++ l). split; [by rewrite Hl, Ht1, app_assoc|].
  intros nodes b [Hin|Hin]%elem_of_app; [by apply no_failover_in in Hin|].
  destruct (Hforced nodes b Hin) as (Hp&Hb&Hn). rewrite Hpol4 in Hp. split; [done|]. split; [done|].
  split; [|done]. intros n Hdown. destruct (Hpassed n Hdown) as (t&Ht&?).
  exists t. rewrite <- Htimes. split; [done|].
  assert (unavailable_noted s = s2) as -> by (unfold unavailable_noted, mbind, M_bind; by rewrite Hset, Hup). done.
Qed.

(** C4: [handleDownNodes] forces a failover only as a last resort: when it asks for an
    unsafe failover, the recovery policy is to prioritize uptime (never data
    integrity), every down node had a deadline noted in an earlier cycle, which had
    passed when this run had noted the cluster as unavailable, and the nodes named are
    exactly the down and the failed ones: also those whose pods were just created again,
    which the comment in the code leaves out.  (An upgrade in place forces failovers of
    its own, whatever the policy.)  The automatic failover timeout is more than minus
    half a minute. *)
Theorem handleDownNodes_failover pos (s : R) l nodes allowUnsafe
    (Htime : - recovery_grace < AutoFailoverTimeout (c_settings (cl s)))
    (Hpolicy : policy s = PrioritizeDataIntegrity ∨ policy s = PrioritizeUptime)
    (Htrace : trace (handleDownNodes pos s).2 = trace s ++ l) (Hforced : FailoverForced nodes allowUnsafe ∈ l) :
  policy s = PrioritizeUptime ∧ allowUnsafe = true ∧
  deadlines_passed s ∧
  ∀ otp, otp ∈ nodes ↔ down_or_failed (fsm s) otp.
Proof.
  destruct (handleDownNodes_justified pos s Htime Hpolicy) as (l'&Hl'&Hj).
  rewrite Hl' in Htrace. apply app_inv_head in Htrace. subst. by eapply Hj.
Qed.
End down.

(** A cluster that prioritizes uptime; [cb-0000] is down, its deadline has passed,
    its volume is healthy, and an earlier cycle recreated its pod, which waits to be
    initialised. *)
Definition uptime_spec : ClusterSpec :=
  let spec := sim_spec 2 in
  {| cs_Image := "couchbase/server:7.2.5"; cs_EnvImagePrecedence := false;
     cs_Servers := [{| sc_Size := 2; sc_Name := "data"; sc_Services := ["data"]; sc_ServerGroups := [];
                       sc_VolumeMounts := Some {| DefaultClaim := "couchbase"; DataClaim := ""; IndexClaim := "";
                                                  AnalyticsClaims := None; LogsClaim := "" |};
                       sc_Image := ""; sc_NodeSelector := None; sc_AutoscaleEnabled := false |}];
     cs_ServerGroups := []; cs_ServerGroupsLabelOverride := ""; cs_ShuffleServerGroups := false;
     cs_RecoveryPolicy := Some PrioritizeUptime; cs_UpgradeProcess := None; cs_UpgradeStrategy := None;
     cs_RollingUpgrade := None; cs_Upgrade := None; cs_EnableOnlineVolumeExpansion := false;
     cs_UnmanagedClusterHost := None;
  cs_Paused := false; cs_Hibernate := false |}.

Definition down_pods : list KPod :=
  [sim_pod 0 "data" [mark PodPendingInitializationCondition]; sim_pod 1 "data" []].

Definition down_pvc : PVC :=
  mkPVC "cb-0000-default-00" {[LabelNode := "cb-0000"]}
    (Some {[AnnotationVolumeMountPath := couchbaseVolumeDefaultConfigDir]}) ClaimBound false (mkPVCSpec None None [] "") ∅ [].

Definition down_state : RS Sim :=
  let c := sim_cluster 2 down_pods in
  let m := pod_member (sim_pod 0 "data" []) in
  mkRS
    (mkMachine (c_members c) (c_members c) ∅ ∅ ∅ ∅ ∅ false
       (mkMemberState ∅ ∅ ∅ ∅ ∅ {[Name m := m]} ∅ ∅ false false) ∅ "" 1 false)
    (mkCluster
       {| Namespace := "ns"; Api.Name := "cb"; Spec := uptime_spec; Status := Status (c_cluster c) |}
       (c_networking c) (c_settings c) (c_UID c) (c_members c) (c_callableMembers c) {["cb-0000" := 5]} ∅ ∅ ∅)
    (mkSim down_pods (mkClusterInfo (sim_node 1 "active" :: [sim_node 0 "active"]) "none" true [] [] ∅) [] ∅ 10 [down_pvc])
    [].

(** The pod being recovered is failed over all the same. *)
Lemma handleDownNodes_failover_witness :
  recoverable (H1 := const None) down_state (pod_member (sim_pod 0 "data" [])) = true ∧
  already_recreated (world down_state) "cb-0000" = true ∧
  policy down_state = PrioritizeUptime ∧
  ∀ otp, otp ∈ ["ns_1@cb-0000.cb.ns.svc"] ↔ down_or_failed (fsm down_state) otp.
Proof.
  split; [vm_compute; reflexivity|]. split; [vm_compute; reflexivity|].
  destruct (handleDownNodes_failover (H1 := const None) (H2 := canonical_range) [] down_state
    [FailoverForced ["ns_1@cb-0000.cb.ns.svc"] true] ["ns_1@cb-0000.cb.ns.svc"] true) as (Hp&_&_&Hn).
  - vm_compute. reflexivity.
  - right. reflexivity.
  - vm_compute. reflexivity.
  - left.
  - split; [exact Hp|exact Hn].
Defined.
