(* ===== verification/ScalingSpec.v ===== *)
(** * Scaling converges

    A scale down that is carried out leaves every class of the specification with no
    more members than asked for, and takes members the scheduler and the cluster
    agree on; a scale up asks for exactly what is missing. *)

From S2P Require Import Prelude Effects GoLib Api Member Persistence Status UpgradeOrder.
From S2P Require Import ServerGroups Scheduler NullScheduler RollingUpgrade NodeStatus Pods Volumes.
From S2P Require Import Machine Rebalance Recovery Scaling Sim MachineSpec RebalanceSpec.
Local Open Scope Z_scope.

(** ** The members of a class *)
Definition of_class (class : string) (ms : MemberSet) : MemberSet := filter (λ e, Config e.2 = class) ms.
Definition class_names (class : string) (ms : MemberSet) : list string := (map_to_list (of_class class ms)).*1.

Lemma of_class_lookup class ms n m : of_class class ms !! n = Some m ↔ ms !! n = Some m ∧ Config m = class.
Proof. unfold of_class. by rewrite map_lookup_filter_Some. Qed.

Lemma GroupBy_filter (f : Member → bool) (ms : MemberSet) :
  keyed ms → GroupBy f ms = filter (λ e, f e.2 = true) ms.
Proof.
  intros Hk. apply map_eq. intros n. apply option_eq. intros m. unfold GroupBy.
  rewrite add_all_spec, map_lookup_filter_Some, lookup_empty, list_elem_of_filter, elem_of_members.
  - split; [intros [[[Hf [n' Hn]] <-]|[_ ?]]; [|done]|].
    + by rewrite (Hk _ _ Hn).
    + intros [Hn Hf]. left. split; [|by apply Hk]. split; [done|]. by exists n.
  - intros x y [_ Hx]%list_elem_of_filter [_ Hy]%list_elem_of_filter Heq.
    apply elem_of_members in Hx as [i Hi], Hy as [j Hj].
    pose proof (Hk _ _ Hi) as Hni. pose proof (Hk _ _ Hj) as Hnj.
    assert (i = j) as -> by congruence. congruence.
Qed.

Lemma GroupByServerConfig_class class (ms : MemberSet) :
  keyed ms → GroupByServerConfig class ms = of_class class ms.
Proof.
  intros Hk. transitivity (GroupBy (in_class class) ms).
  - unfold GroupBy, GroupByServerConfig. f_equal. apply list_filter_iff. intros m. unfold in_class.
    by rewrite bool_decide_eq_true.
  - rewrite GroupBy_filter by done. apply map_filter_ext. intros n m _. unfold in_class. simpl.
    by rewrite bool_decide_eq_true.
Qed.

Lemma class_names_delete class (ms : MemberSet) n m :
  ms !! n = Some m →
  class_names class ms ≡ₚ (if decide (Config m = class) then [n] else []) ++ class_names class (delete n ms).
Proof.
  intros Hn. unfold class_names, of_class. rewrite map_filter_delete. case_decide as Hc.
  - assert (filter (λ e : string * Member, Config e.2 = class) ms !! n = Some m) as Hf
      by (by apply map_lookup_filter_Some).
    by rewrite <- (map_to_list_delete _ n m Hf).
  - rewrite delete_id; [done|]. apply map_lookup_filter_None. right. intros x Hx. rewrite Hn in Hx.
    by injection Hx as <-.
Qed.

Lemma class_names_elem class (ms : MemberSet) n :
  n ∈ class_names class ms ↔ ∃ m, ms !! n = Some m ∧ Config m = class.
Proof.
  unfold class_names. rewrite list_elem_of_fmap. split.
  - intros ([n' m]&->&Hin%elem_of_map_to_list%of_class_lookup). by exists m.
  - intros (m&Hm). exists (n, m). split; [done|]. by apply elem_of_map_to_list, of_class_lookup.
Qed.

Lemma class_names_length class (ms : MemberSet) : length (class_names class ms) = size (of_class class ms).
Proof. unfold class_names. by rewrite length_fmap, length_map_to_list. Qed.

Section removal.
Context `{Platform W} `{PersistentStorage W} `{Environment} `{MapRange} `{SchedulerLaws Sc}.
Abbreviation R := (RS W).
Abbreviation FS := (R * Sc)%type.

(** The scheduler knows of the classes [l] the members the machine has clustered,
    and all of those are members of the cluster. *)
Record in_step (l : list string) (s : R) (sc : Sc) : Prop := {
  is_valid : valid sc;
  is_pods class : class ∈ l → pods class sc ≡ₚ class_names class (clusteredMembers (fsm s));
  is_members n m : clusteredMembers (fsm s) !! n = Some m → c_members (cl s) !! n = Some m;
  is_keyed : keyed (clusteredMembers (fsm s));
}.

(** What a scale down has moved from the clustered members to those to eject. *)
Record moved (r r' : ReconcileMachine) : Prop := {
  mv_others n : clusteredMembers r !! n = None →
    clusteredMembers r' !! n = None ∧ ejectMembers r' !! n = ejectMembers r !! n;
  mv_clustered n m : clusteredMembers r !! n = Some m →
    clusteredMembers r' !! n = Some m ∨ (clusteredMembers r' !! n = None ∧ ejectMembers r' !! n = Some m);
}.

Lemma moved_trans r1 r2 r3 : moved r1 r2 → moved r2 r3 → moved r1 r3.
Proof.
  intros [H12 H12'] [H23 H23']. split.
  - intros n Hn. apply H12 in Hn as [Hn He]. rewrite <- He. by apply H23.
  - intros n m [Hn|[Hn He]]%H12'; [by apply H23'|]. right. apply H23 in Hn as [? ->]. done.
Qed.

Lemma moved_one r n m : clusteredMembers r !! n = Some m → Name m = n → moved r (removeMemberUser_fsm m r).
Proof.
  intros Hcl Hname. split; cbn [clusteredMembers ejectMembers removeMemberUser_fsm removeMemberNoEject_fsm
    set_needsRebalance set_eject set_running set_clustered]; unfold Remove, Add; rewrite Hname.
  - intros k Hk. assert (n ≠ k) by congruence. by rewrite lookup_delete_ne, lookup_insert_ne.
  - intros k x Hk. destruct (decide (n = k)) as [->|?].
    + right. rewrite lookup_delete_eq, lookup_insert_eq. split; [done|congruence].
    + left. by rewrite lookup_delete_ne.
Qed.

Lemma remove_one_ok l pos serverSpec (s s' : R) (sc sc' : Sc) u :
  in_step l s sc → sc_Name serverSpec ∈ l →
  remove_one pos serverSpec (s, sc) = (Ok u, (s', sc')) →
  ∃ n m, clusteredMembers (fsm s) !! n = Some m ∧ Config m = sc_Name serverSpec ∧
    fsm s' = removeMemberUser_fsm m (fsm s) ∧ Name m = n ∧ c_members (cl s') = c_members (cl s) ∧
    in_step l s' sc'.
Proof.
  intros [Hv Hp Hm Hk] Hin Hrun. unfold remove_one in Hrun.
  apply bind_ok in Hrun as (server&[s1 sc1]&Hdel&Hrun).
  apply bind_ok in Hrun as ([]&[s2 sc2]&Hmark&Hrun). apply bind_ok in Hrun as (c&[s3 sc3]&[= <- <- <-]&Hrun).
  unfold on_scheduler, zoom in Hdel. cbn [fst snd] in Hdel.
  pose proof (Delete_spec pos (sc_Name serverSpec) sc Hv) as Hlaw.
  destruct (Delete pos (sc_Name serverSpec) sc) as [res sc1'] eqn:Ed. injection Hdel as -> <- <-.
  destruct Hlaw as (Hv1&_&_&(_&Hpods)&Hother). unfold on_rs, zoom in Hmark. cbn [fst snd] in Hmark.
  destruct (on_world (SetPodPendingEjection server) s) as [res s2'] eqn:Ew. injection Hmark as -> <- <-.
  apply (keeps_run only_world) in Ew as (Hf&Hc&_); [|apply on_world_only].
  rewrite Hc in Hrun. assert (server ∈ class_names (sc_Name serverSpec) (clusteredMembers (fsm s))) as Hs
    by (rewrite <- Hp by done; rewrite Hpods; by left).
  apply class_names_elem in Hs as (m&Hcl&Hconf). rewrite (Hm _ _ Hcl) in Hrun.
  unfold on_rs, zoom, removeMemberUser, modify in Hrun. cbn [fst snd] in Hrun. injection Hrun as <- Hsc. subst.
  assert (Name m = server) as Hname by (by apply Hk).
  exists server, m. cbn [fsm cl set_fsm]. rewrite Hf, Hc.
  split; [done|]. split; [done|]. split; [done|]. split; [done|]. split; [done|].
  split; cbn [fsm cl set_fsm]; rewrite ?Hf, ?Hc; [done|..]; cbn [clusteredMembers removeMemberUser_fsm
    removeMemberNoEject_fsm set_needsRebalance set_eject set_running set_clustered]; rewrite Hname; unfold Remove.
  - intros class Hclass. pose proof (class_names_delete class _ _ _ Hcl) as Hd.
    rewrite <- Hp in Hd by done. case_decide as Hcc.
    + rewrite Hconf in Hcc. subst class. rewrite Hpods in Hd. by apply Permutation_cons_inv in Hd.
    + rewrite <- Hother in Hd by congruence. done.
  - intros n x [_ Hx]%lookup_delete_Some. by apply Hm.
  - intros n x [_ Hx]%lookup_delete_Some. by apply Hk.
Qed.

Definition count (class : string) (l : list ServerConfig) : nat :=
  length (filter (λ sc, sc_Name sc = class) l).

Lemma remove_all_ok l pos deletions : ∀ (s s' : R) (sc sc' : Sc) u,
  in_step l s sc → Forall (λ x, sc_Name x ∈ l) deletions →
  remove_all pos deletions (s, sc) = (Ok u, (s', sc')) →
  in_step l s' sc' ∧ moved (fsm s) (fsm s') ∧
  ∀ class, size (of_class class (clusteredMembers (fsm s))) =
    (count class deletions + size (of_class class (clusteredMembers (fsm s'))))%nat.
Proof.
  induction deletions as [|x deletions IH]; intros s s' sc sc' u Hin Hall Hrun; simpl in Hrun.
  { injection Hrun as _ <- <-. split; [done|]. split; [|done]. split; [done|by left]. }
  apply Forall_cons in Hall as [Hx Hall]. apply bind_ok in Hrun as ([]&[s1 sc1]&Hone&Hrun).
  apply (remove_one_ok l) in Hone as (n&m&Hcl&Hconf&Hf&Hname&_&Hin1); [|done|done].
  apply IH in Hrun as (Hin2&Hmoved&Hcount); [|done|done]. split; [done|]. rewrite Hf in Hmoved, Hcount.
  split; [by eapply moved_trans, Hmoved; apply (moved_one _ n)|].
  intros class. pose proof (class_names_delete class _ _ _ Hcl) as Hd. apply Permutation_length in Hd.
  rewrite length_app, !class_names_length in Hd. specialize (Hcount class).
  cbn [clusteredMembers removeMemberUser_fsm removeMemberNoEject_fsm set_needsRebalance set_eject
    set_running set_clustered] in Hcount. rewrite Hname in Hcount. unfold Remove in Hcount.
  unfold count in *. rewrite filter_cons, Hd, Hcount, Hconf. destruct (decide (sc_Name x = class)); simpl; lia.
Qed.

(** *** The plan *)
Definition same_topology (f f' : FS) : Prop :=
  fsm f'.1 = fsm f.1 ∧ cl f'.1 = cl f.1 ∧
  (valid f.2 → valid f'.2 ∧ ∀ c, pods c f'.2 = pods c f.2).

#[local] Instance same_topology_preorder : PreOrder same_topology.
Proof.
  split; [by intros f|]. intros f1 f2 f3 (?&?&H12) (?&?&H23). split; [congruence|]. split; [congruence|].
  intros Hv. apply H12 in Hv as [Hv Hp]. apply H23 in Hv as [Hv Hp']. split; [done|]. intros c. by rewrite Hp'.
Qed.

Lemma on_rs_topology {A} (m : M R A) : keeps only_world m → keeps same_topology (on_rs (Sc := Sc) m).
Proof.
  intros Hm [s sc]. unfold same_topology, on_rs, zoom. cbn [fst snd]. destruct (Hm s) as (?&?&_).
  by destruct (m s).
Qed.

Lemma enqueue_topology class names : keeps same_topology (on_scheduler (W := W) (EnQueueRemovals class names)).
Proof.
  intros [s sc]. unfold same_topology, on_scheduler, zoom. cbn [fst snd].
  pose proof (EnQueueRemovals_spec class names sc) as Hlaw. destruct (EnQueueRemovals class names sc) as [r sc'].
  cbn [fst snd]. split; [done|]. split; [done|]. intros Hv. by destruct (Hlaw Hv) as (_&?&_&?).
Qed.
#[local] Hint Resolve enqueue_topology : keeps.
#[local] Hint Extern 1 (keeps same_topology (on_rs _)) => apply on_rs_topology; keeps_tac : keeps.

Context (fs : list (list nat → M R MemberSet)) {Size : Type} (lt ne : Size → Size → bool) (size_of : W → string → Size).
Context (Hfs : Forall (λ f, ∀ p, keeps only_world (f p)) fs).

Lemma populate_topology pos class ms :
  keeps same_topology (populateRemovalQueuePerServerClass (Sc := Sc) fs lt ne size_of pos class ms).
Proof.
  assert (∀ p clustered queue prio, keeps only_world (queue_candidates p clustered fs queue prio)) as Hqueue.
  { clear pos. induction Hfs as [|f fs' Hf Hfs' IH]; intros p clustered queue prio; simpl; [keeps_tac|].
    apply keeps_bind; [apply _|done|]. intros a. by apply IH. }
  unfold populateRemovalQueuePerServerClass. keeps_tac.
Qed.
#[local] Hint Resolve populate_topology : keeps.

Lemma removals_ok pos r servers : ∀ (f f' : FS) plan,
  removals fs lt ne size_of pos r servers f = (Ok plan, f') →
  same_topology f f' ∧ plan.1 = concat ((λ x, replicate (Z.to_nat (surplus r x)) x) <$> servers).
Proof.
  induction servers as [|x servers IH]; intros f f' plan Hrun; simpl in Hrun; [by injection Hrun as <- <-|].
  apply bind_ok in Hrun as (c&f1&Hc&Hrun). apply bind_ok in Hrun as (u&f2&Hpop&Hrun).
  apply bind_ok in Hrun as (rest&f3&Hrest&Hrun). apply IH in Hrest as [Ht Hplan].
  assert (same_topology f f2) as H02.
  { etrans; [eapply keeps_run; [|exact Hc]; auto with keeps|].
    eapply keeps_run; [|exact Hpop]. keeps_tac. }
  case_bool_decide as Hsur; injection Hrun as <- <-; (split; [by etrans|]); cbn [fmap list_fmap concat fst].
  - assert (Z.to_nat (surplus r x) = 0%nat) as -> by lia. done.
  - by rewrite Hplan.
Qed.

Lemma plan_count servers r class :
  NoDup (sc_Name <$> servers) →
  count class (concat ((λ x, replicate (Z.to_nat (surplus r x)) x) <$> servers)) =
  match list_find (λ x, sc_Name x = class) servers with
  | Some (_, x) => Z.to_nat (surplus r x)
  | None => 0%nat
  end.
Proof.
  unfold count. induction servers as [|x servers IH]; intros Hnd; [done|].
  cbn [fmap list_fmap concat] in *. apply NoDup_cons in Hnd as [Hx Hnd].
  rewrite filter_app, length_app, (IH Hnd). cbn [list_find]. case_decide as Hc.
  - destruct (list_find _ servers) as [[i y]|] eqn:E.
    + apply list_find_Some in E as (Hi&Hy&_). exfalso. apply Hx. rewrite Hc, <- Hy. apply list_elem_of_fmap.
      exists y. split; [done|]. by eapply list_elem_of_lookup_2.
    + rewrite Nat.add_0_r. clear -Hc. generalize (Z.to_nat (surplus r x)). intros n.
      induction n as [|n IHn]; [done|]. cbn [replicate]. rewrite filter_cons, decide_True by done. simpl. by rewrite IHn.
  - assert (length (filter (λ y, sc_Name y = class) (replicate (Z.to_nat (surplus r x)) x)) = 0%nat) as ->.
    { generalize (Z.to_nat (surplus r x)). intros n. induction n as [|n IHn]; [done|].
      cbn [replicate]. by rewrite filter_cons, decide_False by done. }
    simpl. by destruct (list_find _ servers) as [[? ?]|].
Qed.

Lemma in_step_topology l (f f' : FS) : same_topology f f' → in_step l f.1 f.2 → in_step l f'.1 f'.2.
Proof.
  intros (Hf&Hc&Hp) [Hv Hpods ? ?]. destruct (Hp Hv) as [Hv' Hp'].
  split; rewrite ?Hf, ?Hc; try done. intros class Hin. rewrite Hp'. by apply Hpods.
Qed.

Lemma moved_refl r : moved r r.
Proof. split; [done|by left]. Qed.

Lemma surplus_exact (r : ReconcileMachine) x :
  keyed (clusteredMembers r) → 0 ≤ sc_Size x < 2 ^ 63 → Z.of_nat (size (clusteredMembers r)) < 2 ^ 63 →
  surplus r x = Z.of_nat (size (of_class (sc_Name x) (clusteredMembers r))) - sc_Size x.
Proof.
  intros Hk Hx Hs. unfold surplus, Member.Size. rewrite GroupByServerConfig_class by done.
  apply wrap64_id. unfold MinInt, MaxInt.
  assert (size (of_class (sc_Name x) (clusteredMembers r)) ≤ size (clusteredMembers r))%nat; [|lia].
  apply map_size_filter.
Qed.

(** C3: a scale down converges and loses nobody: when [handleRemoveNode] ends well,
    the scheduler and the machine still agree on the members of every class, each
    member that was clustered is still clustered or is now to be ejected, and
    unless the step was held back (nodes are being recovered, or gateway instances
    are to be preserved) every class of the specification is left with exactly the
    smaller of its size so far and the size asked for.  It starts from a machine
    and a scheduler that agree. *)
Theorem handleRemoveNode_converges pos (s s' : R) (sc sc' : Sc) u
    (Hstep : in_step (sc_Name <$> cs_Servers (Spec (c_cluster (cl s)))) s sc)
    (Hclasses : NoDup (sc_Name <$> cs_Servers (Spec (c_cluster (cl s)))))
    (Hsizes : Forall (λ x, 0 ≤ sc_Size x < 2 ^ 63) (cs_Servers (Spec (c_cluster (cl s)))))
    (Hfew : Z.of_nat (size (clusteredMembers (fsm s))) < 2 ^ 63)
    (Hrun : handleRemoveNode fs lt ne size_of pos (s, sc) = (Ok u, (s', sc'))) :
  in_step (sc_Name <$> cs_Servers (Spec (c_cluster (cl s)))) s' sc' ∧ moved (fsm s) (fsm s') ∧
  ((fsm s' = fsm s ∧ (recovering (couchbase (fsm s)) = true ∨
      0 < PreserveCNGReadyInstances (net_CloudNativeGateway (c_networking (cl s))))) ∨
   ∀ x, x ∈ cs_Servers (Spec (c_cluster (cl s))) →
     size (of_class (sc_Name x) (clusteredMembers (fsm s'))) =
     Nat.min (size (of_class (sc_Name x) (clusteredMembers (fsm s)))) (Z.to_nat (sc_Size x))).
Proof.
  set (servers := cs_Servers _) in *. unfold handleRemoveNode in Hrun.
  apply bind_ok in Hrun as (r&f&[= <- <-]&Hrun). apply bind_ok in Hrun as (c&f&[= <- <-]&Hrun).
  destruct (recovering (couchbase (fsm s))) eqn:Erec.
  { injection Hrun as _ <- <-. split; [done|]. split; [apply moved_refl|]. left. auto. }
  apply bind_ok in Hrun as (plan&[s1 sc1]&Hplan&Hrun). fold servers in Hplan.
  apply removals_ok in Hplan as [Htop Hplan]. pose proof (in_step_topology _ _ _ Htop Hstep) as Hstep1.
  destruct Htop as (Hf1&Hc1&_). cbn [fst snd] in Hf1, Hc1, Hstep1.
  assert (∀ class, count class plan.1 = match list_find (λ x, sc_Name x = class) servers with
    | Some (_, x) => Z.to_nat (surplus (fsm s) x) | None => 0%nat end) as Hcount
    by (intros class; rewrite Hplan; by apply plan_count).
  assert (∀ x, x ∈ servers → count (sc_Name x) plan.1 =
    Z.to_nat (Z.of_nat (size (of_class (sc_Name x) (clusteredMembers (fsm s)))) - sc_Size x)) as Hcx.
  { intros x Hx. rewrite Hcount. rewrite Forall_forall in Hsizes.
    destruct (list_find (λ y, sc_Name y = sc_Name x) servers) as [[i y]|] eqn:E.
    - apply list_find_Some in E as (Hi&Hy&_). apply list_elem_of_lookup_1 in Hx as [j Hj].
      assert (i = j) as ->.
      { eapply (NoDup_lookup (sc_Name <$> servers) i j (sc_Name x)); [done|by rewrite list_lookup_fmap, Hi; simpl; rewrite Hy
        |by rewrite list_lookup_fmap, Hj]. }
      assert (x = y) as -> by congruence. rewrite surplus_exact; [done|apply Hstep| |done].
      apply Hsizes. by eapply list_elem_of_lookup_2.
    - apply list_find_None in E. rewrite Forall_forall in E. by apply E in Hx. }
  case_bool_decide as Hnone.
  { injection Hrun as _ <- <-. rewrite Hf1. split; [done|]. split; [apply moved_refl|]. right. intros x Hx.
    specialize (Hcx x Hx). apply length_zero_iff_nil in Hnone. rewrite Hnone in Hcx. unfold count in Hcx.
    simpl in Hcx. rewrite Forall_forall in Hsizes. specialize (Hsizes x Hx). lia. }
  apply bind_ok in Hrun as (s1'&f&[= <- <-]&Hrun). destruct (cng_blocks s1 _) eqn:Ecng.
  { injection Hrun as _ <- <-. rewrite Hf1. split; [done|]. split; [apply moved_refl|]. left. split; [done|]. right.
    unfold cng_blocks in Ecng. rewrite Hc1 in Ecng. apply andb_true_iff in Ecng as [Ecng _].
    by apply andb_true_iff in Ecng as [?%bool_decide_eq_true _]. }
  apply bind_ok in Hrun as ([]&f&Hset&Hrun). unfold on_rs, zoom, set_status_now, modify in Hset.
  cbn [fst snd] in Hset. injection Hset as <-.
  apply (remove_all_ok (sc_Name <$> servers)) in Hrun as (Hstep2&Hmoved&Hfinal).
  - cbn [fsm set_cl] in Hmoved, Hfinal. rewrite Hf1 in Hmoved, Hfinal.
    split; [done|]. split; [done|]. right. intros x Hx. specialize (Hfinal (sc_Name x)).
    rewrite (Hcx x Hx) in Hfinal. rewrite Forall_forall in Hsizes. specialize (Hsizes x Hx). lia.
  - destruct Hstep1. by split.
  - rewrite Hplan. apply Forall_concat, Forall_fmap, Forall_forall. intros x Hx. simpl. apply Forall_replicate.
    apply list_elem_of_fmap. by exists x.
Qed.
End removal.

(** Three data members, of which the specification wants one. *)
Definition surplus_state : RS Sim :=
  let pods := [sim_pod 0 "data" []; sim_pod 1 "data" []; sim_pod 2 "data" []] in
  let c := sim_cluster 1 pods in
  mkRS (mkMachine (c_members c) (c_members c) ∅ ∅ ∅ ∅ ∅ false empty_state ∅ "" 1 false) c
    (mkSim pods (mkClusterInfo [] "none" true [] [] ∅) [] ∅ 0 []) [].

Definition surplus_scheduler : nullSchedulerImpl :=
  NullScheduler.NullScheduler
    {["data" := ServerList (class_names "data" (clusteredMembers (fsm surplus_state)))]} ∅.

Definition surplus_run : result () * (RS Sim * nullSchedulerImpl) :=
  handleRemoveNode (H1 := const None) (H2 := canonical_range) [] (λ _ _, false) (λ _ _, false) (λ _ _, tt) []
    (surplus_state, surplus_scheduler).

Lemma handleRemoveNode_converges_witness :
  surplus_run.1 = Ok tt ∧ Names (ejectMembers (fsm surplus_run.2.1)) = ["cb-0000"; "cb-0001"] ∧
  size (of_class "data" (clusteredMembers (fsm surplus_run.2.1))) = 1%nat.
Proof.
  assert (surplus_run.1 = Ok tt) as Hok by (vm_compute; reflexivity).
  split; [exact Hok|]. split; [vm_compute; reflexivity|].
  destruct (handleRemoveNode_converges (H1 := const None) (H2 := canonical_range) [] (λ _ _, false) (λ _ _, false)
    (λ _ _, tt) (Forall_nil_2 _) [] surplus_state surplus_run.2.1 surplus_scheduler surplus_run.2.2 tt) as (_&_&Hend).
  - split.
    + exact I.
    + intros class Hin. apply list_elem_of_singleton in Hin. subst class. reflexivity.
    + intros n m Hn. exact Hn.
    + apply add_all_keyed, keyed_empty.
  - apply NoDup_singleton.
  - apply Forall_singleton. split; [discriminate|reflexivity].
  - vm_compute. reflexivity.
  - transitivity (surplus_run.1, surplus_run.2); [|by rewrite Hok; destruct surplus_run.2].
    unfold surplus_run. by destruct (handleRemoveNode _ _ _ _ _ _).
  - destruct Hend as [[_ [Hrec|Hcng]]|Hend].
    + vm_compute in Hrec. discriminate Hrec.
    + vm_compute in Hcng. discriminate Hcng.
    + specialize (Hend _ (list_elem_of_here _ [])). exact Hend.
Defined.
