(* ===== verification/FailoverSpec.v ===== *)
(** * Taking a node out: what a failover that succeeded saw *)

From S2P Require Import Prelude Effects GoLib Api Member Persistence Status UpgradeOrder RollingUpgrade.
From S2P Require Import NodeStatus Pods Volumes Machine Rebalance Baseline Claims Creation Recovery PendingInit Failover.
From S2P Require Import Sim MachineSpec PendingInitSpec.
Local Open Scope Z_scope.

(** ** The counters *)
Definition failover_counters : list string :=
  [graceful_failover_start; graceful_failover_success; "failover"; "failover_complete"].

(** One graceful failover has begun and succeeded since [initial], at most one node has
    left, and nothing else that is counted has happened. *)
Record failed_over_once (initial : gmap string Z) (now : gmap string Z) : Prop := {
  fo_started : counter now graceful_failover_start = wrap64 (counter initial graceful_failover_start + 1);
  fo_succeeded : counter now graceful_failover_success = wrap64 (counter initial graceful_failover_success + 1);
  fo_kept : (size initial ≤ size now)%nat;
  fo_nodes name v : name = "failover" ∨ name = "failover_complete" → now !! name = Some v →
    v ≤ wrap64 (counter initial name + 1);
  fo_others name v : name ∉ failover_counters → now !! name = Some v → v = counter initial name;
}.

Lemma counter_ok_spec initial name v :
  counter_ok initial (name, v) = true ↔
  (name = "failover" ∨ name = "failover_complete" → v ≤ wrap64 (counter initial name + 1)) ∧
  (name ∉ failover_counters → v = counter initial name).
Proof.
  unfold counter_ok, failover_counters. simpl.
  destruct (decide (name = graceful_failover_start)) as [->|H1].
  { rewrite bool_decide_true by done. simpl. split; [intros _|done]. split; [by intros []|]. set_solver. }
  destruct (decide (name = graceful_failover_success)) as [->|H2].
  { rewrite (bool_decide_true (_ = graceful_failover_success)), orb_true_r by done. simpl. split; [intros _|done].
    split; [by intros []|]. set_solver. }
  rewrite !(bool_decide_false (_ = graceful_failover_start)), !(bool_decide_false (_ = graceful_failover_success))
    by done. simpl.
  destruct (decide (name = "failover" ∨ name = "failover_complete")) as [Hn|Hn].
  - rewrite (proj2 (orb_true_iff _ _)) by (rewrite !bool_decide_eq_true; done). rewrite bool_decide_eq_true.
    split; [intros Hv|tauto]. split; [done|]. intros Hout. destruct Hout. set_solver.
  - rewrite (proj2 (orb_false_iff _ _)) by (rewrite !bool_decide_eq_false; tauto). rewrite bool_decide_eq_true.
    split; [intros Hv; split; [done|by intros]|]. intros [_ Hv]. apply Hv. set_solver.
Qed.

Lemma judge_counters_done initial info :
  judge_counters initial info = Ok true ↔ failed_over_once initial (Counters info).
Proof.
  unfold judge_counters. set (now := Counters info). split.
  - case_bool_decide as Hs; [done|].
    case_bool_decide as Hsize; [done|]. destruct (forallb _ _) eqn:Hall; [|done]. simpl.
    destruct (_ && _); [done|]. intros [= Hok%bool_decide_eq_true].
    rewrite forallb_forall in Hall.
    assert (∀ name v, now !! name = Some v → counter_ok initial (name, v) = true) as Hc.
    { intros name v Hv. apply Hall. by apply list_elem_of_In, elem_of_map_to_list. }
    split; [done..|lia| |]; intros name v Hn Hv; specialize (Hc name v Hv); apply counter_ok_spec in Hc as [? ?]; auto.
  - intros [Hs Hok Hsize Hn Ho]. rewrite bool_decide_false by auto. rewrite bool_decide_false by lia.
    replace (forallb _ _) with true.
    2: { symmetry. apply forallb_forall. intros [name v] Hin%list_elem_of_In%elem_of_map_to_list.
         apply counter_ok_spec. split; intros; [by eapply Hn|by eapply Ho]. }
    rewrite (bool_decide_true _ Hok). simpl. by rewrite andb_false_r.
Qed.

(** ** The failover *)
Section failover.
Context `{UpgradePlatform W} `{PersistentStorage W} `{Environment} `{MapRange}.
Abbreviation R := (RS W).

Lemma until_done_ok n (callback : M W bool) : ∀ w w',
  until_done n callback w = (Ok tt, w') → ∃ w1, callback w1 = (Ok true, w').
Proof.
  induction n as [|n IH]; intros w w'; simpl; destruct (callback w) as [[[]|e|] w1] eqn:E; try done.
  - intros [= <-]. by exists w.
  - intros [= <-]. by exists w.
  - apply IH.
Qed.

Lemma for_each_lift {A} (f : A → result ()) (l : list A) (s s' : R) :
  for_each (λ x, lift (f x)) l s = (Ok tt, s') → s' = s ∧ ∀ x, x ∈ l → f x = Ok tt.
Proof.
  induction l as [|x l IH]; simpl; [intros [= <-]; split; [done|]; set_solver|].
  intros Hl. inv_ok Hl. injection Hl0 as Hx <-. destruct a. apply IH in Hl as [-> Hl]. split; [done|].
  intros y [->|Hy]%elem_of_cons; auto.
Qed.

Lemma check_node_ok c candidate node :
  check_node c candidate node = Ok tt → ni_HostName node = GetHostName candidate →
  is_Some (c_members c !! GetMemberName (ni_HostName node)) ∧ ni_Membership node = "active".
Proof.
  unfold check_node. intros Hc Hh. rewrite bool_decide_false in Hc by auto.
  case_bool_decide as Hm; [done|]. case_bool_decide as Ha; [done|].
  split; [by apply not_eq_None_Some|done].
Qed.

(** C28: a graceful failover that ends well asked once for the failover of the candidate's
    node, which was active and a member's; and the counters Couchbase showed last say,
    against those it showed first, that one graceful failover began and succeeded, that
    at most one node was failed over, and that no other rebalance or failover came
    between. *)
Theorem gracefullyFailoverNode_spec candidate (s s' : R)
    (Hrun : gracefullyFailoverNode candidate s = (Ok tt, s')) :
  ∃ first w1 w2 last,
    cb_GetPoolsDefault (single candidate) (world s) = (Ok first, w1) ∧
    cb_GetPoolsDefault (single candidate) w2 = (Ok last, world s') ∧
    (∀ node, node ∈ Nodes first → ni_HostName node = GetHostName candidate →
       is_Some (c_members (cl s) !! GetMemberName (ni_HostName node)) ∧ ni_Membership node = "active") ∧
    failed_over_once (Counters first) (Counters last) ∧
    fsm s' = fsm s ∧ cl s' = cl s ∧ trace s' = trace s ++ [GracefulFailoverAsked (GetOTPNode candidate)].
Proof.
  unfold gracefullyFailoverNode in Hrun. inv_ok Hrun. injection Hrun0 as <- <-.
  inv_ok Hrun. rename a into first. unfold on_world, zoom in Hrun0.
  destruct (cb_GetPoolsDefault _ (world s)) as [[i| |] w1] eqn:E1; try done. injection Hrun0 as <- <-.
  inv_ok Hrun. destruct a. apply for_each_lift in Hrun0 as [-> Hnodes]. inv_ok Hrun. destruct a.
  unfold perform in Hrun0. inv_ok Hrun0. injection Hrun1 as <- <-. unfold on_world, zoom in Hrun0, Hrun.
  destruct (startGracefulFailover _ _) as [r w2]. injection Hrun0 as -> <-.
  destruct (RetryUntilErrorOrSuccess _ _) as [r w3] eqn:E3. injection Hrun as -> <-.
  apply until_done_ok in E3 as [w4 E4]. unfold failover_poll in E4. inv_ok E4. rename a into last.
  injection E4 as E4 ->. exists i, w1, w4, last. split; [done|]. split; [done|].
  split; [intros node Hn; by apply check_node_ok, Hnodes|]. split; [by apply judge_counters_done|]. by repeat split.
Qed.
End failover.

(** ** An annotation that stays behind *)
Section annotations.
Context `{Platform W}.

(** One update that the API refuses is enough: the cached pod has lost the annotation by
    then, so the next try finds nothing to do. *)
Lemma removePodAnnotation_gives_up name key pod n e (w w1 : W) :
  Pods_Get w name = Some pod → kp_Annotations pod !! key ≠ None → retry_ticks w = S n →
  let pod' := drop_pod_annotation key pod in
  api_UpdatePod pod' (cache_SetPod pod' w) = (Err e, w1) →
  Pods_Get (retry_tick w1) name = Some pod' →
  removePodAnnotation name key w = (Ok tt, retry_tick w1).
Proof.
  intros Hget Hkey Hticks pod' Hrefused Hcached.
  assert (∀ w, (w0 ← get;
      match Pods_Get w0 name with
      | None => throw ErrResourceRequired
      | Some pod =>
          if bool_decide (kp_Annotations pod !! key = None) then mret tt
          else modify (cache_SetPod (drop_pod_annotation key pod));; api_UpdatePod (drop_pod_annotation key pod)
      end) w =
    match Pods_Get w name with
    | None => (Err ErrResourceRequired, w)
    | Some pod =>
        if bool_decide (kp_Annotations pod !! key = None) then (Ok tt, w)
        else api_UpdatePod (drop_pod_annotation key pod) (cache_SetPod (drop_pod_annotation key pod) w)
    end) as Hstep.
  { intros w0. unfold mbind, M_bind, get. destruct (Pods_Get w0 name) as [p|]; [|done]. by case_bool_decide. }
  unfold removePodAnnotation, retry_for. rewrite Hticks. cbn [Retry]. rewrite Hstep, Hget.
  rewrite bool_decide_false by done. change (drop_pod_annotation key pod) with pod'. rewrite Hrefused.
  destruct n; cbn [Retry]; rewrite Hstep, Hcached; rewrite bool_decide_true by apply lookup_delete_eq; done.
Qed.
End annotations.

(** The pod of an upgraded node while the API refuses updates: the first try fails, the
    second succeeds, and what the API has still says that the upgrade settles. *)
Definition tracked_pod : KPod := set_pod_annotation UpgradeTrackingAnnotation InPlaceUpgrade (sim_pod 0 "data" []).

Definition tracked (w : Two) : option string :=
  sim_find (api w) "cb-0000" ≫= λ pod, kp_Annotations pod !! UpgradeTrackingAnnotation.

Example tracking_left_behind :
  let w := mkTwo (sim_set_pods [tracked_pod] scaled_world) [tracked_pod] true in
  let first := ClearPodUpgradeTracking "cb-0000" w in
  let second := ClearPodUpgradeTracking "cb-0000" first.2 in
  first.1 = Err ErrKubernetesError ∧ second.1 = Ok tt ∧ tracked second.2 = Some InPlaceUpgrade.
Proof. vm_compute. repeat split; reflexivity. Qed.

(** ** On the simulated platform *)

(** A failover succeeds at once and counts. *)
Definition bump (names : list string) (counters : gmap string Z) : gmap string Z :=
  foldl (λ counters name, <[name := counter counters name + 1]> counters) counters names.

Definition sim_graceful (nodes : list string) (info : ClusterInfo) : ClusterInfo :=
  let info := sim_fail_over nodes info in
  mkClusterInfo (Nodes info) (ci_RebalanceStatus info) (ci_Balanced info) [] []
    (bump [graceful_failover_start; "failover"; "failover_complete"; graceful_failover_success] (Counters info)).

#[export] Instance sim_upgrades : UpgradePlatform Sim := {|
  cb_GracefulFailover nodes _ w := (Ok tt, sim_set_info (sim_graceful nodes (sim_info w)) w);
  is_unavailable _ := false;
  cb_NodeServices _ w := (Ok ["kv"], w);
  cb_ListBucketStatuses _ w := (Ok [], w);
  cb_BucketReplicas _ w := (Ok [1], w);
  time_String t := pretty t +:+ " m=+0.1";
  time_ParseRFC3339 _ := Ok 0;
  time_ParseStamp _ := Ok 0;
  compare_pods _ _ _ _ _ _ := Ok (mkComparison true ∅ ∅) |}.

(** The same next to more of a world. *)
Definition upgrades_beside {X} : UpgradePlatform (H := platform_beside) (Sim * X) := {|
  cb_GracefulFailover nodes t := in_first (cb_GracefulFailover nodes t);
  is_unavailable := is_unavailable (W := Sim);
  cb_NodeServices m := in_first (cb_NodeServices m);
  cb_ListBucketStatuses t := in_first (cb_ListBucketStatuses t);
  cb_BucketReplicas t := in_first (cb_BucketReplicas t);
  time_String := time_String (W := Sim);
  time_ParseRFC3339 := time_ParseRFC3339 (W := Sim);
  time_ParseStamp := time_ParseStamp (W := Sim);
  compare_pods w := compare_pods w.1 |}.

Lemma gracefullyFailoverNode_spec_witness :
  let m := NewMember "ns" "cb" "cb-0001" "7.2.5" "data" false "couchbase/server:7.2.5" in
  ∃ s' first last, gracefullyFailoverNode m scaled_state = (Ok tt, s') ∧
    failed_over_once first last ∧ counter last "failover" = 1 ∧
    trace s' = [GracefulFailoverAsked "ns_1@cb-0001.cb.ns.svc"].
Proof.
  intros m. destruct (gracefullyFailoverNode m scaled_state) as [r s'] eqn:E.
  assert ((gracefullyFailoverNode m scaled_state).1 = Ok tt) as Hr by (vm_compute; reflexivity).
  rewrite E in Hr. simpl in Hr. subst r.
  assert (sim_info (world s') = sim_graceful [GetOTPNode m] (sim_info (world scaled_state))) as Hw.
  { assert (world s' = world (gracefullyFailoverNode m scaled_state).2) as -> by (by rewrite E).
    vm_compute. reflexivity. }
  destruct (gracefullyFailoverNode_spec m scaled_state s' E) as (first&w1&w2&last&_&E2&_&Ho&_&_&Ht).
  exists s', (Counters first), (Counters last). split; [reflexivity|]. split; [exact Ho|]. split; [|exact Ht].
  injection E2 as <- Hs. assert (sim_info w2 = sim_info (world s')) as -> by (by rewrite <- Hs). rewrite Hw.
  vm_compute. reflexivity.
Defined.
