(* ===== verification/UpgradingSpec.v ===== *)
(** * Replacing nodes: what one upgrade step may do *)

From S2P Require Import Prelude Effects GoLib Regex Digests Version UpgradePath Api Member Persistence Status.
From S2P Require Import ServerGroups Scheduler NullScheduler UpgradeOrder RollingUpgrade NodeStatus Pods Volumes Machine Rebalance.
From S2P Require Import Baseline Claims Creation Recovery PendingInit Failover Scaling Upgrading.
From S2P Require Import Sim MachineSpec RebalanceSpec RecoverySpec CreationSpec ClaimsSpec PendingInitSpec FailoverSpec BaselineSpec.
Local Open Scope Z_scope.

(** ** Computations that do only certain things to the members

    The members stay [all], the cluster is none that is migrated, and what is asked of
    the outside satisfies [P]. *)
Definition based {W} (all : MemberSet) (s : RS W) : Prop :=
  c_members (cl s) = all ∧ cs_UnmanagedClusterHost (Spec (c_cluster (cl s))) = None.

Definition acts {W} (all : MemberSet) (P : Effect → Prop) (s s' : RS W) : Prop :=
  based all s → based all s' ∧ ∃ l, trace s' = trace s ++ l ∧ Forall P l.

#[export] Instance acts_preorder {W} all P : PreOrder (@acts W all P).
Proof.
  split.
  - intros s Hs. split; [done|]. exists []. by rewrite app_nil_r.
  - intros s1 s2 s3 H12 H23 Hs. destruct (H12 Hs) as (Hs2&l1&Ht1&Hl1).
    destruct (H23 Hs2) as (Hs3&l2&Ht2&Hl2). split; [done|]. exists (l1 ++ l2).
    rewrite app_assoc, Ht2, Ht1. split; [done|]. by apply Forall_app.
Qed.

Lemma acts_same {W} all P (s s' : RS W) :
  c_members (cl s') = c_members (cl s) →
  cs_UnmanagedClusterHost (Spec (c_cluster (cl s'))) = cs_UnmanagedClusterHost (Spec (c_cluster (cl s))) →
  trace s' = trace s → acts all P s s'.
Proof. intros Hc Hh Ht [Hs1 Hs2]. split; [split; congruence|]. exists []. by rewrite app_nil_r. Qed.

Lemma acts_on_world {W A} all P (m : M W A) : keeps (acts all P) (on_world m).
Proof. eapply keeps_weaken; [apply on_world_only|]. intros s s' (_&Hc&Ht). apply acts_same; by rewrite ?Hc. Qed.

Lemma acts_log {W} all (P : Effect → Prop) e : P e → keeps (acts (W := W) all P) (modify (log_effect e)).
Proof.
  intros He. apply keeps_modify. intros s Hs. split; [done|]. exists [e]. split; [done|]. by constructor.
Qed.

Lemma acts_perform {W A} all (P : Effect → Prop) e (m : M W A) : P e → keeps (acts all P) (perform e m).
Proof. intros He. apply keeps_bind; [apply _|by apply acts_log|intros; apply acts_on_world]. Qed.

#[export] Hint Resolve acts_on_world : keeps.
#[export] Hint Extern 1 (keeps (acts _ _) (perform _ _)) => apply acts_perform; solve [eauto] : keeps.
#[export] Hint Extern 1 (keeps (acts _ _) (modify _)) =>
  apply keeps_modify; intros; by apply acts_same : keeps.

Section ways.
Context `{UpgradePlatform W} `{!ClaimPlatform W} `{PersistentStorage W} `{Environment} `{SpecJSON} `{MapRange}
  `{Scheduler Sc}.
Abbreviation R := (RS W).
Abbreviation FS := (RS W * Sc)%type.
Context (gatherBuckets : Cluster → M W (list Bucket)).
Context (addMembers : list nat → list ServerConfig → M FS (list (Member * option error))).
Context (all : MemberSet) (P : Effect → Prop).

Definition actsF (f f' : FS) : Prop := acts all P f.1 f'.1.

#[local] Instance actsF_preorder : PreOrder actsF.
Proof. split; unfold actsF; [by intros f|]. intros f1 f2 f3 H12 H23. by transitivity (f2.1). Qed.

Lemma actsF_on_rs {A} (m : M R A) : keeps (acts all P) m → keeps actsF (on_rs (Sc := Sc) m).
Proof. intros Hm [s sc]. unfold actsF, on_rs, zoom. cbn [fst snd]. specialize (Hm s). by destruct (m s). Qed.

Lemma actsF_on_scheduler {A} (m : M Sc A) : keeps actsF (on_scheduler (W := W) m).
Proof. intros [s sc]. unfold actsF, on_scheduler, zoom. cbn [fst snd]. by destruct (m sc). Qed.

Lemma actsF_attempt {A} (m : M FS A) : keeps actsF m → keeps actsF (attempt m).
Proof. apply keeps_attempt. Qed.

Context (Hadd : ∀ pos l, keeps actsF (addMembers pos l)).
#[local] Hint Resolve actsF_on_scheduler Hadd : keeps.
#[local] Hint Extern 1 (keeps actsF (on_rs _)) => apply actsF_on_rs; keeps_tac : keeps.

(** Reads of the cluster see the members. *)
Lemma actsF_members {B} (k : Cluster → M FS B) :
  (∀ c, c_members c = all → cs_UnmanagedClusterHost (Spec (c_cluster c)) = None → keeps actsF (k c)) →
  keeps actsF (on_rs (gets cl) ≫= k).
Proof. intros Hk [s sc] [Hs Hh]. by apply (Hk (cl s) Hs Hh (s, sc)). Qed.

Lemma acts_updateCRStatus : keeps (acts all P) (updateCRStatus (W := W)).
Proof. unfold updateCRStatus. keeps_tac. Qed.

Lemma acts_set_status_now f : keeps (acts all P) (set_status_now (W := W) f).
Proof. unfold set_status_now. keeps_tac. Qed.
#[local] Hint Resolve acts_updateCRStatus acts_set_status_now : keeps.

Lemma acts_reportUpgrade a b : keeps (acts all P) (reportUpgrade (W := W) a b).
Proof. unfold reportUpgrade, begin_upgrade. keeps_tac. Qed.

Lemma acts_graceful m : P (GracefulFailoverAsked (GetOTPNode m)) →
  keeps (acts all P) (gracefullyFailoverNode (W := W) m).
Proof. intros. unfold gracefullyFailoverNode. keeps_tac. Qed.

Lemma acts_failover m : P (GracefulFailoverAsked (GetOTPNode m)) → P (FailoverForced [GetOTPNode m] false) →
  keeps (acts all P) (failoverNodeForInPlaceUpgrade (W := W) m).
Proof. intros. unfold failoverNodeForInPlaceUpgrade. keeps_tac; by apply acts_graceful. Qed.

Lemma acts_recreateNode m b : P (PodRecreated (Name m)) → keeps (acts all P) (recreateNode (W := W) m b).
Proof. intros. unfold recreateNode, recreatePod. keeps_tac. Qed.
#[local] Hint Resolve acts_reportUpgrade : keeps.

(** *** By a swap *)
Lemma acts_setup_swap old new : P (EjectionMarked (Name old)) → keeps (acts all P) (setup_swap (W := W) old new).
Proof. intros. unfold setup_swap. keeps_tac. Qed.

Lemma acts_finish_swap l : ∀ candidates acc,
  (∀ m, m ∈ candidates → P (EjectionMarked (Name m))) → keeps (acts all P) (finish_swap (W := W) candidates acc l).
Proof.
  induction l as [|[new [e|]] l IH]; intros candidates acc Hc; simpl; [keeps_tac|..].
  - apply IH. intros m Hm. apply Hc. rewrite <- (take_drop 1 candidates). apply elem_of_app. by right.
  - destruct candidates as [|old candidates]; [keeps_tac|].
    apply keeps_bind; [apply _|apply acts_setup_swap, Hc; by left|].
    intros a. apply IH. intros m Hm. apply Hc. by right.
Qed.

Lemma acts_prepare_swap l : ∀ pos, keeps actsF (prepare_swap (W := W) (Sc := Sc) pos l).
Proof. induction l as [|m l IH]; intros pos; simpl; keeps_tac. Qed.
#[local] Hint Resolve acts_prepare_swap : keeps.

Lemma acts_swap pos ms :
  (∀ pos, P (ReplacementsAsked (Name <$> (range pos ms).*2))) →
  (∀ m, m ∈ members ms → P (EjectionMarked (Name m))) →
  keeps actsF (swapRebalanceMembers addMembers pos ms).
Proof.
  intros Hr Hm. unfold swapRebalanceMembers. destruct (Empty ms); [keeps_tac|].
  apply keeps_bind; [apply _|keeps_tac|]. intros toCreate.
  apply keeps_bind; [apply _|apply actsF_on_rs, acts_log, Hr|]. intros _.
  apply keeps_bind; [apply _|keeps_tac|]. intros results.
  apply keeps_bind; [apply _| |intros failure; keeps_tac; unfold abort; keeps_tac].
  apply actsF_on_rs, acts_finish_swap. intros m Hin. apply Hm. by rewrite elem_of_range_members in Hin.
Qed.

(** *** In place *)
Lemma acts_many candidates : keeps (acts all P) (multipleInPlaceUpgradesSupported (W := W) gatherBuckets candidates).
Proof. unfold multipleInPlaceUpgradesSupported. keeps_tac. Qed.

(** What may be done to a pod in place. *)
Definition may_recreate (m : Member) : Prop :=
  P (GracefulFailoverAsked (GetOTPNode m)) ∧ P (FailoverForced [GetOTPNode m] false) ∧ P (PodRecreated (Name m)).

Lemma acts_in_place_one pos m : may_recreate m → keeps actsF (in_place_one (W := W) (Sc := Sc) pos m).
Proof.
  intros (Hg&Hf&Hr). unfold in_place_one. keeps_tac.
  - by apply actsF_on_rs, acts_failover.
  - intros. by apply actsF_on_rs, acts_recreateNode.
Qed.

Lemma acts_in_place pos ms :
  (∀ m, m ∈ members ms → may_recreate m) → keeps actsF (handleInPlaceUpgrade (Sc := Sc) gatherBuckets pos ms).
Proof.
  intros Hm. unfold handleInPlaceUpgrade.
  apply keeps_bind; [apply _|keeps_tac|]. intros c. apply keeps_bind; [apply _|keeps_tac|]. intros _.
  apply keeps_bind; [apply _|apply actsF_on_rs, acts_many|]. intros many.
  apply keeps_bind; [apply _| |intros; unfold abort; keeps_tac]. apply keeps_for_each; [apply _|].
  intros m Hin. apply acts_in_place_one, Hm. rewrite <- (elem_of_range_members (0%nat :: pos)).
  destruct many; [done|]. rewrite <- (take_drop 1 (range _ ms).*2). apply elem_of_app. by left.
Qed.

(** *** Rolling back *)
Definition may_roll_back (m : Member) : Prop :=
  P (GracefulFailoverAsked (GetOTPNode m)) ∧ P (FailoverForced [GetOTPNode m] false) ∧
  P (PodDeleted (Name m) true) ∧ P (EjectionMarked (Name m)).

Lemma acts_roll_back_one method m : may_roll_back m → keeps (acts all P) (roll_back_one (W := W) method m).
Proof.
  intros (Hg&Hf&Hd&He). unfold roll_back_one, removePod, removeMemberNoEject, removeMemberUser.
  destruct (bool_decide _); keeps_tac. by apply acts_failover.
Qed.

Lemma acts_roll_back method batch l : ∀ pos removed,
  (∀ m x, m ∈ l → all !! Name m = Some x → may_roll_back x) →
  keeps actsF (roll_back (W := W) (Sc := Sc) pos method batch removed l).
Proof.
  induction l as [|m l IH]; intros pos removed Hm; simpl; [keeps_tac|].
  destruct (bool_decide _); [keeps_tac|].
  assert (∀ n, keeps actsF (roll_back (W := W) (Sc := Sc) pos method batch n l)) as Hrest
    by (intros n; apply IH; intros o x Ho; apply (Hm o); by right).
  apply actsF_members. intros c Hc _. destruct (c_members c !! Name m) as [x|] eqn:Hx; [|apply Hrest].
  apply keeps_bind; [apply _|keeps_tac|]. intros _. apply keeps_bind; [apply _| |intros; apply Hrest].
  apply actsF_on_rs, acts_roll_back_one. rewrite Hc in Hx. by apply (Hm m); [left|].
Qed.

Lemma acts_try_rollback pos ms :
  (∀ m x, m ∈ members ms → all !! Name m = Some x → may_roll_back x) →
  keeps actsF (tryRollbackWithoutSpareCapacity (W := W) (Sc := Sc) pos ms).
Proof.
  intros Hm. unfold tryRollbackWithoutSpareCapacity, rollback_batch. keeps_tac.
  apply acts_roll_back. intros m x. rewrite elem_of_range_members. apply Hm.
Qed.

(** *** The step *)
Definition may_swap (ms : MemberSet) : Prop :=
  (∀ pos, P (ReplacementsAsked (Name <$> (range pos ms).*2))) ∧ ∀ m, m ∈ members ms → P (EjectionMarked (Name m)).

Definition plan_allowed (plan : UpgradePlan) : Prop :=
  match plan with
  | AllInPlace ms => ∀ m, m ∈ members ms → may_recreate m
  | Split inPlace swap => (∀ m, m ∈ members inPlace → may_recreate m) ∧ may_swap swap
  | SwapAll => True
  end.

Lemma acts_carry_out pos ms plan : may_swap ms → plan_allowed plan →
  keeps actsF (carry_out gatherBuckets addMembers pos ms plan).
Proof.
  intros [Hr Hm]. destruct plan as [ip|ip swap|]; simpl.
  - intros Hip. by apply acts_in_place.
  - intros [Hip [Hr' Hm']]. unfold split_upgrade. apply keeps_bind; [apply _| |intros; by apply acts_swap].
    destruct (bool_decide _); [by apply acts_in_place|keeps_tac].
  - intros _. by apply acts_swap.
Qed.

Lemma acts_upgrade_pods pos ms zone pvc :
  (∀ m x, m ∈ members ms → all !! Name m = Some x → may_roll_back x) → may_swap ms →
  (∀ learned pos cc known version recoverable,
     plan_allowed (tryInPlaceUpgrade learned pos cc known ms zone pvc version recoverable)) →
  keeps actsF (upgrade_pods gatherBuckets addMembers pos ms zone pvc).
Proof.
  intros Hb Hs Hp. unfold upgrade_pods.
  apply keeps_bind; [apply _|keeps_tac|]. intros c. apply keeps_bind; [apply _|keeps_tac|]. intros _.
  apply keeps_bind; [apply _|keeps_tac|]. intros c'.
  apply keeps_bind; [apply _|destruct (bool_decide _); keeps_tac|]. intros _.
  apply keeps_bind; [apply _|keeps_tac|]. intros version.
  apply keeps_bind; [apply _|unfold is_rollback; keeps_tac|]. intros rollback.
  apply keeps_bind; [apply _|destruct rollback; [by apply acts_try_rollback|keeps_tac]|]. intros handled.
  destruct handled; [keeps_tac|].
  apply keeps_bind; [apply _|keeps_tac|]. intros c2. apply keeps_bind; [apply _|keeps_tac|]. intros w.
  destruct (bool_decide _); [by apply acts_carry_out|]. destruct Hs. by apply acts_swap.
Qed.
End ways.

(** ** Adding pods does nothing to the members there are *)
Section adding.
Context `{ClaimPlatform W} `{PersistentStorage W} `{Environment} `{MapRange} `{SpecJSON} `{TrackerJSON} `{Scheduler Sc}.
Abbreviation R := (RS W).
Abbreviation FS := (RS W * Sc)%type.
Context (all : MemberSet) (P : Effect → Prop).
Abbreviation actsF := (actsF (W := W) (Sc := Sc) all P).

#[local] Existing Instance actsF_preorder.

Lemma actsF_with_rs {A} (m : M R A) : keeps (acts all P) m → keeps actsF (with_rs (Sc := Sc) m).
Proof. apply actsF_on_rs. Qed.

Lemma actsF_with_scheduler {A} (m : M Sc A) : keeps actsF (with_scheduler (W := W) m).
Proof. apply actsF_on_scheduler. Qed.

#[local] Hint Resolve actsF_with_scheduler : keeps.
#[local] Hint Extern 1 (keeps actsF (with_rs _)) => apply actsF_with_rs; keeps_tac : keeps.

Lemma actsF_createMembers pos schedule specs : keeps actsF (createMembers (W := W) (Sc := Sc) pos schedule specs).
Proof. apply (createMembers_keeps actsF). intros f w sc. by apply acts_same. Qed.

(** In a cluster that is not migrated. *)
Lemma actsF_addMembers add pos schedule specs : keeps actsF (addMembers (W := W) (Sc := Sc) add pos schedule specs).
Proof.
  unfold addMembers. apply keeps_bind; [apply _|apply actsF_createMembers|]. intros results.
  apply actsF_members. intros c _ Hhost. unfold IsMigrationCluster. rewrite Hhost. simpl. apply keeps_ret, _.
Qed.
End adding.

(** ** Reaching the decision changes nothing that matters *)
Definition still {W} (s s' : RS W) : Prop :=
  c_members (cl s') = c_members (cl s) ∧ Spec (c_cluster (cl s')) = Spec (c_cluster (cl s)) ∧ trace s' = trace s.

#[export] Instance still_preorder {W} : PreOrder (@still W).
Proof. split; [by intros s|]. intros s1 s2 s3 (?&?&?) (?&?&?). unfold still. split_and!; congruence. Qed.

Lemma still_on_world {W A} (m : M W A) : keeps still (on_world m).
Proof. eapply keeps_weaken; [apply on_world_only|]. intros s s' (_&Hc&Ht). unfold still. by rewrite Hc. Qed.
#[export] Hint Resolve still_on_world : keeps.
#[export] Hint Extern 1 (keeps still (modify _)) => by apply keeps_modify : keeps.

Section decision.
Context `{UpgradePlatform W} `{!ClaimPlatform W} `{PersistentStorage W} `{Environment} `{SpecJSON} `{MapRange}
  `{Scheduler Sc}.
Abbreviation R := (RS W).
Abbreviation FS := (RS W * Sc)%type.

Lemma still_stabilization pos : keeps still (handleUpgradeStabilization (W := W) pos).
Proof. unfold handleUpgradeStabilization, set_status_now. keeps_tac. Qed.

Lemma still_held : keeps still (upgrade_held (W := W)).
Proof. unfold upgrade_held, Baseline.clusterVersion. keeps_tac. Qed.

Lemma still_blockers : keeps still (getUpgradeBlockers (W := W)).
Proof. unfold getUpgradeBlockers, hasMemcachedBuckets, Baseline.clusterVersion. keeps_tac. Qed.

(** Candidates are members, whatever the order of the maps. *)
Lemma detected_members learned (specs : PodSpecs) pos u moves l zones pvcs :
  keyed (u_members u) → order_ok u →
  getUpgradeCandidates learned pos u (Ok moves) = Ok (l, zones, pvcs) →
  ∀ m, m ∈ l → is_Some (u_members u !! Name m).
Proof.
  intros Hk Hok Hc. unfold getUpgradeCandidates in Hc.
  destruct (detectChangeSets (pos ++ [0%nat]) u (Ok moves)) as [changes| |] eqn:Hd; [|done..].
  cbn [mbind result_bind] in Hc. destruct (CouchbaseImageVersion learned _) as [version| |]; [|done..].
  cbn [mbind result_bind] in Hc. destruct (isRollback learned _ u) as [rollback| |]; [|done..].
  cbn [mbind result_bind] in Hc.
  assert (change_sets u changes) as Hr
    by (eapply sets_hold_change_sets, detectChangeSets_spec; [exact Hk|exact Hd]).
  destruct (change_sets_keyed u changes Hk Hr) as (Kv&Ks&Kb).
  rewrite !Merge_union, !(left_id_L ∅ (∪)) in Hc by done.
  assert (∀ m ms, ms ⊆ u_members u → keyed ms → m ∈ members ms → is_Some (u_members u !! Name m)) as Hin.
  { intros m ms Hsub Hms Hm. rewrite elem_of_keyed in Hm by done. eexists. by eapply lookup_weaken. }
  assert (keyed (SpecOnly changes ∪ Both changes)) as Ksb by (by apply keyed_union).
  assert (SpecOnly changes ∪ Both changes ⊆ u_members u) as Hsb by (apply map_union_least; apply Hr).
  match type of Hc with context [if bool_decide (GetUpgradeStrategy _ = _) then filterCandidatesByUpgradeOrder _ ?c
                                 else _] => set (cands := c) in * end.
  assert (keyed cands ∧ ∀ m, m ∈ members cands → is_Some (u_members u !! Name m)) as [Kc Hm].
  { clear Hc. subst cands. destruct (bool_decide (0 < _)); [|split; [done|]; intros m; exact (Hin m _ Hsb Ksb)].
    split; [by apply add_all_keyed|]. intros m. rewrite (candidates_chosen u changes _ _ _ m Hk Hok Hr).
    assert (∀ o, o ∈ sortCandidatesByUpgradeOrder u (VersionOnly changes ∪ Both changes) →
      is_Some (u_members u !! Name o)) as Hs.
    { intros o. rewrite sortCandidates_perm; [|by apply keyed_union|done].
      apply Hin; [apply map_union_least; apply Hr|by apply keyed_union]. }
    intros [Hm|[(o&->&Ho)%list_elem_of_fmap|[Hm _]]].
    - exact (Hin m _ (cs_sub_spec _ _ Hr) Ks Hm).
    - rewrite Name_stamp. apply Hs. match type of Ho with _ ∈ take ?k _ => rewrite <- (take_drop k) end.
      apply elem_of_app. by left.
    - exact (Hin m _ (cs_sub_both _ _ Hr) Kb Hm). }
  clearbody cands. destruct (bool_decide (GetUpgradeStrategy _ = _)); injection Hc as <- _ _; intros m Hml; apply Hm.
  - eapply (filterCandidates_in u); [exact Kc|exact Hok|exact Hml].
  - by rewrite <- ToList_perm.
Qed.

(** A computation that leaves things be, before another. *)
Lemma still_bind {A B} (m : M FS A) (k : A → M FS B) (Q : FS → Prop) (f : FS) :
  keeps (λ f f' : FS, still f.1 f'.1) m →
  (∀ f', still f.1 f'.1 → Q f') → (∀ a f', m f = (Ok a, f') → still f.1 f'.1 → Q (k a f').2) → Q ((m ≫= k) f).2.
Proof.
  intros Hm Hstop Hgo. unfold mbind, M_bind. specialize (Hm f). destruct (m f) as [[a|e|] f']; simpl in *; auto.
Qed.

Lemma stillF_on_rs {A} (m : M R A) : keeps still m → keeps (λ f f' : FS, still f.1 f'.1) (on_rs (Sc := Sc) m).
Proof. intros Hm [s sc]. unfold on_rs, zoom. cbn [fst snd]. specialize (Hm s). by destruct (m s). Qed.

(** The order by nodes lists none twice. *)
Definition order_listed (cc : CouchbaseCluster) : Prop :=
  match cs_Upgrade (Spec cc) with
  | Some u => us_UpgradeOrderType u = UpgradeOrderTypeNodes → NoDup (us_UpgradeOrder u)
  | None => True
  end.

Lemma still_view : keeps (λ f f' : FS, still f.1 f'.1) (view_now (W := W) (Sc := Sc)).
Proof.
  assert (keeps still (query_orchestrator (W := W))) as Hq by (unfold query_orchestrator; keeps_tac).
  intros f. unfold view_now.
  apply (still_bind _ _ (λ f', still f.1 f'.1)); [apply stillF_on_rs; keeps_tac|done|]. intros v f1 _ E1.
  apply (still_bind _ _ (λ f', still f.1 f'.1)); [by apply stillF_on_rs|intros; by etrans|]. intros o f2 _ E2.
  simpl. by etrans.
Qed.

Lemma view_members (f f' : FS) u :
  view_now f = (Ok u, f') → u_members u = c_members (cl f'.1) ∧ u_cluster u = c_cluster (cl f'.1).
Proof.
  intros Hv. unfold view_now in Hv. inv_ok Hv. inv_ok Hv. inv_ok Hv. injection Hv as <- <-.
  injection Hv2 as <- <-. done.
Qed.

Lemma still_candidates pos fuel : keeps (λ f f' : FS, still f.1 f'.1) (upgrade_candidates (W := W) (Sc := Sc) pos fuel).
Proof.
  intros f. unfold upgrade_candidates. apply (still_bind _ _ (λ f', still f.1 f'.1)); [apply still_view|done|].
  intros u f1 _ E1. exact E1.
Qed.

Lemma candidates_are_members pos fuel (f f' : FS) l zones pvcs :
  keyed (c_members (cl f.1)) → order_listed (c_cluster (cl f.1)) →
  upgrade_candidates pos fuel f = (Ok (l, zones, pvcs), f') →
  ∀ m, m ∈ l → is_Some (c_members (cl f.1) !! Name m).
Proof.
  intros Hk Ho Hc. unfold upgrade_candidates in Hc. inv_ok Hc. rename a into u, s into f1.
  destruct (view_members _ _ _ Hc0) as [Hm Hcc]. pose proof (still_view f) as Hs. rewrite Hc0 in Hs.
  destruct Hs as (Hs1&Hs2&_). simpl in Hs1, Hs2.
  inv_ok Hc. injection Hc1 as <- <-. inv_ok Hc. injection Hc1 as <- <-. injection Hc as Hc _.
  destruct (getRescheduleMoves _ _ _ _) as [moves| |]; [|done..]. rewrite <- Hs1, <- Hm.
  eapply detected_members; [by rewrite Hm, Hs1| |exact Hc].
  unfold order_ok. unfold order_listed in Ho. rewrite Hcc. by rewrite Hs2.
Qed.
End decision.

(** ** A step of an upgrade *)

(** [n] is the name of one of [ms]. *)
Definition among (ms : MemberSet) (n : string) : Prop := ∃ m, m ∈ members ms ∧ Name m = n.

(** The node of one of [ms], or of the member of the same name. *)
Definition node_among (all ms : MemberSet) (node : string) : Prop :=
  ∃ m, node = GetOTPNode m ∧ (m ∈ members ms ∨ m ∈ members all) ∧ among ms (Name m).

Definition concerns (all ms : MemberSet) (e : Effect) : Prop :=
  match e with
  | PodDeleted n _ | PodRecreated n | EjectionMarked n => among ms n
  | GracefulFailoverAsked node => node_among all ms node
  | FailoverForced nodes allowUnsafe => allowUnsafe = false ∧ ∃ node, nodes = [node] ∧ node_among all ms node
  | ReplacementsAsked names => Forall (among ms) names ∧ (length names ≤ size ms)%nat
  | StatusSeen _ | RebalanceAsked _ _ | RebalanceStopped | SizeAsked _ _ => False
  end.

Lemma among_member ms m : m ∈ members ms → among ms (Name m).
Proof. intros Hm. by exists m. Qed.

Lemma among_filter (Q : string * Member → Prop) `{∀ e, Decision (Q e)} (ms : MemberSet) m :
  m ∈ members (filter Q ms) → m ∈ members ms.
Proof.
  unfold members. rewrite !list_elem_of_fmap. setoid_rewrite elem_of_map_to_list'.
  intros (e&->&He). exists e. split; [done|]. by apply map_lookup_filter_Some in He as [? _].
Qed.

Section bounded.
Context (all ms : MemberSet) (Hkeyed : keyed ms).

Lemma concerns_recreate m : m ∈ members ms → may_recreate (concerns all ms) m.
Proof.
  intros Hm. assert (node_among all ms (GetOTPNode m)) as Hn
    by (exists m; split; [done|]; split; [by left|by apply among_member]).
  split; [done|]. split; [split; [done|]; by eexists|by apply among_member].
Qed.

Lemma concerns_roll_back m x : keyed all → m ∈ members ms → all !! Name m = Some x → may_roll_back (concerns all ms) x.
Proof.
  intros Hall Hm Hx. assert (Name x = Name m) as Hn by by apply Hall.
  assert (among ms (Name x)) as Ha by (rewrite Hn; by apply among_member).
  assert (node_among all ms (GetOTPNode x)) as Ho.
  { exists x. split; [done|]. split; [|done]. right. rewrite elem_of_keyed by done. by rewrite Hn. }
  split; [done|]. split; [split; [done|]; by eexists|]. by split.
Qed.

Lemma concerns_swap `{MapRange} (ms' : MemberSet) :
  (∀ m, m ∈ members ms' → m ∈ members ms) → (size ms' ≤ size ms)%nat → may_swap (concerns all ms) ms'.
Proof.
  intros Hsub Hsize. split; [|intros m Hm; by apply among_member, Hsub]. intros pos. split.
  - apply Forall_fmap, Forall_forall. intros m. rewrite elem_of_range_members. intros Hm. by apply among_member, Hsub.
  - rewrite !length_fmap, (Permutation_length (range_perm pos ms')), length_map_to_list. exact Hsize.
Qed.

Lemma concerns_plan `{Environment} `{MapRange} learned pos cc known zone pvc version recoverable :
  plan_allowed (concerns all ms) (tryInPlaceUpgrade learned pos cc known ms zone pvc version recoverable).
Proof.
  pose proof (check_candidates_any_order learned cc known version recoverable pos ms Hkeyed) as Hc.
  unfold tryInPlaceUpgrade. cbv zeta in Hc |- *. set (r := check_candidates _ _ _ _ _ _ _) in *.
  destruct (allCandidatesRecoverable r); [|done].
  destruct Hc as (_&Hi&Hni&_). cbn [andb]. rewrite Hi, Hni.
  destruct (_ && _ && _ && _); [intros m Hm; by apply concerns_recreate|].
  destruct zone; [done|]. destruct pvc; [done|]. destruct (inplaceUpgradeUnsafe _); [done|].
  destruct (negb _); [|done]. split.
  - intros m Hm%among_filter. by apply concerns_recreate.
  - apply concerns_swap; [intros m; apply among_filter|]. apply map_subseteq_size, map_filter_subseteq.
Qed.
End bounded.

(** The choice among candidates: some of them, no more than the limit. *)
Lemma cng_subset `{MapRange} pos cng (ms : MemberSet) : keyed ms → filterUpgradeCandidatesToPreserveCNG pos cng ms ⊆ ms.
Proof.
  intros Hk. unfold filterUpgradeCandidatesToPreserveCNG. destruct (bool_decide _); [done|].
  destruct (bool_decide _); [done|]. case_bool_decide as Hb; [apply map_filter_subseteq|].
  destruct (cng_loop_spec (readyCNG cng) (wrap64 (Z.of_nat (size (readyCNG cng)) - preserved cng))
              (range pos ms).*2 0 ∅) as [Hin _].
  { rewrite dom_empty_L, intersection_empty_r_L, size_empty. lia. }
  apply map_subseteq_spec. intros n m Hn. apply Hin in Hn as [Hn|[Hm <-]]; [by rewrite lookup_empty in Hn|].
  rewrite elem_of_range_members in Hm. by apply elem_of_keyed.
Qed.

Lemma selected_bounds `{MapRange} pos cluster cng candidates zones pvcs selected zone pvc maxUpgradable :
  GetUpgradeStrategy cluster = RollingUpgrade → GetMaxUpgradable cluster = (maxUpgradable, None) →
  selectUpgradeCandidatesIgnoringOrchestrator pos cluster cng candidates zones pvcs = Ok (selected, zone, pvc) →
  keyed selected ∧ (∀ m, m ∈ members selected → m ∈ candidates) ∧ Z.of_nat (size selected) ≤ Z.max maxUpgradable 0.
Proof.
  intros Hroll Hmax Hsel. unfold selectUpgradeCandidatesIgnoringOrchestrator, selectOrderedUpgradeCandidates in Hsel.
  rewrite bool_decide_eq_false_2, Hmax, andb_false_r in Hsel by (by intros []).
  destruct (take_max_spec maxUpgradable candidates ∅) as (Hin&Hs&Hk).
  set (constrained := take_max maxUpgradable ∅ candidates) in *. rewrite map_size_empty in Hs.
  specialize (Hk keyed_empty).
  assert (selected ⊆ constrained) as Hsub.
  { destruct (cng_spec cng); [|by injection Hsel as <- _ _]. destruct (bool_decide (candidates = [])) eqn:E;
      [by injection Hsel as <- _ _|]. injection Hsel as <- _ _. by apply cng_subset. }
  pose proof (keyed_subseteq _ _ Hsub Hk) as Hks. split; [done|]. split.
  - intros m. rewrite elem_of_keyed by done. intros Hm. pose proof (lookup_weaken _ _ _ _ Hm Hsub) as Hc.
    apply Hin in Hc as [Hc|[? _]]; [by rewrite lookup_empty in Hc|done].
  - apply map_subseteq_size in Hsub. lia.
Qed.

Lemma GetMaxUpgradable_spec (cc cc' : CouchbaseCluster) :
  Spec cc' = Spec cc →
  GetMaxUpgradable cc' = GetMaxUpgradable cc ∧ GetUpgradeStrategy cc' = GetUpgradeStrategy cc.
Proof. intros He. unfold GetMaxUpgradable, GetRollingUpgrade, GetUpgradeStrategy. by rewrite He. Qed.

Section step.
Context `{UpgradePlatform W} `{!ClaimPlatform W} `{PersistentStorage W} `{Environment} `{SpecJSON} `{MapRange}
  `{TrackerJSON} `{Scheduler Sc}.
Abbreviation FS := (RS W * Sc)%type.
Context (gatherBuckets : Cluster → M W (list Bucket)).
Context (addMigrationMembers : list ServerConfig → list (Member * option error) → M FS (list (Member * option error))).

(** All that a step did concerns at most [n] of the members. *)
Definition bounded (n : Z) (s s' : RS W) : Prop :=
  c_members (cl s') = c_members (cl s) ∧ ∃ (ms : MemberSet) l,
    Z.of_nat (size ms) ≤ Z.max n 0 ∧ (∀ m, m ∈ members ms → is_Some (c_members (cl s) !! Name m)) ∧
    trace s' = trace s ++ l ∧ Forall (concerns (c_members (cl s)) ms) l.

Lemma still_bounded n (s s' : RS W) : still s s' → bounded n s s'.
Proof.
  intros (Hc&_&Ht). split; [done|]. exists ∅, []. rewrite map_size_empty, app_nil_r. split; [lia|].
  split; [|done]. intros m Hm. unfold members in Hm. rewrite map_to_list_empty in Hm. by apply not_elem_of_nil in Hm.
Qed.

Lemma acts_bounded n (ms : MemberSet) (s s1 s' : RS W) :
  still s s1 → based (c_members (cl s)) s1 → Z.of_nat (size ms) ≤ Z.max n 0 →
  (∀ m, m ∈ members ms → is_Some (c_members (cl s) !! Name m)) →
  acts (c_members (cl s)) (concerns (c_members (cl s)) ms) s1 s' → bounded n s s'.
Proof.
  intros (_&_&Ht) Hb Hsize Hin Hacts. destruct (Hacts Hb) as ([Hc _]&l&Hl&HF). split; [done|].
  exists ms, l. by rewrite Hl, Ht.
Qed.

Lemma unsettled_iff (r : ReconcileMachine) :
  needsRebalance r = true ∨ PendingAddNodes (couchbase r) ≠ ∅ ∨ pendingInitPods r ≠ ∅ ↔ upgrade_unsettled r = true.
Proof.
  unfold upgrade_unsettled, Empty. rewrite !orb_true_iff, !negb_true_iff, !bool_decide_eq_false, !map_size_empty_iff.
  tauto.
Qed.

(** C29: what one step of a rolling upgrade does concerns at most [GetMaxUpgradable]
    members: whatever way is chosen (in place, by a swap, both, or a rollback without
    spare capacity) and wherever the step fails, every pod that is deleted, recreated
    or marked for ejection and every node that is failed over belongs to one of them,
    there is at most one replacement for each, no failover is forced through, and no
    rebalance is started or stopped.  While a rebalance is due, an added node is not
    rebalanced in or a pod waits for its initialisation, nothing at all is done. *)
Theorem handleUpgradeNode_bounded pos fuel schedule (f : FS) maxUpgradable
    (Hkeyed : keyed (c_members (cl f.1))) (Horder : order_listed (c_cluster (cl f.1)))
    (Hmigrated : cs_UnmanagedClusterHost (Spec (c_cluster (cl f.1))) = None)
    (Hrolling : GetUpgradeStrategy (c_cluster (cl f.1)) = RollingUpgrade)
    (Hmax : GetMaxUpgradable (c_cluster (cl f.1)) = (maxUpgradable, None)) :
  let f' := (handleUpgradeNode gatherBuckets (λ pos, addMembers addMigrationMembers pos schedule) pos fuel f).2 in
  bounded maxUpgradable f.1 f'.1 ∧
  (needsRebalance (fsm f.1) = true ∨ PendingAddNodes (couchbase (fsm f.1)) ≠ ∅ ∨ pendingInitPods (fsm f.1) ≠ ∅ → f' = f).
Proof.
  destruct f as [s sc]. simpl in *. unfold handleUpgradeNode. split.
  2: { intros Hu%unsettled_iff. unfold on_rs at 1, zoom, gets, mbind, M_bind. simpl. by rewrite Hu. }
  set (Q := λ f' : FS, bounded maxUpgradable s f'.1). 
  match goal with |- bounded _ _ (?g.2.1) => change (Q g.2) end.
  assert (∀ f' : FS, still s f'.1 → Q f') as Hstop by (intros f'; apply still_bounded).
  apply still_bind; [apply stillF_on_rs; keeps_tac|done|]. intros r f1 _ E1. simpl in E1.
  destruct (upgrade_unsettled r); [by apply Hstop|].
  apply still_bind; [apply stillF_on_rs, still_stabilization|intros; apply Hstop; by etrans|].
  intros waiting f2 _ E2. assert (still s f2.1) as S2 by by etrans. destruct waiting; [by apply Hstop|].
  apply still_bind; [apply stillF_on_rs, still_held|intros; apply Hstop; by etrans|].
  intros held f3 _ E3. assert (still s f3.1) as S3 by by etrans. destruct held; [by apply Hstop|].
  apply still_bind; [apply stillF_on_rs, still_blockers|intros; apply Hstop; by etrans|].
  intros blockers f4 _ E4. assert (still s f4.1) as S4 by by etrans. case_bool_decide; [by apply Hstop|].
  apply still_bind; [apply still_candidates|intros; apply Hstop; by etrans|].
  intros [[l zones] pvcs] f5 Hc E5. assert (still s f5.1) as S5 by by etrans.
  assert (∀ m, m ∈ l → is_Some (c_members (cl s) !! Name m)) as Hl.
  { rewrite <- (proj1 S4). eapply candidates_are_members; [by rewrite (proj1 S4)| |exact Hc].
    unfold order_listed. by rewrite (proj1 (proj2 S4)). }
  clear Hc. case_bool_decide; [by apply Hstop|].
  apply still_bind; [apply stillF_on_rs; keeps_tac|intros; apply Hstop; by etrans|].
  intros s6 f6 Hs6 E6. injection Hs6 as <- <-. clear E6.
  apply still_bind; [apply keeps_lift; by intros f|intros; apply Hstop; by etrans|].
  intros [[selected zone] pvc] f7 Hsel E7. injection Hsel as Hsel <-. clear E7.
  destruct (GetMaxUpgradable_spec (c_cluster (cl s)) (c_cluster (cl f5.1)) (proj1 (proj2 S5))) as [Hm Hr].
  destruct (selected_bounds _ _ _ _ _ _ _ _ _ _ (eq_trans Hr Hrolling) (eq_trans Hm Hmax) Hsel) as (Hks&Hin&Hn).
  destruct (Empty selected); [by apply Hstop|].
  eapply (acts_bounded _ selected); [exact S5| |exact Hn|intros m Hms; by apply Hl, Hin|].
  { split; [apply S5|]. by rewrite (proj1 (proj2 S5)). }
  refine (acts_upgrade_pods gatherBuckets _ (c_members (cl s)) (concerns (c_members (cl s)) selected) _ _ _ _ _ _ _ _ f5).
  - intros p specs. apply actsF_addMembers.
  - intros m x Hms Hx. by apply (concerns_roll_back _ _ m).
  - by apply concerns_swap.
  - intros. by apply concerns_plan.
Qed.
End step.

(** ** The end of an upgrade *)
Section complete.
Context `{UpgradePlatform W} `{!ClaimPlatform W} `{StorageLaws W view ready} `{Environment} `{SpecJSON} `{MapRange}
  `{Scheduler Sc}.
Abbreviation FS := (RS W * Sc)%type.

Definition upgrade_active (s : RS W) : Prop := view (world s) !! Upgrading = Some UpgradeActive.

(** Asking Couchbase leaves the operator's store alone. *)
Context (Hask : ∀ target (w : W), view (cb_GetTerseClusterInfo target w).2 = view w).

Lemma view_now_keeps (f : FS) : ready (world f.1) → view (world (view_now f).2.1) = view (world f.1).
Proof.
  intros Hr. destruct f as [s sc]. destruct (get_current s Hr) as (w'&Hg&Hw). simpl in *.
  assert (on_rs (Sc := Sc) (attempt (on_world (ps_Get VersionKey))) (s, sc) =
    (Ok match baseline view s with Some v => inl v | None => inr ErrKeyError end, (set_world w' s, sc))) as Hget
    by (unfold on_rs, zoom; cbn [fst snd]; by rewrite Hg).
  unfold view_now. run Hget. clear Hg Hget.
  assert (view (world (on_rs (Sc := Sc) query_orchestrator (set_world w' s, sc)).2.1) = view (world s)) as Hq.
  { unfold on_rs, zoom. cbn [fst snd]. unfold query_orchestrator, gets, mbind, M_bind. cbn [cl set_world].
    destruct (asks_orchestrator (cl s)); [|exact Hw]. unfold attempt, on_world, zoom. cbn [world set_world].
    specialize (Hask (ToMembers (readyMembers (cl s))) w'). destruct (cb_GetTerseClusterInfo _ w') as [[i|e|] w2];
      simpl in *; congruence. }
  unfold mbind, M_bind. destruct (on_rs query_orchestrator (set_world w' s, sc)) as [[o|e|] f2]; exact Hq.
Qed.

Lemma ejecting_none c (w : W) : ejecting_members c w = [] → ∀ name m pod,
  c_members c !! name = Some m → Pods_Get w name = Some pod → IsPodPendingUpgradeBeforeEjection pod = false.
Proof.
  intros Hnone name m pod Hm Hpod. apply not_true_is_false. intros Hmark.
  assert (name ∈ ejecting_members c w) as Hin; [|rewrite Hnone in Hin; by apply not_elem_of_nil in Hin].
  apply list_elem_of_filter. rewrite Hpod. split; [done|].
  apply list_elem_of_fmap. exists (name, m). split; [done|]. by apply elem_of_map_to_list.
Qed.

(** An upgrade is recorded as over only when nothing of it is left: whatever fails on
    the way, if the store says that the upgrade goes on and it is up to date, then after
    [reportUpgradeComplete] it still says so, unless no pod waits for its
    initialisation, no node of the cycle's start was added, failed, failed over or out
    of balance, no member's pod is marked to leave after its upgrade, and no member is
    a candidate any more. *)
Theorem reportUpgradeComplete_last pos fuel state (f : FS)
    (Hready : ready (world f.1)) (Hactive : upgrade_active f.1) :
  ¬ upgrade_active (reportUpgradeComplete pos fuel state f).2.1 →
  getPendingInitPods (cl f.1) (world f.1) = [] ∧ settled state = true ∧
  (∀ name m pod, c_members (cl f.1) !! name = Some m → Pods_Get (world f.1) name = Some pod →
     IsPodPendingUpgradeBeforeEjection pod = false) ∧
  ∃ zones pvcs f1, upgrade_candidates (0%nat :: pos) fuel f = (Ok ([], zones, pvcs), f1).
Proof.
  intros Hend. destruct f as [s sc]. simpl in *.
  assert (on_rs (Sc := Sc) (on_world isUpgrading) (s, sc) = (Ok true, (s, sc))) as Hup.
  { unfold on_rs, on_world, zoom, isUpgrading. cbn [fst snd]. rewrite (get_law _ _ _ Hready Hactive).
    rewrite bool_decide_eq_true_2 by done. by destruct s. }
  unfold reportUpgradeComplete in Hend. rewrite (run_bind _ _ _ _ _ Hup) in Hend.
  rewrite (run_bind (on_rs get) _ (s, sc) s (s, sc) eq_refl) in Hend. cbn [negb] in Hend.
  case_bool_decide as Hpend; [by destruct Hend|]. destruct (settled state); [|by destruct Hend]. cbn [negb orb] in Hend.
  case_bool_decide as Hej; [by destruct Hend|].
  split; [done|]. split; [done|]. split; [by apply ejecting_none|].
  unfold mbind, M_bind in Hend.
  assert (view (world (upgrade_candidates (0%nat :: pos) fuel (s, sc)).2.1) = view (world s)) as Hv.
  { unfold upgrade_candidates. pose proof (view_now_keeps (s, sc) Hready) as Hk. unfold mbind at 1, M_bind at 1.
    destruct (view_now (s, sc)) as [[u|e|] f1]; exact Hk. }
  destruct (upgrade_candidates (0%nat :: pos) fuel (s, sc)) as [[[[l zones] pvcs]|e|] f1]; simpl in Hv, Hend.
  - case_bool_decide as Hl; [destruct Hend; unfold upgrade_active, mret, M_ret; cbn; by rewrite Hv|]. subst l.
    by exists zones, pvcs, f1.
  - destruct Hend. unfold upgrade_active. by rewrite Hv.
  - destruct Hend. unfold upgrade_active. by rewrite Hv.
Qed.
End complete.

(** ** On the simulated platform *)

#[local] Instance volume_json : SpecJSON :=
  {| marshal_spec _ := "spec"; unmarshal_spec _ := Ok (json_form (ct_Spec local_template)) |}.
#[local] Instance no_tracker : TrackerJSON := {| marshal_tracker _ := ""; unmarshal_tracker _ := Err ErrSyntax |}.
#[local] Instance volume_claims : ClaimPlatform Sim := {|
  api_Events := api_Events; api_CreatePVC := api_CreatePVC; api_DeletePVC := api_DeletePVC;
  api_CreatePod := api_CreatePod; establish_CNG := establish_CNG; pod_spec := pod_spec;
  storage_spec := local_storage; operator_version := operator_version |}.

(** Three data pods on 7.2.5 with a volume each, of which the specification wants 7.6.2. *)
Definition old_pods : list KPod := [sim_pod 0 "data" []; sim_pod 1 "data" []; sim_pod 2 "data" []].

Definition old_claim (i : Z) : PVC :=
  mkPVC (CreateMemberName "cb" i +:+ "-default-00") {[LabelNode := CreateMemberName "cb" i]}
    (Some {[AnnotationVolumeMountPath := couchbaseVolumeDefaultConfigDir; PVCSpecAnnotation := "spec";
            CouchbaseVersionAnnotationKey := "7.2.5"]})
    ClaimBound false (mkPVCSpec (Some {[ResourceStorage := 10]}) None [ReadWriteOnce] "fast")
    {[ResourceStorage := 10]} [].

Definition volume_class : ServerConfig := {|
  sc_Size := 3; sc_Name := "data"; sc_Services := ["data"]; sc_ServerGroups := [];
  sc_VolumeMounts := Some {| DefaultClaim := "vol"; DataClaim := ""; IndexClaim := ""; AnalyticsClaims := None;
                             LogsClaim := "" |};
  sc_Image := ""; sc_NodeSelector := None; sc_AutoscaleEnabled := false |}.

Definition volume_spec (process : option string) (u : option UpgradeSpec) : ClusterSpec :=
  let s := sim_spec 3 in {|
  cs_Image := cs_Image s; cs_EnvImagePrecedence := false; cs_Servers := [volume_class]; cs_ServerGroups := [];
  cs_ServerGroupsLabelOverride := ""; cs_ShuffleServerGroups := false; cs_RecoveryPolicy := None;
  cs_UpgradeProcess := process; cs_UpgradeStrategy := None; cs_RollingUpgrade := None; cs_Upgrade := u;
  cs_EnableOnlineVolumeExpansion := false; cs_UnmanagedClusterHost := None;
  cs_Paused := false; cs_Hibernate := false |}.

Definition upgrade_cluster (process : option string) (u : option UpgradeSpec) : Cluster :=
  set_spec (λ _, volume_spec process u) (sim_cluster 3 old_pods).

Definition upgrade_start (c : Cluster) : RS Sim * nullSchedulerImpl :=
  (mkRS (set_clustered (podsToMemberSet old_pods) empty_machine) c
     (mkSim old_pods (mkClusterInfo ((λ i, sim_node i "active") <$> [0; 1; 2]) "none" true [] [] ∅) []
        {[VersionKey := "7.2.5"; PodIndex := "3"; Upgrading := UpgradeInactive]} 0 (old_claim <$> [0; 1; 2])) [],
   NullScheduler {["data" := ServerList ["cb-0000"; "cb-0001"; "cb-0002"]]} ∅).

Definition upgrade_once (c : Cluster) : result () * (RS Sim * nullSchedulerImpl) :=
  handleUpgradeNode (H2 := const None) (H4 := canonical_range) (λ _ w, (Ok [], w))
    (λ pos, addMembers (H2 := const None) (H3 := canonical_range) (λ _ _, mret []) pos []) [] 0 (upgrade_start c).

Definition upgrade_of (process : string) : UpgradeSpec := with_process process (example_upgrade "" [] 0).

Definition upgrade_effects (c : Cluster) : list Effect := trace (upgrade_once c).2.1.

(** By a swap, by default; in place where that is asked for. *)
Example upgrade_by_swap :
  upgrade_effects (upgrade_cluster None None) = [ReplacementsAsked ["cb-0000"]; EjectionMarked "cb-0000"].
Proof. vm_compute. reflexivity. Qed.

Example upgrade_in_place :
  upgrade_effects (upgrade_cluster None (Some (upgrade_of InPlaceUpgrade))) =
  [GracefulFailoverAsked "ns_1@cb-0000.cb.ns.svc"; PodRecreated "cb-0000"].
Proof. vm_compute. reflexivity. Qed.

(** The other name of an upgrade in place is only honoured in the deprecated field. *)
Example delta_recovery_swaps :
  upgrade_effects (upgrade_cluster (Some DeltaRecovery) None) =
    upgrade_effects (upgrade_cluster (Some InPlaceUpgrade) None) ∧
  upgrade_effects (upgrade_cluster None (Some (upgrade_of DeltaRecovery))) =
    upgrade_effects (upgrade_cluster None (Some (upgrade_of SwapRebalance))).
Proof. split; vm_compute; reflexivity. Qed.

Lemma handleUpgradeNode_bounded_witness :
  let c := upgrade_cluster None (Some (upgrade_of InPlaceUpgrade)) in
  bounded 1 (upgrade_start c).1 (upgrade_once c).2.1 ∧ upgrade_effects c ≠ [].
Proof.
  split; [|vm_compute; discriminate].
  refine (proj1 (handleUpgradeNode_bounded (H2 := const None) (H4 := canonical_range) (λ _ w, (Ok [], w))
    (λ _ _, mret []) [] 0 [] (upgrade_start (upgrade_cluster None (Some (upgrade_of InPlaceUpgrade)))) 1 _ _ _ _ _)).
  - apply add_all_keyed, keyed_empty.
  - intros Hn. exfalso. revert Hn. vm_compute. discriminate.
  - reflexivity.
  - reflexivity.
  - reflexivity.
Defined.

(** The same pods when all run the new image: the upgrade that was under way ends, unless
    one of them is still to leave. *)
Definition new_pod (conditions : list PodCondition) (i : Z) : KPod :=
  let pod := sim_pod i "data" conditions in
  mkKPod (kp_Name pod) (kp_Namespace pod) (kp_Labels pod) (kp_Annotations pod) (kp_OwnerReferences pod)
    [(CouchbaseContainerName, "couchbase/server:7.6.2")] [] conditions false 0 "node" None "Running".

Definition upgraded_start (conditions : list PodCondition) : RS Sim * nullSchedulerImpl :=
  let pods := new_pod conditions <$> [0; 1; 2] in
  (mkRS empty_machine (set_spec (λ _, volume_spec None None) (sim_cluster 3 pods))
     (mkSim pods (mkClusterInfo ((λ i, sim_node i "active") <$> [0; 1; 2]) "none" true [] [] ∅) []
        {[VersionKey := "7.2.5"; Upgrading := UpgradeActive; UpgradeTime := "then"]} 0 (old_claim <$> [0; 1; 2])) [],
   NullScheduler {["data" := ServerList ["cb-0000"; "cb-0001"; "cb-0002"]]} ∅).

Definition end_upgrade (f : RS Sim * nullSchedulerImpl) : result () * (RS Sim * nullSchedulerImpl) :=
  reportUpgradeComplete (H2 := const None) (H4 := canonical_range) [] 0 (Some empty_state) f.

Example upgrade_still_ejecting :
  let r := end_upgrade (upgraded_start [mark PodPendingUpgradeBeforeEjectionCondition]) in
  r.1 = Ok tt ∧ sim_store (world r.2.1) !! Upgrading = Some UpgradeActive.
Proof. split; vm_compute; reflexivity. Qed.

Lemma reportUpgradeComplete_last_witness :
  let f := upgraded_start [] in
  upgrade_active (view := sim_store) f.1 ∧ ¬ upgrade_active (view := sim_store) (end_upgrade f).2.1 ∧
  ∃ zones pvcs f1, upgrade_candidates (H2 := const None) (H4 := canonical_range) [0%nat] 0 f = (Ok ([], zones, pvcs), f1).
Proof.
  assert (¬ upgrade_active (view := sim_store) (end_upgrade (upgraded_start [])).2.1) as Hend
    by (unfold upgrade_active; vm_compute; discriminate).
  split; [reflexivity|]. split; [exact Hend|].
  exact (proj2 (proj2 (proj2 (reportUpgradeComplete_last (view := sim_store) (ready := λ _, True) (H3 := const None)
    (H5 := canonical_range) (λ _ _, eq_refl) [] 0 (Some empty_state) (upgraded_start []) I eq_refl Hend)))).
Defined.
