(* ===== verification/CycleSpec.v ===== *)
(** * A whole reconcile cycle: all the handlers of [exec]

    Which pods a cycle gives up, and what of the machine it keeps.  The handlers that
    replace nodes and those around the reconcilers are taken together here: whatever
    relation the few steps preserve that change the machine, they preserve. *)

From Stdlib Require Import Ascii.
From S2P Require Import Prelude Effects GoLib Regex Digests Version UpgradePath Api Member Persistence Status.
From S2P Require Import ServerGroups Scheduler NullScheduler UpgradeOrder RollingUpgrade NodeStatus Pods Volumes Machine Rebalance.
From S2P Require Import Baseline PreviousVersion Claims Creation Recovery PendingInit Failover Scaling Upgrading.
From S2P Require Import Sim MachineSpec RebalanceSpec MachineTypes RecoverySpec ClaimsSpec CreationSpec FailoverSpec UpgradingSpec.
Local Open Scope Z_scope.

(** ** Handlers, by the relation their steps preserve *)
Section ways.
Context `{UpgradePlatform W} `{!ClaimPlatform W} `{PersistentStorage W} `{Environment} `{SpecJSON} `{MapRange}
  `{Scheduler Sc}.
Abbreviation R := (RS W).
Abbreviation FS := (RS W * Sc)%type.
Context (gatherBuckets : Cluster → M W (list Bucket)).
Context (addMembers : list nat → list ServerConfig → M FS (list (Member * option error))).
Context (Hadd : ∀ pos l, keeps quiet2 (addMembers pos l)).

(** The steps that change the machine. *)
Record machine_steps (Q : relation R) : Prop := {
  ms_preorder : PreOrder Q;
  ms_quiet s s' : quiet s s' → Q s s';
  ms_abort reason : keeps Q (abort (W := W) reason);
  ms_remove m : keeps Q (removeMember (W := W) m);
  ms_needs : keeps Q (modify (set_fsm (W := W) (set_needsRebalance true)));
  ms_hold b : keeps Q (modify (set_fsm (W := W) (set_holdAdditions b)));
  ms_dns ms (s : R) : (keyed (c_members (cl s)) → keyed ms) → Q s (set_fsm (set_pendingDNS ms) s);
  ms_undns n : keeps Q (modify (set_fsm (W := W) (λ r, set_pendingDNS (Remove n (pendingDNSMembers r)) r)));
  ms_roll method m : keeps Q (roll_back_one (W := W) method m);
}.

Context (Q : relation R) (HQ : machine_steps Q).
#[local] Instance steps_preorder : PreOrder Q := ms_preorder Q HQ.
Let Hquiet := ms_quiet Q HQ.
Let Habort := ms_abort Q HQ.
Let Hremove := ms_remove Q HQ.
Let Hneeds := ms_needs Q HQ.
Let Hhold := ms_hold Q HQ.
Let Hdns := ms_dns Q HQ.
Let Hundns := ms_undns Q HQ.
Let Hroll := ms_roll Q HQ.

Definition both (f f' : FS) : Prop := Q f.1 f'.1.
#[local] Instance both_preorder : PreOrder both.
Proof. split; unfold both; [by intros f|]. intros f1 f2 f3 H12 H23. by transitivity (f2.1). Qed.

Lemma quietly {A} (m : M R A) : keeps quiet m → keeps Q m.
Proof. intros Hm. by eapply keeps_weaken. Qed.

Lemma both_on_rs {A} (m : M R A) : keeps Q m → keeps both (on_rs (Sc := Sc) m).
Proof. intros Hm [s sc]. unfold both, on_rs, zoom. cbn [fst snd]. specialize (Hm s). by destruct (m s). Qed.

Lemma both_on_scheduler {A} (m : M Sc A) : keeps both (on_scheduler (W := W) m).
Proof. intros [s sc]. unfold both, on_scheduler, zoom. cbn [fst snd]. by destruct (m sc). Qed.

Lemma both_add pos l : keeps both (addMembers pos l).
Proof. intros f. apply Hquiet, Hadd. Qed.
#[local] Hint Resolve both_on_scheduler both_add Habort Hremove Hneeds Hhold Hundns Hroll : keeps.
#[local] Hint Extern 1 (keeps both (on_rs _)) => apply both_on_rs; keeps_tac : keeps.
#[local] Hint Extern 4 (keeps Q _) => apply quietly; solve [auto with keeps] : keeps.

(** *** By a swap, in place, and back *)
Lemma finish_swap_quiet l : ∀ candidates acc, keeps quiet (finish_swap (W := W) candidates acc l).
Proof.
  induction l as [|[new [e|]] l IH]; intros candidates acc; simpl; [keeps_tac|apply IH|].
  destruct candidates as [|old candidates]; [keeps_tac|].
  apply keeps_bind; [apply _|unfold setup_swap; keeps_tac|]. intros a. apply IH.
Qed.
#[local] Hint Resolve finish_swap_quiet : keeps.

Lemma prepare_swap_both l : ∀ pos, keeps both (prepare_swap (W := W) (Sc := Sc) pos l).
Proof. induction l as [|m l IH]; intros pos; simpl; keeps_tac. Qed.
#[local] Hint Resolve prepare_swap_both : keeps.

Lemma swap_both pos ms : keeps both (swapRebalanceMembers addMembers pos ms).
Proof. unfold swapRebalanceMembers. keeps_tac. Qed.

Lemma failover_quiet m : keeps quiet (failoverNodeForInPlaceUpgrade (W := W) m).
Proof. unfold failoverNodeForInPlaceUpgrade, gracefullyFailoverNode. keeps_tac. Qed.

Lemma graceful_quiet m : keeps quiet (gracefullyFailoverNode (W := W) m).
Proof. unfold gracefullyFailoverNode. keeps_tac. Qed.

Lemma recreateNode_quiet m b : keeps quiet (recreateNode (W := W) m b).
Proof. pose proof quiet_recreatePod. unfold recreateNode. keeps_tac. Qed.

Lemma reportUpgrade_quiet a b : keeps quiet (reportUpgrade (W := W) a b).
Proof. unfold reportUpgrade, begin_upgrade. keeps_tac. Qed.

Lemma many_quiet candidates : keeps quiet (multipleInPlaceUpgradesSupported (W := W) gatherBuckets candidates).
Proof. unfold multipleInPlaceUpgradesSupported. keeps_tac. Qed.
#[local] Hint Resolve swap_both failover_quiet graceful_quiet recreateNode_quiet reportUpgrade_quiet many_quiet : keeps.

Lemma in_place_both pos ms : keeps both (handleInPlaceUpgrade (Sc := Sc) gatherBuckets pos ms).
Proof. unfold handleInPlaceUpgrade, in_place_one. keeps_tac. Qed.

Lemma roll_back_both method batch l : ∀ pos removed,
  keeps both (roll_back (W := W) (Sc := Sc) pos method batch removed l).
Proof. induction l as [|m l IH]; intros pos removed; simpl; keeps_tac. Qed.
#[local] Hint Resolve in_place_both roll_back_both : keeps.

Lemma try_rollback_both pos ms : keeps both (tryRollbackWithoutSpareCapacity (W := W) (Sc := Sc) pos ms).
Proof. unfold tryRollbackWithoutSpareCapacity, rollback_batch. keeps_tac. Qed.
#[local] Hint Resolve try_rollback_both : keeps.

Lemma set_spec_quiet (f : ClusterSpec → ClusterSpec) :
  (∀ s, lasting (f s) = lasting s) → keeps quiet (modify (set_cl (W := W) (set_spec f))).
Proof.
  intros Hf. apply keeps_modify. intros s. apply quiet_same; try done. unfold fixed. cbn. by rewrite Hf.
Qed.
#[local] Hint Extern 1 (keeps quiet (modify (set_cl (set_spec _)))) => by apply set_spec_quiet : keeps.

(** *** The handlers that replace nodes *)
Lemma carry_out_both pos ms plan : keeps both (carry_out gatherBuckets addMembers pos ms plan).
Proof. destruct plan; simpl; unfold split_upgrade; keeps_tac. Qed.

Lemma upgrade_pods_both pos ms zone pvc : keeps both (upgrade_pods gatherBuckets addMembers pos ms zone pvc).
Proof. pose proof carry_out_both. unfold upgrade_pods, is_rollback. keeps_tac. Qed.

Lemma view_now_both : keeps both (view_now (W := W) (Sc := Sc)).
Proof. unfold view_now, query_orchestrator. keeps_tac. Qed.
#[local] Hint Resolve upgrade_pods_both view_now_both : keeps.

Lemma candidates_both pos fuel : keeps both (upgrade_candidates (W := W) (Sc := Sc) pos fuel).
Proof. unfold upgrade_candidates. keeps_tac. Qed.

Lemma changes_both pos fuel : keeps both (detect_changes (W := W) (Sc := Sc) pos fuel).
Proof. unfold detect_changes. keeps_tac. Qed.
#[local] Hint Resolve candidates_both changes_both : keeps.

Lemma stabilization_quiet pos : keeps quiet (handleUpgradeStabilization (W := W) pos).
Proof. unfold handleUpgradeStabilization. keeps_tac. Qed.

Lemma held_quiet : keeps quiet (upgrade_held (W := W)).
Proof. unfold upgrade_held, Baseline.clusterVersion. keeps_tac. Qed.

Lemma blockers_quiet : keeps quiet (getUpgradeBlockers (W := W)).
Proof. unfold getUpgradeBlockers, hasMemcachedBuckets, Baseline.clusterVersion. keeps_tac. Qed.
#[local] Hint Resolve stabilization_quiet held_quiet blockers_quiet : keeps.

Lemma handleUpgradeNode_both pos fuel : keeps both (handleUpgradeNode gatherBuckets addMembers pos fuel).
Proof. unfold handleUpgradeNode. keeps_tac. Qed.

Lemma orchestrator_quiet : keeps quiet (orchestrator_name (W := W)).
Proof. unfold orchestrator_name. keeps_tac. Qed.

Lemma constrain_quiet pos ms o : keeps quiet (constrain (W := W) pos ms o).
Proof. unfold constrain. keeps_tac. Qed.
#[local] Hint Resolve orchestrator_quiet constrain_quiet : keeps.

Lemma move_in_place_quiet : keeps quiet (modify (set_cl (W := W) (set_spec move_in_place))).
Proof. apply set_spec_quiet. intros s. unfold move_in_place. by destruct (cs_Upgrade s). Qed.
#[local] Hint Resolve move_in_place_quiet : keeps.

Lemma handleMoveNodes_both pos : keeps both (handleMoveNodes gatherBuckets addMembers pos).
Proof. unfold handleMoveNodes, move_pods, selectMoveCandidates, split_upgrade. keeps_tac. Qed.

Lemma handlePodHostname_both pos : keeps both (handlePodHostname addMembers pos).
Proof. unfold handlePodHostname, hostname_mismatch. keeps_tac. Qed.

Lemma clear_condition_quiet t : keeps quiet (clear_condition (W := W) t).
Proof. unfold clear_condition. keeps_tac. Qed.
#[local] Hint Resolve clear_condition_quiet : keeps.

Lemma handleServerServices_both pos : keeps both (handleServerServices addMembers pos).
Proof. unfold handleServerServices, getNodeServiceMismatchCandidates, service_mismatch. keeps_tac. Qed.

Lemma handleVolumeExpansion_both pos fuel : keeps both (handleVolumeExpansion (W := W) (Sc := Sc) pos fuel).
Proof. unfold handleVolumeExpansion, expand_member, expand_volume. keeps_tac. Qed.

Lemma getBucketMigrationCandidates_quiet : keeps quiet (getBucketMigrationCandidates (W := W) gatherBuckets).
Proof. unfold getBucketMigrationCandidates, Baseline.clusterVersion. keeps_tac. Qed.

Lemma reports_quiet : keeps quiet (reports_migration (W := W)).
Proof. unfold reports_migration, Baseline.clusterVersion. keeps_tac. Qed.

Lemma announce_quiet b : keeps quiet (announce_migration (W := W) b).
Proof. unfold announce_migration. keeps_tac. Qed.

Lemma set_or_clear_quiet b set t : keeps quiet (set_or_clear (W := W) b set t).
Proof. unfold set_or_clear. keeps_tac. Qed.
#[local] Hint Resolve getBucketMigrationCandidates_quiet reports_quiet announce_quiet set_or_clear_quiet : keeps.

Lemma handleBucketMigration_both pos : keeps both (handleBucketMigration gatherBuckets addMembers pos).
Proof. unfold handleBucketMigration, migrate, failoverMigrateMembers, failover_migrate_one. keeps_tac. Qed.

(** *** Around the reconcilers *)
Context (reconcileServerGroups : M R bool) (Hgroups : keeps quiet reconcileServerGroups).
Context (reconcilePodServices reconcileMemberAlternateAddresses : M R ()).
Context (Hservices : keeps quiet reconcilePodServices) (Haddresses : keeps quiet reconcileMemberAlternateAddresses).
Context (start_autoscaling end_autoscaling : M R ()) (ready_autoscaling : M R bool).
Context (Hstart : keeps quiet start_autoscaling) (Hend : keeps quiet end_autoscaling)
  (Hready : keeps quiet ready_autoscaling).
#[local] Hint Resolve Hgroups Hservices Haddresses Hstart Hend Hready : keeps.

Lemma handleServerGroups_Q : keeps Q (handleServerGroups reconcileServerGroups).
Proof. unfold handleServerGroups. keeps_tac. Qed.

Lemma waiting_keyed c w : keyed (c_members c) →
  keyed (Diff (Intersect (c_members c) (podsToMemberSet (getPendingDNSPods c w)))
           (podsToMemberSet (getPendingInitPods (W := W) c w))).
Proof. intros Hk. by apply keyed_filter, keyed_filter. Qed.

Lemma handleNodeServices_Q pos :
  keeps Q (handleNodeServices reconcilePodServices reconcileMemberAlternateAddresses pos).
Proof.
  unfold handleNodeServices. apply keeps_bind; [apply _|auto with keeps|]. intros _.
  apply keeps_bind; [apply _|auto with keeps|]. intros _. intros s.
  apply bind_state; [done|]. intros c s1 [= <- <-] _. apply bind_state; [done|]. intros w s1 [= <- <-] _.
  apply bind_state; [by apply Hdns, waiting_keyed|]. intros u s1 [= _ <-] Hs1. etrans; [exact Hs1|].
  match goal with |- Q ?x (?m _).2 => enough (keeps Q m) as Hm by apply (Hm x) end.
  unfold drop_unreachable. keeps_tac.
Qed.

Lemma handleAutoscaleServerConfigs_Q :
  keeps Q (handleAutoscaleServerConfigs start_autoscaling end_autoscaling ready_autoscaling).
Proof. unfold handleAutoscaleServerConfigs. keeps_tac. Qed.
End ways.

(** ** Adding pods deletes none of a member *)
Section adding.
Context `{ClaimPlatform W} `{PersistentStorage W} `{Environment} `{MapRange} `{SpecJSON} `{TrackerJSON} `{Scheduler Sc}.
Abbreviation R := (RS W).
Abbreviation FS := (RS W * Sc)%type.

#[local] Instance quiet2_preorder : PreOrder (quiet2 (W := W) (Sc := Sc)).
Proof. split; unfold quiet2; [by intros f|]. intros f1 f2 f3 H12 H23. by transitivity (f2.1). Qed.

(** [addMembers], if what it does in a cluster that is migrated deletes nothing. *)
Lemma quiet2_addMembers add pos schedule specs :
  (∀ specs results, keeps quiet2 (add specs results)) →
  keeps quiet2 (addMembers (W := W) (Sc := Sc) add pos schedule specs).
Proof.
  intros Hadd. unfold addMembers. apply keeps_bind; [apply _| |].
  - apply (createMembers_keeps quiet2). intros f w sc. by apply quiet_same.
  - intros results. apply keeps_bind; [apply _|intros [s sc]; by apply quiet_same|]. intros c.
    destruct (negb _); [apply keeps_ret, _|apply Hadd].
Qed.
End adding.

(** ** The whole list *)
Section cycle.
Context `{UpgradePlatform W} `{!ClaimPlatform W} `{PersistentStorage W} `{Environment} `{SpecJSON} `{MapRange}
  `{Scheduler Sc}.
Abbreviation R := (RS W).
Abbreviation FS := (RS W * Sc)%type.
Context (gatherBuckets : Cluster → M W (list Bucket)).
Context (addMembers : list nat → list ServerConfig → M FS (list (Member * option error))).
Context (candidate_funcs : list (list nat → M R MemberSet)).
Context {Size : Type} (size_lt size_ne : Size → Size → bool) (member_size : W → string → Size).
Context (reconcileServerGroups : M R bool).
Context (reconcilePodServices reconcileMemberAlternateAddresses : M R ()).
Context (startAutoscaling endAutoscaling : M R ()) (autoscalingReady : M R bool).

(** What the handlers take from elsewhere deletes no pod of a member: *)
Record arguments_quiet : Prop := {
  aq_add pos l : keeps quiet2 (addMembers pos l);
  aq_candidates : Forall (λ f, ∀ p, keeps quiet (f p)) candidate_funcs;
  aq_groups : keeps quiet reconcileServerGroups;
  aq_services : keeps quiet reconcilePodServices;
  aq_addresses : keeps quiet reconcileMemberAlternateAddresses;
  aq_start : keeps quiet startAutoscaling;
  aq_end : keeps quiet endAutoscaling;
  aq_ready : keeps quiet autoscalingReady;
}.
Context (Hquiet : arguments_quiet).

Abbreviation handlers := (reconcileFunctions gatherBuckets addMembers candidate_funcs size_lt size_ne member_size
  reconcileServerGroups reconcilePodServices reconcileMemberAlternateAddresses startAutoscaling endAutoscaling
  autoscalingReady).

Lemma previous_quiet pos l : keeps quiet (applyPreviousVersionToNewPods (W := W) pos l).
Proof. unfold applyPreviousVersionToNewPods, apply_previous, previous_positions, CheckClusterCompatVersion, Baseline.clusterVersion. keeps_tac. Qed.

(** *** Deletions *)
Section pres.
Context (c0 : Cluster).

Lemma failover_asked m (s s' : R) b :
  failoverNodeForInPlaceUpgrade m s = (Ok b, s') → failed_over (trace s') (Name m).
Proof.
  assert (∀ A e (x : M W A) (t t' : R) a, perform e x t = (Ok a, t') → e ∈ trace t') as Hasked.
  { intros A e x t t' a Hr. unfold perform in Hr. inv_ok Hr. injection Hr0 as _ <-.
    apply (keeps_run _ _ _ _ _ (on_world_only _)) in Hr as (_&_&->). apply elem_of_app. right. by left. }
  unfold failoverNodeForInPlaceUpgrade. intros Hrun. inv_ok Hrun. injection Hrun0 as <- <-.
  destruct (GetServerConfigByName _ _) as [class|]; [|done]. exists m. split; [done|].
  case_bool_decide; inv_ok Hrun; injection Hrun as _ <-; [left|right; by eapply Hasked].
  unfold gracefullyFailoverNode in Hrun0. inv_ok Hrun0. inv_ok Hrun0. inv_ok Hrun0. inv_ok Hrun0.
  apply (keeps_run _ _ _ _ _ (on_world_only _)) in Hrun0 as (_&_&->). by eapply Hasked.
Qed.

Lemma roll_back_one_pres method m : keeps (pres c0) (roll_back_one (W := W) method m).
Proof.
  unfold roll_back_one. destruct (bool_decide _).
  2: { apply keeps_bind; [apply _|apply quiet_pres; auto with keeps|]. intros _. apply removeMemberUser_pres. }
  intros s Hs. apply bind_state; [by apply (quiet_pres c0 _ (failover_quiet m))|].
  intros b s1 Hf Hs1. apply failover_asked in Hf.
  match goal with |- cycle_inv _ (?x s1).2 => set (rest := x) end.
  assert (pres c0 s1 (rest s1).2) as Hrest; [|by apply Hrest].
  unfold rest, removePod, perform.
  assert (cycle_inv c0 (log_effect (PodDeleted (Name m) true) s1)) as Hlog by (apply deleted_inv; [by right; right; right|done]).
  intros _. apply (bind_state (cycle_inv c0)).
  { apply bind_state; [exact Hlog|]. intros u s2 [= _ <-] _.
    apply (quiet_pres c0 _ (quiet_on_world _)). exact Hlog. }
  intros u s2 _ Hs2.
  match goal with |- cycle_inv _ (?x s2).2 => enough (keeps (pres c0) x) as Hm by by apply Hm end.
  apply keeps_bind; [apply _|apply quiet_pres, quiet_on_world|]. intros _.
  apply keeps_bind; [apply _|apply quiet_pres, quiet_set_members; auto|]. intros _. apply removeMemberNoEject_pres.
Qed.

Lemma pres_steps : machine_steps (pres (W := W) c0).
Proof.
  split.
  - apply _.
  - intros s s'. apply quiet_inv.
  - apply abort_pres.
  - apply removeMember_pres.
  - apply keeps_modify. intros s Hs. pose proof Hs. destruct Hs. apply fsm_inv; simpl; auto.
  - intros b. apply keeps_modify. intros s Hs. pose proof Hs. destruct Hs. by apply fsm_inv.
  - intros ms s _ Hs. pose proof Hs. destruct Hs. by apply fsm_inv.
  - intros n. apply keeps_modify. intros s Hs. pose proof Hs. destruct Hs. by apply fsm_inv.
  - apply roll_back_one_pres.
Qed.
End pres.

(** *** The machine *)
#[local] Existing Instance stays_preorder.

Lemma stays_steps : machine_steps (stays_well_formed (W := W)).
Proof.
  assert (∀ m, keeps stays_well_formed (removeMemberNoEject (W := W) m)) as Hno.
  { intros m. apply fsm_stays; [done|]. intros r []. simpl. unfold Remove. auto using keyed_delete. }
  split.
  - apply _.
  - intros s s'. apply quiet_stays_state.
  - apply abort_stays.
  - apply removeMember_stays.
  - apply fsm_stays; [done|]. by intros r [].
  - intros b. apply fsm_stays; [done|]. by intros r [].
  - intros ms s Hms. apply fsm_stays_from; [done|]. intros [[] Hc]. simpl. auto.
  - intros n. apply fsm_stays; [done|]. intros r []. simpl. unfold Remove. auto using keyed_delete.
  - intros method m. unfold roll_back_one, removePod, perform. pose proof (failover_quiet m).
    assert (∀ e, keeps stays_well_formed (modify (log_effect (W := W) e))) by (intros e; by apply keeps_modify).
    assert (∀ A (x : M W A), keeps stays_well_formed (on_world x)) by (intros A x; apply quiet_stays, quiet_on_world).
    assert (keeps stays_well_formed (modify (set_cl (W := W) (λ c, set_members (c_members c) (Remove (Name m) (c_callableMembers c)) c))))
      by (apply quiet_stays, quiet_set_members; auto).
    pose proof (removeMemberUser_stays (W := W) m). pose proof (quiet_stays _ (failover_quiet m)). keeps_tac.
Qed.

(** *** All the handlers *)
Section lists.
Context (Q : relation R) (HQ : machine_steps Q).
Context (Htopology : ∀ pos, Forall (keeps Q) [handleRebalanceCheck (0%nat :: pos); handleWarmupNodes;
  handleDownNodes (2%nat :: pos); handleUnclusteredNodes (3%nat :: pos); handleFailedAddNodes (4%nat :: pos);
  handleAddBackNodes (5%nat :: pos); handleFailedNodes (6%nat :: pos); handleUnknownServerConfigs (7%nat :: pos)]).
Context (Hremoving : ∀ pos, keeps (both Q) (handleRemoveNode (Sc := Sc) candidate_funcs size_lt size_ne member_size pos)).
Context (Hadding : ∀ pos pos', keeps (both Q) (handleAddNode (applyPreviousVersionToNewPods pos) (addMembers pos'))).

Lemma before_rebalance pos fuel : Forall (keeps (both Q)) (take 19 (handlers pos fuel)).
Proof.
  destruct Hquiet. specialize (Htopology pos). cbn [take reconcileFunctions].
  do 8 (apply Forall_cons in Htopology as [? Htopology]; apply Forall_cons; split; [by apply both_on_rs|]).
  repeat (apply Forall_cons; split); [..|by apply Forall_nil_2].
  - by apply handleVolumeExpansion_both.
  - by apply handleServerServices_both.
  - by apply handleMoveNodes_both.
  - by apply handlePodHostname_both.
  - done.
  - by apply handleUpgradeNode_both.
  - by apply handleBucketMigration_both.
  - done.
  - by apply both_on_rs, handleServerGroups_Q.
  - by apply both_on_rs, handleNodeServices_Q.
  - by apply both_on_rs, handleAutoscaleServerConfigs_Q.
Qed.
End lists.

Lemma before_rebalance_pres c0 (Hhost : cs_UnmanagedClusterHost (Spec (c_cluster c0)) = None) pos fuel :
  Forall (keeps (pres2 c0)) (take 19 (handlers pos fuel)).
Proof.
  apply (before_rebalance (pres c0) (pres_steps c0)).
  - intros p. repeat (apply Forall_cons; split); [..|by apply Forall_nil_2];
      auto using handleRebalanceCheck_pres, handleWarmupNodes_pres, handleDownNodes_pres, handleUnclusteredNodes_pres,
        handleFailedAddNodes_pres, handleAddBackNodes_pres, handleFailedNodes_pres, handleUnknownServerConfigs_pres.
  - intros p. apply handleRemoveNode_pres, Hquiet.
  - intros p p'. apply handleAddNode_pres; [apply previous_quiet|apply Hquiet|done].
Qed.

Lemma handlers_stay pos fuel : Forall (keeps stays2) (handlers pos fuel).
Proof.
  rewrite <- (take_drop 19 (handlers pos fuel)). apply Forall_app. split.
  - apply (before_rebalance stays_well_formed stays_steps).
    + intros p. repeat (apply Forall_cons; split); [..|by apply Forall_nil_2].
      2: { unfold handleWarmupNodes. pose proof (abort_stays (W := W)). keeps_tac. }
      all: auto using handleRebalanceCheck_stays, handleDownNodes_stays, handleUnclusteredNodes_stays,
        handleFailedAddNodes_stays, handleAddBackNodes_stays, handleFailedNodes_stays, handleUnknownServerConfigs_stays.
    + intros p. apply handleRemoveNode_stays, Hquiet.
    + intros p p'. apply handleAddNode_stays; [apply previous_quiet|apply Hquiet].
  - cbn [drop reconcileFunctions]. repeat (apply Forall_cons; split); [..|by apply Forall_nil_2]; apply on_rs_stays.
    + apply handleRebalance_stays.
    + apply handleEjectedMembers_stays.
    + apply keeps_ret, _.
Qed.


(** C6: the machine is well formed for the whole of a cycle: a new machine, and the one all
    the handlers leave on any outcome, has every set of members keyed by their names and a
    64-bit unsigned number of retries; and no handler changes what was noted when the
    machine was built: the state of the nodes, the unclustered and stabilising members, the
    pods to be initialised and the retries. *)
Theorem cycle_well_formed pos fuel (s s1 : R) (sc : Sc) r
    (Hkeyed : keyed (c_members (cl s))) (Hnew : newReconcileMachine (0%nat :: pos) s = (Ok r, s1)) :
  let s2 := (exec (handlers (1%nat :: pos) fuel) (set_fsm (const r) s1, sc)).2.1 in
  well_formed r ∧ well_formed (fsm s2) ∧ keyed (c_members (cl s2)) ∧ noted (fsm s2) = noted r.
Proof.
  intros s2. pose proof (new_machine_well_formed _ _ _ _ Hkeyed Hnew) as Hr. split; [done|].
  destruct (exec_stays _ (handlers_stay (1%nat :: pos) fuel) (set_fsm (const r) s1, sc)) as [Hn Hw].
  pose proof (keeps_run _ _ _ _ _ (quiet_newReconcileMachine _) Hnew) as (_&_&_&_&_&Hk).
  destruct Hw as [Hw Hc]; [by split; [|by apply Hk]|]. done.
Qed.
End cycle.

(** ** The cycle, evaluated

    All the handlers over the simulated platform, with the repository's [addMembers] and
    without candidates for removal; the reconcilers have nothing to do. *)
#[local] Existing Instances volume_json no_tracker volume_claims.

Definition plain_add (pos : list nat) (specs : list ServerConfig) :
    M (RS Sim * nullSchedulerImpl) (list (Member * option error)) :=
  addMembers (H2 := const None) (H3 := canonical_range) (λ _ _, mret []) pos [] specs.

Definition plain_handlers : list (M (RS Sim * nullSchedulerImpl) ()) :=
  reconcileFunctions (H2 := const None) (H4 := canonical_range) (λ _ w, (Ok [], w)) plain_add []
    (λ _ _, false) (λ _ _, false) (λ _ _, tt) (mret false) (mret ()) (mret ()) (mret ()) (mret ()) (mret true)
    [1%nat] 0.

Definition plain_machine (s : RS Sim) : result ReconcileMachine * RS Sim :=
  newReconcileMachine (H1 := const None) (H2 := canonical_range) [0%nat] s.

Definition plain_run (r : ReconcileMachine) (s1 : RS Sim) : RS Sim :=
  (exec plain_handlers (set_fsm (const r) s1, NullScheduler.NullScheduler ∅ ∅)).2.1.

Definition plain_cycle (s : RS Sim) : result (list (list string) * list string) :=
  (λ r, let t := trace (plain_run r (plain_machine s).2) in (rebalances t, deleted t)) <$> (plain_machine s).1.

(** Where only members that are not active hold the gate shut, writing the status
    does not matter. *)
Lemma sim_gate_stable c :
  AllowExternallyUnreachablePods (c_networking c) = None → gate_stable (W := Sim) c.
Proof.
  intros Hc s r. unfold gate, canRebalance. rewrite Hc.
  enough (sim_pods (world (updateCRStatus s).2) = sim_pods (world s)) as Hp.
  { unfold podsBlockingRebalance, getPendingDNSPods, getClusterPods. simpl. by rewrite Hp. }
  unfold updateCRStatus, mbind, M_bind, gets, on_world, zoom, attempt. simpl.
  by repeat (case_match; simpl).
Qed.

Lemma plain_quiet : arguments_quiet (W := Sim) (Sc := nullSchedulerImpl) plain_add [] (mret false) (mret ()) (mret ())
  (mret ()) (mret ()) (mret true).
Proof.
  split; try apply keeps_ret, _; [|apply Forall_nil_2]. intros pos l. apply quiet2_addMembers.
  intros specs results. apply keeps_ret, quiet2_preorder.
Qed.


Lemma cycle_well_formed_witness :
  ∃ r, (plain_machine scaled_state).1 = Ok r ∧ Names (ejectMembers r) = ["cb-0000"] ∧
    noted (fsm (plain_run r (plain_machine scaled_state).2)) = noted r.
Proof.
  assert ((λ r, Names (ejectMembers r)) <$> (plain_machine scaled_state).1 = Ok ["cb-0000"]) as Hr
    by (vm_compute; reflexivity).
  destruct (plain_machine scaled_state) as [[r| |] s1] eqn:E; [|discriminate Hr..].
  injection Hr as Hr. exists r. split; [reflexivity|]. split; [exact Hr|].
  exact (proj2 (proj2 (proj2 (cycle_well_formed (H2 := const None) (H4 := canonical_range) (λ _ w, (Ok [], w)) plain_add []
    (λ _ _, false) (λ _ _, false) (λ _ _, tt) (mret false) (mret ()) (mret ()) (mret ()) (mret ()) (mret true)
    plain_quiet [] 0 scaled_state s1 (NullScheduler.NullScheduler ∅ ∅) r (add_all_keyed _ _ keyed_empty) E)))).
Defined.

(** *** When writing the status opens the gate

    A class was removed from the specification while a pod of another class still
    waits for its address.  The delay of that pod runs out after
    [handleRebalance] held back and before [handleEjectedMembers] looks: the
    active node of the removed class loses its pod, and no rebalance was asked
    for. *)
Definition race_pods : list KPod :=
  [sim_pod 0 "old" []; sim_pod 1 "data" []; sim_pod 2 "data" [mark PodPendingExternalDNSCondition]].

Definition race_state : RS Sim :=
  mkRS empty_machine
    (let c := sim_cluster 2 race_pods in
     mkCluster (c_cluster c) (mkNetworking (Some true) (Some 19) None false false None None None [] None) (c_settings c) (c_UID c)
       (c_members c) (c_callableMembers c) ∅ ∅ ∅ ∅)
    (mkSim race_pods (mkClusterInfo ((λ i, sim_node i "active") <$> [0; 1; 2]) "none" true [] [] ∅) [] ∅ 0 []) [].

Example ejected_without_rebalance : plain_cycle race_state = Ok ([], ["cb-0000"]).
Proof. vm_compute. reflexivity. Qed.
