(* ===== verification/GroupSyncSpec.v ===== *)
(** * Server groups: theorems about [GroupSync] *)

From S2P Require Import Prelude Effects GoLib Regex Digests Version Api Member Persistence Status.
From S2P Require Import UpgradeOrder NodeStatus Pods Machine Rebalance Baseline GroupSync Sim MachineSpec.
Local Open Scope Z_scope.

(** ** The update *)
Definition update_nodes (groups : list ServerGroupUpdate) : list string := groups ≫= su_Nodes.

(** In the group of the name is the node. *)
Definition updated_in (groups : list ServerGroupUpdate) (name otp : string) : Prop :=
  ∃ g, g ∈ groups ∧ su_Name g = name ∧ otp ∈ su_Nodes g.

(** Where a node belongs. *)
Definition target (scheduled : result string) (existingGroup : string) : string :=
  match scheduled with Ok g => g | _ => existingGroup end.

Lemma add_node_perm otp (groups : list ServerGroupUpdate) (index : nat) g :
  groups !! index = Some g → update_nodes (alter (add_node otp) index groups) ≡ₚ update_nodes groups ++ [otp].
Proof.
  revert index. unfold update_nodes. induction groups as [|h l IH]; intros [|index] Hi; simpl in *; [done..| |].
  - injection Hi as ->. rewrite <- !app_assoc. f_equiv. apply Permutation_app_comm.
  - rewrite (IH index Hi). by rewrite app_assoc.
Qed.

Lemma add_node_shape {B} (f : ServerGroupUpdate → B) otp (index : nat) (groups : list ServerGroupUpdate) :
  (∀ g, f (add_node otp g) = f g) → f <$> alter (add_node otp) index groups = f <$> groups.
Proof.
  intros Hf. revert index. induction groups as [|h l IH]; intros [|index]; simpl; [done..| |].
  - by rewrite Hf.
  - f_equal. apply IH.
Qed.

Lemma add_node_in otp (index : nat) (groups : list ServerGroupUpdate) name x :
  updated_in groups name x → updated_in (alter (add_node otp) index groups) name x.
Proof.
  intros (g&[i Hi]%list_elem_of_lookup&Hn&Hx). destruct (decide (i = index)) as [->|Hne].
  - exists (add_node otp g). split; [|split; [done|]].
    + apply list_elem_of_lookup. exists index. rewrite list_lookup_alter_eq, Hi. reflexivity.
    + apply elem_of_app. by left.
  - exists g. split; [|done]. apply list_elem_of_lookup. exists i. rewrite list_lookup_alter_ne; [exact Hi|by intros ->].
Qed.

Lemma serverGroupIndex_ok groups name index :
  serverGroupIndex groups name = Ok index → ∃ g, groups !! index = Some g ∧ su_Name g = name.
Proof.
  unfold serverGroupIndex. destruct (list_find _ groups) as [[i g]|] eqn:E; [|done]. intros [= <-].
  apply list_find_Some in E as (Hi&Hn&_). eauto.
Qed.

Lemma place_nodes_spec scheduled l : ∀ update groups u new,
  place_nodes scheduled update groups l = Ok (Some (u, new)) →
  su_Name <$> new = su_Name <$> groups ∧ su_URI <$> new = su_URI <$> groups ∧
  update_nodes new ≡ₚ update_nodes groups ++ ((λ e, ni_OTPNode e.2) <$> l) ∧
  (∀ name x, updated_in groups name x → updated_in new name x) ∧
  (∀ i g n, l !! i = Some (g, n) →
     updated_in new (target (scheduled (length l - S i)%nat n) g) (ni_OTPNode n)) ∧
  (u = true ↔ update = true ∨ ∃ i g n, l !! i = Some (g, n) ∧ target (scheduled (length l - S i)%nat n) g ≠ g).
Proof.
  induction l as [|[g n] l IH]; intros update groups u new Hp; simpl in Hp.
  { injection Hp as -> ->. split; [done|]. split; [done|]. simpl. rewrite app_nil_r.
    split; [done|]. split; [done|]. split; [by intros []|]. split; [by left|].
    intros [?|([]&?&?&?&_)]; done. }
  fold (target (scheduled (length l) n) g) in Hp. set (t := target _ _) in *.
  case_bool_decide as Ht; [done|].
  destruct (serverGroupIndex groups t) as [index| |] eqn:Hi; [|done..]. simpl in Hp.
  apply serverGroupIndex_ok in Hi as (h&Hh&Hn).
  destruct (IH _ _ _ _ Hp) as (HN&HU&HP&Hmono&Hin&Hu). clear IH Hp.
  rewrite !(add_node_shape _ _ index) in * by done.
  assert (updated_in new t (ni_OTPNode n)) as Hnew.
  { apply Hmono. exists (add_node (ni_OTPNode n) h). split; [|split; [done|]].
    - apply list_elem_of_lookup. exists index. rewrite list_lookup_alter_eq, Hh. reflexivity.
    - apply elem_of_app. right. by left. }
  split; [done|]. split; [done|]. split; [|split; [|split]].
  - rewrite HP, (add_node_perm _ _ _ h Hh), <- app_assoc. done.
  - intros name x Hx. by apply Hmono, add_node_in.
  - intros [|i] g' n' Hi; simpl in Hi |- *.
    + injection Hi as <- <-. by rewrite Nat.sub_0_r.
    + by apply Hin.
  - rewrite Hu, orb_true_iff, bool_decide_eq_true. split.
    + intros [[?|Hne]|(i&g'&n'&Hi&Hne)]; [by left| |].
      * right. exists 0%nat, g, n. split; [done|]. simpl. by rewrite Nat.sub_0_r.
      * right. by exists (S i), g', n'.
    + intros [?|([|i]&g'&n'&Hi&Hne)]; [by left; left| |]; simpl in Hi, Hne.
      * injection Hi as <- <-. rewrite Nat.sub_0_r in Hne. left. by right.
      * right. by exists i, g', n'.
Qed.

Lemma update_nodes_empty gs : update_nodes (empty_update <$> gs) = [].
Proof. by induction gs. Qed.

(** An update of the server groups has every group Couchbase listed, under its name and
    its URI, and every node exactly once: in the group its pod is scheduled in, and in
    the one it is in if there is no such pod.  It is asked for only if a node moves. *)
Theorem place_spec (scheduled : nat → NodeInfo → result string) (existing : ServerGroups) update new :
  place scheduled existing = Ok (Some (update, new)) →
  let nodes := grouped_nodes existing in
  let wanted i g n := target (scheduled (length nodes - S i)%nat n) g in
  su_Name <$> new = sg_Name <$> sgs_Groups existing ∧ su_URI <$> new = sg_URI <$> sgs_Groups existing ∧
  update_nodes new ≡ₚ (λ e, ni_OTPNode e.2) <$> nodes ∧
  (∀ i g n, nodes !! i = Some (g, n) → updated_in new (wanted i g n) (ni_OTPNode n)) ∧
  (update = true ↔ ∃ i g n, nodes !! i = Some (g, n) ∧ wanted i g n ≠ g).
Proof.
  intros Hp nodes wanted. apply place_nodes_spec in Hp as (HN&HU&HP&_&Hin&Hu).
  rewrite <- !list_fmap_compose in HN, HU. rewrite update_nodes_empty in HP.
  split; [exact HN|]. split; [exact HU|]. split; [exact HP|]. split; [exact Hin|].
  rewrite Hu. fold nodes. split; [by intros [?|?]|by right].
Qed.

(** ** The whole step

    [groups_of] is what Couchbase has.  Listing says it; creating a group takes none away
    and moves no node; an update that succeeds puts every node where it says.  Nobody else
    changes the groups or the pods meanwhile. *)
Class GroupLaws (W : Type) `{Platform W} `{!GroupPlatform W} (groups_of : W → ServerGroups) : Prop := {
  list_groups t w : let r := cb_ListServerGroups t w in
    groups_of r.2 = groups_of w ∧ (∀ n, Pods_Get r.2 n = Pods_Get w n) ∧ ∀ g, r.1 = Ok g → g = groups_of w;
  create_group_adds name t w : let w' := (cb_CreateServerGroup name t w).2 in
    (∀ n, Pods_Get w' n = Pods_Get w n) ∧ grouped_nodes (groups_of w') ≡ₚ grouped_nodes (groups_of w) ∧
    ∀ g, HasServerGroup (groups_of w) g = true → HasServerGroup (groups_of w') g = true;
  update_groups revision update t w w' : cb_UpdateServerGroups revision update t w = (Ok tt, w') →
    (∀ n, Pods_Get w' n = Pods_Get w n) ∧
    sg_Name <$> sgs_Groups (groups_of w') = su_Name <$> update ∧
    ∀ g n, (g, n) ∈ grouped_nodes (groups_of w') →
      (∃ g', (g', n) ∈ grouped_nodes (groups_of w)) ∧ updated_in update g (ni_OTPNode n);
  retry_groups w : groups_of (retry_tick w) = groups_of w ∧ ∀ n, Pods_Get (retry_tick w) n = Pods_Get w n;
}.

Section settles.
Context `{Platform W} `{!GroupPlatform W} `{MapRange} (groups_of : W → ServerGroups) `{!GroupLaws W groups_of}.

(** Between two states: the cluster object, the pods and the places of the nodes are the
    same, and no group was lost. *)
Definition no_group_lost (s s' : RS W) : Prop :=
  cl s' = cl s ∧ (∀ n, Pods_Get (world s') n = Pods_Get (world s) n) ∧
  grouped_nodes (groups_of (world s')) ≡ₚ grouped_nodes (groups_of (world s)) ∧
  ∀ g, HasServerGroup (groups_of (world s)) g = true → HasServerGroup (groups_of (world s')) g = true.

#[local] Instance no_group_lost_preorder : PreOrder no_group_lost.
Proof.
  split; [by intros s|]. intros s1 s2 s3 (C1&P1&N1&G1) (C2&P2&N2&G2). split; [congruence|].
  split; [intros n; by rewrite P2|]. split; [by etrans|auto].
Qed.

Lemma list_step t s r s' :
  on_world (cb_ListServerGroups t) s = (r, s') →
  no_group_lost s s' ∧ groups_of (world s') = groups_of (world s) ∧ ∀ g, r = Ok g → g = groups_of (world s').
Proof.
  pose proof (list_groups t (world s)) as Hl. unfold on_world, zoom.
  destruct (cb_ListServerGroups t (world s)) as [r' w']. simpl in *. destruct Hl as (Hg&Hp&Hr).
  intros [= <- <-]. simpl. split; [split; [done|]; split; [done|simpl; by rewrite Hg]|]. split; [done|].
  intros g Hgr. rewrite Hg. by apply Hr.
Qed.

Lemma create_step name t s r s' :
  on_world (cb_CreateServerGroup name t) s = (r, s') → no_group_lost s s'.
Proof.
  pose proof (create_group_adds name t (world s)) as Hl. unfold on_world, zoom.
  destruct (cb_CreateServerGroup name t (world s)) as [r' w']. simpl in *. intros [= <- <-]. by split.
Qed.

Lemma wait_step serverGroup n : ∀ s g s',
  Retry n (λ s, set_world (retry_tick (world s)) s) (list_until_there serverGroup) s = (Ok g, s') →
  no_group_lost s s' ∧ g = groups_of (world s') ∧ HasServerGroup g serverGroup = true.
Proof.
  assert (∀ s r s1, list_until_there serverGroup s = (r, s1) → no_group_lost s s1 ∧
    ∀ g, r = Ok g → g = groups_of (world s1) ∧ HasServerGroup g serverGroup = true) as Hone.
  { intros s r s1. unfold list_until_there, mbind, M_bind, gets.
    destruct (on_world _ s) as [[g|e|] s2] eqn:E; apply list_step in E as (Hn&_&Hg).
    - destruct (HasServerGroup g serverGroup) eqn:Hh; intros [= <- <-]; split; [done| |done|done].
      intros g' [= <-]. auto.
    - intros [= <- <-]. split; [done|]. done.
    - intros [= <- <-]. split; [done|]. done. }
  induction n as [|n IH]; intros s g s'; simpl; destruct (list_until_there serverGroup s) as [[g1|e|] s1] eqn:E;
    apply Hone in E as [Hn Hg]; try done.
  - intros [= -> ->]. split; [done|]. by apply Hg.
  - intros [= -> ->]. split; [done|]. by apply Hg.
  - intros Hr. apply IH in Hr as (Hn2&?&?). split; [|done]. etrans; [exact Hn|]. etrans; [|exact Hn2].
    destruct (retry_groups (world s1)) as [Hg1 Hp1]. split; [done|]. simpl. split; [done|]. by rewrite Hg1.
Qed.

Lemma create_groups_step l : ∀ existing s g s',
  for_fold create_group existing l s = (Ok g, s') → existing = groups_of (world s) →
  no_group_lost s s' ∧ g = groups_of (world s') ∧ ∀ x, x ∈ l → HasServerGroup g x = true.
Proof.
  induction l as [|x l IH]; intros existing s g s' Hf He; simpl in Hf.
  { injection Hf as <- <-. split; [done|]. split; [done|]. intros x Hx. by apply not_elem_of_nil in Hx. }
  inv_ok Hf. rename a into existing1, s0 into s1, Hf0 into Hc.
  assert (no_group_lost s s1 ∧ existing1 = groups_of (world s1) ∧ HasServerGroup existing1 x = true) as (Hn&He1&Hx).
  { unfold create_group in Hc. destruct (HasServerGroup existing x) eqn:Hh; [by injection Hc as <- <-; subst|].
    inv_ok Hc. injection Hc0 as <- <-. inv_ok Hc. apply create_step in Hc0.
    unfold retry_R in Hc. apply wait_step in Hc as (Hn&?&?). split; [by etrans|done]. }
  destruct (IH _ _ _ _ Hf He1) as (Hn2&Hg&Hl). split; [by etrans|]. split; [done|].
  intros y [->|Hy]%elem_of_cons; [|by apply Hl]. rewrite Hg. apply Hn2. by rewrite <- He1.
Qed.

(** With every group there, nothing is created. *)
Lemma create_groups_idle l existing s :
  (∀ x, x ∈ l → HasServerGroup existing x = true) → for_fold create_group existing l s = (Ok existing, s).
Proof.
  induction l as [|x l IH]; intros Hl; simpl; [done|]. unfold mbind at 1, M_bind, create_group at 1.
  rewrite (Hl x) by by left. simpl. apply IH. intros y Hy. apply Hl. by right.
Qed.

Lemma HasServerGroup_names g1 g2 x :
  sg_Name <$> sgs_Groups g1 = sg_Name <$> sgs_Groups g2 → HasServerGroup g1 x = HasServerGroup g2 x.
Proof.
  unfold HasServerGroup. revert g2. destruct g1 as [l1 ?], g2 as [l2 ?]. simpl. revert l2.
  induction l1 as [|h l1 IH]; intros [|h2 l2] Hl; simpl in *; try done. injection Hl as Hh Hl. by rewrite Hh, (IH l2).
Qed.

(** Members with the same OTP name have one name. *)
Definition otp_names (ms : MemberSet) : Prop :=
  ∀ m1 m2, m1 ∈ members ms → m2 ∈ members ms → GetOTPNode m1 = GetOTPNode m2 → Name m1 = Name m2.

Lemma getPodName_order pos pos' c n : otp_names (c_members c) → getPodName pos c n = getPodName pos' c n.
Proof.
  intros Ho. unfold getPodName. destruct (negb _); [done|].
  set (P := λ e : string * Member, GetOTPNode e.2 = ni_OTPNode n).
  assert (∀ p q i e, list_find P (range p (c_members c)) = Some (i, e) →
    ∃ j e', list_find P (range q (c_members c)) = Some (j, e') ∧ Name e.2 = Name e'.2) as Hsome.
  { intros p q i e (Hi&He&_)%list_find_Some. apply list_elem_of_lookup_2 in Hi. rewrite range_perm in Hi.
    destruct (list_find P (range q (c_members c))) as [[j e']|] eqn:E.
    - exists j, e'. split; [done|]. apply list_find_Some in E as (Hj&He'&_). apply list_elem_of_lookup_2 in Hj.
      rewrite range_perm in Hj. apply Ho; [..|unfold P in He, He'; congruence]; apply elem_of_members.
      + exists e.1. apply elem_of_map_to_list. by destruct e.
      + exists e'.1. apply elem_of_map_to_list. by destruct e'.
    - exfalso. apply list_find_None in E. rewrite Forall_forall in E. apply (E e); [|done]. by rewrite range_perm. }
  destruct (list_find P (range pos _)) as [[i e]|] eqn:E.
  - destruct (Hsome _ pos' _ _ E) as (j&e'&->&Hn). done.
  - destruct (list_find P (range pos' _)) as [[i e]|] eqn:E'; [|done].
    destruct (Hsome _ pos _ _ E') as (j&e'&Hj&_). by rewrite E in Hj.
Qed.

Lemma scheduled_order pos pos' c w w' n :
  otp_names (c_members c) → (∀ x, Pods_Get w' x = Pods_Get w x) →
  scheduled_group pos c w n = scheduled_group pos' c w' n.
Proof. intros Ho Hp. unfold scheduled_group. by rewrite Hp, (getPodName_order pos pos' _ _ Ho). Qed.

Lemma updated_in_unique new a b x : NoDup (update_nodes new) → updated_in new a x → updated_in new b x → a = b.
Proof.
  intros Hnd (g1&H1&<-&X1) (g2&H2&<-&X2). f_equal. revert Hnd H1 H2. unfold update_nodes.
  induction new as [|g l IH]; simpl; [by intros _ []%not_elem_of_nil|].
  rewrite NoDup_app. intros (_&Hd&Hl) [->|H1]%elem_of_cons [->|H2]%elem_of_cons; [done| | |by apply IH].
  - exfalso. apply (Hd x X1). apply list_elem_of_bind. eauto.
  - exfalso. apply (Hd x X2). apply list_elem_of_bind. eauto.
Qed.

(** A run that changes the groups, taken apart. *)
Lemma reconcileServerGroups_true pos s s' :
  reconcileServerGroups pos s = (Ok true, s') → ∃ s1 new revision t,
    no_group_lost s s1 ∧ ServerGroupsEnabled (Spec (c_cluster (cl s))) = true ∧
    (∀ x, x ∈ getServerGroups (0%nat :: pos) (cl s) → HasServerGroup (groups_of (world s1)) x = true) ∧
    place (λ i, scheduled_group (i :: 1%nat :: pos) (cl s) (world s1)) (groups_of (world s1)) = Ok (Some (true, new)) ∧
    cb_UpdateServerGroups revision new t (world s1) = (Ok tt, world s') ∧ cl s' = cl s.
Proof.
  unfold reconcileServerGroups. intros Hr. inv_ok Hr. injection Hr0 as <- <-.
  destruct (ServerGroupsEnabled _) eqn:Hen; simpl in Hr; [|done].
  inv_ok Hr. rename a into g0. apply list_step in Hr0 as (N0&_&Hg0). specialize (Hg0 g0 eq_refl).
  inv_ok Hr. rename a into g1. unfold createServerGroups in Hr0. inv_ok Hr0. injection Hr1 as <- <-.
  destruct (create_groups_step _ _ _ _ _ Hr0 Hg0) as (N1&Hg1&Hall). clear Hr0.
  inv_ok Hr. injection Hr0 as <- <-. inv_ok Hr. injection Hr0 as <- <-. inv_ok Hr.
  injection Hr0 as Hp <-. destruct a as [[[] new]|]; [|done..].
  inv_ok Hr. injection Hr0 as _ <-. inv_ok Hr. injection Hr as <-.
  destruct a0. exists s1, new, a. eexists. split; [by etrans|]. split; [done|].
  assert (cl s0 = cl s) as E0 by apply N0. assert (cl s1 = cl s) as E1 by (etrans; [apply N1|exact E0]).
  rewrite E0 in Hall. rewrite E1 in Hp. subst g1. split; [exact Hall|]. split; [exact Hp|].
  unfold on_world, zoom in Hr0. destruct (cb_UpdateServerGroups _ _ _ _) as [r w] eqn:E.
  injection Hr0 as -> <-. split; [exact E|done].
Qed.

Lemma elem_of_getServerGroups pos pos' c x : x ∈ getServerGroups pos c → x ∈ getServerGroups pos' c.
Proof. unfold getServerGroups. intros Hx. rewrite range_perm in Hx |- *. exact Hx. Qed.

(** With every group there and every node in its place, a run changes nothing. *)
Lemma reconcileServerGroups_idle pos s r s' :
  (∀ x, x ∈ getServerGroups (0%nat :: pos) (cl s) → HasServerGroup (groups_of (world s)) x = true) →
  (∀ p g n g', (g, n) ∈ grouped_nodes (groups_of (world s)) →
     scheduled_group p (cl s) (world s) n = Ok g' → g' = g) →
  otp_names (c_members (cl s)) →
  reconcileServerGroups pos s = (r, s') → r ≠ Ok true ∧ groups_of (world s') = groups_of (world s).
Proof.
  intros Hall Hthere Ho. unfold reconcileServerGroups, mbind at 1, M_bind, gets at 1.
  destruct (ServerGroupsEnabled _) eqn:Hen; [|by intros [= <- <-]]. simpl.
  unfold mbind at 1, M_bind. destruct (on_world _ s) as [[g2|e|] s2] eqn:E; apply list_step in E as ((C2&P2&_)&G2&Hg2);
    [|by intros [= <- <-]..].
  specialize (Hg2 g2 eq_refl). subst g2. rewrite G2.
  unfold mbind at 1, M_bind, createServerGroups, mbind at 1, M_bind, gets at 1. rewrite C2.
  rewrite create_groups_idle by done. unfold mbind, M_bind, gets, lift. rewrite C2.
  destruct (place _ _) as [[[u new]|]|e|] eqn:Hp; [|by intros [= <- <-]..].
  destruct u; [|by intros [= <- <-]]. exfalso.
  destruct (place_spec _ _ _ _ Hp) as (_&_&_&_&Hu).
  destruct (proj1 Hu eq_refl) as (i&g&n&Hi&Hne). apply Hne. unfold target.
  destruct (scheduled_group _ _ _ n) as [g'|e|] eqn:Hs; [|done..].
  apply list_elem_of_lookup_2 in Hi. apply (Hthere pos g n g' Hi). rewrite <- Hs.
  apply scheduled_order; [done|]. intros y. by rewrite P2.
Qed.

(** C30: when an update of the server groups succeeds, every node whose pod was scheduled in a
    group is in that group; and the next time round there is nothing left to do: no group
    is created and no update is asked for. *)
Theorem reconcileServerGroups_settles pos pos' s s' :
  otp_names (c_members (cl s)) →
  NoDup ((λ e, ni_OTPNode e.2) <$> grouped_nodes (groups_of (world s))) →
  reconcileServerGroups pos s = (Ok true, s') →
  (∀ g n g', (g, n) ∈ grouped_nodes (groups_of (world s')) →
     scheduled_group pos' (cl s') (world s') n = Ok g' → g' = g) ∧
  ∀ r s'', reconcileServerGroups pos' s' = (r, s'') → r ≠ Ok true ∧ groups_of (world s'') = groups_of (world s').
Proof.
  intros Ho Hd Hr. apply reconcileServerGroups_true in Hr as (s1&new&rev&t&(_&P1&N1&_)&Hen&Hall&Hp&Hu&Hcl).
  destruct (place_spec _ _ _ _ Hp) as (HN&_&HP&Hin&_).
  destruct (update_groups _ _ _ _ _ Hu) as (P2&HN2&Hmove).
  assert (NoDup (update_nodes new)) as Hnd by (by rewrite HP, N1).
  assert (∀ pos'' g n g', (g, n) ∈ grouped_nodes (groups_of (world s')) →
     scheduled_group pos'' (cl s') (world s') n = Ok g' → g' = g) as Hthere.
  { intros p g n g' Hg Hs. destruct (Hmove _ _ Hg) as [[g0 [i Hi]%list_elem_of_lookup] Hin1].
    specialize (Hin i g0 n Hi). rewrite Hcl in Hs.
    rewrite (scheduled_order _ p _ _ (world s') _ Ho ltac:(intros; by rewrite P2)), Hs in Hin.
    exact (updated_in_unique _ _ _ _ Hnd Hin Hin1). }
  split; [apply Hthere|]. intros r s'' Hr.
  apply (reconcileServerGroups_idle pos' s'); [|exact Hthere|by rewrite Hcl|exact Hr].
  intros x Hx. rewrite Hcl in Hx. rewrite (HasServerGroup_names _ (groups_of (world s1))) by congruence.
  by apply Hall, (elem_of_getServerGroups (0%nat :: pos')).
Qed.
End settles.

(** ** A witness: two nodes in two groups, one of them in the wrong one *)
Definition GroupWorld : Type := Sim * list (string * list NodeInfo).

#[local] Instance group_platform : Platform GroupWorld := platform_beside.

Definition groups_in (w : GroupWorld) : ServerGroups :=
  mkServerGroups ((λ e, mkServerGroup e.1 e.2 ("/groups/" +:+ e.1)) <$> w.2) "/pools/default/serverGroups?rev=1".

Definition rearrange (nodes : list NodeInfo) (update : list ServerGroupUpdate) : list (string * list NodeInfo) :=
  (λ u, (su_Name u, filter (λ n, ni_OTPNode n ∈ su_Nodes u) nodes)) <$> update.

#[local] Instance group_requests : GroupPlatform GroupWorld := {|
  cb_ListServerGroups _ w := (Ok (groups_in w), w);
  cb_CreateServerGroup name _ w := (Ok tt, (w.1, w.2 ++ [(name, [])]));
  cb_UpdateServerGroups _ update _ w := (Ok tt, (w.1, rearrange (w.2 ≫= snd) update));
|}.

Lemma grouped_in w : grouped_nodes (groups_in w) = e ← w.2; (λ n, (e.1, n)) <$> e.2.
Proof.
  unfold grouped_nodes, groups_in. destruct w as [w l]. simpl. induction l as [|e l IH]; [done|].
  simpl in *. f_equal. exact IH.
Qed.

#[local] Instance group_laws : GroupLaws GroupWorld groups_in.
Proof.
  split.
  - intros t w. split; [done|]. split; [done|]. by intros g [= <-].
  - intros name t w. split; [done|]. split.
    + rewrite !grouped_in. simpl. by rewrite bind_app, app_nil_r.
    + intros g. unfold HasServerGroup, groups_in. simpl. rewrite fmap_app, existsb_app. intros ->. done.
  - intros revision update t w w' [= <-]. split; [done|]. split.
    + unfold groups_in, rearrange. simpl. by rewrite <- !list_fmap_compose.
    + intros g n. rewrite !grouped_in. unfold rearrange. simpl. intros ([g0 l]&Hn&[u [[= -> ->] Hu]]%list_elem_of_fmap)%list_elem_of_bind.
      simpl in Hn. apply list_elem_of_fmap in Hn as (n'&[= -> <-]&[Hin Hn]%list_elem_of_filter). split; [|by exists u].
      apply list_elem_of_bind in Hn as ([g' l']&Hn&He). exists g'. apply list_elem_of_bind. exists (g', l').
      split; [|done]. apply list_elem_of_fmap. eauto.
  - intros w. done.
Qed.

(** A pod of a group. *)
Definition group_pod (i : Z) (group : string) : KPod :=
  let pod := sim_pod i "data" [] in
  mkKPod (kp_Name pod) (kp_Namespace pod) (kp_Labels pod) (kp_Annotations pod) (kp_OwnerReferences pod)
    (kp_Containers pod) (kp_ContainerStatuses pod) (kp_Conditions pod) false 0 "node"
    (Some {[ServerGroupLabel_const := group]}) "Running".

Definition with_groups (s : ClusterSpec) : ClusterSpec := {|
  cs_Image := cs_Image s; cs_EnvImagePrecedence := cs_EnvImagePrecedence s; cs_Servers := cs_Servers s;
  cs_ServerGroups := ["a"; "b"]; cs_ServerGroupsLabelOverride := ""; cs_ShuffleServerGroups := false;
  cs_RecoveryPolicy := None; cs_UpgradeProcess := None; cs_UpgradeStrategy := None; cs_RollingUpgrade := None;
  cs_Upgrade := None; cs_EnableOnlineVolumeExpansion := false; cs_UnmanagedClusterHost := None;
  cs_Paused := false; cs_Hibernate := false |}.

Definition grouped_start : RS GroupWorld :=
  let pods := [group_pod 0 "a"; group_pod 1 "b"] in
  let c := sim_cluster 2 pods in
  let cc := c_cluster c in
  mkRS empty_machine
    (mkCluster {| Namespace := Namespace cc; Api.Name := Api.Name cc; Spec := with_groups (Spec cc); Status := Status cc |}
       (c_networking c) (c_settings c) (c_UID c) (c_members c) (c_callableMembers c) ∅ ∅ ∅ ∅)
    (mkSim pods (mkClusterInfo [] "none" true [] [] ∅) [] ∅ 0 [],
     [("a", (λ i, sim_node i "active") <$> [0; 1])]) [].

Lemma reconcileServerGroups_settles_witness :
  let r := reconcileServerGroups (H0 := canonical_range) [] grouped_start in
  r.1 = Ok true ∧
  map (λ e, (e.1, map ni_OTPNode e.2)) (world r.2).2 =
    [("a", ["ns_1@cb-0000.cb.ns.svc"]); ("b", ["ns_1@cb-0001.cb.ns.svc"])] ∧
  (reconcileServerGroups (H0 := canonical_range) [] r.2).1 ≠ Ok true.
Proof.
  set (r := reconcileServerGroups (H0 := canonical_range) [] grouped_start).
  split; [vm_compute; reflexivity|]. split; [vm_compute; reflexivity|].
  apply (reconcileServerGroups_settles (H0 := canonical_range) groups_in [] [] grouped_start r.2) with
    (s'' := (reconcileServerGroups (H0 := canonical_range) [] r.2).2).
  - intros m1 m2 H1 H2. apply elem_of_members in H1 as (n1&H1), H2 as (n2&H2).
    apply elem_of_map_to_list in H1, H2. revert H1 H2.
    set (l := map_to_list _). vm_compute in l. subst l.
    intros [H1|[H1|[]%not_elem_of_nil]%elem_of_cons]%elem_of_cons [H2|[H2|[]%not_elem_of_nil]%elem_of_cons]%elem_of_cons;
      injection H1 as -> ->; injection H2 as -> ->; vm_compute; congruence.
  - apply (bool_decide_eq_true_1 (NoDup _)). vm_compute. reflexivity.
  - vm_compute. reflexivity.
  - by destruct (reconcileServerGroups [] r.2).
Defined.
