(* ===== verification/UnreconcilableSpec.v ===== *)
(** * Resources left alone: theorems about [Unreconcilable] *)

From Stdlib Require Import Ascii.
From S2P Require Import Prelude Effects GoLib Unreconcilable.
Local Open Scope Z_scope.

(** ** The name of the cluster in a message *)
Lemma prefix_other a s c t : a ≠ c → String.prefix (String a s) (String c t) = false.
Proof. intros Hne. simpl. by destruct (ascii_dec a c). Qed.

Lemma Cut_cons c s sep :
  String.prefix sep (String c s) = false →
  strings_Cut (String c s) sep =
    match strings_Cut s sep with (before, after, true) => (String c before, after, true) | _ => (String c s, "", false) end.
Proof. intros Hp. cbn [strings_Cut]. by rewrite Hp. Qed.

Lemma Cut_label name detail :
  no_byte ":"%char name →
  strings_Cut (UnreconcilableMessage name detail) unreconcilableMessageSeparator = (name, detail, true).
Proof.
  unfold UnreconcilableMessage, unreconcilableMessageSeparator, no_byte.
  induction name as [|c name IH]; intros Hno; [by destruct detail|]. rewrite append_cons.
  cbn [string_bytes] in Hno. apply not_elem_of_cons in Hno as [Hc Hno].
  by rewrite (Cut_cons _ _ _ (prefix_other _ _ _ _ Hc)), (IH Hno).
Qed.

Lemma message_cluster name detail k :
  no_byte ":"%char name → oc_Message k = UnreconcilableMessage name detail → UnreconcilableClusterName k = name.
Proof. intros Hno Hk. unfold UnreconcilableClusterName. by rewrite Hk, Cut_label. Qed.

Lemma message_detail name detail k :
  no_byte ":"%char name → oc_Message k = UnreconcilableMessage name detail → UnreconcilableDetail k = detail.
Proof. intros Hno Hk. unfold UnreconcilableDetail. by rewrite Hk, Cut_label. Qed.

Lemma doesConditionMatch_true k status reason message gen :
  doesConditionMatch k status reason message gen = true ↔
  oc_Status k = status ∧ oc_Reason k = reason ∧ oc_Message k = message ∧ oc_ObservedGeneration k = gen.
Proof. unfold doesConditionMatch. rewrite !andb_true_iff, !bool_decide_eq_true. tauto. Qed.

(** ** One object *)
Definition foreign (name : string) (o : Aware) : list Condition :=
  filter (λ k, isUnreconcilableFor name k = false) (aw_Conditions o).

Section set.
Context (name status reason detail : string) (gen now : Z) (Hname : no_byte ":"%char name).
Let message := UnreconcilableMessage name detail.

Lemma stated_is_mine k : oc_Type k = ConditionTypeUnreconcilable → oc_Message k = message → isUnreconcilableFor name k = true.
Proof.
  intros Ht Hm. unfold isUnreconcilableFor. rewrite (message_cluster name detail k Hname Hm), !bool_decide_eq_true_2; done.
Qed.

Lemma restate_is_mine k :
  isUnreconcilableFor name k = true → isUnreconcilableFor name (restate k status reason message gen now) = true.
Proof.
  intros [Ht _]%andb_true_iff. apply stated_is_mine; [|done]. by apply bool_decide_eq_true in Ht.
Qed.

(** What the loop leaves: mine, the others, and whether something changed. *)
Lemma upsert_spec l :
  let r := upsert_unreconcilable name status reason message gen now l in
  filter (λ k, isUnreconcilableFor name k = false) r.2 = filter (λ k, isUnreconcilableFor name k = false) l ∧
  (∃ k, find (isUnreconcilableFor name) r.2 = Some k ∧ doesConditionMatch k status reason message gen = true ∧
     oc_LastTransitionTime k =
       match find (isUnreconcilableFor name) l with
       | Some old => if bool_decide (oc_Status old = status) then oc_LastTransitionTime old else now
       | None => now
       end) ∧
  (r.1 = false ↔ ∃ k, find (isUnreconcilableFor name) l = Some k ∧ doesConditionMatch k status reason message gen = true) ∧
  (r.1 = false → r.2 = l) ∧
  ∀ name', name' ≠ name → find (isUnreconcilableFor name') r.2 = find (isUnreconcilableFor name') l.
Proof.
  assert (∀ k name', isUnreconcilableFor name k = true → name' ≠ name → isUnreconcilableFor name' k = false) as Hother.
  { intros k name' [_ Hk%bool_decide_eq_true]%andb_true_iff Hne. unfold isUnreconcilableFor.
    rewrite (bool_decide_eq_false_2 (_ = name')) by congruence. apply andb_false_r. }
  induction l as [|k l IH]; simpl.
  - set (k := mkObjectCondition _ _ _ _ _ _).
    assert (isUnreconcilableFor name k = true) as Hk by by apply stated_is_mine.
    rewrite filter_cons_False by congruence. split; [done|]. rewrite Hk. split.
    { exists k. split; [done|]. split; [by apply doesConditionMatch_true|done]. }
    split; [by split; [|intros (?&?&_)]|]. split; [done|]. intros name' Hne. by rewrite (Hother k).
  - destruct (isUnreconcilableFor name k) eqn:Hk; simpl.
    + destruct (doesConditionMatch k status reason message gen) eqn:Hm; simpl.
      * rewrite Hk. split; [done|]. split.
        { exists k. split; [done|]. split; [done|]. apply doesConditionMatch_true in Hm as (Hs&_).
          by rewrite bool_decide_eq_true_2. }
        split; [split; [by exists k|done]|]. done.
      * set (k' := restate k status reason message gen now).
        assert (isUnreconcilableFor name k' = true) as Hk' by by apply restate_is_mine.
        rewrite !filter_cons_False by congruence. split; [done|]. rewrite Hk'. split.
        { exists k'. split; [done|]. split; [by apply doesConditionMatch_true|]. simpl.
          by do 2 case_bool_decide. }
        split; [split; [done|intros (?&[= <-]&?); congruence]|]. split; [done|].
        intros name' Hne. by rewrite (Hother k'), (Hother k).
    + destruct (upsert_unreconcilable name status reason message gen now l) as [changed l'].
      simpl in *. destruct IH as (Hf&Hm&Hc&Hs&Ho). rewrite Hk.
      rewrite !filter_cons_True by done. split; [by f_equal|]. split; [done|]. split; [done|].
      split; [intros Hch; f_equal; auto|]. intros name' Hne. by rewrite Ho.
Qed.
End set.

(** The condition of a cluster on a resource reads back as it was written, the detail too,
    whatever it contains; a condition that says so already is not written again; the time
    of the transition moves only with the status; and the conditions of other clusters on
    the same resource, and conditions of other types, stay as they are. *)
Theorem SetUnreconcilable_spec (object : Aware) (name status reason detail : string) (gen now : Z) :
  no_byte ":"%char name →
  let r := SetUnreconcilable object name status reason detail gen now in
  (∃ k, GetUnreconcilable r.2 name = Some k ∧ oc_Status k = status ∧ oc_Reason k = reason ∧
     UnreconcilableDetail k = detail ∧ oc_ObservedGeneration k = gen ∧
     oc_LastTransitionTime k =
       match GetUnreconcilable object name with
       | Some old => if bool_decide (oc_Status old = status) then oc_LastTransitionTime old else now
       | None => now
       end) ∧
  IsUnreconcilableConditionUpToDate r.2 name status reason detail gen = true ∧
  (r.1 = false ↔ IsUnreconcilableConditionUpToDate object name status reason detail gen = true) ∧
  (r.1 = false → r.2 = object) ∧
  foreign name r.2 = foreign name object ∧
  ∀ name', name' ≠ name → GetUnreconcilable r.2 name' = GetUnreconcilable object name'.
Proof.
  intros Hname. unfold SetUnreconcilable, GetUnreconcilable, IsUnreconcilableConditionUpToDate, foreign.
  destruct (upsert_spec name status reason detail gen now Hname (aw_Conditions object)) as (Hf&(k&Hk&Hm&Ht)&Hc&Hs&Ho).
  destruct (upsert_unreconcilable _ _ _ _ _ _ _) as [changed l]. simpl in *. split.
  { exists k. split; [done|]. apply doesConditionMatch_true in Hm as (?&?&Hmsg&?).
    split; [done|]. split; [done|]. split; [by apply (message_detail name)|]. done. }
  unfold GetUnreconcilable. simpl. rewrite Hk. split; [done|]. split.
  { rewrite Hc. destruct (find _ (aw_Conditions object)) as [k0|]; [|by split; [intros (?&?&_)|]].
    split; [by intros (?&[= <-]&?)|eauto]. }
  split; [|done]. intros Hch. rewrite (Hs Hch). by destruct object.
Qed.

Lemma SetUnreconcilable_spec_witness :
  let other := mkObjectCondition ConditionTypeUnreconcilable "True" 1 5 "ValidationFailed" "east: bad: name" in
  let object := mkAware "b" 2 [other] in
  let r := SetUnreconcilable object "west" "True" "QuotaExceeded" "no: memory" 2 9 in
  r.1 = true ∧ GetUnreconcilable r.2 "east" = Some other ∧
  ∃ k, GetUnreconcilable r.2 "west" = Some k ∧ UnreconcilableDetail k = "no: memory" ∧ oc_LastTransitionTime k = 9.
Proof.
  intros other object r.
  destruct (SetUnreconcilable_spec object "west" "True" "QuotaExceeded" "no: memory" 2 9) as ((k&Hk&_&_&Hd&_&Ht)&_&_&_&_&Ho).
  { apply (bool_decide_eq_true_1 (no_byte _ _)). vm_compute. reflexivity. }
  split; [vm_compute; reflexivity|]. split; [etrans; [exact (Ho "east" ltac:(done))|vm_compute; reflexivity]|].
  exists k. split; [exact Hk|]. split; [exact Hd|]. etrans; [exact Ht|vm_compute; reflexivity].
Defined.

(** ** The tracker against its log

    What a cycle has complained of so far: the complaints in their order, the names of
    buckets, and which resource declares a bucket. *)
Record Log := mkLog {
  lg_complaints : list (Ref * (string * string));
  lg_buckets : gset string;
  lg_refs : gmap string Ref;
}.

Definition log_op (log : Log) (op : TrackerOp) : Log :=
  match op with
  | OpBeginCycle => mkLog [] ∅ ∅
  | OpMark ref reason message => mkLog (lg_complaints log ++ [(ref, (reason, message))]) (lg_buckets log) (lg_refs log)
  | OpMarkBucket b reason message =>
      mkLog (lg_complaints log ++ match lg_refs log !! b with Some ref => [(ref, (reason, message))] | None => [] end)
        ({[b]} ∪ lg_buckets log) (lg_refs log)
  | OpSetBucketRef b ref => mkLog (lg_complaints log) (lg_buckets log) (<[b := ref]> (lg_refs log))
  end.

Definition log_of (ops : list TrackerOp) : Log := fold_left log_op ops (mkLog [] ∅ ∅).

(** The complaints about a resource: reason and message. *)
Definition complaints (log : Log) (ref : Ref) : list (string * string) :=
  snd <$> filter (λ c, c.1 = ref) (lg_complaints log).

Definition summary (l : list (string * string)) : option Entry :=
  match l with
  | [] => None
  | (reason, _) :: _ => Some (mkEntry reason (strings_Join l.*2 "; "))
  end.

Definition tracks (log : Log) (t : Tracker) : Prop :=
  (∀ ref, tr_entries t !! ref = summary (complaints log ref)) ∧
  (∀ ref, ref ∈ tr_skipped t ↔ complaints log ref ≠ [] ∨ ∃ b, b ∈ lg_buckets log ∧ ref = (KindBucketName, b)) ∧
  tr_bucketRefs t = lg_refs log.

Lemma Join_snoc l x : l ≠ [] → strings_Join (l ++ [x]) "; " = strings_Join l "; " +:+ "; " +:+ x.
Proof.
  induction l as [|y l IH]; intros Hl; [done|]. destruct l as [|z l]; [done|].
  change ((y :: z :: l) ++ [x]) with (y :: (z :: l) ++ [x]).
  assert (∀ a k, k ≠ [] → strings_Join (a :: k) "; " = a +:+ "; " +:+ strings_Join k "; ") as Hcons by (by intros a []).
  rewrite !Hcons by (by try destruct l). rewrite IH by done. by rewrite !append_assoc.
Qed.

Lemma summary_snoc l reason message :
  summary (l ++ [(reason, message)]) = Some
    match summary l with
    | Some e => mkEntry (en_Reason e) (en_Message e +:+ "; " +:+ message)
    | None => mkEntry reason message
    end.
Proof.
  destruct l as [|[r m] l]; [done|]. simpl. f_equal. f_equal. rewrite fmap_app.
  exact (Join_snoc (m :: l.*2) message ltac:(done)).
Qed.

Lemma complaints_snoc log ref0 c ref bs refs :
  complaints (mkLog (lg_complaints log ++ [(ref0, c)]) bs refs) ref =
    if bool_decide (ref0 = ref) then complaints log ref ++ [c] else complaints log ref.
Proof.
  unfold complaints. simpl. rewrite filter_app, fmap_app. case_bool_decide as Heq.
  - by rewrite filter_cons_True.
  - by rewrite filter_cons_False, app_nil_r.
Qed.

Lemma tracks_mark log t ref reason message :
  tracks log t →
  tracks (mkLog (lg_complaints log ++ [(ref, (reason, message))]) (lg_buckets log) (lg_refs log)) (Mark ref reason message t).
Proof.
  intros (He&Hs&Hr). unfold Mark. split; [|split; [|done]]; simpl.
  - intros ref'. rewrite complaints_snoc. case_bool_decide as Heq.
    + subst ref'. rewrite lookup_insert_eq, summary_snoc, He. by destruct (summary _).
    + rewrite lookup_insert_ne by done. apply He.
  - intros ref'. rewrite complaints_snoc, elem_of_union, elem_of_singleton, Hs. case_bool_decide as Heq.
    + subst ref'. split; [intros _; left|by left]. intros Hn. by apply app_eq_nil in Hn as [_ ?].
    + split; [intros [->|?]; [done|done]|by right].
Qed.

Lemma tracks_op log t op : tracks log t → tracks (log_op log op) (track op t).
Proof.
  intros Ht. destruct op as [|ref reason message|b reason message|b ref]; simpl.
  - split; [done|]. split; [|done]. intros ref. simpl. split; [by intros ?%elem_of_empty|].
    intros [?|(b&Hb&_)]; [done|]. by apply elem_of_empty in Hb.
  - by apply tracks_mark.
  - pose proof Ht as (_&_&Hr). unfold MarkBucket, BucketRef. rewrite Hr.
    set (log1 := mkLog (lg_complaints log ++
      match lg_refs log !! b with Some ref => [(ref, (reason, message))] | None => [] end) (lg_buckets log) (lg_refs log)).
    set (t1 := match lg_refs log !! b with Some ref => Mark ref reason message t | None => t end).
    assert (tracks log1 t1) as (He1&Hs1&Hr1).
    { unfold log1, t1. destruct (lg_refs log !! b) as [ref|]; [by apply tracks_mark|].
      rewrite app_nil_r. by destruct log. }
    split; [exact He1|]. split; [|exact Hr1]. intros ref. simpl. rewrite elem_of_union, elem_of_singleton, Hs1.
    change (complaints (mkLog _ _ _) ref) with (complaints log1 ref). split.
    + intros [->|[?|(b'&Hb&->)]]; [right; exists b; set_solver|by left|right; exists b'; simpl in Hb; set_solver].
    + intros [?|(b'&[->%elem_of_singleton|Hb]%elem_of_union&->)]; [right; by left|by left|right; right; eauto].
  - destruct Ht as (He&Hs&Hr). split; [exact He|]. split; [exact Hs|]. simpl. by rewrite Hr.
Qed.

(** C31: the tracker says of a cycle what its log says.  A resource is left alone exactly if
    something was found about it since the cycle began (a bucket also under the name
    Couchbase has for it, even if no resource is known to declare it); what is reported on
    it is the first reason with all the messages, and of the others that they are valid. *)
Theorem tracker_refines_log (clusterName : string) (ops : list TrackerOp) (kind name : string) :
  let t := run_ops ops (NewTracker clusterName) in
  let found := complaints (log_of ops) (kind, name) in
  (IsSkipped t kind name = true ↔ found ≠ [] ∨ (kind = KindBucketName ∧ name ∈ lg_buckets (log_of ops))) ∧
  verdict t kind name =
    match found with
    | [] => ("False", ReasonValidated, validatedDetail)
    | (reason, _) :: _ => ("True", reason, strings_Join found.*2 "; ")
    end.
Proof.
  assert (∀ log t, tracks log t → tracks (fold_left log_op ops log) (run_ops ops t)) as Hops.
  { induction ops as [|op l IH]; intros log t Ht; simpl; [done|]. by apply IH, tracks_op. }
  destruct (Hops (mkLog [] ∅ ∅) (NewTracker clusterName)) as (He&Hs&_).
  { split; [done|]. split; [|done]. intros ref. simpl. split; [by intros ?%elem_of_empty|].
    intros [?|(b&Hb&_)]; [done|]. by apply elem_of_empty in Hb. }
  intros t found. fold t in He, Hs. split.
  - unfold IsSkipped. rewrite bool_decide_eq_true, Hs. fold (log_of ops).
    split; intros [?|?]; [by left| |by left|]; right; [|naive_solver].
    destruct H as (b&Hb&[= -> ->]). done.
  - unfold verdict, GetEntry. rewrite He. fold (log_of ops). change (complaints _ _) with found.
    by destruct found as [|[reason m] l].
Qed.

(** ** Writing the conditions

    A status that is written is the one the cache has next; the cache of a kind has an
    object of a name once. *)
Definition put_object (o : Aware) (l : list Aware) : list Aware :=
  (λ x, if bool_decide (aw_Name x = aw_Name o) then o else x) <$> l.

Class StatusLaws (W : Type) `{StatusPlatform W} : Prop := {
  write_status kind o w : let r := aware_updateStatus kind o w in
    r.1 = Ok tt ∧ aware_list r.2 kind = put_object o (aware_list w kind) ∧
    ∀ kind', kind' ≠ kind → aware_list r.2 kind' = aware_list w kind';
}.

Section flush.
Context `{StatusLaws W} (t : Tracker) (Hname : no_byte ":"%char (tr_clusterName t)).

(** What a flush may do to an object of the kind: state the verdict, if it is not there. *)
Definition stated (kind : string) (o o' : Aware) : Prop :=
  aw_Name o' = aw_Name o ∧ aw_Generation o' = aw_Generation o ∧
  foreign (tr_clusterName t) o' = foreign (tr_clusterName t) o ∧
  (needsStatusUpdate t kind o = false → o' = o).

Lemma stated_refl kind o : stated kind o o.
Proof. by split; [|split; [|split]]. Qed.

Lemma stated_trans kind o1 o2 o3 : stated kind o1 o2 → stated kind o2 o3 → stated kind o1 o3.
Proof.
  intros (N1&G1&F1&S1) (N2&G2&F2&S2). split; [congruence|]. split; [congruence|]. split; [congruence|].
  intros Hn. specialize (S1 Hn). subst o2. auto.
Qed.

(** One object that is in the cache. *)
Lemma flushObject_step kind o w :
  NoDup (aw_Name <$> aware_list w kind) → o ∈ aware_list w kind →
  let r := flushObject t kind o w in
  r.1 = Ok tt ∧ (∀ kind', kind' ≠ kind → aware_list r.2 kind' = aware_list w kind') ∧
  Forall2 (λ x y, stated kind x y ∧ (aw_Name x = aw_Name o → needsStatusUpdate t kind y = false) ∧
                  (aw_Name x ≠ aw_Name o → y = x))
    (aware_list w kind) (aware_list r.2 kind).
Proof.
  intros Hnd Ho r. subst r.
  assert (∀ x, x ∈ aware_list w kind → aw_Name x = aw_Name o → x = o) as Huniq.
  { intros x [i Hi]%list_elem_of_lookup Hx. apply list_elem_of_lookup in Ho as [j Hj].
    assert (i = j) as ->; [|congruence].
    apply (NoDup_lookup _ i j (aw_Name o) Hnd); rewrite list_lookup_fmap; [by rewrite Hi, <- Hx|by rewrite Hj]. }
  unfold flushObject, mbind, M_bind, get.
  destruct (verdict t kind (aw_Name o)) as [[status reason] detail] eqn:Hv.
  destruct (SetUnreconcilable_spec o (tr_clusterName t) status reason detail (aw_Generation o) (aware_now w) Hname)
    as (_&Hup&Hch&Hsame&Hf&_).
  assert (aw_Name (SetUnreconcilable o (tr_clusterName t) status reason detail (aw_Generation o) (aware_now w)).2 = aw_Name o
    ∧ aw_Generation (SetUnreconcilable o (tr_clusterName t) status reason detail (aw_Generation o) (aware_now w)).2
      = aw_Generation o) as [HN HG].
  { unfold SetUnreconcilable. by destruct (upsert_unreconcilable _ _ _ _ _ _ _). }
  destruct (SetUnreconcilable _ _ _ _ _ _ _) as [changed o'] eqn:Hset. simpl in *.
  assert (needsStatusUpdate t kind o' = false) as Hdone.
  { unfold needsStatusUpdate. rewrite HN, Hv, HG. by rewrite Hup. }
  destruct changed; simpl.
  - destruct (write_status kind o' w) as (Hok&Hl&Hother). unfold ignore_error, attempt, mbind, M_bind.
    destruct (aware_updateStatus kind o' w) as [r' w']. simpl in *. subst r'. simpl.
    split; [done|]. split; [done|]. rewrite Hl. unfold put_object. apply Forall2_fmap_r, Forall_Forall2_diag, Forall_forall.
    intros x Hx. simpl. rewrite HN. case_bool_decide as Heq.
    + pose proof (Huniq x Hx Heq) as ->. split; [|by split].
      split; [done|]. split; [done|]. split; [done|]. intros Hn. exfalso.
      assert (true = false); [|done]. apply Hch. unfold needsStatusUpdate in Hn. rewrite Hv in Hn.
      by apply negb_false_iff in Hn.
    + split; [apply stated_refl|]. by split.
  - split; [done|]. split; [done|]. specialize (Hsame eq_refl). subst o'.
    apply Forall_Forall2_diag, Forall_forall. intros x Hx. split; [apply stated_refl|]. split; [|done].
    intros Heq. by rewrite (Huniq x Hx Heq).
Qed.

Lemma flush_objects kind l : ∀ w,
  NoDup (aw_Name <$> aware_list w kind) → NoDup (aw_Name <$> l) → (∀ o, o ∈ l → o ∈ aware_list w kind) →
  let r := for_each (flushObject t kind) l w in
  r.1 = Ok tt ∧ (∀ kind', kind' ≠ kind → aware_list r.2 kind' = aware_list w kind') ∧
  Forall2 (λ x y, stated kind x y ∧ (x ∈ l → needsStatusUpdate t kind y = false))
    (aware_list w kind) (aware_list r.2 kind).
Proof.
  induction l as [|o l IH]; intros w Hnd Hl Hin; simpl.
  { split; [done|]. split; [done|]. apply Forall_Forall2_diag, Forall_forall. intros x _.
    split; [apply stated_refl|]. by intros ?%not_elem_of_nil. }
  apply NoDup_cons in Hl as [Hno Hl].
  destruct (flushObject_step kind o w Hnd (Hin o ltac:(by left))) as (Hok&Hother&Hone).
  unfold mbind, M_bind. destruct (flushObject t kind o w) as [r1 w1]. simpl in *. subst r1.
  assert (aw_Name <$> aware_list w1 kind = aw_Name <$> aware_list w kind) as Hnames.
  { symmetry. apply list_eq_Forall2, Forall2_fmap. eapply Forall2_impl; [exact Hone|]. intros x y ((Hn&_)&_). done. }
  destruct (IH w1) as (Hok2&Hother2&Hrest); [by rewrite Hnames|done| |].
  { intros x Hx. specialize (Hin x ltac:(by right)). apply list_elem_of_lookup in Hin as [i Hi].
    destruct (Forall2_lookup_l _ _ _ _ _ Hone Hi) as (y&Hy&_&_&Hsame). apply list_elem_of_lookup. exists i.
    rewrite <- Hsame; [done|]. intros Heq. apply Hno. rewrite <- Heq. by apply list_elem_of_fmap_2. }
  split; [done|]. split; [intros k Hk; by rewrite Hother2, Hother|].
  eapply Forall2_trans; [|exact Hone|exact Hrest]. intros x y z (S1&D1&E1) (S2&D2). split; [by eapply stated_trans|].
  intros [->|Hx]%elem_of_cons.
  - specialize (D1 eq_refl). destruct S2 as (_&_&_&Hkeep). by rewrite (Hkeep D1).
  - apply D2. rewrite E1; [done|]. intros Heq. apply Hno. rewrite <- Heq. by apply list_elem_of_fmap_2.
Qed.

(** One kind: afterwards every object says what it is to say. *)
Lemma flush_kind_step kind w :
  NoDup (aw_Name <$> aware_list w kind) →
  let r := flush_kind t kind w in
  r.1 = Ok tt ∧ (∀ kind', kind' ≠ kind → aware_list r.2 kind' = aware_list w kind') ∧
  Forall2 (λ x y, stated kind x y ∧ needsStatusUpdate t kind y = false) (aware_list w kind) (aware_list r.2 kind).
Proof.
  intros Hnd. unfold flush_kind, mbind, M_bind, get.
  set (l := filter _ _).
  destruct (flush_objects kind l w Hnd) as (Hok&Hother&Hall).
  { eapply sublist_NoDup; [exact Hnd|]. apply fmap_sublist, sublist_filter. }
  { intros o Ho. by apply list_elem_of_filter in Ho as [_ ?]. }
  split; [done|]. split; [done|]. apply Forall2_same_length_lookup. apply Forall2_same_length_lookup in Hall as [Hlen Hall].
  split; [done|]. intros i x y Hx Hy. destruct (Hall i x y Hx Hy) as [Hs Hd]. split; [done|].
  destruct (needsStatusUpdate t kind x) eqn:Hn.
  - apply Hd, list_elem_of_filter. split; [done|]. by eapply list_elem_of_lookup_2.
  - destruct Hs as (_&_&_&Hkeep). by rewrite (Hkeep Hn).
Qed.

Lemma flush_kinds kinds : ∀ w, NoDup kinds →
  (∀ kind, kind ∈ kinds → NoDup (aw_Name <$> aware_list w kind)) →
  let r := for_each (flush_kind t) kinds w in
  r.1 = Ok tt ∧ (∀ kind, kind ∉ kinds → aware_list r.2 kind = aware_list w kind) ∧
  ∀ kind, kind ∈ kinds →
    Forall2 (λ x y, stated kind x y ∧ needsStatusUpdate t kind y = false) (aware_list w kind) (aware_list r.2 kind).
Proof.
  induction kinds as [|kind l IH]; intros w Hl Hnd; simpl.
  { split; [done|]. split; [done|]. by intros ? ?%not_elem_of_nil. }
  apply NoDup_cons in Hl as [Hno Hl].
  destruct (flush_kind_step kind w (Hnd kind ltac:(by left))) as (Hok&Hother&Hone).
  unfold mbind, M_bind. destruct (flush_kind t kind w) as [r1 w1]. simpl in *. subst r1.
  assert (∀ k, k ∈ l → aware_list w1 k = aware_list w k) as Hsame.
  { intros k Hk. apply Hother. intros ->. done. }
  destruct (IH w1 Hl) as (Hok2&Hother2&Hrest).
  { intros k Hk. rewrite (Hsame k Hk). apply Hnd. by right. }
  split; [done|]. split.
  { intros k Hk. apply not_elem_of_cons in Hk as [Hk1 Hk2]. by rewrite Hother2, Hother. }
  intros k [->|Hk]%elem_of_cons; [by rewrite Hother2|]. rewrite <- (Hsame k Hk). by apply Hrest.
Qed.

(** A flush with nothing to write. *)
Lemma flush_kinds_idle kinds w :
  (∀ kind o, kind ∈ kinds → o ∈ aware_list w kind → needsStatusUpdate t kind o = false) →
  for_each (flush_kind t) kinds w = (Ok tt, w).
Proof.
  induction kinds as [|kind l IH]; intros Hn; simpl; [done|].
  unfold mbind at 1, M_bind, flush_kind at 1, mbind, M_bind, get.
  rewrite filter_none; [apply IH; intros k o Hk; apply Hn; by right|].
  intros o Ho. rewrite (Hn kind o ltac:(by left) Ho). done.
Qed.
End flush.

(** C32: a flush whose writes succeed leaves every resource of every kind with the verdict of
    the cycle under this cluster's name, rewrites only the resources that said something
    else, and takes nothing away that other clusters wrote on them; the next flush of the
    same verdicts writes nothing. *)
Theorem Flush_settles `{StatusLaws W} (t : Tracker) (w : W) :
  no_byte ":"%char (tr_clusterName t) →
  (∀ kind, kind ∈ registry → NoDup (aw_Name <$> aware_list w kind)) →
  let w' := (Flush t w).2 in
  (∀ kind, kind ∈ registry →
     Forall2 (λ o o', aw_Name o' = aw_Name o ∧
                foreign (tr_clusterName t) o' = foreign (tr_clusterName t) o ∧
                (needsStatusUpdate t kind o = false → o' = o) ∧
                let '(status, reason, detail) := verdict t kind (aw_Name o) in
                IsUnreconcilableConditionUpToDate o' (tr_clusterName t) status reason detail (aw_Generation o) = true)
       (aware_list w kind) (aware_list w' kind)) ∧
  Flush t w' = (Ok tt, w').
Proof.
  intros Hname Hnd w'.
  assert (NoDup registry) as Hreg by (apply (bool_decide_eq_true_1 (NoDup _)); vm_compute; reflexivity).
  destruct (flush_kinds t Hname registry w Hreg Hnd) as (_&_&Hall). fold (Flush t) in Hall. fold w' in Hall. split.
  - intros kind Hk. eapply Forall2_impl; [exact (Hall kind Hk)|]. intros o o' ((HN&HG&Hf&Hkeep)&Hdone).
    split; [done|]. split; [done|]. split; [done|]. unfold needsStatusUpdate in Hdone. rewrite HN, HG in Hdone.
    destruct (verdict t kind (aw_Name o)) as [[status reason] detail]. by apply negb_false_iff in Hdone.
  - apply flush_kinds_idle. intros kind o' Hk Ho'. apply list_elem_of_lookup in Ho' as [i Hi].
    destruct (Forall2_lookup_r _ _ _ _ _ (Hall kind Hk) Hi) as (o&_&_&Hdone). done.
Qed.

(** *** A witness: one bucket is complained of by this cluster and by another *)
#[local] Instance status_world : StatusPlatform (gmap string (list Aware)) := {|
  aware_list w kind := default [] (w !! kind);
  aware_updateStatus kind o w := (Ok tt, <[kind := put_object o (default [] (w !! kind))]> w);
  aware_now _ := 9;
|}.

#[local] Instance status_laws : StatusLaws (gmap string (list Aware)).
Proof.
  split. intros kind o w. split; [done|]. split; simpl.
  - by rewrite lookup_insert_eq.
  - intros kind' Hne. by rewrite lookup_insert_ne.
Qed.

Lemma Flush_settles_witness :
  let other := mkObjectCondition ConditionTypeUnreconcilable "True" 1 5 "ValidationFailed" "east: bad name" in
  let w : gmap string (list Aware) := {["CouchbaseBucket" := [mkAware "a" 1 []; mkAware "b" 1 [other]]]} in
  let t := run_ops [OpSetBucketRef "bucket" ("CouchbaseBucket", "b"); OpMarkBucket "bucket" "QuotaExceeded" "no memory"]
             (NewTracker "west") in
  let w' := (Flush t w).2 in
  (λ o, (aw_Name o, oc_Message <$> aw_Conditions o)) <$> aware_list w' "CouchbaseBucket" =
    [("a", ["west: resource validated"]); ("b", ["east: bad name"; "west: no memory"])] ∧
  Flush t w' = (Ok tt, w').
Proof.
  intros other w t w'. split; [vm_compute; reflexivity|].
  apply (Flush_settles t w).
  - apply (bool_decide_eq_true_1 (no_byte _ _)). vm_compute. reflexivity.
  - intros kind _. simpl. unfold w.
    destruct (decide (kind = "CouchbaseBucket")) as [->|Hne].
    + apply (bool_decide_eq_true_1 (NoDup _)). vm_compute. reflexivity.
    + rewrite lookup_singleton_ne by done. constructor.
Defined.
