(* ===== verification/CollectionsSpec.v ===== *)
(** * Scopes and collections: theorems about [Collections] *)

From S2P Require Import Prelude Effects GoLib Regex Digests Version Api Member Persistence Status.
From S2P Require Import UpgradeOrder NodeStatus Pods Machine Rebalance Baseline Unreconcilable Collections Sim.
Local Open Scope Z_scope.

(** ** The first of each name *)
Section unique.
Context {A : Type} (name : A → string).

Lemma unique_by_names (l : list A) : ∀ (seen : gset string) n,
  n ∈ name <$> unique_by name seen l ↔ n ∈ name <$> l ∧ n ∉ seen.
Proof.
  induction l as [|x l IH]; intros seen n; simpl.
  - rewrite elem_of_nil. tauto.
  - case_bool_decide as Hx; rewrite ?fmap_cons, ?elem_of_cons, IH.
    + split; [tauto|]. intros [[->|?] ?]; tauto.
    + set_unfold. destruct (decide (n = name x)) as [->|]; tauto.
Qed.

Lemma unique_by_NoDup (l : list A) : ∀ seen, NoDup (name <$> unique_by name seen l).
Proof.
  induction l as [|x l IH]; intros seen; simpl; [constructor|].
  case_bool_decide; [apply IH|]. rewrite fmap_cons. constructor; [|apply IH].
  rewrite unique_by_names. set_solver.
Qed.

Lemma unique_by_sub (l : list A) : ∀ seen x, x ∈ unique_by name seen l → x ∈ l.
Proof.
  induction l as [|y l IH]; intros seen x; simpl; [done|].
  rewrite elem_of_cons. case_bool_decide; [by intros ?%IH; right|].
  intros [->|?%IH]%elem_of_cons; [by left|by right].
Qed.
End unique.

(** ** What Couchbase and the caches do

    [scopes_of] is what Couchbase has: of a bucket the scopes, of a scope the collections.
    A request that succeeds does what it says to the bucket it names; nobody else changes
    the scopes or the resources meanwhile. *)
Abbreviation ScopeMap := (gmap string (gmap string Collection)).

Definition lists (l : list ScopeStatus) (m : ScopeMap) : Prop :=
  (∀ n, HasScope l n = true ↔ is_Some (m !! n)) ∧
  ∀ n cols, m !! n = Some cols → ∀ x, HasCollection (GetScope l n) x = true ↔ is_Some (cols !! x).

Record same_resources `{ScopePlatform W} (w w' : W) : Prop := {
  same_scopes n : Scopes_Get w' n = Scopes_Get w n;
  same_scope_list : Scopes_List w' = Scopes_List w;
  same_scope_groups n : ScopeGroups_Get w' n = ScopeGroups_Get w n;
  same_scope_group_list : ScopeGroups_List w' = ScopeGroups_List w;
  same_collections n : Collections_Get w' n = Collections_Get w n;
  same_collection_list : Collections_List w' = Collections_List w;
  same_collection_groups n : CollectionGroups_Get w' n = CollectionGroups_Get w n;
  same_collection_group_list : CollectionGroups_List w' = CollectionGroups_List w;
}.

#[export] Instance same_resources_preorder `{ScopePlatform W} : PreOrder (same_resources (W := W)).
Proof. split; [by intros w|]. intros w1 w2 w3 [] []. split; intros; etrans; eauto. Qed.

Class ScopeLaws (W : Type) `{!ScopePlatform W} (scopes_of : W → string → ScopeMap) : Prop := {
  list_buckets t w : let w' := (cb_ListBuckets t w).2 in
    same_resources w w' ∧ ∀ b, scopes_of w' b = scopes_of w b;
  list_scopes_of b t w : let r := cb_ListScopes b t w in
    same_resources w r.2 ∧ (∀ b', scopes_of r.2 b' = scopes_of w b') ∧ ∀ l, r.1 = Ok l → lists l (scopes_of w b);
  create_scope_adds b n t w w' : cb_CreateScope b n t w = (Ok tt, w') →
    same_resources w w' ∧ (∀ b', b' ≠ b → scopes_of w' b' = scopes_of w b') ∧
    scopes_of w' b = <[n := ∅]> (scopes_of w b);
  delete_scope_removes b n t w w' : cb_DeleteScope b n t w = (Ok tt, w') →
    same_resources w w' ∧ (∀ b', b' ≠ b → scopes_of w' b' = scopes_of w b') ∧
    scopes_of w' b = delete n (scopes_of w b);
  create_collection_adds b n c t w w' : cb_CreateCollection b n c t w = (Ok tt, w') →
    same_resources w w' ∧ (∀ b', b' ≠ b → scopes_of w' b' = scopes_of w b') ∧
    ∃ old c', scopes_of w b !! n = Some old ∧ scopes_of w' b = <[n := <[co_Name c := c']> old]> (scopes_of w b);
  patch_collection_sets b n c t w w' : cb_PatchCollection b n c t w = (Ok tt, w') →
    same_resources w w' ∧ (∀ b', b' ≠ b → scopes_of w' b' = scopes_of w b') ∧
    ∃ old c', scopes_of w b !! n = Some old ∧ scopes_of w' b = <[n := <[co_Name c := c']> old]> (scopes_of w b);
  delete_collection_removes b n x t w w' : cb_DeleteCollection b n x t w = (Ok tt, w') →
    same_resources w w' ∧ (∀ b', b' ≠ b → scopes_of w' b' = scopes_of w b') ∧
    ∃ old, scopes_of w b !! n = Some old ∧ scopes_of w' b = <[n := delete x old]> (scopes_of w b);
}.

Section converges.
Context `{Platform W} `{!ScopePlatform W} `{BucketSettings} `{Environment} `{MapRange}.
Context (scopes_of : W → string → ScopeMap) `{!ScopeLaws W scopes_of}.
Context (unreconcilable : Tracker).

(** *** What is gathered depends on the resources alone *)
Lemma gatherScopes_same c w w' spec :
  same_resources w w' → gatherScopes unreconcilable c w' spec = gatherScopes unreconcilable c w spec.
Proof.
  intros [HG HL HGG HGL _ _ _ _]. unfold gatherScopes, gatherScopesImplicit, gatherScopesExplicit.
  rewrite HL, HGL. replace (ssel_Resources spec ≫= scope_resource unreconcilable w')
    with (ssel_Resources spec ≫= scope_resource unreconcilable w); [done|].
  apply list_bind_ext; [|done]. intros [kind name]. unfold scope_resource. by rewrite HG, HGG.
Qed.

Lemma gatherCollections_same w w' scope spec :
  same_resources w w' → gatherCollections unreconcilable w' scope spec = gatherCollections unreconcilable w scope spec.
Proof.
  intros [_ _ _ _ HG HL HGG HGL]. unfold gatherCollections, gatherCollectionsImplicit, gatherCollectionsExplicit.
  rewrite HL, HGL. replace (csel_Resources spec ≫= collection_resource unreconcilable w')
    with (csel_Resources spec ≫= collection_resource unreconcilable w); [done|].
  apply list_bind_ext; [|done]. intros [kind name]. unfold collection_resource. by rewrite HG, HGG.
Qed.

(** The scopes have distinct names, and the default scope is among them. *)
Lemma gatherScopes_names c w spec scopes :
  gatherScopes unreconcilable c w spec = Ok scopes →
  NoDup (scope_CouchbaseName <$> scopes) ∧ DefaultScopeOrCollection ∈ scope_CouchbaseName <$> scopes.
Proof.
  unfold gatherScopes. destruct (gatherScopesImplicit _ _) as [implicit| |]; [|done..]. simpl.
  destruct (atLeast c "7.6.0") as [add| |]; [|done..]. intros [= <-]. split; [apply unique_by_NoDup|].
  apply unique_by_names. split; [|set_solver].
  set (l := gatherScopesExplicit _ _ _ ++ implicit).
  assert (∃ sc, sc ∈ (if existsb DefaultScope l then l else l ++ [implied_default]) ∧
    scope_CouchbaseName sc = DefaultScopeOrCollection) as (sc&Hin&Hn).
  { destruct (existsb DefaultScope l) eqn:E.
    - apply existsb_exists in E as (sc&Hin&Hd). exists sc. split; [by apply list_elem_of_In|].
      unfold scope_CouchbaseName. by rewrite Hd.
    - exists implied_default. split; [|done]. apply elem_of_app. right. by left. }
  apply list_elem_of_fmap. exists sc. split; [done|]. destruct add; [|done]. apply elem_of_app. by left.
Qed.

(** A collection that is gathered is not skipped. *)
Lemma gatherCollections_kept w scope spec collections c :
  IsSkipped unreconcilable CollectionCRDResourceKind "" = false →
  gatherCollections unreconcilable w scope spec = Ok collections → c ∈ collections →
  IsSkipped unreconcilable CollectionCRDResourceKind (cr_Name c) = false.
Proof.
  intros Hempty. assert (∀ names ttl history, c ∈ group_collections names ttl history →
    IsSkipped unreconcilable CollectionCRDResourceKind (cr_Name c) = false) as Hnames.
  { intros names ttl history (n&->&_)%list_elem_of_fmap. done. }
  assert (∀ g, c ∈ collection_group unreconcilable g →
    IsSkipped unreconcilable CollectionCRDResourceKind (cr_Name c) = false) as Hgroup.
  { intros g. unfold collection_group. destruct (IsSkipped _ _ (cgr_Name g)); [by intros ?%not_elem_of_nil|].
    apply Hnames. }
  unfold gatherCollections. destruct (gatherCollectionsImplicit _ _) as [implicit| |] eqn:Himp; [|done..].
  intros [= <-] Hc%unique_by_sub.
  assert (c ∈ gatherCollectionsExplicit unreconcilable w spec ++ implicit ∨ c = kept_default) as Hor.
  { destruct (_ && _); [|by left]. apply elem_of_app in Hc as [?|?%list_elem_of_singleton]; [by left|by right]. }
  clear Hc. destruct Hor as [[Hc|Hc]%elem_of_app| -> ]; [| |done].
  - apply list_elem_of_bind in Hc as ([kind name]&Hc&_). unfold collection_resource in Hc.
    case_bool_decide; [|case_bool_decide; [|by apply not_elem_of_nil in Hc]].
    + destruct (Collections_Get w name) as [x|]; [|by apply not_elem_of_nil in Hc].
      destruct (IsSkipped _ _ (cr_Name x)) eqn:E; [by apply not_elem_of_nil in Hc|].
      by apply list_elem_of_singleton in Hc as ->.
    + destruct (CollectionGroups_Get w name); [by eapply Hgroup|by apply not_elem_of_nil in Hc].
  - unfold gatherCollectionsImplicit in Himp. destruct (csel_Selector spec) as [[f| |]|]; [|done..|].
    + injection Himp as <-. apply elem_of_app in Hc as [Hc|Hc].
      * by apply list_elem_of_filter in Hc as [[? _] _].
      * apply list_elem_of_bind in Hc as (g&Hc&_). by eapply Hgroup.
    + injection Himp as <-. by apply not_elem_of_nil in Hc.
Qed.

(** *** The requests, one at a time *)
Definition at_bucket (b : string) (s s' : RS W) : Prop :=
  cl s' = cl s ∧ same_resources (world s) (world s') ∧
  ∀ b', b' ≠ b → scopes_of (world s') b' = scopes_of (world s) b'.

#[local] Instance at_bucket_preorder b : PreOrder (at_bucket b).
Proof.
  split; [by intros s|]. intros s1 s2 s3 (C1&R1&O1) (C2&R2&O2). split; [congruence|]. split; [by etrans|].
  intros b' Hb. by rewrite O2, O1.
Qed.

Lemma on_world_ok {A} (m : M W A) (s s' : RS W) a :
  on_world m s = (Ok a, s') → m (world s) = (Ok a, world s') ∧ cl s' = cl s.
Proof. unfold on_world, zoom. destruct (m (world s)) as [r w']. by intros [= -> <-]. Qed.

Lemma bucketExists_step b r s s' :
  bucketExists b s = (r, s') → at_bucket b s s' ∧ scopes_of (world s') b = scopes_of (world s) b.
Proof.
  unfold bucketExists, mbind, M_bind, gets, attempt, on_world, zoom. simpl.
  pose proof (list_buckets (ToMembers (readyMembers (cl s))) (world s)) as Hl.
  destruct (cb_ListBuckets _ (world s)) as [[l|e|] w']; simpl in *; destruct Hl as [HR HS]; intros [= <- <-];
    (split; [split; [done|]; split; [exact HR|intros b' _; apply HS]|apply HS]).
Qed.

Lemma list_scopes_step bucket l s s' : let b := sb_CouchbaseName bucket in
  list_scopes bucket s = (Ok l, s') →
  at_bucket b s s' ∧ scopes_of (world s') b = scopes_of (world s) b ∧ lists l (scopes_of (world s) b).
Proof.
  intros b Hr. unfold list_scopes in Hr. inv_ok Hr. injection Hr0 as <- <-. apply on_world_ok in Hr as [Hr Hc].
  pose proof (list_scopes_of b (ToMembers (readyMembers (cl s))) (world s)) as Hl. unfold b in Hl. rewrite Hr in Hl.
  destruct Hl as (HR&HS&Hl). split; [split; [done|]; split; [exact HR|intros b' _; apply HS]|]. split; [apply HS|].
  by apply Hl.
Qed.

Lemma delete_scope_step bucket requested sc s s' : let b := sb_CouchbaseName bucket in
  delete_scope unreconcilable bucket requested sc s = (Ok tt, s') →
  at_bucket b s s' ∧ scopes_of (world s') b =
    (if decide ((so_Name sc ∉ requested) ∧ IsSkipped unreconcilable ScopeCRDResourceKind (so_Name sc) = false)
     then delete (so_Name sc) (scopes_of (world s) b) else scopes_of (world s) b).
Proof.
  intros b. unfold delete_scope. case_bool_decide as Hreq.
  { intros [= <-]. split; [done|]. rewrite decide_False by tauto. done. }
  destruct (IsSkipped _ _ _) eqn:Hs.
  { intros [= <-]. split; [done|]. rewrite decide_False by (intros [_ ?]; congruence). done. }
  intros Hr. inv_ok Hr. injection Hr0 as <- <-. apply on_world_ok in Hr as [Hr Hc].
  apply delete_scope_removes in Hr as (HR&HO&HS). split; [done|]. rewrite decide_True by done. exact HS.
Qed.

Lemma create_scope_step bucket current n s s' : let b := sb_CouchbaseName bucket in
  create_scope unreconcilable bucket current n s = (Ok tt, s') →
  at_bucket b s s' ∧ scopes_of (world s') b =
    (if decide (HasScope current n = false ∧ IsSkipped unreconcilable ScopeCRDResourceKind n = false)
     then <[n := ∅]> (scopes_of (world s) b) else scopes_of (world s) b).
Proof.
  intros b. unfold create_scope. destruct (HasScope current n) eqn:Hh.
  { intros [= <-]. split; [done|]. rewrite decide_False by (by intros [? _]). done. }
  destruct (IsSkipped _ _ _) eqn:Hs.
  { intros [= <-]. split; [done|]. rewrite decide_False by (by intros [_ ?]). done. }
  intros Hr. inv_ok Hr. injection Hr0 as <- <-. apply on_world_ok in Hr as [Hr Hc].
  apply create_scope_adds in Hr as (HR&HO&HS). split; [done|]. rewrite decide_True by done. exact HS.
Qed.

(** *** The scopes of a bucket after both loops *)
Definition scopes_after (requested : gset string) (before : ScopeMap) (n : string) : option (gmap string Collection) :=
  if IsSkipped unreconcilable ScopeCRDResourceKind n then before !! n
  else if decide (n ∈ requested) then Some (default ∅ (before !! n)) else None.

Lemma HasScope_elem l n : HasScope l n = true ↔ n ∈ so_Name <$> l.
Proof.
  unfold HasScope. rewrite existsb_exists, list_elem_of_fmap. split.
  - intros (x&Hx&Hn%bool_decide_eq_true). exists x. split; [done|]. by apply list_elem_of_In.
  - intros (x&->&Hx). exists x. split; [by apply list_elem_of_In|]. by apply bool_decide_eq_true.
Qed.

Lemma delete_scopes bucket requested current s s' : let b := sb_CouchbaseName bucket in
  lists current (scopes_of (world s) b) →
  for_each (delete_scope unreconcilable bucket requested) current s = (Ok tt, s') →
  at_bucket b s s' ∧ ∀ n, scopes_of (world s') b !! n =
    if decide ((n ∉ requested) ∧ IsSkipped unreconcilable ScopeCRDResourceKind n = false)
    then None else scopes_of (world s) b !! n.
Proof.
  intros b [Hl _] Hr.
  set (P n := (n ∉ requested) ∧ IsSkipped unreconcilable ScopeCRDResourceKind n = false).
  assert (at_bucket b s s' ∧ ∀ n, scopes_of (world s') b !! n =
    if decide (P n ∧ n ∈ so_Name <$> current) then None else scopes_of (world s) b !! n) as [Hq Hall].
  { apply (for_each_invariant _ (λ d s', at_bucket b s s' ∧ ∀ n, scopes_of (world s') b !! n =
      if decide (P n ∧ n ∈ so_Name <$> d) then None else scopes_of (world s) b !! n) _ _ _) with (3 := Hr).
    - intros d x k s1 s2 _ [Q1 I1] Hx. apply delete_scope_step in Hx as [Q2 S2]. fold b in S2.
      split; [by etrans|]. intros n. rewrite S2. fold (P (so_Name x)). rewrite fmap_app. clear -I1.
      destruct (decide (n = so_Name x)) as [->|Hne].
      + destruct (decide (P (so_Name x))) as [HP|HP].
        * rewrite lookup_delete_eq. rewrite decide_True by set_solver. done.
        * rewrite I1, !decide_False by tauto. done.
      + replace ((if decide (P (so_Name x)) then delete (so_Name x) (scopes_of (world s1) b)
          else scopes_of (world s1) b) !! n) with (scopes_of (world s1) b !! n)
          by (case_decide; [by rewrite lookup_delete_ne|done]).
        rewrite I1. apply decide_ext. set_solver.
    - split; [done|]. intros n. rewrite decide_False by set_solver. done. }
  split; [exact Hq|]. intros n. rewrite Hall. fold (P n).
  destruct (decide (P n)) as [HP|HP]; [|by rewrite decide_False by tauto].
  case_decide as Hd; [done|]. apply eq_None_not_Some. intros Hn. apply Hd. split; [done|].
  by apply HasScope_elem, Hl.
Qed.

Lemma create_scopes bucket current names s s' : let b := sb_CouchbaseName bucket in
  for_each (create_scope unreconcilable bucket current) names s = (Ok tt, s') →
  at_bucket b s s' ∧ ∀ n, scopes_of (world s') b !! n =
    if decide ((HasScope current n = false ∧ IsSkipped unreconcilable ScopeCRDResourceKind n = false) ∧ n ∈ names)
    then Some ∅ else scopes_of (world s) b !! n.
Proof.
  intros b Hr.
  set (P n := HasScope current n = false ∧ IsSkipped unreconcilable ScopeCRDResourceKind n = false).
  apply (for_each_invariant _ (λ d s', at_bucket b s s' ∧ ∀ n, scopes_of (world s') b !! n =
    if decide (P n ∧ n ∈ d) then Some ∅ else scopes_of (world s) b !! n) _ _ _) with (3 := Hr).
  - intros d x k s1 s2 _ [Q1 I1] Hx. apply create_scope_step in Hx as [Q2 S2]. fold b in S2.
    split; [by etrans|]. intros n. rewrite S2. fold (P x). clear -I1. destruct (decide (n = x)) as [->|Hne].
    + destruct (decide (P x)) as [HP|HP].
      * rewrite lookup_insert_eq. rewrite decide_True by set_solver. done.
      * rewrite I1, !decide_False by tauto. done.
    + replace ((if decide (P x) then <[x := ∅]> (scopes_of (world s1) b)
        else scopes_of (world s1) b) !! n) with (scopes_of (world s1) b !! n)
        by (case_decide; [by rewrite lookup_insert_ne|done]).
      rewrite I1. apply decide_ext. set_solver.
  - split; [done|]. intros n. rewrite decide_False by set_solver. done.
Qed.

Lemma scopes_pass bucket (requested : gset string) current names s s1 s2 : let b := sb_CouchbaseName bucket in
  lists current (scopes_of (world s) b) → (∀ n, n ∈ names ↔ n ∈ requested) →
  for_each (delete_scope unreconcilable bucket requested) current s = (Ok tt, s1) →
  for_each (create_scope unreconcilable bucket current) names s1 = (Ok tt, s2) →
  at_bucket b s s2 ∧ ∀ n, scopes_of (world s2) b !! n = scopes_after requested (scopes_of (world s) b) n.
Proof.
  intros b Hl Hnames Hd Hc. destruct (delete_scopes _ _ _ _ _ Hl Hd) as [Q1 D]. apply create_scopes in Hc as [Q2 C].
  fold b in Q1, Q2, C, D. split; [by etrans|]. intros n. rewrite C, D. unfold scopes_after.
  destruct Hl as [Hl _]. destruct (IsSkipped _ _ n) eqn:Hs.
  { rewrite !decide_False; [done|by intros []|by intros [[]]]. }
  destruct (decide (n ∈ requested)) as [Hn|Hn].
  - destruct (HasScope current n) eqn:Hh.
    + rewrite !decide_False; [|tauto|by intros [[]]]. by apply Hl in Hh as [cols ->].
    + rewrite decide_True by (rewrite Hnames; auto). f_equal.
      destruct (scopes_of (world s) b !! n) eqn:E; [|done]. rewrite (proj2 (Hl n)) in Hh by eauto. done.
  - rewrite decide_False by (rewrite Hnames; tauto). rewrite decide_True by tauto. done.
Qed.

(** *** The collections of one scope *)
Definition collections_in (m : ScopeMap) (n : string) : gset string := dom (default ∅ (m !! n)).

Definition at_scope (b n : string) (s s' : RS W) : Prop :=
  at_bucket b s s' ∧ (∀ n', n' ≠ n → scopes_of (world s') b !! n' = scopes_of (world s) b !! n') ∧
  (is_Some (scopes_of (world s') b !! n) ↔ is_Some (scopes_of (world s) b !! n)).

#[local] Instance at_scope_preorder b n : PreOrder (at_scope b n).
Proof.
  split; [by intros s|]. intros s1 s2 s3 (C1&R1&O1) (C2&R2&O2). split; [by etrans|].
  split; [|by rewrite O2]. intros n' Hn. by rewrite R2, R1.
Qed.

(** A request for one scope gives it other collections. *)
Lemma at_scope_insert b n (s s' : RS W) old new :
  at_bucket b s s' → scopes_of (world s) b !! n = Some old →
  scopes_of (world s') b = <[n := new]> (scopes_of (world s) b) →
  at_scope b n s s' ∧ collections_in (scopes_of (world s) b) n = dom old ∧
  collections_in (scopes_of (world s') b) n = dom new.
Proof.
  intros Hq Hold HS. unfold collections_in, at_scope. rewrite HS, Hold, lookup_insert_eq.
  split; [|done]. split; [done|]. split; [|by split].
  intros n' Hn. by rewrite lookup_insert_ne.
Qed.

Lemma delete_collection_step bucket n requested x s s' : let b := sb_CouchbaseName bucket in
  delete_collection unreconcilable bucket n requested x s = (Ok tt, s') →
  at_scope b n s s' ∧ ∀ y, y ∈ collections_in (scopes_of (world s') b) n ↔
    y ∈ collections_in (scopes_of (world s) b) n ∧
    ¬ (y = co_Name x ∧ (y ∉ requested) ∧ IsSkipped unreconcilable CollectionCRDResourceKind y = false).
Proof.
  intros b. unfold delete_collection. destruct (IsSkipped _ _ _) eqn:Hs.
  { intros [= <-]. split; [done|]. intros y. split; [|by intros []]. intros Hy. split; [done|].
    intros (->&_&?). congruence. }
  case_bool_decide as Hreq.
  { intros [= <-]. split; [done|]. intros y. split; [|by intros []]. intros Hy. split; [done|].
    by intros (->&?&_). }
  intros Hr. inv_ok Hr. injection Hr0 as <- <-. apply on_world_ok in Hr as [Hr Hc].
  apply delete_collection_removes in Hr as (HR&HO&old&Hold&HS). fold b in HO, Hold, HS.
  destruct (at_scope_insert b n s s' old (delete (co_Name x) old)) as (Hq&->&->); [done..|].
  split; [done|]. intros y. rewrite dom_delete. set_unfold. destruct (decide (y = co_Name x)) as [->|]; tauto.
Qed.

Lemma wanted_settings_name c bucket backend collection existing a b :
  wanted_settings c bucket backend collection existing = Ok (a, b) → co_Name b = co_Name existing.
Proof.
  unfold wanted_settings. destruct (if bool_decide _ then _ else match cr_History collection with _ => _ end).
  destruct (atLeast c "7.6.0") as [[]| |]; [..|done|done]; simpl; by intros [= <- <-].
Qed.

Lemma new_collection_name c bucket collection x :
  new_collection c bucket collection = Ok x → co_Name x = collection_CouchbaseName collection.
Proof.
  unfold new_collection, mbind, result_bind.
  repeat match goal with |- context [match ?r with _ => _ end] => destruct r; try done end; by intros [= <-].
Qed.

Lemma HasCollection_name sc n : HasCollection sc n = true → co_Name (GetCollection sc n) = n.
Proof.
  unfold HasCollection, GetCollection. induction (so_Collections sc) as [|c l IH]; [done|]. simpl.
  case_bool_decide; [done|exact IH].
Qed.

Lemma HasScope_GetScope l n : HasScope l n = false → GetScope l n = mkScope "" [].
Proof.
  unfold HasScope, GetScope. induction l as [|x l IH]; [done|]. simpl. by case_bool_decide.
Qed.

Lemma create_collection_step pos bucket scope current c s s' :
  let b := sb_CouchbaseName bucket in let n := scope_CouchbaseName scope in
  IsSkipped unreconcilable CollectionCRDResourceKind (cr_Name c) = false →
  (HasCollection (GetScope current n) (collection_CouchbaseName c) = true →
     collection_CouchbaseName c ∈ collections_in (scopes_of (world s) b) n) →
  create_collection unreconcilable pos bucket scope current c s = (Ok tt, s') →
  at_scope b n s s' ∧ ∀ y, y ∈ collections_in (scopes_of (world s') b) n ↔
    y ∈ collections_in (scopes_of (world s) b) n ∨ y = collection_CouchbaseName c.
Proof.
  intros b n Hs Hhas. unfold create_collection. rewrite Hs. set (c' := Populate pos c).
  change (collection_CouchbaseName c') with (collection_CouchbaseName c). fold n.
  destruct (HasCollection _ _) eqn:Hh.
  - specialize (Hhas eq_refl). assert (∀ y, y ∈ collections_in (scopes_of (world s) b) n ↔
      y ∈ collections_in (scopes_of (world s) b) n ∨ y = collection_CouchbaseName c) as Hidle
      by (intros y; split; [by left|by intros [?| ->]]).
    unfold reconcileCollectionSettings. intros Hr. inv_ok Hr. injection Hr0 as <- <-. inv_ok Hr.
    injection Hr0 as _ <-. destruct (sb_Backend bucket) as [backend|]; [|by injection Hr as <-].
    destruct (negb _); [by injection Hr as <-|]. inv_ok Hr. injection Hr0 as Hw <-.
    destruct a0 as [had wanted]. apply wanted_settings_name in Hw.
    case_bool_decide; [by injection Hr as <-|]. apply on_world_ok in Hr as [Hr Hc].
    apply patch_collection_sets in Hr as (HR&HO&old&col&Hold&HS). fold b in HO. simpl in Hold, HS.
    change (scope_CouchbaseName scope) with n in Hold, HS, Hw.
    change (collection_CouchbaseName c') with (collection_CouchbaseName c) in Hw.
    rewrite HasCollection_name in Hw by done. rewrite Hw in HS. fold b in Hold, HS.
    destruct (at_scope_insert b n s s' old (<[collection_CouchbaseName c := col]> old)) as (Hq&->&->); [done..|].
    split; [done|]. intros y. rewrite dom_insert. set_solver.
  - intros Hr. inv_ok Hr. injection Hr0 as <- <-. inv_ok Hr. injection Hr0 as Hnew <-.
    apply on_world_ok in Hr as [Hr Hc].
    apply new_collection_name in Hnew as Hname.
    apply create_collection_adds in Hr as (HR&HO&old&col&Hold&HS). rewrite Hname in HS. fold b in HO, Hold, HS.
    change (scope_CouchbaseName scope) with n in Hold, HS.
    destruct (at_scope_insert b n s s' old (<[collection_CouchbaseName c := col]> old)) as (Hq&->&->); [done..|].
    split; [done|]. intros y. rewrite dom_insert. set_solver.
Qed.

Lemma collections_pass pos bucket scope current collections s s1 s2 :
  let b := sb_CouchbaseName bucket in let n := scope_CouchbaseName scope in
  let requested : gset string := list_to_set (collection_CouchbaseName <$> collections) in
  (∀ x, HasCollection (GetScope current n) x = true ↔ x ∈ collections_in (scopes_of (world s) b) n) →
  (∀ c, c ∈ collections → IsSkipped unreconcilable CollectionCRDResourceKind (cr_Name c) = false) →
  for_each (delete_collection unreconcilable bucket n requested) (so_Collections (GetScope current n)) s = (Ok tt, s1) →
  for_each (create_collection unreconcilable pos bucket scope current) collections s1 = (Ok tt, s2) →
  at_scope b n s s2 ∧ ∀ y, y ∈ collections_in (scopes_of (world s2) b) n ↔
    y ∈ requested ∨
    y ∈ collections_in (scopes_of (world s) b) n ∧ IsSkipped unreconcilable CollectionCRDResourceKind y = true.
Proof.
  intros b n requested Hl Hkept Hd Hc.
  set (P y := (y ∉ requested) ∧ IsSkipped unreconcilable CollectionCRDResourceKind y = false).
  assert (at_scope b n s s1 ∧ ∀ y, y ∈ collections_in (scopes_of (world s1) b) n ↔
    y ∈ collections_in (scopes_of (world s) b) n ∧ ¬ (y ∈ co_Name <$> so_Collections (GetScope current n) ∧ P y)) as [Q1 D].
  { apply (for_each_invariant _ (λ d s1, at_scope b n s s1 ∧ ∀ y, y ∈ collections_in (scopes_of (world s1) b) n ↔
      y ∈ collections_in (scopes_of (world s) b) n ∧ ¬ (y ∈ co_Name <$> d ∧ P y)) _ _ _) with (3 := Hd).
    - intros d x k t1 t2 _ [Q1 I1] Hx. apply delete_collection_step in Hx as [Q2 I2]. fold b in Q2, I2.
      split; [by etrans|]. intros y. rewrite I2, I1, fmap_app, elem_of_app. simpl.
      rewrite list_elem_of_singleton. unfold P. tauto.
    - split; [done|]. set_solver. }
  assert (∀ y, y ∈ collections_in (scopes_of (world s1) b) n ↔
    y ∈ collections_in (scopes_of (world s) b) n ∧
    (y ∈ requested ∨ IsSkipped unreconcilable CollectionCRDResourceKind y = true)) as D1.
  { intros y. rewrite D. split; intros [Hy Hn]; (split; [done|]).
    - destruct (decide (y ∈ requested)); [by left|]. right. apply not_false_iff_true. intros Hs. apply Hn.
      split; [|done]. apply Hl in Hy. unfold HasCollection in Hy. apply existsb_exists in Hy as (c&Hc'&<-%bool_decide_eq_true).
      apply list_elem_of_fmap. exists c. split; [done|]. by apply list_elem_of_In.
    - intros [_ [??]]. destruct Hn; [done|congruence]. }
  clear D Hd.
  apply (for_each_invariant _ (λ d s2, at_scope b n s s2 ∧ ∀ y, y ∈ collections_in (scopes_of (world s2) b) n ↔
    y ∈ collections_in (scopes_of (world s1) b) n ∨ y ∈ collection_CouchbaseName <$> d) _ _ _) in Hc.
  - destruct Hc as [Q2 I2]. split; [done|]. intros y. rewrite I2, D1. unfold requested. rewrite elem_of_list_to_set.
    tauto.
  - intros d x k t1 t2 Hsplit [Q2 I2] Hx. apply create_collection_step in Hx as [Q3 I3].
    + fold b n in Q3, I3. split; [by etrans|]. intros y. rewrite I3, I2, fmap_app. set_solver.
    + apply Hkept. rewrite Hsplit. set_solver.
    + fold b n. intros Hh. apply I2. left. apply D1. rewrite Hl in Hh. split; [done|]. left.
      unfold requested. rewrite Hsplit, elem_of_list_to_set, fmap_app. set_solver.
  - split; [done|]. set_solver.
Qed.

(** The scopes whose collections are looked after. *)
Definition managed_collections (scope : CouchbaseScope) : option CollectionSelector :=
  if bool_decide (scope_CouchbaseName scope = SystemScope) then None
  else match sr_Collections scope with Some spec => if csel_Managed spec then Some spec else None | None => None end.

(** What a scope has after its turn, given what it had. *)
Definition scope_settled (w : W) (scope : CouchbaseScope) (before after : option (gmap string Collection)) : Prop :=
  match managed_collections scope with
  | None => after = before
  | Some spec =>
      (is_Some after ↔ is_Some before) ∧
      ∃ collections, gatherCollections unreconcilable w scope spec = Ok collections ∧
        ∀ n, n ∈ dom (default ∅ after) ↔
          n ∈ collection_CouchbaseName <$> collections ∨
          n ∈ dom (default ∅ before) ∧ IsSkipped unreconcilable CollectionCRDResourceKind n = true
  end.

Lemma settled_same w w' scope before after :
  same_resources w w' → scope_settled w' scope before after → scope_settled w scope before after.
Proof.
  intros Hw. unfold scope_settled. destruct (managed_collections scope) as [spec|]; [|done].
  intros (Hs&l&Hl&Hn). rewrite (gatherCollections_same _ _ _ _ Hw) in Hl. eauto.
Qed.

Lemma lists_collections l m n x :
  lists l m → HasCollection (GetScope l n) x = true ↔ x ∈ collections_in m n.
Proof.
  intros [Hn Hc]. unfold collections_in. destruct (m !! n) as [cols|] eqn:E; simpl.
  - by rewrite (Hc n cols E), elem_of_dom.
  - rewrite dom_empty. split; [|set_solver]. destruct (HasScope l n) eqn:Hh.
    + apply Hn in Hh as [? ?]. congruence.
    + by rewrite (HasScope_GetScope _ _ Hh).
Qed.

Lemma scope_collections_step pos bucket current scope s s' :
  let b := sb_CouchbaseName bucket in let n := scope_CouchbaseName scope in
  IsSkipped unreconcilable CollectionCRDResourceKind "" = false →
  (∀ x, HasCollection (GetScope current n) x = true ↔ x ∈ collections_in (scopes_of (world s) b) n) →
  scope_collections unreconcilable pos bucket current scope s = (Ok tt, s') →
  at_scope b n s s' ∧ scope_settled (world s) scope (scopes_of (world s) b !! n) (scopes_of (world s') b !! n).
Proof.
  intros b n Hempty Hl. unfold scope_collections, scope_settled, managed_collections.
  case_bool_decide; [by intros [= <-]|].
  destruct (sr_Collections scope) as [spec|]; [|by intros [= <-]].
  destruct (csel_Managed spec); [|by intros [= <-]].
  unfold reconcileCollections. intros Hr. inv_ok Hr. injection Hr0 as <- <-. inv_ok Hr. injection Hr0 as Hg <-.
  inv_ok Hr. destruct a0. rename a into collections.
  destruct (collections_pass pos bucket scope current collections s s0 s' Hl) as [Hq Hy];
    [intros c Hc; by eapply gatherCollections_kept|done..|].
  fold b n in Hq, Hy. split; [done|]. split; [apply Hq|]. exists collections. split; [done|].
  intros y. specialize (Hy y). rewrite elem_of_list_to_set in Hy. exact Hy.
Qed.

(** Over the scopes, of which no two have one name. *)
Lemma all_scope_collections pos bucket current scopes s s' : let b := sb_CouchbaseName bucket in
  IsSkipped unreconcilable CollectionCRDResourceKind "" = false →
  NoDup (scope_CouchbaseName <$> scopes) → lists current (scopes_of (world s) b) →
  for_each (scope_collections unreconcilable pos bucket current) scopes s = (Ok tt, s') →
  at_bucket b s s' ∧
  (∀ n, n ∉ scope_CouchbaseName <$> scopes → scopes_of (world s') b !! n = scopes_of (world s) b !! n) ∧
  ∀ scope, scope ∈ scopes →
    scope_settled (world s) scope (scopes_of (world s) b !! scope_CouchbaseName scope)
      (scopes_of (world s') b !! scope_CouchbaseName scope).
Proof.
  intros b Hempty Hnd Hl Hr.
  apply (for_each_invariant _ (λ d s', at_bucket b s s' ∧
    (∀ n, n ∉ scope_CouchbaseName <$> d → scopes_of (world s') b !! n = scopes_of (world s) b !! n) ∧
    ∀ scope, scope ∈ d → scope_settled (world s) scope (scopes_of (world s) b !! scope_CouchbaseName scope)
      (scopes_of (world s') b !! scope_CouchbaseName scope)) _ _ _) with (3 := Hr);
    [|split; [done|]; split; [done|]; by intros ? ?%not_elem_of_nil].
  intros d x k s1 s2 -> (Q1&I1&J1) Hx. rewrite fmap_app, fmap_cons in Hnd.
  apply NoDup_app in Hnd as (_&Hnew&Hnd). apply NoDup_cons in Hnd as [_ _].
  assert (scope_CouchbaseName x ∉ scope_CouchbaseName <$> d) as Hout
    by (intros Hin; apply (Hnew _ Hin); by left).
  apply scope_collections_step in Hx as ((Q2&O2&_)&Hset); [|done|].
  - fold b in Q2, O2, Hset. split; [by etrans|]. split.
    + intros n Hn. rewrite fmap_app, elem_of_app in Hn. rewrite O2 by (intros ->; apply Hn; right; by left).
      apply I1. tauto.
    + rewrite (I1 _ Hout) in Hset. intros scope [Hsc| ->%list_elem_of_singleton]%elem_of_app.
      * rewrite O2; [by apply J1|]. intros He. apply Hout. rewrite <- He. apply list_elem_of_fmap. eauto.
      * eapply settled_same; [apply Q1|exact Hset].
  - fold b. intros y. rewrite (lists_collections _ _ _ _ Hl). unfold collections_in. by rewrite (I1 _ Hout).
Qed.

Lemma range_names pos (names : list string) n :
  n ∈ (range pos (list_to_map ((λ name, (name, tt)) <$> names) : gmap string ())).*1 ↔
  n ∈ (list_to_set names : gset string).
Proof.
  rewrite range_perm, elem_of_list_to_set, list_elem_of_fmap. split.
  - intros ([x []]&->&Hx). apply elem_of_map_to_list, elem_of_list_to_map_2, list_elem_of_fmap in Hx as (y&[= ->]&Hy).
    done.
  - intros Hn. exists (n, tt). split; [done|]. apply elem_of_map_to_list.
    destruct ((list_to_map _ : gmap string ()) !! n) as [[]|] eqn:E; [done|].
    apply not_elem_of_list_to_map in E. destruct E. apply list_elem_of_fmap. exists (n, tt). split; [done|].
    apply list_elem_of_fmap. eauto.
Qed.

Lemma settled_some w scope old new : scope_settled w scope old new → is_Some new ↔ is_Some old.
Proof. unfold scope_settled. destruct (managed_collections scope); [by intros []|by intros ->]. Qed.

(** From the two passes to what the pass over a bucket promises. *)
Lemma scopes_after_spec (s s' : RS W) b scopes (before after : ScopeMap) :
  let requested := scope_CouchbaseName <$> scopes in
  let m := scopes_after (list_to_set requested) before in
  (∀ scope, scope ∈ scopes → scope_settled (world s) scope (m (scope_CouchbaseName scope)) (after !! scope_CouchbaseName scope)) →
  (∀ n, n ∉ requested → after !! n = m n) → at_bucket b s s' →
  (∀ n, IsSkipped unreconcilable ScopeCRDResourceKind n = false → is_Some (after !! n) ↔ n ∈ requested) ∧
  (∀ n, IsSkipped unreconcilable ScopeCRDResourceKind n = true → is_Some (after !! n) ↔ is_Some (before !! n)) ∧
  (∀ n, n ∉ requested → is_Some (after !! n) → after !! n = before !! n) ∧
  (∀ scope, scope ∈ scopes → is_Some (after !! scope_CouchbaseName scope) →
     scope_settled (world s) scope (Some (default ∅ (before !! scope_CouchbaseName scope)))
       (after !! scope_CouchbaseName scope)) ∧
  (∀ b', b' ≠ b → scopes_of (world s') b' = scopes_of (world s) b').
Proof.
  intros requested m J I (_&_&HO).
  assert (∀ n, is_Some (after !! n) ↔ is_Some (m n)) as K.
  { intros n. destruct (decide (n ∈ requested)) as [Hn|Hn]; [|by rewrite I].
    apply list_elem_of_fmap in Hn as (scope&->&Hsc). by eapply settled_some, J. }
  split; [|split; [|split; [|split; [|exact HO]]]].
  - intros n Hs. rewrite K. unfold m, scopes_after. rewrite Hs. case_decide as Hn; rewrite elem_of_list_to_set in Hn.
    + by split.
    + split; [by intros []|done].
  - intros n Hs. rewrite K. unfold m, scopes_after. by rewrite Hs.
  - intros n Hn. rewrite I by done. unfold m, scopes_after. destruct (IsSkipped _ _ n); [done|].
    rewrite decide_False by (by rewrite elem_of_list_to_set). by intros [].
  - intros scope Hsc. rewrite K. intros Hsome. specialize (J scope Hsc).
    replace (Some (default ∅ (before !! scope_CouchbaseName scope))) with (m (scope_CouchbaseName scope)); [done|].
    unfold m, scopes_after in *. destruct (IsSkipped _ _ _); [by destruct Hsome as [x ->]|].
    rewrite decide_True; [done|]. rewrite elem_of_list_to_set. apply list_elem_of_fmap. eauto.
Qed.

(** C33: a pass over the scopes of a bucket there is, when it succeeds, leaves of the scopes
    whose names are not marked unreconcilable exactly those asked for; a scope whose name is
    marked is neither created nor deleted.  A scope that was asked for, is there and has its
    collections managed then has exactly the collections asked for it and those it had whose
    names are marked; one whose collections are not managed, and one that was not asked for,
    has the collections it had; no other bucket is touched.  The default scope is always asked
    for.  (A marked scope a selector finds is among those asked for, and has its collections
    changed: [gatherScopesImplicit] does not ask the tracker.  A collection resource without
    a name of its own must not be marked.) *)
Theorem reconcileScopes_converges pos bucket spec s s' :
  let b := sb_CouchbaseName bucket in
  let before := scopes_of (world s) b in
  let after := scopes_of (world s') b in
  IsSkipped unreconcilable CollectionCRDResourceKind "" = false →
  (bucketExists b s).1 = Ok true →
  reconcileScopes unreconcilable pos bucket spec s = (Ok tt, s') →
  ∃ scopes, gatherScopes unreconcilable (cl s) (world s) spec = Ok scopes ∧
    let requested := scope_CouchbaseName <$> scopes in
    DefaultScopeOrCollection ∈ requested ∧
    (∀ n, IsSkipped unreconcilable ScopeCRDResourceKind n = false → is_Some (after !! n) ↔ n ∈ requested) ∧
    (∀ n, IsSkipped unreconcilable ScopeCRDResourceKind n = true → is_Some (after !! n) ↔ is_Some (before !! n)) ∧
    (∀ n, n ∉ requested → is_Some (after !! n) → after !! n = before !! n) ∧
    (∀ scope, scope ∈ scopes → is_Some (after !! scope_CouchbaseName scope) →
       scope_settled (world s) scope (Some (default ∅ (before !! scope_CouchbaseName scope)))
         (after !! scope_CouchbaseName scope)) ∧
    (∀ b', b' ≠ b → scopes_of (world s') b' = scopes_of (world s) b').
Proof.
  intros b before after Hempty Hb Hr. unfold reconcileScopes in Hr. inv_ok Hr. fold b in Hr0, Hr.
  rewrite Hr0 in Hb. injection Hb as ->. apply bucketExists_step in Hr0 as [Q0 S0]. simpl in Hr.
  inv_ok Hr. rename a into current. apply list_scopes_step in Hr0 as (Q1&S1&L1). fold b in Q1, S1, L1.
  inv_ok Hr. injection Hr0 as <- <-. inv_ok Hr. injection Hr0 as <- <-. inv_ok Hr. injection Hr0 as Hg <-.
  rename a into scopes. inv_ok Hr. destruct a. inv_ok Hr. destruct a. inv_ok Hr. rename a into current'.
  assert (at_bucket b s s1) as Q by (by etrans). destruct Q as (C1&R1&O1). rewrite C1, (gatherScopes_same _ _ _ _ R1) in Hg.
  destruct (gatherScopes_names _ _ _ _ Hg) as [Hnd Hdef].
  rewrite <- S1 in L1. destruct (scopes_pass _ _ _ _ _ _ _ L1 (range_names _ _) Hr0 Hr1) as [Q2 S2]. clear Hr0 Hr1.
  fold b in Q2, S2. rewrite S1, S0 in S2. fold before in S2.
  apply list_scopes_step in Hr2 as (Q3&S3&L3). fold b in Q3, S3, L3. rewrite <- S3 in L3.
  assert (at_bucket b s s4) as Q by (etrans; [|etrans; eassumption]; by split).
  apply all_scope_collections in Hr as (Q4&I4&J4); [|done..]. fold b after in Q4, I4, J4. rewrite S3 in I4, J4.
  set (m := scopes_after (list_to_set (scope_CouchbaseName <$> scopes)) before) in *.
  assert (∀ scope, scope ∈ scopes → scope_settled (world s) scope (m (scope_CouchbaseName scope))
    (after !! scope_CouchbaseName scope)) as J.
  { intros scope Hsc. rewrite <- S2. by apply (settled_same _ (world s4)), J4; [apply Q|]. }
  assert (∀ n, n ∉ scope_CouchbaseName <$> scopes → after !! n = m n) as I by (intros; by rewrite I4, S2).
  exists scopes. split; [done|]. cbv zeta. split; [done|].
  by apply (scopes_after_spec s s'); [done..|etrans].
Qed.
End converges.

(** ** Reading the annotations again

    The code writes what an annotation says into the specification of the cached resource,
    the model computes it at every use.  That is the same as long as at most one annotation
    of the resource sets the history: doing it twice, in whatever orders, is doing it once. *)
Definition history_settings (l : list (string * string)) : list (string * string) :=
  filter (λ e, sets_history e.1 = true) l.

Lemma populate_loop_one history l :
  (length (history_settings l) ≤ 1)%nat →
  populate_loop history history l =
    match history_settings l with
    | [] => history
    | e :: _ => match strconv_ParseBool e.2 with Some b => Some b | None => history end
    end.
Proof.
  assert (∀ o h l, history_settings l = [] → populate_loop o h l = h) as Hnone.
  { intros o h. induction l0 as [|[k v] l0 IH]; [done|]. unfold history_settings. rewrite filter_cons. simpl.
    case_decide as Hk; [done|]. intros Hl. destruct (sets_history k); [done|]. by apply IH. }
  induction l as [|[k v] l IH]; [done|]. unfold history_settings. rewrite filter_cons. simpl.
  case_decide as Hk; simpl in Hk.
  - rewrite Hk. simpl. intros Hl. assert (history_settings l = []) as Hrest.
    { apply length_zero_iff_nil. unfold history_settings. lia. }
    destruct (strconv_ParseBool v); [by apply Hnone|]. by destruct history.
  - destruct (sets_history k); [done|]. exact IH.
Qed.

Lemma history_settings_perm l l' :
  l ≡ₚ l' → (length (history_settings l) ≤ 1)%nat → history_settings l' = history_settings l.
Proof.
  intros Hp Hl. assert (history_settings l ≡ₚ history_settings l') as H by (unfold history_settings; by rewrite Hp).
  destruct (history_settings l) as [|e [|? ?]]; [by apply Permutation_nil_l in H|by apply Permutation_singleton_l in H|].
  simpl in Hl. lia.
Qed.

Lemma Populate_again `{MapRange} pos pos' c :
  (length (history_settings (map_to_list (cr_Annotations c))) ≤ 1)%nat →
  Populate pos' (Populate pos c) = Populate pos c.
Proof.
  intros Hl. assert (∀ q, history_settings (range q (cr_Annotations c)) =
    history_settings (map_to_list (cr_Annotations c))) as Hq.
  { intros q. apply history_settings_perm; [|done]. symmetry. apply range_perm. }
  unfold Populate. simpl. f_equal. rewrite !populate_loop_one by (by rewrite Hq). rewrite !Hq.
  destruct (history_settings _) as [|e ?]; [done|]. by destruct (strconv_ParseBool e.2).
Qed.

(** ** A witness: two scopes to delete and to create, one left alone *)
Record ScopeStore := mkScopeStore {
  res_scopes : list CouchbaseScope;
  res_collections : list CouchbaseCollection;
  store_scopes : gmap string ScopeMap;
}.

Definition ScopeWorld : Type := Sim * ScopeStore.

#[local] Instance scope_platform : Platform ScopeWorld := platform_beside.
#[local] Instance scope_environment : Environment := λ _, None.
#[local] Instance scope_settings : BucketSettings := {|
  GetBucketObjectSelector _ := Ok (λ _ _, true);
  DefaultStorageBackend _ := "";
  StatusBuckets _ := [];
|}.

Definition scopes_in (w : ScopeWorld) (b : string) : ScopeMap := default ∅ (store_scopes w.2 !! b).

Definition put_scopes (b : string) (m : ScopeMap) (w : ScopeWorld) : ScopeWorld :=
  (w.1, mkScopeStore (res_scopes w.2) (res_collections w.2) (<[b := m]> (store_scopes w.2))).

Definition listing (m : ScopeMap) : list ScopeStatus :=
  (λ e, mkScope e.1 ((λ x, mkCollection x.1 (co_MaxTTL x.2) (co_History x.2)) <$> map_to_list e.2)) <$> map_to_list m.

Definition in_scope (b n : string) (f : gmap string Collection → gmap string Collection) : M ScopeWorld () := λ w,
  match scopes_in w b !! n with
  | Some old => (Ok tt, put_scopes b (<[n := f old]> (scopes_in w b)) w)
  | None => (Err ErrResourceRequired, w)
  end.

#[local] Instance scope_requests : ScopePlatform ScopeWorld := {|
  Scopes_Get w n := find (λ s, bool_decide (sr_Name s = n)) (res_scopes w.2);
  Scopes_List w := res_scopes w.2;
  ScopeGroups_Get _ _ := None;
  ScopeGroups_List _ := [];
  Collections_Get w n := find (λ c, bool_decide (cr_Name c = n)) (res_collections w.2);
  Collections_List w := res_collections w.2;
  CollectionGroups_Get _ _ := None;
  CollectionGroups_List _ := [];
  Buckets_List _ := [];
  cb_ListBuckets _ w := (Ok (map_to_list (store_scopes w.2)).*1, w);
  cb_ListScopes b _ w := (Ok (listing (scopes_in w b)), w);
  cb_CreateScope b n _ w := (Ok tt, put_scopes b (<[n := ∅]> (scopes_in w b)) w);
  cb_DeleteScope b n _ w := (Ok tt, put_scopes b (delete n (scopes_in w b)) w);
  cb_CreateCollection b n c _ := in_scope b n (λ old, <[co_Name c := c]> old);
  cb_PatchCollection b n c _ := in_scope b n (λ old, <[co_Name c := c]> old);
  cb_DeleteCollection b n x _ := in_scope b n (λ old, delete x old);
|}.

Lemma listing_lists m : lists (listing m) m.
Proof.
  assert (∀ n, n ∈ so_Name <$> listing m ↔ is_Some (m !! n)) as Hn.
  { intros n. unfold listing. rewrite <- list_fmap_compose, list_elem_of_fmap. split.
    - intros ([k v]&->&Hx%elem_of_map_to_list). by exists v.
    - intros [v Hv]. exists (n, v). split; [done|]. by apply elem_of_map_to_list. }
  split; [intros n; by rewrite HasScope_elem|]. intros n cols Hcols x.
  assert (GetScope (listing m) n =
    mkScope n ((λ x, mkCollection x.1 (co_MaxTTL x.2) (co_History x.2)) <$> map_to_list cols)) as ->.
  { unfold GetScope. destruct (find _ (listing m)) as [s|] eqn:E.
    - apply find_some in E as [Hin Hs%bool_decide_eq_true]. apply list_elem_of_In in Hin.
      unfold listing in Hin. apply list_elem_of_fmap in Hin as ([k v]&->&Hx%elem_of_map_to_list). simpl in *. subst k.
      congruence.
    - exfalso. assert (n ∈ so_Name <$> listing m) as (s&Hs&Hin)%list_elem_of_fmap by (apply Hn; eauto).
      apply list_elem_of_In in Hin. apply (find_none _ _ E) in Hin. by case_bool_decide. }
  unfold HasCollection. simpl. rewrite existsb_exists. split.
  - intros (c&Hc&<-%bool_decide_eq_true). apply list_elem_of_In, list_elem_of_fmap in Hc as ([k v]&->&Hx%elem_of_map_to_list).
    by exists v.
  - intros [v Hv]. exists (mkCollection x (co_MaxTTL v) (co_History v)). split; [|by apply bool_decide_eq_true].
    apply list_elem_of_In, list_elem_of_fmap. exists (x, v). split; [done|]. by apply elem_of_map_to_list.
Qed.

Lemma put_scopes_spec b m w :
  same_resources w (put_scopes b m w) ∧ (∀ b', b' ≠ b → scopes_in (put_scopes b m w) b' = scopes_in w b') ∧
  scopes_in (put_scopes b m w) b = m.
Proof.
  split; [by split|]. unfold scopes_in, put_scopes. simpl. split; [|by rewrite lookup_insert_eq].
  intros b' Hb. by rewrite lookup_insert_ne.
Qed.

Lemma in_scope_spec b n f w w' : in_scope b n f w = (Ok tt, w') →
  same_resources w w' ∧ (∀ b', b' ≠ b → scopes_in w' b' = scopes_in w b') ∧
  ∃ old, scopes_in w b !! n = Some old ∧ scopes_in w' b = <[n := f old]> (scopes_in w b).
Proof.
  unfold in_scope. destruct (scopes_in w b !! n) as [old|] eqn:E; [|done]. intros [= <-].
  destruct (put_scopes_spec b (<[n := f old]> (scopes_in w b)) w) as (HR&HO&HS). eauto.
Qed.

#[local] Instance scope_laws : ScopeLaws ScopeWorld scopes_in.
Proof.
  split; simpl; intros.
  - done.
  - split; [done|]. split; [done|]. intros l [= <-]. apply listing_lists.
  - simplify_eq/=. apply put_scopes_spec.
  - simplify_eq/=. apply put_scopes_spec.
  - edestruct in_scope_spec as (HR&HO&old&Ho&HS); [done|]. eauto 6.
  - edestruct in_scope_spec as (HR&HO&old&Ho&HS); [done|]. eauto 6.
  - edestruct in_scope_spec as (HR&HO&old&Ho&HS); [done|]. eauto 6.
Qed.

Definition some_collections (l : list string) : gmap string Collection :=
  list_to_map ((λ n, (n, mkCollection n None None)) <$> l).

Definition bucket_travel : ScopedBucket := mkScopedBucket "travel" ∅ "travel" None None.

(** The bucket refers to one scope, of which one collection is managed. *)
Definition refers_to_sales : ScopeSelector := mkScopeSelector true [(ScopeCRDResourceKind, "sales-scope")] None.

Definition sales_scope : CouchbaseScope :=
  mkCouchbaseScope "sales-scope" ∅ "sales" false
    (Some (mkCollectionSelector true false [(CollectionCRDResourceKind, "orders")] None)).

Definition travel_state (m : ScopeMap) : RS ScopeWorld :=
  mkRS empty_machine (sim_cluster 2 scaled_pods)
    (scaled_world, mkScopeStore [sales_scope] [mkCouchbaseCollection "orders" ∅ ∅ "" None None]
       {["travel" := m]}) [].

Definition scopes_seen (w : ScopeWorld) : list (string * list string) :=
  map (λ e, (e.1, (map_to_list e.2).*1)) (map_to_list (scopes_in w "travel")).

Lemma reconcileScopes_converges_witness :
  let t := Mark (ScopeCRDResourceKind, "kept") "ValidationFailed" "bad" (NewTracker "west") in
  let s := travel_state {[ "_system" := ∅; "_default" := some_collections ["_default"]; "kept" := some_collections ["a"];
                           "old" := some_collections ["b"]; "sales" := some_collections ["c"] ]} in
  let s' := (reconcileScopes (H1 := scope_environment) (H2 := canonical_range) t [] bucket_travel refers_to_sales s).2 in
  (∀ x, x ∈ scopes_seen (world s') ↔ x ∈ [("_system", []); ("_default", ["_default"]); ("kept", ["a"]); ("sales", ["orders"])]) ∧
  ∀ n, IsSkipped t ScopeCRDResourceKind n = false →
    is_Some (scopes_in (world s') "travel" !! n) ↔ n ∈ ["sales"; "_default"; "_system"].
Proof.
  intros t s s'. split.
  - set (l := scopes_seen (world s')). vm_compute in l. subst l. done.
  - destruct (reconcileScopes_converges (H1 := scope_environment) (H2 := canonical_range) scopes_in t [] bucket_travel
      refers_to_sales s s') as (scopes&Hg&_&Hall&_).
    + vm_compute. reflexivity.
    + vm_compute. reflexivity.
    + unfold s'. set (r := reconcileScopes _ _ _ _ _). assert (r.1 = Ok tt) by (vm_compute; reflexivity).
      by destruct r as [[[]| |] ?].
    + assert (scope_CouchbaseName <$> scopes = ["sales"; "_default"; "_system"]) as He.
      { apply (f_equal (fmap (fmap scope_CouchbaseName))) in Hg.
        revert Hg. set (l := fmap _ (gatherScopes _ _ _ _)). vm_compute in l. subst l. by intros [= <-]. }
      rewrite He in Hall. exact Hall.
Defined.

(** A scope whose resource is marked unreconcilable, and whose name in Couchbase is not that
    of the resource, is deleted with what it holds: the resource is not asked for, and the
    tracker is asked about the name in Couchbase. *)
Lemma marked_scope_is_deleted :
  let t := Mark (ScopeCRDResourceKind, "sales-scope") "ValidationFailed" "bad" (NewTracker "west") in
  let s := travel_state {[ "_system" := ∅; "_default" := some_collections ["_default"]; "sales" := some_collections ["orders"] ]} in
  let s' := (reconcileScopes (H1 := scope_environment) (H2 := canonical_range) t [] bucket_travel refers_to_sales s).2 in
  scopes_seen (world s') = [("_system", []); ("_default", ["_default"])].
Proof. vm_compute. reflexivity. Qed.
