(* ===== verification/RbacSpec.v ===== *)
(** * Groups, users and roles: theorems about [Rbac] *)

From S2P Require Import Prelude Effects GoLib Regex Digests Version Api Member Persistence Status.
From S2P Require Import UpgradeOrder RollingUpgrade NodeStatus Pods Machine Rebalance Baseline PreviousVersion.
From S2P Require Import Unreconcilable Collections Rbac Sim CollectionsSpec.
Local Open Scope Z_scope.

(** ** The roles of a group *)

(** What a role stands for in one bucket whose scopes are [m]. *)
Inductive grants (role : Role) (bucket : string) (m : ScopeMap) (scopes : list CouchbaseScope)
    (collections : list CouchbaseCollection) : UserRole → Prop :=
  | grants_collection s c cols :
      s ∈ scopes → c ∈ collections → m !! scope_CouchbaseName s = Some cols →
      is_Some (cols !! collection_CouchbaseName c) →
      grants role bucket m scopes collections
        (mkUserRole (ro_Name role) bucket (scope_CouchbaseName s) (collection_CouchbaseName c) [])
  | grants_scope s :
      s ∈ scopes → is_Some (m !! scope_CouchbaseName s) → collections = [] → rs_Selector (ro_Collections role) = None →
      grants role bucket m scopes collections (mkUserRole (ro_Name role) bucket (scope_CouchbaseName s) "" [])
  | grants_bucket :
      scopes = [] → rs_Selector (ro_Scopes role) = None →
      grants role bucket m scopes collections (mkUserRole (ro_Name role) bucket "" "" []).

Lemma elem_of_bucket_roles role bucket l m scopes collections r :
  lists l m → r ∈ bucket_roles role bucket l scopes collections ↔ grants role bucket m scopes collections r.
Proof.
  intros [Hs Hc]. unfold bucket_roles. rewrite elem_of_app, list_elem_of_bind. split.
  - intros [(s&Hr&[Hhas Hin]%list_elem_of_filter)|Hr].
    + apply Hs in Hhas as [cols Hcols]. unfold scope_roles in Hr. apply elem_of_app in Hr as [Hr|Hr].
      * apply list_elem_of_fmap in Hr as (c&->&[Hh Hcin]%list_elem_of_filter).
        eapply grants_collection; [done..|]. by apply (Hc _ _ Hcols).
      * destruct collections, (rs_Selector (ro_Collections role)) eqn:E; try by apply not_elem_of_nil in Hr.
        apply list_elem_of_singleton in Hr as ->. apply grants_scope; eauto.
    + destruct scopes, (rs_Selector (ro_Scopes role)) eqn:E; try by apply not_elem_of_nil in Hr.
      apply list_elem_of_singleton in Hr as ->. by apply grants_bucket.
  - intros [s c cols Hin Hcin Hcols Hx|s Hin Hsome -> Hsel| -> Hsel].
    + left. exists s. split; [|apply list_elem_of_filter; split; [apply Hs; eauto|done]].
      apply elem_of_app. left. apply list_elem_of_fmap. exists c. split; [done|]. apply list_elem_of_filter.
      split; [by apply (Hc _ _ Hcols)|done].
    + left. exists s. split; [|apply list_elem_of_filter; split; [by apply Hs|done]].
      apply elem_of_app. right. rewrite Hsel. by left.
    + right. rewrite Hsel. by left.
Qed.

(** ** What Couchbase does

    [buckets_of] are its buckets, [users_of] its users by their domain and ID, and
    [passwords_of] their passwords.  A request for the list of buckets may fail.  A user that
    was written reads as it was asked for, and keeps its password if none was given. *)
Definition user_key (u : User) : string * string := (ur_Domain u, ur_ID u).

Class RbacLaws (W : Type) `{!ScopePlatform W} `{!RbacPlatform W} `{Platform W} (scopes_of : W → string → ScopeMap)
    (buckets_of : W → list string) (users_of : W → gmap (string * string) User)
    (passwords_of : W → gmap (string * string) string) : Prop := {
  list_all_buckets t w : let r := cb_ListBuckets t w in
    buckets_of r.2 = buckets_of w ∧ (∀ b, scopes_of r.2 b = scopes_of w b) ∧
    (r.1 = Ok (buckets_of w) ∨ ∃ e, r.1 = Err e);
  list_all_scopes b t w : let r := cb_ListScopes b t w in
    buckets_of r.2 = buckets_of w ∧ (∀ b', scopes_of r.2 b' = scopes_of w b') ∧
    ∀ l, r.1 = Ok l → lists l (scopes_of w b);
  list_users t w : let r := cb_ListUsers t w in
    users_of r.2 = users_of w ∧ passwords_of r.2 = passwords_of w ∧
    ∀ l, r.1 = Ok l → NoDup (user_key <$> l) ∧ ∀ k u, users_of w !! k = Some u ↔ u ∈ l ∧ user_key u = k;
  create_user_writes r t w w' : cb_CreateUser r t w = (Ok tt, w') →
    (∃ e, users_of w' = <[user_key r := e]> (users_of w) ∧ shouldUpdateUser r e = false) ∧
    passwords_of w' = (if bool_decide (ur_Password r = "") then passwords_of w
                       else <[user_key r := ur_Password r]> (passwords_of w));
  delete_user_removes e t w w' : cb_DeleteUser e t w = (Ok tt, w') →
    users_of w' = delete (user_key e) (users_of w) ∧ passwords_of w' = delete (user_key e) (passwords_of w);
  terse_info_keeps t w : let w' := (cb_GetTerseClusterInfo t w).2 in
    users_of w' = users_of w ∧ passwords_of w' = passwords_of w ∧ ∀ n, Users_Get w' n = Users_Get w n;
}.

Section rbac.
Context `{Platform W} `{PersistentStorage W} `{!ScopePlatform W} `{!RbacPlatform W}.
Context `{RbacSettings} `{Environment} `{MapRange} `{UnicodeTables}.
Context (scopes_of : W → string → ScopeMap) (buckets_of : W → list string).
Context (users_of : W → gmap (string * string) User) (passwords_of : W → gmap (string * string) string).
Context `{!RbacLaws W scopes_of buckets_of users_of passwords_of}.
Context (unreconcilable : Tracker).

Definition same_buckets (s s' : RS W) : Prop :=
  cl s' = cl s ∧ buckets_of (world s') = buckets_of (world s) ∧ ∀ b, scopes_of (world s') b = scopes_of (world s) b.

#[local] Instance same_buckets_preorder : PreOrder same_buckets.
Proof.
  split; [by intros s|]. intros s1 s2 s3 (C1&B1&S1) (C2&B2&S2). split; [congruence|]. split; [congruence|].
  intros b. by rewrite S2.
Qed.

(** That there is a bucket is sure; that there is none may be a listing that failed. *)
Definition listing_fails (s : RS W) : Prop := ∃ e, (cb_ListBuckets (ToMembers (readyMembers (cl s))) (world s)).1 = Err e.

Lemma bucketExists_says b r s s' :
  bucketExists b s = (Ok r, s') →
  same_buckets s s' ∧ (r = bool_decide (b ∈ buckets_of (world s)) ∨ r = false ∧ listing_fails s).
Proof.
  unfold bucketExists, listing_fails, mbind, M_bind, gets, attempt, on_world, zoom. simpl.
  pose proof (list_all_buckets (ToMembers (readyMembers (cl s))) (world s)) as Hl.
  destruct (cb_ListBuckets _ (world s)) as [r' w']. simpl in Hl. destruct Hl as (HB&HS&[->|[e ->]]);
    intros [= <- <-]; (split; [by split|]); [by left|right]. simpl. eauto.
Qed.

Lemma getScopeList_says b scopes l s s' :
  getScopeList b scopes s = (Ok l, s') →
  same_buckets s s' ∧ (scopes ≠ [] → lists l (scopes_of (world s) b)).
Proof.
  unfold getScopeList. destruct scopes as [|x scopes]; [by intros [= <- <-]|].
  intros Hr. inv_ok Hr. injection Hr0 as <- <-. apply on_world_ok in Hr as [Hr Hc].
  pose proof (list_all_scopes b (ToMembers (readyMembers (cl s))) (world s)) as Hl. rewrite Hr in Hl.
  destruct Hl as (HB&HS&Hl). split; [by split|]. intros _. by apply Hl.
Qed.

(** Without scopes the list that was not asked for does not matter. *)
Lemma elem_of_bucket_roles_none role b l m collections r :
  r ∈ bucket_roles role b l [] collections ↔ grants role b m [] collections r.
Proof.
  unfold bucket_roles. simpl. split.
  - destruct (rs_Selector (ro_Scopes role)) eqn:E; [by intros ?%not_elem_of_nil|].
    intros ->%list_elem_of_singleton. by apply grants_bucket.
  - intros [s c cols Hin|s Hin|_ ->]; [by apply not_elem_of_nil in Hin..|]. by left.
Qed.

(** The roles of a bucket are different ones if its scopes and collections are. *)
Lemma NoDup_bucket_roles role b l scopes collections :
  NoDup (scope_CouchbaseName <$> scopes) → NoDup (collection_CouchbaseName <$> collections) →
  NoDup (bucket_roles role b l scopes collections).
Proof.
  intros Hs Hc. unfold bucket_roles.
  assert (∀ cb s, NoDup (scope_roles role b cb s collections)) as Hone.
  { intros cb s. unfold scope_roles. destruct collections as [|c0 cs].
    { simpl. destruct (rs_Selector (ro_Collections role)); [constructor|apply NoDup_singleton]. }
    rewrite app_nil_r. set (k := c0 :: cs) in *. clearbody k. induction k as [|c k IH]; [constructor|].
    rewrite fmap_cons in Hc. apply NoDup_cons in Hc as [Hn Hc].
    rewrite filter_cons. case_decide; [|by apply IH]. rewrite fmap_cons. apply NoDup_cons. split; [|by apply IH].
    intros (c'&[= Heq]&[_ Hin]%list_elem_of_filter)%list_elem_of_fmap. apply Hn. rewrite Heq.
    apply list_elem_of_fmap. eauto. }
  assert (∀ cb s r, r ∈ scope_roles role b cb s collections → ur_ScopeName r = scope_CouchbaseName s) as Hname.
  { intros cb s r. unfold scope_roles. intros [(c&->&_)%list_elem_of_fmap|Hr]%elem_of_app; [done|].
    destruct collections, (rs_Selector (ro_Collections role)); try by apply not_elem_of_nil in Hr. by apply list_elem_of_singleton in Hr as ->. }
  destruct scopes as [|s0 ss].
  { simpl. destruct (rs_Selector (ro_Scopes role)); [constructor|apply NoDup_singleton]. }
  rewrite app_nil_r. set (k := s0 :: ss) in *. clearbody k. induction k as [|s k IH]; [constructor|].
  rewrite fmap_cons in Hs. apply NoDup_cons in Hs as [Hn Hs]. rewrite filter_cons. case_decide; [|by apply IH].
  rewrite bind_cons. apply NoDup_app. split; [apply Hone|]. split; [|by apply IH].
  intros r Hr (s'&Hr'&[_ Hin]%list_elem_of_filter)%list_elem_of_bind. apply Hname in Hr, Hr'. apply Hn.
  rewrite <- Hr, Hr'. apply list_elem_of_fmap. eauto.
Qed.

(** C34: a role that is not of the whole cluster stands, in every bucket it names that the
    operator found, for a grant on every pair of a scope and a collection there are of those it
    names; for a grant on a whole scope that there is only if it names no collection that was
    found and gives no selector of them, and for one on the whole bucket only if it names no
    scope that was found and gives no selector; and for nothing else.  Every bucket that it
    names and that is there is found, unless the request for the list of buckets can fail.  No
    grant is made twice if the buckets, the scopes and the collections found are different
    ones. *)
Theorem getRoleCombinations_grants role buckets scopes collections s roles s' :
  getRoleCombinations role buckets scopes collections s = (Ok roles, s') →
  ∃ found, found `sublist_of` filter (λ b, b ∈ buckets_of (world s)) buckets ∧
    ((∀ s1, same_buckets s s1 → ¬ listing_fails s1) → found = filter (λ b, b ∈ buckets_of (world s)) buckets) ∧
    (∀ r, r ∈ roles ↔ ∃ b, b ∈ found ∧ grants role b (scopes_of (world s) b) scopes collections r) ∧
    (NoDup buckets → NoDup (scope_CouchbaseName <$> scopes) → NoDup (collection_CouchbaseName <$> collections) →
     NoDup roles).
Proof.
  intros Hr. unfold getRoleCombinations in Hr.
  apply (for_fold_invariant _ (λ d roles s', same_buckets s s' ∧
    ∃ found, found `sublist_of` filter (λ b, b ∈ buckets_of (world s)) d ∧
    ((∀ s1, same_buckets s s1 → ¬ listing_fails s1) → found = filter (λ b, b ∈ buckets_of (world s)) d) ∧
    (∀ r, r ∈ roles ↔ ∃ b, b ∈ found ∧ grants role b (scopes_of (world s) b) scopes collections r) ∧
    (NoDup d → NoDup (scope_CouchbaseName <$> scopes) → NoDup (collection_CouchbaseName <$> collections) →
     NoDup roles))) in Hr.
  - by destruct Hr as [_ Hr].
  - intros d b k l1 s1 l2 s2 _ (Q1&found&F1&A1&I1&N1) Hx. unfold add_combinations in Hx. inv_ok Hx.
    apply bucketExists_says in Hx0 as [Q2 Hb]. rename a into there.
    assert (same_buckets s s0) as (C3&B3&S3) by (by etrans).
    assert (buckets_of (world s1) = buckets_of (world s)) as HB by apply Q1. rewrite HB in Hb.
    destruct there; simpl in Hx.
    + assert (b ∈ buckets_of (world s)) as Hin.
      { destruct Hb as [Hb|[? _]]; [|done]. symmetry in Hb. by apply bool_decide_eq_true in Hb. }
      inv_ok Hx. apply getScopeList_says in Hx0 as [Q4 Hl]. injection Hx as <- <-.
      split; [by etrans; [etrans; [exact Q1|exact Q2]|exact Q4]|]. exists (found ++ [b]).
      rewrite filter_app, (filter_cons_True _ b []) by done.
      assert (∀ r', r' ∈ bucket_roles role b a scopes collections ↔
        grants role b (scopes_of (world s) b) scopes collections r') as Hgr.
      { intros r'. destruct scopes; [apply elem_of_bucket_roles_none|]. rewrite <- S3. apply elem_of_bucket_roles.
        by apply Hl. }
      split; [by apply sublist_app|]. split; [intros Ha; by rewrite (A1 Ha)|]. split.
      * intros r'. rewrite elem_of_app, I1, Hgr. set_solver.
      * intros Hd Hs Hc. apply NoDup_app in Hd as (Hd&Hnew&_). apply NoDup_app. split; [by apply N1|]. split.
        -- intros r' (b'&Hb'&Hg')%I1 Hg%Hgr. apply (Hnew b'); [|rewrite list_elem_of_singleton].
           ++ eapply list_elem_of_filter, elem_of_sublist; eauto.
           ++ by destruct Hg'; inversion Hg.
        -- by apply NoDup_bucket_roles.
    + injection Hx as <- <-. split; [by etrans|]. exists found. rewrite filter_app. split; [by apply sublist_inserts_r|].
      split; [|split; [done|]].
      * intros Ha. rewrite (A1 Ha). destruct Hb as [Hb|[_ Hb]]; [|by apply Ha in Hb].
        symmetry in Hb. apply bool_decide_eq_false in Hb. rewrite filter_cons_False by done. by rewrite app_nil_r.
      * intros Hd. apply N1. by apply NoDup_app in Hd as [? _].
  - split; [done|]. exists []. repeat split; [done|set_solver..|]. constructor.
Qed.

(** ** The users *)
Definition same_users (s s' : RS W) : Prop :=
  cl s' = cl s ∧ users_of (world s') = users_of (world s) ∧ passwords_of (world s') = passwords_of (world s) ∧
  ∀ n, Users_Get (world s') n = Users_Get (world s) n.

#[local] Instance same_users_preorder : PreOrder same_users.
Proof.
  split; [by intros s|]. intros s1 s2 s3 (C1&U1&P1&G1) (C2&U2&P2&G2).
  split; [congruence|]. split; [congruence|]. split; [congruence|]. intros n. by rewrite G2.
Qed.

Lemma features_keep_users pos version : keeps same_users (SupportsVersionFeatures pos version).
Proof.
  unfold SupportsVersionFeatures, CheckClusterCompatVersion. keeps_tac.
  intros s. unfold on_world, zoom. pose proof (terse_info_keeps (ToMembers (readyMembers a)) (world s)) as Hk.
  destruct (cb_GetTerseClusterInfo _ (world s)) as [r w']. simpl in Hk |- *. by split.
Qed.

Lemma generateUsers_keeps pos groups : keeps same_users (generateUsers unreconcilable pos groups).
Proof.
  unfold generateUsers. keeps_tac; apply features_keep_users.
Qed.

(** *** Every user asked for is filed under its ID

    provided that no resource with a name of its own in Couchbase bears a name that is in
    use there. *)
Definition names_apart (w : W) : Prop :=
  ∀ n n' u v, Users_Get w n = Some u → Users_Get w n' = Some v → GetUserID v = cu_Name u → GetUserID u = cu_Name u.

Definition filed (w : W) (users : gmap string User) : Prop :=
  ∀ k r, users !! k = Some r → ur_ID r = k ∧ ∃ n v, Users_Get w n = Some v ∧ GetUserID v = k.

Lemma result_fold_invariant {A B} (I : B → Prop) (f : B → A → result B) l b b' :
  (∀ x b b', x ∈ l → I b → f b x = Ok b' → I b') → I b → result_fold f b l = Ok b' → I b'.
Proof.
  revert b. induction l as [|x l IH]; intros b Hf Hb; simpl; [by intros [= <-]|].
  destruct (f b x) as [b1| |] eqn:Hx; [|done..]. simpl. intros Hl. apply (IH b1); [|eapply Hf; [by left|done..]|done].
  intros y c c' Hy. apply Hf. by right.
Qed.

Lemma add_subject_filed w group atLeast80 users kept subject n users' kept' :
  names_apart w → Users_Get w n = Some subject → filed w users →
  add_subject unreconcilable w group atLeast80 (users, kept) subject = Ok (users', kept') → filed w users'.
Proof.
  intros Hapart Hn Hf. unfold add_subject. destruct (IsSkipped _ _ _); [by intros [= <- _]|].
  set (user := match users !! cu_Name subject with Some user => _ | None => _ end).
  destruct user as [u| |] eqn:Hu; [|done..]. simpl. intros [= <- _] k r.
  intros [[<- <-]|[_ Hk]]%lookup_insert_Some; [|by apply Hf]. simpl. split; [|by eexists _, _].
  unfold user in Hu. destruct (users !! cu_Name subject) as [u'|] eqn:Hl.
  - injection Hu as <-. apply Hf in Hl as [-> (n'&v&Hv&Hid)]. by rewrite (Hapart _ _ _ _ Hn Hv Hid).
  - unfold createAPIUserFromSubject in Hu. case_bool_decide.
    + destruct (getRBACAuthPassword w _); [|done..]. simpl in Hu. by destruct atLeast80; simplify_eq/=.
    + by injection Hu as <-.
Qed.

Lemma subjects_got c w binding subjects u :
  gatherSubjectsForRoleBinding c w binding = Ok subjects → u ∈ subjects → ∃ n, Users_Get w n = Some u.
Proof.
  unfold gatherSubjectsForRoleBinding. destruct (rbac_selector c); [|done..]. simpl. intros [= <-].
  rewrite ?list_elem_of_filter, ?elem_of_list_omap, ?list_elem_of_omap. naive_solver.
Qed.

Lemma generateUsers_filed pos groups s requested kept s1 :
  names_apart (world s) → generateUsers unreconcilable pos groups s = (Ok (requested, kept), s1) →
  ∀ k r, requested !! k = Some r → ur_ID r = k.
Proof.
  intros Hapart Hg. unfold generateUsers in Hg. inv_ok Hg.
  destruct (keeps_run _ _ _ _ _ (features_keep_users _ _) Hg0) as (C1&_&_&G1).
  inv_ok Hg. injection Hg1 as <- <-. inv_ok Hg. injection Hg1 as <- <-. inv_ok Hg. injection Hg1 as Hfold <-.
  assert (names_apart (world s0)) as Hapart'.
  { intros n n' u v. rewrite !G1. apply Hapart. }
  assert (filed (world s0) a0.1) as Hfiled.
  { apply (result_fold_invariant (λ acc, filed (world s0) acc.1)) in Hfold; [done| |by intros ? ? ?].
    intros binding acc acc' _ Hacc. unfold add_binding. destruct (negb _); [by intros [= <-]|].
    destruct (gatherSubjectsForRoleBinding _ _ _) as [subjects| |] eqn:Hs; [|done..]. simpl.
    apply (result_fold_invariant (λ acc, filed (world s0) acc.1)); [|done]. intros u [users k1] [users' k2] Hu Hf Hx.
    destruct (subjects_got _ _ _ _ _ Hs Hu) as [n Hn]. by eapply add_subject_filed. }
  destruct (net_CloudNativeGateway _).
  - inv_ok Hg. injection Hg1 as Hcng <-. injection Hg as <- <- <-. intros k r [[<- <-]|[_ Hk]]%lookup_insert_Some.
    + unfold cng_user in Hcng. destruct (getRBACAuthPassword _ _); [|done..]. by injection Hcng as <-.
    + by apply Hfiled.
  - injection Hg as -> <-. intros k r Hk. by apply Hfiled.
Qed.

(** *** The users there are *)
Lemma create_user_step r s s' :
  on_world (cb_CreateUser r (ToMembers (readyMembers (cl s)))) s = (Ok tt, s') →
  cl s' = cl s ∧
  (∃ e, users_of (world s') = <[user_key r := e]> (users_of (world s)) ∧ shouldUpdateUser r e = false) ∧
  passwords_of (world s') = (if bool_decide (ur_Password r = "") then passwords_of (world s)
                             else <[user_key r := ur_Password r]> (passwords_of (world s))).
Proof. intros [Hr Hc]%on_world_ok. by apply create_user_writes in Hr as [Hu Hp]. Qed.

Lemma shouldUpdateUser_update r e e' : shouldUpdateUser (user_update r e) e' = shouldUpdateUser r e'.
Proof.
  unfold shouldUpdateUser, user_update. simpl.
  by rewrite (sort_Strings_proper _ _ (sort_Strings_perm (ur_Groups r))).
Qed.

Definition up_to_date (r : User) (new : option User) : Prop := ∃ e', new = Some e' ∧ shouldUpdateUser r e' = false.

(** One turn: a user that is asked for is written where it differs, under the domain that is
    asked for; another is deleted or kept. *)
Definition turn (requested : gmap string User) (kept : gset string) (e : User) (w w' : W) : Prop :=
  match requested !! ur_ID e with
  | Some r => passwords_of w' = passwords_of w ∧
      if shouldUpdateUser r e then ∃ e', users_of w' = <[user_key r := e']> (users_of w) ∧ shouldUpdateUser r e' = false
      else users_of w' = users_of w
  | None =>
      if bool_decide (ur_ID e ∈ kept) then users_of w' = users_of w ∧ passwords_of w' = passwords_of w
      else users_of w' = delete (user_key e) (users_of w) ∧ passwords_of w' = delete (user_key e) (passwords_of w)
  end.

Lemma reconcile_user_step requested kept names e s names' s' :
  reconcile_user requested kept names e s = (Ok names', s') →
  cl s' = cl s ∧ names' = names ++ (if bool_decide (is_Some (requested !! ur_ID e)) then [ur_ID e] else []) ∧
  turn requested kept e (world s) (world s').
Proof.
  intros Hr. unfold reconcile_user in Hr. inv_ok Hr. injection Hr0 as <- <-. unfold turn.
  destruct (requested !! ur_ID e) as [r|] eqn:Hreq.
  - inv_ok Hr. destruct a. injection Hr as <- <-. rewrite bool_decide_true by done.
    destruct (shouldUpdateUser r e) eqn:Hd; [|injection Hr0 as <-; eauto 10].
    apply (create_user_step (user_update r e)) in Hr0 as (Hc&(e'&Hu&He')&Hp).
    rewrite shouldUpdateUser_update in He'. eauto 10.
  - rewrite bool_decide_false by (by intros []). case_bool_decide as Hk; simpl.
    { injection Hr as <- <-. by rewrite app_nil_r. }
    inv_ok Hr. destruct a. injection Hr as <- <-. apply on_world_ok in Hr0 as [Hr0 Hc].
    apply delete_user_removes in Hr0 as [Hu Hp]. by rewrite app_nil_r.
Qed.

(** What the turns of the users [done_] leave of the user [k]: [old] and [pw] is what there
    was, [new] and [new_pw] what there is. *)
Definition turned (requested : gmap string User) (kept : gset string) (done_ : list User) (k : string * string)
    (old new : option User) (pw new_pw : option string) : Prop :=
  match requested !! k.2 with
  | None => if bool_decide (k ∈ user_key <$> done_ ∧ k.2 ∉ kept) then new = None else new = old ∧ new_pw = pw
  | Some r => new_pw = pw ∧
      (new = old ∧ (k.1 = ur_Domain r → ∀ e, e ∈ done_ → ur_ID e = k.2 → shouldUpdateUser r e = false) ∨
       k.1 = ur_Domain r ∧ up_to_date r new ∧ ∃ e, e ∈ done_ ∧ ur_ID e = k.2 ∧ shouldUpdateUser r e = true)
  end.

Lemma turned_next requested kept done_ e k old pw w w' :
  (∀ k r, requested !! k = Some r → ur_ID r = k) →
  turned requested kept done_ k old (users_of w !! k) pw (passwords_of w !! k) →
  turn requested kept e w w' →
  turned requested kept (done_ ++ [e]) k old (users_of w' !! k) pw (passwords_of w' !! k).
Proof.
  intros Hkey Hk He. unfold turned, turn in *. destruct k as [d id]. simpl in *.
  destruct (requested !! id) as [r|] eqn:Hreq.
  - assert (ur_ID r = id) as Hid by (by apply Hkey). destruct Hk as [Hpw Hk].
    destruct (decide (ur_ID e = id)) as [Heq|Hne].
    + rewrite Heq, Hreq in He. destruct He as [-> He]. split; [done|]. destruct (shouldUpdateUser r e) eqn:Hs.
      * destruct He as (e'&->&He'). destruct (decide (d = ur_Domain r)) as [->|Hd].
        -- right. unfold user_key. rewrite Hid, lookup_insert_eq. split; [done|]. split; [by exists e'|].
           exists e. rewrite elem_of_app, list_elem_of_singleton. auto.
        -- unfold user_key. rewrite lookup_insert_ne by congruence. left. destruct Hk as [[-> _]|[? _]]; done.
      * rewrite He. destruct Hk as [[-> Hk]|(->&Hn&x&Hx&?)].
        -- left. split; [done|]. intros Hd x [Hx| ->%list_elem_of_singleton]%elem_of_app; [by apply Hk|done].
        -- right. split; [done|]. split; [done|]. exists x. rewrite elem_of_app. tauto.
    + assert (users_of w' !! (d, id) = users_of w !! (d, id) ∧ passwords_of w' !! (d, id) = passwords_of w !! (d, id))
        as [-> ->].
      { destruct (requested !! ur_ID e) as [r'|] eqn:Hr'.
        - destruct He as [-> He]. split; [|done]. destruct (shouldUpdateUser r' e); [|by rewrite He].
          destruct He as (e'&->&_). rewrite lookup_insert_ne; [done|]. apply Hkey in Hr'. unfold user_key. congruence.
        - case_bool_decide; destruct He as [-> ->]; [done|]. unfold user_key. by rewrite !lookup_delete_ne by congruence. }
      split; [done|]. destruct Hk as [[-> Hk]|(->&Hn&x&Hx&?)].
      * left. split; [done|]. intros Hd x [Hx| ->%list_elem_of_singleton]%elem_of_app; [by apply Hk|done].
      * right. split; [done|]. split; [done|]. exists x. rewrite elem_of_app. tauto.
  - assert (user_key e ≠ (d, id) ∨ id ∈ kept →
      users_of w' !! (d, id) = users_of w !! (d, id) ∧ passwords_of w' !! (d, id) = passwords_of w !! (d, id)) as Hsame.
    { intros Hout. destruct (requested !! ur_ID e) as [r'|] eqn:Hr'.
      - destruct He as [-> He]. split; [|done]. destruct (shouldUpdateUser r' e); [|by rewrite He].
        destruct He as (e'&->&_). rewrite lookup_insert_ne; [done|]. apply Hkey in Hr' as Hid. unfold user_key. congruence.
      - case_bool_decide as Hin; destruct He as [-> ->]; [done|]. rewrite !lookup_delete_ne; [done|..];
          destruct Hout as [?|?]; unfold user_key in *; congruence. }
    rewrite fmap_app. destruct (decide (id ∈ kept)) as [Hin|Hin].
    { rewrite bool_decide_false in Hk by tauto. rewrite bool_decide_false by tauto.
      destruct Hsame as [-> ->]; [by right|]. done. }
    destruct (decide (user_key e = (d, id))) as [Heq|Hne].
    + rewrite bool_decide_true; [|split; [rewrite elem_of_app; right; rewrite <- Heq; by left|done]].
      injection Heq as Hd Hid. rewrite Hid, Hreq, bool_decide_false in He by done. destruct He as [-> _].
      unfold user_key. rewrite Hd, Hid. by rewrite lookup_delete_eq.
    + destruct Hsame as [-> ->]; [by left|].
      rewrite (bool_decide_ext _ ((d, id) ∈ user_key <$> done_ ∧ id ∉ kept)); [done|].
      rewrite elem_of_app. simpl. rewrite list_elem_of_singleton. naive_solver.
Qed.

(** The users there were, after their turns. *)
Lemma existing_users requested kept existing s names s' :
  (∀ k r, requested !! k = Some r → ur_ID r = k) →
  reconcileExistingUsers requested kept existing s = (Ok names, s') →
  cl s' = cl s ∧
  (∀ id, id ∈ names ↔ id ∈ ur_ID <$> existing ∧ is_Some (requested !! id)) ∧
  ∀ k, turned requested kept existing k (users_of (world s) !! k) (users_of (world s') !! k)
         (passwords_of (world s) !! k) (passwords_of (world s') !! k).
Proof.
  intros Hkey Hr. unfold reconcileExistingUsers in Hr.
  apply (for_fold_invariant _ (λ d names s', cl s' = cl s ∧
    (∀ id, id ∈ names ↔ id ∈ ur_ID <$> d ∧ is_Some (requested !! id)) ∧
    ∀ k, turned requested kept d k (users_of (world s) !! k) (users_of (world s') !! k)
           (passwords_of (world s) !! k) (passwords_of (world s') !! k))) in Hr; [done| |].
  - intros d e k l1 s1 l2 s2 -> (C1&N1&T1) Hx. apply reconcile_user_step in Hx as (C2&->&T2).
    split; [congruence|]. split; [|intros k'; by eapply turned_next].
    intros id. rewrite elem_of_app, N1, fmap_app, elem_of_app. simpl. rewrite list_elem_of_singleton.
    case_bool_decide as Hs; rewrite ?list_elem_of_singleton, ?elem_of_nil; [naive_solver|].
    split; [tauto|]. intros [[?| ->] ?]; [tauto|done].
  - split; [done|]. split; [set_solver|]. intros k. unfold turned. destruct (requested !! k.2).
    + split; [done|]. left. split; [done|]. by intros _ ? ?%not_elem_of_nil.
    + rewrite bool_decide_false; [done|]. by intros [?%not_elem_of_nil _].
Qed.

(** *** The users there are not: what creating them leaves *)
Definition created (c : Cluster) (r : User) (new : option User) (new_pw : option string) : Prop :=
  if may_create c r
  then up_to_date r new ∧ (ur_Password r ≠ "" → new_pw = Some (ur_Password r))
  else new = None.

Definition to_create (requested : gmap string User) (names : list string) (k : string * string) : Prop :=
  ∃ r, requested !! k.2 = Some r ∧ k.1 = ur_Domain r ∧ k.2 ∉ names.

Lemma create_user_spec names k r s s' :
  ur_ID r = k → create_user names r s = (Ok tt, s') →
  cl s' = cl s ∧
  (∀ k', k' ≠ user_key r ∨ k ∈ names → users_of (world s') !! k' = users_of (world s) !! k' ∧
                                      passwords_of (world s') !! k' = passwords_of (world s) !! k') ∧
  (k ∉ names → users_of (world s) !! user_key r = None →
   created (cl s) r (users_of (world s') !! user_key r) (passwords_of (world s') !! user_key r)).
Proof.
  intros Hid Hx. unfold create_user in Hx. rewrite Hid in Hx. destruct (HasItem k names).2 eqn:Hh.
  { injection Hx as <-. apply HasItem_spec in Hh. done. }
  assert (k ∉ names) as Hn by (by rewrite <- HasItem_spec, Hh).
  inv_ok Hx. injection Hx0 as <- <-. unfold created. destruct (may_create (cl s) r); simpl in Hx; [|by injection Hx as <-].
  apply create_user_step in Hx as (C2&(e&Hu&He)&Hp). rewrite Hu, Hp. split; [done|]. split.
  - intros k' [Hne|?]; [|done]. rewrite lookup_insert_ne by done. split; [done|].
    case_bool_decide; [done|]. by rewrite lookup_insert_ne.
  - intros _ _. rewrite lookup_insert_eq. split; [by exists e|]. intros Hpw. rewrite bool_decide_false by done.
    by rewrite lookup_insert_eq.
Qed.

Lemma create_missing pos (requested : gmap string User) names s s' :
  (∀ k r, requested !! k = Some r → ur_ID r = k) →
  (∀ k r, requested !! k = Some r → k ∉ names → users_of (world s) !! user_key r = None) →
  createMissingUsers pos requested names s = (Ok tt, s') →
  cl s' = cl s ∧
  (∀ k, ¬ to_create requested names k → users_of (world s') !! k = users_of (world s) !! k ∧
                                        passwords_of (world s') !! k = passwords_of (world s) !! k) ∧
  ∀ k r, requested !! k = Some r → k ∉ names →
    created (cl s) r (users_of (world s') !! user_key r) (passwords_of (world s') !! user_key r).
Proof.
  intros Hkey Hnone Hr. unfold createMissingUsers in Hr.
  assert (NoDup (range pos requested).*1) as Hnd by (rewrite range_perm; apply NoDup_fst_map_to_list).
  assert (∀ k r, (k, r) ∈ range pos requested ↔ requested !! k = Some r) as Hran
    by (intros; by rewrite range_perm, elem_of_map_to_list).
  apply (for_each_invariant _ (λ d s', cl s' = cl s ∧
    (∀ k, ¬ (to_create requested names k ∧ k.2 ∈ d.*1) → users_of (world s') !! k = users_of (world s) !! k ∧
                                       passwords_of (world s') !! k = passwords_of (world s) !! k) ∧
    ∀ k r, (k, r) ∈ d → k ∉ names →
      created (cl s) r (users_of (world s') !! user_key r) (passwords_of (world s') !! user_key r))) in Hr.
  - destruct Hr as (C1&O1&T1). split; [done|]. split; [intros k Hk; apply O1; tauto|].
    intros k r Hk%Hran. by apply T1.
  - intros d [k r] rest s1 s2 Hsplit (C1&O1&T1) Hx. rewrite Hsplit, fmap_app, fmap_cons in Hnd. simpl in Hnd, Hx.
    apply NoDup_app in Hnd as (_&Hnew&_).
    assert (k ∉ d.*1) as Hout by (intros Hd; apply (Hnew _ Hd); by left).
    assert (requested !! k = Some r) as Hk by (apply Hran; rewrite Hsplit; set_solver).
    pose proof (Hkey _ _ Hk) as Hid. apply (create_user_spec names k _ _ _ Hid) in Hx as (C2&O2&T2).
    split; [congruence|]. split.
    + intros k' Hk'. destruct (decide (k' = user_key r ∧ k ∉ names)) as [[-> Hn]|Hne].
      * destruct Hk'. unfold user_key. simpl. rewrite Hid. split; [by exists r|]. rewrite fmap_app. set_solver.
      * destruct (O2 k') as [-> ->]; [destruct (decide (k ∈ names)); tauto|]. apply O1. intros [Hc Hin]. apply Hk'.
        split; [done|]. rewrite fmap_app. set_solver.
    + intros k' r' [Hin|Hin%list_elem_of_singleton]%elem_of_app Hn.
      * assert (requested !! k' = Some r') as Hk'' by (apply Hran; rewrite Hsplit; set_solver).
        pose proof (Hkey _ _ Hk'') as Hid'.
        assert (k' ≠ k) by (intros ->; apply Hout, list_elem_of_fmap; by exists (k, r')).
        destruct (O2 (user_key r')) as [-> ->]; [left; unfold user_key; congruence|]. by apply (T1 k' r').
      * injection Hin as -> ->. rewrite <- C1. apply T2; [exact Hn|]. destruct (O1 (user_key r)) as [-> _]; [|by eapply Hnone].
        intros [_ Hin]. apply Hout. unfold user_key in Hin. simpl in Hin. by rewrite Hid in Hin.
  - split; [done|]. split; [done|]. by intros ? ? ?%not_elem_of_nil.
Qed.

(** C35: a pass over the users that succeeds treats each user of Couchbase, of a domain and an
    ID, according to what [generateUsers] asked for.  A user with an ID nothing is asked for
    is deleted, unless the ID is among the resource names of marked users that [generateUsers]
    remembers, and then stays as it was.  Of an ID something is asked for, the users in other domains stay as they
    were; the user in the domain asked for ends up to date, with the password it had, if it
    was there.  If no domain had the ID it is created, with the password given, unless the
    password policy refuses it; if only another domain had it, it is written, and then
    without a password, exactly if that other user differed.  The names returned are the IDs
    asked for that there were.  No resource with a name of its own in Couchbase may bear a
    name that is in use there. *)
Theorem reconcileUsers_converges pos groups s names s' requested kept s1 :
  names_apart (world s) →
  generateUsers unreconcilable (0%nat :: pos) groups s = (Ok (requested, kept), s1) →
  reconcileUsers unreconcilable pos groups s = (Ok names, s') →
  let there d id := users_of (world s) !! (d, id) in
  (∀ id, id ∈ names ↔ (∃ d, is_Some (there d id)) ∧ is_Some (requested !! id)) ∧
  ∀ d id, let pw := passwords_of (world s) !! (d, id) in let new_pw := passwords_of (world s') !! (d, id) in
    let new := users_of (world s') !! (d, id) in
    match requested !! id with
    | None => if bool_decide (id ∈ kept) then new = there d id ∧ new_pw = pw else new = None
    | Some r =>
        if bool_decide (d = ur_Domain r) then
          (is_Some (there d id) → up_to_date r new ∧ new_pw = pw) ∧
          ((∀ d', there d' id = None) → created (cl s) r new new_pw) ∧
          (there d id = None → (∃ d', is_Some (there d' id)) → new_pw = pw ∧
             (new = None ∧ (∀ d' e, there d' id = Some e → shouldUpdateUser r e = false) ∨
              up_to_date r new ∧ ∃ d' e, there d' id = Some e ∧ shouldUpdateUser r e = true))
        else new = there d id ∧ new_pw = pw
    end.
Proof.
  intros Hapart Hg Hr there. pose proof (generateUsers_filed _ _ _ _ _ _ Hapart Hg) as Hkey.
  unfold reconcileUsers in Hr. rewrite (run_bind _ _ _ _ _ Hg) in Hr.
  destruct (keeps_run _ _ _ _ _ (generateUsers_keeps _ _) Hg) as (C1&U1&P1&_).
  inv_ok Hr. injection Hr0 as <- <-. inv_ok Hr. rename a into existing. apply on_world_ok in Hr0 as [Hl C2].
  pose proof (list_users (ToMembers (readyMembers (cl s1))) (world s1)) as Hlist. rewrite Hl in Hlist.
  destruct Hlist as (U2&P2&Hok). destruct (Hok existing eq_refl) as [_ Hin]. simpl in U2, P2.
  rewrite U1 in Hin. inv_ok Hr. inv_ok Hr. destruct a0. injection Hr as -> ->. simpl in Hr0, Hr1.
  assert (∀ id, id ∈ ur_ID <$> existing ↔ ∃ d, is_Some (there d id)) as Hids.
  { intros id. rewrite list_elem_of_fmap. split.
    - intros (e&->&He). exists (ur_Domain e), e. by apply Hin.
    - intros (d&e&[He Heq]%Hin). injection Heq as _ <-. eauto. }
  apply existing_users in Hr0 as (C3&Hnames&T3); [|done]. rewrite U2, P2, U1, P1 in T3.
  assert (∀ id, id ∈ names ↔ (∃ d, is_Some (there d id)) ∧ is_Some (requested !! id)) as Hn.
  { intros id. by rewrite Hnames, Hids. }
  apply create_missing in Hr1 as (C4&O4&T4); [|done|].
  2: { intros k r Hk Hout. pose proof (Hkey _ _ Hk) as Hid. specialize (T3 (user_key r)). unfold turned in T3.
       simpl in T3. rewrite Hid, Hk in T3. destruct T3 as [_ [[-> _]|(_&_&e&He&Heq&_)]].
       - apply eq_None_not_Some. intros Hs. apply Hout, Hn. split; [|done]. exists (ur_Domain r). unfold there.
         by rewrite <- Hid.
       - destruct Hout. apply Hnames. split; [|by eauto]. apply list_elem_of_fmap. exists e. split; [congruence|done]. }
  split; [done|]. intros d id pw new_pw new. specialize (T3 (d, id)). unfold turned in T3. simpl in T3.
  destruct (requested !! id) as [r|] eqn:Hreq.
  2: { destruct (O4 (d, id)) as [Hu Hp]; [intros (r&Hr&_); simpl in Hr; congruence|].
       unfold new, new_pw. rewrite Hu, Hp. destruct (decide (id ∈ kept)) as [Hk|Hk].
       - rewrite bool_decide_false in T3 by tauto. by rewrite bool_decide_true.
       - rewrite (bool_decide_false (id ∈ kept)) by done. case_bool_decide as Hin'; [done|].
         destruct T3 as [-> _]. apply eq_None_not_Some. intros [e He].
         apply Hin'. split; [|done]. apply Hin in He as [He <-]. apply list_elem_of_fmap. eauto. }
  destruct T3 as [Tp T3]. pose proof (Hkey _ _ Hreq) as Hid. case_bool_decide as Hd.
  2: { destruct (O4 (d, id)) as [Hu Hp]; [intros (r'&Hr&Hd'&_); simpl in *; congruence|].
       unfold new, new_pw. rewrite Hu, Hp. destruct T3 as [[-> _]|[? _]]; done. }
  assert ((∃ d', is_Some (there d' id)) → new = users_of (world s2) !! (d, id) ∧ new_pw = pw) as Hthere.
  { intros Hx. unfold new, new_pw, pw. rewrite <- Tp. apply O4. intros (r'&_&_&Hout). apply Hout, Hn. split; [done|].
    simpl. rewrite Hreq. eauto. }
  split; [|split].
  - intros [e He]. destruct Hthere as [-> ->]; [exists d; eauto|]. split; [|done].
    destruct T3 as [[-> T3]|(_&?&_)]; [|done]. exists e. split; [exact He|]. apply Hin in He as [He Heq].
    injection Heq as Hd' Hid'. by apply T3.
  - intros Hnone. replace (cl s) with (cl s2) by congruence.
    assert (user_key r = (d, id)) as Hkr by (unfold user_key; congruence).
    specialize (T4 id r Hreq). rewrite Hkr in T4. apply T4.
    intros [[d' [e He]] _]%Hn. by rewrite Hnone in He.
  - intros Hnone Hx. destruct (Hthere Hx) as [-> ->]. split; [done|].
    destruct T3 as [[-> T3]|(_&Hup&e&He&Heq&Hs)].
    + left. split; [exact Hnone|]. intros d' e [He Heq]%Hin. injection Heq as _ Heq. by apply T3.
    + right. split; [done|]. exists (ur_Domain e), e. split; [|done]. apply Hin. split; [done|]. unfold user_key. congruence.
Qed.
End rbac.

(** ** A witness: one user to keep, one to create, one to delete

    [rs_unavailable]: the list of the buckets cannot be had. *)
Record RbacStore := mkRbacStore {
  rs_scopes : gmap string ScopeMap;
  rs_unavailable : bool;
  rs_users : gmap (string * string) User;
  rs_passwords : gmap (string * string) string;
  rs_groups : list Group;
  rs_scope_resources : list CouchbaseScope;
  rs_user_resources : list CouchbaseUser;
  rs_group_resources : list CouchbaseGroup;
  rs_bindings : list CouchbaseRoleBinding;
}.

Definition RbacWorld : Type := Sim * RbacStore.

#[local] Instance rbac_platform : Platform RbacWorld := platform_beside.
#[local] Instance rbac_storage : PersistentStorage RbacWorld := {|
  ps_Insert k v := in_first (ps_Insert k v);
  ps_Upsert k v := in_first (ps_Upsert k v);
  ps_Update k v := in_first (ps_Update k v);
  ps_Delete k := in_first (ps_Delete k);
  ps_DeleteXDCR c := in_first (ps_DeleteXDCR c);
  ps_Get k := in_first (ps_Get k);
  ps_Clear := in_first ps_Clear |}.
#[local] Instance rbac_environment : Environment := λ _, None.
#[local] Instance rbac_settings : RbacSettings :=
  {| RBAC_Selector _ := None; PasswordPolicy _ := None; LDAP _ := None |}.
#[local] Instance ascii_tables : UnicodeTables := {|
  unicode_IsUpper c := bool_decide (65 ≤ c ≤ 90);
  unicode_IsLower c := bool_decide (97 ≤ c ≤ 122);
  unicode_IsDigit c := bool_decide (48 ≤ c ≤ 57) |}.

Definition scopes_there (w : RbacWorld) (b : string) : ScopeMap := default ∅ (rs_scopes w.2 !! b).
Definition buckets_there (w : RbacWorld) : list string := (map_to_list (rs_scopes w.2)).*1.

Definition with_users (users : gmap (string * string) User) (passwords : gmap (string * string) string) (w : RbacWorld) : RbacWorld :=
  let r := w.2 in
  (w.1, mkRbacStore (rs_scopes r) (rs_unavailable r) users passwords (rs_groups r) (rs_scope_resources r) (rs_user_resources r)
          (rs_group_resources r) (rs_bindings r)).

(** Roles that were given to a user itself. *)
Definition own_role (r : UserRole) : UserRole :=
  mkUserRole (ur_Role r) (ur_BucketName r) (ur_ScopeName r) (ur_CollectionName r) [("user", "")].

Definition stored (r : User) : User :=
  mkUser (ur_Name r) "" (ur_Domain r) (ur_ID r) (own_role <$> ur_Roles r) (ur_Groups r)
    (Some (default false (ur_Locked r))) (ur_TemporaryPassword r) (ur_PasswordChangeDate r).

#[local] Instance rbac_scope_requests : ScopePlatform RbacWorld := {|
  Scopes_Get w n := find (λ s, bool_decide (sr_Name s = n)) (rs_scope_resources w.2);
  Scopes_List w := rs_scope_resources w.2;
  ScopeGroups_Get _ _ := None; ScopeGroups_List _ := [];
  Collections_Get _ _ := None; Collections_List _ := [];
  CollectionGroups_Get _ _ := None; CollectionGroups_List _ := [];
  Buckets_List _ := [];
  cb_ListBuckets _ w := (if rs_unavailable w.2 then Err ErrResourceRequired else Ok (buckets_there w), w);
  cb_ListScopes b _ w := (Ok (listing (scopes_there w b)), w);
  cb_CreateScope _ _ _ w := (Ok tt, w); cb_DeleteScope _ _ _ w := (Ok tt, w);
  cb_CreateCollection _ _ _ _ w := (Ok tt, w); cb_PatchCollection _ _ _ _ w := (Ok tt, w);
  cb_DeleteCollection _ _ _ _ w := (Ok tt, w);
|}.

(** The users under their own domains and IDs. *)
Definition users_there (w : RbacWorld) : gmap (string * string) User := filter (λ e, user_key e.2 = e.1) (rs_users w.2).

#[local] Instance rbac_requests : RbacPlatform RbacWorld := {|
  CouchbaseBuckets_Get w n :=
    if bool_decide (n ∈ buckets_there w) then Some (mkScopedBucket n ∅ n None None) else None;
  CouchbaseBuckets_List w := (λ n, mkScopedBucket n ∅ n None None) <$> buckets_there w;
  Groups_List w := rs_group_resources w.2;
  Users_Get w n := find (λ u, bool_decide (cu_Name u = n)) (rs_user_resources w.2);
  Users_List w := rs_user_resources w.2;
  RoleBindings_List w := rs_bindings w.2;
  Secrets_Get _ n := Some {[AuthSecretPasswordKey := "secret of " +:+ n]};
  cb_ListGroups _ w := (Ok (rs_groups w.2), w);
  cb_CreateGroup _ _ w := (Ok tt, w);
  cb_DeleteGroup _ _ w := (Ok tt, w);
  cb_ListUsers _ w := (Ok (map_to_list (users_there w)).*2, w);
  cb_CreateUser r _ w :=
    (Ok tt, with_users (<[user_key r := stored r]> (rs_users w.2))
              (if bool_decide (ur_Password r = "") then rs_passwords w.2
               else <[user_key r := ur_Password r]> (rs_passwords w.2)) w);
  cb_DeleteUser e _ w := (Ok tt, with_users (delete (user_key e) (rs_users w.2)) (delete (user_key e) (rs_passwords w.2)) w);
  cb_GetLDAPSettings _ w := (Err ErrResourceRequired, w);
  cb_SetLDAPSettings _ _ w := (Ok tt, w);
  rfc3339_Parse _ := Ok 0;
  zero_time := 0;
|}.

Lemma shouldUpdateUser_stored r : shouldUpdateUser r (stored r) = false.
Proof.
  unfold shouldUpdateUser, stored. simpl. rewrite !bool_decide_true by done. simpl.
  assert (RolesToStr (filter (λ x, IsDirectRole x = true) (own_role <$> ur_Roles r)) = RolesToStr (ur_Roles r)) as ->.
  { unfold RolesToStr. f_equal. induction (ur_Roles r) as [|x l IH]; [done|]. rewrite fmap_cons, filter_cons_True by done.
    rewrite !fmap_cons. by rewrite IH. }
  rewrite !bool_decide_true by done. simpl. destruct (ur_Locked r); [|done]. simpl. by rewrite bool_decide_true.
Qed.

Lemma users_there_keys w k e : users_there w !! k = Some e → user_key e = k.
Proof. unfold users_there. by intros [_ ?]%map_lookup_filter_Some. Qed.

#[local] Instance rbac_laws :
  RbacLaws RbacWorld scopes_there buckets_there users_there (λ w, rs_passwords w.2).
Proof.
  split.
  - intros t w. split; [done|]. split; [done|]. simpl. destruct (rs_unavailable w.2); eauto.
  - intros b t w. split; [done|]. split; [done|]. intros l [= <-]. apply listing_lists.
  - intros t w. split; [done|]. split; [done|]. intros l [= <-]. split.
    + replace (user_key <$> (map_to_list (users_there w)).*2) with (map_to_list (users_there w)).*1;
        [apply NoDup_fst_map_to_list|].
      rewrite <- list_fmap_compose. apply list_fmap_ext. intros i [k e] Hi. apply list_elem_of_lookup_2 in Hi.
      apply elem_of_map_to_list, users_there_keys in Hi. done.
    + intros k u. rewrite list_elem_of_fmap. split.
      * intros Hu. split; [|by eapply users_there_keys]. exists (k, u). split; [done|]. by apply elem_of_map_to_list.
      * intros [([k' e]&->&Hi%elem_of_map_to_list) <-]. simpl. by rewrite (users_there_keys _ _ _ Hi).
  - intros r t w w' [= <-]. split; [|done]. exists (stored r). split; [|apply shouldUpdateUser_stored].
    unfold users_there. simpl. by rewrite map_filter_insert_True.
  - intros e t w w' [= <-]. unfold users_there. simpl. by rewrite map_filter_delete.
  - done.
Qed.

Definition user_resource (name specName : string) : CouchbaseUser :=
  mkCouchbaseUser name ∅ specName "" InternalAuthDomain (name +:+ "-auth") None None.

Definition user_there (id : string) (groups : list string) : User :=
  mkUser "" "" InternalAuthDomain id [] groups (Some false) None None.

Definition rbac_state (users : list User) (resources : list CouchbaseUser) (bindings : list (string * list string)) :
    RS RbacWorld :=
  mkRS empty_machine (sim_cluster 2 scaled_pods)
    (scaled_world, mkRbacStore {["travel" := {["_default" := ∅]}]}
       false (list_to_map ((λ u, (user_key u, u)) <$> users))
       (list_to_map ((λ u, (user_key u, "old password")) <$> users))
       [mkGroup "readers" [] ""; mkGroup "writers" [] ""] [mkCouchbaseScope "inventory" ∅ "_default" false None]
       resources [mkCouchbaseGroup "readers" ∅ [] ""; mkCouchbaseGroup "writers" ∅ [] ""]
       ((λ b, mkRoleBinding b.1 b.1 b.2) <$> bindings)) [].

Definition users_seen (w : RbacWorld) : list (string * list string * option string) :=
  map (λ e, (e.1.2, ur_Groups e.2, rs_passwords w.2 !! e.1)) (map_to_list (users_there w)).

(** Decides [names_apart]: where the names of all resources are in [l]. *)
Lemma names_apart_in (w : RbacWorld) :
  (∀ u v, u ∈ rs_user_resources w.2 → v ∈ rs_user_resources w.2 → GetUserID v = cu_Name u → GetUserID u = cu_Name u) →
  names_apart w.
Proof.
  intros Hall n n' u v [Hu _]%find_some [Hv _]%find_some. apply Hall; by apply list_elem_of_In.
Qed.

Lemma reconcileUsers_converges_witness :
  let s := rbac_state [user_there "alice" []; user_there "carol" ["readers"]]
             [user_resource "alice" ""; user_resource "bob" ""] [("readers", ["alice"; "bob"])] in
  let r := reconcileUsers (H2 := rbac_environment) (H3 := canonical_range) (NewTracker "west") [] ["readers"] s in
  users_seen (world r.2) =
    [("alice", ["readers"], Some "old password"); ("bob", ["readers"], Some "secret of bob-auth")] ∧
  users_there (world r.2) !! (InternalAuthDomain, "carol") = None.
Proof.
  intros s r. split; [vm_compute; reflexivity|].
  set (g := generateUsers (H2 := rbac_environment) (H3 := canonical_range) (NewTracker "west") [0%nat] ["readers"] s).
  set (q := default (∅, ∅) (match g.1 with Ok x => Some x | _ => None end)).
  assert (g = (Ok (q.1, q.2), s)) as Hg by (vm_compute; reflexivity).
  destruct (reconcileUsers_converges (H2 := rbac_environment) (H3 := canonical_range) scopes_there buckets_there
    users_there (λ w, rs_passwords w.2) (NewTracker "west") [] ["readers"] s ["alice"] r.2 q.1 q.2 s) as [_ Hall].
  - apply names_apart_in. simpl. intros u v. rewrite !elem_of_cons, !elem_of_nil.
    intros Hu Hv. destruct_or! Hu; destruct_or! Hv; subst; done.
  - exact Hg.
  - vm_compute. reflexivity.
  - specialize (Hall InternalAuthDomain "carol"). revert Hall. fold r.
    set (x := users_there (world r.2) !! (InternalAuthDomain, "carol")). vm_compute in x. by subst x.
Defined.

(** A role on one collection of one scope. *)
Definition nothing_named : RoleSpec := mkRoleSpec [] None.

Definition reads (bucket : string) (collections : RoleSpec) : Role :=
  mkRole "data_reader" bucket nothing_named (mkRoleSpec [(ScopeCRDResourceKind, "inventory")] None) collections.

Lemma getRoleCombinations_grants_witness :
  let s := rbac_state [] [] [] in
  let role := reads "travel" nothing_named in
  let scopes := getRoleScopes (world s) role in
  getRoleCombinations role ["travel"; "gone"] scopes [] s =
    (Ok [mkUserRole "data_reader" "travel" "_default" "" []], s) ∧
  grants role "travel" (scopes_there (world s) "travel") scopes [] (mkUserRole "data_reader" "travel" "_default" "" []).
Proof.
  intros s role scopes.
  assert (getRoleCombinations role ["travel"; "gone"] scopes [] s =
    (Ok [mkUserRole "data_reader" "travel" "_default" "" []], s)) as Hr by (vm_compute; reflexivity).
  split; [exact Hr|].
  destruct (getRoleCombinations_grants scopes_there buckets_there users_there (λ w, rs_passwords w.2) role _ _ _ _ _ _
    Hr) as (found&_&_&Hin&_).
  destruct (Hin (mkUserRole "data_reader" "travel" "_default" "" [])) as [(b&Hb&Hg) _]; [by left|]. destruct (decide (b = "travel")) as [->|Hne]; [exact Hg|].
  exfalso. inversion Hg; congruence.
Defined.

(** A role on a collection that there is not is granted on the whole scope. *)
Lemma missing_collection_widens :
  (handleRole (H2 := rbac_environment)
     (reads "travel" (mkRoleSpec [(CollectionCRDResourceKind, "payments")] None)) (rbac_state [] [] [])).1 =
    Ok [mkUserRole "data_reader" "travel" "_default" "" []].
Proof. vm_compute. reflexivity. Qed.

(** A scope that is found twice is granted twice. *)
Lemma scope_granted_twice :
  let scope name := mkCouchbaseScope name ∅ "_default" false None in
  (getRoleCombinations (reads "travel" nothing_named) ["travel"] [scope "inventory"; scope "stock"] []
     (rbac_state [] [] [])).1 =
    Ok [mkUserRole "data_reader" "travel" "_default" "" []; mkUserRole "data_reader" "travel" "_default" "" []].
Proof. vm_compute. reflexivity. Qed.

(** A request for the buckets that fails leaves the role out, and nothing is reported. *)
Definition buckets_unavailable (s : RS RbacWorld) : RS RbacWorld :=
  let w := world s in
  set_world (w.1, mkRbacStore (rs_scopes w.2) true (rs_users w.2) (rs_passwords w.2) (rs_groups w.2)
    (rs_scope_resources w.2) (rs_user_resources w.2) (rs_group_resources w.2) (rs_bindings w.2)) s.

Lemma failed_listing_drops_role :
  let run s := (handleRole (H2 := rbac_environment) (reads "travel" nothing_named) s).1 in
  run (rbac_state [] [] []) = Ok [mkUserRole "data_reader" "travel" "_default" "" []] ∧
  run (buckets_unavailable (rbac_state [] [] [])) = Ok [].
Proof. split; vm_compute; reflexivity. Qed.

(** A role on the bucket [*] is granted nowhere, one without a bucket everywhere. *)
Lemma star_bucket_grants_nothing :
  let role bucket := mkRole "bucket_admin" bucket nothing_named nothing_named nothing_named in
  (handleRole (H2 := rbac_environment) (role "*") (rbac_state [] [] [])).1 = Ok [] ∧
  (handleRole (H2 := rbac_environment) (role "") (rbac_state [] [] [])).1 = Ok [mkUserRole "bucket_admin" "*" "" "" []].
Proof. split; vm_compute; reflexivity. Qed.

(** A user whose name in Couchbase is its own, and who is bound to two groups, is in the last. *)
Lemma renamed_user_keeps_last_group :
  let s := rbac_state [] [user_resource "dave" "dave@corp"] [("readers", ["dave"]); ("writers", ["dave"])] in
  match (generateUsers (H2 := rbac_environment) (H3 := canonical_range) (NewTracker "west") [] ["readers"; "writers"] s).1 with
  | Ok q => ur_Groups <$> q.1 !! "dave@corp" = Some ["writers"]
  | _ => False
  end.
Proof. vm_compute. reflexivity. Qed.

(** A user is looked for by its ID alone: where only another domain has the ID, the one asked
    for is written without its password, or, if the two do not differ, not at all. *)
Lemma other_domain_takes_place :
  let external groups := mkUser "" "" "external" "alice" [] groups (Some false) None None in
  let run s := (reconcileUsers (H2 := rbac_environment) (H3 := canonical_range) (NewTracker "west") [] ["readers"] s).2 in
  let state groups := rbac_state [external groups] [user_resource "alice" ""] [("readers", ["alice"])] in
  let local s := (users_there (world s) !! (InternalAuthDomain, "alice"),
                  rs_passwords (world s).2 !! (InternalAuthDomain, "alice")) in
  (is_Some (local (run (state []))).1 ∧ (local (run (state []))).2 = None) ∧
  (local (run (state ["readers"]))).1 = None.
Proof. split; [split|]; vm_compute; [by eexists|reflexivity..]. Qed.

(** The users of a group that is marked unreconcilable are deleted, and so is a marked user
    whose name in Couchbase is its own. *)
Lemma marked_group_deletes_users :
  let t := Mark (GroupCRDResourceKind, "readers") "ValidationFailed" "bad" (NewTracker "west") in
  let s := rbac_state [user_there "alice" ["readers"]] [user_resource "alice" ""] [("readers", ["alice"])] in
  users_seen (world (reconcileRBACResources (H2 := rbac_environment) (H3 := canonical_range) t [] s).2) = [].
Proof. vm_compute. reflexivity. Qed.

Lemma marked_renamed_user_is_deleted :
  let t := Mark (UserCRDResourceKind, "dave") "ValidationFailed" "bad" (NewTracker "west") in
  let s := rbac_state [user_there "dave@corp" ["readers"]] [user_resource "dave" "dave@corp"] [("readers", ["dave"])] in
  users_seen (world (reconcileRBACResources (H2 := rbac_environment) (H3 := canonical_range) t [] s).2) = [].
Proof. vm_compute. reflexivity. Qed.
