(* ===== verification/JanitorSpec.v ===== *)
(** * Log volumes: theorems about [Janitor] *)

From S2P Require Import Prelude Effects GoLib Regex Digests Version Api Member Persistence Status.
From S2P Require Import UpgradeOrder NodeStatus Pods Volumes Machine Rebalance Baseline Janitor Sim.
Local Open Scope Z_scope.

Definition put_pvc (p : PVC) (l : list PVC) : list PVC := (λ q, if bool_decide (pvc_Name q = pvc_Name p) then p else q) <$> l.

(** What the theorem below takes for granted: the cache shows what was written, and no longer
    what was deleted, by the time the round reads it again, as it does between its two
    deletions; and pods do not come or go meanwhile.  A cache that lags behind would have the
    second deletion count, and ask to delete again, volumes that are gone. *)
Class JanitorLaws (W : Type) `{Platform W} `{!JanitorPlatform W} : Prop := {
  cache_set p w : PVCs_List (cache_SetPVC p w) = put_pvc p (PVCs_List w) ∧
    ∀ n, Pods_Get (cache_SetPVC p w) n = Pods_Get w n;
  update_stored p w w' : api_UpdatePVC p w = (Ok tt, w') →
    PVCs_List w' = put_pvc p (PVCs_List w) ∧ ∀ n, Pods_Get w' n = Pods_Get w n;
  delete_removes name w w' : api_DeletePVC name w = (Ok tt, w') →
    PVCs_List w' = filter (λ p, pvc_Name p ≠ name) (PVCs_List w) ∧ ∀ n, Pods_Get w' n = Pods_Get w n;
}.

Section janitor.
Context `{Platform W} `{!JanitorPlatform W} `{!JanitorLaws W}.

(** ** Deleting claims by name *)
Definition without (names : list string) (l : list PVC) : list PVC := filter (λ p, pvc_Name p ∉ names) l.

Lemma without_app l1 l2 l : without (l1 ++ l2) l = without l2 (without l1 l).
Proof.
  unfold without. rewrite list_filter_filter. apply list_filter_iff. intros p. rewrite elem_of_app. tauto.
Qed.

Lemma getDetached_without names w w' :
  PVCs_List w' = without names (PVCs_List w) → getDetachedLogPVCs w' = without names (getDetachedLogPVCs w).
Proof.
  unfold getDetachedLogPVCs, LogPVCList. intros ->. unfold without. rewrite !list_filter_filter.
  apply list_filter_iff. tauto.
Qed.

Lemma delete_one name w w' :
  api_DeletePVC name w = (Ok tt, w') →
  PVCs_List w' = without [name] (PVCs_List w) ∧ ∀ n, Pods_Get w' n = Pods_Get w n.
Proof.
  intros [Hl Hp]%delete_removes. split; [|done]. rewrite Hl. apply list_filter_iff. set_solver.
Qed.

(** A loop that deletes some of the claims it goes through. *)
Lemma delete_loop (f : PVC → M W ()) (l : list PVC) w w' :
  (∀ p w w', f p w = (Ok tt, w') → w' = w ∨ api_DeletePVC (pvc_Name p) w = (Ok tt, w')) →
  for_each f l w = (Ok tt, w') →
  ∃ gone, gone ⊆ pvc_Name <$> l ∧ PVCs_List w' = without gone (PVCs_List w) ∧ ∀ n, Pods_Get w' n = Pods_Get w n.
Proof.
  intros Hf Hr. apply (for_each_invariant _ (λ d w', ∃ gone, gone ⊆ pvc_Name <$> d ∧
    PVCs_List w' = without gone (PVCs_List w) ∧ ∀ n, Pods_Get w' n = Pods_Get w n)) in Hr; [done| |].
  - intros d p k w1 w2 _ (gone&Hs&Hl&Hp) Hx. destruct (Hf _ _ _ Hx) as [->|Hdel].
    + exists gone. split; [set_solver|done].
    + apply delete_one in Hdel as [Hl2 Hp2]. exists (gone ++ [pvc_Name p]). split; [set_solver|].
      split; [by rewrite without_app, Hl2, Hl|]. intros n. by rewrite Hp2.
  - exists []. split; [set_solver|]. split; [|done]. unfold without. symmetry. apply filter_all. set_solver.
Qed.

Lemma delete_all_loop (l : list PVC) w w' :
  for_each (λ p, api_DeletePVC (pvc_Name p)) l w = (Ok tt, w') →
  PVCs_List w' = without (pvc_Name <$> l) (PVCs_List w) ∧ ∀ n, Pods_Get w' n = Pods_Get w n.
Proof.
  intros Hr. apply (for_each_invariant _ (λ d w', PVCs_List w' = without (pvc_Name <$> d) (PVCs_List w) ∧
    ∀ n, Pods_Get w' n = Pods_Get w n)) in Hr; [done| |].
  - intros d p k w1 w2 _ (Hl&Hp) [Hl2 Hp2]%delete_one. rewrite fmap_app, without_app, <- Hl, Hl2.
    split; [done|]. intros n. by rewrite Hp2.
  - split; [|done]. unfold without. symmetry. apply filter_all. set_solver.
Qed.

(** ** The oldest are deleted *)
Lemma detached_before_sorted l : StronglySorted (leb_rel detached_before) (stable_sort detached_before l).
Proof.
  apply stable_sort_sorted; [intros ? ?; apply string_leb_total|intros ? ? ?; apply string_leb_trans].
Qed.

Lemma without_names_drop n (l : list PVC) :
  NoDup (pvc_Name <$> l) → without (pvc_Name <$> take n l) l = drop n l.
Proof.
  intros Hnd. rewrite <- (take_drop n l) at 2. unfold without. rewrite filter_app.
  rewrite <- (take_drop n l), fmap_app in Hnd. apply NoDup_app in Hnd as (_&Hd&_).
  rewrite filter_none, filter_all; [done| |].
  - intros p Hp Hin. apply (Hd _ Hin). apply list_elem_of_fmap. eauto.
  - intros p Hp Hin. apply Hin. apply list_elem_of_fmap. eauto.
Qed.

(** With more volumes than may be kept, exactly that many stay, and every one that goes was
    detached no later, as its date reads, than every one that stays. *)
Lemma deleteOverCapacityVolumes_newest spec (w w' : W) :
  NoDup (pvc_Name <$> PVCs_List w) → 0 < LogRetentionCount spec →
  deleteOverCapacityVolumes spec w = (Ok tt, w') →
  (∀ n, Pods_Get w' n = Pods_Get w n) ∧
  ∃ gone, gone ⊆ getDetachedLogPVCs w ∧ PVCs_List w' = without (pvc_Name <$> gone) (PVCs_List w) ∧
    Z.of_nat (length (getDetachedLogPVCs w')) = Z.min (LogRetentionCount spec) (Z.of_nat (length (getDetachedLogPVCs w))) ∧
    ∀ p q, p ∈ gone → q ∈ getDetachedLogPVCs w' → detached_before p q = true.
Proof.
  intros Hnd Hpos. unfold deleteOverCapacityVolumes. rewrite bool_decide_false by lia.
  unfold mbind, M_bind, get. set (l := getDetachedLogPVCs w).
  case_bool_decide as Hlen.
  { intros [= <-]. split; [done|]. exists []. split; [set_solver|]. split; [symmetry; apply filter_all; set_solver|].
    fold l. split; [lia|]. set_solver. }
  rewrite bool_decide_false by lia. set (n := Z.to_nat _). intros [Hl Hp]%delete_all_loop.
  set (s := stable_sort detached_before l) in *.
  assert (s ≡ₚ l) as Hperm by apply stable_sort_perm.
  assert (NoDup (pvc_Name <$> s)) as Hnds.
  { rewrite Hperm. unfold l, getDetachedLogPVCs, LogPVCList. rewrite list_filter_filter.
    eapply sublist_NoDup; [done|apply fmap_sublist, sublist_filter]. }
  assert (getDetachedLogPVCs w' ≡ₚ drop n s) as Hkept.
  { rewrite (getDetached_without _ _ _ Hl). fold l. rewrite <- (without_names_drop n s Hnds). unfold without.
    by rewrite Hperm. }
  split; [done|]. exists (take n s). split; [|split; [exact Hl|]].
  - intros p Hp'. rewrite <- Hperm, <- (take_drop n s). apply elem_of_app. by left.
  - split; [rewrite Hkept, length_drop; unfold n, s; rewrite stable_sort_length; lia|].
    intros p q Hp' Hq. rewrite Hkept in Hq. pose proof (detached_before_sorted l) as Hs. fold s in Hs.
    rewrite <- (take_drop n s) in Hs. apply StronglySorted_app in Hs as (Hpq&_&_). by apply Hpq.
Qed.

(** ** The annotations *)
Definition has_pod (w : W) (pvc : PVC) : bool :=
  match pvc_Labels pvc !! LabelNode with Some name => PodExists w name | None => false end.

Lemma has_pod_same (w w' : W) pvc : (∀ n, Pods_Get w' n = Pods_Get w n) → has_pod w' pvc = has_pod w pvc.
Proof. intros Hp. unfold has_pod, PodExists. destruct (pvc_Labels pvc !! LabelNode); [|done]. by rewrite Hp. Qed.

Lemma annotation_keeps pvc a :
  a !! AnnotationVolumeMountPath = annotations pvc !! AnnotationVolumeMountPath →
  IsLogPVC (with_annotations pvc a) = IsLogPVC pvc.
Proof. intros Ha. unfold IsLogPVC. change (annotations (with_annotations pvc a)) with a. by rewrite Ha. Qed.

(** The turn of one claim: it is replaced by itself with other annotations, so that it says
    it is detached only if it has no pod. *)
Lemma updateDetachedAnnotation_step pvc w w' :
  updateDetachedAnnotation pvc w = (Ok tt, w') →
  (∀ n, Pods_Get w' n = Pods_Get w n) ∧
  (w' = w ∧ (has_pod w pvc = true → detached_since pvc = None) ∨ ∃ a, PVCs_List w' = put_pvc (with_annotations pvc a) (PVCs_List w) ∧
     IsLogPVC (with_annotations pvc a) = IsLogPVC pvc ∧
     (has_pod w pvc = true → detached_since (with_annotations pvc a) = None)).
Proof.
  unfold updateDetachedAnnotation, has_pod. destruct (pvc_Labels pvc !! LabelNode) as [name|]; [|done].
  unfold mbind at 1, M_bind at 1, get.
  assert (∀ a w', update_shared (with_annotations pvc a) w = (Ok tt, w') →
    PVCs_List w' = put_pvc (with_annotations pvc a) (PVCs_List w) ∧ ∀ n, Pods_Get w' n = Pods_Get w n) as Hupd.
  { intros a w1. unfold update_shared, mbind, M_bind, modify. intros [Hl Hp]%update_stored.
    destruct (cache_set (with_annotations pvc a) w) as [Hl0 Hp0]. split.
    - rewrite Hl, Hl0. unfold put_pvc. rewrite <- list_fmap_compose. apply list_fmap_ext. intros i q _. simpl.
      destruct (decide (pvc_Name q = pvc_Name pvc)) as [Hq|Hq].
      + rewrite (bool_decide_true (pvc_Name q = _) Hq). by rewrite bool_decide_true.
      + rewrite (bool_decide_false (pvc_Name q = _) Hq). by rewrite (bool_decide_false _ Hq).
    - intros n. by rewrite Hp, Hp0. }
  destruct (PodExists w name) eqn:Hpod, (detached_since pvc) as [d|] eqn:Hd.
  - intros [Hl Hp]%Hupd. split; [done|]. right. eexists. split; [exact Hl|].
    split; [apply annotation_keeps; by rewrite lookup_delete_ne|]. intros _. apply lookup_delete_eq.
  - intros [= <-]. split; [done|]. by left.
  - intros [= <-]. split; [done|]. by left.
  - intros [Hl Hp]%Hupd. split; [done|]. right. eexists. split; [exact Hl|].
    split; [apply annotation_keeps; by rewrite lookup_insert_ne|done].
Qed.

(** What is known of the claims when some have had their turn. *)
Definition annotated (w0 w : W) (turned : list PVC) : Prop :=
  (∀ n, Pods_Get w n = Pods_Get w0 n) ∧ pvc_Name <$> PVCs_List w = pvc_Name <$> PVCs_List w0 ∧
  ∀ q, q ∈ PVCs_List w → ∃ p, p ∈ PVCs_List w0 ∧ pvc_Name p = pvc_Name q ∧ pvc_Labels p = pvc_Labels q ∧
    IsLogPVC p = IsLogPVC q ∧ (p ∈ turned → has_pod w0 p = true → detached_since q = None) ∧ (p ∉ turned → q = p).

Lemma names_unique (l : list PVC) p q : NoDup (pvc_Name <$> l) → p ∈ l → q ∈ l → pvc_Name p = pvc_Name q → p = q.
Proof.
  intros Hnd [i Hi]%list_elem_of_lookup [j Hj]%list_elem_of_lookup Hn.
  assert (i = j) as ->; [|congruence]. eapply (NoDup_lookup _ _ _ (pvc_Name p) Hnd); rewrite list_lookup_fmap.
  - by rewrite Hi.
  - by rewrite Hj, Hn.
Qed.

Lemma put_pvc_names p l : pvc_Name <$> put_pvc p l = pvc_Name <$> l.
Proof.
  unfold put_pvc. rewrite <- list_fmap_compose. apply list_fmap_ext. intros i q _. simpl. by case_bool_decide.
Qed.

Lemma updateDetachedAnnotations_done w w' :
  NoDup (pvc_Name <$> PVCs_List w) → updateDetachedAnnotations w = (Ok tt, w') → annotated w w' (LogPVCList w).
Proof.
  intros Hnd. unfold updateDetachedAnnotations, mbind, M_bind, get. intros Hr.
  apply (for_each_invariant _ (λ d w', annotated w w' d)) in Hr; [exact Hr| |].
  - intros d x k w1 w2 Hsplit (P1&N1&A1) Hx. apply updateDetachedAnnotation_step in Hx as (P2&Hx).
    assert (x ∈ PVCs_List w ∧ x ∉ d) as [Hxin Hxd].
    { split.
      - assert (x ∈ LogPVCList w) as Hin by (rewrite Hsplit; set_solver). by apply list_elem_of_filter in Hin as [_ ?].
      - assert (NoDup (LogPVCList w)) as Hl by (apply NoDup_filter, (NoDup_fmap_1 pvc_Name), Hnd).
        rewrite Hsplit in Hl. apply NoDup_app in Hl as (_&Hd&_). intros Hd'. apply (Hd x Hd'). by left. }
    rewrite (has_pod_same w w1 x P1) in Hx.
    split; [intros n; by rewrite P2|]. destruct Hx as [[-> Hnone]|(a&Hl&Hlog&Hnone)].
    + split; [done|]. intros q Hq. destruct (A1 q Hq) as (p&Hp&Hn&Hlab&Hlog&Ht&Hu).
      exists p. repeat (split; [done|]). rewrite elem_of_app, list_elem_of_singleton. split.
      * intros [Hin|Hpx]; [by apply Ht|]. subst p. rewrite (Hu Hxd). exact Hnone.
      * intros Hni. apply Hu. tauto.
    + split; [by rewrite Hl, put_pvc_names|]. intros q Hq. rewrite Hl in Hq.
      apply list_elem_of_fmap in Hq as (q0&->&Hq0). destruct (A1 q0 Hq0) as (p&Hp&Hn&Hlab&Hlog0&Ht&Hu).
      case_bool_decide as Heq; simpl in Heq.
      * assert (p = x) as -> by (apply (names_unique _ _ _ Hnd); [done..|by rewrite Hn]).
        exists x. split; [done|]. split; [done|]. split; [done|]. split; [done|]. split; [done|]. set_solver.
      * assert (p ≠ x) by (intros ->; by rewrite <- Hn in Heq).
        exists p. repeat (split; [done|]). rewrite elem_of_app, list_elem_of_singleton. split.
        -- intros [Hin|?]; [by apply Ht|done].
        -- intros Hni. apply Hu. tauto.
  - split; [done|]. split; [done|]. intros q Hq. exists q. repeat (split; [done|]). split; [|done].
    by intros ?%not_elem_of_nil.
Qed.

(** C36: a round of the janitor that ends well deletes no claim but those of logs, and none of a
    pod there is; with a limit set it leaves no more detached volumes than that. *)
Theorem cleanPeriodic_safe spec (w w' : W) :
  NoDup (pvc_Name <$> PVCs_List w) →
  cleanPeriodic spec w = (Ok tt, w') →
  (∀ p, p ∈ PVCs_List w → IsLogPVC p = false ∨ has_pod w p = true → pvc_Name p ∈ pvc_Name <$> PVCs_List w') ∧
  (0 < LogRetentionCount spec → Z.of_nat (length (getDetachedLogPVCs w')) ≤ LogRetentionCount spec).
Proof.
  intros Hnd Hr. unfold cleanPeriodic in Hr. inv_ok Hr. destruct a.
  apply updateDetachedAnnotations_done in Hr0 as (P1&N1&A1); [|done].
  inv_ok Hr. destruct a. rename s into w1, s0 into w2.
  assert (NoDup (pvc_Name <$> PVCs_List w1)) as Hnd1 by (by rewrite N1).
  assert (∃ gone, gone ⊆ pvc_Name <$> getDetachedLogPVCs w1 ∧ PVCs_List w2 = without gone (PVCs_List w1))
    as (gone&Hgone&L2).
  { unfold deleteTimedOutVolumes in Hr0. case_bool_decide.
    { injection Hr0 as <-. exists []. split; [set_solver|]. symmetry. apply filter_all. set_solver. }
    inv_ok Hr0. injection Hr1 as _ <-. case_bool_decide.
    { injection Hr0 as <-. exists []. split; [set_solver|]. symmetry. apply filter_all. set_solver. }
    unfold mbind, M_bind, get in Hr0. apply delete_loop in Hr0 as (gone&?&?&_); [eauto|].
    intros p v v' Hv. unfold delete_timed_out in Hv. inv_ok Hv. injection Hv0 as _ <-.
    unfold mbind, M_bind, get in Hv. case_bool_decide; [by right|left; by injection Hv]. }
  assert (∀ names, names ⊆ pvc_Name <$> getDetachedLogPVCs w1 → ∀ p, p ∈ PVCs_List w →
    IsLogPVC p = false ∨ has_pod w p = true → pvc_Name p ∉ names) as Hkeep.
  { intros names Hs p Hp Hsafe Hin. apply Hs, list_elem_of_fmap in Hin as (q&Hn&Hq).
    unfold getDetachedLogPVCs, LogPVCList in Hq. rewrite list_filter_filter in Hq.
    apply list_elem_of_filter in Hq as [[Hd Hlog] Hq]. destruct (A1 q Hq) as (p'&Hp'&Hn'&_&Hlog'&Ht&_).
    assert (p' = p) as -> by (apply (names_unique _ _ _ Hnd); [done..|congruence]).
    destruct Hsafe as [Hno|Hpod]; [congruence|]. rewrite Ht in Hd; [by destruct Hd| |done].
    apply list_elem_of_filter. split; [congruence|done]. }
  assert (NoDup (pvc_Name <$> PVCs_List w2)) as Hnd2.
  { rewrite L2. eapply sublist_NoDup; [exact Hnd1|apply fmap_sublist, sublist_filter]. }
  assert (∃ gone', gone' ⊆ pvc_Name <$> getDetachedLogPVCs w2 ∧ PVCs_List w' = without gone' (PVCs_List w2) ∧
    (0 < LogRetentionCount spec → Z.of_nat (length (getDetachedLogPVCs w')) ≤ LogRetentionCount spec))
    as (gone'&Hgone'&L3&Hlen).
  { destruct (decide (0 < LogRetentionCount spec)) as [Hpos|Hneg].
    - destruct (deleteOverCapacityVolumes_newest spec w2 w' Hnd2 Hpos Hr) as (_&g&Hg&Hl&Hc&_).
      exists (pvc_Name <$> g). split; [set_solver|]. split; [done|]. lia.
    - exists []. split; [set_solver|]. split; [|lia]. unfold deleteOverCapacityVolumes in Hr.
      assert (w' = w2) as ->; [|symmetry; apply filter_all; set_solver].
      case_bool_decide; [by injection Hr|]. unfold mbind, M_bind, get in Hr. rewrite bool_decide_false in Hr by lia.
      by rewrite bool_decide_true in Hr by lia. }
  split; [|exact Hlen]. intros p Hp Hsafe. rewrite L3, L2. unfold without. rewrite list_filter_filter.
  assert (pvc_Name p ∈ pvc_Name <$> PVCs_List w1) as Hin by (rewrite N1; apply list_elem_of_fmap; eauto).
  apply list_elem_of_fmap in Hin as (q&Hn&Hq). rewrite Hn. apply list_elem_of_fmap. exists q. split; [done|].
  apply list_elem_of_filter. split; [|done]. rewrite <- Hn. split.
  - apply Hkeep; [|done|done]. intros n Hn'. apply Hgone' in Hn'. rewrite (getDetached_without _ _ _ L2) in Hn'.
    apply list_elem_of_fmap in Hn' as (r&->&Hr'%list_elem_of_filter). apply list_elem_of_fmap. exists r. by destruct Hr'.
  - by apply Hkeep.
Qed.
End janitor.

(** ** A witness: three volumes without a pod, of which one is kept, one of a pod *)
#[local] Instance sim_janitor : JanitorPlatform Sim := {|
  api_DeletePVC name w := (Ok tt, sim_set_pvcs (filter (λ p, pvc_Name p ≠ name) (sim_pvcs w)) w);
  time_ParseDuration s := Atoi s;
  time_ParseDate s := Atoi s;
|}.

#[local] Instance sim_janitor_laws : JanitorLaws Sim.
Proof.
  split.
  - done.
  - intros p w w' [= <-]. done.
  - intros name w w' [= <-]. done.
Qed.

Definition log_claim (name pod : string) (detached : option string) : PVC :=
  let mount : gmap string string := {[AnnotationVolumeMountPath := CouchbaseVolumeMountLogsDir]} in
  mkPVC name {[LabelNode := pod]}
    (Some (from_option (λ d, <[VolumeDetachedAnnotation := d]> mount) mount detached)) "Bound" false
    (mkPVCSpec None None [] "") ∅ [].

Definition janitor_world : Sim :=
  mkSim scaled_pods (mkClusterInfo [] "none" true [] [] ∅) [] ∅ 100
    [log_claim "a" "cb-0000" (Some "5"); log_claim "b" "cb-0007" (Some "50"); log_claim "c" "cb-0008" (Some "60");
     log_claim "d" "cb-0009" (Some "7")].

Lemma cleanPeriodic_safe_witness :
  let w' := (cleanPeriodic (mkLogging "80" 1) janitor_world).2 in
  pvc_Name <$> PVCs_List w' = ["a"; "c"] ∧ (length (getDetachedLogPVCs w') ≤ 1)%nat.
Proof.
  intros w'. split; [vm_compute; reflexivity|].
  destruct (cleanPeriodic_safe (mkLogging "80" 1) janitor_world w') as [_ Hlen].
  - apply (bool_decide_eq_true_1 (NoDup _)). vm_compute. reflexivity.
  - vm_compute. reflexivity.
  - specialize (Hlen ltac:(simpl; lia)). simpl in Hlen. lia.
Defined.

(** A date of a zone one hour behind reads as earlier. *)
Lemma dates_of_two_zones :
  detached_before (log_claim "later" "" (Some "2024-10-27T02:15:00+01:00"))
    (log_claim "earlier" "" (Some "2024-10-27T02:30:00+02:00")) = true.
Proof. vm_compute. reflexivity. Qed.
