(* ===== verification/AutoscaleSpec.v ===== *)
(** * Autoscaled server classes: theorems about [Autoscale] *)

From S2P Require Import Prelude Effects GoLib Regex Digests Version Api Member Persistence Status.
From S2P Require Import UpgradeOrder NodeStatus Pods Volumes Machine Rebalance Baseline Failover Unreconcilable.
From S2P Require Import Autoscale Upgrading Sim FailoverSpec.
Local Open Scope Z_scope.

(** What a pass relies on: a cache that is up to date when it begins and moves only by
    the hand of the operator, and an API that stores what it accepts. *)
Class AutoscalerLaws (W : Type) `{!AutoscalePlatform W} (cached : W → gmap string Autoscaler) : Prop := {
  cached_get w n : Autoscalers_Get w n = cached w !! n;
  cached_list w : Autoscalers_List w ≡ₚ (map_to_list (cached w)).*2;
  cached_name w n a : cached w !! n = Some a → as_Name a = n;
  cache_set n spec w : cached (cache_SetAutoscalerSpec n spec w) = alter (with_as_spec spec) n (cached w);
  get_fresh n w a w' : api_GetAutoscaler n w = (Ok a, w') → cached w' = cached w ∧ cached w !! n = Some a;
  create_lags a w a' w' : api_CreateAutoscaler a w = (Ok a', w') → cached w' = cached w;
  update_stored a w a' w' : api_UpdateAutoscaler a w = (Ok a', w') → cached w' = cached w ∧ as_Spec a' = as_Spec a;
  status_stored a w a' w' :
    api_UpdateAutoscalerStatus a w = (Ok a', w') → cached w' = cached w ∧ as_Spec a' = as_Spec a;
  delete_lags n w w' : api_DeleteAutoscaler n w = (Ok tt, w') → cached w' = cached w;
  patch_stored i name n w st w' : api_PatchServerSize i name n w = (Ok st, w') →
    cached w' = cached w ∧
    ∃ sc, cs_Servers (Spec (sto_cluster st)) !! i = Some sc ∧ sc_Name sc = name ∧ sc_Size sc = n;
}.

(** The sizes asked for so far. *)
Definition sizes_asked {W} (s : RS W) : list (string * Z) :=
  omap (λ e, match e with SizeAsked class size => Some (class, size) | _ => None end) (trace s).

(** The autoscalers of the classes that want one, by name. *)
Definition enabled (spec : ClusterSpec) (class : string) : Prop :=
  Exists (λ sc, sc_AutoscaleEnabled sc = true ∧ sc_Name sc = class) (cs_Servers spec).
#[export] Instance enabled_dec spec class : Decision (enabled spec class).
Proof. apply _. Defined.

Definition in_use (spec : ClusterSpec) (l : list Autoscaler) : list string :=
  sort_Strings (as_Name <$> filter (λ a, enabled spec (as_Servers (as_Spec a))) l).

(** What an autoscaler asks for: a size other than the one of its class, and not the
    zero of maintenance. *)
Definition wants (spec : ClusterSpec) (autoscalers : gmap string Autoscaler) (name : string) : option (string * Z) :=
  a ← autoscalers !! name;
  config ← GetServerConfigByName spec (as_Servers (as_Spec a));
  if bool_decide (as_Size (as_Spec a) ≠ 0 ∧ as_Size (as_Spec a) ≠ sc_Size config)
  then Some (sc_Name config, as_Size (as_Spec a)) else None.

Section autoscale.
Context `{UpgradePlatform W} `{!AutoscalePlatform W} `{PersistentStorage W} `{Environment} `{MapRange}
  `{!AutoscalerLaws W cached}.
Abbreviation R := (RS W).

(** ** Nothing but [applyAutoscaleSize] asks for a size *)
Definition same_sizes (s s' : R) : Prop := sizes_asked s' = sizes_asked s.
#[local] Instance same_sizes_preorder : PreOrder same_sizes.
Proof. split; [by intros s|]. intros s1 s2 s3. unfold same_sizes. congruence. Qed.

Lemma on_world_sizes {A} (m : M W A) : keeps same_sizes (on_world m).
Proof. apply keeps_zoom. by intros s w. Qed.
#[local] Hint Resolve on_world_sizes : keeps.
#[local] Hint Extern 1 (keeps same_sizes (modify _)) => apply keeps_modify; done : keeps.

Lemma set_status_sizes f : keeps same_sizes (set_status_now (W := W) f).
Proof. by apply keeps_modify. Qed.
#[local] Hint Resolve set_status_sizes : keeps.

Lemma GetStatus_sizes pos : keeps same_sizes (GetStatus (W := W) pos).
Proof.
  unfold GetStatus, getStatusFromTarget. keeps_tac.
  apply keeps_modify. intros s. unfold same_sizes, sizes_asked, log_effect. simpl. rewrite omap_app. apply app_nil_r.
Qed.
#[local] Hint Resolve GetStatus_sizes : keeps.

Lemma autoscalingReady_sizes pos : keeps same_sizes (autoscalingReady (W := W) pos).
Proof. unfold autoscalingReady. keeps_tac. Qed.

Lemma stabilization_sizes : keeps same_sizes (applyAutoscaleStabilization (W := W)).
Proof. unfold applyAutoscaleStabilization, startAutoscalingMaintenanceMode. keeps_tac. Qed.

Lemma on_world_done {A} (m : M W A) (s s' : R) a :
  on_world m s = (Ok a, s') ↔ ∃ w, m (world s) = (Ok a, w) ∧ s' = set_world w s.
Proof.
  unfold on_world, zoom. destruct (m (world s)) as [r w]. split.
  - intros [= -> <-]. eauto.
  - by intros (w'&[= -> ->]&->).
Qed.

(** ** One autoscaler *)
Lemma with_own_spec a : with_as_spec (as_Spec a) a = a.
Proof. by destruct a. Qed.

Lemma UpdateAutoscaler_ok a (w w' : W) a' :
  UpdateAutoscaler a w = (Ok a', w') →
  as_Spec a' = as_Spec a ∧ ∃ old, cached w !! as_Name a = Some old ∧
    cached w' = <[as_Name a := with_as_spec (as_Spec a) old]> (cached w).
Proof.
  unfold UpdateAutoscaler. rewrite bind_ok. intros (w0&w1&[= -> ->]&Hr). rewrite cached_get in Hr.
  destruct (cached w1 !! as_Name a) as [old|] eqn:Hold; [|discriminate Hr].
  apply bind_ok in Hr as (requested&w2&Hreq&Hr).
  assert (as_Spec requested = as_Spec a ∧ cached w2 = <[as_Name a := with_as_spec (as_Spec a) old]> (cached w1))
    as [Hspec Hw2].
  { clear Hr. case_bool_decide as Heq.
    - revert Hreq. intros [= <- <-]. split; [done|]. by rewrite <- Heq, with_own_spec, insert_id.
    - apply bind_ok in Hreq as (u&w3&[Hc Hs]%update_stored&Hreq).
      apply bind_ok in Hreq as ([]&w4&[= <-]&[= <- <-]). split; [done|].
      rewrite cache_set, Hc, Hs. apply map_eq. intros n. destruct (decide (n = as_Name a)) as [->|Hn].
      + by rewrite lookup_alter, decide_True, Hold, lookup_insert, decide_True by done.
      + by rewrite lookup_alter_ne, lookup_insert_ne by done. }
  case_bool_decide.
  - revert Hr. intros [= <- <-]. split; [exact Hspec|]. eauto.
  - apply status_stored in Hr as [Hc Hs]. split; [by rewrite Hs|]. exists old. by rewrite Hc.
Qed.

Lemma updateAutoscalerStatusSize_ok a config (s s' : R) a' :
  cached (world s) !! as_Name a = Some a →
  updateAutoscalerStatusSize a config s = (Ok a', s') →
  as_Spec a' = as_Spec a ∧ cached (world s') = cached (world s) ∧ cl s' = cl s ∧ sizes_asked s' = sizes_asked s.
Proof.
  intros Ha. unfold updateAutoscalerStatusSize.
  rewrite bind_ok. intros (c&s0&[= <- <-]&Hr). apply bind_ok in Hr as (w&s0&[= <- <-]&Hr).
  case_bool_decide; [revert Hr; by intros [= <- <-]|].
  apply bind_ok in Hr as (req&s1&(w1&[Hc Hget]%get_fresh&->)%on_world_done&Hr).
  rewrite Ha in Hget. injection Hget as <-.
  apply on_world_done in Hr as (w2&Hup&->). simpl in Hup. apply UpdateAutoscaler_ok in Hup as (Hspec&old&Hold&Hw2).
  split; [exact Hspec|]. split; [|done]. cbn [world set_world]. rewrite Hw2, Hc. cbn in Hold.
  rewrite Hc, Ha in Hold. injection Hold as <-. cbn. by rewrite with_own_spec, insert_id.
Qed.

(** ** Out of maintenance *)

(** An autoscaler in maintenance gets the size of its class. *)
Definition restored (spec : ClusterSpec) (a : Autoscaler) : Autoscaler :=
  match GetServerConfigByName spec (as_Servers (as_Spec a)) with
  | Some config => if bool_decide (as_Size (as_Spec a) = 0) then with_as_size (sc_Size config) a else a
  | None => a
  end.

Lemma restored_wants spec (m : gmap string Autoscaler) n : wants spec (restored spec <$> m) n = wants spec m n.
Proof.
  unfold wants. rewrite lookup_fmap. destruct (m !! n) as [a|]; [|done]. cbn [fmap option_fmap option_map mbind option_bind].
  destruct (GetServerConfigByName spec (as_Servers (as_Spec a))) as [config|] eqn:E.
  - assert (restored spec a = if bool_decide (as_Size (as_Spec a) = 0) then with_as_size (sc_Size config) a else a)
      as -> by (unfold restored; by rewrite E).
    case_bool_decide as Hz; cbn [as_Spec as_Servers with_as_size]; rewrite E; [|done].
    cbn [mbind option_bind as_Size]. by rewrite !bool_decide_false by (rewrite ?Hz; lia).
  - assert (restored spec a = a) as -> by (unfold restored; by rewrite E). by rewrite E.
Qed.

Lemma wants_nonzero spec m name e : wants spec m name = Some e → e.2 ≠ 0.
Proof.
  unfold wants. intros (a&_&(config&_&Hw)%bind_Some)%bind_Some. case_bool_decide; [|done].
  injection Hw as <-. tauto.
Qed.

Lemma restored_zero spec a :
  is_Some (GetServerConfigByName spec (as_Servers (as_Spec a))) → as_Size (as_Spec (restored spec a)) = 0 →
  ∃ config, GetServerConfigByName spec (as_Servers (as_Spec (restored spec a))) = Some config ∧ sc_Size config = 0.
Proof.
  intros [config Hconf]. unfold restored. rewrite Hconf. case_bool_decide as Hz; [|done].
  intros Hs. by exists config.
Qed.

Lemma restore_all spec (w w' : W) :
  for_each (restore_one spec) (Autoscalers_List w) w = (Ok tt, w') →
  cached w' = restored spec <$> cached w ∧
  ∀ n a, cached w !! n = Some a → is_Some (GetServerConfigByName spec (as_Servers (as_Spec a))).
Proof.
  intros Hr.
  assert (∀ n a, cached w !! n = Some a → a ∈ Autoscalers_List w) as Hin.
  { intros n a Hn. rewrite cached_list. apply list_elem_of_fmap. exists (n, a). split; [done|]. by apply elem_of_map_to_list. }
  assert (∀ a, a ∈ Autoscalers_List w → cached w !! as_Name a = Some a) as Hget.
  { intros a. rewrite cached_list. intros ([n b]&->&Hb%elem_of_map_to_list)%list_elem_of_fmap. simpl.
    by rewrite (cached_name _ _ _ Hb). }
  assert (NoDup (as_Name <$> Autoscalers_List w)) as Hnd.
  { rewrite cached_list, <- list_fmap_compose.
    rewrite (list_fmap_ext _ fst); [apply NoDup_fst_map_to_list|].
    intros i [n a] Hi%list_elem_of_lookup_2%elem_of_map_to_list. simpl. by apply cached_name in Hi. }
  apply (for_each_invariant _ (λ d w', (∀ n, cached w' !! n =
      (λ a, if bool_decide (a ∈ d) then restored spec a else a) <$> cached w !! n) ∧
      ∀ a, a ∈ d → is_Some (GetServerConfigByName spec (as_Servers (as_Spec a))))) in Hr as [Hc Hclass].
  - split; [|intros n a Hn; by apply Hclass, (Hin n)]. apply map_eq. intros n. rewrite Hc, lookup_fmap.
    destruct (cached w !! n) as [a|] eqn:Hn; [|done]. simpl. by rewrite bool_decide_true by by apply (Hin n).
  - intros d a k w1 w2 Hl [Hc Hclass] Hx. unfold restore_one in Hx.
    destruct (GetServerConfigByName spec (as_Servers (as_Spec a))) as [config|] eqn:Econf; [|discriminate Hx].
    split; [|intros b [Hb| ->%list_elem_of_singleton]%elem_of_app; [by apply Hclass|by rewrite Econf]].
    assert (a ∉ d) as Hnew.
    { intros Hd. rewrite Hl, fmap_app in Hnd. apply NoDup_app in Hnd as (_&Hd2&_).
      apply (Hd2 (as_Name a)); [by apply list_elem_of_fmap_2|by left]. }
    assert (cached w !! as_Name a = Some a) as Ha by (apply Hget; rewrite Hl; set_solver).
    assert (cached w2 = <[as_Name a := restored spec a]> (cached w1)) as Hw2.
    { unfold restored. rewrite Econf. case_bool_decide as Hz.
      - apply bind_ok in Hx as (b&w3&(_&old&Hold&Hw3)%UpdateAutoscaler_ok&[= <-]). rewrite Hw3. f_equal.
        simpl in Hold. rewrite Hc, Ha in Hold. simpl in Hold. rewrite bool_decide_false in Hold by done.
        by injection Hold as <-.
      - revert Hx. intros [= <-]. symmetry. apply insert_id. rewrite Hc, Ha. simpl. by rewrite bool_decide_false. }
    intros n. rewrite Hw2. destruct (decide (n = as_Name a)) as [->|Hne].
    + rewrite lookup_insert, decide_True, Ha by done. simpl. rewrite bool_decide_true by set_solver. done.
    + rewrite lookup_insert_ne, Hc by done. destruct (cached w !! n) as [b|] eqn:Hb; [|done]. simpl. f_equal.
      assert (a ≠ b) by (intros <-; by apply cached_name in Hb). repeat case_bool_decide; set_solver.
  - split; [|set_solver]. intros n. by destruct (cached w !! n).
Qed.

(** ** Which autoscalers there are to be *)
Lemma create_missing_ok acc config (s s' : R) acc' :
  create_missing acc config s = (Ok acc', s') →
  acc' = (if sc_AutoscaleEnabled config then acc ++ [sc_Name config] else acc) ∧
  cached (world s') = cached (world s) ∧ cl s' = cl s ∧ sizes_asked s' = sizes_asked s.
Proof.
  unfold create_missing. destruct (sc_AutoscaleEnabled config); [|by intros [= <- <-]].
  cbn [negb]. rewrite bind_ok. intros (c&s0&[= <- <-]&Hr). apply bind_ok in Hr as (w&s0&[= <- <-]&Hr).
  destruct (Autoscalers_Get (world s) _); [revert Hr; by intros [= <- <-]|].
  apply bind_ok in Hr as (a&s1&(w1&Hc&->)%on_world_done&[= <- <-]). split; [done|]. split; [|done]. simpl.
  unfold CreateCouchbaseAutoscaler in Hc. apply bind_ok in Hc as (b&w2&Hb%create_lags&[Hc _]%status_stored).
  by rewrite Hc.
Qed.

Lemma keep_requested_ok requested acc a (s s' : R) acc' :
  keep_requested requested acc a s = (Ok acc', s') →
  acc' = (if bool_decide (as_Servers (as_Spec a) ∈ requested) then acc ++ [as_Name a] else acc) ∧
  cached (world s') = cached (world s) ∧ cl s' = cl s ∧ sizes_asked s' = sizes_asked s.
Proof.
  unfold keep_requested. pose proof (HasItem_spec (as_Servers (as_Spec a)) requested) as Hi.
  destruct (HasItem _ _).2.
  - rewrite bool_decide_true by by apply Hi. by intros [= <- <-].
  - rewrite bool_decide_false by (rewrite <- Hi; done). rewrite bind_ok.
    intros ([]&s1&(w1&Hd%delete_lags&->)%on_world_done&[= <- <-]). done.
Qed.

Lemma elem_of_enabled spec class :
  class ∈ sc_Name <$> filter (λ sc, sc_AutoscaleEnabled sc = true) (cs_Servers spec) ↔ enabled spec class.
Proof.
  unfold enabled. rewrite Exists_exists, list_elem_of_fmap. setoid_rewrite list_elem_of_filter. naive_solver.
Qed.

Lemma updateRequestedAutoscalers_ok (s s' : R) names :
  updateRequestedAutoscalers s = (Ok names, s') →
  names = in_use (Spec (c_cluster (cl s))) (Autoscalers_List (world s)) ∧
  cached (world s') = cached (world s) ∧ sizes_asked s' = sizes_asked s ∧
  cl s' = set_status (set_Autoscalers names) (cl s).
Proof.
  unfold updateRequestedAutoscalers. rewrite bind_ok. intros (c&s0&[= <- <-]&Hr).
  apply bind_ok in Hr as (requested&s1&Hreq&Hr).
  apply (for_fold_invariant _ (λ d acc s1,
    acc = sc_Name <$> filter (λ sc, sc_AutoscaleEnabled sc = true) d ∧
    cached (world s1) = cached (world s) ∧ cl s1 = cl s ∧ sizes_asked s1 = sizes_asked s)) in Hreq as (->&Hc1&Hcl1&Hs1); [| |done].
  2:{ intros d x k a1 s2 a2 s3 _ (->&Hc&Hcl&Hs) (->&Hc3&Hcl3&Hs3)%create_missing_ok.
    split; [|by rewrite Hc3, Hcl3, Hs3]. rewrite filter_app, fmap_app.
    destruct (sc_AutoscaleEnabled x) eqn:E;
      [by rewrite filter_cons_True|rewrite filter_cons_False by congruence; symmetry; apply app_nil_r]. }
  apply bind_ok in Hr as (w&s2&[= <- <-]&Hr). apply bind_ok in Hr as (actual&s2&Hact&Hr).
  apply (for_fold_invariant _ (λ d acc s2,
    acc = as_Name <$> filter (λ a, enabled (Spec (c_cluster (cl s))) (as_Servers (as_Spec a))) d ∧
    cached (world s2) = cached (world s) ∧ cl s2 = cl s ∧ sizes_asked s2 = sizes_asked s)) in Hact as (->&Hc2&Hcl2&Hs2); [| |done].
  2:{ intros d x k a1 s3 a2 s4 _ (->&Hc&Hcl&Hs) (->&Hc3&Hcl3&Hs3)%keep_requested_ok.
    split; [|by rewrite Hc3, Hcl3, Hs3]. rewrite filter_app, fmap_app.
    case_bool_decide as E; rewrite elem_of_enabled in E;
      [by rewrite filter_cons_True|rewrite filter_cons_False by done; symmetry; apply app_nil_r]. }
  apply bind_ok in Hr as ([]&s3&[= <-]&[= <- <-]). split; [|cbn [world set_cl cl]; by rewrite Hcl2].
  apply sort_Strings_proper, fmap_Permutation, filter_Permutation. by rewrite !cached_list, Hc1.
Qed.

(** ** The sizes of the classes *)
Definition sized (c : Cluster) (class : string) (n : Z) : Prop :=
  ∃ sc, sc ∈ cs_Servers (Spec (c_cluster c)) ∧ sc_Name sc = class ∧ sc_Size sc = n.

Lemma applyAutoscaleSize_ok class n (s s' : R) :
  applyAutoscaleSize class n s = (Ok tt, s') →
  sizes_asked s' = sizes_asked s ++ [(class, n)] ∧ sized (cl s') class n.
Proof.
  unfold applyAutoscaleSize. rewrite bind_ok. intros (c&s0&[= <- <-]&Hr).
  destruct (list_find _ _) as [[i sc]|]; [|discriminate Hr].
  apply bind_ok in Hr as (st&s1&Hp&[= <-]). unfold perform in Hp.
  apply bind_ok in Hp as ([]&s2&[= <-]&(w&(_&sc'&Hi&Hn&Hsize)%patch_stored&->)%on_world_done).
  split; [unfold sizes_asked; simpl; by rewrite omap_app|]. exists sc'. split; [by eapply list_elem_of_lookup_2|done].
Qed.

Definition same_spec (s s' : R) : Prop := Spec (c_cluster (cl s')) = Spec (c_cluster (cl s)).
#[local] Instance same_spec_preorder : PreOrder same_spec.
Proof. split; [by intros s|]. intros s1 s2 s3. unfold same_spec. congruence. Qed.

Lemma stabilization_spec : keeps same_spec (applyAutoscaleStabilization (W := W)).
Proof.
  assert (∀ A (m : M W A), keeps same_spec (on_world m)) as Hw by (intros A m; apply keeps_zoom; by intros s w).
  unfold applyAutoscaleStabilization, startAutoscalingMaintenanceMode. keeps_tac.
  by apply keeps_modify.
Qed.

(** One class of the loop, with the autoscalers as they are when it begins. *)
Lemma scale_class_ok name (s s' : R) stop :
  (∀ a, cached (world s) !! name = Some a → as_Size (as_Spec a) = 0 →
     ∃ config, GetServerConfigByName (Spec (c_cluster (cl s))) (as_Servers (as_Spec a)) = Some config ∧ sc_Size config = 0) →
  scale_class name s = (Ok stop, s') →
  match wants (Spec (c_cluster (cl s))) (cached (world s)) name with
  | Some (class, n) => stop = true ∧ sizes_asked s' = sizes_asked s ++ [(class, n)] ∧ sized (cl s') class n
  | None => stop = false ∧ cached (world s') = cached (world s) ∧ cl s' = cl s ∧ sizes_asked s' = sizes_asked s
  end.
Proof.
  intros Hzero. unfold scale_class. rewrite bind_ok. intros (w&s0&[= <- <-]&Hr). rewrite cached_get in Hr.
  unfold wants. destruct (cached (world s) !! name) as [a|] eqn:Ha; [|discriminate Hr].
  apply bind_ok in Hr as (c&s0&[= <- <-]&Hr). cbn [mbind option_bind].
  destruct (GetServerConfigByName _ _) as [config|] eqn:Hconf; [|discriminate Hr]. cbn [mbind option_bind].
  apply bind_ok in Hr as (a'&s1&Hup&Hr).
  apply updateAutoscalerStatusSize_ok in Hup as (Hspec&Hc&Hcl&Hs); [|by rewrite (cached_name _ _ _ Ha)].
  rewrite Hspec in Hr. case_bool_decide as Hsize.
  - rewrite bool_decide_false by (rewrite Hsize; tauto). revert Hr. by intros [= <- <-].
  - rewrite bool_decide_true.
    2:{ split; [|congruence]. intros Hz. destruct (Hzero a eq_refl Hz) as (config'&Hconf'&Hz').
      rewrite Hconf in Hconf'. injection Hconf' as <-. congruence. }
    apply bind_ok in Hr as ([]&s2&[Hs2 Hsized]%applyAutoscaleSize_ok&Hr).
    apply bind_ok in Hr as (c&s3&[= <- <-]&Hr). apply bind_ok in Hr as ([]&s3&Hst&[= <- <-]). split; [done|].
    rewrite <- Hs, <- Hs2. revert Hst. case_bool_decide; [by intros [= <-]|]. intros Hst. split.
    + exact (keeps_run _ _ _ _ _ stabilization_sizes Hst).
    + unfold sized. by rewrite (keeps_run _ _ _ _ _ stabilization_spec Hst).
Qed.

Lemma scale_loop names : ∀ (s s' : R) stop,
  (∀ n a, cached (world s) !! n = Some a → as_Size (as_Spec a) = 0 →
     ∃ config, GetServerConfigByName (Spec (c_cluster (cl s))) (as_Servers (as_Spec a)) = Some config ∧ sc_Size config = 0) →
  for_until scale_class names s = (Ok stop, s') →
  let asked := take 1 (omap (wants (Spec (c_cluster (cl s))) (cached (world s))) names) in
  sizes_asked s' = sizes_asked s ++ asked ∧ Forall (λ e, sized (cl s') e.1 e.2) asked.
Proof.
  induction names as [|name names IH]; intros s s' stop Hz.
  - intros [= _ <-]. simpl. by rewrite app_nil_r.
  - cbn [for_until]. rewrite bind_ok. intros (b&s1&Hx%scale_class_ok&Hr); [|by apply Hz].
    simpl. destruct (wants _ _ name) as [[class n]|] eqn:Hw.
    + destruct Hx as (->&Hs&Hsized). revert Hr. intros [= _ <-]. split; [exact Hs|]. by repeat constructor.
    + destruct Hx as (->&Hc&Hcl&Hs). rewrite <- Hs, <- Hc, <- Hcl. apply (IH _ _ stop); [|exact Hr].
      by rewrite Hc, Hcl.
Qed.

(** ** A pass *)
Lemma autoscalingReady_true pos (s s' : R) :
  autoscalingReady pos s = (Ok true, s') → world s' = world s ∧ same_spec s s'.
Proof.
  unfold autoscalingReady. rewrite bind_ok. intros (c&s0&[= <- <-]&Hr). apply bind_ok in Hr as (w&s0&[= <- <-]&Hr).
  destruct (GetCondition _ _) as [cond|].
  2:{ apply bind_ok in Hr as ([]&s1&[= <-]&[= <-]). done. }
  destruct (cc_Status cond).
  - destruct (AutoscaleStabilizationPeriod _) as [period|]; [|revert Hr; by intros [= <-]].
    apply bind_ok in Hr as (waits&s1&Hw&Hr). unfold attempt, lift in Hw.
    destruct (stabilising _ _ _) as [[]| |]; try discriminate Hw; injection Hw as <- <-;
      [by apply bind_ok in Hr as ([]&s2&_&[= ])|revert Hr; by intros [= <-]|discriminate Hr].
  - apply bind_ok in Hr as ([status|e]&s1&_&Hr); [|discriminate Hr].
    by apply bind_ok in Hr as ([]&s2&_&[= ]).
  - by apply bind_ok in Hr as ([]&s2&_&[= ]).
Qed.

(** No maintenance, and no period to wait for after it. *)
Definition unpaused (c : Cluster) : Prop :=
  AutoscaleStabilizationPeriod (c_settings c) = None ∧
  match GetCondition (Status (c_cluster c)) ClusterConditionAutoscaleReady with
  | None => True
  | Some cond => cc_Status cond = ConditionTrue
  end.

Lemma autoscalingReady_unpaused pos (s s' : R) ready :
  unpaused (cl s) → autoscalingReady pos s = (Ok ready, s') → ready = true.
Proof.
  intros [Hp Hcond]. unfold autoscalingReady. rewrite bind_ok. intros (c&s0&[= <- <-]&Hr).
  apply bind_ok in Hr as (w&s0&[= <- <-]&Hr).
  destruct (GetCondition _ _) as [cond|]; [|by apply bind_ok in Hr as ([]&s1&_&[= <-])].
  rewrite Hcond, Hp in Hr. revert Hr. by intros [= <-].
Qed.

(** C11: A pass over the autoscalers asks for at most one change: the size the first
    autoscaler in use, by name, asks for when that is neither the size its class has nor
    the zero of maintenance; the class then has that size.  Nothing is asked while pods
    wait to be initialised; without them and without a pause, whatever is wanted is
    asked. *)
Theorem reconcileAutoscalers_scales pos (s s' : R)
    (Hrun : reconcileAutoscalers pos s = (Ok tt, s')) :
  let spec := Spec (c_cluster (cl s)) in
  let wanted := take 1 (omap (wants spec (cached (world s))) (in_use spec (Autoscalers_List (world s)))) in
  ∃ asked, sizes_asked s' = sizes_asked s ++ asked ∧ Forall (λ e, sized (cl s') e.1 e.2 ∧ e.2 ≠ 0) asked ∧
    (asked = [] ∨ asked = wanted ∧ getPendingInitPods (cl s) (world s) = []) ∧
    (getPendingInitPods (cl s) (world s) = [] → unpaused (cl s) → asked = wanted).
Proof.
  intros spec wanted. unfold reconcileAutoscalers in Hrun. apply bind_ok in Hrun as (c&s0&[= <- <-]&Hrun).
  apply bind_ok in Hrun as (w&s0&[= <- <-]&Hrun).
  destruct (decide (getPendingInitPods (cl s) (world s) = [])) as [Hp|Hp].
  2:{ rewrite bool_decide_true in Hrun by done. revert Hrun. intros [= <-]. exists []. rewrite app_nil_r.
      split; [done|]. split; [constructor|]. split; [by left|done]. }
  rewrite bool_decide_false in Hrun by tauto.
  apply bind_ok in Hrun as (names&s1&(Hnames&Hc1&Hs1&Hcl1)%updateRequestedAutoscalers_ok&Hrun).
  fold spec in Hnames. case_bool_decide as Hnone.
  { revert Hrun. intros [= <-]. exists []. rewrite app_nil_r. split; [done|]. split; [constructor|].
    split; [by left|]. intros _ _. unfold wanted. by rewrite <- Hnames, Hnone. }
  apply bind_ok in Hrun as (ready&s2&Hready&Hrun).
  pose proof (keeps_run _ _ _ _ _ (autoscalingReady_sizes pos) Hready) as Hs2. unfold same_sizes in Hs2.
  assert (unpaused (cl s) → ready = true) as Hmust.
  { intros Hu. apply (autoscalingReady_unpaused pos s1 s2); [by rewrite Hcl1|done]. }
  destruct ready; cbn [negb] in Hrun.
  2:{ revert Hrun. intros [= <-]. exists []. rewrite app_nil_r. split; [congruence|]. split; [constructor|].
      split; [by left|]. intros _ Hu. discriminate (Hmust Hu). }
  apply autoscalingReady_true in Hready as [Hw2 Hspec2]. unfold same_spec in Hspec2. rewrite Hcl1 in Hspec2.
  change (Spec (c_cluster (cl s2)) = spec) in Hspec2.
  apply bind_ok in Hrun as ([]&s3&Hend&Hrun). unfold endAutoscalingMaintenanceMode in Hend.
  apply bind_ok in Hend as (c&s0&[= <- <-]&Hend). apply bind_ok in Hend as (w&s0&[= <- <-]&Hend).
  apply on_world_done in Hend as (w3&[Hc3 Hclass]%restore_all&->). rewrite Hspec2, Hw2, Hc1 in *.
  apply bind_ok in Hrun as (stop&s4&Hloop&[= <-]). apply scale_loop in Hloop.
  - cbn [world cl set_world] in Hloop. rewrite Hspec2, Hc3 in Hloop. destruct Hloop as [Hs Hsized].
    assert (omap (wants spec (restored spec <$> cached (world s))) names =
            omap (wants spec (cached (world s))) (in_use spec (Autoscalers_List (world s)))) as Heq.
    { rewrite <- Hnames. apply list_omap_ext. apply Forall2_same_length_lookup_2; [done|].
      intros i x y Hx Hy. rewrite Hx in Hy. injection Hy as <-. apply restored_wants. }
    rewrite Heq in Hs, Hsized. fold wanted in Hs, Hsized. exists wanted.
    split; [rewrite Hs; f_equal; change (sizes_asked s2 = sizes_asked s); congruence|].
    split; [|by split; [right|]]. apply Forall_and. split; [exact Hsized|].
    apply Forall_forall. intros e He. apply elem_of_take in He as (i&Hi&_).
    apply list_elem_of_lookup_2, list_elem_of_omap in Hi as (name&_&Hi). by eapply wants_nonzero.
  - cbn [world cl set_world]. rewrite Hspec2, Hc3. intros n a (b&<-&Hb)%lookup_fmap_Some Hz.
    eapply restored_zero; [by eapply Hclass|done].
Qed.
End autoscale.

(** ** A class that is gone

    While a stabilisation period is set, the cycle of the handlers ends with an error as
    long as the cache has an autoscaler whose class is no longer in the specification;
    the pass that would delete the autoscaler comes after the cycle. *)
Lemma removed_class_fails_cycle `{UpgradePlatform W} `{!AutoscalePlatform W} `{PersistentStorage W} `{Environment}
    `{MapRange} `{!AutoscalerLaws W cached} pos (s s1 : RS W) n a :
  is_Some (AutoscaleStabilizationPeriod (c_settings (cl s))) →
  IsRebalancing (couchbase (fsm s)) = false → needsRebalance (fsm s) = false →
  autoscalingReady pos s = (Ok true, s1) →
  cached (world s) !! n = Some a → GetServerConfigByName (Spec (c_cluster (cl s))) (as_Servers (as_Spec a)) = None →
  is_ok (handleAutoscaleServerConfigs startAutoscalingMaintenanceMode endAutoscalingMaintenanceMode
           (autoscalingReady pos) s).1 = false.
Proof.
  intros [period Hp] Hr Hn Hready Ha Hconf. unfold handleAutoscaleServerConfigs.
  set (m := _ ≫= _). destruct (m s) as [[[]|e|] s'] eqn:E; [|done..]. exfalso. revert E. unfold m. clear m.
  rewrite bind_ok. intros (c&s0&[= <- <-]&E). apply bind_ok in E as (r&s0&[= <- <-]&E).
  rewrite bool_decide_false, Hr, Hn in E by congruence. cbn [orb] in E.
  rewrite (run_bind _ _ _ _ _ Hready) in E. pose proof (autoscalingReady_true _ _ _ Hready) as [Hw Hspec].
  unfold endAutoscalingMaintenanceMode in E. apply bind_ok in E as (c&s0&[= <- <-]&E).
  apply bind_ok in E as (w&s0&[= <- <-]&E). apply on_world_done in E as (w&[_ Hclass]%restore_all&_).
  rewrite Hw in Hclass. destruct (Hclass n a Ha) as [config Hc]. rewrite Hspec in Hc. congruence.
Qed.

(** ** An example: two classes, of which the second is to grow *)
Definition ScaleWorld : Type := Sim * (list Autoscaler * list ServerConfig).
#[local] Instance scale_platform : Platform ScaleWorld := platform_beside.
#[local] Instance scale_upgrades : UpgradePlatform ScaleWorld := upgrades_beside.
#[local] Instance scale_storage : PersistentStorage ScaleWorld := storage_beside.

Definition scale_set (n : string) (f : Autoscaler → Autoscaler) (l : list Autoscaler) : list Autoscaler :=
  (λ a, if bool_decide (as_Name a = n) then f a else a) <$> l.

Definition by_name (l : list Autoscaler) : gmap string Autoscaler := list_to_map ((λ a, (as_Name a, a)) <$> l).

Lemma by_name_set n f l : (∀ a, as_Name (f a) = as_Name a) → by_name (scale_set n f l) = alter f n (by_name l).
Proof.
  intros Hf. induction l as [|a l IH]; [unfold by_name; simpl; by rewrite alter_empty|].
  change (<[as_Name (if bool_decide (as_Name a = n) then f a else a) := if bool_decide (as_Name a = n) then f a else a]>
    (by_name (scale_set n f l)) = alter f n (<[as_Name a := a]> (by_name l))).
  rewrite IH. case_bool_decide as Hn.
  - subst n. rewrite Hf, alter_insert_eq. apply map_eq. intros m. destruct (decide (m = as_Name a)) as [->|Hm].
    + by rewrite !lookup_insert, !decide_True by done.
    + by rewrite !lookup_insert_ne, lookup_alter_ne by done.
  - by rewrite alter_insert_ne.
Qed.

Definition scale_cached (w : ScaleWorld) : gmap string Autoscaler := by_name w.2.1.

Definition resize (i : nat) (n : Z) (l : list ServerConfig) : list ServerConfig :=
  alter (λ sc, {| sc_Size := n; sc_Name := sc_Name sc; sc_Services := sc_Services sc;
    sc_ServerGroups := sc_ServerGroups sc; sc_VolumeMounts := sc_VolumeMounts sc; sc_Image := sc_Image sc;
    sc_NodeSelector := sc_NodeSelector sc; sc_AutoscaleEnabled := sc_AutoscaleEnabled sc |}) i l.

Definition with_servers (l : list ServerConfig) (s : ClusterSpec) : ClusterSpec := {|
  cs_Image := cs_Image s; cs_EnvImagePrecedence := cs_EnvImagePrecedence s; cs_Servers := l;
  cs_ServerGroups := []; cs_ServerGroupsLabelOverride := ""; cs_ShuffleServerGroups := false;
  cs_RecoveryPolicy := None; cs_UpgradeProcess := None; cs_UpgradeStrategy := None; cs_RollingUpgrade := None;
  cs_Upgrade := None; cs_EnableOnlineVolumeExpansion := false; cs_UnmanagedClusterHost := None;
  cs_Paused := false; cs_Hibernate := false |}.

Definition scale_stored (l : list ServerConfig) : StoredCluster :=
  mkStored {| Namespace := "ns"; Api.Name := "cb"; Spec := with_servers l (sim_spec 0); Status := example_status |}
    sim_networking (c_settings (sim_cluster 0 [])) "uid".

#[local] Instance scale_autoscalers : AutoscalePlatform ScaleWorld := {|
  Autoscalers_Get w n := scale_cached w !! n;
  Autoscalers_List w := (map_to_list (scale_cached w)).*2;
  cache_SetAutoscalerSpec n spec w := (w.1, (scale_set n (with_as_spec spec) w.2.1, w.2.2));
  api_GetAutoscaler n w := (match scale_cached w !! n with Some a => Ok a | None => Err ErrNotFound end, w);
  api_CreateAutoscaler a w := (Ok a, w);
  api_UpdateAutoscaler a w := (Ok a, w);
  api_UpdateAutoscalerStatus a w := (Ok a, w);
  api_DeleteAutoscaler _ w := (Ok tt, w);
  api_PatchServerSize i name n w :=
    match w.2.2 !! i with
    | Some sc =>
        if bool_decide (sc_Name sc = name)
        then (Ok (scale_stored (resize i n w.2.2)), (w.1, (w.2.1, resize i n w.2.2)))
        else (Err ErrKubernetesError, w)
    | None => (Err ErrKubernetesError, w)
    end;
  label_selector _ name := LabelNodeConf +:+ "=" +:+ name;
|}.

#[local] Instance scale_laws : AutoscalerLaws ScaleWorld scale_cached.
Proof.
  split; try done.
  - intros w n a Ha. apply elem_of_list_to_map_2, list_elem_of_fmap in Ha as (b&[= -> ->]&_). done.
  - intros n spec w. by apply by_name_set.
  - intros n w a w'. simpl. destruct (scale_cached w !! n) eqn:E; [|done]. by intros [= <- <-].
  - by intros a w a' w' [= _ <-].
  - by intros a w a' w' [= <- <-].
  - by intros a w a' w' [= <- <-].
  - by intros n w w' [= <-].
  - intros i name n w st w'. simpl. destruct (w.2.2 !! i) as [sc|] eqn:Hi; [|done].
    case_bool_decide as Hname; [|done]. intros [= <- <-]. split; [done|]. eexists. simpl. unfold resize.
    split; [by rewrite list_lookup_alter, decide_True, Hi by done|done].
Qed.

Definition scale_class_of (name : string) (n : Z) : ServerConfig :=
  {| sc_Size := n; sc_Name := name; sc_Services := ["data"]; sc_ServerGroups := []; sc_VolumeMounts := None;
     sc_Image := ""; sc_NodeSelector := None; sc_AutoscaleEnabled := true |}.

Definition scale_start : RS ScaleWorld :=
  let servers := [scale_class_of "a b" 2; scale_class_of "c" 3] in
  let stored := scale_stored servers in
  let autoscaler class n := mkAutoscaler (AutoscalerName (scale_class_of class 0) "cb") (mkAutoscalerSpec class n)
    (mkAutoscalerStatus "" 0 []) in
  mkRS empty_machine
    (mkCluster (sto_cluster stored) (sto_networking stored) (sto_settings stored) "uid" ∅ ∅ ∅ ∅ ∅ ∅)
    (mkSim [] (mkClusterInfo [] "none" true [] [] ∅) [] ∅ 0 [], ([autoscaler "a b" 0; autoscaler "c" 5], servers)) [].

Lemma reconcileAutoscalers_scales_witness :
  let r := reconcileAutoscalers (H2 := const None) (H3 := canonical_range) [] scale_start in
  r.1 = Ok tt ∧ sizes_asked r.2 = [("c", 5)] ∧ as_Size ∘ as_Spec <$> (world r.2).2.1 = [2; 5].
Proof.
  set (r := reconcileAutoscalers (H2 := const None) (H3 := canonical_range) [] scale_start).
  assert (r.1 = Ok tt) as Hr by (vm_compute; reflexivity). split; [exact Hr|].
  split; [|vm_compute; reflexivity].
  destruct (reconcileAutoscalers_scales (H2 := const None) (H3 := canonical_range) (cached := scale_cached)
    [] scale_start r.2) as (asked&Hs&_&_&Hall).
  - rewrite <- Hr. apply surjective_pairing.
  - rewrite Hs, (Hall eq_refl (conj eq_refl I)). vm_compute. reflexivity.
Defined.
