(* ===== verification/Reschedule.v ===== *)
(** * pkg/util/scheduler/stripe.go: rescheduling

    The game state searched by A* ([state], [Move], [Hash], [Done]) and the two
    rescheduling methods of the stripe scheduler.

    Maps of pointers are maps of records: [clone] copies deeply and every state
    owns its records.  A member whose group is missing from the state would make
    [Move] dereference nil; [newState] and [Move] never produce one
    ([state_inv]), and the model skips such a member. *)

From Stdlib Require Import Ascii.
From S2P Require Import Prelude GoLib Astar ServerGroups Scheduler StripeScheduler.
Local Open Scope Z_scope.

Record Member := mkMember { mem_ServerGroup : string; Moved : bool }.
Record ServerGroup := mkGroup { Size : Z; Unschedulable : bool }.

#[export] Instance Member_eq_dec : EqDecision Member.
Proof. solve_decision. Defined.
#[export] Instance ServerGroup_eq_dec : EqDecision ServerGroup.
Proof. solve_decision. Defined.

Record state := mkState {
  Members : gmap string Member;
  ServerGroups : gmap string ServerGroup;
  Moves : list Move;
}.

(** [Size++] and [Size--]. *)
Definition add_size (n : Z) (g : ServerGroup) : ServerGroup :=
  mkGroup (wrap64 (Size g + n)) (Unschedulable g).

Section reschedule.
Context `{MapRange}.
Implicit Types (pos : list nat) (s : state).

(** ** newState *)
Definition add_member (group : string) s (member : string) : state :=
  mkState (<[member := mkMember group false]> (Members s))
          (alter (add_size 1) group (ServerGroups s)) (Moves s).

(** One turn of the loops of [newState] over a map of groups. *)
Definition add_group (unschedulable : bool) s (e : string * serverList) : state :=
  let '(group, members) := e in
  let s := match ServerGroups s !! group with
           | Some _ => s
           | None => mkState (Members s)
                       (<[group := mkGroup 0 unschedulable]> (ServerGroups s)) (Moves s)
           end in
  fold_left (add_member group) (servers members) s.

Definition newState pos (sched : stripeSchedulerImpl) (class : string) : state :=
  let s := mkState ∅ ∅ [] in
  let s := match serverClasses sched !! class with
           | Some groups => fold_left (add_group false) (range (pos ++ [0%nat]) (getMap groups)) s
           | None => s
           end in
  match unschedulableServerClasses sched !! class with
  | Some groups => fold_left (add_group true) (range (pos ++ [1%nat]) (getMap groups)) s
  | None => s
  end.

(** ** score, Done, Hash *)
Definition score_step (acc : Z * Z * bool) (g : ServerGroup) : Z * Z * bool :=
  let '(min, max, unschedulable) := acc in
  if Unschedulable g then
    (min, max, if bool_decide (0 < Size g) then true else unschedulable)
  else
    (if bool_decide (Size g < min) then Size g else min,
     if bool_decide (max < Size g) then Size g else max,
     unschedulable).

Definition score pos s : Z * Z * bool :=
  fold_left score_step (range pos (ServerGroups s)).*2 (MaxInt, 0, false).

Definition state_Done s : bool :=
  let '(min, max, unschedulable) := score [] s in
  if unschedulable then false else bool_decide (wrap64 (max - min) < 2).

(** The JSON of one group. *)
Definition group_json (g : ServerGroup) : string :=
  "{" +:+ json_string "Size" +:+ ":" +:+ strconv_Itoa (Size g) +:+ "," +:+
  json_string "Unschedulable" +:+ ":" +:+ json_bool (Unschedulable g) +:+ "}".

Definition state_Hash s : string :=
  json_object (omap (λ k, (λ g, (k, group_json g)) <$> ServerGroups s !! k)
                 (sorted_keys (ServerGroups s))).

(** ** Move *)
Definition is_unschedulable s (group : string) : bool :=
  match ServerGroups s !! group with Some g => Unschedulable g | None => false end.

Definition has_size s (n : Z) (group : string) : bool :=
  match ServerGroups s !! group with Some g => bool_decide (Size g = n) | None => false end.

(** The successor in which a member went to another group. *)
Definition move_member s (name : string) (member : Member) (to : string) : state :=
  mkState (<[name := mkMember to true]> (Members s))
    (alter (add_size 1) to (alter (add_size (-1)) (mem_ServerGroup member) (ServerGroups s)))
    (Moves s ++ [mkMove name (mem_ServerGroup member) to]).

(** The schedulable groups of the smallest size. *)
Definition targets pos (min : Z) s : list string :=
  (filter (λ e, Unschedulable e.2 = false ∧ Size e.2 = min) (range pos (ServerGroups s))).*1.

(** The loops of [Move]: the members that [pick] selects, each to every target. *)
Definition moves_of pos (min : Z) (pick : Member → bool) s : list state :=
  mjoin (imap (λ i e,
      if pick e.2 then move_member s e.1 e.2 <$> targets (pos ++ [i]) min s else [])
    (range pos (Members s))).

Definition state_Move pos s : list state :=
  let '(min, max, _) := score (pos ++ [0%nat]) s in
  let moves := moves_of (pos ++ [1%nat]) min
    (λ member, negb (Moved member || negb (is_unschedulable s (mem_ServerGroup member)))) s in
  if bool_decide (length moves ≠ 0%nat) then moves
  else moves_of (pos ++ [2%nat]) min
    (λ member, negb (Moved member || negb (has_size s max (mem_ServerGroup member)))) s.

Definition state_AStarable pos : AStarable state := {|
  Done := state_Done;
  Hash := state_Hash;
  Astar.Move n := state_Move (pos ++ [n]);
|}.

(** ** Reschedule *)
Definition knownClasses (sched : stripeSchedulerImpl) : gmap string () :=
  ((λ _, tt) <$> serverClasses sched) ∪ ((λ _, tt) <$> unschedulableServerClasses sched).

Fixpoint reschedule_loop pos (n fuel : nat) (sched : stripeSchedulerImpl)
    (classes : list string) (moves : list Scheduler.Move) : option (result (list Scheduler.Move)) :=
  match classes with
  | [] => Some (Ok moves)
  | class :: classes' =>
      let s := newState (pos ++ [n; 0%nat]) sched class in
      if state_Done s then reschedule_loop pos (S n) fuel sched classes' moves
      else match @AStar _ (state_AStarable (pos ++ [n; 1%nat])) fuel s with
           | None => None
           | Some (Ok result) => reschedule_loop pos (S n) fuel sched classes' (moves ++ Moves result)
           | Some (Err e) => Some (Err e)
           | Some Panic => Some Panic
           end
  end.

Definition stripe_Reschedule pos (fuel : nat) (sched : stripeSchedulerImpl) :
    option (result (list Scheduler.Move)) :=
  reschedule_loop pos 0 fuel sched (range (pos ++ [0%nat]) (knownClasses sched)).*1 [].

(** ** RescheduleUnschedulableOnly *)
Definition min_schedulable (min : Z) (g : ServerGroup) : Z :=
  if negb (Unschedulable g) && bool_decide (Size g < min) then Size g else min.

(** One turn of the loop over the members: the moves made so far, the groups
    with their updated sizes and [minSize]. *)
Definition unschedulable_step pos (acc : list Scheduler.Move * gmap string ServerGroup * Z)
    (i : nat) (e : string * Member) : list Scheduler.Move * gmap string ServerGroup * Z :=
  let '(moves, groups, minSize) := acc in
  let '(memberName, member) := e in
  match groups !! mem_ServerGroup member with
  | None => acc
  | Some g =>
      if negb (Unschedulable g) then acc
      else match list_find (λ e, Unschedulable e.2 = false ∧ Size e.2 = minSize)
                  (range (pos ++ [i]) groups) with
           | None => acc
           | Some (_, (serverGroupName, serverGroup)) =>
               let serverGroup := add_size 1 serverGroup in
               (moves ++ [mkMove memberName (mem_ServerGroup member) serverGroupName],
                <[serverGroupName := serverGroup]> groups, Size serverGroup)
           end
  end.

Fixpoint unschedulable_loop pos (i : nat) (members : list (string * Member))
    (acc : list Scheduler.Move * gmap string ServerGroup * Z) :
    list Scheduler.Move * gmap string ServerGroup * Z :=
  match members with
  | [] => acc
  | e :: members' => unschedulable_loop pos (S i) members' (unschedulable_step pos acc i e)
  end.

Definition generateUnschedulableMoves pos s : list Scheduler.Move :=
  let minSize := fold_left min_schedulable (range (pos ++ [0%nat]) (ServerGroups s)).*2 MaxInt in
  if bool_decide (minSize = MaxInt) then []
  else (unschedulable_loop (pos ++ [1%nat]) 0 (range (pos ++ [1%nat]) (Members s))
          ([], ServerGroups s, minSize)).1.1.

Definition hasUnschedulablePods pos s : bool :=
  existsb (λ e, Unschedulable e.2 && bool_decide (0 < Size e.2)) (range pos (ServerGroups s)).

Fixpoint unschedulable_only_loop pos (n : nat) (sched : stripeSchedulerImpl)
    (classes : list string) (moves : list Scheduler.Move) : list Scheduler.Move :=
  match classes with
  | [] => moves
  | class :: classes' =>
      let s := newState (pos ++ [n; 0%nat]) sched class in
      let moves := if hasUnschedulablePods (pos ++ [n; 1%nat]) s
                   then moves ++ generateUnschedulableMoves (pos ++ [n; 2%nat]) s else moves in
      unschedulable_only_loop pos (S n) sched classes' moves
  end.

Definition stripe_RescheduleUnschedulableOnly pos (sched : stripeSchedulerImpl) :
    result (list Scheduler.Move) :=
  Ok (unschedulable_only_loop pos 0 sched
        (range (pos ++ [0%nat]) (unschedulableServerClasses sched)).*1 []).
End reschedule.

(** The stripe scheduler implements the interface. *)
#[export] Instance stripe_Scheduler `{MapRange} `{MathRand} : Scheduler stripeSchedulerImpl := {
  Create := stripe_Create;
  Delete := stripe_Delete;
  Upgrade := stripe_Upgrade;
  Reschedule := stripe_Reschedule;
  RescheduleUnschedulableOnly := stripe_RescheduleUnschedulableOnly;
  EnQueueRemovals := stripe_EnQueueRemovals;
  AvoidGroups := stripe_AvoidGroups;
}.
