(* ===== verification/RescheduleSpec.v ===== *)
(** * Rescheduling: the search converges

    Well-formedness of the game state, the invariant of the moves, the measure
    that every move decreases, the finite set of hashes, and the theorems about
    [AStar] on [state], [Reschedule] and [RescheduleUnschedulableOnly]. *)

From Stdlib Require Import Ascii.
From S2P Require Import Prelude GoLib Astar ServerGroups Scheduler StripeScheduler Reschedule.
Local Open Scope Z_scope.

(** ** Counting members *)
Definition count (g : string) (ms : gmap string Member) : nat :=
  size (filter (λ e, mem_ServerGroup e.2 = g) ms).

(** Where every member is. *)
Definition placement (s : state) : gmap string string := mem_ServerGroup <$> Members s.

(** The groups with their flags but not their sizes. *)
Definition flags (s : state) : gmap string bool := Unschedulable <$> ServerGroups s.

(** Sizes count the members, members are in known groups, and sizes are ints. *)
Record state_wf (s : state) : Prop := {
  wf_size g sg : ServerGroups s !! g = Some sg → Size sg = Z.of_nat (count g (Members s));
  wf_group n m : Members s !! n = Some m → is_Some (ServerGroups s !! mem_ServerGroup m);
  wf_bound : Z.of_nat (size (Members s)) < MaxInt;
}.

(** [g] is a schedulable group of [s] with record [sg]. *)
Definition sched (s : state) (g : string) (sg : ServerGroup) : Prop :=
  ServerGroups s !! g = Some sg ∧ Unschedulable sg = false.

Definition has_sched (s : state) : Prop := ∃ g sg, sched s g sg.

(** What [Done] stands for: no member in an unschedulable group, and schedulable
    groups whose sizes differ by at most one. *)
Definition balanced (s : state) : Prop :=
  (∀ n m, Members s !! n = Some m → is_unschedulable s (mem_ServerGroup m) = false) ∧
  ∀ g sg g' sg', sched s g sg → sched s g' sg' → Size sg ≤ Size sg' + 1.

(** Executing moves on a placement: each finds its member in the group it names. *)
Fixpoint replay (moves : list Scheduler.Move) (p : gmap string string) :
    option (gmap string string) :=
  match moves with
  | [] => Some p
  | m :: moves' =>
      if decide (p !! Move_Name m = Some (Move_From m))
      then replay moves' (<[Move_Name m := Move_To m]> p)
      else None
  end.

(** The invariant of the states reached from [init]. *)
Record state_inv (init s : state) : Prop := {
  inv_wf : state_wf s;
  inv_dom : size (Members s) = size (Members init);
  inv_flags : flags s = flags init;
  inv_replay : replay (Moves s) (placement init) = Some (placement s);
  inv_names : NoDup (Move_Name <$> Moves s);
  inv_moved n m : Members s !! n = Some m → Moved m = bool_decide (n ∈ Move_Name <$> Moves s);
  inv_settled n m : Members s !! n = Some m → Moved m = true →
    ∃ sg, sched s (mem_ServerGroup m) sg ∧ ∀ g' sg', sched s g' sg' → Size sg ≤ Size sg' + 1;
  inv_to mv : mv ∈ Moves s →
    Move_From mv ≠ Move_To mv ∧ flags init !! Move_To mv = Some false;
}.

(** A state as [newState] makes it. *)
Record fresh_state (s : state) : Prop := {
  fresh_wf : state_wf s;
  fresh_moved n m : Members s !! n = Some m → Moved m = false;
  fresh_moves : Moves s = [];
  fresh_sched : has_sched s;
}.

(** ** Measure: members of unschedulable groups weigh more than any group's
    square can grow *)
Definition weight (N : Z) (g : ServerGroup) : Z :=
  if Unschedulable g then (2 * N + 2) * Size g else Size g * Size g.

Definition gsum (f : ServerGroup → Z) (m : gmap string ServerGroup) : Z :=
  foldr Z.add 0 (f <$> (map_to_list m).*2).

Definition measure (s : state) : Z :=
  gsum (weight (Z.of_nat (size (Members s)))) (ServerGroups s).

(** ** All the group maps with given flags and sizes up to [N] *)
Fixpoint all_groups (N : nat) (l : list (string * bool)) : list (gmap string ServerGroup) :=
  match l with
  | [] => [∅]
  | (k, u) :: l' =>
      m ← all_groups N l'; n ← seq 0 (S N); [<[k := mkGroup (Z.of_nat n) u]> m]
  end.

Definition groups_Hash (m : gmap string ServerGroup) : string :=
  state_Hash (mkState ∅ m []).

(** Fuel that is enough for a search from [s]. *)
Definition search_bound (s : state) : nat :=
  (S (size (Members s)) ^ size (ServerGroups s))%nat.

(** ** What rescheduling a class must achieve *)

(** The pods of a class, scheduled and unschedulable. *)
Definition class_pods (sched : stripeSchedulerImpl) (class : string) : list string :=
  all_servers (class_map (serverClasses sched) class) ++
  all_servers (class_map (unschedulableServerClasses sched) class).

(** Where the pods of a class are before rescheduling. *)
Definition group_placement (m : groupMap) : list (string * string) :=
  map_to_list m ≫= λ e, (λ n, (n, e.1)) <$> servers e.2.
Definition class_placement (sched : stripeSchedulerImpl) (class : string) : gmap string string :=
  list_to_map (group_placement (class_map (serverClasses sched) class) ++
               group_placement (class_map (unschedulableServerClasses sched) class)).

(** The number of pods a placement has in a group. *)
Definition population (g : string) (p : gmap string string) : nat :=
  size (filter (λ e, e.2 = g) p).

(** The moves can be executed from the current placement, move no pod twice and
    each to another group of the specification; afterwards every pod is in a
    group of the specification and group populations differ by at most one. *)
Definition class_goal (sched : stripeSchedulerImpl) (class : string)
    (moves : list Scheduler.Move) : Prop :=
  let groups := class_map (serverClasses sched) class in
  NoDup (Move_Name <$> moves) ∧
  (∀ mv, mv ∈ moves → Move_From mv ≠ Move_To mv ∧ is_Some (groups !! Move_To mv)) ∧
  ∃ p, replay moves (class_placement sched class) = Some p ∧
    (∀ n g, p !! n = Some g → is_Some (groups !! g)) ∧
    ∀ g g', is_Some (groups !! g) → is_Some (groups !! g') → 
      (population g p ≤ population g' p + 1)%nat.

(** The moves of the simplified reschedule: exactly the pods whose group left the
    specification, each once and from where it is, to groups of the
    specification. *)
Definition rescue_goal (sched : stripeSchedulerImpl) (class : string)
    (moves : list Scheduler.Move) : Prop :=
  let groups := class_map (serverClasses sched) class in
  (λ mv, (Move_Name mv, Move_From mv)) <$> moves ≡ₚ
    filter (λ e, groups !! e.2 = None) (map_to_list (class_placement sched class)) ∧
  ∀ mv, mv ∈ moves → is_Some (groups !! Move_To mv).

(** Distinct pods, fewer than [MaxInt], and at least one group in the
    specification. *)
Definition class_ok (sched : stripeSchedulerImpl) (class : string) : Prop :=
  NoDup (class_pods sched class) ∧ Z.of_nat (length (class_pods sched class)) < MaxInt ∧
  class_map (serverClasses sched) class ≠ ∅.

(** Fuel that is enough for the search of a class. *)
Definition reschedule_bound (sched : stripeSchedulerImpl) (class : string) : nat :=
  (S (length (class_pods sched class)) ^
   (size (class_map (serverClasses sched) class) +
    size (class_map (unschedulableServerClasses sched) class)))%nat.

(** ** Counting lemmas *)
Lemma count_insert_fresh g n m ms :
  ms !! n = None →
  count g (<[n := m]> ms) =
    ((if decide (mem_ServerGroup m = g) then 1 else 0) + count g ms)%nat.
Proof.
  intros Hn. unfold count. case_decide as Hg.
  - rewrite map_filter_insert_True by done. rewrite map_size_insert_None; [done|].
    apply map_lookup_filter_None. by left.
  - rewrite map_filter_insert_False by done. by rewrite delete_id.
Qed.

Lemma count_insert g n m m' ms :
  ms !! n = Some m →
  (count g (<[n := m']> ms) + (if decide (mem_ServerGroup m = g) then 1 else 0) =
   count g ms + (if decide (mem_ServerGroup m' = g) then 1 else 0))%nat.
Proof.
  intros Hn. rewrite <- (insert_delete_id ms n m Hn) at 2.
  rewrite <- (insert_delete_eq ms). rewrite !count_insert_fresh by apply lookup_delete_eq. lia.
Qed.

Lemma count_le g ms : (count g ms ≤ size ms)%nat.
Proof. apply map_subseteq_size, map_filter_subseteq. Qed.

Lemma count_pos g ms : (0 < count g ms)%nat ↔ ∃ n m, ms !! n = Some m ∧ mem_ServerGroup m = g.
Proof.
  unfold count. split.
  - intros Hc. destruct (map_choose (filter (λ e, mem_ServerGroup e.2 = g) ms)) as (n&m&Hm).
    { intros E. rewrite E, map_size_empty in Hc. lia. }
    apply map_lookup_filter_Some in Hm as [??]. by exists n, m.
  - intros (n&m&Hm&Hg). apply Nat.neq_0_lt_0. intros E%map_size_empty_inv.
    assert (filter (λ e, mem_ServerGroup e.2 = g) ms !! n = Some m) as Hf
      by (by apply map_lookup_filter_Some).
    rewrite E in Hf. done.
Qed.

(** ** The weighted sum *)
Lemma gsum_insert_fresh f k g m :
  m !! k = None → gsum f (<[k := g]> m) = f g + gsum f m.
Proof.
  intros Hk. unfold gsum.
  assert (∀ l1 l2 : list Z, l1 ≡ₚ l2 → foldr Z.add 0 l1 = foldr Z.add 0 l2) as Hp.
  { induction 1; simpl; lia. }
  erewrite Hp; [|by rewrite map_to_list_insert]. done.
Qed.

Lemma gsum_alter f h k g m :
  m !! k = Some g → gsum f (alter h k m) = gsum f m + f (h g) - f g.
Proof.
  intros Hk. pose proof (gsum_insert_fresh f k g (delete k m) (lookup_delete_eq _ _)) as Hm.
  rewrite insert_delete_id in Hm by done.
  assert (alter h k m = <[k := h g]> (delete k m)) as ->.
  { rewrite insert_delete_eq. apply map_eq. intros j. destruct (decide (j = k)) as [->|].
    - by rewrite lookup_alter_eq, lookup_insert_eq, Hk.
    - by rewrite lookup_alter_ne, lookup_insert_ne by done. }
  rewrite !gsum_insert_fresh by apply lookup_delete_eq. lia.
Qed.

Lemma gsum_nonneg f m :
  (∀ k g, m !! k = Some g → 0 ≤ f g) → 0 ≤ gsum f m.
Proof.
  intros Hf. unfold gsum.
  assert (∀ g, g ∈ (map_to_list m).*2 → 0 ≤ f g) as Hl.
  { intros g ([k g']&->&Hkg%elem_of_map_to_list)%list_elem_of_fmap. by eapply Hf. }
  induction (map_to_list m).*2 as [|g l IH]; csimpl; [lia|].
  assert (0 ≤ f g) by (apply Hl; constructor).
  assert (0 ≤ foldr Z.add 0 (f <$> l)) by (apply IH; intros; apply Hl; by constructor). lia.
Qed.

(** ** Score *)
Definition is_score (s : state) (min max : Z) (u : bool) : Prop :=
  (∀ g sg, sched s g sg → min ≤ Size sg ≤ max) ∧
  (∃ g sg, sched s g sg ∧ Size sg = min) ∧
  (∃ g sg, sched s g sg ∧ Size sg = max) ∧
  (u = true ↔ ∃ g sg, ServerGroups s !! g = Some sg ∧ Unschedulable sg = true ∧ 0 < Size sg).

Definition min_step (mn : Z) (g : ServerGroup) : Z :=
  if Unschedulable g then mn else if bool_decide (Size g < mn) then Size g else mn.
Definition max_step (mx : Z) (g : ServerGroup) : Z :=
  if Unschedulable g then mx else if bool_decide (mx < Size g) then Size g else mx.
Definition u_step (u : bool) (g : ServerGroup) : bool :=
  if Unschedulable g then if bool_decide (0 < Size g) then true else u else u.

Lemma score_fold l mn mx u :
  fold_left score_step l (mn, mx, u) =
  (fold_left min_step l mn, fold_left max_step l mx, fold_left u_step l u).
Proof.
  revert mn mx u. induction l as [|x l IH]; intros mn mx u; [done|].
  cbn [fold_left]. unfold score_step at 2, min_step at 2, max_step at 2, u_step at 2.
  destruct (Unschedulable x); apply IH.
Qed.

Lemma min_fold l mn :
  (fold_left min_step l mn = mn ∨
   ∃ g, g ∈ l ∧ Unschedulable g = false ∧ Size g = fold_left min_step l mn) ∧
  fold_left min_step l mn ≤ mn ∧
  (∀ g, g ∈ l → Unschedulable g = false → fold_left min_step l mn ≤ Size g).
Proof.
  revert mn. induction l as [|x l IH]; intros mn; cbn [fold_left].
  { split_and!; [by left|lia|by intros ? []%not_elem_of_nil]. }
  destruct (IH (min_step mn x)) as (Hin&Hle&Hall).
  assert (min_step mn x ≤ mn ∧ (Unschedulable x = false → min_step mn x ≤ Size x) ∧
    (min_step mn x = mn ∨ Unschedulable x = false ∧ Size x = min_step mn x)) as (H1&H2&H3).
  { unfold min_step. destruct (Unschedulable x); [by split_and!; [lia| |left]|].
    case_bool_decide; split_and!; try lia; auto. }
  split_and!; [|lia|].
  - destruct Hin as [->|(g&Hg&Hg'&Hs)]; [|right; exists g; split_and!; [by constructor|done..]].
    destruct H3 as [?|[??]]; [by left|right; exists x; split_and!; [by constructor|done..]].
  - intros g [->|Hg]%elem_of_cons Hg'; [specialize (H2 Hg'); lia|by apply Hall].
Qed.

Lemma max_fold l mx :
  (fold_left max_step l mx = mx ∨
   ∃ g, g ∈ l ∧ Unschedulable g = false ∧ Size g = fold_left max_step l mx) ∧
  mx ≤ fold_left max_step l mx ∧
  (∀ g, g ∈ l → Unschedulable g = false → Size g ≤ fold_left max_step l mx).
Proof.
  revert mx. induction l as [|x l IH]; intros mx; cbn [fold_left].
  { split_and!; [by left|lia|by intros ? []%not_elem_of_nil]. }
  destruct (IH (max_step mx x)) as (Hin&Hle&Hall).
  assert (mx ≤ max_step mx x ∧ (Unschedulable x = false → Size x ≤ max_step mx x) ∧
    (max_step mx x = mx ∨ Unschedulable x = false ∧ Size x = max_step mx x)) as (H1&H2&H3).
  { unfold max_step. destruct (Unschedulable x); [by split_and!; [lia| |left]|].
    case_bool_decide; split_and!; try lia; auto. }
  split_and!; [|lia|].
  - destruct Hin as [->|(g&Hg&Hg'&Hs)]; [|right; exists g; split_and!; [by constructor|done..]].
    destruct H3 as [?|[??]]; [by left|right; exists x; split_and!; [by constructor|done..]].
  - intros g [->|Hg]%elem_of_cons Hg'; [specialize (H2 Hg'); lia|by apply Hall].
Qed.

Lemma u_fold l u :
  fold_left u_step l u = true ↔
  u = true ∨ ∃ g, g ∈ l ∧ Unschedulable g = true ∧ 0 < Size g.
Proof.
  revert u. induction l as [|x l IH]; intros u; cbn [fold_left].
  { split; [by left|]. intros [?|(?&[]%not_elem_of_nil&_)]. done. }
  rewrite IH. clear IH. unfold u_step. setoid_rewrite elem_of_cons.
  destruct (Unschedulable x) eqn:Ex; [case_bool_decide|].
  - split; [intros _; right; exists x; auto|by left].
  - split; [intros [?|(g&?&?&?)]; [by left|right; exists g; auto]|].
    intros [?|(g&[->|?]&?&?)]; [by left|done|right; by exists g].
  - split; [intros [?|(g&?&?&?)]; [by left|right; exists g; auto]|].
    intros [?|(g&[->|?]&?&?)]; [by left|congruence|right; by exists g].
Qed.

Lemma wf_size_range s g sg :
  state_wf s → ServerGroups s !! g = Some sg → 0 ≤ Size sg ≤ Z.of_nat (size (Members s)).
Proof.
  intros Hwf Hg. rewrite (wf_size s Hwf g sg Hg). pose proof (count_le g (Members s)). lia.
Qed.

Section score.
Context `{MapRange}.

Lemma elem_of_range_values {V} pos (m : gmap string V) v :
  v ∈ (range pos m).*2 ↔ ∃ k, m !! k = Some v.
Proof.
  rewrite range_perm, list_elem_of_fmap. split.
  - intros ([k v']&->&Hk%elem_of_map_to_list). by exists k.
  - intros (k&Hk). exists (k, v). by rewrite elem_of_map_to_list.
Qed.

Lemma elem_of_range {V} pos (m : gmap string V) k v :
  (k, v) ∈ range pos m ↔ m !! k = Some v.
Proof. by rewrite range_perm, elem_of_map_to_list. Qed.

Lemma score_ok pos s :
  state_wf s → has_sched s →
  ∃ min max u, score pos s = (min, max, u) ∧ is_score s min max u ∧
    0 ≤ min ≤ max ∧ max ≤ Z.of_nat (size (Members s)).
Proof.
  intros Hwf (g0&sg0&Hg0&Hu0). unfold score. rewrite score_fold.
  set (l := (range pos (ServerGroups s)).*2).
  destruct (min_fold l MaxInt) as (Hmn&_&Hmn'), (max_fold l 0) as (Hmx&Hmx0&Hmx').
  pose proof (u_fold l false) as Hu.
  set (mn := fold_left min_step l MaxInt) in *. set (mx := fold_left max_step l 0) in *.
  assert (∀ sg, sg ∈ l → ∃ g, ServerGroups s !! g = Some sg) as Hl
    by (intros sg; apply elem_of_range_values).
  assert (∀ g sg, ServerGroups s !! g = Some sg → sg ∈ l) as Hl'
    by (intros g sg ?; apply elem_of_range_values; by exists g).
  pose proof (wf_bound s Hwf) as Hb.
  pose proof (wf_size_range s g0 sg0 Hwf Hg0) as Hr0.
  pose proof (Hmn' sg0 (Hl' _ _ Hg0) Hu0). pose proof (Hmx' sg0 (Hl' _ _ Hg0) Hu0).
  assert (∃ g sg, sched s g sg ∧ Size sg = mn) as Hmin.
  { destruct Hmn as [?|(sg&Hsg&Hsu&Hss)]; [lia|]. apply Hl in Hsg as [g Hg].
    by exists g, sg. }
  assert (∃ g sg, sched s g sg ∧ Size sg = mx) as Hmax.
  { destruct Hmx as [?|(sg&Hsg&Hsu&Hss)]; [exists g0, sg0; split; [done|lia]|].
    apply Hl in Hsg as [g Hg]. by exists g, sg. }
  exists mn, mx, (fold_left u_step l false). split_and!; [done| | |lia|].
  - split_and!; [|done|done|].
    + intros g sg [Hg Hsu]. split; [apply Hmn'|apply Hmx']; eauto.
    + rewrite Hu. split.
      * intros [?|(sg&Hsg&?&?)]; [done|]. apply Hl in Hsg as [g Hg]. by exists g, sg.
      * intros (g&sg&Hg&?&?). right. exists sg. eauto.
  - destruct Hmin as (g&sg&[Hg ?]&<-). by apply (wf_size_range s g sg Hwf).
  - destruct Hmax as (g&sg&[Hg ?]&<-). by apply (wf_size_range s g sg Hwf).
Qed.

Lemma state_Done_spec s :
  state_wf s → has_sched s → state_Done s = true ↔ balanced s.
Proof.
  intros Hwf Hs. unfold state_Done.
  destruct (score_ok [] s Hwf Hs) as (min&max&u&->&(Hall&Hmin&Hmax&Hu)&Hr&Hb).
  pose proof (wf_bound s Hwf) as Hb'.
  rewrite wrap64_id by (unfold MinInt, MaxInt in *; lia).
  destruct u.
  - split; [done|]. intros [Hn _].
    destruct (proj1 Hu eq_refl) as (g&sg&Hg&Hgu&Hpos).
    rewrite (wf_size s Hwf g sg Hg) in Hpos.
    destruct (proj1 (count_pos g (Members s))) as (n&m&Hm&Hmg); [lia|].
    specialize (Hn n m Hm). unfold is_unschedulable in Hn. rewrite Hmg, Hg in Hn. congruence.
  - rewrite bool_decide_eq_true. split.
    + intros Hlt. split.
      * intros n m Hm. destruct (wf_group s Hwf n m Hm) as [sg Hg].
        unfold is_unschedulable. rewrite Hg. destruct (Unschedulable sg) eqn:E; [|done].
        exfalso. enough (false = true) by done. apply Hu. exists (mem_ServerGroup m), sg.
        split_and!; [done|done|]. rewrite (wf_size s Hwf _ _ Hg).
        enough (0 < count (mem_ServerGroup m) (Members s))%nat by lia.
        apply count_pos. by exists n, m.
      * intros g sg g' sg' Hg Hg'. destruct (Hall g sg Hg), (Hall g' sg' Hg'). lia.
    + intros [_ Hbal]. destruct Hmin as (g&sg&Hg&<-), Hmax as (g'&sg'&Hg'&<-).
      specialize (Hbal g' sg' g sg Hg' Hg). lia.
Qed.
End score.

(** ** Moves *)
Section moves.
Context `{MapRange}.
Implicit Types (s : state).

Lemma elem_of_targets pos min s to :
  to ∈ targets pos min s ↔ ∃ sg, sched s to sg ∧ Size sg = min.
Proof.
  unfold targets, sched. rewrite list_elem_of_fmap. split.
  - intros ([g sg]&->&[[??] Hg%elem_of_range]%list_elem_of_filter). by exists sg.
  - intros (sg&[??]&?). exists (to, sg). split; [done|].
    apply list_elem_of_filter. split; [done|]. by apply elem_of_range.
Qed.

Lemma elem_of_moves_of pos min pick s next :
  next ∈ moves_of pos min pick s ↔
  ∃ n m to sg, Members s !! n = Some m ∧ pick m = true ∧ sched s to sg ∧ Size sg = min ∧
    next = move_member s n m to.
Proof.
  unfold moves_of. rewrite list_elem_of_join. split.
  - intros (ms&Hin&(i&[n m]&->&Hi)%elem_of_lookup_imap_1). cbn [fst snd] in *.
    destruct (pick m) eqn:Hp; [|by apply not_elem_of_nil in Hin].
    apply list_elem_of_fmap in Hin as (to&->&(sg&?&?)%elem_of_targets).
    exists n, m, to, sg. split_and!; try done.
    apply (elem_of_range pos). by eapply list_elem_of_lookup_2.
  - intros (n&m&to&sg&Hm&Hp&Hsg&Hmin&->).
    apply (elem_of_range pos), list_elem_of_lookup_1 in Hm as [i Hi].
    eexists. split; [|eapply elem_of_lookup_imap_2, Hi]. cbn [fst snd]. rewrite Hp.
    apply list_elem_of_fmap_2, elem_of_targets. by exists sg.
Qed.

(** One move: an unmoved member goes to a smallest schedulable group, from an
    unschedulable group, or from a largest group that has at least two more
    members. *)
Definition good_move s (n : string) (m : Member) (to : string) : Prop :=
  Members s !! n = Some m ∧ Moved m = false ∧
  ∃ from_sg to_sg,
    ServerGroups s !! mem_ServerGroup m = Some from_sg ∧ sched s to to_sg ∧
    (∀ g sg, sched s g sg → Size to_sg ≤ Size sg) ∧
    (Unschedulable from_sg = true ∨
     (∀ g sg, sched s g sg → Size sg ≤ Size from_sg) ∧ Size to_sg + 2 ≤ Size from_sg).

Lemma state_Move_sound pos s next :
  state_wf s → has_sched s → state_Done s = false →
  (∀ n m, Members s !! n = Some m → Moved m = true →
     is_unschedulable s (mem_ServerGroup m) = false) →
  next ∈ state_Move pos s →
  ∃ n m to, good_move s n m to ∧ next = move_member s n m to.
Proof.
  intros Hwf Hs Hd Hmv. unfold state_Move.
  destruct (score_ok (pos ++ [0%nat]) s Hwf Hs) as (min&max&u&->&(Hall&Hmin&Hmax&Hu)&_).
  case_bool_decide as Hphase.
  - intros (n&m&to&sg&Hm&Hp&Hsg&Hsz&->)%elem_of_moves_of.
    apply negb_true_iff, orb_false_iff in Hp as [Hp1 Hp2%negb_false_iff].
    exists n, m, to. split; [|done]. split_and!; [done..|].
    destruct (wf_group s Hwf n m Hm) as [fsg Hf]. exists fsg, sg.
    split_and!; [done..| |].
    + intros g sg' Hg. rewrite Hsz. by apply (Hall g sg').
    + left. unfold is_unschedulable in Hp2. by rewrite Hf in Hp2.
  - intros (n&m&to&sg&Hm&Hp&Hsg&Hsz&->)%elem_of_moves_of.
    apply negb_true_iff, orb_false_iff in Hp as [Hp1 Hp2%negb_false_iff].
    exists n, m, to. split; [|done]. split_and!; [done..|].
    destruct (wf_group s Hwf n m Hm) as [fsg Hf]. exists fsg, sg.
    assert (∀ n m, Members s !! n = Some m → is_unschedulable s (mem_ServerGroup m) = false) as Hno.
    { intros n' m' Hm'. destruct (is_unschedulable s (mem_ServerGroup m')) eqn:E; [|done].
      exfalso. apply nil_length_inv in Hphase as Hlen.
      eapply not_elem_of_nil. erewrite <- Hlen. apply elem_of_moves_of.
      exists n', m', to, sg. split_and!; [done| |done..]. rewrite E.
      destruct (Moved m') eqn:Em; [|done]. rewrite (Hmv n' m' Hm' Em) in E. done. }
    unfold has_size in Hp2. rewrite Hf in Hp2. apply bool_decide_eq_true in Hp2.
    split_and!; [done..| |].
    + intros g sg' Hg. rewrite Hsz. by apply (Hall g sg').
    + right. split.
      * intros g sg' Hg. rewrite Hp2. by apply (Hall g sg').
      * apply Z.nlt_ge. intros Hlt.
        enough (state_Done s = true) by congruence.
        apply state_Done_spec; [done..|]. split; [done|].
        intros g sg1 g' sg2 H1 H2. destruct (Hall _ _ H1), (Hall _ _ H2). lia.
Qed.

Lemma state_Move_complete pos s :
  state_wf s → has_sched s → state_Done s = false →
  (∀ n m, Members s !! n = Some m → Moved m = true →
     ∃ sg, sched s (mem_ServerGroup m) sg ∧ ∀ g' sg', sched s g' sg' → Size sg ≤ Size sg' + 1) →
  state_Move pos s ≠ [].
Proof.
  intros Hwf Hs Hd Hmv. unfold state_Move.
  destruct (score_ok (pos ++ [0%nat]) s Hwf Hs) as (min&max&u&->&(Hall&Hmin&Hmax&Hu)&Hr&_).
  destruct Hmin as (to&tsg&Hto&Hmin), Hmax as (fr&fsg&Hfr&Hmax).
  case_bool_decide as Hphase; [intros E; rewrite E in Hphase; by apply Hphase|].
  assert (∀ n m, Members s !! n = Some m → is_unschedulable s (mem_ServerGroup m) = false) as Hno.
  { intros n m Hm. destruct (is_unschedulable s (mem_ServerGroup m)) eqn:E; [|done].
    exfalso. apply nil_length_inv in Hphase as Hlen.
    eapply not_elem_of_nil. erewrite <- Hlen. apply elem_of_moves_of.
    exists n, m, to, tsg. split_and!; [done| |done..]. rewrite E.
    destruct (Moved m) eqn:Em; [|done]. destruct (Hmv n m Hm Em) as (sg&[Hg Hsu]&_).
    unfold is_unschedulable in E. rewrite Hg in E. congruence. }
  assert (min + 2 ≤ max) as Hgap.
  { apply Z.nlt_ge. intros Hlt. enough (state_Done s = true) by congruence.
    apply state_Done_spec; [done..|]. split; [done|].
    intros g sg1 g' sg2 H1 H2. destruct (Hall _ _ H1), (Hall _ _ H2). lia. }
  destruct (proj1 (count_pos fr (Members s))) as (n&m&Hm&Hmg).
  { rewrite (wf_size s Hwf fr fsg) in Hmax by apply Hfr. lia. }
  intros Hnil. eapply not_elem_of_nil. erewrite <- Hnil. apply elem_of_moves_of.
  exists n, m, to, tsg. split_and!; [done| |done..].
  unfold has_size. rewrite Hmg, (proj1 Hfr), bool_decide_eq_true_2 by done.
  destruct (Moved m) eqn:Em; [|done]. exfalso.
  destruct (Hmv n m Hm Em) as (sg&Hsg&Hle). rewrite Hmg in Hsg.
  assert (sg = fsg) as -> by (destruct Hsg, Hfr; congruence).
  specialize (Hle to tsg Hto). lia.
Qed.
End moves.

(** ** One move preserves the invariant and decreases the measure *)
Lemma add_size_ok n g :
  MinInt ≤ Size g + n ≤ MaxInt → add_size n g = mkGroup (Size g + n) (Unschedulable g).
Proof. intros ?. unfold add_size. by rewrite wrap64_id. Qed.

(** The record of a group after a member left [fr] for [to]. *)
Definition shift (fr to g : string) (x : ServerGroup) : ServerGroup :=
  mkGroup (Size x + (if decide (g = to) then 1 else 0) - (if decide (g = fr) then 1 else 0))
          (Unschedulable x).

Lemma good_move_facts s n m to :
  state_wf s → good_move s n m to →
  mem_ServerGroup m ≠ to ∧
  ∃ fsg tsg, ServerGroups s !! mem_ServerGroup m = Some fsg ∧ ServerGroups s !! to = Some tsg ∧
    1 ≤ Size fsg < MaxInt ∧ 0 ≤ Size tsg < MaxInt.
Proof.
  intros Hwf (Hm&_&fsg&tsg&Hf&[Ht Htu]&Hmin&Hcase).
  pose proof (wf_bound s Hwf) as Hb.
  pose proof (wf_size_range s _ _ Hwf Hf) as Hfr.
  pose proof (wf_size_range s _ _ Hwf Ht) as Htr.
  assert (0 < count (mem_ServerGroup m) (Members s))%nat as Hpos
    by (apply count_pos; by exists n, m).
  pose proof (wf_size s Hwf _ _ Hf) as Hfs. split.
  - intros Heq. rewrite Heq, Ht in Hf. injection Hf as <-.
    destruct Hcase as [?|[_ ?]]; [congruence|lia].
  - exists fsg, tsg. split_and!; (done || lia).
Qed.

Lemma lookup_move_groups s n m to g :
  state_wf s → good_move s n m to →
  ServerGroups (move_member s n m to) !! g =
  shift (mem_ServerGroup m) to g <$> ServerGroups s !! g.
Proof.
  intros Hwf Hgm.
  destruct (good_move_facts s n m to Hwf Hgm) as (Hne&fsg&tsg&Hf&Ht&Hfr&Htr).
  unfold shift. cbn [move_member ServerGroups].
  destruct (decide (g = to)) as [->|Hgt].
  - rewrite lookup_alter_eq, lookup_alter_ne, Ht, decide_False by done. simpl.
    f_equal. rewrite add_size_ok by (unfold MinInt, MaxInt in *; lia). f_equal. lia.
  - rewrite lookup_alter_ne by done. destruct (decide (g = mem_ServerGroup m)) as [->|Hgf].
    + rewrite lookup_alter_eq, Hf. simpl.
      rewrite add_size_ok by (unfold MinInt, MaxInt in *; lia). do 2 f_equal. lia.
    + rewrite lookup_alter_ne by done. destruct (ServerGroups s !! g) as [x|]; [|done].
      simpl. f_equal. destruct x; simpl. f_equal. lia.
Qed.

Lemma move_sched s n m to g sg' :
  state_wf s → good_move s n m to →
  sched (move_member s n m to) g sg' ↔
  ∃ sg, sched s g sg ∧ sg' = shift (mem_ServerGroup m) to g sg.
Proof.
  intros Hwf Hgm. unfold sched. rewrite lookup_move_groups, fmap_Some by done. split.
  - intros [(sg&Hg&->) Hu]. exists sg. done.
  - intros (sg&[Hg Hu]&->). split; [by exists sg|done].
Qed.

Lemma move_wf s n m to :
  state_wf s → good_move s n m to → state_wf (move_member s n m to).
Proof.
  intros Hwf Hgm. pose proof Hgm as (Hm&_).
  destruct (good_move_facts s n m to Hwf Hgm) as (Hne&fsg&tsg&Hf&Ht&_). split.
  - intros g sg. rewrite lookup_move_groups by done. intros (sg0&Hg&->)%fmap_Some.
    cbn [Size shift move_member Members]. rewrite (wf_size s Hwf g sg0 Hg).
    pose proof (count_insert g n m (mkMember to true) (Members s) Hm) as Hc. simpl in Hc.
    unfold shift; simpl. repeat case_decide; subst; try done; lia.
  - intros n' m'. cbn [move_member Members]. rewrite lookup_move_groups by done.
    rewrite fmap_is_Some, lookup_insert_Some. intros [[<- <-]|[_ Hm']]; [by eexists|].
    by apply (wf_group s Hwf n').
  - cbn [move_member Members]. rewrite map_size_insert_Some by (by eexists).
    apply Hwf.
Qed.

Lemma replay_app l1 l2 p : replay (l1 ++ l2) p = p' ← replay l1 p; replay l2 p'.
Proof.
  revert p. induction l1 as [|m l1 IH]; intros p; simpl; [done|].
  case_decide; [apply IH|done].
Qed.

Lemma move_flags s n m to :
  state_wf s → good_move s n m to → flags (move_member s n m to) = flags s.
Proof.
  intros Hwf Hgm. unfold flags. apply map_eq. intros g.
  rewrite !lookup_fmap, lookup_move_groups by done. by destruct (ServerGroups s !! g).
Qed.

Lemma flags_sched s g : flags s !! g = Some false ↔ ∃ sg, sched s g sg.
Proof. unfold flags, sched. rewrite lookup_fmap, fmap_Some. naive_solver. Qed.

(** The groups that received members stay within one of the smallest. *)
Lemma move_settled s n m to :
  state_wf s → good_move s n m to →
  (∀ n m, Members s !! n = Some m → Moved m = true →
    ∃ sg, sched s (mem_ServerGroup m) sg ∧ ∀ g' sg', sched s g' sg' → Size sg ≤ Size sg' + 1) →
  let s' := move_member s n m to in
  ∀ n' m', Members s' !! n' = Some m' → Moved m' = true →
    ∃ sg, sched s' (mem_ServerGroup m') sg ∧ ∀ g' sg', sched s' g' sg' → Size sg ≤ Size sg' + 1.
Proof.
  intros Hwf Hgm Hold s' n' m' Hm' Hmoved.
  destruct (good_move_facts s n m to Hwf Hgm) as (Hne&_).
  pose proof Hgm as (Hm&_&fsg&tsg&Hf&Hts&Hmin&Hcase).
  assert (∀ g' sg', sched s' g' sg' → Size tsg ≤ Size sg' ∧
    ∀ sg, sched s g' sg → g' ≠ mem_ServerGroup m → Size sg ≤ Size sg') as Hlow.
  { intros g' sg' (sg&Hsg&->)%move_sched; [|done..]. unfold shift; simpl.
    specialize (Hmin g' sg Hsg). split.
    - destruct (decide (g' = mem_ServerGroup m)) as [->|]; [|case_decide; lia].
      assert (sg = fsg) as -> by (destruct Hsg; congruence).
      destruct Hsg as [_ Hsu]. destruct Hcase as [?|[_ ?]]; [congruence|].
      rewrite decide_False by done. lia.
    - intros sg0 Hsg0 Hne'. assert (sg0 = sg) as -> by (destruct Hsg, Hsg0; congruence).
      rewrite (decide_False (P := g' = mem_ServerGroup m)) by done. case_decide; lia. }
  assert (∃ sg, sched s (mem_ServerGroup m') sg ∧
    (mem_ServerGroup m' = to ∨ ∀ g' sg', sched s g' sg' → Size sg ≤ Size sg' + 1)) as (sg&Hsg&Hc).
  { unfold s' in Hm'. cbn [move_member Members] in Hm'.
    apply lookup_insert_Some in Hm' as [[<- <-]|[Hnn Hm']].
    - exists tsg. split; [done|by left].
    - destruct (Hold n' m' Hm' Hmoved) as (sg&?&?). exists sg. split; [done|by right]. }
  exists (shift (mem_ServerGroup m) to (mem_ServerGroup m') sg).
  split; [apply move_sched; eauto|]. intros g' sg' Hg'.
  destruct (Hlow g' sg' Hg') as [Hl1 Hl2]. unfold shift; simpl.
  destruct (decide (mem_ServerGroup m' = to)) as [Heq|Hneq].
  - rewrite Heq in Hsg. assert (sg = tsg) as -> by (destruct Hsg, Hts; congruence).
    case_decide; lia.
  - destruct Hc as [?|Hc]; [done|]. pose proof (Hc to tsg Hts) as Hct.
    destruct (decide (g' = mem_ServerGroup m)) as [->|Hg'ne].
    + case_decide; lia.
    + pose proof Hg' as (sg0&Hsg0&Heq0)%move_sched; [|done..].
      specialize (Hl2 sg0 Hsg0 Hg'ne). specialize (Hc g' sg0 Hsg0). case_decide; lia.
Qed.

Lemma move_inv init s n m to :
  state_inv init s → good_move s n m to → state_inv init (move_member s n m to).
Proof.
  intros Hinv Hgm. pose proof (inv_wf _ _ Hinv) as Hwf.
  destruct (good_move_facts s n m to Hwf Hgm) as (Hne&_).
  pose proof Hgm as (Hm&Hmv&fsg&tsg&Hf&Hts&_). split.
  - by apply move_wf.
  - cbn [move_member Members]. rewrite map_size_insert_Some by (by eexists). apply Hinv.
  - rewrite move_flags by done. apply Hinv.
  - cbn [move_member Moves]. rewrite replay_app, (inv_replay _ _ Hinv). simpl.
    assert (placement s !! n = Some (mem_ServerGroup m)) as Hp
      by (unfold placement; by rewrite lookup_fmap, Hm).
    rewrite decide_True by done. f_equal.
    unfold placement. cbn [move_member Members]. by rewrite fmap_insert.
  - cbn [move_member Moves]. rewrite fmap_app. apply NoDup_app.
    split_and!; [apply Hinv| |apply NoDup_singleton].
    intros x Hx ->%list_elem_of_singleton. rewrite (inv_moved _ _ Hinv n m Hm) in Hmv.
    by apply bool_decide_eq_false in Hmv.
  - cbn [move_member Moves Members]. intros n' m' Hm'. rewrite fmap_app.
    apply lookup_insert_Some in Hm' as [[<- <-]|[Hnn Hm']].
    + rewrite bool_decide_eq_true_2; [done|]. set_solver.
    + rewrite (inv_moved _ _ Hinv n' m' Hm'). apply bool_decide_ext. set_solver.
  - intros n' m'. apply (move_settled s n m to Hwf Hgm). apply Hinv.
  - cbn [move_member Moves]. intros mv [Hmv'| ->%list_elem_of_singleton]%elem_of_app;
      [by apply Hinv|]. simpl. split; [done|]. rewrite <- (inv_flags _ _ Hinv).
    apply flags_sched. by exists tsg.
Qed.

Lemma measure_nonneg s : state_wf s → 0 ≤ measure s.
Proof.
  intros Hwf. apply gsum_nonneg. intros k g Hg.
  pose proof (wf_size_range s k g Hwf Hg). unfold weight. case_match; nia.
Qed.

Lemma move_measure s n m to :
  state_wf s → good_move s n m to → measure (move_member s n m to) < measure s.
Proof.
  intros Hwf Hgm. destruct (good_move_facts s n m to Hwf Hgm) as (Hne&fsg'&tsg'&Hf'&Ht'&Hfr&Htr).
  pose proof Hgm as (Hm&_&fsg&tsg&Hf&[Ht Htu]&_&Hcase).
  simplify_eq.
  pose proof (wf_size_range s _ _ Hwf Hf') as Hfb.
  pose proof (wf_size_range s _ _ Hwf Ht') as Htb.
  pose proof (wf_bound s Hwf) as Hb.
  unfold measure. cbn [move_member ServerGroups Members].
  rewrite map_size_insert_Some by (by eexists).
  assert (alter (add_size (-1)) (mem_ServerGroup m) (ServerGroups s) !! to = Some tsg') as Ht''
    by (by rewrite lookup_alter_ne).
  rewrite (gsum_alter _ _ to tsg') by done. rewrite (gsum_alter _ _ (mem_ServerGroup m) fsg') by done.
  set (N := Z.of_nat (size (Members s))) in *.
  rewrite !add_size_ok by (unfold MinInt, MaxInt in *; lia).
  unfold weight. cbn [Size Unschedulable]. rewrite Htu.
  destruct Hcase as [->|[_ Hgap]]; [nia|]. destruct (Unschedulable fsg'); nia.
Qed.

(** ** The hash determines the sizes *)
Lemma parse_digits_no_comma s : ∀ acc n, parse_digits acc s = Some n → no_byte ","%char s.
Proof.
  unfold no_byte. induction s as [|c s IH]; intros acc n; simpl; [set_solver|].
  destruct (digit_val c) as [d|] eqn:Hd; simpl; [|done]. intros Hp.
  apply not_elem_of_cons. split; [intros <-; done|]. by eapply IH.
Qed.

Lemma Itoa_no_comma n : 0 ≤ n → no_byte ","%char (strconv_Itoa n).
Proof.
  intros Hn. apply (parse_digits_no_comma _ 0 n). unfold strconv_Itoa.
  destruct n as [|p|p]; [done| |lia]. exact (parse_digits_pretty (Npos p)).
Qed.

Lemma Itoa_comma_inj a b t1 t2 :
  0 ≤ a → 0 ≤ b →
  strconv_Itoa a +:+ "," +:+ t1 = strconv_Itoa b +:+ "," +:+ t2 → a = b ∧ t1 = t2.
Proof.
  intros Ha Hb He. pose proof (strings_Cut_found _ _ "" t1 (Itoa_no_comma a Ha)) as H1.
  pose proof (strings_Cut_found _ _ "" t2 (Itoa_no_comma b Hb)) as H2.
  change (String "," "" +:+ t1) with ("," +:+ t1) in H1.
  change (String "," "" +:+ t2) with ("," +:+ t2) in H2.
  rewrite He, H2 in H1. injection H1 as H1 ->. split; [|done].
  unfold strconv_Itoa in H1. by apply (inj pretty) in H1.
Qed.

Lemma group_json_inj g1 g2 t1 t2 :
  0 ≤ Size g1 → 0 ≤ Size g2 → Unschedulable g1 = Unschedulable g2 →
  group_json g1 +:+ t1 = group_json g2 +:+ t2 → g1 = g2 ∧ t1 = t2.
Proof.
  intros H1 H2 Hu. unfold group_json. rewrite !append_assoc. intros He.
  do 3 apply append_inj_l in He. apply Itoa_comma_inj in He as [Hs He]; [|done..].
  rewrite Hu in He. do 4 apply append_inj_l in He. split; [|done].
  destruct g1, g2; simpl in *. by subst.
Qed.

Lemma fields_inj (ks : list (string * ServerGroup * ServerGroup)) :
  Forall (λ e, 0 ≤ Size e.1.2 ∧ 0 ≤ Size e.2 ∧ Unschedulable e.1.2 = Unschedulable e.2) ks →
  json_fields ((λ e, (e.1.1, group_json e.1.2)) <$> ks) =
  json_fields ((λ e, (e.1.1, group_json e.2)) <$> ks) →
  Forall (λ e, e.1.2 = e.2) ks.
Proof.
  induction 1 as [|[[k g1] g2] ks (H1&H2&Hu) Hks IH]; [constructor|]. csimpl in *. intros He.
  destruct ks as [|[[k' g1'] g2'] ks].
  - csimpl in He. do 2 apply append_inj_l in He.
    rewrite <- (append_nil_r (group_json g1)), <- (append_nil_r (group_json g2)) in He.
    apply group_json_inj in He as [-> _]; [|done..]. by repeat constructor.
  - csimpl in *. do 2 apply append_inj_l in He.
    apply group_json_inj in He as [-> He]; [|done..]. apply append_inj_l in He.
    constructor; [done|]. by apply IH.
Qed.

Lemma sorted_keys_fmap {A B} (f : A → B) (m : gmap string A) :
  sorted_keys (f <$> m) = sorted_keys m.
Proof.
  unfold sorted_keys. apply sort_Strings_proper. rewrite map_to_list_fmap.
  by rewrite <- list_fmap_compose, (list_fmap_ext _ fst).
Qed.

Lemma elem_of_sorted_keys {A} (m : gmap string A) k : k ∈ sorted_keys m ↔ is_Some (m !! k).
Proof.
  unfold sorted_keys. rewrite sort_Strings_perm, list_elem_of_fmap. split.
  - intros ([k' v]&->&Hk%elem_of_map_to_list). by eexists.
  - intros [v Hv]. exists (k, v). by rewrite elem_of_map_to_list.
Qed.

Lemma groups_Hash_inj (m1 m2 : gmap string ServerGroup) :
  Unschedulable <$> m1 = Unschedulable <$> m2 →
  (∀ k g, m1 !! k = Some g → 0 ≤ Size g) → (∀ k g, m2 !! k = Some g → 0 ≤ Size g) →
  groups_Hash m1 = groups_Hash m2 → m1 = m2.
Proof.
  intros Hf H1 H2 He. unfold groups_Hash, state_Hash in He. simpl in He.
  rewrite <- (sorted_keys_fmap Unschedulable m2), <- Hf, sorted_keys_fmap in He.
  assert (∀ k, is_Some (m1 !! k) ↔ is_Some (m2 !! k)) as Hdom.
  { intros k. rewrite <- (fmap_is_Some Unschedulable (m1 !! k)), <- lookup_fmap, Hf.
    by rewrite lookup_fmap, fmap_is_Some. }
  assert (∀ k g1 g2, m1 !! k = Some g1 → m2 !! k = Some g2 → Unschedulable g1 = Unschedulable g2) as Hu.
  { intros k g1 g2 Hk1 Hk2. apply (f_equal (lookup k)) in Hf.
    rewrite !lookup_fmap, Hk1, Hk2 in Hf. by injection Hf. }
  assert (∀ keys, (∀ k, k ∈ keys → is_Some (m1 !! k)) → ∃ ks : list (string * ServerGroup * ServerGroup),
    omap (λ k, (λ g, (k, group_json g)) <$> m1 !! k) keys = (λ e, (e.1.1, group_json e.1.2)) <$> ks ∧
    omap (λ k, (λ g, (k, group_json g)) <$> m2 !! k) keys = (λ e, (e.1.1, group_json e.2)) <$> ks ∧
    (∀ k, k ∈ keys ↔ k ∈ (λ e, e.1.1) <$> ks) ∧
    ∀ e, e ∈ ks → m1 !! e.1.1 = Some e.1.2 ∧ m2 !! e.1.1 = Some e.2) as Hks.
  { induction keys as [|k keys IH]; intros Hk.
    { exists []. split_and!; [done..|]. by intros e []%not_elem_of_nil. }
    destruct IH as (ks&E1&E2&E3&E4); [intros; apply Hk; by constructor|].
    destruct (Hk k) as [g1 Hg1]; [constructor|].
    destruct (proj1 (Hdom k)) as [g2 Hg2]; [by eexists|].
    exists ((k, g1, g2) :: ks). csimpl. rewrite Hg1, Hg2, E1, E2. csimpl. split_and!; [done..| |].
    - intros k'. rewrite !elem_of_cons, E3. done.
    - intros e [->|He']%elem_of_cons; [done|by apply E4]. }
  destruct (Hks (sorted_keys m1)) as (ks&E1&E2&E3&E4).
  { intros k. apply elem_of_sorted_keys. }
  rewrite E1, E2 in He. unfold json_object in He. apply append_inj_l in He.
  assert (∀ s t, s +:+ "}" = t +:+ "}" → s = t) as Hcut.
  { intros s t Hst. apply (f_equal string_bytes) in Hst. rewrite !string_bytes_app in Hst.
    apply app_inj_tail in Hst as [Hst _]. by apply string_bytes_inj. }
  apply Hcut, fields_inj in He.
  - rewrite Forall_forall in He. apply map_eq. intros k.
    destruct (m1 !! k) as [g1|] eqn:Hg1.
    + assert (k ∈ (λ e, e.1.1) <$> ks) as ([[k' a] b]&->&Hin)%list_elem_of_fmap.
      { apply E3, elem_of_sorted_keys. by eexists. }
      destruct (E4 _ Hin) as [Ha Hb]. specialize (He _ Hin). simpl in *. congruence.
    + symmetry. apply eq_None_not_Some. rewrite <- Hdom, Hg1. by intros [? ?].
  - apply Forall_forall. intros [[k a] b] Hin. destruct (E4 _ Hin) as [Ha Hb]; simpl in *.
    split_and!; eauto.
Qed.

(** ** Finitely many hashes *)
Lemma length_all_groups N l : length (all_groups N l) = (S N ^ length l)%nat.
Proof.
  induction l as [|[k u] l IH]; [done|]. cbn [all_groups length Nat.pow].
  rewrite <- IH. generalize (all_groups N l) as ms.
  induction ms as [|m ms IHm]; cbn [mbind list_bind]; [simpl; lia|].
  rewrite length_app, IHm. cbn [length].
  enough (length (n ← seq 0 (S N); [<[k:=mkGroup (Z.of_nat n) u]> m]) = S N) by lia.
  generalize 0%nat. generalize (S N) as c.
  induction c as [|c IHc]; intros i; [done|]. cbn. f_equal. apply IHc.
Qed.

Lemma elem_of_all_groups N l : ∀ m : gmap string ServerGroup,
  NoDup l.*1 → Unschedulable <$> m = list_to_map l →
  (∀ k g, m !! k = Some g → 0 ≤ Size g ≤ Z.of_nat N) → m ∈ all_groups N l.
Proof.
  induction l as [|[k u] l IH]; intros m Hnd Hf Hs;
    cbn [all_groups]; csimpl in Hnd; csimpl in Hf.
  { apply fmap_empty_inv in Hf as ->. constructor. }
  apply NoDup_cons in Hnd as [Hk Hnd].
  assert (Unschedulable <$> m !! k = Some u) as Hmk.
  { by rewrite <- lookup_fmap, Hf, lookup_insert_eq. }
  apply fmap_Some in Hmk as (g&Hg&->).
  apply list_elem_of_bind. exists (delete k m). split.
  - apply list_elem_of_bind. exists (Z.to_nat (Size g)). specialize (Hs k g Hg). split.
    + rewrite Z2Nat.id by lia. rewrite list_elem_of_singleton, insert_delete_eq.
      rewrite insert_id; [done|]. by destruct g.
    + apply elem_of_seq. lia.
  - apply IH; [done| |].
    + rewrite fmap_delete, Hf. rewrite delete_insert_id; [done|].
      by apply not_elem_of_list_to_map_1.
    + intros k' g' [_ Hg']%lookup_delete_Some. by eapply Hs.
Qed.

(** ** The search from a fresh state *)
Lemma fresh_inv s : fresh_state s → state_inv s s.
Proof.
  intros [Hwf Hm Hmv _]. split; try done.
  - by rewrite Hmv.
  - rewrite Hmv. constructor.
  - intros n m Hn. rewrite (Hm n m Hn), Hmv. symmetry.
    apply bool_decide_eq_false. apply not_elem_of_nil.
  - intros n m Hn Hmoved. rewrite (Hm n m Hn) in Hmoved. done.
  - intros mv. rewrite Hmv. by intros []%not_elem_of_nil.
Qed.

Lemma inv_has_sched init s : state_inv init s → has_sched init → has_sched s.
Proof.
  intros Hinv (g&sg&Hsg). exists g. apply flags_sched. rewrite (inv_flags _ _ Hinv).
  apply flags_sched. by exists sg.
Qed.

Section search.
Context `{MapRange}.
Context (pos : list nat) (init : state) (Hfresh : fresh_state init).

Lemma inv_moved_schedulable s n m :
  state_inv init s → Members s !! n = Some m → Moved m = true →
  is_unschedulable s (mem_ServerGroup m) = false.
Proof.
  intros Hinv Hm Hmv. destruct (inv_settled _ _ Hinv n m Hm Hmv) as (sg&[Hg Hu]&_).
  unfold is_unschedulable. by rewrite Hg.
Qed.

Lemma step_good k s next :
  state_inv init s → state_Done s = false → next ∈ state_Move (pos ++ [k]) s →
  ∃ n m to, good_move s n m to ∧ next = move_member s n m to.
Proof.
  intros Hinv Hd Hn. eapply state_Move_sound; [apply Hinv| |done| |done].
  - eapply inv_has_sched; [done|apply Hfresh].
  - intros n m. by apply inv_moved_schedulable.
Qed.

Lemma reach_inv s : @reach _ (state_AStarable pos) init s → state_inv init s.
Proof.
  induction 1 as [|k s next _ IH Hd Hn]; [by apply fresh_inv|].
  destruct (step_good k s next IH Hd Hn) as (n&m&to&Hgm&->). by apply move_inv.
Qed.

(** Every hash the search can meet. *)
Definition all_hashes : gset string :=
  list_to_set (groups_Hash <$> all_groups (size (Members init)) (map_to_list (flags init))).

Lemma size_all_hashes : (size all_hashes ≤ search_bound init)%nat.
Proof.
  unfold all_hashes. etrans; [apply size_list_to_set_le|].
  rewrite length_fmap, length_all_groups, length_map_to_list.
  unfold search_bound, flags. by rewrite map_size_fmap.
Qed.

Lemma inv_hash s : state_inv init s → state_Hash s ∈ all_hashes.
Proof.
  intros Hinv. unfold all_hashes. apply elem_of_list_to_set, list_elem_of_fmap.
  exists (ServerGroups s). split; [done|]. apply elem_of_all_groups.
  - apply NoDup_fst_map_to_list.
  - rewrite list_to_map_to_list. apply (inv_flags _ _ Hinv).
  - intros k g Hg. rewrite <- (inv_dom _ _ Hinv).
    apply (wf_size_range s k g); [apply Hinv|done].
Qed.

Lemma measure_hash s t :
  state_inv init s → state_inv init t → state_Hash s = state_Hash t → measure s = measure t.
Proof.
  intros Hs Ht He. unfold measure. rewrite (inv_dom _ _ Hs), (inv_dom _ _ Ht). f_equal.
  apply groups_Hash_inj; [exact (eq_trans (inv_flags _ _ Hs) (eq_sym (inv_flags _ _ Ht)))| | |done].
  - intros k g Hg. apply (wf_size_range s k g); [apply Hs|done].
  - intros k g Hg. apply (wf_size_range t k g); [apply Ht|done].
Qed.

Lemma search_solves fuel :
  (search_bound init < fuel)%nat →
  ∃ s, @AStar _ (state_AStarable pos) fuel init = Some (Ok s) ∧ state_inv init s ∧ balanced s.
Proof.
  intros Hfuel.
  destruct (@AStar_solves _ (state_AStarable pos) init all_hashes fuel
    (λ s, Z.to_nat (measure s))) as (s&Hs&Hr&Hd).
  - intros s Hr%reach_inv. by apply inv_hash.
  - pose proof size_all_hashes. lia.
  - intros k s Hr%reach_inv Hd. apply state_Move_complete; [apply Hr| |done|apply Hr].
    eapply inv_has_sched; [done|apply Hfresh].
  - intros k s next Hr%reach_inv Hd Hn.
    destruct (step_good k s next Hr Hd Hn) as (n&m&to&Hgm&->).
    pose proof (move_measure s n m to (inv_wf _ _ Hr) Hgm).
    pose proof (measure_nonneg _ (move_wf s n m to (inv_wf _ _ Hr) Hgm)). lia.
  - intros s t Hs%reach_inv Ht%reach_inv He. f_equal. by apply measure_hash.
  - exists s. apply reach_inv in Hr. split_and!; [done..|].
    apply state_Done_spec; [apply Hr|eapply inv_has_sched; [done|apply Hfresh]|done].
Qed.
End search.

(** ** newState *)

Lemma add_members_spec group names s sg :
  state_wf s → ServerGroups s !! group = Some sg →
  NoDup names → (∀ n, n ∈ names → Members s !! n = None) →
  Z.of_nat (size (Members s) + length names) < MaxInt →
  let s' := fold_left (add_member group) names s in
  state_wf s' ∧ flags s' = flags s ∧ Moves s' = Moves s ∧
  size (Members s') = (size (Members s) + length names)%nat ∧
  (∀ n m, Members s' !! n = Some m ↔
     (n ∈ names ∧ m = mkMember group false) ∨ Members s !! n = Some m).
Proof.
  revert s sg. induction names as [|x names IH]; intros s sg Hwf Hg Hnd Hfresh Hb; simpl.
  { split_and!; [done..|lia|]. intros n m. set_solver. }
  apply NoDup_cons in Hnd as [Hx Hnd]. simpl in Hb.
  assert (Members s !! x = None) as Hxn by (apply Hfresh; constructor).
  pose proof (wf_size_range s group sg Hwf Hg) as Hr.
  assert (state_wf (add_member group s x)) as Hwf'.
  { split; simpl.
    - intros g sg' Hg'. rewrite count_insert_fresh by done. simpl.
      apply lookup_alter_Some in Hg' as [(<-&sg0&Hg0&->)|[Hne Hg']].
      + rewrite decide_True by done. simplify_eq. rewrite add_size_ok by (unfold MinInt, MaxInt in *; lia).
        simpl. rewrite (wf_size s Hwf group sg) by done. lia.
      + rewrite decide_False by done. rewrite (wf_size s Hwf g sg') by done. lia.
    - intros n m. rewrite lookup_insert_Some, lookup_alter_is_Some.
      intros [[<- <-]|[_ Hm]]; [by eexists|by apply (wf_group s Hwf n)].
    - rewrite map_size_insert_None by done. lia. }
  destruct (IH (add_member group s x) (add_size 1 sg)) as (H1&H2&H3&H4&H5).
  - done.
  - simpl. by rewrite lookup_alter_eq, Hg.
  - done.
  - intros n Hn. simpl. rewrite lookup_insert_ne by (intros ->; done).
    apply Hfresh. by constructor.
  - simpl. rewrite map_size_insert_None by done. lia.
  - split_and!; [done| |done| |].
    + rewrite H2. unfold flags. simpl. apply map_eq. intros g. rewrite !lookup_fmap.
      destruct (decide (g = group)) as [->|].
      * by rewrite lookup_alter_eq, Hg.
      * by rewrite lookup_alter_ne.
    + rewrite H4. simpl. rewrite map_size_insert_None by done. lia.
    + intros n m. rewrite H5. simpl. rewrite lookup_insert_Some, elem_of_cons.
      split; [intros [[??]|[[<- <-]|[??]]]; auto|].
      intros [[[->|?] ->]|Hm]; auto.
      destruct (decide (x = n)) as [->|]; [congruence|auto].
Qed.

Lemma add_group_spec u g l s :
  state_wf s → NoDup (servers l) → (∀ n, n ∈ servers l → Members s !! n = None) →
  Z.of_nat (size (Members s) + length (servers l)) < MaxInt →
  let s' := add_group u s (g, l) in
  state_wf s' ∧ Moves s' = Moves s ∧
  flags s' = (if decide (is_Some (flags s !! g)) then flags s else <[g := u]> (flags s)) ∧
  size (Members s') = (size (Members s) + length (servers l))%nat ∧
  (∀ n m, Members s' !! n = Some m ↔
     (n ∈ servers l ∧ m = mkMember g false) ∨ Members s !! n = Some m).
Proof.
  intros Hwf Hnd Hfresh Hb. unfold add_group.
  assert (flags s !! g = Unschedulable <$> ServerGroups s !! g) as Hfg
    by (unfold flags; by rewrite lookup_fmap).
  destruct (ServerGroups s !! g) as [sg|] eqn:Hg.
  - rewrite decide_True by (rewrite Hfg; by eexists).
    destruct (add_members_spec g (servers l) s sg) as (?&?&?&?&?); done.
  - rewrite decide_False by (rewrite Hfg; by intros [??]).
    set (s0 := mkState (Members s) (<[g:=mkGroup 0 u]> (ServerGroups s)) (Moves s)).
    assert (state_wf s0) as Hwf0.
    { split; simpl.
      - intros g' sg'. rewrite lookup_insert_Some. intros [[<- <-]|[Hne Hg']].
        + simpl. destruct (count g (Members s)) as [|c] eqn:Hc; [done|].
          destruct (proj1 (count_pos g (Members s))) as (n&m&Hm&Hmg); [lia|].
          destruct (wf_group s Hwf n m Hm) as [? E]. rewrite Hmg, Hg in E. done.
        + by apply (wf_size s Hwf).
      - intros n m Hm. apply lookup_insert_is_Some'. right. by apply (wf_group s Hwf n).
      - apply Hwf. }
    destruct (add_members_spec g (servers l) s0 (mkGroup 0 u)) as (?&Hf&?&?&?);
      [done|by apply lookup_insert_eq|done..|].
    split_and!; [done|done| |done|done].
    rewrite Hf. unfold flags, s0. simpl. by rewrite fmap_insert.
Qed.

Lemma add_groups_spec u (es : list (string * serverList)) : ∀ s,
  state_wf s → NoDup (es ≫= λ e, servers e.2) →
  (∀ n, n ∈ (es ≫= λ e, servers e.2) → Members s !! n = None) →
  Z.of_nat (size (Members s) + length (es ≫= λ e, servers e.2)) < MaxInt →
  let s' := fold_left (add_group u) es s in
  state_wf s' ∧ Moves s' = Moves s ∧
  size (Members s') = (size (Members s) + length (es ≫= λ e, servers e.2))%nat ∧
  (∀ k, flags s' !! k =
     match flags s !! k with Some b => Some b | None => if decide (k ∈ es.*1) then Some u else None end) ∧
  (∀ n m, Members s' !! n = Some m ↔
     (∃ g l, (g, l) ∈ es ∧ n ∈ servers l ∧ m = mkMember g false) ∨ Members s !! n = Some m).
Proof.
  induction es as [|[g l] es IH]; intros s Hwf Hnd Hfresh Hb;
    cbn [fold_left]; rewrite ?bind_cons, ?fmap_cons in *; cbn [fst snd] in *.
  { split_and!; [done..|simpl; lia| |].
    - intros k. destruct (flags s !! k); [done|]. by rewrite decide_False by apply not_elem_of_nil.
    - intros n m. split; [by right|]. intros [(?&?&[]%not_elem_of_nil&_)|?]. done. }
  rewrite length_app in *. apply NoDup_app in Hnd as (Hnd1&Hdisj&Hnd2).
  destruct (add_group_spec u g l s) as (H1&H2&H3&H4&H5); [done|done| |lia|].
  { intros n Hn. apply Hfresh, elem_of_app. by left. }
  destruct (IH (add_group u s (g, l))) as (I1&I2&I3&I4&I5); [done|done| |lia|].
  { intros n Hn. apply eq_None_not_Some. intros [m Hm]. apply H5 in Hm as [[Hn' _]|Hm].
    - by apply (Hdisj n).
    - rewrite Hfresh in Hm; [done|]. apply elem_of_app. by right. }
  split_and!; [done|by rewrite I2, H2|lia| |].
  - intros k. rewrite I4, H3. destruct (decide (is_Some (flags s !! g))) as [[b Hg]|Hg].
    + destruct (flags s !! k) eqn:Hk; [done|].
      apply decide_ext. rewrite elem_of_cons. split; [by right|].
      intros [->|?]; [congruence|done].
    + apply eq_None_not_Some in Hg. destruct (decide (k = g)) as [->|Hne].
      * rewrite lookup_insert_eq, Hg. by rewrite decide_True by constructor.
      * rewrite lookup_insert_ne by done. destruct (flags s !! k); [done|].
        apply decide_ext. rewrite elem_of_cons. tauto.
  - intros n m. rewrite I5, H5. setoid_rewrite elem_of_cons. split.
    + intros [(g'&l'&?&?&?)|[[??]|?]]; [left; eauto 6|left; eauto 6|by right].
    + intros [(g'&l'&[?|?]&?&?)|?]; [simplify_eq; auto|left; eauto|auto].
Qed.

Section newState.
Context `{MapRange}.
Context (pos : list nat) (sched : stripeSchedulerImpl) (class : string).

Lemma newState_eq :
  newState pos sched class =
  fold_left (add_group true)
    (range (pos ++ [1%nat]) (class_map (unschedulableServerClasses sched) class))
    (fold_left (add_group false)
      (range (pos ++ [0%nat]) (class_map (serverClasses sched) class)) (mkState ∅ ∅ [])).
Proof.
  unfold newState, class_map.
  assert (∀ p, range p (∅ : groupMap) = []) as Hnil.
  { intros p. pose proof (range_perm p (∅ : groupMap)) as Hp.
    rewrite map_to_list_empty in Hp. symmetry in Hp. by apply Permutation_nil in Hp. }
  destruct (serverClasses sched !! class), (unschedulableServerClasses sched !! class);
    by rewrite ?Hnil.
Qed.

Lemma range_servers p (m : groupMap) :
  (range p m ≫= λ e, servers e.2) ≡ₚ all_servers m.
Proof. unfold all_servers. by rewrite range_perm. Qed.

Lemma newState_spec :
  NoDup (class_pods sched class) → Z.of_nat (length (class_pods sched class)) < MaxInt →
  let s := newState pos sched class in
  let m1 := class_map (serverClasses sched) class in
  let m2 := class_map (unschedulableServerClasses sched) class in
  state_wf s ∧ Moves s = [] ∧
  size (Members s) = length (class_pods sched class) ∧
  (∀ k, flags s !! k = if decide (is_Some (m1 !! k)) then Some false
                       else if decide (is_Some (m2 !! k)) then Some true else None) ∧
  (∀ n m, Members s !! n = Some m ↔
     ∃ g l, (m1 !! g = Some l ∨ m2 !! g = Some l) ∧ n ∈ servers l ∧ m = mkMember g false).
Proof.
  unfold class_pods. intros Hnd Hb.
  set (m1 := class_map (serverClasses sched) class) in *.
  set (m2 := class_map (unschedulableServerClasses sched) class) in *. cbv zeta.
  rewrite newState_eq. fold m1 m2.
  apply NoDup_app in Hnd as (Hnd1&Hdisj&Hnd2). rewrite length_app in Hb.
  assert (∀ p (m : groupMap) k, k ∈ (range p m).*1 ↔ is_Some (m !! k)) as Hkeys.
  { intros p m k. rewrite range_perm, list_elem_of_fmap. split.
    - intros ([k' v]&->&Hk%elem_of_map_to_list). by eexists.
    - intros [v Hv]. exists (k, v). by rewrite elem_of_map_to_list. }
  destruct (add_groups_spec false (range (pos ++ [0%nat]) m1) (mkState ∅ ∅ []))
    as (H1&H2&H3&H4&H5).
  { split; simpl; [by intros ?? []%lookup_empty_Some..|done]. }
  { by rewrite range_servers. }
  { intros n _. apply lookup_empty. }
  { simpl. rewrite map_size_empty, range_servers. lia. }
  set (s1 := fold_left (add_group false) (range (pos ++ [0%nat]) m1) (mkState ∅ ∅ [])) in *.
  simpl in H3. rewrite map_size_empty, range_servers in H3.
  destruct (add_groups_spec true (range (pos ++ [1%nat]) m2) s1) as (I1&I2&I3&I4&I5).
  { done. }
  { by rewrite range_servers. }
  { intros n. rewrite range_servers. intros Hn. apply eq_None_not_Some. intros [m Hm].
    apply H5 in Hm as [(g&l&Hg%elem_of_range&Hn'&_)|Hm]; [|by apply (lookup_empty_Some n m) in Hm].
    apply (Hdisj n); [|done]. apply elem_of_all_servers. by exists g, l. }
  { rewrite H3, range_servers. lia. }
  split_and!; [done|by rewrite I2, H2| | |].
  - rewrite I3, H3, range_servers, length_app. lia.
  - intros k. rewrite I4, H4. unfold flags at 1. simpl.
    rewrite lookup_fmap, lookup_empty. simpl.
    repeat case_decide; rewrite ?Hkeys in *; tauto || done.
  - intros n m. rewrite I5, H5. setoid_rewrite elem_of_range. split.
    + intros [(g&l&?&?&?)|[(g&l&?&?&?)|Hm]]; [eauto 7|eauto 7|].
      by apply (lookup_empty_Some n m) in Hm.
    + intros (g&l&[?|?]&?&?); [right; left; eauto|left; eauto].
Qed.

Lemma newState_fresh :
  NoDup (class_pods sched class) → Z.of_nat (length (class_pods sched class)) < MaxInt →
  class_map (serverClasses sched) class ≠ ∅ →
  fresh_state (newState pos sched class).
Proof.
  intros Hnd Hb Hne. destruct (newState_spec Hnd Hb) as (H1&H2&_&H4&H5). split; [done| |done|].
  - intros n m (g&l&_&_&->)%H5. done.
  - apply map_choose in Hne as (k&l&Hk). exists k. apply flags_sched.
    rewrite H4, decide_True; [done|]. by eexists.
Qed.
End newState.

(** ** Rescheduling a class *)
Lemma elem_of_group_placement (m : groupMap) n g :
  (n, g) ∈ group_placement m ↔ ∃ l, m !! g = Some l ∧ n ∈ servers l.
Proof.
  unfold group_placement. rewrite list_elem_of_bind. split.
  - intros ([g' l]&Hn&Hg%elem_of_map_to_list). apply list_elem_of_fmap in Hn as (n'&[= -> ->]&?).
    by exists l.
  - intros (l&Hg&Hn). exists (g, l). rewrite elem_of_map_to_list. split; [|done].
    apply list_elem_of_fmap. by exists n.
Qed.

Lemma group_placement_names m : (group_placement m).*1 = all_servers m.
Proof.
  unfold group_placement, all_servers. induction (map_to_list m) as [|[g l] es IH]; [done|].
  rewrite !bind_cons, fmap_app, IH. f_equal. rewrite <- list_fmap_compose.
  by rewrite (list_fmap_ext _ id), list_fmap_id.
Qed.

Lemma class_placement_Some sched class n g :
  NoDup (class_pods sched class) →
  class_placement sched class !! n = Some g ↔
  ∃ l, (class_map (serverClasses sched) class !! g = Some l ∨
        class_map (unschedulableServerClasses sched) class !! g = Some l) ∧ n ∈ servers l.
Proof.
  intros Hnd. unfold class_placement. rewrite <- elem_of_list_to_map.
  - rewrite elem_of_app, !elem_of_group_placement. naive_solver.
  - by rewrite fmap_app, !group_placement_names.
Qed.

Lemma population_count g s : population g (placement s) = count g (Members s).
Proof.
  unfold population, count, placement. rewrite map_filter_fmap, map_size_fmap. done.
Qed.

Section class.
Context `{MapRange}.
Implicit Types sched : stripeSchedulerImpl.

Lemma newState_placement pos sched class :
  class_ok sched class → placement (newState pos sched class) = class_placement sched class.
Proof.
  intros (Hnd&Hb&_). destruct (newState_spec pos sched class Hnd Hb) as (_&_&_&_&Hm).
  apply map_eq. intros n. apply option_eq. intros g.
  rewrite class_placement_Some by done. unfold placement. rewrite lookup_fmap, fmap_Some.
  setoid_rewrite Hm. naive_solver.
Qed.

Lemma flags_groups pos sched class g :
  class_ok sched class →
  flags (newState pos sched class) !! g = Some false ↔
  is_Some (class_map (serverClasses sched) class !! g).
Proof.
  intros (Hnd&Hb&_). destruct (newState_spec pos sched class Hnd Hb) as (_&_&_&Hf&_).
  rewrite Hf. repeat case_decide; naive_solver.
Qed.

(** A balanced state reached from [newState] gives the goal. *)
Lemma balanced_goal pos sched class s :
  class_ok sched class → state_inv (newState pos sched class) s → balanced s →
  class_goal sched class (Moves s).
Proof.
  intros Hok Hinv [Hun Hbal]. split_and!; [apply Hinv| |].
  - intros mv Hmv. destruct (inv_to _ _ Hinv mv Hmv) as [? Hto]. split; [done|].
    by apply (flags_groups pos).
  - exists (placement s). split_and!.
    + rewrite <- (newState_placement pos) by done. apply Hinv.
    + intros n g Hng. unfold placement in Hng. rewrite lookup_fmap, fmap_Some in Hng.
      destruct Hng as (m&Hm&->). apply (flags_groups pos); [done|].
      rewrite <- (inv_flags _ _ Hinv). apply flags_sched.
      destruct (wf_group s (inv_wf _ _ Hinv) n m Hm) as [sg Hsg]. exists sg. split; [done|].
      specialize (Hun n m Hm). unfold is_unschedulable in Hun. by rewrite Hsg in Hun.
    + intros g g' Hg Hg'.
      apply (flags_groups pos) in Hg, Hg'; [|done..]. rewrite <- (inv_flags _ _ Hinv) in Hg, Hg'.
      apply flags_sched in Hg as [sg Hg], Hg' as [sg' Hg'].
      specialize (Hbal _ _ _ _ Hg Hg'). rewrite !population_count.
      rewrite (wf_size s (inv_wf _ _ Hinv) g sg), (wf_size s (inv_wf _ _ Hinv) g' sg') in Hbal;
        [lia|apply Hg'|apply Hg].
Qed.

Lemma newState_bound pos sched class :
  class_ok sched class →
  (search_bound (newState pos sched class) ≤ reschedule_bound sched class)%nat.
Proof.
  intros (Hnd&Hb&_). destruct (newState_spec pos sched class Hnd Hb) as (_&_&Hsz&Hf&_).
  unfold search_bound, reschedule_bound. rewrite Hsz. apply Nat.pow_le_mono_r; [lia|].
  rewrite <- !size_dom. rewrite <- (dom_fmap_L Unschedulable).
  change (Unschedulable <$> ServerGroups (newState pos sched class))
    with (flags (newState pos sched class)).
  etrans; [apply subseteq_size|apply size_union_le].
  intros g [b Hg]%elem_of_dom. rewrite Hf in Hg. apply elem_of_union. rewrite !elem_of_dom.
  repeat case_decide; naive_solver.
Qed.
End class.

(** ** The loop over the classes *)
Section loop.
Context `{MapRange}.
Implicit Types sched : stripeSchedulerImpl.

Lemma done_goal pos sched class :
  class_ok sched class → state_Done (newState pos sched class) = true →
  class_goal sched class [].
Proof.
  intros Hok Hd. pose proof Hok as (Hnd&Hb&Hne).
  pose proof (newState_fresh pos sched class Hnd Hb Hne) as Hf.
  rewrite <- (fresh_moves _ Hf). apply (balanced_goal pos); [done|by apply fresh_inv|].
  by apply state_Done_spec; [apply Hf..|].
Qed.

Lemma reschedule_loop_goal pos fuel sched classes : ∀ n moves,
  (∀ class, class ∈ classes → class_ok sched class ∧ (reschedule_bound sched class < fuel)%nat) →
  ∃ mvs, Forall2 (class_goal sched) classes mvs ∧
    reschedule_loop pos n fuel sched classes moves = Some (Ok (moves ++ mjoin mvs)).
Proof.
  induction classes as [|class classes IH]; intros n moves Hall; simpl.
  { exists []. split; [constructor|]. simpl. by rewrite app_nil_r. }
  destruct (Hall class) as [Hok Hfuel]; [constructor|].
  assert (∀ class, class ∈ classes → class_ok sched class ∧
    (reschedule_bound sched class < fuel)%nat) as Hall' by (intros; apply Hall; by constructor).
  destruct (state_Done _) eqn:Hd.
  - destruct (IH (S n) moves Hall') as (mvs&Hm&->). exists ([] :: mvs).
    split; [|done]. constructor; [|done]. by eapply done_goal.
  - pose proof Hok as (Hnd&Hb&Hne).
    pose proof (newState_fresh (pos ++ [n; 0%nat]) sched class Hnd Hb Hne) as Hf.
    pose proof (newState_bound (pos ++ [n; 0%nat]) sched class Hok) as Hbound.
    destruct (search_solves (pos ++ [n; 1%nat]) _ Hf fuel) as (s&->&Hinv&Hbal); [lia|].
    destruct (IH (S n) (moves ++ Moves s) Hall') as (mvs&Hm&->).
    exists (Moves s :: mvs). split; [|simpl; by rewrite app_assoc].
    constructor; [|done]. by eapply balanced_goal.
Qed.

Lemma elem_of_range_keys {V} pos (m : gmap string V) k :
  k ∈ (range pos m).*1 ↔ is_Some (m !! k).
Proof.
  rewrite range_perm, list_elem_of_fmap. split.
  - intros ([k' v]&->&Hk%elem_of_map_to_list). by eexists.
  - intros [v Hv]. exists (k, v). by rewrite elem_of_map_to_list.
Qed.

Lemma elem_of_knownClasses sched class :
  is_Some (knownClasses sched !! class) ↔
  is_Some (serverClasses sched !! class) ∨ is_Some (unschedulableServerClasses sched !! class).
Proof.
  unfold knownClasses. rewrite lookup_union_is_Some, !lookup_fmap, !fmap_is_Some. done.
Qed.
End loop.

(** ** The simplified reschedule *)
Section unschedulable.
Context `{MapRange}.

(** The groups while the moves are generated: flags never change, some
    schedulable group always has size [minSize]. *)
Definition gen_inv (s : state) (acc : list Scheduler.Move * gmap string ServerGroup * Z) : Prop :=
  Unschedulable <$> acc.1.2 = flags s ∧
  ∃ g sg, acc.1.2 !! g = Some sg ∧ Unschedulable sg = false ∧ Size sg = acc.2.

Lemma step_spec pos s acc i n m :
  gen_inv s acc → is_Some (flags s !! mem_ServerGroup m) →
  let acc' := unschedulable_step pos acc i (n, m) in
  gen_inv s acc' ∧
  if is_unschedulable s (mem_ServerGroup m) then
    ∃ to, acc'.1.1 = acc.1.1 ++ [mkMove n (mem_ServerGroup m) to] ∧ flags s !! to = Some false ∧
      ∃ sg, acc.1.2 !! to = Some sg ∧ Size sg = acc.2 ∧
        acc'.1.2 = <[to := add_size 1 sg]> acc.1.2 ∧ acc'.2 = Size (add_size 1 sg)
  else acc' = acc.
Proof.
  destruct acc as [[moves groups] minSize]. intros [Hf (g&sg&Hg&Hu&Hs)] [b Hb]; simpl in *.
  unfold is_unschedulable. rewrite <- Hf, lookup_fmap in Hb.
  apply fmap_Some in Hb as (fg&Hfg&->). rewrite Hfg.
  assert (Unschedulable <$> ServerGroups s !! mem_ServerGroup m = Some (Unschedulable fg)) as Hfs.
  { change (flags s) with (Unschedulable <$> ServerGroups s) in Hf.
    by rewrite <- lookup_fmap, <- Hf, lookup_fmap, Hfg. }
  apply fmap_Some in Hfs as (fg'&->&<-). destruct (Unschedulable fg) eqn:Efg; simpl.
  - destruct (list_find _ _) as [[j [to tsg]]|] eqn:Hfind.
    + apply list_find_Some in Hfind as (Hj&[Htu Hts]&_). simpl in *.
      apply list_elem_of_lookup_2, elem_of_range in Hj. split.
      * split; simpl; [|exists to; eexists; split_and!; [by apply lookup_insert_eq|done|done]].
        rewrite <- Hf, fmap_insert. apply insert_id. by rewrite lookup_fmap, Hj.
      * exists to. split_and!; [done| |by exists tsg].
        rewrite <- Hf, lookup_fmap, Hj. simpl. by rewrite Htu.
    + exfalso. apply list_find_None in Hfind. rewrite Forall_forall in Hfind.
      apply (Hfind (g, sg)); [by apply elem_of_range|done].
  - split; [|done]. split; [done|by exists g, sg].
Qed.

Lemma unschedulable_loop_spec pos s members : ∀ i acc,
  gen_inv s acc → (∀ e, e ∈ members → is_Some (flags s !! mem_ServerGroup e.2)) →
  ∃ mvs, (unschedulable_loop pos i members acc).1.1 = acc.1.1 ++ mvs ∧
    (λ mv, (Move_Name mv, Move_From mv)) <$> mvs =
      (λ e, (e.1, mem_ServerGroup e.2)) <$>
        filter (λ e, is_unschedulable s (mem_ServerGroup e.2) = true) members ∧
    ∀ mv, mv ∈ mvs → flags s !! Move_To mv = Some false.
Proof.
  induction members as [|[n m] members IH]; intros i acc Hinv Hm; cbn [unschedulable_loop].
  { exists []. rewrite app_nil_r. split_and!; [done..|]. by intros ? []%not_elem_of_nil. }
  destruct (step_spec pos s acc i n m Hinv) as [Hinv' Hstep]; [apply (Hm (n, m)); constructor|].
  destruct (IH (S i) (unschedulable_step pos acc i (n, m)) Hinv') as (mvs&E1&E2&E3).
  { intros e He. apply Hm. by constructor. }
  rewrite filter_cons. simpl. destruct (is_unschedulable s (mem_ServerGroup m)) eqn:Hu.
  - destruct Hstep as (to&Hto&Hfl&_). exists (mkMove n (mem_ServerGroup m) to :: mvs).
    rewrite E1, Hto, <- app_assoc. csimpl. rewrite E2. split_and!; [done..|].
    intros mv [->|Hmv]%elem_of_cons; [done|by apply E3].
  - rewrite Hstep in *. by exists mvs.
Qed.

(** [minSize] is the size of a smallest schedulable group. *)
Lemma min_schedulable_step l : ∀ mn,
  fold_left min_schedulable l mn = fold_left min_step l mn.
Proof.
  induction l as [|x l IH]; intros mn; [done|]. cbn [fold_left].
  unfold min_schedulable at 2, min_step at 2.
  destruct (Unschedulable x); simpl; [apply IH|]. apply IH.
Qed.

Lemma generate_spec pos s :
  state_wf s → has_sched s →
  (λ mv, (Move_Name mv, Move_From mv)) <$> generateUnschedulableMoves pos s ≡ₚ
    (λ e, (e.1, mem_ServerGroup e.2)) <$>
      filter (λ e, is_unschedulable s (mem_ServerGroup e.2) = true) (map_to_list (Members s)) ∧
  ∀ mv, mv ∈ generateUnschedulableMoves pos s → flags s !! Move_To mv = Some false.
Proof.
  intros Hwf Hs. unfold generateUnschedulableMoves. rewrite min_schedulable_step.
  destruct (score_ok (pos ++ [0%nat]) s Hwf Hs) as (min&max&u&Hsc&(_&Hmin&_)&Hr&Hb).
  unfold score in Hsc. rewrite score_fold in Hsc. injection Hsc as Hsc _ _. rewrite Hsc.
  pose proof (wf_bound s Hwf). rewrite bool_decide_eq_false_2 by (unfold MaxInt in *; lia).
  destruct (unschedulable_loop_spec (pos ++ [1%nat]) s (range (pos ++ [1%nat]) (Members s)) 0
    ([], ServerGroups s, min)) as (mvs&E1&E2&E3).
  - split; [done|]. destruct Hmin as (g&sg&[??]&?). by exists g, sg.
  - intros [n m] Hm%elem_of_range. simpl. unfold flags. rewrite lookup_fmap, fmap_is_Some.
    by eapply wf_group.
  - rewrite E1. simpl. split; [|done]. rewrite E2. by rewrite range_perm.
Qed.
End unschedulable.

Section rescue.
Context `{MapRange}.
Implicit Types sched : stripeSchedulerImpl.

Lemma hasUnschedulablePods_spec pos s :
  state_wf s →
  hasUnschedulablePods pos s = false →
  filter (λ e, is_unschedulable s (mem_ServerGroup e.2) = true) (map_to_list (Members s)) = [].
Proof.
  intros Hwf Hno. apply filter_none. intros [n m] Hm%elem_of_map_to_list. simpl. intros Hu.
  unfold is_unschedulable in Hu.
  destruct (ServerGroups s !! mem_ServerGroup m) as [sg|] eqn:Hg; [|done].
  enough (hasUnschedulablePods pos s = true) by congruence.
  unfold hasUnschedulablePods. apply existsb_exists. exists (mem_ServerGroup m, sg). split.
  - apply list_elem_of_In. by apply elem_of_range.
  - simpl. rewrite Hu. simpl. apply bool_decide_eq_true.
    rewrite (wf_size s Hwf _ _ Hg).
    enough (0 < count (mem_ServerGroup m) (Members s))%nat by lia.
    apply count_pos. by exists n, m.
Qed.

Lemma unschedulable_placement pos sched class :
  class_ok sched class →
  let s := newState pos sched class in
  (λ e, (e.1, mem_ServerGroup e.2)) <$>
    filter (λ e, is_unschedulable s (mem_ServerGroup e.2) = true) (map_to_list (Members s)) ≡ₚ
  filter (λ e, class_map (serverClasses sched) class !! e.2 = None)
    (map_to_list (class_placement sched class)).
Proof.
  intros Hok s. rewrite <- (newState_placement pos) by done. fold s. unfold placement.
  rewrite map_to_list_fmap.
  rewrite (filter_fmap_ext _ _ (λ e, is_unschedulable s (mem_ServerGroup e.2) = true)).
  - by rewrite (list_fmap_ext _ (prod_map id mem_ServerGroup)).
  - intros [n m] Hm%elem_of_map_to_list. simpl.
    destruct Hok as (Hnd&Hb&_). destruct (newState_spec pos sched class Hnd Hb) as (Hwf&_&_&Hf&_).
    specialize (Hf (mem_ServerGroup m)). fold s in Hf, Hwf.
    destruct (wf_group s Hwf n m Hm) as [sg Hsg]. unfold is_unschedulable. rewrite Hsg.
    unfold flags in Hf. rewrite lookup_fmap, Hsg in Hf. simpl in Hf.
    repeat case_decide; simplify_eq.
    + rewrite Hf. split; [|done]. intros E. rewrite E in *. by destruct H0.
    + rewrite Hf. split; [done|]. intros _. by apply eq_None_not_Some.
Qed.

Lemma rescue_loop pos sched classes : ∀ n moves,
  (∀ class, class ∈ classes → class_ok sched class) →
  ∃ mvs, unschedulable_only_loop pos n sched classes moves = moves ++ mjoin mvs ∧
    Forall2 (rescue_goal sched) classes mvs.
Proof.
  induction classes as [|class classes IH]; intros n moves Hcl; cbn [unschedulable_only_loop].
  { exists []. simpl. rewrite app_nil_r. split; [done|constructor]. }
  assert (class_ok sched class) as Hc by (apply Hcl; constructor).
  assert (∀ class, class ∈ classes → class_ok sched class) as Hcl'
    by (intros; apply Hcl; by constructor).
  pose proof Hc as (Hnd&Hb&Hne).
  pose proof (newState_fresh (pos ++ [n; 0%nat]) sched class Hnd Hb Hne) as [Hwf _ _ Hs].
  pose proof (unschedulable_placement (pos ++ [n; 0%nat]) sched class Hc) as Hp. cbv zeta in Hp.
  destruct (hasUnschedulablePods _ _) eqn:Hu.
  - destruct (generate_spec (pos ++ [n; 2%nat]) _ Hwf Hs) as [Hg1 Hg2].
    edestruct (IH (S n)) as (mvs&E&Hf); [done|].
    eexists (_ :: mvs). split; [rewrite E; simpl; by rewrite <- app_assoc|].
    constructor; [|done]. split; [by rewrite Hg1|]. intros mv Hmv.
    by apply (flags_groups (pos ++ [n; 0%nat])), Hg2.
  - destruct (IH (S n) moves) as (mvs&E&Hf); [done|].
    exists ([] :: mvs). split; [done|]. constructor; [|done]. split.
    + rewrite (hasUnschedulablePods_spec _ _ Hwf Hu) in Hp.
      apply Permutation_nil in Hp. simpl. by rewrite Hp.
    + intros mv []%not_elem_of_nil.
Qed.
End rescue.

(** ** Piling up *)
Section piles.
Context `{MapRange}.

(** [to] is the only schedulable group that has size [minSize]; the others are
    smaller. *)
Definition piled (to : string) (acc : list Scheduler.Move * gmap string ServerGroup * Z) : Prop :=
  ∀ g sg, acc.1.2 !! g = Some sg → Unschedulable sg = false →
    (g = to ∧ Size sg = acc.2) ∨ Size sg < acc.2.

Lemma step_piled pos s acc i n m to :
  gen_inv s acc → is_Some (flags s !! mem_ServerGroup m) → 0 ≤ acc.2 < MaxInt →
  is_unschedulable s (mem_ServerGroup m) = true →
  piled to acc ∨ (∀ g sg, acc.1.2 !! g = Some sg → Unschedulable sg = false → Size sg = acc.2) →
  let acc' := unschedulable_step pos acc i (n, m) in
  ∃ to', acc'.1.1 = acc.1.1 ++ [mkMove n (mem_ServerGroup m) to'] ∧ piled to' acc' ∧
    acc'.2 = acc.2 + 1 ∧ (piled to acc → to' = to).
Proof.
  intros Hinv Hm Hb Hu Hcase acc'.
  destruct (step_spec pos s acc i n m Hinv Hm) as [_ Hstep]. rewrite Hu in Hstep.
  destruct Hstep as (to'&Hmv&Hfl&sg&Hsg&Hsz&Hgr&Hmin). fold acc' in Hmv, Hgr, Hmin.
  rewrite add_size_ok in Hgr, Hmin by (unfold MinInt, MaxInt in *; lia). simpl in Hmin.
  assert (Unschedulable sg = false) as Hsu.
  { destruct Hinv as [Hf _]. rewrite <- Hf, lookup_fmap, Hsg in Hfl. by injection Hfl. }
  assert (piled to acc → to' = to) as Hto.
  { intros Hp. destruct (Hp to' sg Hsg Hsu) as [[??]|?]; [done|lia]. }
  exists to'. split_and!; [done| |by rewrite Hmin, Hsz|done].
  intros g sg' Hg Hgu. rewrite Hgr in Hg. rewrite Hmin.
  apply lookup_insert_Some in Hg as [[<- <-]|[Hne Hg]]; [by left|right].
  destruct Hcase as [Hp|Heq].
  - destruct (Hp g sg' Hg Hgu) as [[-> _]|?]; [|lia]. by rewrite (Hto Hp) in Hne.
  - rewrite (Heq g sg' Hg Hgu). lia.
Qed.

Lemma loop_piled pos s members : ∀ i acc to,
  gen_inv s acc → (∀ e, e ∈ members → is_Some (flags s !! mem_ServerGroup e.2)) →
  0 ≤ acc.2 → acc.2 + Z.of_nat (length members) < MaxInt →
  piled to acc ∨ (∀ g sg, acc.1.2 !! g = Some sg → Unschedulable sg = false → Size sg = acc.2) →
  ∃ to' mvs, (unschedulable_loop pos i members acc).1.1 = acc.1.1 ++ mvs ∧
    (∀ mv, mv ∈ mvs → Move_To mv = to') ∧ (piled to acc → to' = to).
Proof.
  induction members as [|[n m] members IH]; intros i acc to Hinv Hm Hpos Hb Hcase;
    cbn [unschedulable_loop].
  { exists to, []. rewrite app_nil_r. split_and!; [done| |done]. by intros ? []%not_elem_of_nil. }
  cbn [length] in Hb.
  assert (∀ e, e ∈ members → is_Some (flags s !! mem_ServerGroup e.2)) as Hm'
    by (intros; apply Hm; by constructor).
  assert (is_Some (flags s !! mem_ServerGroup m)) as Hfm by (apply (Hm (n, m)); constructor).
  destruct (step_spec pos s acc i n m Hinv Hfm) as [Hinv' Hstep].
  destruct (is_unschedulable s (mem_ServerGroup m)) eqn:Hu.
  - destruct (step_piled pos s acc i n m to Hinv Hfm) as (to'&Hmv&Hp&Hacc&Hto); [lia|done|done|].
    destruct (IH (S i) _ to' Hinv' Hm') as (to2&mvs&E1&E2&E3); [lia|lia|by left|].
    exists to', (mkMove n (mem_ServerGroup m) to' :: mvs). split_and!.
    + by rewrite E1, Hmv, <- app_assoc.
    + intros mv [->|Hin]%elem_of_cons; [done|]. rewrite <- (E3 Hp). by apply E2.
    + done.
  - rewrite Hstep in *. apply IH; [done..|lia|done].
Qed.
End piles.

(** ** Properties *)

(** A class with two groups and five pods, two of them in a group that left the
    specification. *)
Definition lexical (l : list (string * list string)) : serverGroups :=
  Lexical (list_to_map ((λ e, (e.1, ServerList e.2)) <$> l)).
Definition sched_example : stripeSchedulerImpl :=
  StripeScheduler {["data" := lexical [("a", ["p0"; "p1"; "p2"]); ("b", [])]]}
    {["data" := lexical [("z", ["p3"; "p4"])]]} ∅ ∅ ∅ "zone".

(** C24: [Reschedule] converges.  When every known class has distinct pods and a
    group in the specification, a search with enough fuel always succeeds: the
    moves of a class can be executed from its current placement, move no pod
    twice, and leave every pod in a group of the specification with group
    populations that differ by at most one. *)
Theorem Reschedule_converges `{MapRange} pos sched fuel
    (Hok : ∀ class, is_Some (knownClasses sched !! class) →
       class_ok sched class ∧ (reschedule_bound sched class < fuel)%nat) :
  ∃ classes mvs, classes ≡ₚ (map_to_list (knownClasses sched)).*1 ∧
    Forall2 (class_goal sched) classes mvs ∧
    stripe_Reschedule pos fuel sched = Some (Ok (mjoin mvs)).
Proof.
  exists (range (pos ++ [0%nat]) (knownClasses sched)).*1.
  destruct (reschedule_loop_goal pos fuel sched (range (pos ++ [0%nat]) (knownClasses sched)).*1
    0 []) as (mvs&Hm&Hr).
  { intros class Hc%elem_of_range_keys. by apply Hok. }
  exists mvs. split_and!; [by rewrite range_perm|done|exact Hr].
Qed.

Lemma sched_example_ok class :
  is_Some (knownClasses sched_example !! class) →
  class_ok sched_example class ∧ (reschedule_bound sched_example class < 300)%nat.
Proof.
  intros Hc. assert (class = "data") as ->.
  { apply elem_of_knownClasses in Hc as [[l Hl]|[l Hl]]; simpl in Hl;
      by apply lookup_singleton_Some in Hl as [<- _]. }
  split; [|vm_compute; lia]. split_and!.
  - apply (bool_decide_unpack _). vm_compute. exact I.
  - vm_compute. reflexivity.
  - intros E. apply (f_equal size) in E. vm_compute in E. done.
Qed.

Lemma Reschedule_converges_witness :
  ∃ mvs, Forall2 (class_goal sched_example) ["data"] mvs ∧
    @stripe_Reschedule canonical_range [] 300 sched_example = Some (Ok (mjoin mvs)).
Proof.
  destruct (@Reschedule_converges canonical_range [] sched_example 300 sched_example_ok)
    as (classes&mvs&Hc&Hf&Hr).
  exists mvs. split; [|exact Hr]. 
  assert (classes = ["data"]) as ->; [|exact Hf].
  apply Permutation_singleton_r. rewrite Hc. vm_compute. reflexivity.
Defined.

(** The moves of the example: each of the two stranded pods goes to the smallest
    group, after which nothing needs to move. *)
Example Reschedule_example :
  @stripe_Reschedule canonical_range [] 300 sched_example =
  Some (Ok [mkMove "p3" "z" "b"; mkMove "p4" "z" "b"]).
Proof. vm_compute. reflexivity. Qed.

(** The simplified reschedule of an unstable cluster moves exactly the pods
    whose group left the specification, each once and from where it is, to groups
    of the specification, when the classes with unschedulable pods have distinct
    pods and a group in the specification. *)
Theorem RescheduleUnschedulableOnly_rescues `{MapRange} pos sched
    (Hok : ∀ class, is_Some (unschedulableServerClasses sched !! class) → class_ok sched class) :
  ∃ classes mvs, classes ≡ₚ (map_to_list (unschedulableServerClasses sched)).*1 ∧
    stripe_RescheduleUnschedulableOnly pos sched = Ok (mjoin mvs) ∧
    Forall2 (rescue_goal sched) classes mvs.
Proof.
  exists (range (pos ++ [0%nat]) (unschedulableServerClasses sched)).*1.
  destruct (rescue_loop pos sched (range (pos ++ [0%nat]) (unschedulableServerClasses sched)).*1
    0 []) as (mvs&E&Hf).
  { intros class Hc%elem_of_range_keys. by apply Hok. }
  exists mvs. split_and!; [by rewrite range_perm| |done].
  unfold stripe_RescheduleUnschedulableOnly. by rewrite E.
Qed.

Lemma RescheduleUnschedulableOnly_rescues_witness :
  ∃ mvs, @stripe_RescheduleUnschedulableOnly canonical_range [] sched_example = Ok (mjoin mvs) ∧
    Forall2 (rescue_goal sched_example) ["data"] mvs.
Proof.
  destruct (@RescheduleUnschedulableOnly_rescues canonical_range [] sched_example)
    as (classes&mvs&Hc&Hr&Hf).
  { intros class Hc. apply sched_example_ok, elem_of_knownClasses. by right. }
  exists mvs. split; [exact Hr|]. assert (classes = ["data"]) as ->; [|exact Hf].
  apply Permutation_singleton_r. rewrite Hc. vm_compute. reflexivity.
Defined.

(** The simplified reschedule does not balance: when the schedulable groups of
    a class have equal sizes it sends every unschedulable pod to one and the same
    group, however many there are. *)
Theorem generateUnschedulableMoves_piles `{MapRange} pos s
    (Hwf : state_wf s) (Hs : has_sched s) (Hb : 2 * Z.of_nat (size (Members s)) < MaxInt)
    (Heq : ∀ g sg g' sg', sched s g sg → sched s g' sg' → Size sg = Size sg') :
  ∃ to, ∀ mv, mv ∈ generateUnschedulableMoves pos s → Move_To mv = to.
Proof.
  unfold generateUnschedulableMoves. rewrite min_schedulable_step.
  destruct (score_ok (pos ++ [0%nat]) s Hwf Hs) as (min&max&u&Hsc&(_&Hmin&_)&Hr&Hb').
  unfold score in Hsc. rewrite score_fold in Hsc. injection Hsc as Hsc _ _. rewrite Hsc.
  pose proof (wf_bound s Hwf). rewrite bool_decide_eq_false_2 by (unfold MaxInt in *; lia).
  destruct Hmin as (g0&sg0&Hg0&Hm0).
  destruct (loop_piled (pos ++ [1%nat]) s (range (pos ++ [1%nat]) (Members s)) 0
    ([], ServerGroups s, min) "") as (to&mvs&E1&E2&_).
  - split; [done|]. destruct Hg0. by exists g0, sg0.
  - intros [n m] Hm%elem_of_range. simpl. unfold flags. rewrite lookup_fmap, fmap_is_Some.
    by eapply wf_group.
  - simpl. lia.
  - simpl. rewrite range_perm, length_map_to_list. lia.
  - right. intros g sg Hg Hu. simpl. rewrite <- Hm0. by eapply Heq.
  - exists to. rewrite E1. exact E2.
Qed.

(** Two empty groups and four stranded pods. *)
Definition piles_example : state :=
  mkState
    (list_to_map ((λ n, (n, mkMember "z" false)) <$> ["p0"; "p1"; "p2"; "p3"]))
    (list_to_map [("a", mkGroup 0 false); ("b", mkGroup 0 false); ("z", mkGroup 4 true)]) [].

Lemma piles_example_wf : state_wf piles_example.
Proof.
  split.
  - intros g sg Hg. apply elem_of_list_to_map_2 in Hg.
    repeat (apply elem_of_cons in Hg as [[= -> ->]|Hg]; [reflexivity|]).
    by apply not_elem_of_nil in Hg.
  - intros n m Hm. apply elem_of_list_to_map_2 in Hm. csimpl in Hm.
    repeat (apply elem_of_cons in Hm as [[= -> ->]|Hm]; [vm_compute; eexists; reflexivity|]).
    by apply not_elem_of_nil in Hm.
  - vm_compute. reflexivity.
Qed.

Lemma generateUnschedulableMoves_piles_witness :
  ∃ to, ∀ mv, mv ∈ @generateUnschedulableMoves canonical_range [] piles_example → Move_To mv = to.
Proof.
  apply generateUnschedulableMoves_piles.
  - apply piles_example_wf.
  - exists "a", (mkGroup 0 false). split; reflexivity.
  - vm_compute. reflexivity.
  - intros g sg g' sg' [Hg Hu] [Hg' Hu']. apply elem_of_list_to_map_2 in Hg, Hg'.
    repeat (apply elem_of_cons in Hg as [[= -> ->]|Hg]); [..|by apply not_elem_of_nil in Hg];
    (repeat (apply elem_of_cons in Hg' as [[= -> ->]|Hg']); [..|by apply not_elem_of_nil in Hg']);
    done.
Defined.

Example piles_example_moves :
  Move_To <$> @generateUnschedulableMoves canonical_range [] piles_example = ["a"; "a"; "a"; "a"].
Proof. vm_compute. reflexivity. Qed.
