(* ===== verification/StripeSpec.v ===== *)
(** * The stripe scheduler keeps its promises

    The stripe scheduler satisfies the laws of [Scheduler]; creating and deleting
    pods keeps the groups of a class balanced; the constructor partitions the
    pods. *)

From S2P Require Import Prelude GoLib Api ServerGroups Scheduler StripeScheduler Reschedule.
From S2P Require Import RescheduleSpec.

(** ** Invariant and abstraction *)

(** Every scheduled class has a well-formed, non-empty map of groups; the groups
    of removable unscheduled pods are not groups of the specification. *)
Record stripe_valid (s : stripeSchedulerImpl) : Prop := {
  sv_scheduled class sg :
    serverClasses s !! class = Some sg → sg_wf sg ∧ getMap sg ≠ ∅;
  sv_removable class usg :
    removableUnscheduledServerClasses s !! class = Some usg → sg_wf usg;
  sv_disjoint class g :
    is_Some (class_map (serverClasses s) class !! g) →
    class_map (removableUnscheduledServerClasses s) class !! g = None;
}.

Definition stripe_known (class : string) (s : stripeSchedulerImpl) : Prop :=
  is_Some (serverClasses s !! class).

(** The pods [Delete] can name. *)
Definition stripe_pods (class : string) (s : stripeSchedulerImpl) : list string :=
  all_servers (class_map (serverClasses s) class) ++
  all_servers (class_map (removableUnscheduledServerClasses s) class).

(** Group sizes differ by at most [k]. *)
Definition spread (k : nat) (m : groupMap) : Prop :=
  ∀ g l g' l', m !! g = Some l → m !! g' = Some l' → list_size l ≤ list_size l' + k.

(** Two states with the same classes, groups and flags, apart from one list. *)
Definition example_stripe : stripeSchedulerImpl :=
  StripeScheduler
    {["data" := Lexical {["a" := ServerList ["p0"; "p1"]; "b" := ServerList ["p2"]]}]}
    ∅ ∅ ∅ ∅ "zone".

(** A pod of a group that left the specification, queued for removal. *)
Definition stale_example : stripeSchedulerImpl :=
  StripeScheduler {["data" := lexical [("a", ["p0"])]]} {["data" := lexical [("z", ["p1"])]]}
    {["data" := lexical [("z", ["p1"])]]} {["data" := RemovalQueue ["p1"]]} ∅ "zone".

(** A cluster with one class over two groups, and its pods. *)
Definition example_cluster : CouchbaseCluster :=
  {| Namespace := "ns"; Name := "cb";
     Spec := {| cs_Image := ""; cs_EnvImagePrecedence := false;
       cs_Servers := [{| sc_Size := 3; sc_Name := "data"; sc_Services := [DataService];
                         sc_ServerGroups := ["a"; "b"]; sc_VolumeMounts := None;
                         sc_Image := ""; sc_NodeSelector := None; sc_AutoscaleEnabled := false |}];
       cs_ServerGroups := []; cs_ServerGroupsLabelOverride := "";
       cs_ShuffleServerGroups := false; cs_RecoveryPolicy := None;
       cs_UpgradeProcess := None; cs_UpgradeStrategy := None; cs_RollingUpgrade := None;
       cs_Upgrade := None; cs_EnableOnlineVolumeExpansion := false;
       cs_UnmanagedClusterHost := None;
  cs_Paused := false; cs_Hibernate := false |};
     Status := {| st_ControlPaused := false; st_Conditions := []; st_ClusterID := "";
       st_Size := 0; st_CurrentVersion := ""; st_RebalanceAttempts := 0;
       st_HibernatedWithMemcachedBuckets := None; st_Members := None;
       st_Autoscalers := []; st_LastUpdateTime := "" |} |}.
Definition example_pod (name zone : string) : Pod :=
  {| pod_Name := name; pod_Labels := {[LabelNodeConf := "data"]};
     pod_NodeSelector := Some {[LabelTopologyZone := zone]}; pod_Phase := PodRunning |}.
Definition example_pods : list Pod :=
  [example_pod "p0" "a"; example_pod "p1" "a"; example_pod "p2" "z"].
Definition example_new : stripeSchedulerImpl :=
  match @NewStripeScheduler fixed_rand (λ ns n, ns +:+ "/" +:+ n) example_pods example_cluster with
  | Ok s => s
  | _ => stale_example
  end.

(** ** Updating one list *)
Lemma getMap_setGroup g l sg : getMap (setGroup g l sg) = <[g := l]> (getMap sg).
Proof. by destruct sg. Qed.

Lemma setGroup_wf g l sg :
  sg_wf sg → is_Some (getGroup g sg) → sg_wf (setGroup g l sg).
Proof.
  destruct sg as [o|m]; simpl; [|done]. unfold getGroup; simpl. intros Hwf Hg g'.
  rewrite Hwf, insert_is_Some_iff. split; [by right|by intros [->|?]].
Qed.

Lemma class_map_put class g l sg m :
  class_map (put_list class g l sg m) class = <[g := l]> (getMap sg).
Proof. unfold class_map, put_list. by rewrite lookup_insert_eq, getMap_setGroup. Qed.

Lemma class_map_put_ne class class' g l sg m :
  class' ≠ class → class_map (put_list class g l sg m) class' = class_map m class'.
Proof. intros. unfold class_map, put_list. by rewrite lookup_insert_ne by done. Qed.

Lemma class_map_lookup m class sg : m !! class = Some sg → class_map m class = getMap sg.
Proof. unfold class_map. by intros ->. Qed.

Lemma put_known class g l sg m c :
  m !! class = Some sg → is_Some (put_list class g l sg m !! c) ↔ is_Some (m !! c).
Proof.
  intros Hc. unfold put_list. rewrite insert_is_Some_iff.
  split; [intros [->|?]; [by eexists|done]|by right].
Qed.

Section put.
Context (s : stripeSchedulerImpl) (class g : string) (sg : serverGroups) (l l' : serverList).
Context (Hvalid : stripe_valid s) (Hl : getGroup g sg = Some l).

(** Replacing a list of a scheduled group. *)
Lemma put_scheduled :
  serverClasses s !! class = Some sg →
  let s' := set_serverClasses (put_list class g l' sg (serverClasses s)) s in
  stripe_valid s' ∧ (∀ c, stripe_known c s' ↔ stripe_known c s) ∧
  servers l ++ stripe_pods class s' ≡ₚ servers l' ++ stripe_pods class s ∧
  (∀ c, c ≠ class → stripe_pods c s' ≡ₚ stripe_pods c s).
Proof.
  intros Hc. assert (∀ c g', is_Some (class_map (put_list class g l' sg (serverClasses s)) c !! g') →
    is_Some (class_map (serverClasses s) c !! g')) as Hdom.
  { intros c g'. destruct (decide (c = class)) as [->|Hne]; [|by rewrite class_map_put_ne].
    rewrite class_map_put, (class_map_lookup _ _ _ Hc), lookup_insert_is_Some.
    intros [<-|[_ ?]]; [by eexists|done]. }
  split_and!.
  - split; simpl.
    + intros c sg'. unfold put_list. rewrite lookup_insert_Some.
      intros [[<- <-]|[_ Hsg]]; [|by apply (sv_scheduled s Hvalid c)].
      destruct (sv_scheduled s Hvalid class sg Hc). split; [apply setGroup_wf; [done|by eexists]|].
      rewrite getMap_setGroup. apply insert_non_empty.
    + apply (sv_removable s Hvalid).
    + intros c g' Hg'%Hdom. by apply (sv_disjoint s Hvalid).
  - intros c. by apply put_known.
  - unfold stripe_pods; simpl. rewrite class_map_put, (class_map_lookup _ _ _ Hc).
    rewrite all_servers_insert, (all_servers_lookup (getMap sg) g l Hl). solve_Permutation.
  - intros c Hne. unfold stripe_pods; simpl. by rewrite class_map_put_ne.
Qed.

(** Replacing a list of removable unscheduled pods. *)
Lemma put_removable :
  removableUnscheduledServerClasses s !! class = Some sg →
  let s' := set_removableUnscheduled
              (put_list class g l' sg (removableUnscheduledServerClasses s)) s in
  stripe_valid s' ∧ (∀ c, stripe_known c s' ↔ stripe_known c s) ∧
  servers l ++ stripe_pods class s' ≡ₚ servers l' ++ stripe_pods class s ∧
  (∀ c, c ≠ class → stripe_pods c s' ≡ₚ stripe_pods c s).
Proof.
  intros Hc. split_and!.
  - split; simpl.
    + apply (sv_scheduled s Hvalid).
    + intros c sg'. unfold put_list. rewrite lookup_insert_Some.
      intros [[<- <-]|[_ Hsg]]; [|by apply (sv_removable s Hvalid c)].
      apply setGroup_wf; [by apply (sv_removable s Hvalid class)|by eexists].
    + intros c g' Hg'%(sv_disjoint s Hvalid).
      destruct (decide (c = class)) as [->|Hne]; [|by rewrite class_map_put_ne].
      rewrite class_map_put. rewrite (class_map_lookup _ _ _ Hc) in Hg'.
      rewrite lookup_insert_ne; [done|]. intros <-. unfold getGroup in Hl. congruence.
  - done.
  - unfold stripe_pods; simpl. rewrite class_map_put, (class_map_lookup _ _ _ Hc).
    rewrite all_servers_insert, (all_servers_lookup (getMap sg) g l Hl). solve_Permutation.
  - intros c Hne. unfold stripe_pods; simpl. by rewrite class_map_put_ne.
Qed.
End put.

(** ** Choosing a group *)
Section choose.
Context `{MapRange} `{MathRand}.

Lemma elem_of_sizeOrderedGroups pos sg :
  sg_wf sg → ∃ groups, sizeOrderedGroups pos sg = Ok groups ∧
    ∀ g, g ∈ groups ↔ is_Some (getGroup g sg).
Proof.
  unfold sizeOrderedGroups, getGroup. destruct sg as [o|m]; simpl; intros Hwf.
  - assert (forallb (groupMap_groupExists (ord_groupMap o)) (groupsOrder o) = true) as ->.
    { apply forallb_forall. intros g Hg%list_elem_of_In.
      apply bool_decide_eq_true. by apply Hwf. }
    rewrite andb_false_r. eexists; split; [done|]. intros g.
    by rewrite elem_of_stable_sort, Hwf.
  - eexists; split; [done|]. intros g.
    rewrite elem_of_stable_sort, sort_Strings_perm, range_perm, list_elem_of_fmap. split.
    + intros ([g' l]&->&Hg%elem_of_map_to_list). by eexists.
    + intros [l Hl]. exists (g, l). by rewrite elem_of_map_to_list.
Qed.

(** The chosen group exists; without groups to avoid it is a smallest one. *)
Lemma getSmallesGroup_spec pos s sg :
  sg_wf sg → getMap sg ≠ ∅ →
  ∃ g l, getSmallesGroupForClass pos s sg = Ok g ∧ getGroup g sg = Some l ∧
    (avoidGroups s = ∅ → is_min (getMap sg) (list_size l)).
Proof.
  intros Hwf Hne. unfold getSmallesGroupForClass. case_bool_decide as Ha.
  { destruct (smallestGroup_spec pos sg Hwf Hne) as (g&l&?&?&?). by exists g, l. }
  assert (avoidGroups s ≠ ∅) as Ha' by (intros E; by rewrite E in Ha).
  destruct (elem_of_sizeOrderedGroups pos sg Hwf) as (groups&->&Hg). simpl.
  destruct (list_find _ groups) as [[i g]|] eqn:Hf.
  { apply list_find_Some in Hf as (Hi&_&_). apply list_elem_of_lookup_2, Hg in Hi as [l Hl].
    by exists g, l. }
  destruct groups as [|g0 groups].
  { exfalso. apply map_choose in Hne as (g&l&Hl).
    apply (not_elem_of_nil g), Hg. by exists l. }
  destruct (lookup_lt_is_Some_2 (g0 :: groups) (rand_Intn pos (length (g0 :: groups)))) as [g Hi].
  { apply rand_Intn_lt. simpl. lia. }
  rewrite Hi. apply list_elem_of_lookup_2, Hg in Hi as [l Hl]. by exists g, l.
Qed.

(** What [Create] does, on every branch. *)
Lemma stripe_Create_cases pos class name group s :
  stripe_valid s →
  (serverClasses s !! class = None ∧
   stripe_Create pos class name group s = (Err ErrResourceAttributeRequired, s)) ∨
  (∃ sg, serverClasses s !! class = Some sg ∧ group ≠ "" ∧ getGroup group sg = None ∧
   stripe_Create pos class name group s = (Err ErrResourceRequired, s)) ∨
  (∃ sg g l, serverClasses s !! class = Some sg ∧ getGroup g sg = Some l ∧
   (group = "" ∨ group = g) ∧
   (group = "" → avoidGroups s = ∅ → is_min (getMap sg) (list_size l)) ∧
   stripe_Create pos class name group s =
     (Ok g, set_serverClasses (put_list class g (serverList_push name l) sg (serverClasses s)) s)).
Proof.
  intros Hv. unfold stripe_Create. destruct (serverClasses s !! class) as [sg|] eqn:Hc;
    [|by left]. right.
  destruct (sv_scheduled s Hv class sg Hc) as [Hwf Hne]. case_bool_decide as Hg.
  - destruct (getSmallesGroup_spec pos s sg Hwf Hne) as (g&l&->&Hl&Hmin). right.
    exists sg, g, l. rewrite Hl. split_and!; auto.
  - destruct (getGroup group sg) as [l|] eqn:Hl.
    + right. exists sg, group, l. split_and!; auto; done.
    + left. by exists sg.
Qed.

Lemma push_put_pods s class g sg l name :
  stripe_valid s → getGroup g sg = Some l → serverClasses s !! class = Some sg →
  let s' := set_serverClasses (put_list class g (serverList_push name l) sg (serverClasses s)) s in
  stripe_pods class s' ≡ₚ name :: stripe_pods class s.
Proof.
  intros Hv Hl Hc s'. destruct (put_scheduled s class g sg l (serverList_push name l) Hv Hl Hc)
    as (_&_&Hp&_). fold s' in Hp. simpl in Hp. rewrite <- app_assoc in Hp.
  by apply app_inv_head in Hp || apply Permutation_app_inv_l in Hp.
Qed.

(** ** Deleting *)
Lemma deque_candidate pos lists q server g q' :
  dequeHighestRankedCandidate pos lists q = (server, g, q') → server ≠ "" →
  ∃ l, lists !! g = Some l ∧ server ∈ servers l.
Proof.
  unfold dequeHighestRankedCandidate. pose proof (deque_loop_spec pos lists (rq_servers q) 0) as Hd.
  destruct (deque_loop _ _ _ _) as [[[server' g'] rest]|]; intros [= <- <- <-] Hne; [|done].
  destruct Hd as (_&_&l&_&_&?&?&_). by exists l.
Qed.

Lemma add_lists_lookup groups sg : ∀ lists g l,
  add_lists groups sg lists !! g = Some l →
  (g ∈ groups ∧ getGroup g sg = Some l) ∨ lists !! g = Some l.
Proof.
  unfold add_lists. induction groups as [|x groups IH]; intros lists g l; cbn [fold_left];
    [by right|].
  intros [[??]|Hg]%IH; [left; split; [by constructor|done]|].
  destruct (getGroup x sg) as [lx|] eqn:Hx; [|by right].
  apply lookup_insert_Some in Hg as [[<- <-]|[_ Hg]]; [|by right].
  left. split; [constructor|done].
Qed.

Lemma largestGroups_total pos sg : sg_wf sg → ∃ groups, largestGroups pos sg = Ok groups.
Proof.
  destruct sg as [o|m]; simpl; [|by eexists]. intros Hwf.
  destruct (ordered_filter_spec (λ l, list_size l =? maxSize pos (ord_groupMap o))%nat
    (ord_groupMap o) (groupsOrder o)) as (groups&->&_); [by intros g Hg; apply Hwf|].
  by eexists.
Qed.

(** Candidates are the lists of the largest scheduled groups and of removable
    unscheduled groups. *)
Lemma removalServerLists_spec pos class sg s :
  stripe_valid s → serverClasses s !! class = Some sg →
  ∃ lists, removalServerLists pos class sg s = Ok lists ∧
    ∀ g l, lists !! g = Some l →
      (getGroup g sg = Some l ∧ is_max (getMap sg) (list_size l)) ∨
      (∃ usg, removableUnscheduledServerClasses s !! class = Some usg ∧ getGroup g usg = Some l).
Proof.
  intros Hv Hc. destruct (sv_scheduled s Hv class sg Hc) as [Hwf Hne].
  unfold removalServerLists.
  destruct (largestGroups_spec (pos ++ [0]) sg Hwf Hne) as (largest&k&->&Hk&Hl). simpl.
  assert (∀ g l, add_lists largest sg ∅ !! g = Some l →
    getGroup g sg = Some l ∧ is_max (getMap sg) (list_size l)) as H1.
  { intros g l [[Hg Hgl]|Hn]%add_lists_lookup; [|by rewrite lookup_empty in Hn].
    split; [done|]. apply Hl in Hg as (l'&Hl'&<-). by simplify_eq. }
  destruct (removableUnscheduledServerClasses s !! class) as [usg|] eqn:Hu.
  - destruct (largestGroups_total (pos ++ [1]) usg) as (ul&->);
      [by apply (sv_removable s Hv class)|]. simpl.
    eexists; split; [done|]. intros g l [[Hg Hgl]|Hn]%add_lists_lookup; [|by left; apply H1].
    right. by exists usg.
  - eexists; split; [done|]. intros g l Hg. left. by apply H1.
Qed.

Lemma find_and_del_Some class g name m sg l :
  m !! class = Some sg → getGroup g sg = Some l → name ∈ servers l →
  ∃ l', serverList_del name l = Ok l' ∧
    find_and_del class g name m = Some (Ok (put_list class g l' sg m)).
Proof.
  intros Hc Hl Hn. unfold find_and_del. rewrite Hc, Hl.
  rewrite (proj2 (serverList_find_spec name l) Hn).
  destruct (serverList_del_total name l Hn) as [l' ->]. by exists l'.
Qed.

(** The effect of a successful [Delete]: one list loses the pod that is returned,
    a largest scheduled list or one of removable unscheduled pods. *)
Definition deletes (class name : string) (s s' : stripeSchedulerImpl) : Prop :=
  ∃ g sg l l', servers l ≡ₚ name :: servers l' ∧ getGroup g sg = Some l ∧
    ((serverClasses s !! class = Some sg ∧ is_max (getMap sg) (list_size l) ∧
      s' = set_serverClasses (put_list class g l' sg (serverClasses s)) s) ∨
     (removableUnscheduledServerClasses s !! class = Some sg ∧
      s' = set_removableUnscheduled
             (put_list class g l' sg (removableUnscheduledServerClasses s)) s)).

Lemma delete_from_largest_spec pos class sg s :
  stripe_valid s → serverClasses s !! class = Some sg →
  (∃ name, (delete_from_largest pos class sg s).1 = Ok name ∧
     deletes class name s (delete_from_largest pos class sg s).2) ∨
  (delete_from_largest pos class sg s = (Err ErrResourceAttributeRequired, s) ∧
   all_servers (getMap sg) = []).
Proof.
  intros Hv Hc. destruct (sv_scheduled s Hv class sg Hc) as [Hwf Hne]. unfold delete_from_largest.
  destruct (largestGroup_spec (pos ++ [2]) sg Hwf Hne) as (g&l&->&Hl&Hmax). rewrite Hl.
  destruct (serverList_pop l) as [[name l']|e|] eqn:Hp.
  - left. exists name. split; [done|]. exists g, sg, l, l'.
    apply serverList_pop_Ok in Hp. split_and!; [|done|by left].
    by rewrite Hp, Permutation_app_comm.
  - right. split; [done|].
    assert (servers l = []) as Hnil.
    { destruct (decide (servers l = [])) as [|Hl']; [done|].
      destruct (serverList_pop_total l Hl') as (?&?&?). congruence. }
    destruct (all_servers (getMap sg)) as [|x xs] eqn:E; [done|].
    assert (x ∈ all_servers (getMap sg)) as Hx by (rewrite E; constructor).
    apply elem_of_all_servers in Hx as (g'&l0&Hg'&Hx). destruct Hmax as [_ Hmax].
    specialize (Hmax g' l0 Hg'). unfold list_size in Hmax. rewrite Hnil in Hmax. simpl in Hmax.
    destruct (servers l0); [by apply not_elem_of_nil in Hx|simpl in Hmax; lia].
  - exfalso. unfold serverList_pop in Hp. by destruct (last _).
Qed.
End choose.

Lemma set_removable_valid rm s : stripe_valid (set_removable rm s) ↔ stripe_valid s.
Proof. split; intros [H1 H2 H3]; by split. Qed.

Lemma deletes_laws class name s s' :
  stripe_valid s → deletes class name s s' →
  stripe_valid s' ∧ (∀ c, stripe_known c s' ↔ stripe_known c s) ∧
  stripe_pods class s ≡ₚ name :: stripe_pods class s' ∧
  (∀ c, c ≠ class → stripe_pods c s' ≡ₚ stripe_pods c s).
Proof.
  intros Hv (g&sg&l&l'&Hp&Hl&Hcase).
  assert (∀ xs ys : list string, servers l ++ xs ≡ₚ servers l' ++ ys → ys ≡ₚ name :: xs) as Hperm.
  { intros xs ys H. rewrite Hp in H. apply (Permutation_app_inv_l (servers l')).
    rewrite <- H. solve_Permutation. }
  destruct Hcase as [(Hc&_&->)|(Hc&->)].
  - destruct (put_scheduled s class g sg l l' Hv Hl Hc) as (?&?&?&?). split_and!; auto.
  - destruct (put_removable s class g sg l l' Hv Hl Hc) as (?&?&?&?). split_and!; auto.
Qed.

Section laws.
Context `{MapRange} `{MathRand}.

Lemma stripe_Delete_cases pos class s :
  stripe_valid s →
  (serverClasses s !! class = None ∧
   stripe_Delete pos class s = (Err ErrResourceAttributeRequired, s)) ∨
  (∃ sg rm, serverClasses s !! class = Some sg ∧
   (rm = removableServerClasses s ∨ is_Some (removableServerClasses s !! class)) ∧
   ((∃ name s', stripe_Delete pos class s = (Ok name, s') ∧
       deletes class name (set_removable rm s) s') ∨
    (stripe_Delete pos class s = (Err ErrResourceAttributeRequired, set_removable rm s) ∧
     all_servers (getMap sg) = []))).
Proof.
  intros Hv. unfold stripe_Delete. destruct (serverClasses s !! class) as [sg|] eqn:Hc;
    [|by left]. right. exists sg.
  assert (∀ rm, let s1 := set_removable rm s in
    (∃ name s', delete_from_largest pos class sg s1 = (Ok name, s') ∧ deletes class name s1 s') ∨
    (delete_from_largest pos class sg s1 = (Err ErrResourceAttributeRequired, s1) ∧
     all_servers (getMap sg) = [])) as Hlargest.
  { intros rm s1. destruct (delete_from_largest_spec pos class sg s1) as [(name&Hn&Hd)|?];
      [by apply set_removable_valid|done| |by right].
    left. destruct (delete_from_largest pos class sg s1) as [r s'] eqn:E; simpl in *.
    subst r. by exists name, s'. }
  destruct (removableServerClasses s !! class) as [rq|] eqn:Hrq.
  - destruct (removalServerLists_spec pos class sg s Hv Hc) as (lists&->&Hlists).
    destruct (dequeHighestRankedCandidate (pos ++ [3]) lists rq) as [[name g] rq'] eqn:Hdq.
    exists (<[class := rq']> (removableServerClasses s)).
    set (s1 := set_removable _ s). split_and!; [done|right; by eexists|].
    case_bool_decide as Hne; [|apply Hlargest].
    left. exists name. destruct (deque_candidate _ _ _ _ _ _ Hdq Hne) as (l&Hl&Hin).
    unfold removePodFromServerGroup.
    destruct (Hlists g l Hl) as [[Hg Hmax]|(usg&Hu&Hg)].
    + destruct (find_and_del_Some class g name (serverClasses s1) sg l Hc Hg Hin) as (l'&Hd&->).
      eexists; split; [done|]. exists g, sg, l, l'.
      split_and!; [by apply serverList_del_Ok|done|by left].
    + assert (find_and_del class g name (serverClasses s1) = None) as ->.
      { unfold find_and_del. simpl. rewrite Hc.
        destruct (getGroup g sg) as [l0|] eqn:E; [|done]. exfalso.
        assert (class_map (removableUnscheduledServerClasses s) class !! g = None) as Hno.
        { apply (sv_disjoint s Hv). rewrite (class_map_lookup _ _ _ Hc). by eexists. }
        rewrite (class_map_lookup _ _ _ Hu) in Hno. unfold getGroup in Hg. congruence. }
      destruct (find_and_del_Some class g name (removableUnscheduledServerClasses s1) usg l
        Hu Hg Hin) as (l'&Hd&->).
      eexists; split; [done|]. exists g, usg, l, l'.
      split_and!; [by apply serverList_del_Ok|done|by right].
  - exists (removableServerClasses s). split_and!; [done|by left|].
    assert (set_removable (removableServerClasses s) s = s) as Heq by (by destruct s).
    specialize (Hlargest (removableServerClasses s)). cbv zeta in Hlargest.
    by rewrite Heq in *.
Qed.

Lemma stripe_Create_law pos class name group s :
  stripe_valid s → let '(r, s') := stripe_Create pos class name group s in
  stripe_valid s' ∧ r ≠ Panic ∧ (∀ c, stripe_known c s' ↔ stripe_known c s) ∧
  (if is_ok r then stripe_known class s ∧ stripe_pods class s' ≡ₚ name :: stripe_pods class s
   else stripe_pods class s' ≡ₚ stripe_pods class s) ∧
  (∀ class', class' ≠ class → stripe_pods class' s' ≡ₚ stripe_pods class' s).
Proof.
  intros Hv. destruct (stripe_Create_cases pos class name group s Hv)
    as [(_&->)|[(sg&_&_&_&->)|(sg&g&l&Hc&Hl&_&_&->)]]; [by simpl; split_and!..|].
  simpl.
  destruct (put_scheduled s class g sg l (serverList_push name l) Hv Hl Hc) as (?&?&Hp&?).
  split_and!; [done..|by eexists| |done].
  apply (Permutation_app_inv_l (servers l)). rewrite Hp. simpl. solve_Permutation.
Qed.

Lemma stripe_Delete_law pos class s :
  stripe_valid s → let '(r, s') := stripe_Delete pos class s in
  stripe_valid s' ∧ r ≠ Panic ∧ (∀ c, stripe_known c s' ↔ stripe_known c s) ∧
  match r with
  | Ok name => stripe_known class s ∧ stripe_pods class s ≡ₚ name :: stripe_pods class s'
  | _ => stripe_pods class s' ≡ₚ stripe_pods class s
  end ∧
  (∀ class', class' ≠ class → stripe_pods class' s' ≡ₚ stripe_pods class' s).
Proof.
  intros Hv. destruct (stripe_Delete_cases pos class s Hv)
    as [(_&->)|(sg&rm&Hc&_&[(name&s'&->&Hd)|[-> _]])].
  - by split_and!.
  - apply deletes_laws in Hd as (?&?&?&?); [|by apply set_removable_valid].
    split_and!; try done. by eexists.
  - split_and!; try done. by apply set_removable_valid.
Qed.

#[export] Program Instance stripe_SchedulerLaws : SchedulerLaws stripeSchedulerImpl := {
  valid := stripe_valid;
  known := stripe_known;
  pods := stripe_pods;
}.
Next Obligation. intros. by apply stripe_Create_law. Qed.
Next Obligation.
  intros pos class name group s _ Hk. simpl. unfold stripe_Create.
  unfold stripe_known in Hk. apply eq_None_not_Some in Hk. by rewrite Hk.
Qed.
Next Obligation. intros. by apply stripe_Delete_law. Qed.
Next Obligation.
  intros pos class s _ Hk. simpl. unfold stripe_Delete.
  unfold stripe_known in Hk. apply eq_None_not_Some in Hk. by rewrite Hk.
Qed.
Next Obligation. intros class names s Hv. simpl. by rewrite set_removable_valid. Qed.
End laws.

(** ** Construction *)
Definition active (pod : Pod) : bool :=
  bool_decide (pod_Phase pod = PodPending) || bool_decide (pod_Phase pod = PodRunning).

Definition pod_class (pod : Pod) : option string := pod_Labels pod !! LabelNodeConf.

(** The names of the running pods of a class. *)
Definition pods_of_class (class : string) (pods : list Pod) : list string :=
  pod_Name <$> filter (λ pod, active pod = true ∧ pod_class pod = Some class) pods.

Definition has_groups (cluster : CouchbaseCluster) (class : ServerConfig) : Prop :=
  sc_ServerGroups class ≠ [] ∨ cs_ServerGroups (Spec cluster) ≠ [].

Lemma all_servers_push (m : groupMap) g name :
  all_servers (<[g := serverList_push name (default (ServerList []) (m !! g))]> m) ≡ₚ
  name :: all_servers m.
Proof.
  rewrite all_servers_insert. destruct (m !! g) as [l|] eqn:Hg; simpl.
  - rewrite (all_servers_lookup m g l Hg). solve_Permutation.
  - by rewrite delete_id.
Qed.

Lemma getMap_addGroup g sg : getMap (addGroup g sg) = <[g := ServerList []]> (getMap sg).
Proof. by destruct sg. Qed.

Lemma addGroup_wf g sg : sg_wf sg → sg_wf (addGroup g sg).
Proof.
  destruct sg as [o|m]; simpl; [|done]. intros Hwf g'. unfold groupMap_addGroup.
  rewrite elem_of_app, list_elem_of_singleton, Hwf, insert_is_Some_iff. tauto.
Qed.

Lemma push_unscheduled_spec class g name m :
  (∀ c sg, m !! c = Some sg → sg_wf sg) →
  let m' := push_unscheduled class g name m in
  (∀ c sg, m' !! c = Some sg → sg_wf sg) ∧
  class_map m' class =
    <[g := serverList_push name (default (ServerList []) (class_map m class !! g))]>
      (class_map m class) ∧
  (∀ c, c ≠ class → class_map m' c = class_map m c) ∧
  (∀ c, is_Some (m' !! c) → c = class ∨ is_Some (m !! c)).
Proof.
  intros Hwf. unfold push_unscheduled.
  set (sg0 := match m !! class with Some sg => sg | None => newLexicalServerGroups end).
  assert (sg_wf sg0 ∧ class_map m class = getMap sg0) as [Hwf0 ->].
  { unfold sg0, class_map. destruct (m !! class) eqn:E; [split; [by eapply Hwf|done]|done]. }
  set (sg1 := addGroupIfDoesntExist g sg0).
  assert (sg_wf sg1 ∧ getGroup g sg1 = Some (default (ServerList []) (getMap sg0 !! g)) ∧
    ∀ l, <[g := l]> (getMap sg1) = <[g := l]> (getMap sg0)) as (Hwf1&Hg&Hins).
  { unfold sg1, addGroupIfDoesntExist, groupExists, groupMap_groupExists, getGroup.
    case_bool_decide as He.
    - split_and!; [done| |done]. destruct He as [l ->]. done.
    - apply eq_None_not_Some in He. rewrite He.
      split_and!; [by apply addGroup_wf| |].
      + by rewrite getMap_addGroup, lookup_insert_eq.
      + intros l. by rewrite getMap_addGroup, insert_insert_eq. }
  rewrite Hg. split_and!.
  - intros c sg. unfold put_list. rewrite lookup_insert_Some.
    intros [[_ <-]|[_ Hc]]; [|by eapply Hwf]. apply setGroup_wf; [done|by eexists].
  - by rewrite class_map_put, Hins.
  - intros c Hne. by apply class_map_put_ne.
  - intros c. unfold put_list. by rewrite insert_is_Some_iff.
Qed.

(** The classes with unschedulable pods are known and well-formed. *)
Record unsched_ok (s : stripeSchedulerImpl) : Prop := {
  uo_wf c sg : unschedulableServerClasses s !! c = Some sg → sg_wf sg;
  uo_known c : is_Some (unschedulableServerClasses s !! c) → stripe_known c s;
}.

(** What one pod adds to the scheduler. *)
Lemma populate_pod_spec pod s :
  stripe_valid s → unsched_ok s →
  (active pod = true → is_Some (pod_class pod)) →
  ∃ s', populate_pod pod s = Ok s' ∧ stripe_valid s' ∧
    unsched_ok s' ∧
    (∀ c, stripe_known c s' ↔ stripe_known c s) ∧
    ∀ c, stripe_known c s →
      all_servers (class_map (serverClasses s') c) ++
      all_servers (class_map (unschedulableServerClasses s') c) ≡ₚ
      (if decide (active pod = true ∧ pod_class pod = Some c) then [pod_Name pod] else []) ++
      all_servers (class_map (serverClasses s) c) ++
      all_servers (class_map (unschedulableServerClasses s) c).
Proof.
  intros Hv Hu Hlabel. unfold populate_pod.
  assert ((negb (bool_decide (pod_Phase pod = PodPending)) &&
           negb (bool_decide (pod_Phase pod = PodRunning))) = negb (active pod)) as ->
    by (unfold active; by rewrite negb_orb).
  destruct (active pod) eqn:Ha; simpl; cycle 1.
  { exists s. by split_and!. }
  destruct (Hlabel eq_refl) as [class Hclass]. unfold pod_class in *. rewrite Hclass.
  destruct (serverClasses s !! class) as [sg|] eqn:Hc; cycle 1.
  { exists s. split_and!; try done. intros c [sg Hsg].
    rewrite decide_False; [done|]. intros [_ [= ->]]. congruence. }
  assert (∀ g rm, (rm = removableUnscheduledServerClasses s ∨
      rm = push_unscheduled class g (pod_Name pod) (removableUnscheduledServerClasses s) ∧
      getGroup g sg = None) →
    let s' := set_removableUnscheduled rm (set_unschedulable
      (push_unscheduled class g (pod_Name pod) (unschedulableServerClasses s)) s) in
    stripe_valid s' ∧ unsched_ok s' ∧
    (∀ c, stripe_known c s' ↔ stripe_known c s) ∧
    ∀ c, stripe_known c s →
      all_servers (class_map (serverClasses s') c) ++
      all_servers (class_map (unschedulableServerClasses s') c) ≡ₚ
      (if decide (true = true ∧ Some class = Some c) then [pod_Name pod] else []) ++
      all_servers (class_map (serverClasses s) c) ++
      all_servers (class_map (unschedulableServerClasses s) c)) as Hstep.
  { intros g rm Hrm s'.
    destruct (push_unscheduled_spec class g (pod_Name pod) _ (uo_wf _ Hu)) as (Hu1&Hu2&Hu3&Hu4).
    split_and!; [|split; [done|]; intros c [->|Hc']%Hu4; [by eexists|by apply Hu]|done|].
    - destruct Hrm as [->|[-> Hg]]; [by destruct Hv|].
      destruct (push_unscheduled_spec class g (pod_Name pod) _ (sv_removable s Hv)) as (Hr1&Hr2&Hr3&_).
      split; simpl; [apply (sv_scheduled s Hv)|done|].
      intros c g' Hg'. destruct (decide (c = class)) as [->|Hne].
      + rewrite Hr2, lookup_insert_ne; [by apply (sv_disjoint s Hv)|].
        intros <-. rewrite (class_map_lookup _ _ _ Hc) in Hg'. unfold getGroup in Hg.
        rewrite Hg in Hg'. by destruct Hg'.
      + rewrite Hr3 by done. by apply (sv_disjoint s Hv).
    - intros c _. unfold s'; simpl. destruct (decide (c = class)) as [->|Hne].
      + rewrite decide_True by done. rewrite Hu2, all_servers_push. solve_Permutation.
      + rewrite decide_False by naive_solver. by rewrite Hu3. }
  assert (∀ m, set_unschedulable m s =
    set_removableUnscheduled (removableUnscheduledServerClasses s) (set_unschedulable m s))
    as Heta by done.
  destruct (getPodServerGroup s pod) as [group| |] eqn:Hg.
  - destruct (getGroup group sg) as [l|] eqn:Hl.
    + eexists; split; [done|].
      destruct (put_scheduled s class group sg l (serverList_push (pod_Name pod) l) Hv Hl Hc)
        as (Hv'&Hk&_&_).
      split_and!; [exact Hv'|split; [apply Hu|intros c Hcu; by apply Hk, Hu]|exact Hk|].
      intros c _. simpl. destruct (decide (c = class)) as [->|Hne].
      * rewrite decide_True by done. rewrite class_map_put, (class_map_lookup _ _ _ Hc).
        pose proof (all_servers_push (getMap sg) group (pod_Name pod)) as Hp.
        unfold getGroup in Hl. rewrite Hl in Hp. simpl in Hp. rewrite Hp. done.
      * rewrite decide_False by naive_solver. by rewrite class_map_put_ne.
    + eexists; split; [done|]. apply (Hstep group). by right.
  - eexists; split; [done|]. rewrite Heta. apply (Hstep "" _). by left.
  - eexists; split; [done|]. rewrite Heta. apply (Hstep "" _). by left.
Qed.

Lemma populate_spec pods : ∀ s,
  stripe_valid s → unsched_ok s →
  (∀ pod, pod ∈ pods → active pod = true → is_Some (pod_class pod)) →
  ∃ s', populateServerClasses pods s = Ok s' ∧ stripe_valid s' ∧ unsched_ok s' ∧
    (∀ c, stripe_known c s' ↔ stripe_known c s) ∧
    ∀ c, stripe_known c s →
      all_servers (class_map (serverClasses s') c) ++
      all_servers (class_map (unschedulableServerClasses s') c) ≡ₚ
      pods_of_class c pods ++
      all_servers (class_map (serverClasses s) c) ++
      all_servers (class_map (unschedulableServerClasses s) c).
Proof.
  induction pods as [|pod pods IH]; intros s Hv Hu Hl; cbn [populateServerClasses].
  { exists s. by split_and!. }
  destruct (populate_pod_spec pod s Hv Hu) as (s1&->&Hv1&Hu1&Hk1&Hp1).
  { apply Hl. constructor. }
  destruct (IH s1 Hv1 Hu1) as (s2&E&Hv2&Hu2&Hk2&Hp2); [intros; apply Hl; [by constructor|done]|].
  simpl. exists s2. split_and!; [done|done|done|by intros c; rewrite Hk2|].
  intros c Hc. rewrite Hp2 by by apply Hk1. rewrite Hp1 by done.
  unfold pods_of_class. destruct (decide (active pod = true ∧ pod_class pod = Some c)).
  - rewrite filter_cons_True, fmap_cons by done. simpl. solve_Permutation.
  - by rewrite filter_cons_False.
Qed.

Lemma populate_error pods : ∀ s pod,
  stripe_valid s → unsched_ok s →
  pod ∈ pods → active pod = true → pod_class pod = None →
  populateServerClasses pods s = Err ErrResourceAttributeRequired.
Proof.
  induction pods as [|p pods IH]; intros s pod Hv Hu Hin Ha Hc; [by apply not_elem_of_nil in Hin|].
  cbn [populateServerClasses].
  destruct (decide (active p = true ∧ pod_class p = None)) as [[Hpa Hpc]|Hok].
  - unfold populate_pod. unfold active in Hpa. unfold pod_class in Hpc. rewrite Hpc.
    destruct (bool_decide (pod_Phase p = PodPending)), (bool_decide (pod_Phase p = PodRunning));
      done.
  - destruct (populate_pod_spec p s Hv Hu) as (s1&->&Hv1&Hu1&_).
    { intros Hpa. destruct (pod_class p) eqn:E; [by eexists|]. destruct Hok. done. }
    simpl. apply elem_of_cons in Hin as [->|Hin]; [|by eapply IH]. by destruct Hok.
Qed.

(** Adding groups one by one leaves an empty list for each. *)
Lemma addGroups_spec groups : ∀ sg,
  sg_wf sg → (∀ g l, getGroup g sg = Some l → servers l = []) →
  let sg' := fold_left (λ sg group, addGroup group sg) groups sg in
  sg_wf sg' ∧ (∀ g l, getGroup g sg' = Some l → servers l = []) ∧
  (∀ g, is_Some (getGroup g sg') ↔ g ∈ groups ∨ is_Some (getGroup g sg)).
Proof.
  induction groups as [|x groups IH]; intros sg Hwf He; cbn [fold_left].
  { split_and!; [done..|]. intros g. split; [by right|].
    intros [[]%not_elem_of_nil|?]. done. }
  destruct (IH (addGroup x sg)) as (H1&H2&H3).
  { by apply addGroup_wf. }
  { intros g l. unfold getGroup. rewrite getMap_addGroup, lookup_insert_Some.
    intros [[_ <-]|[_ Hg]]; [done|by eapply He]. }
  split_and!; [done..|]. intros g. rewrite H3, elem_of_cons. unfold getGroup.
  rewrite getMap_addGroup, insert_is_Some_iff. tauto.
Qed.

Section new.
Context `{MapRange} `{MathRand} `{NamespacedNames}.

(** The classes before any pod is added. *)
Definition empty_classes (m : serverClassGroupMap) : Prop :=
  ∀ c sg, m !! c = Some sg →
    sg_wf sg ∧ getMap sg ≠ ∅ ∧ ∀ g l, getGroup g sg = Some l → servers l = [].

Lemma GetServerGroupsForClass_spec cluster class :
  match GetServerGroupsForClass cluster class with
  | Ok groups => has_groups cluster class ∧ groups ≠ []
  | Err e => e = ErrResourceAttributeRequired ∧ ¬ has_groups cluster class
  | Panic => False
  end.
Proof.
  unfold GetServerGroupsForClass, has_groups.
  destruct (sc_ServerGroups class); simpl; [|split; [by left|done]].
  destruct (cs_ServerGroups (Spec cluster)); simpl; [split; [done|naive_solver]|].
  split; [by right|done].
Qed.

Lemma initServerClasses_loop_spec cluster classes : ∀ m,
  empty_classes m →
  match initServerClasses_loop cluster classes m with
  | Ok m' => Forall (has_groups cluster) classes ∧ empty_classes m' ∧
      ∀ c, is_Some (m' !! c) ↔ c ∈ sc_Name <$> classes ∨ is_Some (m !! c)
  | Err e => e = ErrResourceAttributeRequired ∧ ¬ Forall (has_groups cluster) classes
  | Panic => False
  end.
Proof.
  induction classes as [|class classes IH]; intros m Hm; cbn [initServerClasses_loop].
  { split_and!; [constructor|done|]. intros c. split; [by right|].
    intros [[]%not_elem_of_nil|?]. done. }
  pose proof (GetServerGroupsForClass_spec cluster class) as Hg.
  destruct (GetServerGroupsForClass cluster class) as [groups|e|]; simpl; [|destruct Hg as [-> ?]; split; [done|by intros [? _]%Forall_cons]|done].
  destruct Hg as [Hhas Hne].
  assert (∃ groups' sg0, (if cs_ShuffleServerGroups (Spec cluster)
    then (ShuffleServerGroups groups (NamespacedName cluster), newOrderedServerGroups)
    else (groups, newLexicalServerGroups)) = (groups', sg0) ∧ groups' ≡ₚ groups ∧
    sg_wf sg0 ∧ getMap sg0 = ∅) as (groups'&sg0&->&Hp&Hwf&Hempty).
  { destruct (cs_ShuffleServerGroups _); do 2 eexists; (split; [done|]); split_and!;
      [apply rand_Shuffle_perm| |done|done..].
    intros g. simpl. rewrite lookup_empty. split; [by intros []%not_elem_of_nil|by intros []]. }
  destruct (addGroups_spec groups' sg0 Hwf) as (A1&A2&A3).
  { unfold getGroup. rewrite Hempty. intros g l Hl. by rewrite lookup_empty in Hl. }
  set (sg := fold_left _ groups' sg0) in *.
  assert (empty_classes (<[sc_Name class := sg]> m)) as Hm'.
  { intros c sg'. rewrite lookup_insert_Some. intros [[_ <-]|[_ Hc]]; [|by apply Hm in Hc].
    split_and!; [done| |done]. destruct groups as [|g groups]; [done|].
    assert (is_Some (getGroup g sg)) as [l Hl] by (apply A3; left; rewrite Hp; constructor).
    intros E. unfold getGroup in Hl. by rewrite E in Hl. }
  specialize (IH _ Hm'). destruct (initServerClasses_loop cluster classes _) as [m'|e|]; [| |done].
  - destruct IH as (I1&I2&I3). split_and!; [by constructor|done|].
    intros c. csimpl; rewrite I3, elem_of_cons, insert_is_Some_iff. tauto.
  - destruct IH as [-> Hn]. split; [done|]. by intros [_ ?]%Forall_cons.
Qed.

Lemma empty_classes_servers m c :
  empty_classes m → all_servers (class_map m c) = [].
Proof.
  intros Hm. destruct (all_servers (class_map m c)) as [|x xs] eqn:E; [done|].
  assert (x ∈ all_servers (class_map m c)) as Hx by (rewrite E; constructor).
  apply elem_of_all_servers in Hx as (g&l&Hg&Hx). unfold class_map in Hg.
  destruct (m !! c) as [sg|] eqn:Hc; [|by rewrite lookup_empty in Hg].
  destruct (Hm c sg Hc) as (_&_&He). unfold getGroup in He. rewrite (He g l Hg) in Hx.
  by apply not_elem_of_nil in Hx.
Qed.

Lemma NewStripeScheduler_cases pods cluster :
  match NewStripeScheduler pods cluster with
  | Ok s => Forall (has_groups cluster) (cs_Servers (Spec cluster)) ∧
      (∀ pod, pod ∈ pods → active pod = true → is_Some (pod_class pod)) ∧ stripe_valid s ∧
      unsched_ok s ∧ (∀ c, stripe_known c s ↔ c ∈ sc_Name <$> cs_Servers (Spec cluster)) ∧
      ∀ c, stripe_known c s →
        all_servers (class_map (serverClasses s) c) ++
        all_servers (class_map (unschedulableServerClasses s) c) ≡ₚ pods_of_class c pods
  | Err e => e = ErrResourceAttributeRequired ∧
      (¬ Forall (has_groups cluster) (cs_Servers (Spec cluster)) ∨
       ∃ pod, pod ∈ pods ∧ active pod = true ∧ pod_class pod = None)
  | Panic => False
  end.
Proof.
  unfold NewStripeScheduler, initServerClasses. simpl.
  pose proof (initServerClasses_loop_spec cluster (cs_Servers (Spec cluster)) ∅) as Hinit.
  destruct (initServerClasses_loop _ _ _) as [m|e|]; simpl; cycle 1.
  { destruct Hinit as [-> ?]; [by intros ?? []%lookup_empty_Some|]. split; [done|by left]. }
  { apply Hinit. by intros ?? []%lookup_empty_Some. }
  destruct Hinit as (A1&A2&A3); [by intros ?? []%lookup_empty_Some|].
  set (s0 := set_serverClasses m _).
  assert (stripe_valid s0) as Hv.
  { split; simpl.
    - intros c sg Hc. by destruct (A2 c sg Hc) as (?&?&_).
    - by intros ?? []%lookup_empty_Some.
    - done. }
  assert (unsched_ok s0) as Hu.
  { split; simpl; [intros c sg Hc|intros c [sg Hc]]; by apply (lookup_empty_Some c sg) in Hc. }
  destruct (decide (Forall (λ pod, active pod = true → is_Some (pod_class pod)) pods)) as [Hall|Hnot].
  - rewrite Forall_forall in Hall. destruct (populate_spec pods s0 Hv Hu Hall) as (s&->&Hvs&Hus&Hk&Hp).
    assert (∀ c, stripe_known c s ↔ c ∈ sc_Name <$> cs_Servers (Spec cluster)) as Hk'.
    { intros c. rewrite Hk. unfold stripe_known; simpl. rewrite A3, lookup_empty.
      split; [by intros [?|[]]|by left]. }
    split_and!; [done..|]. intros c Hc. rewrite Hp by by apply Hk.
    simpl. rewrite (empty_classes_servers m c A2). unfold class_map at 1.
    rewrite lookup_empty. unfold all_servers. by rewrite map_to_list_empty, app_nil_r.
  - apply not_Forall_Exists in Hnot; [|apply _]. apply Exists_exists in Hnot as (pod&Hin&Hpod).
    assert (active pod = true ∧ pod_class pod = None) as [Ha Hc].
    { destruct (active pod) eqn:Ea; [|exfalso; apply Hpod; simpl; congruence].
      split; [done|]. apply eq_None_not_Some. intros ?. by apply Hpod. }
    rewrite (populate_error pods s0 pod) by done. split; [done|]. right. by exists pod.
Qed.
End new.

(** ** Properties *)
Section balance.
Context `{MapRange} `{MathRand}.

Lemma spread_insert_grow k m g l name :
  1 ≤ k → m !! g = Some l → is_min m (list_size l) → spread k m →
  spread k (<[g := serverList_push name l]> m).
Proof.
  intros Hk Hg [_ Hmin] Hs g1 l1 g2 l2 H1 H2.
  assert (list_size (serverList_push name l) = S (list_size l)) as Hsz.
  { unfold list_size, serverList_push. simpl. rewrite length_app. simpl. lia. }
  apply lookup_insert_Some in H1 as [[<- <-]|[_ H1]];
    apply lookup_insert_Some in H2 as [[<- <-]|[_ H2]]; rewrite ?Hsz.
  - lia.
  - specialize (Hmin g2 l2 H2). lia.
  - specialize (Hs g1 l1 g l H1 Hg). lia.
  - by eapply Hs.
Qed.

Lemma spread_insert_shrink k m g l l' name :
  1 ≤ k → m !! g = Some l → is_max m (list_size l) → servers l ≡ₚ name :: servers l' →
  spread k m → spread k (<[g := l']> m).
Proof.
  intros Hk Hg [_ Hmax] Hp Hs g1 l1 g2 l2 H1 H2.
  assert (list_size l = S (list_size l')) as Hsz.
  { unfold list_size. rewrite Hp. done. }
  apply lookup_insert_Some in H1 as [[<- <-]|[_ H1]];
    apply lookup_insert_Some in H2 as [[<- <-]|[_ H2]].
  - lia.
  - specialize (Hs g l g2 l2 Hg H2). lia.
  - specialize (Hmax g1 l1 H1). lia.
  - by eapply Hs.
Qed.
End balance.

Lemma spread_check k m :
  forallb (λ e1, forallb (λ e2, list_size e1.2 <=? list_size e2.2 + k) (map_to_list m))
    (map_to_list m) = true → spread k m.
Proof.
  intros Hall g l g' l' Hg Hg'. rewrite forallb_forall in Hall.
  specialize (Hall (g, l)). rewrite forallb_forall in Hall.
  apply Nat.leb_le, (Hall ltac:(by apply list_elem_of_In, elem_of_map_to_list) (g', l')).
  by apply list_elem_of_In, elem_of_map_to_list.
Qed.

Lemma example_stripe_valid : stripe_valid example_stripe.
Proof.
  split; simpl.
  - intros class sg Hc. apply lookup_singleton_Some in Hc as [_ <-]. split; [exact I|].
    apply insert_non_empty.
  - intros class sg Hc. by apply (lookup_empty_Some class sg) in Hc.
  - done.
Qed.

(** C25: scheduling keeps a class balanced: if the sizes of its groups differ by at
    most [k >= 1], they still do after a pod is created in a group the scheduler
    chose while no group is avoided, and after any [Delete], with or without a removal
    queue and whether or not it succeeds.  (A pod pinned to a group, or one created while
    groups are avoided, may break the balance.) *)
Theorem stripe_keeps_balance `{MapRange} `{MathRand} pos class name s k
    (Hv : stripe_valid s) (Hk : 1 ≤ k) (Ha : avoidGroups s = ∅)
    (Hs : spread k (class_map (serverClasses s) class)) :
  spread k (class_map (serverClasses (stripe_Create pos class name "" s).2) class) ∧
  spread k (class_map (serverClasses (stripe_Delete pos class s).2) class).
Proof.
  split.
  - destruct (stripe_Create_cases pos class name "" s Hv)
      as [(_&->)|[(sg&_&Hg&_)|(sg&g&l&Hc&Hl&_&Hmin&->)]]; [done|done|].
    simpl. rewrite class_map_put. rewrite (class_map_lookup _ _ _ Hc) in Hs.
    apply spread_insert_grow; auto.
  - destruct (stripe_Delete_cases pos class s Hv)
      as [(_&->)|(sg&rm&Hc&_&[(name'&s'&->&Hd)|[-> _]])]; [done| |done].
    destruct Hd as (g&sg'&l&l'&Hp&Hl&[(Hc'&Hmax&->)|(Hc'&->)]); simpl in *; [|done].
    rewrite class_map_put. rewrite (class_map_lookup _ _ _ Hc') in Hs.
    by eapply spread_insert_shrink.
Qed.

Lemma stripe_keeps_balance_witness :
  spread 1 (class_map (serverClasses
    (@stripe_Create canonical_range fixed_rand [] "data" "p3" "" example_stripe).2) "data") ∧
  spread 1 (class_map (serverClasses
    (@stripe_Delete canonical_range [] "data" example_stripe).2) "data").
Proof.
  apply (@stripe_keeps_balance canonical_range fixed_rand [] "data" "p3" example_stripe 1).
  - exact example_stripe_valid.
  - lia.
  - reflexivity.
  - apply spread_check. vm_compute. reflexivity.
Defined.

(** [Delete] names a pod exactly when the class is defined and has one the
    scheduler may remove: it fails only for an undefined class or when no
    scheduled group of the class has a pod, and then changes nothing but the
    removal queue; otherwise exactly one list loses exactly the pod it returns, a
    largest group of the class or a group of removable unscheduled pods. *)
Theorem stripe_Delete_victim `{MapRange} pos class s (Hv : stripe_valid s) :
  match stripe_Delete pos class s with
  | (Ok name, s') =>
      stripe_known class s ∧
      ∃ g l l', servers l ≡ₚ name :: servers l' ∧
        ((class_map (serverClasses s) class !! g = Some l ∧
          is_max (class_map (serverClasses s) class) (list_size l) ∧
          class_map (serverClasses s') class = <[g := l']> (class_map (serverClasses s) class) ∧
          removableUnscheduledServerClasses s' = removableUnscheduledServerClasses s) ∨
         (class_map (removableUnscheduledServerClasses s) class !! g = Some l ∧
          class_map (removableUnscheduledServerClasses s') class =
            <[g := l']> (class_map (removableUnscheduledServerClasses s) class) ∧
          serverClasses s' = serverClasses s))
  | (Err e, s') =>
      e = ErrResourceAttributeRequired ∧
      (¬ stripe_known class s ∨ all_servers (class_map (serverClasses s) class) = []) ∧
      serverClasses s' = serverClasses s ∧
      removableUnscheduledServerClasses s' = removableUnscheduledServerClasses s
  | (Panic, _) => False
  end.
Proof.
  destruct (stripe_Delete_cases pos class s Hv)
    as [(Hn&->)|(sg&rm&Hc&_&[(name&s'&->&Hd)|[-> He]])].
  - split_and!; [done|left; unfold stripe_known; rewrite Hn; by intros []|done|done].
  - split; [by eexists|]. destruct Hd as (g&sg'&l&l'&Hp&Hl&Hcase). exists g, l, l'.
    split; [done|]. unfold getGroup in Hl.
    destruct Hcase as [(Hc'&Hmax&->)|(Hc'&->)]; simpl in *; [left|right];
      rewrite class_map_put, (class_map_lookup _ _ _ Hc'); by split_and!.
  - split_and!; [done|right; by rewrite (class_map_lookup _ _ _ Hc)|done|done].
Qed.

Lemma stripe_Delete_victim_witness :
  stripe_valid example_stripe ∧
  (@stripe_Delete canonical_range [] "data" example_stripe).1 = Ok "p1" ∧
  match @stripe_Delete canonical_range [] "data" example_stripe with
  | (Ok name, s') => stripe_known "data" example_stripe
  | _ => True
  end.
Proof.
  split; [exact example_stripe_valid|]. split; [vm_compute; reflexivity|].
  pose proof (@stripe_Delete_victim canonical_range [] "data" example_stripe
    example_stripe_valid) as H.
  destruct (@stripe_Delete canonical_range [] "data" example_stripe) as [[name|e|] s'];
    [exact (proj1 H)|exact I|exact I].
Defined.

(** [NewStripeScheduler] succeeds exactly when every server class has server
    groups, its own or the cluster's, and every pending or running pod has a
    server class label; any other input is [ErrResourceAttributeRequired].  The
    scheduler it returns knows exactly the classes of the specification, and its
    scheduled and unschedulable lists of a class together hold exactly the
    running pods of that class. *)
Theorem NewStripeScheduler_spec `{MapRange} `{MathRand} `{NamespacedNames} pods cluster :
  match NewStripeScheduler pods cluster with
  | Ok s => Forall (has_groups cluster) (cs_Servers (Spec cluster)) ∧
      (∀ pod, pod ∈ pods → active pod = true → is_Some (pod_class pod)) ∧
      (∀ c, stripe_known c s ↔ c ∈ sc_Name <$> cs_Servers (Spec cluster)) ∧
      (∀ c, stripe_known c s →
        all_servers (class_map (serverClasses s) c) ++
        all_servers (class_map (unschedulableServerClasses s) c) ≡ₚ pods_of_class c pods)
  | Err e => e = ErrResourceAttributeRequired ∧
      (¬ Forall (has_groups cluster) (cs_Servers (Spec cluster)) ∨
       ∃ pod, pod ∈ pods ∧ active pod = true ∧ pod_class pod = None)
  | Panic => False
  end.
Proof.
  pose proof (NewStripeScheduler_cases pods cluster) as Hc.
  destruct (NewStripeScheduler pods cluster); [|done|done].
  by destruct Hc as (?&?&_&_&?&?).
Qed.

Lemma pods_of_class_NoDup class pods :
  NoDup (pod_Name <$> pods) → NoDup (pods_of_class class pods).
Proof.
  intros Hnd. eapply sublist_NoDup; [exact Hnd|].
  unfold pods_of_class. apply fmap_sublist, sublist_filter.
Qed.

(** C23: a stripe scheduler built from running pods with distinct names can always
    be rescheduled: with enough fuel the search of every class succeeds and its
    moves reach the goal of [Reschedule_converges]. *)
Theorem NewStripeScheduler_reschedules `{MapRange} `{MathRand} `{NamespacedNames}
    pods cluster s pos fuel
    (Hnew : NewStripeScheduler pods cluster = Ok s)
    (Hnd : NoDup (pod_Name <$> pods)) (Hlen : (Z.of_nat (length pods) < MaxInt)%Z)
    (Hfuel : ∀ class, stripe_known class s → reschedule_bound s class < fuel) :
  ∃ classes mvs, (∀ c, c ∈ classes ↔ c ∈ sc_Name <$> cs_Servers (Spec cluster)) ∧
    Forall2 (class_goal s) classes mvs ∧
    stripe_Reschedule pos fuel s = Some (Ok (mjoin mvs)).
Proof.
  pose proof (NewStripeScheduler_cases pods cluster) as Hcases. rewrite Hnew in Hcases.
  destruct Hcases as (_&_&Hv&Hu&Hk&Hp).
  assert (∀ c, is_Some (knownClasses s !! c) ↔ stripe_known c s) as Hknown.
  { intros c. rewrite elem_of_knownClasses. split; [|by left].
    intros [?|?]; [done|by apply Hu]. }
  exists (range (pos ++ [0]) (knownClasses s)).*1.
  destruct (reschedule_loop_goal pos fuel s (range (pos ++ [0]) (knownClasses s)).*1 0 [])
    as (mvs&Hm&Hr).
  - intros class Hc%elem_of_range_keys. apply Hknown in Hc. split; [|by apply Hfuel].
    unfold class_ok, class_pods. split_and!.
    + rewrite Hp by done. by apply pods_of_class_NoDup.
    + rewrite Hp by done. unfold pods_of_class. rewrite length_fmap.
      pose proof (length_filter (λ pod, active pod = true ∧ pod_class pod = Some class) pods). lia.
    + destruct Hc as [sg Hc]. rewrite (class_map_lookup _ _ _ Hc).
      by apply (sv_scheduled s Hv class sg).
  - exists mvs. split_and!; [|done|exact Hr].
    intros c. by rewrite elem_of_range_keys, Hknown, Hk.
Qed.

Lemma NewStripeScheduler_reschedules_witness :
  ∃ classes mvs, (∀ c, c ∈ classes ↔ c ∈ ["data"]) ∧
    Forall2 (class_goal example_new) classes mvs ∧
    @stripe_Reschedule canonical_range [] 100 example_new = Some (Ok (mjoin mvs)).
Proof.
  apply (@NewStripeScheduler_reschedules canonical_range fixed_rand (λ ns n, ns +:+ "/" +:+ n)
    example_pods example_cluster example_new [] 100).
  - vm_compute. reflexivity.
  - apply (bool_decide_unpack _). vm_compute. exact I.
  - vm_compute. reflexivity.
  - intros class [sg Hc]. unfold example_new in Hc. vm_compute in Hc.
    destruct (decide (class = "data")) as [->|Hne]; [vm_compute; lia|].
    exfalso. clear -Hc Hne. assert (serverClasses example_new !! class = None) as E.
    { unfold example_new. assert (∃ l, serverClasses example_new = {["data" := l]}) as [l El].
      { eexists. vm_compute. reflexivity. }
      unfold example_new in El. rewrite El. by rewrite lookup_singleton_ne. }
    vm_compute in E. congruence.
Defined.

(** A pod that [Delete] took from the removable unscheduled pods stays among the
    unschedulable pods, so a later [Reschedule] still moves it. *)
Example Delete_leaves_unschedulable :
  let '(r, s) := @stripe_Delete canonical_range [] "data" stale_example in
  r = Ok "p1" ∧
  @stripe_Reschedule canonical_range [] 100 s = Some (Ok [mkMove "p1" "z" "a"]).
Proof. vm_compute. split; reflexivity. Qed.
