(* ===== verification/Schedulers.v ===== *)
(** * pkg/util/scheduler/scheduler.go: which scheduler a cluster gets

    [New] takes the one that stripes over server groups where there are any.  Either is a
    scheduler, and keeps the laws of one. *)

From S2P Require Import Prelude GoLib Api ServerGroups Scheduler NullScheduler StripeScheduler Reschedule StripeSpec.

(** A method of whichever it is. *)
Definition either {A B R} (f : M A R) (g : M B R) : M (A + B) R := λ s,
  match s with
  | inl a => let '(r, a) := f a in (r, inl a)
  | inr b => let '(r, b) := g b in (r, inr b)
  end.

#[export] Instance either_Scheduler `{Scheduler A} `{Scheduler B} : Scheduler (A + B) := {|
  Create pos class name group := either (Create pos class name group) (Create pos class name group);
  Delete pos class := either (Delete pos class) (Delete pos class);
  Upgrade pos class name := either (Upgrade pos class name) (Upgrade pos class name);
  Reschedule pos fuel s :=
    match s with inl a => Scheduler.Reschedule pos fuel a | inr b => Scheduler.Reschedule pos fuel b end;
  RescheduleUnschedulableOnly pos s :=
    match s with
    | inl a => Scheduler.RescheduleUnschedulableOnly pos a
    | inr b => Scheduler.RescheduleUnschedulableOnly pos b
    end;
  EnQueueRemovals class names := either (EnQueueRemovals class names) (EnQueueRemovals class names);
  AvoidGroups groups := either (AvoidGroups groups) (AvoidGroups groups);
|}.

#[export] Program Instance either_SchedulerLaws `{SchedulerLaws A} `{SchedulerLaws B} : SchedulerLaws (A + B) := {|
  valid s := match s with inl a => valid a | inr b => valid b end;
  known class s := match s with inl a => known class a | inr b => known class b end;
  pods class s := match s with inl a => pods class a | inr b => pods class b end;
|}.
Next Obligation.
  intros A HA LA B HB LB pos class name group [a|b] Hv; simpl.
  - pose proof (Create_spec pos class name group a Hv) as Hc. by destruct (Create pos class name group a).
  - pose proof (Create_spec pos class name group b Hv) as Hc. by destruct (Create pos class name group b).
Qed.
Next Obligation.
  intros A HA LA B HB LB pos class name group [a|b] Hv Hk; simpl; by rewrite Create_undefined.
Qed.
Next Obligation.
  intros A HA LA B HB LB pos class [a|b] Hv; simpl.
  - pose proof (Delete_spec pos class a Hv) as Hc. by destruct (Delete pos class a).
  - pose proof (Delete_spec pos class b Hv) as Hc. by destruct (Delete pos class b).
Qed.
Next Obligation.
  intros A HA LA B HB LB pos class [a|b] Hv Hk; simpl; by rewrite Delete_undefined.
Qed.
Next Obligation.
  intros A HA LA B HB LB class names [a|b] Hv; simpl.
  - pose proof (EnQueueRemovals_spec class names a Hv) as Hc. by destruct (EnQueueRemovals class names a).
  - pose proof (EnQueueRemovals_spec class names b Hv) as Hc. by destruct (EnQueueRemovals class names b).
Qed.

(** [New] *)
Definition New `{MapRange} `{MathRand} `{NamespacedNames} (pods : list Pod) (cluster : CouchbaseCluster) :
    result (stripeSchedulerImpl + nullSchedulerImpl) :=
  if ServerGroupsEnabled (Spec cluster) then inl <$> NewStripeScheduler pods cluster
  else inr <$> NewNullScheduler pods cluster.
