(* ===== verification/Round.v ===== *)
(** * pkg/cluster/cluster.go, reconcile.go: a round

    What the operator does about a cluster when it is called ([RunReconcile]): pauses and
    manual interventions, pods that wait to be initialised, the members, and then the
    reconciliation ([reconcile]) with its hibernation, recovery, creation, the cycle of the
    handlers, and readiness. *)

From Stdlib Require Import Ascii.
From S2P Require Import Prelude Effects GoLib Regex Digests Version Api Member Persistence Status.
From S2P Require Import ServerGroups Scheduler UpgradeOrder RollingUpgrade NodeStatus Pods Volumes Machine Rebalance.
From S2P Require Import Baseline Claims Creation Recovery PendingInit Failover Scaling Autoscale Upgrading.
Local Open Scope Z_scope.

Definition PodInitializedAnnotationMinVersion : string := "2.2.0".
Definition ChangesMadeBeforeOperatorStart : string := "changesMadeBeforeOperatorStart".
Definition PodSucceeded : string := "Succeeded".
Definition PodFailed : string := "Failed".

(** [spec.mirWatchdog]. *)
Record MirWatchdogSpec := mkMirWatchdog {
  mw_Enabled : option bool;
  mw_SkipReconciliation : option bool;
}.

(** The watchdog for manual interventions, the semantic versions of a library, what the
    clients have, and the deletion of a pod without grace. *)
Class RoundPlatform (W : Type) := {
  mir_spec : W → option MirWatchdogSpec;
  isMirWatchdogRunning : W → bool;
  mir_Stop : W → W;
  semver_LessThan : string → string → result bool;
  client_password : W → string;
  client_TLS : W → option (string * option (string * string));   (* CACert, and Cert and Key of ClientAuth *)
  api_DeletePodNow : string → M W ();
}.

(** A pod as the scheduler sees it. *)
Definition pod_phase (phase : string) : PodPhase :=
  if bool_decide (phase = "Pending") then PodPending
  else if bool_decide (phase = "Running") then Api.PodRunning
  else if bool_decide (phase = PodSucceeded) then Api.PodSucceeded
  else if bool_decide (phase = PodFailed) then Api.PodFailed
  else PodUnknown.

Definition scheduled_pod (pod : KPod) : Api.Pod := {|
  pod_Name := kp_Name pod; pod_Labels := kp_Labels pod; pod_NodeSelector := kp_NodeSelector pod;
  pod_Phase := pod_phase (kp_Phase pod) |}.

(** A member whose object is changed in place. *)
Definition restamp (image version : string) (m : Member) : Member := Member.SetVersion (SetImage m image) version.

Definition restamp_member (name image version : string) (c : Cluster) : Cluster :=
  set_members (alter (restamp image version) name (c_members c))
    (alter (restamp image version) name (c_callableMembers c)) c.

(** [defer func() { ... }()]: on every outcome, a panic included. *)
Definition defer {S A} (m : M S A) (d : M S ()) : M S A := λ s,
  let '(r, s) := m s in
  match d s with
  | (Panic, s) => (Panic, s)
  | (_, s) => (r, s)
  end.

Section round.
Context `{UpgradePlatform W} `{!ClaimPlatform W} `{!NodeInit W} `{!RoundPlatform W} `{PersistentStorage W}
  `{Environment} `{SpecJSON} `{TrackerJSON} `{MapRange} `{Scheduler Sc}.
Abbreviation R := (RS W).
Abbreviation FS := (RS W * Sc)%type.

(** ** Hibernation *)

(** Every pod goes, its volumes stay. *)
Definition hibernate_pod (pos : list nat) (e : nat * Member) : M R () :=
  removePod (Name e.2) false;;
  clusterRemoveMember (e.1 :: pos) (Name e.2).

Definition hibernate_pods (pos : list nat) : M R () :=
  c ← gets cl; w ← gets world;
  let ms := podsToMemberSet (getClusterPods c w) in
  for_each (hibernate_pod (0%nat :: pos)) (imap pair (range (1%nat :: pos) ms).*2);;
  modify (set_cl (set_status (ClearCondition ClusterConditionAvailable)));;
  modify (set_cl (set_status (ClearCondition ClusterConditionBalanced)));;
  set_status_now (λ now, SetHibernatingCondition now "Cluster hibernating");;
  updateCRStatus.

(** Not knowing whether there are memcached buckets counts as having some. *)
Definition memcached_now : M R bool :=
  c ← gets cl;
  if HasNeverRun (c_cluster c) then mret false
  else
    has ← attempt hasMemcachedBuckets;
    mret (match has with inl has => has | inr _ => true end).

Definition hibernate (pos : list nat) : M R () :=
  c ← gets cl;
  if HasCondition (c_cluster c) ClusterConditionHibernating then hibernate_pods pos
  else if negb (CanHibernate (c_cluster c)).1 then mret tt
  else
    has ← memcached_now;
    modify (set_cl (set_status (set_HibernatedWithMemcachedBuckets (Some has))));;
    hibernate_pods pos.

(** Nothing is known of what stands in the way if it cannot be found out. *)
Definition blocked_upgrade : M R bool :=
  blockers ← attempt getUpgradeBlockers;
  mret (match blockers with inl [] => false | _ => true end).

Definition restamp_one (image version : string) (m : Member) : M R () :=
  modify (set_cl (restamp_member (Name m) image version));;
  restampPVCImage (Name m) image version.

Definition applyPendingHibernationUpgrade : M R () :=
  found ← offlineUpgradeCandidates;
  let '(candidates, blocked) := found in
  if blocked : bool then mret tt
  else if bool_decide (candidates = []) then mret tt
  else
    blockers ← blocked_upgrade;
    if blockers : bool then mret tt
    else
      c ← gets cl;
      let newImage := CouchbaseImage (Spec (c_cluster c)) in
      newVersion ← lift (CouchbaseImageVersion (c_learned c) newImage);
      let total := Z.of_nat (size (c_members c)) in
      reportUpgrade (total - Z.of_nat (length candidates)) total;;
      for_each (restamp_one newImage newVersion) candidates.

Definition wake : M R () :=
  applyPendingHibernationUpgrade;;
  modify (set_cl (set_status (ClearCondition ClusterConditionHibernating)));;
  modify (set_cl (set_status (set_HibernatedWithMemcachedBuckets None))).

Definition offline_upgrade (pos : list nat) : M R () :=
  found ← offlineUpgradeCandidates;
  let '(candidates, blocked) := found in
  if bool_decide (candidates = []) || blocked then mret tt
  else
    c ← gets cl;
    if negb (Cluster_IsSupportable (c_cluster c)) then mret tt
    else
      blockers ← blocked_upgrade;
      if blockers : bool then mret tt else hibernate pos.

Definition reconcileHibernation (pos : list nat) : M R () :=
  c ← gets cl;
  if cs_Hibernate (Spec (c_cluster c)) then hibernate pos
  else if HasCondition (c_cluster c) ClusterConditionHibernating then wake
  else if bool_decide (GetUpgradeProcess (c_cluster c) = OfflineUpgrade) then offline_upgrade pos
  else mret tt.

(** ** Pods that are over, and a cluster without any *)
Definition delete_completed (pod : KPod) : M R () :=
  if bool_decide (kp_Phase pod ∈ [PodSucceeded; PodFailed]) then on_world (api_DeletePodNow (kp_Name pod))
  else mret tt.

Definition reconcileCompletedPods : M R () :=
  c ← gets cl; w ← gets world;
  for_each delete_completed (getClusterPods c w).

Definition recover_member (recovered : bool) (name : string) : M R bool :=
  s ← get;
  match c_members (cl s) !! name with
  | None => lift Panic
  | Some m =>
      if negb (recoverable s m) then mret recovered
      else if already_recreated (world s) name then mret recovered
      else recreatePod m false;; mret true
  end.

Definition recoverClusterDown : M R bool :=
  c ← gets cl;
  for_fold recover_member false (Names (c_members c)).

(** ** A new cluster *)
Definition upsert_TLS (tls : option (string * option (string * string))) : M W () :=
  match tls with
  | None => mret tt
  | Some (ca, auth) =>
      ps_Upsert "caCertificate" ca;;
      match auth with
      | None => mret tt
      | Some (cert, key) => ps_Upsert "clientCertificate" cert;; ps_Upsert "clientKey" key
      end
  end.

(** Of what was stored, only the groups in which pods could not be scheduled are kept. *)
Definition initializeClusterState (initClients : M R ()) : M R () :=
  c ← gets cl;
  lowestImage ← lift (LowestInUseCouchbaseVersionImage (Spec (c_cluster c)));
  version ← lift (CouchbaseImageVersion (c_learned c) lowestImage);
  tracker ← attempt (on_world (ps_Get FailedSchedulingServerGroupsTracker));
  match tracker with
  | inr e => if bool_decide (e = ErrKeyError) then mret tt else throw e
  | inl _ => mret tt
  end;;
  let kept := match tracker with inl t => t | inr _ => "" end in
  on_world ps_Clear;;
  (if bool_decide (kept = "") then mret tt else on_world (ps_Upsert FailedSchedulingServerGroupsTracker kept));;
  initClients;;
  on_world (ps_Upsert PodIndex "0");;
  on_world (ps_Upsert VersionKey version);;
  (if VersionKnown version then modify (set_cl (set_status (SetVersion version))) else mret tt);;
  w ← gets world;
  on_world (ps_Upsert "password" (client_password w));;
  on_world (ps_Upsert Persistence.Upgrading UpgradeInactive);;
  w ← gets world;
  on_world (upsert_TLS (client_TLS w)).

Definition indexOfServerConfigWithService (svc : Service) (servers : list ServerConfig) : option (nat * ServerConfig) :=
  list_find (λ sc, svc ∈ sc_Services sc) servers.

Definition createInitialMember (pos schedule : list nat) : M FS () :=
  c ← on_rs (gets cl);
  let servers := cs_Servers (Spec (c_cluster c)) in
  if bool_decide (servers = []) then on_rs (throw ErrResourceAttributeRequired)
  else
    match indexOfServerConfigWithService DataService servers with
    | None => on_rs (throw ErrConfigurationInvalid)
    | Some (_, class) =>
        on_rs (modify (set_cl (λ c, set_members ∅ (c_callableMembers c) c)));;
        results ← createMembers pos schedule [class];
        match results with
        | [] => on_rs (throw ErrInternalError)
        | (_, Some e) :: _ => on_rs (throw e)
        | (_, None) :: _ => mret tt
        end
    end.

Definition create (initClients : M R ()) (pos schedule : list nat) : M FS () :=
  on_rs (initializeClusterState initClients);;
  on_rs (set_status_now SetCreatingCondition);;
  on_rs updateCRStatus;;
  createInitialMember pos schedule.

(** ** Readiness *)

(** The condition is set once: a pod that has it keeps it, whatever it says. *)
Definition FlagPodReady (name : string) : M W () :=
  w ← get;
  match Pods_Get w name with
  | None => mret tt
  | Some pod =>
      match GetPodCondition pod PodReadinessCondition with
      | Some _ => mret tt
      | None =>
          readinessCondition ← NewPodCondition PodReadinessCondition "True" "";
          UpsertPodCondition pod readinessCondition
      end
  end.

Definition held_for_DNS (c : Cluster) (w : W) (pod : KPod) : bool :=
  IsPendingDNSMember pod &&
  (negb (default false (AllowExternallyUnreachablePods (c_networking c))) || negb (hasDNSCheckDelayElapsed c w pod)).

Definition waits_for_CNG (pod : KPod) : bool :=
  existsb (λ s : string * bool, bool_decide (s.1 = CloudNativeGatewayContainerName) && negb s.2) (kp_ContainerStatuses pod).

Definition ready_pod (name : string) : M R () :=
  c ← gets cl; w ← gets world;
  match Pods_Get w name with
  | None => mret tt
  | Some pod =>
      if held_for_DNS c w pod then mret tt
      else if waits_for_CNG pod then
        if condition_true pod PodReadinessCondition then on_world (FlagPodUnready name) else mret tt
      else on_world (FlagPodReady name)
  end.

Definition reconcileReadiness (pos : list nat) : M R () :=
  c ← gets cl;
  for_each ready_pod (range pos (c_callableMembers c)).*1.

(** ** Status *)
Definition reconcilePersistentStatus : M R () :=
  uuid ← on_world (ps_Get UUID);
  modify (set_cl (set_status (SetClusterID uuid)));;
  ignore_error updateCRStatus.

Definition isScalingDown (c : Cluster) (w : W) : bool :=
  let replaced := filter (λ e : string * Member,
    from_option IsPodPendingUpgradeBeforeEjection false (Pods_Get w e.1) = true) (c_members c) in
  existsb (λ sc,
      let ms := GroupByServerConfig (sc_Name sc) (c_members c) in
      bool_decide (Z.of_nat (size (Intersect replaced ms)) < wrap64 (Z.of_nat (size ms) - sc_Size sc)))
    (cs_Servers (Spec (c_cluster c))).

(** The members whose pod does not wait to be initialised. *)
Definition initialized_size (c : Cluster) (w : W) : Z :=
  Z.of_nat (size (filter (λ e : string * Member,
    from_option HasPendingInitializationCondition false (Pods_Get w e.1) = false) (c_members c))).

Definition clear_condition_if (b : bool) (t : ClusterConditionType) : M R () :=
  if b then modify (set_cl (set_status (ClearCondition t))) else mret tt.

Definition updateFinalReconcileStatus : M R () :=
  c ← gets cl; w ← gets world;
  modify (set_cl (set_status (set_Size (initialized_size c w))));;
  let pending := bool_decide (getPendingInitPods c w ≠ []) in
  let scalingDown := isScalingDown c w in
  clear_condition_if (negb pending) ClusterConditionScalingUp;;
  clear_condition_if (negb scalingDown) ClusterConditionScalingDown;;
  clear_condition_if (negb pending && negb scalingDown) ClusterConditionScaling;;
  clear_condition_if true ClusterConditionRebalancing;;
  set_status_now (if pending then SetUnbalancedCondition else SetBalancedCondition);;
  set_status_now SetReadyCondition.

(** ** The reconciliation

    The reconcilers that are not modelled are lists of computations, in the places the
    code has them; so is what the clients and the certificates need. *)
Definition run_all (l : list (M FS ())) : M FS () := for_each id l.

Section reconcile.
Context (newScheduler : list Api.Pod → CouchbaseCluster → result Sc).
Context (initClients : M R ()) (schedule : list nat).
Context (reconcileStatus : M R ()) (preCreation : list (M FS ())).
Context (reconcileAdminPassword reconcileTLSPreTopologyChange : M R ()).
Context (handlers : list nat → nat → list (M FS ())).
Context (postTopology : list (M FS ())).

(** Whether there is nothing more to do: pods were brought back. *)
Definition recover_without_pods : M R bool :=
  set_status_now SetCreatingCondition;;
  updateCRStatus;;
  recoverClusterDown.

Definition topology (pos : list nat) (fuel : nat) : M FS () :=
  run_all (on_rs <$> [reconcilePodServerVersions (0%nat :: pos); reconcileVersionBaseline (1%nat :: pos);
                      reconcilePersistentStatus; reconcileAdminPassword; reconcileTLSPreTopologyChange;
                      reconcilePVCImages]);;
  r ← on_rs (newReconcileMachine (2%nat :: pos));
  on_rs (modify (set_fsm (λ _, r)));;
  aborted ← exec (handlers (3%nat :: pos) fuel);
  if aborted : bool then mret tt
  else
    on_rs (updateMembers (4%nat :: pos));;
    on_rs (reportMixedMode (5%nat :: pos));;
    reportUpgradeComplete (6%nat :: pos) fuel (Some (couchbase r));;
    on_rs (reconcileReadiness (7%nat :: pos));;
    upgrading ← attempt (on_rs (on_world isUpgrading));
    c ← on_rs (gets cl);
    if match upgrading with
       | inl true => negb (HasCondition (c_cluster c) ClusterConditionWaitingBetweenUpgrades)
       | _ => false
       end
    then mret tt
    else
      on_rs (modify (set_cl (set_status (ClearCondition ClusterConditionUpgrading))));;
      run_all postTopology;;
      on_rs clearFailedSchedulingServerGroupsIfReady;;
      on_rs updateFinalReconcileStatus.

Definition reconcile (pos : list nat) (fuel : nat) : M FS () :=
  s ← on_rs get;
  let pods := getClusterPods (cl s) (world s) in
  sc ← lift (newScheduler (scheduled_pod <$> pods) (c_cluster (cl s)));
  on_scheduler (put sc);;
  on_rs (reconcileHibernation (0%nat :: pos));;
  c ← on_rs (gets cl);
  if HasCondition (c_cluster c) ClusterConditionHibernating then mret tt
  else
    run_all (on_rs <$> [reconcileStatus; reconcileCompletedPods]);;
    run_all preCreation;;
    recovered ← (if bool_decide (pods = []) then on_rs recover_without_pods else mret false);
    if recovered : bool then mret tt
    else
      c ← on_rs (gets cl);
      if Empty (c_members c) then create initClients (1%nat :: pos) schedule
      else topology (2%nat :: pos) fuel.
End reconcile.

(** ** The round *)
Definition podInitialized (pod : KPod) : bool :=
  match kp_Annotations pod !! ResourceVersionAnnotation with
  | None => true
  | Some version =>
      match semver_LessThan (W := W) version PodInitializedAnnotationMinVersion with
      | Ok false => bool_decide (is_Some (kp_Annotations pod !! PodInitializedAnnotation))
      | _ => true
      end
  end.

Definition kill_uninitialized (pod : KPod) : M R () :=
  if podInitialized pod then mret tt else ignore_error (on_world (api_DeletePod (kp_Name pod))).

Definition checkUpdateTime (operatorStartTime : Z) : M R () :=
  c ← gets cl;
  let last := st_LastUpdateTime (Status (c_cluster c)) in
  if bool_decide (last = "") then mret tt
  else
    timeOfChange ← lift (time_ParseRFC3339 (W := W) last);
    if bool_decide (timeOfChange < operatorStartTime) then
      set_status_now (λ now, SetErrorCondition now
        "Operator started after changes made. Revert your changes to avoid errors.");;
      on_world (ps_Upsert ChangesMadeBeforeOperatorStart "true")
    else
      stored ← attempt (on_world (ps_Get ChangesMadeBeforeOperatorStart));
      match stored with
      | inr _ => mret tt
      | inl _ =>
          modify (set_cl (set_status (ClearCondition ClusterConditionError)));;
          on_world (ps_Update ChangesMadeBeforeOperatorStart "false")
      end.

Definition isMirWatchdogEnabled (w : W) : bool :=
  match mir_spec w with Some mw => default false (mw_Enabled mw) | None => false end.
Definition mir_skips (w : W) : bool :=
  match mir_spec w with Some mw => default false (mw_SkipReconciliation mw) | None => false end.

Definition StopMirWatchdog : M R () :=
  modify (set_cl (set_status (ClearCondition ClusterConditionManualInterventionRequired)));;
  modify (λ s, set_world (mir_Stop (world s)) s).

(** Whether a manual intervention that is required ends the round. *)
Definition manual_intervention : M R bool :=
  c ← gets cl; w ← gets world;
  if negb (HasCondition (c_cluster c) ClusterConditionManualInterventionRequired) then mret false
  else
    let running := isMirWatchdogRunning w in
    let enabled := isMirWatchdogEnabled w in
    if running && enabled && mir_skips w then mret true
    else if negb running then
      modify (set_cl (set_status (ClearCondition ClusterConditionManualInterventionRequired)));; mret false
    else if negb enabled then StopMirWatchdog;; mret false
    else mret false.

Section run.
Context (error_Error : error → string) (tlsCache : option string).
Context (rotateExpiredCertificates : M R ()).
Context (reconcileMigrationCluster reconcile_cluster : list nat → M FS ()).

(** Whether the first of two ways out is taken: the pods that wait are all there is. *)
Definition pending_pods (pos : list nat) : M R bool :=
  c ← gets cl; w ← gets world;
  if bool_decide (getPendingInitPods c w = []) then mret false
  else
    updatePendingInitializationConditions tlsCache pos;;
    mret (Empty (readyMembers c)).

Definition no_members : M R () :=
  c ← gets cl; w ← gets world;
  for_each kill_uninitialized (runningPods c w);;
  ignore_error rotateExpiredCertificates.

Definition reconcile_failed (e : error) : M R () :=
  set_status_now (λ now, SetErrorCondition now (error_Error e));;
  ignore_error updateCRStatus.

Definition in_control (pos : list nat) (operatorStartTime : Z) : M FS () :=
  on_rs (modify (set_cl (set_status Control)));;
  waits ← on_rs (pending_pods (0%nat :: pos));
  if waits : bool then mret tt
  else
    updated ← attempt (on_rs (updateMembers (1%nat :: pos)));
    match updated with
    | inr _ => on_rs no_members
    | inl _ =>
        on_rs (ignore_error (checkUpdateTime operatorStartTime));;
        c ← on_rs (gets cl);
        outcome ← attempt (if IsMigrationCluster (c_cluster c) then reconcileMigrationCluster (2%nat :: pos)
                           else reconcile_cluster (2%nat :: pos));
        match outcome with
        | inr e => on_rs (reconcile_failed e)
        | inl _ => on_rs (ignore_error retry_update)
        end
    end.

Definition RunReconcile (pos : list nat) (operatorStartTime : Z) : M FS () :=
  defer (
    stored ← attempt (on_rs (on_world (ps_Get RebalanceRetries)));
    inserted ← attempt (match stored with
      | inr ErrKeyError => on_rs (on_world (ps_Insert RebalanceRetries "1"))
      | _ => mret tt
      end);
    match inserted with
    | inr _ => mret tt
    | inl _ =>
        c ← on_rs (gets cl);
        if cs_Paused (Spec (c_cluster c)) then on_rs (modify (set_cl (set_status PauseControl)))
        else
          skip ← on_rs manual_intervention;
          if skip : bool then mret tt else in_control pos operatorStartTime
    end) (on_rs (ignore_error updateCRStatus)).

(** [Update]: an object older than the last one written is dropped; otherwise it takes
    the place of the one in memory, with what its annotations say.  [generation] is the
    one of the last write of the status. *)
Definition set_LastUpdateTime (now : string) (cs : ClusterStatus) : ClusterStatus :=
  {| st_ControlPaused := st_ControlPaused cs; st_Conditions := st_Conditions cs;
     st_ClusterID := st_ClusterID cs; st_Size := st_Size cs;
     st_CurrentVersion := st_CurrentVersion cs;
     st_RebalanceAttempts := st_RebalanceAttempts cs;
     st_HibernatedWithMemcachedBuckets := st_HibernatedWithMemcachedBuckets cs;
     st_Members := st_Members cs;
     st_Autoscalers := st_Autoscalers cs; st_LastUpdateTime := now |}.

Definition Update (specs_equal : StoredCluster → Cluster → bool) (annotated : StoredCluster → StoredCluster)
    (generation : Z) (pos : list nat) (operatorStartTime : Z) (newGeneration : Z) (cluster : StoredCluster) : M FS () :=
  if bool_decide (newGeneration < generation) then mret tt
  else
    let cluster := annotated cluster in
    c ← on_rs (gets cl);
    (if specs_equal cluster c then mret tt else on_rs (set_status_now set_LastUpdateTime));;
    on_rs (modify (set_cl (set_stored cluster)));;
    RunReconcile pos operatorStartTime.
End run.

(** After a restart: the specification that was reconciled last takes the place of one
    that may not be changed to. *)
Definition UpdateOnFailedValidationOperatorRestart (validationErr : string) (existingCluster : StoredCluster) : M R () :=
  set_status_now (λ now, SetErrorCondition now validationErr);;
  modify (set_cl (set_stored existingCluster)).
End round.

(** ** Allocated memory

    [reconcileStatus]: per server class, the memory of the services with a quota, and what
    that is of the memory the class requests.  Quantities are those of the Kubernetes
    library; [Value] rounds one up to a whole number.  The percentages are computed in 64
    bits and divided without a look at the divisor. *)
Record ServerClassStatus (Q : Type) := mkClassStatus {
  scs_Name : string;
  RequestedMemory : option Q;
  AllocatedMemory : Q;
  AllocatedMemoryPercent : Z;
  UnusedMemory : option Q;
  UnusedMemoryPercent : Z;
  ServiceAllocations : gmap string Q;
}.
Arguments mkClassStatus {Q} _ _ _ _ _ _ _.

Definition constrainedServices : list Service :=
  [DataService; IndexService; SearchService; EventingService; AnalyticsService].

Section allocations.
Context {Q : Type} (q_zero : Q) (q_Add q_Sub : Q → Q → Q) (q_Value : Q → Z).
(** The quotas of [spec.cluster]; a missing one is a nil pointer. *)
Context (MemQuota : Service → option Q).

Fixpoint allocate (services : list Service) (allocated : Q) (by_service : gmap string Q) : result (Q * gmap string Q) :=
  match services with
  | [] => Ok (allocated, by_service)
  | service :: services =>
      if bool_decide (service ∈ constrainedServices) then
        match MemQuota service with
        | None => Panic
        | Some quota => allocate services (q_Add allocated quota) (<[service := quota]> by_service)
        end
      else allocate services allocated by_service
  end.

Definition percent (n d : Z) : result Z :=
  if bool_decide (d = 0) then Panic else Ok (Z.quot (wrap64 (n * 100)) d).

Definition class_status (name : string) (requested : option Q) (services : list Service) : result (ServerClassStatus Q) :=
  allocated ← allocate services q_zero ∅;
  match requested with
  | None => Ok (mkClassStatus name None allocated.1 0 None 0 allocated.2)
  | Some value =>
      let unused := q_Sub value allocated.1 in
      allocatedPercent ← percent (q_Value allocated.1) (q_Value value);
      unusedPercent ← percent (q_Value unused) (q_Value value);
      Ok (mkClassStatus name (Some value) allocated.1 allocatedPercent (Some unused) unusedPercent allocated.2)
  end.

(** [memory] is the memory request of a class. *)
Fixpoint allocations (memory : ServerConfig → option Q) (classes : list ServerConfig) :
    result (list (ServerClassStatus Q)) :=
  match classes with
  | [] => Ok []
  | class :: classes =>
      status ← class_status (sc_Name class) (memory class) (sc_Services class);
      statuses ← allocations memory classes;
      Ok (status :: statuses)
  end.
End allocations.
