(* ===== verification/Watchdog.v ===== *)
(** * pkg/cluster/mir_watchdog.go: when an administrator has to step in

    At an interval a goroutine looks for the states the operator cannot get a cluster out
    of by itself.  What it finds is the message of a condition, and that message is all it
    remembers from one look to the next. *)

From Stdlib Require Import Ascii.
From S2P Require Import Prelude Effects GoLib Regex Digests Version Api Member Persistence Status.
From S2P Require Import ServerGroups Scheduler UpgradeOrder RollingUpgrade NodeStatus Pods Volumes Machine Rebalance.
From S2P Require Import Baseline Claims Creation Recovery PendingInit Failover Scaling Autoscale Upgrading Round.
Local Open Scope Z_scope.

Definition ManualInterventionRequired : Type := string.
Definition MIRLoginFailure : ManualInterventionRequired :=
  "Unable to authenticate to the cluster using login credentials provided".
Definition MIRRebalanceRetriesExhausted : ManualInterventionRequired :=
  "Rebalance retries have been exhausted 3 times in a row".
Definition MIRManualActionDownNodes : ManualInterventionRequired :=
  "There are down nodes that cannot be recovered".
Definition MIRTLSExpired : ManualInterventionRequired := "TLS certificate has expired".

Definition newline : string := String "010"%char EmptyString.

Definition clusterConditionMessage (mirl : list ManualInterventionRequired) : string := strings_Join mirl newline.

Definition inMirStateForReason (existingCondition : option ClusterCondition) (reason : ManualInterventionRequired) : bool :=
  match existingCondition with
  | Some cond => strings_Contains (cc_Message cond) reason
  | None => false
  end.

(** What the clients of the operator use for TLS, and what it last read for them. *)
Record ClientTLS := mkClientTLS {
  tls_ClientAuth : option string;   (* its certificate *)
  tls_CACert : string;
  tls_RootCAs : list string;
}.

Record TLSCache := mkTLSCache {
  cache_clientCert : string;
  cache_serverCA : string;
  cache_rootCAs : list string;
}.

(** The context of the watchdog, its start, the status a failed request got, TLS, and
    whether a certificate of a chain has expired. *)
Class WatchdogPlatform (W : Type) := {
  watchdog_done : W → bool;
  mir_Start : Z → W → W;
  mir_Interval : W → option Z;   (* of the specification *)
  failed_status : error → option Z;
  api_GetTLS : W → option ClientTLS;
  tls_cache : W → option TLSCache;   (* nil until it could be filled once *)
  AllowPlainTextCertReload : W → bool;
  initTLSCache : M W ();
  checkCertExpiration : W → string → bool;
}.

(** [reflect.DeepEqual] of a list and a pointer to one, which are of two types. *)
Definition list_equals_pointer (roots : list string) (cached : list string) : bool := false.

Section watchdog.
Context `{Platform W} `{!RoundPlatform W} `{!WatchdogPlatform W} `{PersistentStorage W} `{Environment} `{MapRange}.
Abbreviation R := (RS W).

(** ** The checks; each says whether its reason is there *)
Definition checkForClusterLoginFailure : M R bool :=
  c ← gets cl; w ← gets world;
  if bool_decide (length (runningPods c w) = 0%nat) then mret false
  else
    answer ← attempt (on_world (cb_GetPools (ToMembers (podsToMemberSet (runningPods c w)))));
    mret (match answer with inr e => bool_decide (failed_status (W := W) e = Some 401) | inl _ => false end).

Definition healthy (pos : list nat) (status : ClusterState) : bool :=
  Balanced status && areAllNodesActive pos (NodeStates status).

Definition checkForConsecutiveRebalanceFailures (pos : list nat) (existingCondition : option ClusterCondition) : M R bool :=
  if inMirStateForReason existingCondition MIRRebalanceRetriesExhausted then
    status ← attempt (GetStatus (0%nat :: pos));
    mret (match status with inr _ => true | inl status => negb (healthy (1%nat :: pos) status) end)
  else
    c ← gets cl;
    if bool_decide (3 ≤ GetRebalanceAttempts (Status (c_cluster c))) then
      status ← attempt (GetStatus (2%nat :: pos));
      mret (match status with inr _ => false | inl status => negb (healthy (3%nat :: pos) status) end)
    else mret false.

(** [getDownNodes] *)
Definition down_node (learned : gmap string string) (pos : list nat) (c : Cluster) (e : nat * NodeInfo) : list string :=
  match getNodeState e.2 with
  | Ok state => if bool_decide (state = NodeStateDown)
                then [getNodeMemberName (e.1 :: pos) (hostNetwork c) (c_callableMembers c) e.2] else []
  | _ => []
  end.

Definition getDownNodes (pos : list nat) : M R (list string) :=
  c ← gets cl;
  if bool_decide (size (c_callableMembers c) = 0%nat) then mret []
  else
    info ← attempt (on_world (cb_GetPoolsDefault (ToMembers (c_callableMembers c))));
    mret (match info with
          | inr _ => []
          | inl info => concat (imap (λ i node, down_node (c_learned c) pos c (i, node)) (Nodes info))
          end).

(** The loop: the first member that is lost for good ends it. *)
Fixpoint lost_member (downNodes : list string) : M R bool :=
  match downNodes with
  | [] => mret false
  | downMember :: downNodes =>
      c ← gets cl;
      match c_members c !! downMember with
      | None => lost_member downNodes
      | Some m =>
          r ← hasMemberRecoveryTimeElapsed downMember;
          if negb r then lost_member downNodes
          else
            s ← get;
            if recoverable s m then lost_member downNodes else mret true
      end
  end.

Definition checkForManualActionDownNodes (pos : list nat) : M R bool :=
  c ← gets cl;
  if bool_decide (GetRecoveryPolicy (c_cluster c) ≠ PrioritizeDataIntegrity) then mret false
  else downNodes ← getDownNodes pos; lost_member downNodes.

(** A field of the cache, which panics while there is none. *)
Definition cached {A} (w : W) (f : TLSCache → A) : result A :=
  match tls_cache w with Some cache => Ok (f cache) | None => Panic end.

(** An expired certificate that the operator is not going to replace: plain text reload is
    off, or what it last read is the same one. *)
Definition stays_expired (w : W) (cert : string) (same : TLSCache → bool) : result bool :=
  if negb (checkCertExpiration w cert) then Ok false
  else if negb (AllowPlainTextCertReload w) then Ok true
  else cached w same.

Fixpoint roots_expired (w : W) (tls : ClientTLS) (roots : list string) : result bool :=
  match roots with
  | [] => Ok false
  | ca :: roots =>
      expired ← stays_expired w ca (λ cache, list_equals_pointer (tls_RootCAs tls) (cache_rootCAs cache));
      if expired : bool then Ok true else roots_expired w tls roots
  end.

Definition tls_expired (w : W) (tls : ClientTLS) : result bool :=
  client ← match tls_ClientAuth tls with
           | Some cert => if checkCertExpiration w cert
                          then cached w (λ cache, bool_decide (cert = cache_clientCert cache)) else Ok false
           | None => Ok false
           end;
  if client : bool then Ok true
  else
    ca ← stays_expired w (tls_CACert tls) (λ cache, bool_decide (tls_CACert tls = cache_serverCA cache));
    if ca : bool then Ok true else roots_expired w tls (tls_RootCAs tls).

Definition checkForTLSExpiration (existingCondition : option ClusterCondition) : M R bool :=
  c ← gets cl; w ← gets world;
  if negb (IsTLSEnabled c) then mret false
  else match api_GetTLS w with
  | None => mret false
  | Some clientTLS =>
      (if inMirStateForReason existingCondition MIRTLSExpired
       then ignore_error (on_world initTLSCache) else mret tt);;
      w ← gets world; lift (tls_expired w clientTLS)
  end.

(** ** A look at the cluster *)
Definition found (reason : ManualInterventionRequired) (b : bool) : list ManualInterventionRequired :=
  if b then [reason] else [].

Definition existing : M R (option ClusterCondition) :=
  c ← gets cl; mret (GetCondition (Status (c_cluster c)) ClusterConditionManualInterventionRequired).

Definition handleManualInterventionRequired (mirList : list ManualInterventionRequired) : M R () :=
  set_status_now (λ now, SetManualInterventionRequiredCondition now (clusterConditionMessage mirList)).

Definition handleNoManualInterventionRequired (existingCondition : option ClusterCondition) : M R () :=
  match existingCondition with
  | Some _ => modify (set_cl (set_status (ClearCondition ClusterConditionManualInterventionRequired)))
  | None => mret tt
  end.

Definition checkCluster (pos : list nat) : M R () :=
  w ← gets world;
  if watchdog_done w then mret tt
  else
    existingCondition ← existing;
    login ← checkForClusterLoginFailure;
    rebalance ← checkForConsecutiveRebalanceFailures (0%nat :: pos) existingCondition;
    down ← checkForManualActionDownNodes (1%nat :: pos);
    tls ← checkForTLSExpiration existingCondition;
    let mirList := found MIRLoginFailure login ++ found MIRRebalanceRetriesExhausted rebalance ++
                   found MIRManualActionDownNodes down ++ found MIRTLSExpired tls in
    (if bool_decide (0 < length mirList)%nat then handleManualInterventionRequired mirList
     else handleNoManualInterventionRequired existingCondition);;
    ignore_error retry_update.

(** ** Starting and stopping it ([ReconcileMirWatchdogContext]) *)
Definition ReconcileMirWatchdogContext : M R () :=
  w ← gets world;
  let enabled := isMirWatchdogEnabled w in
  let running := isMirWatchdogRunning w in
  if negb enabled && running then StopMirWatchdog
  else if enabled && negb running
  then modify (λ s, set_world (mir_Start (default 20_000_000_000 (mir_Interval w)) (world s)) s)
  else mret tt.
End watchdog.
