(* ===== verification/RoundSpec.v ===== *)
(** * A round: theorems about [Round] *)

From Stdlib Require Import Ascii.
From S2P Require Import Prelude Effects GoLib Regex Digests Version Api Member Persistence Status.
From S2P Require Import ServerGroups Scheduler NullScheduler UpgradeOrder RollingUpgrade NodeStatus Pods Volumes Machine Rebalance.
From S2P Require Import Baseline Claims Creation Recovery PendingInit Failover Scaling Autoscale Upgrading Round.
From S2P Require Import Sim MachineSpec RebalanceSpec MachineTypes RecoverySpec FailoverSpec UpgradingSpec CreationSpec.
Local Open Scope Z_scope.

(** The deletions of pods so far. *)
Definition deletions {W} (s : RS W) : list (string * bool) :=
  omap (λ e, match e with PodDeleted name volumes => Some (name, volumes) | _ => None end) (trace s).

Lemma quiet_deletions {W} (s s' : RS W) : quiet s s' → deletions s' = deletions s.
Proof.
  intros (_&_&l&Hl&Hh&_). unfold deletions. rewrite Hl, omap_app. clear Hl.
  induction Hh as [|e l He _ IH]; [apply app_nil_r|]. simpl. by destruct e.
Qed.

Lemma HasCondition_set c cs cc :
  Status cc = setClusterCondition c cs → cc_Status c = ConditionTrue → HasCondition cc (cc_Type c) = true.
Proof.
  intros Hs Ht. unfold HasCondition. rewrite Hs.
  destruct (proj1 (setClusterCondition_spec cs c)) as (c'&->&Hst&_). apply bool_decide_eq_true. congruence.
Qed.

Lemma hibernating_set now message (c : Cluster) :
  HasCondition (c_cluster (set_status (SetHibernatingCondition now message) c)) ClusterConditionHibernating = true.
Proof.
  by apply (HasCondition_set (newClusterCondition now ClusterConditionHibernating ConditionTrue "Hibernating" message)
    (Status (c_cluster c))).
Qed.

Section hibernation.
Context `{UpgradePlatform W} `{!ClaimPlatform W} `{!NodeInit W} `{!RoundPlatform W} `{PersistentStorage W}
  `{Environment} `{SpecJSON} `{TrackerJSON} `{MapRange}.
Abbreviation R := (RS W).

(** ** Every pod goes *)
Lemma hibernate_pod_ok pos e (s s' : R) :
  hibernate_pod pos e s = (Ok tt, s') → deletions s' = deletions s ++ [(Name e.2, false)].
Proof.
  unfold hibernate_pod, removePod, perform. intros Hr. inv_ok Hr. inv_ok Hr0.
  revert Hr1. intros [= <-]. apply (keeps_run _ _ _ _ _ (quiet_on_world _)), quiet_deletions in Hr0.
  apply (keeps_run _ _ _ _ _ (quiet_clusterRemoveMember _ _)), quiet_deletions in Hr.
  subst. rewrite Hr, Hr0. unfold deletions. cbn [trace log_effect]. by rewrite omap_app.
Qed.

(** The pods of the cluster, by name, each once. *)
Definition pod_names (c : Cluster) (w : W) : list string := Name <$> members (podsToMemberSet (getClusterPods c w)).

Lemma hibernate_pods_ok pos (s s' : R) :
  hibernate_pods pos s = (Ok tt, s') →
  HasCondition (c_cluster (cl s')) ClusterConditionHibernating = true ∧
  ∃ names, names ≡ₚ pod_names (cl s) (world s) ∧ deletions s' = deletions s ++ ((λ n, (n, false)) <$> names).
Proof.
  unfold hibernate_pods. rewrite bind_ok. intros (c&s0&[= <- <-]&Hr). apply bind_ok in Hr as (w&s0&[= <- <-]&Hr).
  set (ms := podsToMemberSet _) in Hr. apply bind_ok in Hr as ([]&s1&Hloop&Hr).
  apply (for_each_invariant _ (λ d s', deletions s' = deletions s ++ ((λ e : nat * Member, (Name e.2, false)) <$> d)))
    in Hloop as Hdel; [|intros d e k s2 s3 _ Hd He|by rewrite app_nil_r].
  2: { rewrite (hibernate_pod_ok _ _ _ _ He), Hd, fmap_app. symmetry. apply app_assoc. }
  apply bind_ok in Hr as ([]&s2&[= <-]&Hr). apply bind_ok in Hr as ([]&s2&[= <-]&Hr).
  apply bind_ok in Hr as ([]&s2&[= <-]&Hr).
  pose proof (keeps_run _ _ _ _ _ updateCRStatus_only Hr) as (_&Hcl&Htr). split.
  - rewrite Hcl. apply hibernating_set.
  - exists (Name <$> (range (1%nat :: pos) ms).*2). split.
    + unfold pod_names, members. fold ms. by rewrite range_perm.
    + unfold deletions at 1. rewrite Htr. fold (deletions s1) in Hdel. cbn [trace set_cl].
      change (deletions s1 = deletions s ++ ((λ n, (n, false)) <$> (Name <$> (range (1%nat :: pos) ms).*2))).
      rewrite Hdel. f_equal. rewrite <- list_fmap_compose. apply list_eq. intros i.
      rewrite !list_lookup_fmap, list_lookup_imap, list_lookup_fmap. by destruct (range _ _ !! i).
Qed.

(** ** When *)
Lemma offlineUpgradeCandidates_only : keeps only_world (offlineUpgradeCandidates (W := W)).
Proof. unfold offlineUpgradeCandidates, query_orchestrator. keeps_tac. Qed.

Lemma blocked_upgrade_only : keeps only_world (blocked_upgrade (W := W)).
Proof.
  unfold blocked_upgrade, getUpgradeBlockers, clusterVersion, hasMemcachedBuckets. keeps_tac.
Qed.

Lemma memcached_now_only : keeps only_world (memcached_now (W := W)).
Proof. unfold memcached_now, hasMemcachedBuckets. keeps_tac. Qed.

(** Reading from Couchbase and the store does not move the cache of pods. *)
Class ReadLaws : Prop := {
  terse_reads t w : Pods_List (cb_GetTerseClusterInfo t w).2 = Pods_List w;
  buckets_read t w : Pods_List (cb_ListBucketStatuses t w).2 = Pods_List w;
  store_reads k w : Pods_List (ps_Get k w).2 = Pods_List w;
}.
Context `{!ReadLaws}.

Definition same_pods (s s' : R) : Prop := Pods_List (world s') = Pods_List (world s).
#[local] Instance same_pods_preorder : PreOrder same_pods.
Proof. split; [by intros s|]. intros s1 s2 s3. unfold same_pods. congruence. Qed.

Lemma on_world_same_pods {A} (m : M W A) :
  (∀ w, Pods_List (m w).2 = Pods_List w) → keeps same_pods (on_world m).
Proof. intros Hm s. unfold on_world, zoom. specialize (Hm (world s)). by destruct (m (world s)). Qed.

Lemma offlineUpgradeCandidates_pods : keeps same_pods (offlineUpgradeCandidates (W := W)).
Proof.
  unfold offlineUpgradeCandidates, query_orchestrator. keeps_tac. apply on_world_same_pods, terse_reads.
Qed.

Lemma blocked_upgrade_pods : keeps same_pods (blocked_upgrade (W := W)).
Proof.
  unfold blocked_upgrade, getUpgradeBlockers, clusterVersion, hasMemcachedBuckets.
  keeps_tac; apply on_world_same_pods; [apply store_reads|apply buckets_read].
Qed.

Lemma memcached_now_pods : keeps same_pods (memcached_now (W := W)).
Proof. unfold memcached_now, hasMemcachedBuckets. keeps_tac. apply on_world_same_pods, buckets_read. Qed.

(** The pods of the cluster are gone, their volumes are not, and it says so. *)
Definition asleep (s s' : R) : Prop :=
  HasCondition (c_cluster (cl s')) ClusterConditionHibernating = true ∧
  ∃ names, names ≡ₚ pod_names (cl s) (world s) ∧ deletions s' = deletions s ++ ((λ n, (n, false)) <$> names).

Lemma asleep_after (s s1 s' : R) :
  same_pods s s1 → c_UID (cl s1) = c_UID (cl s) → deletions s1 = deletions s → asleep s1 s' → asleep s s'.
Proof.
  intros Hp Hu Hd [Hc (names&Hn&Hs)]. split; [done|]. exists names. rewrite <- Hd. split; [|done].
  revert Hn. unfold pod_names, getClusterPods. by rewrite Hp, Hu.
Qed.

Lemma hibernate_ok pos (s s' : R) :
  HasCondition (c_cluster (cl s)) ClusterConditionHibernating = false → hibernate pos s = (Ok tt, s') →
  if (CanHibernate (c_cluster (cl s))).1 then asleep s s' else s' = s.
Proof.
  intros Hawake. unfold hibernate. rewrite bind_ok. intros (c&s0&[= <- <-]&Hr). rewrite Hawake in Hr.
  destruct (CanHibernate _).1; cbn [negb] in Hr; [|revert Hr; by intros [= <-]].
  apply bind_ok in Hr as (has&s1&Hhas&Hr). apply bind_ok in Hr as ([]&s2&[= <-]&Hr).
  pose proof (keeps_run _ _ _ _ _ memcached_now_only Hhas) as (_&Hcl&Htr).
  pose proof (keeps_run _ _ _ _ _ memcached_now_pods Hhas) as Hpods.
  apply hibernate_pods_ok in Hr as Hsleep.
  apply (asleep_after s _ s' Hpods) in Hsleep; [done|by cbn; rewrite Hcl|unfold deletions; cbn; by rewrite Htr].
Qed.

(** The cluster is stable, and asked to sleep or to be upgraded that way: some members
    are to change, every class keeps its data, and nothing stands in the way. *)
Definition upgrades_offline (s : R) : Prop :=
  GetUpgradeProcess (c_cluster (cl s)) = OfflineUpgrade ∧ Cluster_IsSupportable (c_cluster (cl s)) = true ∧
  ∃ candidates s1, offlineUpgradeCandidates s = (Ok (candidates, false), s1) ∧ candidates ≠ [] ∧
    (getUpgradeBlockers s1).1 = Ok [].

(** C7: When an awake cluster has been through [reconcileHibernation], either it sleeps -
    every pod it had was deleted, none with its volumes - and then it was stable, and to
    hibernate or to be upgraded offline with volumes everywhere and nothing in the way; or
    it is as it was and no pod was deleted. *)
Theorem reconcileHibernation_sleeps pos (s s' : R)
    (Hawake : HasCondition (c_cluster (cl s)) ClusterConditionHibernating = false)
    (Hrun : reconcileHibernation pos s = (Ok tt, s')) :
  (asleep s s' ∧ (CanHibernate (c_cluster (cl s))).1 = true ∧
   (cs_Hibernate (Spec (c_cluster (cl s))) = true ∨ upgrades_offline s)) ∨
  (cl s' = cl s ∧ deletions s' = deletions s ∧ same_pods s s').
Proof.
  unfold reconcileHibernation in Hrun. apply bind_ok in Hrun as (c&s0&[= <- <-]&Hrun). rewrite Hawake in Hrun.
  destruct (cs_Hibernate (Spec (c_cluster (cl s)))) eqn:Hhib.
  { apply hibernate_ok in Hrun; [|done]. destruct (CanHibernate _).1; [by left; split_and!; [|..|left]|].
    subst s'. by right. }
  destruct (bool_decide_reflect (GetUpgradeProcess (c_cluster (cl s)) = OfflineUpgrade)) as [Hoff|Hoff];
    [|revert Hrun; intros [= <-]; by right].
  unfold offline_upgrade in Hrun. apply bind_ok in Hrun as ([candidates blocked]&s1&Hcand&Hrun).
  pose proof (keeps_run _ _ _ _ _ offlineUpgradeCandidates_only Hcand) as (_&Hcl1&Htr1).
  pose proof (keeps_run _ _ _ _ _ offlineUpgradeCandidates_pods Hcand) as Hp1.
  assert (cl s1 = cl s ∧ deletions s1 = deletions s ∧ same_pods s s1) as Hsame1
    by (split_and!; [done|unfold deletions; by rewrite Htr1|done]).
  destruct (bool_decide_reflect (candidates = [])) as [->|Hne]; [revert Hrun; intros [= <-]; by right|].
  destruct blocked; [revert Hrun; intros [= <-]; by right|]. cbn [orb] in Hrun.
  apply bind_ok in Hrun as (c&s0&[= <- <-]&Hrun). rewrite Hcl1 in Hrun.
  destruct (Cluster_IsSupportable _) eqn:Hsup; cbn [negb] in Hrun; [|revert Hrun; intros [= <-]; by right].
  apply bind_ok in Hrun as (blockers&s2&Hblock&Hrun).
  pose proof (keeps_run _ _ _ _ _ blocked_upgrade_only Hblock) as (_&Hcl2&Htr2).
  pose proof (keeps_run _ _ _ _ _ blocked_upgrade_pods Hblock) as Hp2.
  assert (cl s2 = cl s ∧ deletions s2 = deletions s ∧ same_pods s s2) as (Hcl&Hd&Hp)
    by (split_and!; [congruence|unfold deletions; by rewrite Htr2, Htr1|by etrans]).
  destruct blockers; [revert Hrun; intros [= <-]; by right|].
  apply hibernate_ok in Hrun; [|by rewrite Hcl]. rewrite Hcl in Hrun. destruct (CanHibernate _).1; [|subst s'; by right].
  left. split; [apply (asleep_after s s2 s'); [done|by rewrite Hcl|done|done]|]. split; [done|]. right.
  split; [done|]. split; [done|]. exists candidates, s1. split; [done|]. split; [done|].
  unfold blocked_upgrade in Hblock. apply bind_ok in Hblock as (b&s3&Hb&[= Heq _]). unfold attempt in Hb.
  destruct (getUpgradeBlockers s1) as [[l|e|] s4]; [|by simplify_eq..]. injection Hb as <- <-. by destruct l.
Qed.
End hibernation.

(** ** A cluster that sleeps, and one that is paused *)
Section quiet_rounds.
Context `{UpgradePlatform W} `{!ClaimPlatform W} `{!NodeInit W} `{!RoundPlatform W} `{PersistentStorage W}
  `{Environment} `{SpecJSON} `{TrackerJSON} `{MapRange} `{Scheduler Sc}.
Abbreviation R := (RS W).
Abbreviation FS := (RS W * Sc)%type.

(** The requests of a sleeping cluster: a pod of [names] is deleted and its volumes are
    kept; the status is written; Couchbase and the store are read, an upgrade being noted
    as inactive where nothing is noted. *)
Inductive sleep_request (names : list string) : relation W :=
  | sleep_delete name w : name ∈ names → sleep_request names w (api_DeleteCouchbasePod name false w).2
  | sleep_read_cluster w : sleep_request names w (api_GetCluster w).2
  | sleep_update status w : sleep_request names w (api_UpdateStatus status w).2
  | sleep_patch status w : sleep_request names w (api_PatchStatus status w).2
  | sleep_read_nodes t w : sleep_request names w (cb_GetPoolsDefault t w).2
  | sleep_read_tasks t w : sleep_request names w (cb_ListTasks t w).2
  | sleep_read_store w : sleep_request names w (ps_Get Persistence.Upgrading w).2
  | sleep_not_upgrading w : sleep_request names w (ps_Insert Persistence.Upgrading UpgradeInactive w).2
  | sleep_tick w : sleep_request names w (retry_tick w).

(** The same of the effects. *)
Definition sleepy (names : list string) (e : Effect) : Prop :=
  match e with PodDeleted name volumes => name ∈ names ∧ volumes = false | StatusSeen _ => True | _ => False end.

Definition only_sleeps (names : list string) (s s' : R) : Prop :=
  rtc (sleep_request names) (world s) (world s') ∧ fsm s' = fsm s ∧
  Spec (c_cluster (cl s')) = Spec (c_cluster (cl s)) ∧
  ∃ l, trace s' = trace s ++ l ∧ Forall (sleepy names) l.
#[local] Instance only_sleeps_preorder names : PreOrder (only_sleeps names).
Proof.
  split; [intros s; do 3 (split; [done|]); exists []; by rewrite app_nil_r|].
  intros s1 s2 s3 (W1&F1&S1&l1&E1&?) (W2&F2&S2&l2&E2&?).
  split; [by etrans|]. split; [congruence|]. split; [congruence|].
  exists (l1 ++ l2). rewrite E2, E1, app_assoc. split; [done|by apply Forall_app].
Qed.

Section sleeping.
Context (names : list string).
Abbreviation requests := (rtc (sleep_request names)).

Lemma sleeps_same (s s' : R) :
  world s' = world s → fsm s' = fsm s → Spec (c_cluster (cl s')) = Spec (c_cluster (cl s)) →
  trace s' = trace s → only_sleeps names s s'.
Proof. intros Hw Hf Hc Ht. split; [by rewrite Hw|]. do 2 (split; [done|]). exists []. by rewrite Ht, app_nil_r. Qed.

Lemma sleeps_on_world {A} (m : M W A) : keeps requests m → keeps (only_sleeps names) (on_world m).
Proof.
  intros Hm s. specialize (Hm (world s)). unfold on_world, zoom. destruct (m (world s)) as [r w].
  split; [exact Hm|]. do 2 (split; [done|]). exists []. by rewrite app_nil_r.
Qed.

Lemma sleeps_once {A} (m : M W A) : (∀ w, sleep_request names w (m w).2) → keeps requests m.
Proof. intros Hm w. by apply rtc_once. Qed.

Lemma sleeps_retry {A} (m : M W A) : keeps requests m → keeps requests (retry_for m).
Proof.
  intros Hm w. unfold retry_for. generalize (retry_ticks w). intros n. revert w.
  induction n as [|n IH]; intros w; simpl; specialize (Hm w); destruct (m w) as [[a|e|] w']; try exact Hm.
  etrans; [exact Hm|]. eapply rtc_l; [apply sleep_tick|]. apply IH.
Qed.

Lemma sleeps_isUpgrading w : requests w (isUpgrading w).2.
Proof.
  unfold isUpgrading. pose proof (sleep_read_store names w) as Hr. destruct (ps_Get _ w) as [[u|e|] w'];
    [by apply rtc_once| |by apply rtc_once].
  eapply rtc_l; [exact Hr|]. unfold mbind, M_bind. pose proof (sleep_not_upgrading names w') as Hi.
  destruct (ps_Insert _ _ w') as [[]]; by apply rtc_once.
Qed.

Lemma sleeps_status_info learned pos b info ms : keeps requests (getStatusFromClusterInfo (ST := W) learned pos b info ms).
Proof.
  intros w. unfold getStatusFromClusterInfo. destruct (nodes_loop _ _ _ _ _ _ _) as [[]| |]; [|reflexivity..].
  pose proof (sleeps_isUpgrading w) as Hu. by destruct (isUpgrading w).
Qed.
#[local] Hint Extern 1 (keeps (only_sleeps _) (modify (set_cl _))) => apply keeps_modify; intros; by apply sleeps_same : keeps.

Lemma sleeps_status f : keeps (only_sleeps names) (set_status_now (W := W) f).
Proof. apply keeps_modify. intros s. by apply sleeps_same. Qed.

Lemma sleeps_updateCRStatus : keeps (only_sleeps names) (updateCRStatus (W := W)).
Proof.
  unfold updateCRStatus. keeps_tac; apply sleeps_on_world, sleeps_once; intros; constructor.
Qed.

Lemma sleeps_GetStatus pos : keeps (only_sleeps names) (GetStatus (W := W) pos).
Proof.
  unfold GetStatus, getStatusFromTarget.
  keeps_tac; try (apply sleeps_on_world; first [apply sleeps_status_info|apply sleeps_retry, sleeps_once; constructor]).
  apply keeps_modify. intros s. do 3 (split; [done|]).
  eexists [StatusSeen _]. split; [reflexivity|by repeat constructor].
Qed.
#[local] Hint Resolve sleeps_status sleeps_updateCRStatus sleeps_GetStatus : keeps.

Lemma sleeps_hibernate_pod pos e : Name e.2 ∈ names → keeps (only_sleeps names) (hibernate_pod (W := W) pos e).
Proof.
  intros Hin. unfold hibernate_pod, removePod, perform, clusterRemoveMember, updateMemberStatus,
    updateMemberStatusWithClusterInfo.
  keeps_tac; try (apply keeps_modify; intros s; by apply sleeps_same).
  2: { intros _. apply sleeps_on_world, sleeps_once. intros w. by apply sleep_delete. }
  apply keeps_modify. intros s. do 3 (split; [done|]). exists [PodDeleted (Name e.2) false]. split; [done|].
  by repeat constructor.
Qed.
End sleeping.

Lemma sleeps_hibernate_pods pos (s : R) : only_sleeps (pod_names (cl s) (world s)) s (hibernate_pods pos s).2.
Proof.
  unfold hibernate_pods. apply bind_state; [reflexivity|]. intros c s1 [= <- <-] _.
  apply bind_state; [reflexivity|]. intros w s1 [= <- <-] _.
  match goal with |- only_sleeps ?names _ (?m s).2 => enough (keeps (only_sleeps names) m) as Hm by apply Hm end.
  pose proof (sleeps_status (pod_names (cl s) (world s))).
  pose proof (sleeps_updateCRStatus (pod_names (cl s) (world s))).
  keeps_tac; try (apply keeps_modify; intros t; by apply sleeps_same).
  intros e Hin. apply sleeps_hibernate_pod. apply elem_of_lookup_imap in Hin as (i&m&->&Hm).
  apply list_elem_of_lookup_2 in Hm. unfold pod_names, members. rewrite <- (range_perm (1%nat :: pos)).
  by apply list_elem_of_fmap_2.
Qed.

(** C8: While a cluster sleeps and is not told to wake, a reconciliation does nothing but
    delete the pods the cluster still has, never with a volume, whatever its outcome: the
    world it leaves is reached by such deletions, reads, and writes of the status alone
    ([sleep_request]); the machine and the specification stay; and if it ends well the
    cluster still says that it sleeps. *)
Theorem reconcile_asleep newScheduler initClients schedule status pre password tls handlers post pos fuel
    (s : R) (sc : Sc)
    (Hhib : cs_Hibernate (Spec (c_cluster (cl s))) = true)
    (Hasleep : HasCondition (c_cluster (cl s)) ClusterConditionHibernating = true) :
  let (r, f) := reconcile newScheduler initClients schedule status pre password tls handlers post pos fuel (s, sc) in
  only_sleeps (pod_names (cl s) (world s)) s f.1 ∧ (r = Ok tt → HasCondition (c_cluster (cl f.1)) ClusterConditionHibernating = true).
Proof.
  destruct (reconcile _ _ _ _ _ _ _ _ _ _ _ (s, sc)) as [r f] eqn:E. unfold reconcile in E.
  unfold mbind at 1, M_bind at 1, on_rs at 1, zoom at 1, get at 1 in E. cbn [fst snd] in E.
  unfold mbind at 1, M_bind at 1, lift at 1 in E. destruct (newScheduler _ _) as [sc'| |];
    [|injection E as <- <-; split; [reflexivity|done]..].
  unfold mbind at 1, M_bind at 1, on_scheduler at 1, zoom at 1, put at 1 in E. cbn [fst snd] in E.
  unfold mbind at 1, M_bind at 1, on_rs at 1, zoom at 1 in E. cbn [fst snd] in E.
  assert (reconcileHibernation (0%nat :: pos) s = hibernate_pods (0%nat :: pos) s) as Heq.
  { unfold reconcileHibernation, hibernate. unfold mbind at 1, M_bind at 1, gets at 1. rewrite Hhib.
    unfold mbind at 1, M_bind at 1, gets at 1. by rewrite Hasleep. }
  rewrite Heq in E. pose proof (sleeps_hibernate_pods (0%nat :: pos) s) as Hs.
  destruct (hibernate_pods (0%nat :: pos) s) as [[[]|e|] s1] eqn:Ehib; [|injection E as <- <-; split; [exact Hs|done]..].
  apply hibernate_pods_ok in Ehib as [Hc _].
  unfold mbind at 1, M_bind at 1, on_rs at 1, zoom at 1, gets at 1 in E. cbn [fst snd] in E. rewrite Hc in E.
  revert E. intros [= <- <-]. split; [exact Hs|done].
Qed.

(** *** A paused cluster *)

(** The requests of a round of a paused cluster: the retries of rebalances are looked up
    and, where they are missing, noted; and the status is written, with or without the
    mark. *)
Inductive paused_request (c : Cluster) : relation W :=
  | paused_lookup w : paused_request c w (ps_Get RebalanceRetries w).2
  | paused_note w : paused_request c w (ps_Insert RebalanceRetries "1" w).2
  | paused_read_cluster w : paused_request c w (api_GetCluster w).2
  | paused_update status w : status ∈ [Status (c_cluster c); PauseControl (Status (c_cluster c))] →
      paused_request c w (api_UpdateStatus status w).2
  | paused_patch status w : status ∈ [Status (c_cluster c); PauseControl (Status (c_cluster c))] →
      paused_request c w (api_PatchStatus status w).2.

Definition idle (f f' : FS) : Prop :=
  f'.2 = f.2 ∧ fsm f'.1 = fsm f.1 ∧ trace f'.1 = trace f.1 ∧
  (cl f'.1 = cl f.1 ∨ cl f'.1 = set_status PauseControl (cl f.1)) ∧
  rtc (paused_request (cl f.1)) (world f.1) (world f'.1).

Lemma idle_request {A} (f f1 : FS) (m : M W A) :
  (∀ w, paused_request (cl f.1) w (m w).2) → idle f f1 → idle f (on_rs (Sc := Sc) (on_world m) f1).2.
Proof.
  intros Hm. destruct f1 as [s1 sc1]. unfold on_rs, on_world, zoom. specialize (Hm (world s1)).
  cbn [fst snd]. destruct (m (world s1)) as [r w]. cbn [fst snd] in *.
  intros (?&?&?&?&?). split_and!; try done. by eapply rtc_r.
Qed.

Lemma idle_attempt {A} (f f1 : FS) (m : M FS A) : idle f (m f1).2 → idle f (attempt m f1).2.
Proof. unfold attempt. by destruct (m f1) as [[]]. Qed.

Lemma updateCRStatus_requests (P : relation W) (s : R) :
  (∀ w, P w (api_GetCluster w).2) → (∀ w, P w (api_UpdateStatus (Status (c_cluster (cl s))) w).2) →
  (∀ w, P w (api_PatchStatus (Status (c_cluster (cl s))) w).2) →
  rtc P (world s) (world (updateCRStatus s).2).
Proof.
  intros Hget Hupdate Hpatch.
  enough (cl (updateCRStatus s).2 = cl s ∧ rtc P (world s) (world (updateCRStatus s).2)) as H' by apply H'.
  set (Q := λ s' : R, cl s' = cl s ∧ rtc P (world s) (world s')).
  assert (∀ A (m : M W A) s', (∀ w, P w (m w).2) → Q s' → Q (on_world m s').2) as Hstep.
  { intros A m s' Hm [Hc Hw]. unfold on_world, zoom. specialize (Hm (world s')). destruct (m (world s')) as [r w].
    split; [done|]. by eapply rtc_r. }
  change (Q (updateCRStatus s).2). unfold updateCRStatus.
  apply bind_state; [by split|]. intros c s1 [= <- <-] _.
  apply bind_state; [by apply Hstep; [|split]|]. intros cluster s1 _ Hs1.
  destruct (bool_decide _); [done|]. destruct (bool_decide _); [done|].
  apply bind_state.
  { pose proof (Hstep _ _ _ Hupdate Hs1) as Hu. unfold attempt. by destruct (on_world _ s1) as [[]]. }
  intros [u|[]] s2 _ Hs2; try exact Hs2. by apply Hstep.
Qed.

Lemma idle_updateCRStatus (f f1 : FS) : idle f f1 → idle f (on_rs (Sc := Sc) (ignore_error updateCRStatus) f1).2.
Proof.
  intros (Hs&Hf&Ht&Hc&Hw). destruct f1 as [s1 sc1]. cbn [fst snd] in *.
  assert (Status (c_cluster (cl s1)) ∈ [Status (c_cluster (cl f.1)); PauseControl (Status (c_cluster (cl f.1)))]) as Hin
    by (destruct Hc as [->| ->]; [by left|right; by left]).
  pose proof (updateCRStatus_requests (paused_request (cl f.1)) s1 ltac:(constructor) ltac:(by constructor)
    ltac:(by constructor)) as Hw'.
  destruct (updateCRStatus_only s1) as (Hf1&Hc1&Ht1).
  unfold on_rs, zoom, ignore_error, attempt. cbn [fst snd]. unfold mbind, M_bind.
  destruct (updateCRStatus s1) as [[[]|e|] s2]; cbn in *; unfold idle; cbn [fst snd];
    (split; [exact Hs|]; split; [congruence|]; split; [congruence|]; split; [by rewrite Hc1|by etrans]).
Qed.

(** C10: In a round of a paused cluster nothing is asked of pods, nodes or volumes: the
    machine and the scheduler stay as they are, of the cluster object only the mark that
    says the operator is not in control may change, and the world is only asked to look up
    or note the retries of rebalances and to write that status ([paused_request]). *)
Theorem RunReconcile_paused error_Error tlsCache rotate migration reconcile_cluster pos start (f : FS)
    (Hpaused : cs_Paused (Spec (c_cluster (cl f.1))) = true) :
  idle f (RunReconcile error_Error tlsCache rotate migration reconcile_cluster pos start f).2.
Proof.
  unfold RunReconcile, defer. set (m := attempt _ ≫= _).
  assert (idle f (m f).2) as Hm.
  2: { destruct (m f) as [r f1]. apply idle_updateCRStatus in Hm. cbn [snd] in Hm. destruct (on_rs _ f1) as [[|e|] f2]; exact Hm. }
  unfold m. apply bind_state.
  { apply idle_attempt, idle_request; [intros w; constructor|]. split_and!; try done. by left. }
  intros stored f1 _ H1'. apply bind_state.
  { apply idle_attempt. destruct stored as [v|[]]; try exact H1'. apply idle_request; [intros w; constructor|done]. }
  intros [[]|e] f2 _ H2'; [|done]. apply bind_state; [done|]. intros c f3 [= <- <-] _.
  destruct H2' as (Hs&Hf&Ht&Hc&Hw).
  assert (cs_Paused (Spec (c_cluster (cl f2.1))) = true) as -> by (by destruct Hc as [->| ->]).
  destruct f2 as [s2 sc2]. split_and!; try done. right. cbn in *. destruct Hc as [Hc|Hc]; by rewrite Hc.
Qed.
End quiet_rounds.

(** ** Waking *)

(** What recreating pods relies on: the requests about a pod leave the claims of other
    members and the other pods alone.  (Creating a pod creates claims of its own.) *)
Definition others_stay {W} `{Platform W} (name : string) (w w' : W) : Prop :=
  ∀ n, n ≠ name →
    listMemberPVCS (PVCs_List w') n = listMemberPVCS (PVCs_List w) n ∧ Pods_Get w' n = Pods_Get w n.

Definition about {W A} `{Platform W} (name : string) (m : M W A) : Prop := ∀ w, others_stay name w (m w).2.

Class WakeLaws (W : Type) `{Platform W} : Prop := {
  delete_about name : about name (api_DeletePod name);
  wait_about name : about name (api_WaitForDeletePod name);
  create_about m config : about (Name m) (createPod m config);
  update_about pod : about (kp_Name pod) (api_UpdatePod pod);
  set_about pod : about (kp_Name pod) (modify (cache_SetPod pod));
  tick_about name : about name (modify retry_tick);
  cached_pod_name w name pod : Pods_Get w name = Some pod → kp_Name pod = name;
}.

Definition recreations {W} (s : RS W) : list string :=
  omap (λ e, match e with PodRecreated name => Some name | _ => None end) (trace s).

(** Whether a pod can be recovered only depends on the claims of its member. *)
Lemma isPodRecoverable_claims `{Environment} learned cc pvcs pvcs' m :
  listMemberPVCS pvcs (Name m) = listMemberPVCS pvcs' (Name m) →
  isPodRecoverable learned cc pvcs m = isPodRecoverable learned cc pvcs' m.
Proof.
  intros Hl. unfold isPodRecoverable, checkPodRecoverability. f_equal.
  destruct (GetServerConfigByName _ _) as [config|]; [|done]. destruct (CouchbaseImageVersion _ _); [|done..].
  cbn [mbind result_bind]. destruct (NewVersion _ _) as [v| |]; [|done..]. cbn [mbind result_bind]. f_equal.
  unfold CheckIfPodIsRecoverable. destruct (GetVolumeMounts _) as [mounts|]; [|done]. destruct (LogsOnly mounts); [done|].
  destruct (bool_decide _); [done|]. destruct (getPathsToPersist m mounts) as [l| |]; [|done..].
  cbn [mbind result_bind]. induction l as [|x l IH]; [done|]. cbn [check_mounts].
  unfold findMemberPVC. by rewrite Hl, IH.
Qed.

Section waking.
Context `{Platform W} `{!WakeLaws W} `{PersistentStorage W} `{Environment} `{MapRange}.
Abbreviation R := (RS W).

#[local] Instance others_preorder name : PreOrder (others_stay (W := W) name).
Proof.
  split; [by intros w n|]. intros w1 w2 w3 H12 H23 n Hn.
  destruct (H12 n Hn) as [Hp1 Hg1], (H23 n Hn) as [Hp2 Hg2]. split; congruence.
Qed.

Lemma about_keeps {A} name (m : M W A) : about name m → keeps (others_stay name) m.
Proof. intros Hm w. apply Hm. Qed.

Lemma retry_others {A} name (m : M W A) : keeps (others_stay name) m → keeps (others_stay name) (retry_for m).
Proof.
  intros Hm w. unfold retry_for. generalize (retry_ticks w). intros n. revert w.
  induction n as [|n IH]; intros w; simpl; specialize (Hm w); destruct (m w) as [[a|e|] w']; try exact Hm.
  etrans; [exact Hm|]. etrans; [apply (tick_about name)|]. apply IH.
Qed.

Lemma SetPodInitialized_others name : keeps (others_stay name) (SetPodInitialized name).
Proof.
  apply retry_others. apply keeps_bind; [apply _|apply keeps_get, _|]. intros w0.
  destruct (Pods_Get w0 name) as [pod|] eqn:E; [|apply keeps_throw, _]. apply cached_pod_name in E as Hn.
  assert (kp_Name (set_initialized pod) = name) as Hn' by done.
  apply keeps_bind; [apply _|..].
  - rewrite <- Hn'. apply about_keeps, set_about.
  - intros _. rewrite <- Hn'. apply about_keeps, update_about.
Qed.

(** One recreation: asked for once, and of no other pod. *)
Lemma recreatePod_ok m (s s' : R) :
  recreatePod m false s = (Ok tt, s') →
  others_stay (Name m) (world s) (world s') ∧ cl s' = cl s ∧ recreations s' = recreations s ++ [Name m].
Proof.
  unfold recreatePod. rewrite bind_ok. intros (c&s0&[= <- <-]&Hr).
  destruct (GetServerConfigByName _ _) as [config|]; [|discriminate Hr].
  apply bind_ok in Hr as ([]&s0&[= <-]&Hr). unfold perform at 1 in Hr.
  apply bind_ok in Hr as ([]&s1&Hdel&Hr). apply bind_ok in Hdel as ([]&s0&[= <-]&Hdel).
  apply bind_ok in Hr as ([]&s2&Hwait&Hr). apply bind_ok in Hr as ([]&s3&Hnew&Hr).
  apply bind_ok in Hr as ([]&s4&Hinit&[= <-]).
  assert (∀ A (f : M W A) (s s' : R) a, keeps (others_stay (Name m)) f → on_world f s = (Ok a, s') →
    others_stay (Name m) (world s) (world s') ∧ cl s' = cl s ∧ trace s' = trace s) as Hstep.
  { intros A f t t' a Hf Ht. unfold on_world, zoom in Ht. specialize (Hf (world t)).
    destruct (f (world t)) as [r w]. injection Ht as -> <-. done. }
  apply Hstep in Hdel as (Hw1&Hc1&Ht1); [|apply about_keeps, delete_about].
  apply Hstep in Hwait as (Hw2&Hc2&Ht2); [|apply about_keeps, wait_about].
  apply Hstep in Hnew as (Hw3&Hc3&Ht3); [|apply about_keeps, create_about].
  apply Hstep in Hinit as (Hw4&Hc4&Ht4); [|apply SetPodInitialized_others].
  split; [change (world s) with (world (log_effect (PodRecreated (Name m)) s)); do 3 (etrans; [eassumption|]); done|].
  split; [by rewrite Hc4, Hc3, Hc2, Hc1|]. unfold recreations. rewrite Ht4, Ht3, Ht2, Ht1.
  cbn [trace log_effect]. by rewrite omap_app.
Qed.

(** A member that can come back, and whose pod is not on its way already. *)
Definition comes_back (s : R) (name : string) : bool :=
  match c_members (cl s) !! name with
  | Some m => recoverable s m && negb (already_recreated (world s) name)
  | None => false
  end.

(** C9: [recoverClusterDown] recreates exactly the members that can be brought back from
    their volumes and whose pod does not wait to be initialised already, in the order of
    their names and each once; and it reports whether there was any. *)
Theorem recoverClusterDown_wakes (s s' : R) b (Hkeyed : keyed (c_members (cl s)))
    (Hrun : recoverClusterDown s = (Ok b, s')) :
  let names := filter (λ n, comes_back s n = true) (Names (c_members (cl s))) in
  recreations s' = recreations s ++ names ∧ (b = true ↔ names ≠ []).
Proof.
  cbn zeta. unfold recoverClusterDown in Hrun. apply bind_ok in Hrun as (c&s0&[= <- <-]&Hrun).
  assert (NoDup (Names (c_members (cl s)))) as Hnd.
  { unfold Names. rewrite sort_Strings_perm. unfold members. rewrite <- list_fmap_compose.
    rewrite (list_fmap_ext _ fst); [apply NoDup_fst_map_to_list|].
    intros i [n m] Hi%list_elem_of_lookup_2%elem_of_map_to_list. simpl. by apply Hkeyed. }
  apply (for_fold_invariant _ (λ d b s',
    recreations s' = recreations s ++ filter (λ n, comes_back s n = true) d ∧
    (b = true ↔ filter (λ n, comes_back s n = true) d ≠ []) ∧ cl s' = cl s ∧
    ∀ n, n ∉ d → listMemberPVCS (PVCs_List (world s')) n = listMemberPVCS (PVCs_List (world s)) n ∧
      Pods_Get (world s') n = Pods_Get (world s) n))
    in Hrun as (Hr&Hb&_); [done| |split_and!; try done; by rewrite app_nil_r].
  intros d name k b1 s1 b2 s2 Hl (Hr&Hb&Hcl&Hget) Hx. unfold recover_member in Hx.
  apply bind_ok in Hx as (s0&s3&[= <- <-]&Hx). rewrite Hcl in Hx.
  destruct (c_members (cl s) !! name) as [m|] eqn:Hm; [|discriminate Hx].
  assert (name ∉ d) as Hnew.
  { intros Hd. rewrite Hl in Hnd. apply NoDup_app in Hnd as (_&Hnd&_). apply (Hnd _ Hd). by left. }
  assert (comes_back s name = recoverable s1 m && negb (already_recreated (world s1) name)) as Hback.
  { destruct (Hget name Hnew) as [Hpvc Hpod]. unfold comes_back, already_recreated. rewrite Hm, Hpod. f_equal.
    unfold recoverable. rewrite Hcl. apply isPodRecoverable_claims. rewrite (Hkeyed _ _ Hm). by symmetry. }
  rewrite filter_app. destruct (recoverable s1 m); cbn [negb andb] in Hx, Hback.
  - destruct (already_recreated (world s1) name); cbn [negb] in Hback.
    + revert Hx. intros [= <- <-]. rewrite filter_cons_False by congruence. rewrite app_nil_r.
      split_and!; try done; try apply Hb. intros n Hn. apply Hget. set_solver.
    + apply bind_ok in Hx as ([]&s3&(Hsim&Hc3&Hr3)%recreatePod_ok&[= <- <-]).
      rewrite filter_cons_True by done.
      assert (Name m = name) as Hname by (by apply Hkeyed). rewrite Hname in *.
      split; [by rewrite Hr3, Hr, app_assoc|]. split; [split; [intros _ Hnil; by apply app_eq_nil in Hnil as [_ ?]|done]|].
      split; [congruence|]. intros n Hn. destruct (Hsim n ltac:(set_solver)) as [-> ->]. apply Hget. set_solver.
  - revert Hx. intros [= <- <-]. rewrite filter_cons_False by congruence. rewrite app_nil_r.
    split_and!; try done; try apply Hb. intros n Hn. apply Hget. set_solver.
Qed.
End waking.

(** ** What goes wrong *)

(** A pod flagged unready - its gateway container was not ready for a while - is not
    flagged ready again: any readiness condition, even one that says no, keeps it as it is. *)
Lemma flagged_unready_stays `{Platform W} (s : RS W) name pod condition :
  Pods_Get (world s) name = Some pod → GetPodCondition pod PodReadinessCondition = Some condition →
  pc_Status condition ≠ "True" →
  ready_pod name s = (Ok tt, s).
Proof.
  intros Hpod Hcond Hno. unfold ready_pod. unfold mbind, M_bind, gets. rewrite Hpod.
  destruct (held_for_DNS _ _ _); [done|]. destruct (waits_for_CNG pod).
  - replace (condition_true pod PodReadinessCondition) with false; [done|].
    unfold condition_true. rewrite Hcond. symmetry. by apply bool_decide_eq_false_2.
  - unfold on_world, zoom, FlagPodReady, mbind, M_bind, get. rewrite Hpod, Hcond. by destruct s.
Qed.

(** [Update] notes the time of a change in the object it is about to replace: whether it
    notices the change makes no difference. *)
Lemma Update_forgets_time `{UpgradePlatform W} `{!ClaimPlatform W} `{!NodeInit W} `{!RoundPlatform W}
    `{PersistentStorage W} `{Environment} `{SpecJSON} `{TrackerJSON} `{MapRange} `{Scheduler Sc}
    error_Error tlsCache rotate migration reconcile_cluster (specs_equal : StoredCluster → Cluster → bool)
    annotated generation pos start newGeneration cluster (f : RS W * Sc) :
  Round.Update error_Error tlsCache rotate migration reconcile_cluster specs_equal
    annotated generation pos start newGeneration cluster f =
  Round.Update error_Error tlsCache rotate migration reconcile_cluster (λ _ _, true)
    annotated generation pos start newGeneration cluster f.
Proof.
  unfold Round.Update. destruct (bool_decide _); [done|]. destruct f as [s sc].
  unfold on_rs, zoom, mbind, M_bind, gets. cbn [fst snd]. by destruct (specs_equal _ _).
Qed.

(** The error of a specification that may not be changed to is set on the object that is
    given up for the old one, which does not have it. *)
Lemma failed_validation_forgotten `{Platform W} validationErr existingCluster (s : RS W) :
  UpdateOnFailedValidationOperatorRestart validationErr existingCluster s =
  (Ok tt, set_cl (set_stored existingCluster) s).
Proof. by destruct s. Qed.

(** A class that requests no memory in so many words - a request of zero - makes the
    operator divide by zero. *)
Lemma zero_request_panics {Q} (zero : Q) add sub (Value : Q → Z) quota name q services :
  Value q = 0 → is_ok (class_status zero add sub Value quota name (Some q) services) = false.
Proof.
  intros Hq. unfold class_status. destruct (allocate _ _ _ _ _) as [a| |]; [|done..].
  cbn [mbind result_bind]. unfold percent. rewrite Hq. done.
Qed.

(** ** Examples *)
#[export] Instance sim_init : NodeInit Sim := {|
  deref pod _ := pod;
  createAlternateAddressesExternal _ _ t := (Ok None, t);
  waitAlternateAddressReachable _ t := (Ok tt, t);
  cb_EnableExternalListener _ _ t := (Ok tt, t);
  cb_SetNodeNetworkConfiguration _ _ _ t := (Ok tt, t);
  cb_LoadCAs _ t := (Ok tt, t);
  cb_SetClusterCACert _ _ t := (Ok tt, t);
  cb_ReloadNodeCert _ _ t := (Ok tt, t);
  passphraseSettings t := (Ok None, t);
  WaitForHostPortTLS _ _ t := (Ok tt, t);
  cb_SetHostname _ _ t := (Ok tt, t);
  cb_SetStoragePaths _ _ _ _ t := (Ok tt, t);
  cb_GetNodesSelf _ t := (Ok "inactiveAdded", t);
  initInitialMember _ _ _ t := (Ok tt, t) |}.

#[export] Instance sim_round : RoundPlatform Sim := {|
  mir_spec _ := None;
  isMirWatchdogRunning _ := false;
  mir_Stop w := w;
  semver_LessThan _ _ := Ok false;
  client_password _ := "password";
  client_TLS _ := None;
  api_DeletePodNow name := api_DeletePod name |}.

#[local] Instance round_json : SpecJSON := {| marshal_spec _ := ""; unmarshal_spec _ := Err ErrSyntax |}.
#[local] Instance round_tracker : TrackerJSON := {| marshal_tracker _ := ""; unmarshal_tracker _ := Err ErrSyntax |}.
#[local] Instance round_environment : Environment := λ _, None.
#[local] Instance round_range : MapRange := canonical_range.

#[local] Instance sim_reads : ReadLaws (W := Sim).
Proof. by split. Qed.

Definition with_wishes (paused hibernate : bool) (s : ClusterSpec) : ClusterSpec := {|
  cs_Image := cs_Image s; cs_EnvImagePrecedence := cs_EnvImagePrecedence s; cs_Servers := cs_Servers s;
  cs_ServerGroups := []; cs_ServerGroupsLabelOverride := ""; cs_ShuffleServerGroups := false;
  cs_RecoveryPolicy := None; cs_UpgradeProcess := None; cs_UpgradeStrategy := None; cs_RollingUpgrade := None;
  cs_Upgrade := None; cs_EnableOnlineVolumeExpansion := false; cs_UnmanagedClusterHost := None;
  cs_Paused := paused; cs_Hibernate := hibernate |}.

(** Two stable pods. *)
Definition round_pods : list KPod := [sim_pod 0 "data" []; sim_pod 1 "data" []].
Definition round_state (paused hibernate : bool) (f : ClusterStatus → ClusterStatus) : RS Sim :=
  mkRS empty_machine (set_spec (with_wishes paused hibernate) (set_status f (sim_cluster 2 round_pods)))
    (mkSim round_pods (mkClusterInfo ((λ i, sim_node i "active") <$> [0; 1]) "none" true [] [] ∅) [] ∅ 0 []) [].

Definition stable (cs : ClusterStatus) : ClusterStatus :=
  SetClusterID "uuid" (SetReadyCondition "t" (SetBalancedCondition "t" cs)).

Lemma reconcileHibernation_sleeps_witness :
  let s := round_state false true stable in
  let r := reconcileHibernation [] s in
  r.1 = Ok tt ∧ deletions r.2 = [("cb-0001", false); ("cb-0000", false)] ∧ asleep s r.2.
Proof.
  set (s := round_state false true stable). set (r := reconcileHibernation [] s).
  assert (r.1 = Ok tt) as Hr by (vm_compute; reflexivity). split; [exact Hr|].
  assert (deletions r.2 = [("cb-0001", false); ("cb-0000", false)]) as Hd by (vm_compute; reflexivity).
  split; [exact Hd|].
  destruct (reconcileHibernation_sleeps [] s r.2) as [[Ha _]|(_&Hsame&_)]; [vm_compute; reflexivity| |exact Ha|].
  - rewrite <- Hr. apply surjective_pairing.
  - rewrite Hd in Hsame. discriminate Hsame.
Defined.

Lemma reconcile_asleep_witness :
  let s := round_state false true (SetHibernatingCondition "t" "") in
  let run := reconcile (Sc := NullScheduler.nullSchedulerImpl) (λ pods cc, NullScheduler.NewNullScheduler pods cc)
    (mret tt) [] (mret tt) [] (mret tt) (mret tt) (λ _ _, []) [] [] 0 in
  let f := (run (s, NullScheduler.NullScheduler ∅ ∅)).2 in
  deletions f.1 = [("cb-0001", false); ("cb-0000", false)] ∧ only_sleeps (pod_names (cl s) (world s)) s f.1.
Proof.
  set (s := round_state false true (SetHibernatingCondition "t" "")).
  split; [vm_compute; reflexivity|].
  pose proof (reconcile_asleep (Sc := NullScheduler.nullSchedulerImpl) (λ pods cc, NullScheduler.NewNullScheduler pods cc)
    (mret tt) [] (mret tt) [] (mret tt) (mret tt) (λ _ _, []) [] [] 0 s (NullScheduler.NullScheduler ∅ ∅)
    eq_refl eq_refl) as Hs.
  destruct (reconcile _ _ _ _ _ _ _ _ _ _ _ _) as [r f]. exact (proj1 Hs).
Defined.

Lemma RunReconcile_paused_witness :
  let f := (round_state true false stable, NullScheduler.NullScheduler ∅ ∅) in
  let r := RunReconcile (λ _, "") None (mret tt) (λ _, mret tt) (λ _, mret tt) [] 0 f in
  st_ControlPaused (Status (c_cluster (cl r.2.1))) = true ∧ idle f r.2.
Proof. split; [vm_compute; reflexivity|]. apply RunReconcile_paused. vm_compute. reflexivity. Defined.

(** No pod is left; of the two members one has its volume. *)
#[local] Instance sim_wakes : WakeLaws Sim.
Proof.
  assert (∀ name pods n, n ≠ name → find (λ pod, bool_decide (kp_Name pod = n)) (filter (λ p, kp_Name p ≠ name) pods) =
    find (λ pod, bool_decide (kp_Name pod = n)) pods) as Hfilter.
  { intros name pods n Hn. induction pods as [|p pods IH]; [done|]. destruct (decide (kp_Name p = name)) as [Hp|Hp].
    - rewrite filter_cons_False by tauto. simpl. rewrite bool_decide_false by congruence. exact IH.
    - rewrite filter_cons_True by done. simpl. case_bool_decide; [done|exact IH]. }
  assert (∀ p pods n, n ≠ kp_Name p → find (λ pod, bool_decide (kp_Name pod = n))
    ((λ q, if bool_decide (kp_Name q = kp_Name p) then p else q) <$> pods) =
    find (λ pod, bool_decide (kp_Name pod = n)) pods) as Halter.
  { intros p pods n Hn. induction pods as [|q pods IH]; [done|]. cbn [fmap list_fmap find].
    destruct (bool_decide_reflect (kp_Name q = kp_Name p)) as [Hq|Hq].
    - rewrite !bool_decide_false by congruence. exact IH.
    - destruct (bool_decide _); [done|exact IH]. }
  split.
  - intros name w n Hn. split; [done|]. exact (Hfilter name (sim_pods w) n Hn).
  - by intros name w n.
  - intros m config w n Hn. split; [done|]. cbn. unfold sim_find. cbn.
    rewrite bool_decide_false; [done|]. intros <-. by apply Hn.
  - intros p w n Hn. split; [done|]. exact (Halter p (sim_pods w) n Hn).
  - intros p w n Hn. split; [done|]. exact (Halter p (sim_pods w) n Hn).
  - by intros name w n.
  - intros w name pod Hf. cbn in Hf. apply find_some in Hf as [_ Hf]. by apply bool_decide_eq_true in Hf.
Qed.

Definition wake_state : RS Sim :=
  let c := cl down_state in
  mkRS empty_machine c (sim_set_pods [] (world down_state)) [].

Lemma recoverClusterDown_wakes_witness :
  let r := recoverClusterDown wake_state in
  r.1 = Ok true ∧ recreations r.2 = ["cb-0000"] ∧
  filter (λ n, comes_back wake_state n = true) (Names (c_members (cl wake_state))) = ["cb-0000"].
Proof.
  set (r := recoverClusterDown wake_state).
  assert (r.1 = Ok true) as Hr by (vm_compute; reflexivity). split; [exact Hr|].
  assert (recreations r.2 = ["cb-0000"]) as Hn by (vm_compute; reflexivity). split; [exact Hn|].
  destruct (recoverClusterDown_wakes wake_state r.2 true) as [Hw _].
  - apply add_all_keyed, keyed_empty.
  - rewrite <- Hr. apply surjective_pairing.
  - rewrite Hn in Hw. symmetry. exact Hw.
Defined.
