(* ===== verification/WatchdogSpec.v ===== *)
(** * What a look of the watchdog leaves behind

    The message of the condition is the memory of the watchdog: it says afterwards exactly
    which reasons were found, and the rebalance reason is found with a hysteresis. *)

From S2P Require Import Prelude Effects GoLib Regex Digests Version Api Member Persistence Status.
From S2P Require Import ServerGroups Scheduler UpgradeOrder RollingUpgrade NodeStatus Pods Volumes Machine Rebalance.
From S2P Require Import Baseline Claims Creation Recovery PendingInit Failover Scaling Autoscale Upgrading Round.
From S2P Require Import Watchdog Sim MachineSpec RecoverySpec RoundSpec.
Local Open Scope Z_scope.

(** ** The message *)
Definition recorded (c : Cluster) (reason : ManualInterventionRequired) : bool :=
  inMirStateForReason (GetCondition (Status (c_cluster c)) ClusterConditionManualInterventionRequired) reason.

Definition reasons (login rebalance down tls : bool) : list ManualInterventionRequired :=
  found MIRLoginFailure login ++ found MIRRebalanceRetriesExhausted rebalance ++
  found MIRManualActionDownNodes down ++ found MIRTLSExpired tls.

(** No reason is part of another, nor of two put together. *)
Lemma message_reads login rebalance down tls :
  let message := clusterConditionMessage (reasons login rebalance down tls) in
  strings_Contains message MIRLoginFailure = login ∧
  strings_Contains message MIRRebalanceRetriesExhausted = rebalance ∧
  strings_Contains message MIRManualActionDownNodes = down ∧
  strings_Contains message MIRTLSExpired = tls.
Proof. destruct login, rebalance, down, tls; vm_compute; done. Qed.

Section lookups.
Context `{Platform W} `{!RoundPlatform W} `{!WatchdogPlatform W} `{PersistentStorage W} `{Environment} `{MapRange}.
Abbreviation R := (RS W).

(** ** What a look does not touch *)

(** Requests leave the claims alone, and the clock does not go back. *)
Definition later (w w' : W) : Prop := PVCs_List w' = PVCs_List w ∧ time_now w ≤ time_now w'.

#[local] Instance later_preorder : PreOrder later.
Proof. split; [by intros w|]. intros w1 w2 w3 [? ?] [? ?]. split; [congruence|lia]. Qed.

Class WatchLaws : Prop := {
  pools_later t : keeps later (cb_GetPools (W := W) t);
  info_later t : keeps later (cb_GetPoolsDefault (W := W) t);
  tasks_later t : keeps later (cb_ListTasks (W := W) t);
  tls_later : keeps later (initTLSCache (W := W));
  get_later : keeps later (api_GetCluster (W := W));
  update_later status : keeps later (api_UpdateStatus (W := W) status);
  patch_later status : keeps later (api_PatchStatus (W := W) status);
  tick_later (w : W) : later w (retry_tick w);
  storeGet_later k : keeps later (ps_Get (S := W) k);
  storeInsert_later k v : keeps later (ps_Insert (S := W) k v);
}.
Context `{!WatchLaws}.

(** The cluster but for the deadlines, which stay; a new one has not passed. *)
Record looked (s s' : R) : Prop := {
  lk_cluster : c_cluster (cl s') = c_cluster (cl s);
  lk_learned : c_learned (cl s') = c_learned (cl s);
  lk_members : c_members (cl s') = c_members (cl s);
  lk_settings : c_settings (cl s') = c_settings (cl s);
  lk_networking : c_networking (cl s') = c_networking (cl s);
  lk_world : later (world s) (world s');
}.

#[local] Instance looked_preorder : PreOrder looked.
Proof.
  split; [by intros s; split|]. intros s1 s2 s3 [] []. split; try congruence. by etrans.
Qed.

Lemma looked_on_world {A} (m : M W A) : keeps later m → keeps looked (on_world m).
Proof. intros Hm s. specialize (Hm (world s)). unfold on_world, zoom. destruct (m (world s)). by split. Qed.

Lemma retry_later {A} (m : M W A) : keeps later m → keeps later (retry_for m).
Proof.
  intros Hm w. unfold retry_for. generalize (retry_ticks w). intros n. revert w.
  induction n as [|n IH]; intros w; simpl; specialize (Hm w); destruct (m w) as [[a|e|] w']; try exact Hm.
  etrans; [exact Hm|]. etrans; [apply tick_later|]. apply IH.
Qed.

Lemma retry_update_looked : keeps looked (retry_update (W := W)).
Proof.
  assert (keeps looked (updateCRStatus (W := W))) as Hu.
  { unfold updateCRStatus. keeps_tac; apply looked_on_world; [apply get_later|apply update_later|apply patch_later]. }
  intros s. unfold retry_update. generalize (retry_ticks (world s)). intros n. revert s.
  induction n as [|n IH]; intros s; simpl; specialize (Hu s); destruct (updateCRStatus s) as [[a|e|] s1]; try exact Hu.
  etrans; [exact Hu|]. etrans; [|apply IH]. split; [done..|]. apply tick_later.
Qed.

Lemma retry_update_only : keeps only_world (retry_update (W := W)).
Proof.
  intros s. unfold retry_update. generalize (retry_ticks (world s)). intros n. revert s.
  pose proof updateCRStatus_only as Hu.
  induction n as [|n IH]; intros s; simpl; specialize (Hu s); destruct (updateCRStatus s) as [[a|e|] s1]; try exact Hu.
  etrans; [exact Hu|]. etrans; [|apply IH]. done.
Qed.

(** ** Which states of the cluster a look reads *)
Definition seen_by (r : result ClusterState) : list Effect := match r with Ok status => [StatusSeen status] | _ => [] end.

Lemma on_world_run {A} (m : M W A) (s s' : R) r : on_world m s = (r, s') → cl s' = cl s ∧ trace s' = trace s.
Proof. intros Hr. pose proof (on_world_only m s) as Hw. rewrite Hr in Hw. by destruct Hw as (_&?&?). Qed.

Lemma GetStatus_seen pos (s s' : R) r :
  GetStatus pos s = (r, s') → cl s' = cl s ∧ trace s' = trace s ++ seen_by r.
Proof.
  unfold GetStatus, getStatusFromTarget, gets, mbind, M_bind. cbn [fst snd].
  destruct (on_world (retry_for _) s) as [[info|e|] s1] eqn:E1; apply on_world_run in E1 as [C1 T1];
    [|intros [= <- <-]; by rewrite app_nil_r..].
  destruct (on_world (getStatusFromClusterInfo _ _ _ _ _) s1) as [[status|e|] s2] eqn:E2; apply on_world_run in E2 as [C2 T2];
    [|intros [= <- <-]; rewrite app_nil_r; split; congruence..].
  destruct (on_world (retry_for _) s2) as [[tasks|e|] s3] eqn:E3; apply on_world_run in E3 as [C3 T3];
    [|intros [= <- <-]; rewrite app_nil_r; split; congruence..].
  intros [= <- <-]. simpl. split; congruence.
Qed.

Lemma info_status_later learned pos hosts info ms :
  keeps later (getStatusFromClusterInfo (ST := W) learned pos hosts info ms).
Proof.
  intros w. unfold getStatusFromClusterInfo. destruct (nodes_loop _ _ _ _ _ _ _) as [[states unknown]|e|]; [|done..].
  assert (keeps later (isUpgrading (ST := W))) as Hu.
  { intros w0. unfold isUpgrading. pose proof (storeGet_later Upgrading w0) as Hg.
    destruct (ps_Get Upgrading w0) as [[v|e|] w1]; [done| |done]. etrans; [exact Hg|].
    refine (keeps_bind _ _ _ _ _ w1); [apply storeInsert_later|]. intros. apply keeps_ret, _. }
  specialize (Hu w). by destruct (isUpgrading w).
Qed.

Lemma GetStatus_looked pos : keeps looked (GetStatus (W := W) pos).
Proof.
  unfold GetStatus, getStatusFromTarget. keeps_tac; try (apply looked_on_world).
  - apply retry_later, info_later.
  - apply info_status_later.
  - apply retry_later, tasks_later.
  - apply keeps_modify. by intros s.
Qed.

(** ** The rebalance reason *)
Definition Healthy (status : ClusterState) : Prop :=
  Balanced status = true ∧ map_Forall (λ _ st, st = NodeStateActive) (NodeStates status).
#[local] Instance Healthy_dec status : Decision (Healthy status).
Proof. unfold Healthy. apply _. Defined.

Lemma healthy_spec pos status : healthy pos status = bool_decide (Healthy status).
Proof.
  apply eq_bool_prop_intro. unfold healthy, areAllNodesActive. rewrite bool_decide_spec, andb_True. unfold Healthy.
  rewrite Is_true_true. apply and_iff_compat_l. rewrite Is_true_true, forallb_forall. split.
  - intros Hall n st Hn. apply (elem_of_range_entry pos), list_elem_of_In, Hall in Hn. by apply bool_decide_eq_true in Hn.
  - intros Hall [n st] Hn%list_elem_of_In%elem_of_range_entry. apply bool_decide_eq_true. exact (Hall n st Hn).
Qed.

(** [seen]: the state of the cluster, when it was asked for and could be read. *)
Definition rebalance_reason (was : bool) (attempts : Z) (seen : option ClusterState) : bool :=
  match seen with
  | Some status => (was || bool_decide (3 ≤ attempts)) && negb (bool_decide (Healthy status))
  | None => was
  end.

Definition sighting (seen : option ClusterState) : list Effect :=
  match seen with Some status => [StatusSeen status] | None => [] end.

Lemma rebalance_check_ok pos condition (s s' : R) b :
  checkForConsecutiveRebalanceFailures pos condition s = (Ok b, s') →
  cl s' = cl s ∧ ∃ seen, trace s' = trace s ++ sighting seen ∧
    b = rebalance_reason (inMirStateForReason condition MIRRebalanceRetriesExhausted)
          (GetRebalanceAttempts (Status (c_cluster (cl s)))) seen.
Proof.
  assert (∀ pos (s s' : R) a, attempt (GetStatus pos) s = (Ok a, s') → cl s' = cl s ∧
    trace s' = trace s ++ sighting (match a with inl status => Some status | inr _ => None end)) as Hask.
  { intros q t t' a. unfold attempt. destruct (GetStatus q t) as [[status|e|] t1] eqn:E; [|..|done];
      apply GetStatus_seen in E; by intros [= <- <-]. }
  unfold checkForConsecutiveRebalanceFailures. destruct (inMirStateForReason _ _) eqn:Hwas.
  - intros Hr. inv_ok Hr. injection Hr as <- <-. apply Hask in Hr0 as [? ?]. split; [done|]. eexists. split; [done|].
    destruct a as [status|e]; simpl; [|done]. by rewrite healthy_spec.
  - intros Hr. inv_ok Hr. injection Hr0 as <- <-. case_bool_decide as Ha.
    + inv_ok Hr. injection Hr as <- <-. apply Hask in Hr0 as [? ?]. split; [done|]. eexists. split; [done|].
      destruct a as [status|e]; simpl; [|done]. by rewrite healthy_spec, (bool_decide_true (3 ≤ _)).
    + injection Hr as <- <-. split; [done|]. exists None. by rewrite app_nil_r.
Qed.

(** ** Members that are lost *)
Definition lost (c : Cluster) (w : W) (n : string) : Prop :=
  ∃ m t, c_members c !! n = Some m ∧ c_recoveryTime c !! n = Some t ∧ t ≤ time_now w ∧
    isPodRecoverable (c_learned c) (c_cluster c) (PVCs_List w) m = false.

Lemma lost_later c w w' n : later w w' → lost c w n → lost c w' n.
Proof. intros [Hp Ht] (m&t&?&?&?&?). exists m, t. rewrite Hp. split_and!; try done. lia. Qed.

Lemma recoveryTime_looked n (s s' : R) b :
  - recovery_grace < AutoFailoverTimeout (c_settings (cl s)) →
  hasMemberRecoveryTimeElapsed n s = (Ok b, s') →
  looked s s' ∧ trace s' = trace s ∧ world s' = world s ∧
  ∀ k t, c_recoveryTime (cl s') !! k = Some t → t ≤ time_now (world s) → c_recoveryTime (cl s) !! k = Some t.
Proof.
  intros Htime Hr. unfold hasMemberRecoveryTimeElapsed in Hr.
  inv_ok Hr. injection Hr0 as <- <-. inv_ok Hr. injection Hr0 as <- <-. inv_ok Hr. injection Hr as _ <-.
  destruct (c_recoveryTime (cl s) !! n) as [t|] eqn:E; [injection Hr0 as <- <-; by split_and!; [reflexivity|..]|].
  inv_ok Hr0. injection Hr0 as <- <-. injection Hr1 as _ <-. split_and!; [by split|done..|].
  intros k t Hk Hle. cbn in Hk. destruct (decide (k = n)) as [->|Hne].
  - rewrite lookup_insert_eq in Hk. injection Hk as <-. lia.
  - by rewrite lookup_insert_ne in Hk by done.
Qed.

(** A deadline set now has not passed, so the one that has was there. *)
Lemma lost_member_ok l : ∀ (s s' : R) b,
  - recovery_grace < AutoFailoverTimeout (c_settings (cl s)) →
  lost_member l s = (Ok b, s') →
  looked s s' ∧ trace s' = trace s ∧ world s' = world s ∧ (b = true → ∃ n, n ∈ l ∧ lost (cl s) (world s) n).
Proof.
  induction l as [|n l IH]; intros s s' b Htime Hr; cbn [lost_member] in Hr.
  { injection Hr as <- <-. by split_and!; [reflexivity|..]. }
  inv_ok Hr. injection Hr0 as <- <-.
  destruct (c_members (cl s) !! n) as [m|] eqn:Hm.
  2: { apply IH in Hr as (?&?&?&Hb); [|done]. split_and!; [done..|]. intros (n'&Hn&Hl)%Hb. exists n'.
       split; [by right|done]. }
  inv_ok Hr. destruct a; cbn [negb] in Hr.
  - apply recoveryTime_elapsed in Hr0 as [-> (t&Ht&Hle)]; [|done]. inv_ok Hr. injection Hr0 as <- <-.
    destruct (recoverable s m) eqn:Hrec.
    + apply IH in Hr as (?&?&?&Hb); [|done]. split_and!; [done..|]. intros (n'&Hn&Hl)%Hb. exists n'. split; [by right|done].
    + injection Hr as <- <-. split_and!; [done..|]. intros _. exists n. split; [by left|]. by exists m, t.
  - assert (looked s s0 ∧ trace s0 = trace s ∧ world s0 = world s ∧
      ∀ k t, c_recoveryTime (cl s0) !! k = Some t → t ≤ time_now (world s) → c_recoveryTime (cl s) !! k = Some t)
      as (Hl&Ht&Hw&Hback).
    { by eapply recoveryTime_looked. }
    pose proof Hl as []. apply IH in Hr as (?&?&?&Hb); [|by rewrite lk_settings0].
    split_and!; [by etrans|congruence..|]. intros (n'&Hn&m'&t'&Hm'&Hd&Hp&Hx)%Hb. exists n'. split; [by right|].
    rewrite Hw in Hp, Hx. exists m', t'. split_and!; [congruence| |done|congruence]. by apply Hback.
Qed.

Lemma down_nodes_looked pos : keeps looked (getDownNodes (W := W) pos).
Proof. unfold getDownNodes. keeps_tac. apply looked_on_world, info_later. Qed.

Lemma down_nodes_trace pos (s s' : R) l : getDownNodes pos s = (Ok l, s') → cl s' = cl s ∧ trace s' = trace s.
Proof.
  intros Hr. assert (keeps only_world (getDownNodes (W := W) pos)) as Hk by (unfold getDownNodes; keeps_tac).
  specialize (Hk s). rewrite Hr in Hk. by destruct Hk as (_&?&?).
Qed.

Lemma down_ok pos (s s' : R) b :
  - recovery_grace < AutoFailoverTimeout (c_settings (cl s)) →
  checkForManualActionDownNodes pos s = (Ok b, s') →
  looked s s' ∧ trace s' = trace s ∧
  (b = true → GetRecoveryPolicy (c_cluster (cl s)) = PrioritizeDataIntegrity ∧
    ∃ n, lost (cl s) (world s') n).
Proof.
  intros Htime Hr. unfold checkForManualActionDownNodes in Hr. inv_ok Hr. injection Hr0 as <- <-.
  case_bool_decide as Hp; [injection Hr as <- <-; by split_and!; [reflexivity|..]|]. inv_ok Hr.
  pose proof (keeps_run _ _ _ _ _ (down_nodes_looked pos) Hr0) as Hl. apply down_nodes_trace in Hr0 as [Hc Ht].
  apply lost_member_ok in Hr as (Hl'&Ht'&Hw&Hb); [|by rewrite Hc].
  split_and!; [by etrans|congruence|]. intros (n&_&Hx)%Hb. split; [done|]. exists n. by rewrite Hw, <- Hc.
Qed.

(** ** The other checks *)
Lemma login_looked : keeps looked (checkForClusterLoginFailure (W := W)).
Proof. unfold checkForClusterLoginFailure. keeps_tac. apply looked_on_world, pools_later. Qed.

Lemma login_only : keeps only_world (checkForClusterLoginFailure (W := W)).
Proof. unfold checkForClusterLoginFailure. keeps_tac. Qed.

Lemma tls_looked condition : keeps looked (checkForTLSExpiration (W := W) condition).
Proof. unfold checkForTLSExpiration. keeps_tac. apply looked_on_world, tls_later. Qed.

Lemma tls_only condition : keeps only_world (checkForTLSExpiration (W := W) condition).
Proof. unfold checkForTLSExpiration. keeps_tac. Qed.

Lemma tls_ok condition (s s' : R) :
  checkForTLSExpiration condition s = (Ok true, s') → IsTLSEnabled (cl s) = true.
Proof.
  intros Hr. unfold checkForTLSExpiration in Hr. inv_ok Hr. injection Hr0 as <- <-. inv_ok Hr. injection Hr0 as <- <-.
  by destruct (IsTLSEnabled (cl s)).
Qed.

(** ** The outcome of a look *)
Definition other_conditions (c c' : Cluster) : Prop :=
  (∀ t, t ≠ ClusterConditionManualInterventionRequired →
    GetCondition (Status (c_cluster c')) t = GetCondition (Status (c_cluster c)) t) ∧
  set_Conditions [] (Status (c_cluster c')) = set_Conditions [] (Status (c_cluster c)).

(** What is known after a look, by the reasons that were found. *)
Record remembers (c c' : Cluster) (login rebalance down tls : bool) : Prop := {
  rm_login : recorded c' MIRLoginFailure = login;
  rm_rebalance : recorded c' MIRRebalanceRetriesExhausted = rebalance;
  rm_down : recorded c' MIRManualActionDownNodes = down;
  rm_tls : recorded c' MIRTLSExpired = tls;
  rm_condition : HasCondition (c_cluster c') ClusterConditionManualInterventionRequired =
    login || rebalance || down || tls;
  rm_none : login || rebalance || down || tls = false →
    GetCondition (Status (c_cluster c')) ClusterConditionManualInterventionRequired = None;
  rm_others : other_conditions c c';
}.

Lemma set_remembers now c login rebalance down tls :
  login || rebalance || down || tls = true →
  remembers c (set_status (SetManualInterventionRequiredCondition now
    (clusterConditionMessage (reasons login rebalance down tls))) c) login rebalance down tls.
Proof.
  intros Hany. set (message := clusterConditionMessage _).
  destruct (setClusterCondition_spec (Status (c_cluster c)) (newClusterCondition now
    ClusterConditionManualInterventionRequired ConditionTrue "ManualInterventionRequired" message))
    as ((c'&Hget&Hst&_&Hm&_)&Hother&_&Hfields).
  cbn [cc_Type cc_Status cc_Message newClusterCondition] in *.
  assert (∀ r, recorded (set_status (SetManualInterventionRequiredCondition now message) c) r = strings_Contains message r) as Hrec.
  { intros r. unfold recorded. cbn [set_status c_cluster Status]. unfold SetManualInterventionRequiredCondition.
    rewrite Hget. simpl. by rewrite Hm. }
  destruct (message_reads login rebalance down tls) as (M1&M2&M3&M4).
  split; try (rewrite Hrec; assumption).
  - unfold HasCondition. cbn [set_status c_cluster Status]. unfold SetManualInterventionRequiredCondition. rewrite Hget, Hst, Hany.
    by apply bool_decide_true.
  - by rewrite Hany.
  - split; [exact Hother|exact Hfields].
Qed.

Lemma clear_remembers c c' :
  GetCondition (Status (c_cluster c')) ClusterConditionManualInterventionRequired = None →
  other_conditions c c' → remembers c c' false false false false.
Proof. intros Hn Ho. split; try done; unfold recorded, HasCondition; by rewrite Hn. Qed.

Lemma remembers_from c1 c c' login rebalance down tls :
  c_cluster c1 = c_cluster c → remembers c1 c' login rebalance down tls → remembers c c' login rebalance down tls.
Proof. intros Hc []. split; try done. unfold other_conditions. by rewrite <- Hc. Qed.

(** The condition is written as the reasons say. *)
Lemma handled_ok (s s' : R) login rebalance down tls :
  NoDup (cc_Type <$> st_Conditions (Status (c_cluster (cl s)))) →
  (if bool_decide (0 < length (reasons login rebalance down tls))%nat
   then handleManualInterventionRequired (reasons login rebalance down tls)
   else handleNoManualInterventionRequired
          (GetCondition (Status (c_cluster (cl s))) ClusterConditionManualInterventionRequired)) s = (Ok tt, s') →
  remembers (cl s) (cl s') login rebalance down tls ∧ trace s' = trace s ∧ world s' = world s.
Proof.
  intros Htypes. destruct (login || rebalance || down || tls) eqn:Hany.
  - assert (bool_decide (0 < length (reasons login rebalance down tls))%nat = true) as ->.
    { destruct login, rebalance, down, tls; by try discriminate Hany. }
    intros [= <-]. split_and!; [|done..]. by apply set_remembers.
  - apply orb_false_elim in Hany as [[[-> ->]%orb_false_elim ->]%orb_false_elim ->].
    cbn [reasons found app length]. unfold handleNoManualInterventionRequired.
    destruct (GetCondition _ _) as [condition|] eqn:E; intros [= <-]; (split_and!; [|done..]); apply clear_remembers.
    + by apply find_remove_condition.
    + split; [|done]. intros t Ht. by apply find_remove_condition_other.
    + done.
    + by split.
Qed.

(** C12: A look of the watchdog that ends well remembers exactly what it found: the condition
    is there, and true, when a reason was found and is gone when none was, its message names
    those reasons and no other, and nothing else of the status changes.  The rebalance reason
    is entered when three attempts failed and the cluster is seen to be unhealthy, and left only
    when it is seen to be healthy.  The reason of lost members is given only under a policy that
    puts the data first, for a member that has been down past its deadline and that cannot be
    recreated. *)
Theorem checkCluster_remembers pos (s s' : R)
    (Hlive : watchdog_done (world s) = false)
    (Htypes : NoDup (cc_Type <$> st_Conditions (Status (c_cluster (cl s)))))
    (Htime : - recovery_grace < AutoFailoverTimeout (c_settings (cl s)))
    (Hrun : checkCluster pos s = (Ok tt, s')) :
  ∃ login rebalance down tls seen,
    remembers (cl s) (cl s') login rebalance down tls ∧
    trace s' = trace s ++ sighting seen ∧
    rebalance = rebalance_reason (recorded (cl s) MIRRebalanceRetriesExhausted)
                  (GetRebalanceAttempts (Status (c_cluster (cl s)))) seen ∧
    (down = true → GetRecoveryPolicy (c_cluster (cl s)) = PrioritizeDataIntegrity ∧ ∃ n, lost (cl s) (world s') n) ∧
    (tls = true → IsTLSEnabled (cl s) = true).
Proof.
  unfold checkCluster in Hrun. inv_ok Hrun. injection Hrun0 as <- <-. rewrite Hlive in Hrun.
  inv_ok Hrun. unfold existing in Hrun0. inv_ok Hrun0. injection Hrun1 as <- <-. injection Hrun0 as <- <-.
  inv_ok Hrun. rename a into login. inv_ok Hrun. rename a into rebalance.
  inv_ok Hrun. rename a into down. inv_ok Hrun. rename a into tls. inv_ok Hrun. destruct a.
  pose proof (keeps_run _ _ _ _ _ login_only Hrun0) as (_&C1&T1).
  clear Hrun0. apply rebalance_check_ok in Hrun1 as (C2&seen&T2&->). rewrite C1 in *. rewrite T1 in T2.
  apply down_ok in Hrun2 as (L3&T3&Hdown); [|by rewrite C2]. rewrite C2 in Hdown.
  pose proof (keeps_run _ _ _ _ _ (tls_only _) Hrun3) as (_&C4&T4).
  pose proof (keeps_run _ _ _ _ _ (tls_looked _) Hrun3) as L4.
  assert (tls = true → IsTLSEnabled (cl s) = true) as Htls.
  { intros ->. apply tls_ok in Hrun3. unfold IsTLSEnabled in *. by rewrite (lk_networking _ _ L3), C2 in Hrun3. }
  assert (c_cluster (cl s3) = c_cluster (cl s)) as C3 by (rewrite C4, (lk_cluster _ _ L3); congruence).
  rewrite <- C3 in Hrun4. apply handled_ok in Hrun4 as (Hmem&T5&W5); [|by rewrite C3].
  pose proof (keeps_run _ _ _ _ _ (keeps_ignore _ _ retry_update_only) Hrun) as (_&C6&T6).
  pose proof (keeps_run _ _ _ _ _ (keeps_ignore _ _ retry_update_looked) Hrun) as L6.
  eexists _, _, _, _, seen. split; [rewrite C6; eapply remembers_from; [exact C3|exact Hmem]|].
  split; [congruence|]. split; [by rewrite C3|]. split; [|done].
  intros Hd. destruct (Hdown Hd) as [Hp [n Hn]]. split; [done|]. exists n. eapply lost_later; [|exact Hn].
  etrans; [exact (lk_world _ _ L4)|]. rewrite <- W5. exact (lk_world _ _ L6).
Qed.

(** Without a cache, which initTLSCache does not fill from certificates that have expired,
    an expired certificate of the client ends the goroutine. *)
Lemma no_cache_panics (w : W) tls cert :
  tls_cache w = None → tls_ClientAuth tls = Some cert → checkCertExpiration w cert = true →
  tls_expired w tls = Panic.
Proof. intros Hnone Hcert Hexp. unfold tls_expired, cached. by rewrite Hcert, Hexp, Hnone. Qed.

(** With the reload in plain text, root certificates that have expired are not reported. *)
Lemma roots_never_reported (w : W) cache tls roots :
  AllowPlainTextCertReload w = true → tls_cache w = Some cache → roots_expired w tls roots = Ok false.
Proof.
  intros Hreload Hcache. induction roots as [|ca roots IH]; [done|]. cbn [roots_expired]. unfold stays_expired, cached.
  rewrite Hreload, Hcache. by destruct (checkCertExpiration w ca).
Qed.
End lookups.

(** ** A member that is down for good, after three attempts to rebalance *)
#[export] Instance sim_watchdog : WatchdogPlatform Sim := {|
  watchdog_done _ := false;
  mir_Start _ w := w;
  mir_Interval _ := None;
  failed_status _ := None;
  api_GetTLS _ := None;
  tls_cache _ := None;
  AllowPlainTextCertReload _ := false;
  initTLSCache w := (Ok tt, w);
  checkCertExpiration _ _ := false |}.

#[local] Instance watchdog_environment : Environment := λ _, None.
#[local] Instance watchdog_range : MapRange := canonical_range.

#[local] Instance sim_watch_laws : WatchLaws (W := Sim).
Proof.
  assert (∀ A (m : M (gmap string string) A), keeps (later (W := Sim)) (sim_storage_op m)) as Hstore.
  { intros A m w. unfold sim_storage_op, zoom. by destruct (m (sim_store w)). }
  split; try (intros; apply Hstore); try (intros; intros w); intros; (split; [done|simpl; lia]).
Qed.

Definition lost_state : RS Sim :=
  let c := sim_cluster 2 round_pods in
  let node := sim_node 0 "active" in
  mkRS empty_machine
    (set_status (set_RebalanceAttempts 3) (set_recovery {["cb-0000" := 5]} c))
    (mkSim round_pods
      (mkClusterInfo [mkNodeInfo "active" "unhealthy" (ni_OTPNode node) (ni_HostName node) (ni_Version node) "none" ["kv"];
                      sim_node 1 "active"] "none" false [] [] ∅) [] ∅ 10 []) [].

(** The look finds two reasons. *)
Lemma checkCluster_remembers_witness :
  let c' := cl (checkCluster [] lost_state).2 in
  recorded c' MIRRebalanceRetriesExhausted = true ∧ recorded c' MIRManualActionDownNodes = true ∧
  recorded c' MIRLoginFailure = false ∧
  HasCondition (c_cluster c') ClusterConditionManualInterventionRequired = true ∧
  ∃ n, lost (cl lost_state) (world (checkCluster [] lost_state).2) n.
Proof.
  set (r := checkCluster [] lost_state).
  assert (r.1 = Ok tt) as Hr by (vm_compute; reflexivity).
  assert (recorded (cl r.2) MIRRebalanceRetriesExhausted = true) as H1 by (vm_compute; reflexivity).
  assert (recorded (cl r.2) MIRManualActionDownNodes = true) as H2 by (vm_compute; reflexivity).
  assert (recorded (cl r.2) MIRLoginFailure = false) as H3 by (vm_compute; reflexivity).
  split; [exact H1|]. split; [exact H2|]. split; [exact H3|].
  destruct (checkCluster_remembers [] lost_state r.2) as (login&rebalance&down&tls&seen&Hm&_&_&Hd&_).
  - reflexivity.
  - vm_compute. repeat constructor; set_solver.
  - vm_compute. reflexivity.
  - rewrite <- Hr. apply surjective_pairing.
  - destruct Hm as [_ Hb Hdown _ Hc _ _]. rewrite H1 in Hb. rewrite H2 in Hdown. subst rebalance down.
    split; [rewrite Hc; apply orb_true_iff; left; apply orb_true_r|]. exact (proj2 (Hd eq_refl)).
Defined.
