(* ===== verification/Migration.v ===== *)
(** * pkg/cluster/migration.go: taking over an unmanaged cluster

    The reconciliation of a cluster with [spec.migration]: which nodes are not the
    operator's ([NewMigrationReconcileMachine]), which of them a pass replaces by pods
    ([handleMigrateNodes]), and the cycle of the handlers around it.  The machine embeds
    the reconcile machine, whose handlers it inherits; those call the [removeMemberUser] of
    the machine that is embedded. *)

From Stdlib Require Import Ascii.
From S2P Require Import Prelude Effects GoLib Regex Digests Version Api Member Persistence Status.
From S2P Require Import ServerGroups Scheduler UpgradeOrder RollingUpgrade NodeStatus Pods Volumes Machine Rebalance.
From S2P Require Import Baseline Claims Creation Recovery PendingInit Failover Scaling GroupSync Upgrading Round.
Local Open Scope Z_scope.

Definition ByServerGroup : string := "ByServerGroup".
Definition ByServerClass : string := "ByServerClass".
Definition ByNode : string := "ByNode".

Record MigrationOrderOverrideSpec := mkMigrationOrder {
  MigrationOrderOverrideStrategy : string;
  ServerGroupOrder : list string;
  ServerClassOrder : list string;
  NodeOrder : list string;
}.

(** [spec.migration]; the host is [cs_UnmanagedClusterHost] of the specification. *)
Record ClusterAssimilationSpec := mkAssimilation {
  NumUnmanagedNodes : Z;
  MigrationStabilizationPeriod : option Z;
  MaxConcurrentMigrations : Z;
  MigrationOrderOverride : option MigrationOrderOverrideSpec;
}.

(** The sets the machine has besides those of the reconcile machine. *)
Record MigrationSets := mkSets { externalMembers : MemberSet; migratedMembers : MemberSet }.

Class MigrationPlatform (W : Type) `{Platform W} := {
  cb_GetIndexStorageMode : Target → M W string;
  ReconcilePodService : Member → M W ();
}.

(** ** Classes of nodes *)
Fixpoint SpecServicesListToServerServiceList (services : list Service) : result (list string) :=
  match services with
  | [] => Ok []
  | svc :: services =>
      serviceName ← MapServiceNameToServerServiceName svc;
      list ← SpecServicesListToServerServiceList services;
      Ok (serviceName :: list)
  end.

(** Every service of the node is one of the class. *)
Definition NodeMatchesConfig (sc : ServerConfig) (n : NodeInfo) : bool :=
  match SpecServicesListToServerServiceList (sc_Services sc) with
  | Ok configServices => forallb (λ nodeService, bool_decide (nodeService ∈ configServices)) (ni_Services n)
  | _ => false
  end.

(** How many members each class has. *)
Definition count_config (matches : gmap string Z) (m : Member) : gmap string Z :=
  <[Config m := default 0 (matches !! Config m) + 1]> matches.

Definition matching_class (configs : list ServerConfig) (node : NodeInfo) : string :=
  match list_find (λ config, NodeMatchesConfig config node = true) configs with
  | Some (_, config) => sc_Name config
  | None => ""
  end.

(** A class that is not full yet, or else any that fits. *)
Fixpoint add_missing (configs : list ServerConfig) (configMatches : gmap string Z) (ms : MemberSet)
    (nodes : list NodeInfo) : result MemberSet :=
  match nodes with
  | [] => Ok ms
  | node :: nodes =>
      if Contains ms (GetMemberName (ni_HostName node)) || ContainsOTP ms (HostName_GetOTPNode (ni_HostName node))
      then add_missing configs configMatches ms nodes
      else
        let free := list_find (λ config, NodeMatchesConfig config node = true ∧
                                         default 0 (configMatches !! sc_Name config) < sc_Size config) configs in
        let configMatches :=
          match free with
          | Some (_, config) => <[sc_Name config := default 0 (configMatches !! sc_Name config) + 1]> configMatches
          | None => configMatches
          end in
        let configName := match free with Some (_, config) => sc_Name config | None => "" end in
        let configName := if bool_decide (configName = "") then matching_class configs node else configName in
        if bool_decide (configName = "") then Err ErrNoMatchingServerClass
        else add_missing configs configMatches
               (Add (NewExternalMember (split_first (ni_HostName node) ":"%char) configName false) ms) nodes
  end.

Definition addMissingNodesToSet (nodes : list NodeInfo) (configs : list ServerConfig) (existingMembers : MemberSet) :
    result MemberSet :=
  add_missing configs (fold_left count_config (Member.members existingMembers) ∅) (Copy existingMembers) nodes.

(** ** Candidates *)

(** The order that is given, then whatever it has too few names for. *)
Definition complete_order (given all : list string) : list string :=
  match given with
  | [] => all
  | _ =>
      if bool_decide (length given < length all)%nat
      then fold_left (λ order n, if bool_decide (n ∈ order) then order else order ++ [n]) all given
      else given
  end.

(** The first group in the order that has members. *)
Definition first_group (groups : gmap string MemberSet) (order : list string) : MemberSet :=
  match list_find (λ g, (0 < Member.Size (default ∅ (groups !! g)))%nat) order with
  | Some (_, g) => default ∅ (groups !! g)
  | None => ∅
  end.

Definition group_node (external : MemberSet) (grouped : gmap string MemberSet) (e : string * NodeInfo) :
    gmap string MemberSet :=
  match external !! GetMemberName (ni_HostName e.2) with
  | None => grouped
  | Some m =>
      match grouped !! e.1 with
      | None => <[e.1 := NewMemberSet [m]]> grouped
      | Some set => <[e.1 := Add m set]> grouped
      end
  end.

(** The nodes of the order; [true] when there are enough of them. *)
Fixpoint by_host (visit : nat → list (string * Member)) (numCandidates : Z) (order : list string)
    (candidates : MemberSet) : MemberSet * bool :=
  match order with
  | [] => (candidates, false)
  | hostName :: order =>
      let candidates :=
        match list_find (λ e : string * Member, GetDNSName e.2 = hostName) (visit (length order)) with
        | Some (_, e) => Add e.2 candidates
        | None => candidates
        end in
      if bool_decide (numCandidates ≤ Z.of_nat (Member.Size candidates)) then (candidates, true)
      else by_host visit numCandidates order candidates
  end.

(** The others by their names.  A name that is not in the set is a nil member. *)
Fixpoint by_node_name (external : MemberSet) (numCandidates : Z) (names : list string) (candidates : MemberSet) :
    result MemberSet :=
  match names with
  | [] => Ok candidates
  | nodeName :: names =>
      match external !! nodeName with
      | None => Panic
      | Some m =>
          let candidates := if Contains candidates (Name m) then candidates else Add m candidates in
          if bool_decide (numCandidates ≤ Z.of_nat (Member.Size candidates)) then Ok candidates
          else by_node_name external numCandidates names candidates
      end
  end.

(** At most so many of those visited. *)
Fixpoint at_most (n : Z) (l : list Member) (candidates : MemberSet) : MemberSet :=
  match l with
  | [] => candidates
  | m :: l =>
      if bool_decide (n ≤ Z.of_nat (Member.Size candidates)) then candidates
      else at_most n l (Add m candidates)
  end.

Definition isDataNode (servers : list ServerConfig) (m : Member) : bool :=
  match list_find (λ sc, sc_Name sc = Config m) servers with
  | Some (_, config) => ServiceList.Contains (sc_Services config) DataService
  | None => false
  end.

(** The choice of a pass: [limited] are the nodes of which one is to stay. *)
Fixpoint choose (limited : Member → bool) (spare maxNodes : Z) (l : list Member) (candidates : MemberSet) (data : Z) :
    MemberSet :=
  match l with
  | [] => candidates
  | m :: l =>
      if limited m && bool_decide (spare ≤ data) then choose limited spare maxNodes l candidates data
      else
        let candidates := Add m candidates in
        let data := if limited m then data + 1 else data in
        if bool_decide (maxNodes ≤ Z.of_nat (Member.Size candidates)) then candidates
        else choose limited spare maxNodes l candidates data
  end.

(** ** The condition, through a pointer

    [waitingCond] points into the array of the conditions, which [ClearCondition] shifts
    in place: what it points to then is what has moved there. *)
Definition shift_out (t : ClusterConditionType) (len : nat) (array : list ClusterCondition) :
    nat * list ClusterCondition :=
  match list_find (λ c, cc_Type c = t) (take len array) with
  | Some (i, _) => ((len - 1)%nat, take i array ++ drop (S i) (take len array) ++ drop (len - 1) array)
  | None => (len, array)
  end.

Definition cell_after_clears (cs : ClusterStatus) : option ClusterCondition :=
  let array := st_Conditions cs in
  '(j, _) ← list_find (λ c, cc_Type c = ClusterConditionWaitingBetweenMigrations) array;
  let '(len, array) := shift_out ClusterConditionMigrating (length array) array in
  let '(_, array) := shift_out ClusterConditionWaitingBetweenMigrations len array in
  array !! j.

(** ** The machine *)
Section migration.
Context `{UpgradePlatform W} `{!ClaimPlatform W} `{!NodeInit W} `{!RoundPlatform W} `{!GroupPlatform W}
  `{!MigrationPlatform W} `{PersistentStorage W}
  `{Environment} `{SpecJSON} `{TrackerJSON} `{MapRange} `{Scheduler Sc}.
Abbreviation R := (RS W).
Abbreviation FS := (RS W * Sc)%type.
Abbreviation MS := (RS W * Sc * MigrationSets)%type.
Context (migration : ClusterAssimilationSpec) (schedule : list nat) (tlsCache : option string).

Definition on_fs {A} (m : M FS A) : M MS A := zoom fst (λ f s, (f, s.2)) m.
Definition on_sets (f : MigrationSets → MigrationSets) : M MS () := modify (λ s, (s.1, f s.2)).
Definition in_rs {A} (m : M R A) : M MS A := on_fs (on_rs m).

Definition checkTargetClusterVersion : M R () :=
  c ← gets cl;
  clusterInfo ← on_world (cb_GetPoolsDefault (getMigratingReadyTarget c));
  targetClusterVersion ← lift (NewVersionFromImage (c_learned c) (cs_Image (Spec (c_cluster c))));
  hasEqualVersion ← for_fold (λ hasEqualVersion node,
      let '(nodeVersionStr, _, _) := strings_Cut (ni_Version node) "-" in
      nodeVersion ← lift (NewVersion (c_learned c) nodeVersionStr);
      if Version.Less targetClusterVersion nodeVersion then throw ErrRollbackDuringMigration
      else mret (hasEqualVersion || Version.Equal targetClusterVersion nodeVersion)) false (Nodes clusterInfo);
  if hasEqualVersion : bool then mret tt else throw ErrClusterVersionMismatch.

(** [indexer] is the storage mode of [spec.cluster.indexer], if there is one. *)
Definition checkIndexerStorageMode (indexer : option string) : M R () :=
  c ← gets cl;
  if negb (IsIndexerEnabled (c_cluster c)) then mret tt
  else
    storageMode ← on_world (cb_GetIndexStorageMode (getMigratingReadyTarget c));
    match indexer with
    | Some mode => if bool_decide (storageMode ≠ mode) then throw ErrIndexStorageModeMismatch else mret tt
    | None => mret tt
    end.

Definition checkUnmanagedClusterReadiness (target : Target) : M R () :=
  clusterInfo ← on_world (cb_GetPoolsDefault target);
  match list_find (λ node, ni_Status node ≠ "healthy") (Nodes clusterInfo) with
  | Some (_, node) =>
      set_status_now (λ now, SetErrorCondition now ("node is not healthy: " +:+ ni_HostName node));;
      throw ErrNodeNotActive
  | None =>
      if ci_Balanced clusterInfo then modify (set_cl (set_status (ClearCondition ClusterConditionError)))
      else
        set_status_now (λ now, SetErrorCondition now "remote cluster needs rebalance");;
        throw ErrRemoteClusterUnbalanced
  end.

Definition initalizeClusterKubernetesResources (pos : list nat) (target : Target) : M R () :=
  uuid ← on_world (fetchAndPersistClusterUUID target);
  updateMembers pos;;
  modify (set_cl (set_status (SetClusterID uuid)));;
  set_status_now SetBalancedCondition;;
  updateCRStatus.

(** A node of the status that is none of the members is a nil member in a set. *)
Definition migration_state (pos : list nat) (allNodes : MemberSet) (status : ClusterState) : result MemberState :=
  if forallb (λ e : string * NodeState, Contains allNodes e.1) (map_to_list (NodeStates status)) then
    let st := fold_left (classify allNodes) (range pos (NodeStates status))
                (mkMemberState ∅ ∅ ∅ ∅ ∅ ∅ ∅ ∅ (Balancing status) (negb (Balanced status))) in
    Ok (mkMemberState (ActiveNodes st) (PendingAddNodes st) (AddBackNodes st) (FailedAddNodes st)
          (WarmupNodes st) (DownNodes st) (FailedNodes st)
          (filter (λ e : string * Member, NodeStates status !! e.1 = None) allNodes) (IsRebalancing st) (NeedsRebalance st))
  else Panic.

Definition NewMigrationReconcileMachine (pos : list nat) : M R (ReconcileMachine * MigrationSets) :=
  c ← gets cl;
  pd ← on_world (cb_GetPoolsDefault (getMigratingReadyTarget c));
  w ← gets world;
  let k8sMembers := podsToMemberSet (getClusterPods c w) in
  allNodes ← lift (addMissingNodesToSet (Nodes pd) (cs_Servers (Spec (c_cluster c))) k8sMembers);
  let external := Diff allNodes k8sMembers in
  let clusterK8sMembers := Intersect k8sMembers allNodes in
  status ← on_world (getStatusFromClusterInfo (c_learned c) (0%nat :: pos) (hostNetwork c) pd allNodes);
  let allNodes := MergeWithOverwrite allNodes clusterK8sMembers in
  state ← lift (migration_state (1%nat :: pos) allNodes status);
  mret (mkMachine allNodes allNodes ∅ ∅ (Copy (UnclusteredNodes state)) ∅ ∅ (NeedsRebalance state) state ∅ "" 3 false,
        mkSets external ∅).

(** ** Adding a member to the unmanaged cluster *)

(** The services there were when the error came. *)
Fixpoint services_parsed (arr : list string) : list string * option error :=
  match arr with
  | [] => ([], None)
  | svc :: arr =>
      if bool_decide (svc = "admin") then services_parsed arr
      else
        match MapServiceNameToServerServiceName svc with
        | Ok serviceName => let '(list, e) := services_parsed arr in (serviceName :: list, e)
        | Err e => ([], Some e)
        | Panic => ([], None)
        end
  end.

Fixpoint wait_main_container (n : nat) (name : string) : M W () := λ w,
  match Pods_Get w name with
  | None => (Err ErrPodNotFound, w)
  | Some pod =>
      if kp_Terminating pod then (Err ErrPodNotFound, w)
      else if isPodActuallyReady pod then (Ok tt, w)
      else match n with
           | O => (Err ErrNodeNotAdded, w)
           | S n => wait_main_container n name (retry_tick w)
           end
  end.

Definition waitForPodMainContainerReady (name : string) : M W () := λ w,
  wait_main_container (retry_ticks w) name w.

(** The call, and what it leaves in the result for the member: an error there lets the
    others be added. *)
Definition join_cluster (pos : list nat) (member : Member) (serverSpec : ServerConfig) (url : string)
    (services : list string) (err : option error) (target : Target) : M R (Member * option error) :=
  ready ← attempt (on_world (waitForPodMainContainerReady (Name member)));
  match ready with
  | inr e => mret (member, Some e)
  | inl _ =>
      initialised ← attempt (initMember tlsCache pos member serverSpec true);
      match initialised with
      | inr e => mret (member, Some e)
      | inl member =>
          added ← attempt (on_world (AddNodeWithPodReadyCheck member url services target));
          match added with
          | inr e => mret (member, Some e)
          | inl _ =>
              clusterAddMember member;;
              flagged ← attempt (on_world (SetPodInitialized (Name member)));
              w ← gets world;
              match Pods_Get w (Name member) with
              | Some pod => ignore_error (on_world (ClearPodPendingInitialization pod))
              | None => mret tt
              end;;
              on_world (waitForPodAdded member);;
              mret (member, match flagged with inr e => Some e | inl _ => err end)
          end
      end
  end.

Definition addMigrationMember (pos : list nat) (memberResult : Member * option error) (serverSpec : ServerConfig)
    (target : Target) : M R (Member * option error) :=
  let '(member, _) := memberResult in
  c ← gets cl;
  let '(services, err) := services_parsed (sc_Services serverSpec) in
  let url := if AddNodeInsecure (c_settings c) then GetHostURLPlaintext member else GetDNSName member in
  exposed ← (if IsExternalMigrationCluster c && bool_decide (ExposedFeatures (c_networking c) ≠ [])
             then attempt (on_world (ReconcilePodService member)) else mret (inl tt));
  match exposed with
  | inr e => if bool_decide (e = ErrResourceAttributeRequired) then mret (member, err) else throw e
  | inl _ => join_cluster pos member serverSpec url services err target
  end.

Fixpoint addMigrationMembers (pos : list nat) (target : Target) (serverSpecs : list ServerConfig)
    (memberResults : list (Member * option error)) : M R (list (Member * option error)) :=
  match memberResults, serverSpecs with
  | [], _ => mret []
  | memberResult :: memberResults, serverSpec :: serverSpecs =>
      memberResult ← match memberResult.2 with
        | Some _ => mret memberResult
        | None => addMigrationMember (length memberResults :: pos) memberResult serverSpec target
        end;
      rest ← addMigrationMembers pos target serverSpecs memberResults;
      mret (memberResult :: rest)
  | _ :: _, [] => lift Panic
  end.

Definition addMembersToTarget (pos : list nat) (target : Target) (serverSpecs : list ServerConfig) :
    M FS (list (Member * option error)) :=
  Creation.addMembers (λ specs results, on_rs (addMigrationMembers (0%nat :: pos) target specs results))
    (1%nat :: pos) schedule serverSpecs.

(** ** The candidates *)
Definition getMigrationCandidatesByServerClass (c : Cluster) (order : list string) (external : MemberSet) : MemberSet :=
  first_group (GroupByServerConfigs external) (complete_order order (sc_Name <$> cs_Servers (Spec (c_cluster c)))).

Definition getMigrationCandidatesByServerGroup (order : list string) (external : MemberSet) : M R MemberSet :=
  c ← gets cl;
  existingGroups ← on_world (cb_ListServerGroups (getMigratingReadyTarget c));
  let alphabeticalGroups := sort_Strings (sg_Name <$> sgs_Groups existingGroups) in
  mret (first_group (fold_left (group_node external) (grouped_nodes existingGroups) ∅)
          (complete_order order alphabeticalGroups)).

Definition getMigrationCandidatesByNode (pos : list nat) (order : list string) (external : MemberSet) (n : Z) :
    result MemberSet :=
  let numCandidates := Z.min n (MaxConcurrentMigrations migration) in
  let '(candidates, enough) := by_host (λ i, range (i :: pos) external) numCandidates order ∅ in
  if enough : bool then Ok candidates
  else by_node_name external numCandidates (Names external) candidates.

Definition ordered_candidates (pos : list nat) (external : MemberSet) (numToMigrate : Z) : M R MemberSet :=
  c ← gets cl;
  match MigrationOrderOverride migration with
  | None => mret external
  | Some override =>
      let strategy := MigrationOrderOverrideStrategy override in
      if bool_decide (strategy = ByServerGroup) then
        if ServerGroupsEnabled (Spec (c_cluster c))
        then getMigrationCandidatesByServerGroup (ServerGroupOrder override) external else mret external
      else if bool_decide (strategy = ByServerClass)
      then mret (getMigrationCandidatesByServerClass c (ServerClassOrder override) external)
      else if bool_decide (strategy = ByNode)
      then lift (getMigrationCandidatesByNode pos (NodeOrder override) external numToMigrate)
      else mret external
  end.

Definition getMigrationCandidates (pos : list nat) (external : MemberSet) : M R MemberSet :=
  if Empty external || bool_decide (Z.of_nat (Member.Size external) ≤ NumUnmanagedNodes migration) then mret ∅
  else
    let numToMigrate := wrap64 (Z.of_nat (Member.Size external) - NumUnmanagedNodes migration) in
    allNextCandidates ← ordered_candidates (0%nat :: pos) external numToMigrate;
    mret (at_most numToMigrate (range (1%nat :: pos) allNextCandidates).*2 ∅).

(** ** The handlers of its own *)
Definition removeMemberUser_migration (m : Member) : M MS () :=
  on_sets (λ s, mkSets (Remove (Name m) (externalMembers s)) (migratedMembers s));;
  in_rs (removeMemberUser m).

Definition getManagedK8sMembers (r : ReconcileMachine) (s : MigrationSets) : MemberSet :=
  Diff (clusteredMembers r) (externalMembers s).

Definition handleUnknownServerConfigs_migration (pos : list nat) : M MS () :=
  s ← get;
  let r := fsm s.1.1 in
  let managed := Intersect (clusteredMembers r) (getManagedK8sMembers r s.2) in
  for_each (λ e : string * Member, in_rs (removeMemberIfUnknownServerConfig e.2)) (range pos managed).

(** What is to go from each class. *)
Fixpoint migration_removals (r : ReconcileMachine) (managed unmanaged : MemberSet) (servers : list ServerConfig) :
    list ServerConfig * list ScalingMessage :=
  match servers with
  | [] => ([], [])
  | serverSpec :: servers =>
      let rest := migration_removals r managed unmanaged servers in
      let existingNodes := Z.of_nat (Member.Size (GroupByServerConfig (sc_Name serverSpec) (clusteredMembers r))) in
      let nodesToRemove := wrap64 (existingNodes - sc_Size serverSpec) in
      if bool_decide (nodesToRemove ≤ 0) then rest
      else
        let managedSize := Z.of_nat (Member.Size (GroupByServerConfig (sc_Name serverSpec) managed)) in
        let unmanagedSize := Z.of_nat (Member.Size (GroupByServerConfig (sc_Name serverSpec) unmanaged)) in
        let nodesToRemove := if bool_decide (managedSize + unmanagedSize < nodesToRemove) then managedSize
                             else nodesToRemove in
        (replicate (Z.to_nat nodesToRemove) serverSpec ++ rest.1,
         mkScaling (sc_Name serverSpec) existingNodes (sc_Size serverSpec) :: rest.2)
  end.

(** An unmanaged node first; otherwise the scheduler says which. *)
Definition pick_server (pos : list nat) (unmanaged : MemberSet) (serverSpec : ServerConfig) : M FS string :=
  match Names (GroupByServerConfig (sc_Name serverSpec) unmanaged) with
  | server :: _ =>
      if bool_decide (server = "") then on_scheduler (Delete pos (sc_Name serverSpec)) else mret server
  | [] => on_scheduler (Delete pos (sc_Name serverSpec))
  end.

Fixpoint remove_migrating (pos : list nat) (unmanaged : MemberSet) (deletions : list ServerConfig) : M MS () :=
  match deletions with
  | [] => mret tt
  | serverSpec :: deletions =>
      server ← on_fs (pick_server (length deletions :: pos) unmanaged serverSpec);
      c ← in_rs (gets cl);
      match c_members c !! server with
      | Some m =>
          removeMemberUser_migration m;;
          remove_migrating pos (Remove (Name m) unmanaged) deletions
      | None => remove_migrating pos unmanaged deletions
      end
  end.

Definition handleRemoveNode_migration (pos : list nat) : M MS () :=
  s ← get;
  let r := fsm s.1.1 in
  let managed := Intersect (clusteredMembers r) (getManagedK8sMembers r s.2) in
  let unmanaged := Intersect (clusteredMembers r) (externalMembers s.2) in
  let plan := migration_removals r managed unmanaged (cs_Servers (Spec (c_cluster (cl s.1.1)))) in
  if bool_decide (plan.1 = []) then mret tt
  else
    in_rs (set_status_now (λ now, SetScalingDownCondition now (BuildMessage plan.2)));;
    remove_migrating pos unmanaged plan.1.

(** One node is replaced by a pod of its class. *)
Definition migrateNode (pos : list nat) (m : Member) : M MS () :=
  c ← in_rs (gets cl);
  match GetServerConfigByName (Spec (c_cluster c)) (Config m) with
  | None => throw ErrNoMatchingServerClass
  | Some serverClass =>
      memberResults ← on_fs (addMembersToTarget pos (getMigratingReadyTarget c) [serverClass]);
      for_each (λ result : Member * option error,
          match result.2 with
          | Some _ => mret tt
          | None => in_rs (addMember result.1);; removeMemberUser_migration m
          end) memberResults;;
      match first_error memberResults with
      | Some e => throw e
      | None => mret tt
      end
  end.

Definition migrate_one (pos : list nat) (e : nat * Member) : M MS () :=
  migrateNode (e.1 :: pos) e.2;;
  on_sets (λ s, mkSets (externalMembers s) (Add e.2 (migratedMembers s))).

(** The nodes a pass takes of the candidates. *)
Definition migration_choice (pos : list nat) (c : CouchbaseCluster) (allCandidates : MemberSet) : MemberSet :=
  let maxNodes := if bool_decide (MaxConcurrentMigrations migration ≤ 0) then 1 else MaxConcurrentMigrations migration in
  let numDataNodes := GetNumberOfDataServiceNodes c in
  let performDataNodesCheck := bool_decide (1 < numDataNodes) && bool_decide (numDataNodes ≤ maxNodes) in
  choose (λ m, performDataNodesCheck && isDataNode (cs_Servers (Spec c)) m) (numDataNodes - 1) maxNodes
    (range pos allCandidates).*2 ∅ 0.

Definition handleMigrateNodes (pos : list nat) : M MS () :=
  s ← get;
  let c := cl s.1.1 in
  if needsRebalance (fsm s.1.1) then mret tt
  else if negb (IsReadyToAttemptMigration (c_cluster c)) then mret tt
  else
    allCandidates ← in_rs (getMigrationCandidates (0%nat :: pos) (externalMembers s.2));
    let migrationCandidates := migration_choice (1%nat :: pos) (c_cluster c) allCandidates in
    for_each (migrate_one (2%nat :: pos)) (imap pair (range (3%nat :: pos) migrationCandidates).*2).

Definition handleMarkReady (pos : list nat) : M MS () :=
  s ← get;
  candidates ← in_rs (getMigrationCandidates pos (externalMembers s.2));
  if Empty candidates then in_rs (set_status_now SetReadyCondition) else mret tt.

(** Whether the period since the condition changed is over: a date nobody can read is
    taken for one that is long past. *)
Definition end_waiting (cell : option ClusterCondition) (period : Z) : M R () :=
  match cell with
  | Some waitingCond =>
      if bool_decide (cc_Status waitingCond ≠ ConditionTrue) then mret tt
      else
        w ← gets world;
        match time_ParseRFC3339 (W := W) (cc_LastTransitionTime waitingCond) with
        | Ok lastTransitionTime =>
            if bool_decide (period < time_now w - lastTransitionTime)
            then set_status_now SetNotWaitingBetweenMigrations else mret tt
        | _ => set_status_now SetNotWaitingBetweenMigrations
        end
  | None => mret tt
  end.

Definition handleMigrateCondition : M MS () :=
  s ← get;
  let c := cl s.1.1 in
  let status := Status (c_cluster c) in
  let waitingCond := GetCondition status ClusterConditionWaitingBetweenMigrations in
  let over := Empty (externalMembers s.2) &&
              match waitingCond with
              | None => true
              | Some cond => bool_decide (cc_Status cond = ConditionFalse)
              end in
  (if over then
     in_rs (modify (set_cl (set_status (ClearCondition ClusterConditionMigrating)));;
            modify (set_cl (set_status (ClearCondition ClusterConditionWaitingBetweenMigrations))))
   else mret tt);;
  if bool_decide (default "" (cs_UnmanagedClusterHost (Spec (c_cluster c))) = "") then mret tt
  else
    match MigrationStabilizationPeriod migration with
    | None => mret tt
    | Some period =>
        if bool_decide (0 < Member.Size (migratedMembers s.2))%nat
        then in_rs (set_status_now SetWaitingBetweenMigrations)
        else in_rs (end_waiting (if over then cell_after_clears status else waitingCond) period)
    end.

(** ** The cycle *)
Context (handleAddNode : list nat → M FS ()).
Context (reconcileServerGroups : M R bool).
Context (reconcilePodServices reconcileMemberAlternateAddresses : M R ()).

(** A handler that is inherited.  The clustered and the running members are one map: what
    changes the former shows in the latter. *)
Definition inherited (m : M FS ()) : M MS () :=
  on_fs (m;; on_rs (modify (set_fsm (λ r, set_running (clusteredMembers r) r)))).

Definition migration_handlers (pos : list nat) : list (M MS ()) :=
  [inherited (on_rs (handleRebalanceCheck (0%nat :: pos)));
   inherited (on_rs handleWarmupNodes);
   inherited (on_rs (handleDownNodes (2%nat :: pos)));
   inherited (on_rs (handleUnclusteredNodes (3%nat :: pos)));
   inherited (on_rs (handleFailedAddNodes (4%nat :: pos)));
   inherited (on_rs (handleAddBackNodes (5%nat :: pos)));
   inherited (on_rs (handleFailedNodes (6%nat :: pos)));
   handleUnknownServerConfigs_migration (7%nat :: pos);
   handleRemoveNode_migration (8%nat :: pos);
   inherited (handleAddNode (9%nat :: pos));
   handleMigrateNodes (10%nat :: pos);
   inherited (on_rs (handleServerGroups reconcileServerGroups));
   inherited (on_rs (handleNodeServices reconcilePodServices reconcileMemberAlternateAddresses (12%nat :: pos)));
   inherited (on_rs (handleServerGroups reconcileServerGroups));
   inherited (on_rs (handleRebalance (14%nat :: pos)));
   handleMarkReady (15%nat :: pos);
   handleMigrateCondition;
   mret tt].

Fixpoint exec_migration (reconcileFunctions : list (M MS ())) : M MS bool :=
  match reconcileFunctions with
  | [] => mret false
  | f :: reconcileFunctions =>
      f;;
      s ← get;
      if bool_decide (abortReason (fsm s.1.1) ≠ "") then mret true
      else in_rs (ignore_error updateCRStatus);; exec_migration reconcileFunctions
  end.

(** ** The reconciliation *)
Context (newScheduler : list Api.Pod → CouchbaseCluster → result Sc).
Context (initClients : M R ()) (indexer : option string).
Context (reconcileStatus : M R ()) (preCreation : list (M FS ())).
Context (reconcileStatusExistingBucket : M R ()).

Definition adopt (pos : list nat) : M R () :=
  initializeClusterState initClients;;
  c ← gets cl;
  let target := getMigratingReadyTarget c in
  checkUnmanagedClusterReadiness target;;
  initalizeClusterKubernetesResources pos target.

Definition run_machine (pos : list nat) : M FS bool := λ f,
  match on_rs (NewMigrationReconcileMachine (0%nat :: pos)) f with
  | (Ok (r, sets), f) =>
      let f := (set_fsm (λ _, r) f.1, f.2) in
      let '(x, s) := ((if Empty (externalMembers sets) then mret tt else in_rs (set_status_now SetMigratingCondition));;
                      exec_migration (migration_handlers (1%nat :: pos))) (f, sets) in
      (x, s.1)
  | (Err e, f) => (Err e, f)
  | (Panic, f) => (Panic, f)
  end.

Definition reconcileMigrationCluster (pos : list nat) : M FS () :=
  s ← on_rs get;
  let pods := getClusterPods (cl s) (world s) in
  on_rs (for_each kill_uninitialized pods);;
  sc ← lift (newScheduler (scheduled_pod <$> pods) (c_cluster (cl s)));
  on_scheduler (put sc);;
  (if Empty (c_members (cl s)) then on_rs (adopt (0%nat :: pos)) else on_rs (updateMembers (1%nat :: pos)));;
  on_rs checkTargetClusterVersion;;
  on_rs (checkIndexerStorageMode indexer);;
  run_all (on_rs <$> [reconcileStatus; reconcileCompletedPods]);;
  run_all preCreation;;
  aborted ← run_machine (2%nat :: pos);
  if aborted : bool then mret tt
  else
    on_rs reconcileStatusExistingBucket;;
    on_rs (modify (set_cl (set_status (ClearCondition ClusterConditionScaling))));;
    on_rs (modify (set_cl (set_status (ClearCondition ClusterConditionScalingDown))));;
    on_rs (modify (set_cl (set_status (ClearCondition ClusterConditionScalingUp))));;
    on_rs (modify (λ s, set_cl (set_status (set_Size (Z.of_nat (Member.Size (c_members (cl s)))))) s));;
    on_rs (set_status_now SetBalancedCondition).
End migration.
