(* ===== verification/MigrationSpec.v ===== *)
(** * The migration of an unmanaged cluster: how far a pass goes

    A pass replaces no more nodes than it may, never the last of the data nodes, and
    leaves the nodes that are to stay; each one it replaces leaves the cluster for a pod
    of its class. *)

From Stdlib Require Import Ascii.
From S2P Require Import Prelude Effects GoLib Regex Digests Version Api Member Persistence Status.
From S2P Require Import ServerGroups Scheduler NullScheduler UpgradeOrder RollingUpgrade NodeStatus Pods Volumes Machine.
From S2P Require Import Rebalance Baseline Claims Creation Recovery PendingInit Failover Scaling GroupSync Upgrading Round.
From S2P Require Import Migration Sim MachineSpec BaselineSpec CreationSpec PendingInitSpec FailoverSpec RoundSpec.
Local Open Scope Z_scope.

(** A call whose error was looked at, and was none. *)
Lemma attempt_ok {S A} (m : M S A) s a s' : attempt m s = (Ok (inl a), s') → m s = (Ok a, s').
Proof. unfold attempt. destruct (m s) as [[x|e|] t]; [|done..]. by intros [= <- <-]. Qed.

(** ** Sets of candidates *)
Lemma add_subseteq (ext cs : MemberSet) m : ext !! Name m = Some m → cs ⊆ ext → Add m cs ⊆ ext.
Proof. intros Hm Hs. by apply insert_subseteq_l. Qed.

Lemma size_Add_le (cs : MemberSet) m : (Member.Size (Add m cs) ≤ S (Member.Size cs))%nat.
Proof.
  unfold Member.Size, Add. destruct (cs !! Name m) eqn:E.
  - rewrite map_size_insert_Some by done. lia.
  - rewrite map_size_insert_None by done. lia.
Qed.

(** The values a loop over a part of the set visits. *)
Lemma range_known `{MapRange} pos (ext cs : MemberSet) m :
  keyed ext → cs ⊆ ext → m ∈ (range pos cs).*2 → ext !! Name m = Some m.
Proof.
  intros Hk Hs ([n m']&->&Hin)%list_elem_of_fmap. apply elem_of_range_entry in Hin. simpl.
  eapply lookup_weaken in Hin; [|done]. by rewrite (Hk _ _ Hin).
Qed.

Lemma range_distinct `{MapRange} pos (cs : MemberSet) : keyed cs → NoDup (Name <$> (range pos cs).*2).
Proof.
  intros Hk. rewrite range_perm. by apply (members_names_NoDup cs).
Qed.

Lemma at_most_spec (ext : MemberSet) n l : ∀ cs,
  (∀ m, m ∈ l → ext !! Name m = Some m) → cs ⊆ ext →
  at_most n l cs ⊆ ext ∧ Z.of_nat (Member.Size (at_most n l cs)) ≤ Z.max n (Z.of_nat (Member.Size cs)).
Proof.
  induction l as [|m l IH]; intros cs Hl Hcs; simpl; [by split; [|lia]|].
  case_bool_decide as Hn; [by split; [|lia]|].
  destruct (IH (Add m cs)) as [Hs Hz]; [intros x Hx; apply Hl; by right|apply add_subseteq; [apply Hl; by left|done]|].
  split; [done|]. pose proof (size_Add_le cs m). lia.
Qed.

Lemma at_most_nonempty n m l : 1 ≤ n → at_most n (m :: l) ∅ ≠ ∅.
Proof.
  intros Hn. simpl. rewrite bool_decide_false by (change (Member.Size ∅) with 0%nat; lia).
  assert (∀ l cs, cs ≠ ∅ → at_most n l cs ≠ ∅) as Hall.
  { clear. induction l as [|x l IH]; intros cs Hcs; simpl; [done|]. case_bool_decide; [done|].
    apply IH, insert_non_empty. }
  apply Hall, insert_non_empty.
Qed.

(** What [choose] adds, as a list of distinct members of those visited. *)
Lemma choose_spec (ext : MemberSet) (limited : Member → bool) spare maxNodes l : ∀ cs data,
  1 ≤ maxNodes → (∀ m, m ∈ l → ext !! Name m = Some m) → cs ⊆ ext → Z.of_nat (Member.Size cs) < maxNodes →
  (0 ≤ spare) → data ≤ spare →
  Z.of_nat (size (filter (λ e, limited e.2 = true) cs)) ≤ data →
  let cs' := choose limited spare maxNodes l cs data in
  cs' ⊆ ext ∧ Z.of_nat (Member.Size cs') ≤ maxNodes ∧
  Z.of_nat (size (filter (λ e, limited e.2 = true) cs')) ≤ spare.
Proof.
  cbn zeta. induction l as [|m l IH]; intros cs data Hmax Hl Hcs Hsize Hspare Hdata Hcount; simpl.
  { split_and!; [done|lia|lia]. }
  assert (ext !! Name m = Some m) as Hm by (apply Hl; by left).
  assert (∀ x, x ∈ l → ext !! Name x = Some x) as Hl' by (intros x Hx; apply Hl; by right).
  destruct (limited m && bool_decide (spare ≤ data)) eqn:Hskip; [by apply IH|].
  assert (Z.of_nat (size (filter (λ e : string * Member, limited e.2 = true) (Add m cs))) ≤
    (if limited m then data + 1 else data)) as Hc.
  { unfold Add. destruct (limited m) eqn:Em.
    - rewrite map_filter_insert_True by done.
      pose proof (size_Add_le (filter (λ e : string * Member, limited e.2 = true) cs) m) as Hle.
      unfold Member.Size, Add in Hle. lia.
    - rewrite map_filter_insert_False by (simpl; congruence). etrans; [|exact Hcount].
      apply inj_le, map_subseteq_size, map_filter_subseteq_mono, delete_subseteq. }
  pose proof (size_Add_le cs m) as Hle.
  assert ((if limited m then data + 1 else data) ≤ spare) as Hd.
  { destruct (limited m); [|done]. simpl in Hskip. apply bool_decide_eq_false in Hskip. lia. }
  destruct (bool_decide_reflect (maxNodes ≤ Z.of_nat (Member.Size (Add m cs)))) as [Hfull|Hfull].
  - split_and!; [by apply add_subseteq|lia|lia].
  - apply IH; try done; [by apply add_subseteq|lia].
Qed.

Lemma choose_nonempty limited spare maxNodes m l :
  (limited m = true → 0 < spare) → choose limited spare maxNodes (m :: l) ∅ 0 ≠ ∅.
Proof.
  intros Hspare. cbn [choose]. assert (limited m && bool_decide (spare ≤ 0) = false) as ->.
  { destruct (limited m); [|done]. simpl. apply bool_decide_eq_false. specialize (Hspare eq_refl). lia. }
  assert (∀ l cs data, cs ≠ ∅ → choose limited spare maxNodes l cs data ≠ ∅) as Hall.
  { clear. induction l as [|x l IH]; intros cs data Hcs; simpl; [done|].
    destruct (_ && _); [by apply IH|]. case_bool_decide; [apply insert_non_empty|]. apply IH, insert_non_empty. }
  destruct (bool_decide _); [apply insert_non_empty|]. apply Hall, insert_non_empty.
Qed.

(** ** Every strategy offers nodes that are there *)
Lemma first_group_subseteq (ext : MemberSet) groups order :
  (∀ g set, groups !! g = Some set → set ⊆ ext) → first_group groups order ⊆ ext.
Proof.
  intros Hg. unfold first_group. destruct (list_find _ order) as [[i g]|]; [|apply map_empty_subseteq].
  destruct (groups !! g) as [set|] eqn:E; simpl; [by eapply Hg|apply map_empty_subseteq].
Qed.

Lemma by_class_subseteq (ext : MemberSet) g set :
  keyed ext → GroupByServerConfigs ext !! g = Some set → set ⊆ ext.
Proof.
  intros Hk. destruct (GroupByServerConfigs_partition ext g Hk) as [Hf Hg]. rewrite Hg, Hf. clear Hg Hf.
  case_decide; [done|]. intros [= <-]. apply map_filter_subseteq.
Qed.

Lemma by_group_subseteq (ext : MemberSet) l : ∀ grouped,
  keyed ext → (∀ g set, grouped !! g = Some set → set ⊆ ext) →
  ∀ g set, fold_left (group_node ext) l grouped !! g = Some set → set ⊆ ext.
Proof.
  induction l as [|[g n] l IH]; intros grouped Hk Hgrouped; simpl; [done|]. apply IH; [done|].
  unfold group_node. cbn [fst snd]. destruct (ext !! _) as [m|] eqn:Hm; [|done].
  assert (ext !! Name m = Some m) as Hn by (by rewrite (Hk _ _ Hm)).
  destruct (grouped !! g) as [set|] eqn:Hset; intros g' set' [[_ <-]|[_ Hg']]%lookup_insert_Some; try by eapply Hgrouped.
  - apply add_subseteq; [done|]. by eapply Hgrouped.
  - apply add_subseteq; [done|apply map_empty_subseteq].
Qed.

Lemma by_host_subseteq (ext : MemberSet) visit n order : ∀ cs,
  keyed ext → (∀ i e, e ∈ visit i → ext !! e.1 = Some e.2) → cs ⊆ ext →
  (by_host visit n order cs).1 ⊆ ext ∧
  ((by_host visit n order cs).2 = true → n ≤ Z.of_nat (Member.Size (by_host visit n order cs).1)).
Proof.
  induction order as [|h order IH]; intros cs Hk Hv Hcs; simpl; [done|].
  set (cs1 := match list_find _ _ with Some (_, e) => Add e.2 cs | None => cs end).
  assert (cs1 ⊆ ext) as Hcs1.
  { unfold cs1. destruct (list_find _ _) as [[i e]|] eqn:E; [|done].
    apply list_find_Some in E as (He%list_elem_of_lookup_2%Hv&_&_).
    apply add_subseteq; [|done]. by rewrite (Hk _ _ He). }
  case_bool_decide; [done|]. by apply IH.
Qed.

Lemma by_node_name_subseteq (ext : MemberSet) n names : ∀ cs r,
  keyed ext → cs ⊆ ext → by_node_name ext n names cs = Ok r →
  r ⊆ ext ∧ (names ≠ [] ∨ cs ≠ ∅ → r ≠ ∅).
Proof.
  induction names as [|x names IH]; intros cs r Hk Hcs; simpl; [intros [= <-]; by split; [|intros [?|?]]|].
  destruct (ext !! x) as [m|] eqn:Hm; [|done]. apply Hk in Hm as Hn.
  set (cs1 := if Contains cs (Name m) then cs else Add m cs).
  assert (cs1 ⊆ ext ∧ cs1 ≠ ∅) as [Hcs1 Hne].
  { unfold cs1, Contains. case_bool_decide as Hc.
    - split; [done|]. intros ->. by destruct Hc.
    - split; [apply add_subseteq; [by rewrite Hn|done]|apply insert_non_empty]. }
  case_bool_decide; [by intros [= <-]|]. intros [Hr Hr']%IH; [|done..]. split; [done|]. intros _. apply Hr'. by right.
Qed.

(** The candidates are nodes the operator does not manage, no more than are to go. *)
Section migration.
Context `{UpgradePlatform W} `{!ClaimPlatform W} `{!NodeInit W} `{!RoundPlatform W} `{!GroupPlatform W}
  `{!MigrationPlatform W} `{PersistentStorage W}
  `{Environment} `{SpecJSON} `{TrackerJSON} `{MapRange} `{Scheduler Sc}.
Abbreviation R := (RS W).
Abbreviation FS := (RS W * Sc)%type.
Abbreviation MS := (RS W * Sc * MigrationSets)%type.
Context (migration : ClusterAssimilationSpec) (schedule : list nat) (tlsCache : option string).

(** A strategy under which any node may come first. *)
Definition free_order : Prop :=
  match MigrationOrderOverride migration with
  | None => True
  | Some override => MigrationOrderOverrideStrategy override ≠ ByServerGroup ∧
                     MigrationOrderOverrideStrategy override ≠ ByServerClass
  end.

Lemma by_node_subseteq pos order (ext cs : MemberSet) n :
  keyed ext → getMigrationCandidatesByNode migration pos order ext n = Ok cs →
  cs ⊆ ext ∧ (ext ≠ ∅ → 1 ≤ n → 1 ≤ MaxConcurrentMigrations migration → cs ≠ ∅).
Proof.
  intros Hk. unfold getMigrationCandidatesByNode.
  destruct (by_host_subseteq ext (λ i, range (i :: pos) ext) (Z.min n (MaxConcurrentMigrations migration)) order ∅ Hk)
    as [Hs Hn]; [|apply map_empty_subseteq|].
  { intros i [k m] Hin. by apply elem_of_range_entry in Hin. }
  destruct (by_host _ _ _ _) as [cs1 enough]. cbn [fst snd] in *. destruct enough.
  - intros [= <-]. split; [done|]. intros _ Hn1 Hm1 ->. specialize (Hn eq_refl).
    change (Member.Size ∅) with 0%nat in Hn. lia.
  - intros [Hr Hne]%by_node_name_subseteq; [|done..]. split; [done|]. intros He _ _. apply Hne. left.
    unfold Names. intros Hnil. apply He.
    assert (length (sort_Strings (Name <$> members ext)) = 0%nat) as Hl by (by rewrite Hnil).
    rewrite sort_Strings_perm in Hl. unfold members in Hl. rewrite !length_fmap in Hl.
    apply map_size_empty_iff. by rewrite <- length_map_to_list.
Qed.

Lemma ordered_candidates_subseteq pos (ext cs : MemberSet) n (s s' : R) :
  keyed ext → ordered_candidates migration pos ext n s = (Ok cs, s') →
  cs ⊆ ext ∧ (free_order → ext ≠ ∅ → 1 ≤ n → 1 ≤ MaxConcurrentMigrations migration → cs ≠ ∅).
Proof.
  intros Hk Hrun. unfold ordered_candidates in Hrun. inv_ok Hrun. unfold free_order.
  destruct (MigrationOrderOverride migration) as [o|]; [|injection Hrun as <- _; by split].
  destruct (bool_decide_reflect (MigrationOrderOverrideStrategy o = ByServerGroup)) as [Hg|Hg];
    [destruct (ServerGroupsEnabled _)|].
  - unfold getMigrationCandidatesByServerGroup in Hrun. inv_ok Hrun. inv_ok Hrun. injection Hrun as <- _. split; [|by intros []].
    apply first_group_subseteq. intros g set. apply by_group_subseteq; [done|]. intros g' set'. by rewrite lookup_empty.
  - injection Hrun as <- _. by split; [|intros []].
  - destruct (bool_decide_reflect (MigrationOrderOverrideStrategy o = ByServerClass)) as [Hc|Hc];
      [|destruct (bool_decide _)].
    + injection Hrun as <- _. split; [|by intros []]. apply first_group_subseteq. intros g set. by apply by_class_subseteq.
    + unfold lift in Hrun. injection Hrun as Hrun _. by apply by_node_subseteq in Hrun as [Hs Hne]; [split; [|intros _]|].
    + injection Hrun as <- _. by split.
Qed.

Lemma wrap64_le z : 0 ≤ z → wrap64 z ≤ z.
Proof. intros Hz. unfold wrap64. pose proof (Z.mod_le (z + 2 ^ 63) (2 ^ 64) ltac:(lia) ltac:(lia)). lia. Qed.

Lemma candidates_spec pos (ext cs : MemberSet) (s s' : R) :
  keyed ext → getMigrationCandidates migration pos ext s = (Ok cs, s') →
  cs ⊆ ext ∧ (cs ≠ ∅ → NumUnmanagedNodes migration + Z.of_nat (Member.Size cs) ≤ Z.of_nat (Member.Size ext)) ∧
  (free_order → 1 ≤ MaxConcurrentMigrations migration → 0 ≤ NumUnmanagedNodes migration →
   NumUnmanagedNodes migration < Z.of_nat (Member.Size ext) ≤ MaxInt → cs ≠ ∅).
Proof.
  intros Hk Hrun. unfold getMigrationCandidates in Hrun.
  destruct (Empty ext || _) eqn:Eout.
  { injection Hrun as <- _. split_and!; [apply map_empty_subseteq|done|].
    intros _ _ Hnum Hlt. exfalso. apply orb_true_iff in Eout as [He|He%bool_decide_eq_true]; [|lia].
    apply bool_decide_eq_true in He. unfold Member.Size in Hlt. lia. }
  apply orb_false_iff in Eout as [Hne Hlt%bool_decide_eq_false]. apply bool_decide_eq_false in Hne.
  inv_ok Hrun. injection Hrun as <- _. apply ordered_candidates_subseteq in Hrun0 as [Hs Hfree]; [|done].
  set (n := wrap64 _) in *. set (l := (range _ _).*2).
  assert (n ≤ Z.of_nat (Member.Size ext) - NumUnmanagedNodes migration) as Hn by (apply wrap64_le; lia).
  destruct (at_most_spec ext n l ∅) as [Hsub Hsize]; [|apply map_empty_subseteq|].
  { intros m. unfold l. by apply range_known. }
  split_and!; [done| |].
  - intros Hcs. change (Member.Size ∅) with 0%nat in Hsize.
    assert (Member.Size (at_most n l ∅) ≠ 0%nat) as Hz.
    { unfold Member.Size. by rewrite map_size_empty_iff. }
    lia.
  - intros Ho Hmax Hnum Hext. assert (1 ≤ n) as Hn1.
    { unfold n. rewrite wrap64_id; [lia|]. unfold MinInt, MaxInt in *. lia. }
    destruct l as [|m l'] eqn:El; [|by apply at_most_nonempty].
    exfalso. apply (Hfree Ho); [|done..|].
    + intros ->. by rewrite map_size_empty in Hne.
    + apply map_size_empty_iff. rewrite <- length_map_to_list, <- (range_perm (1%nat :: pos)).
      apply (f_equal length) in El. unfold l in El. by rewrite length_fmap in El.
Qed.

(** ** What adding members leaves alone: the machine *)
Definition same_machine (s s' : R) : Prop := fsm s' = fsm s.
#[local] Instance same_machine_preorder : PreOrder same_machine.
Proof. split; [by intros s|]. intros s1 s2 s3. unfold same_machine. congruence. Qed.

Definition same_machine_fs (f f' : FS) : Prop := fsm f'.1 = fsm f.1.
#[local] Instance same_machine_fs_preorder : PreOrder same_machine_fs.
Proof. split; [by intros s|]. intros s1 s2 s3. unfold same_machine_fs. congruence. Qed.

Lemma world_machine {A} (m : M W A) : keeps same_machine (on_world m).
Proof. by apply keeps_zoom. Qed.
#[local] Hint Resolve world_machine : keeps.
#[local] Hint Extern 1 (keeps same_machine (modify _)) => apply keeps_modify; done : keeps.

Lemma status_machine f : keeps same_machine (set_status_now (W := W) f).
Proof. by intros s. Qed.
#[local] Hint Resolve status_machine : keeps.

Lemma rs_machine {A} (m : M R A) : keeps same_machine m → keeps same_machine_fs (with_rs (Sc := Sc) m).
Proof. intros Hm [s sc]. specialize (Hm s). unfold with_rs, zoom. simpl. by destruct (m s). Qed.

Lemma on_rs_machine {A} (m : M R A) : keeps same_machine m → keeps same_machine_fs (on_rs (Sc := Sc) m).
Proof. apply rs_machine. Qed.

Lemma scheduler_machine {A} (m : M Sc A) : keeps same_machine_fs (with_scheduler m).
Proof. intros [s sc]. unfold with_scheduler, zoom. simpl. by destruct (m sc). Qed.

#[local] Hint Resolve rs_machine on_rs_machine scheduler_machine : keeps.
#[local] Hint Extern 1 (keeps same_machine (gets _)) => apply keeps_gets, _ : keeps.

Lemma new_members_config (c : Cluster) specs : ∀ indexes ms,
  new_members c indexes specs = Ok ms → Config <$> ms = (λ spec, class_label (sc_Name spec)) <$> specs.
Proof.
  induction specs as [|spec specs IH]; intros [|index indexes] ms; cbn [new_members]; try by intros [= <-].
  destruct (newMember _ _ _ _) as [m| |] eqn:Em; [|done..]. cbn [mbind result_bind].
  destruct (new_members c indexes specs) as [ms'| |] eqn:Ems; [|done..]. cbn [mbind result_bind]. intros [= <-].
  apply newMember_spec in Em as (_&Hc&_). apply IH in Ems. by rewrite !fmap_cons, Hc, Ems.
Qed.

Lemma createMembers_machine pos sch specs : keeps same_machine_fs (createMembers pos sch specs).
Proof. by apply (createMembers_keeps same_machine_fs). Qed.

Lemma createMembers_config pos sch specs (s s' : FS) results :
  createMembers pos sch specs s = (Ok results, s') →
  Config <$> results.*1 = (λ spec, class_label (sc_Name spec)) <$> specs.
Proof.
  unfold createMembers. intros Hrun. inv_ok Hrun. inv_ok Hrun. inv_ok Hrun. inv_ok Hrun.
  unfold lift in Hrun2. injection Hrun2 as Ems <-. apply new_members_config in Ems as Hc.
  pose proof (new_members_length _ _ _ _ Ems) as Hlen.
  destruct (_ ≫= drain _) as [[[t err] gs]|] eqn:Eg; [|discriminate Hrun3]. injection Hrun3 as <- <-.
  apply (batch_keeps same_machine_fs) in Eg as [_ Hgs]; [|done|done].
  assert (Config <$> ((λ g : Goroutine, (g_member g, g_Err g)) <$> gs).*1 = (λ spec, class_label (sc_Name spec)) <$> specs) as Hr.
  { rewrite <- Hc, <- Hgs. by rewrite <- !list_fmap_compose. }
  destruct (existsb _ _); [by injection Hrun as <- _|]. destruct a as [|first rest]; [discriminate Hrun|].
  inv_ok Hrun. by injection Hrun as <- _.
Qed.

(** ** A pod that joins keeps its class *)
#[local] Hint Extern 1 (keeps same_machine (perform _ _)) =>
  apply keeps_bind; [apply _|apply keeps_modify; done|intros []; apply world_machine] : keeps.

Lemma updateCRStatus_machine : keeps same_machine (updateCRStatus (W := W)).
Proof. unfold updateCRStatus. keeps_tac. Qed.
#[local] Hint Resolve updateCRStatus_machine : keeps.

Lemma GetStatus_machine pos : keeps same_machine (GetStatus (W := W) pos).
Proof. unfold GetStatus, getStatusFromTarget. keeps_tac. Qed.
#[local] Hint Resolve GetStatus_machine : keeps.

Lemma clusterCreateMember_machine pos m : keeps same_machine (clusterCreateMember (W := W) pos m).
Proof. unfold clusterCreateMember, updateMemberStatus, updateMemberStatusWithClusterInfo. keeps_tac. Qed.

Lemma updateVersionBaseline_machine pos v : keeps same_machine (updateVersionBaseline (W := W) pos v).
Proof. unfold updateVersionBaseline, setClusterVersion. keeps_tac. Qed.

Lemma cleaned_machine {A} b name (x : M R A) : keeps same_machine x → keeps same_machine (cleaned b name x).
Proof. intros Hx. unfold cleaned, removePod. keeps_tac. Qed.

Lemma name_by_host_machine m : keeps same_machine (name_by_host m).
Proof. unfold name_by_host. keeps_tac. Qed.
#[local] Hint Resolve clusterCreateMember_machine updateVersionBaseline_machine cleaned_machine name_by_host_machine : keeps.

(** ** A pod that joins keeps its class *)
Lemma initMember_machine pos m spec b : keeps same_machine (initMember tlsCache pos m spec b).
Proof. unfold initMember, update_new_version. keeps_tac; try (apply cleaned_machine; keeps_tac). Qed.
#[local] Hint Resolve initMember_machine : keeps.

Lemma initMember_config pos m spec b (s s' : R) m' :
  initMember tlsCache pos m spec b s = (Ok m', s') → Config m' = Config m.
Proof.
  unfold initMember. intros Hrun. inv_ok Hrun. inv_ok Hrun. inv_ok Hrun. inv_ok Hrun. inv_ok Hrun.
  destruct (UpdateImageDigestMap _ _ _) as [[v updated] table]. inv_ok Hrun. inv_ok Hrun. inv_ok Hrun. inv_ok Hrun.
  inv_ok Hrun. inv_ok Hrun. destruct (getServiceDataPaths _) as [[data index] analytics].
  inv_ok Hrun. inv_ok Hrun. inv_ok Hrun. injection Hrun as <- <-.
  assert (Config a = Config m) as <-.
  { unfold name_by_host in Hrun0. inv_ok Hrun0. inv_ok Hrun0. destruct (Pods_Get _ _) as [pod|]; [|by injection Hrun0 as <- _].
    destruct (hostNetwork _); [|by injection Hrun0 as <- _]. inv_ok Hrun0. inv_ok Hrun0. inv_ok Hrun0.
    injection Hrun0 as <- _. by destruct m as [[]|]. }
  clear Hrun0. match goal with H : update_new_version a _ _ = _ |- _ => rename H into Hu end.
  unfold update_new_version in Hu. destruct (negb _); [by injection Hu as <- _|].
  destruct (bool_decide _); [by injection Hu as <- _|]. inv_ok Hu. injection Hu as <- _. by destruct a as [[]|].
Qed.

Lemma addMigrationMember_machine pos x spec target : keeps same_machine (addMigrationMember tlsCache pos x spec target).
Proof.
  destruct x as [m o]. unfold addMigrationMember. destruct (services_parsed _) as [services err].
  unfold join_cluster, clusterAddMember. keeps_tac.
Qed.
#[local] Hint Resolve addMigrationMember_machine : keeps.

Lemma addMigrationMember_config pos x spec target (s s' : R) y :
  addMigrationMember tlsCache pos x spec target s = (Ok y, s') → Config y.1 = Config x.1.
Proof.
  destruct x as [m o]. unfold addMigrationMember. intros Hrun. inv_ok Hrun.
  destruct (services_parsed _) as [services err]. inv_ok Hrun. destruct a0 as [[]|e].
  - unfold join_cluster in Hrun. inv_ok Hrun. destruct a0 as [[]|e]; [|by injection Hrun as <- _].
    inv_ok Hrun. destruct a0 as [m'|e]; [|by injection Hrun as <- _].
    assert (Config m' = Config m) as Hm'.
    { apply attempt_ok in Hrun3. by eapply initMember_config. }
    inv_ok Hrun. destruct a0 as [[]|e]; [|by injection Hrun as <- _].
    do 5 inv_ok Hrun. by injection Hrun as <- _.
  - destruct (bool_decide (e = ErrResourceAttributeRequired)); [by injection Hrun as <- _|discriminate Hrun].
Qed.

Lemma addMigrationMembers_machine pos target results : ∀ specs,
  keeps same_machine (addMigrationMembers tlsCache pos target specs results).
Proof.
  induction results as [|x results IH]; intros [|spec specs]; cbn [addMigrationMembers]; keeps_tac.
Qed.
#[local] Hint Resolve addMigrationMembers_machine : keeps.

Lemma addMigrationMembers_config pos target results : ∀ specs (s s' : R) results',
  addMigrationMembers tlsCache pos target specs results s = (Ok results', s') →
  Config <$> results'.*1 = Config <$> results.*1.
Proof.
  induction results as [|x results IH]; intros [|spec specs] s s' results'; cbn [addMigrationMembers];
    [by intros [= <- _]..|done|]. intros Hrun. inv_ok Hrun. inv_ok Hrun. injection Hrun as <- _.
  apply IH in Hrun1. rewrite !fmap_cons, Hrun1. f_equal.
  destruct x.2; [by injection Hrun0 as <- _|]. by eapply addMigrationMember_config.
Qed.

Lemma addMembersToTarget_machine pos target specs :
  keeps same_machine_fs (addMembersToTarget (Sc := Sc) schedule tlsCache pos target specs).
Proof.
  unfold addMembersToTarget, Creation.addMembers. apply keeps_bind; [apply _|apply createMembers_machine|].
  intros results. keeps_tac.
Qed.

Lemma addMembersToTarget_config pos target specs (s s' : FS) results :
  addMembersToTarget (Sc := Sc) schedule tlsCache pos target specs s = (Ok results, s') →
  Config <$> results.*1 = (λ spec, class_label (sc_Name spec)) <$> specs.
Proof.
  unfold addMembersToTarget, Creation.addMembers. intros Hrun. inv_ok Hrun. inv_ok Hrun.
  apply createMembers_config in Hrun0. rewrite <- Hrun0. destruct (negb _); [by injection Hrun as <- _|].
  unfold on_rs, zoom in Hrun. destruct (addMigrationMembers _ _ _ _ _ _) as [r t] eqn:E. injection Hrun as -> _.
  by eapply addMigrationMembers_config.
Qed.

(** ** A node is replaced *)

(** By a pod of its class: the pod joins, the node is ejected. *)
Definition replace_node (r : ReconcileMachine) (p : Member * Member) : ReconcileMachine :=
  removeMemberUser_fsm p.2 (addMember_fsm p.1 r).

Definition without (gone : list Member) (ms : MemberSet) : MemberSet :=
  foldl (λ rest m, Remove (Name m) rest) ms gone.

Lemma migrateNode_spec pos m (s s' : MS) r :
  migrateNode schedule tlsCache pos m s = (r, s') →
  (r ≠ Ok tt ∧ fsm s'.1.1 = fsm s.1.1 ∧ s'.2 = s.2) ∨
  (r = Ok tt ∧ ∃ new, Config new = Config m ∧ fsm s'.1.1 = replace_node (fsm s.1.1) (new, m) ∧
     s'.2 = mkSets (Remove (Name m) (externalMembers s.2)) (migratedMembers s.2)).
Proof.
  unfold migrateNode. assert (in_rs (Sc := Sc) (gets cl) s = (Ok (cl s.1.1), s)) as Hcl by (by destruct s as [[rs sc] st]).
  run Hcl. clear Hcl. destruct (GetServerConfigByName _ _) as [class|] eqn:Eclass; [|intros [= <- <-]; by left].
  assert (sc_Name class = Config m) as Hclass.
  { unfold GetServerConfigByName in Eclass. destruct (list_find _ _) as [[i x]|] eqn:E; [|done].
    injection Eclass as ->. by apply list_find_Some in E as (_&E&_). }
  unfold mbind at 1, M_bind at 1. unfold on_fs at 1, zoom.
  pose proof (addMembersToTarget_machine pos (getMigratingReadyTarget (cl s.1.1)) [class] s.1) as Hm.
  destruct (addMembersToTarget _ _ _ _ _ s.1) as [[results|e|] f] eqn:E; [|intros [= <- <-]; by left..].
  apply addMembersToTarget_config in E. cbn [snd] in Hm. unfold same_machine_fs in Hm.
  destruct results as [|[new o] [|? ?]]; try discriminate E. injection E as Hnew. rewrite Hclass in Hnew.
  assert (Config new = Config m) as Hn.
  { cbn in Hnew. rewrite Hnew. unfold class_label, Config. destruct m as [m|m]; by repeat case_bool_decide. }
  destruct o as [e|].
  - intros [= <- <-]. by left.
  - intros [= <- <-]. right. split; [done|]. exists new. split; [done|]. simpl. by rewrite Hm.
Qed.

Lemma migrate_loop pos (l : list (nat * Member)) : ∀ (s s' : MS) r,
  for_each (migrate_one schedule tlsCache pos) l s = (r, s') →
  ∃ pairs : list (Member * Member),
    pairs.*2 `prefix_of` l.*2 ∧ (r = Ok tt → pairs.*2 = l.*2) ∧ Forall (λ p, Config p.1 = Config p.2) pairs ∧
    fsm s'.1.1 = foldl replace_node (fsm s.1.1) pairs ∧ externalMembers s'.2 = without pairs.*2 (externalMembers s.2).
Proof.
  induction l as [|e l IH]; intros s s' r; simpl.
  { intros [= <- <-]. by exists []. }
  unfold mbind at 1, M_bind at 1. unfold migrate_one at 1. unfold mbind at 1, M_bind at 1.
  destruct (migrateNode _ _ _ _ s) as [r1 s1] eqn:E. apply migrateNode_spec in E as [(Hr&Hf&Hs)|(->&new&Hn&Hf&Hs)].
  - assert (r = r1 ∧ s' = s1 → ∃ pairs : list (Member * Member), pairs.*2 `prefix_of` e.2 :: l.*2 ∧
      (r = Ok tt → pairs.*2 = e.2 :: l.*2) ∧ Forall (λ p, Config p.1 = Config p.2) pairs ∧
      fsm s'.1.1 = foldl replace_node (fsm s.1.1) pairs ∧ externalMembers s'.2 = without pairs.*2 (externalMembers s.2)) as Hnone.
    { intros [-> ->]. exists []. split_and!; [apply prefix_nil|done|constructor|done|by rewrite Hs]. }
    destruct r1 as [[]|e1|]; [done|..]; intros [= <- <-]; by apply Hnone.
  - intros Hrun. apply IH in Hrun as (pairs&Hp&Hok&Hall&Hfsm&Hext). exists ((new, e.2) :: pairs).
    cbn [fmap list_fmap fst snd]. split_and!.
    + by apply prefix_cons.
    + intros Hr. by rewrite Hok.
    + by constructor.
    + rewrite Hfsm. simpl. by rewrite <- Hf.
    + rewrite Hext. simpl. by rewrite Hs.
Qed.

Definition data_nodes (servers : list ServerConfig) (ms : list Member) : list Member :=
  filter (λ m, isDataNode servers m = true) ms.

Lemma names_size (l : list Member) (ms : MemberSet) :
  NoDup (Name <$> l) → (∀ m, m ∈ l → ms !! Name m = Some m) → (length l ≤ size ms)%nat.
Proof.
  intros Hnd Hl. rewrite <- (length_fmap Name l), <- (size_list_to_set (C := gset string)) by done.
  rewrite <- size_dom. apply subseteq_size. intros n. rewrite elem_of_list_to_set, elem_of_dom.
  intros (m&->&Hm)%list_elem_of_fmap. exists m. by apply Hl.
Qed.

Lemma imap_seconds {A} (l : list A) : (imap pair l).*2 = l.
Proof.
  assert (∀ k, (imap (λ i, pair (k + i)%nat) l).*2 = l) as Hall; [|exact (Hall 0%nat)].
  induction l as [|x l IH]; intros k; [done|]. rewrite imap_cons. cbn. f_equal.
  rewrite <- (IH (S k)) at 2. f_equal. apply imap_ext. intros i y _. simpl. f_equal. lia.
Qed.

Lemma choose_unlimited limited spare spare' maxNodes l : ∀ cs data,
  (∀ m, limited m = false) → choose limited spare maxNodes l cs data = choose limited spare' maxNodes l cs data.
Proof.
  intros cs data Hl. revert cs data. induction l as [|m l IH]; intros cs data; simpl; [done|]. rewrite Hl. simpl.
  destruct (bool_decide _); [done|]. apply IH.
Qed.

Lemma visits_all pos (cs : MemberSet) : (range pos cs).*2 = [] → cs ≠ ∅ → False.
Proof.
  intros Hl Hne. apply Hne, map_size_empty_iff. rewrite <- length_map_to_list, <- (range_perm pos).
  apply (f_equal length) in Hl. by rewrite length_fmap in Hl.
Qed.

Lemma migration_choice_spec pos c (cs : MemberSet) :
  let servers := cs_Servers (Spec c) in
  keyed cs → let ch := migration_choice migration pos c cs in
  ch ⊆ cs ∧ Z.of_nat (Member.Size ch) ≤ Z.max 1 (MaxConcurrentMigrations migration) ∧
  (1 < GetNumberOfDataServiceNodes c →
   Z.of_nat (size (filter (λ e, isDataNode servers e.2 = true) ch)) < GetNumberOfDataServiceNodes c) ∧
  (cs ≠ ∅ → ch ≠ ∅).
Proof.
  cbn zeta. set (servers := cs_Servers _). intros Hk. unfold migration_choice. fold servers. set (maxNodes := if bool_decide _ then 1 else _). set (num := GetNumberOfDataServiceNodes c).
  set (l := (range pos cs).*2).
  assert (1 ≤ maxNodes ∧ maxNodes ≤ Z.max 1 (MaxConcurrentMigrations migration)) as [Hm1 Hm2].
  { unfold maxNodes. case_bool_decide; lia. }
  assert (∀ m, m ∈ l → cs !! Name m = Some m) as Hl by (intros m; unfold l; by apply range_known).
  set (check := bool_decide (1 < num) && bool_decide (num ≤ maxNodes)).
  set (limited := λ m, check && isDataNode servers m).
  assert (check = true → 1 < num) as Hcheck.
  { unfold check. intros [Hc _]%andb_true_iff. by apply bool_decide_eq_true in Hc. }
  assert (∀ m, limited m = true → check = true ∧ isDataNode servers m = true) as Hlim.
  { intros m. unfold limited. by intros [? ?]%andb_true_iff. }
  destruct check eqn:Echeck.
  - specialize (Hcheck eq_refl).
    destruct (choose_spec cs limited (num - 1) maxNodes l ∅ 0 Hm1 Hl) as (Hs&Hz&Hd);
      [apply map_empty_subseteq|change (Member.Size ∅) with 0%nat; lia|lia|lia|by rewrite map_filter_empty|].
    split_and!; [done|lia| |].
    + intros _. assert (limited = isDataNode servers) as <- by done. lia.
    + intros Hne. destruct l as [|m l'] eqn:El; [|apply choose_nonempty; lia].
      exfalso. by eapply (visits_all pos cs).
  - rewrite (choose_unlimited limited (num - 1) 0) by (intros m; destruct (limited m) eqn:E; [by destruct (Hlim m E)|done]).
    destruct (choose_spec cs limited 0 maxNodes l ∅ 0 Hm1 Hl) as (Hs&Hz&_);
      [apply map_empty_subseteq|change (Member.Size ∅) with 0%nat; lia|lia|lia|by rewrite map_filter_empty|].
    split_and!; [done|lia| |].
    + intros Hnum. unfold check in Echeck. apply andb_false_iff in Echeck as [E%bool_decide_eq_false|E%bool_decide_eq_false]; [lia|].
      pose proof (map_size_filter (λ e : string * Member, isDataNode servers e.2 = true) (choose limited 0 maxNodes l ∅ 0)) as Hf.
      unfold Member.Size in Hz. lia.
    + intros Hne. destruct l as [|m l'] eqn:El; [|apply choose_nonempty; intros E; by destruct (Hlim m E)].
      exfalso. by eapply (visits_all pos cs).
Qed.

Lemma candidates_pass pos (s t : MS) (r : result MemberSet) :
  keyed (externalMembers s.2) →
  in_rs (getMigrationCandidates migration pos (externalMembers s.2)) s = (r, t) →
  same_machine_fs s.1 t.1 ∧ t.2 = s.2 ∧
  match r with
  | Ok cs => cs ⊆ externalMembers s.2 ∧
      (cs ≠ ∅ → NumUnmanagedNodes migration + Z.of_nat (Member.Size cs) ≤ Z.of_nat (Member.Size (externalMembers s.2))) ∧
      (free_order → 1 ≤ MaxConcurrentMigrations migration → 0 ≤ NumUnmanagedNodes migration →
       NumUnmanagedNodes migration < Z.of_nat (Member.Size (externalMembers s.2)) ≤ MaxInt → cs ≠ ∅)
  | _ => True
  end.
Proof.
  intros Hk. assert (keeps same_machine (getMigrationCandidates migration pos (externalMembers s.2))) as Hkeeps.
  { unfold getMigrationCandidates, ordered_candidates, getMigrationCandidatesByServerGroup. keeps_tac. }
  destruct s as [[s sc] sets]. cbn [snd] in *. specialize (Hkeeps s).
  unfold in_rs, on_fs, on_rs, zoom. cbn [fst snd].
  destruct (getMigrationCandidates _ _ _ s) as [r' s1] eqn:E. intros [= -> <-]. split_and!; [done..|].
  destruct r as [cs|e|]; [|done..]. by eapply candidates_spec.
Qed.

(** What a pass did: the new members with the nodes they replace. *)
Record migrates (s s' : MS) (r : result ()) (pairs : list (Member * Member)) : Prop := {
  mg_machine : fsm s'.1.1 = foldl replace_node (fsm s.1.1) pairs;
  mg_external : externalMembers s'.2 = without pairs.*2 (externalMembers s.2);
  mg_distinct : NoDup (Name <$> pairs.*2);
  mg_there m : m ∈ pairs.*2 → externalMembers s.2 !! Name m = Some m;
  mg_class : Forall (λ p, Config p.1 = Config p.2) pairs;
  mg_few : Z.of_nat (length pairs) ≤ Z.max 1 (MaxConcurrentMigrations migration);
  mg_allowed : pairs ≠ [] →
    needsRebalance (fsm s.1.1) = false ∧ IsReadyToAttemptMigration (c_cluster (cl s.1.1)) = true ∧
    NumUnmanagedNodes migration + Z.of_nat (length pairs) ≤ Z.of_nat (Member.Size (externalMembers s.2));
  mg_data : let c := c_cluster (cl s.1.1) in
    1 < GetNumberOfDataServiceNodes c →
    Z.of_nat (length (data_nodes (cs_Servers (Spec c)) pairs.*2)) < GetNumberOfDataServiceNodes c;
  mg_progress : r = Ok tt → needsRebalance (fsm s.1.1) = false →
    IsReadyToAttemptMigration (c_cluster (cl s.1.1)) = true → free_order → 1 ≤ MaxConcurrentMigrations migration →
    0 ≤ NumUnmanagedNodes migration < Z.of_nat (Member.Size (externalMembers s.2)) →
    Z.of_nat (Member.Size (externalMembers s.2)) ≤ MaxInt → pairs ≠ [];
}.

(** C13: one pass of [handleMigrateNodes], whatever comes of it.  It does nothing while a
    rebalance is due or the period between migrations runs.  The nodes it replaces are
    nodes the operator does not manage, each by a pod of its class, and the machine ejects
    them; there are no more of them than may be migrated at once (one, if that number is
    less), fewer data nodes than the specification has when it has more than one, and as
    many as are to stay unmanaged stay.  A pass that succeeds makes progress as long as
    there are more, if no order by server group or server class is configured and at least
    one may be migrated at once; [repeated_class_never_migrates] shows that such an order
    can keep a node from ever being a candidate. *)
Theorem handleMigrateNodes_bounded pos (s s' : MS) r
    (Hkeyed : keyed (externalMembers s.2))
    (Hrun : handleMigrateNodes migration schedule tlsCache pos s = (r, s')) :
  ∃ pairs, migrates s s' r pairs.
Proof.
  set (servers := cs_Servers (Spec (c_cluster (cl s.1.1)))). set (ext := externalMembers s.2) in *.
  assert (∀ t : MS, same_machine_fs s.1 t.1 → t.2 = s.2 → (r, s') = (r, t) →
    (r = Ok tt → needsRebalance (fsm s.1.1) = true ∨ IsReadyToAttemptMigration (c_cluster (cl s.1.1)) = false) →
    ∃ pairs, migrates s s' r pairs) as Hidle.
  { intros t Ht Hsets [= ->] Hr. exists []. split; try done; [by rewrite Hsets|constructor|by intros m Hm%not_elem_of_nil|simpl; lia|simpl; lia|].
    intros Hok Hneeds Hready. destruct (Hr Hok); congruence. }
  unfold handleMigrateNodes in Hrun. rewrite (run_bind _ _ s s s) in Hrun by done.
  destruct (needsRebalance (fsm s.1.1)) eqn:Eneeds.
  { injection Hrun as <- <-. apply (Hidle s); [done..|]. by left. }
  destruct (IsReadyToAttemptMigration _) eqn:Eready; cbn [negb] in Hrun.
  2: { injection Hrun as <- <-. apply (Hidle s); [done..|]. by right. }
  unfold mbind at 1, M_bind at 1 in Hrun.
  destruct (in_rs _ s) as [[cs|e|] t] eqn:Ecs; destruct (candidates_pass _ _ _ _ Hkeyed Ecs) as (Ht&Hsets&Hcs).
  2,3: injection Hrun as <- <-; by apply (Hidle t).
  destruct Hcs as (Hsub&Hstay&Hfree). fold ext in Hsub, Hstay, Hfree.
  assert (keyed cs) as Hkcs by (by eapply keyed_subseteq).
  destruct (migration_choice_spec (1%nat :: pos) (c_cluster (cl s.1.1)) cs Hkcs) as (Hch&Hmax&Hdata&Hne).
  set (ch := migration_choice _ _ _ _) in *. assert (keyed ch) as Hkch by (by eapply keyed_subseteq).
  apply migrate_loop in Hrun as (pairs&Hp&Hok&Hall&Hfsm&Hext). rewrite imap_seconds in Hp, Hok.
  set (visit := (range _ ch).*2) in *.
  assert (NoDup (Name <$> pairs.*2)) as Hnd.
  { destruct Hp as [k Hk]. pose proof (range_distinct (3%nat :: pos) ch Hkch) as Hd. fold visit in Hd.
    rewrite Hk, fmap_app in Hd. by apply NoDup_app in Hd as [Hd _]. }
  assert (∀ m, m ∈ pairs.*2 → ch !! Name m = Some m) as Hin.
  { intros m Hm. apply (range_known (3%nat :: pos) ch ch); [done..|]. by eapply elem_of_prefix. }
  assert (length pairs ≤ Member.Size ch)%nat as Hlen.
  { rewrite <- (length_fmap snd pairs). by apply names_size. }
  assert (Member.Size ch ≤ Member.Size cs)%nat as Hle by (by apply map_subseteq_size).
  exists pairs. split; try done.
  - by rewrite Hfsm, Ht.
  - by rewrite Hext, Hsets.
  - intros m Hm. eapply lookup_weaken; [|exact Hsub]. eapply lookup_weaken; [by apply Hin|done].
  - lia.
  - intros Hpairs. split_and!; [done..|]. assert (cs ≠ ∅) as Hcsne.
    { intros ->. apply Hpairs. destruct pairs; [done|]. change (Member.Size ∅) with 0%nat in Hle. simpl in Hlen. lia. }
    specialize (Hstay Hcsne). fold ext. lia.
  - cbn zeta. intros Hnum. fold servers in Hdata |- *. specialize (Hdata Hnum).
    assert (length (data_nodes servers pairs.*2) ≤ size (filter (λ e : string * Member, isDataNode servers e.2 = true) ch))%nat; [|lia].
    apply names_size.
    + eapply sublist_NoDup; [exact Hnd|]. apply fmap_sublist, sublist_filter.
    + intros m [Hd Hm]%list_elem_of_filter. rewrite map_lookup_filter_Some. split; [by apply Hin|done].
  - intros -> _ _ Ho Hmax1 Hnum Hext1 ->. cbn [fmap list_fmap] in Hok. specialize (Hok eq_refl). fold ext in Hnum, Hext1.
    apply (visits_all (3%nat :: pos) ch); [done|]. apply Hne, Hfree; [done..|lia|lia].
Qed.
End migration.

(** ** On the simulated platform: three nodes nobody manages, two of them with data *)
#[local] Instance migration_claims : ClaimPlatform Sim := {|
  api_Events := api_Events; api_CreatePVC := api_CreatePVC; api_DeletePVC := api_DeletePVC;
  api_CreatePod := api_CreatePod; establish_CNG := establish_CNG;
  pod_spec m _ _ _ _ := Ok (
    let pod := sim_new_pod m in
    mkKPod (kp_Name pod) (kp_Namespace pod) (kp_Labels pod) (kp_Annotations pod) (kp_OwnerReferences pod)
      (kp_Containers pod) [(CouchbaseContainerName, true)] [] false 0 "node" None "Running");
  storage_spec := storage_spec; operator_version := operator_version |}.
#[local] Instance migration_json : SpecJSON := {| marshal_spec _ := ""; unmarshal_spec _ := Err ErrSyntax |}.
#[local] Instance migration_tracker : TrackerJSON := {| marshal_tracker _ := ""; unmarshal_tracker _ := Err ErrSyntax |}.
#[local] Instance migration_environment : Environment := λ _, None.
#[local] Instance migration_range : MapRange := canonical_range.
#[local] Instance migration_groups : GroupPlatform Sim := {|
  cb_ListServerGroups _ w := (Ok (mkServerGroups [] "/pools/default/serverGroups?rev=1"), w);
  cb_CreateServerGroup _ _ w := (Ok tt, w);
  cb_UpdateServerGroups _ _ _ w := (Ok tt, w) |}.
#[local] Instance migration_platform : MigrationPlatform Sim := {|
  cb_GetIndexStorageMode _ w := (Ok "plasma", w);
  ReconcilePodService _ w := (Ok tt, w) |}.

Definition migration_class (name service : string) (size : Z) : ServerConfig := {|
  sc_Size := size; sc_Name := name; sc_Services := [service]; sc_ServerGroups := []; sc_VolumeMounts := None;
  sc_Image := ""; sc_NodeSelector := None; sc_AutoscaleEnabled := false |}.

Definition migration_spec : ClusterSpec :=
  let s := sim_spec 2 in {|
  cs_Image := cs_Image s; cs_EnvImagePrecedence := false;
  cs_Servers := [migration_class "data" "data" 2; migration_class "query" "query" 1];
  cs_ServerGroups := []; cs_ServerGroupsLabelOverride := ""; cs_ShuffleServerGroups := false;
  cs_RecoveryPolicy := None; cs_UpgradeProcess := None; cs_UpgradeStrategy := None; cs_RollingUpgrade := None;
  cs_Upgrade := None; cs_EnableOnlineVolumeExpansion := false; cs_UnmanagedClusterHost := Some "a.example.com";
  cs_Paused := false; cs_Hibernate := false |}.

Definition unmanaged (host class : string) : Member := NewExternalMember host class false.
Definition unmanaged_nodes : MemberSet :=
  NewMemberSet [unmanaged "a.example.com" "data"; unmanaged "b.example.com" "data"; unmanaged "c.example.com" "query"].

Definition migration_start (waiting : ClusterStatus → ClusterStatus) : RS Sim * nullSchedulerImpl * MigrationSets :=
  (mkRS (set_clustered unmanaged_nodes (set_running unmanaged_nodes empty_machine))
     (set_status waiting (set_members ∅ ∅ (set_spec (λ _, migration_spec) (sim_cluster 2 []))))
     (sim_set_store {[PodIndex := "0"]}
        (mkSim [] (mkClusterInfo [] "none" true [] [] ∅) [] ∅ 0 [])) [],
   NullScheduler {["data" := ServerList []; "query" := ServerList []]} ∅, mkSets unmanaged_nodes ∅).

Definition all_at_once : ClusterAssimilationSpec := mkAssimilation 0 None 5 None.

Lemma handleMigrateNodes_bounded_witness :
  let s := migration_start id in let r := handleMigrateNodes all_at_once [] None [] s in
  r.1 = Ok tt ∧ elements (dom (externalMembers r.2.2)) = ["b"] ∧
  ∃ pairs, migrates all_at_once s r.2 r.1 pairs ∧ pairs ≠ [].
Proof.
  set (s := migration_start id). set (r := handleMigrateNodes all_at_once [] None [] s).
  assert (r.1 = Ok tt) as Hr by (vm_compute; reflexivity). split; [exact Hr|].
  split; [vm_compute; reflexivity|].
  destruct (handleMigrateNodes_bounded all_at_once [] None [] s r.2 r.1) as [pairs Hp].
  - apply add_all_keyed, keyed_empty.
  - apply surjective_pairing.
  - exists pairs. split; [exact Hp|]. apply (mg_progress _ _ _ _ _ Hp); [exact Hr|reflexivity|reflexivity|exact I|vm_compute; congruence|vm_compute; split; congruence|
      vm_compute; congruence].
Defined.

(** ** What the code does where it means something else *)

(** An order of as many names as there are classes is taken as it is: if it names one
    twice, the nodes of another are never migrated, and the cluster is called ready. *)
Lemma repeated_class_never_migrates :
  let m := mkAssimilation 0 None 5 (Some (mkMigrationOrder ByServerClass [] ["query"; "query"] [])) in
  let data := NewMemberSet [unmanaged "a.example.com" "data"; unmanaged "b.example.com" "data"] in
  let s := ((migration_start id).1, mkSets data ∅) in
  (handleMigrateNodes m [] None [] s).2.2 = s.2 ∧
  HasCondition (c_cluster (cl (handleMarkReady m [] s).2.1.1)) ClusterConditionAvailable = true.
Proof. split; vm_compute; reflexivity. Qed.

(** When the last node is taken over, the condition that says the operator waits is
    cleared, and then set again: the pointer to it points to another one by now. *)
Lemma waiting_condition_returns :
  let cond t status := {| cc_Type := t; cc_Status := status; cc_LastUpdateTime := ""; cc_LastTransitionTime := "";
                          cc_Reason := ""; cc_Message := "" |} in
  let conditions := set_Conditions [cond ClusterConditionMigrating ConditionTrue;
    cond ClusterConditionWaitingBetweenMigrations ConditionFalse; cond ClusterConditionAvailable ConditionTrue;
    cond ClusterConditionBalanced ConditionTrue] in
  let m := mkAssimilation 0 (Some (-1)) 5 None in
  let s := ((migration_start conditions).1, mkSets ∅ ∅) in
  cc_Status <$> GetCondition (Status (c_cluster (cl (handleMigrateCondition m s).2.1.1)))
    ClusterConditionWaitingBetweenMigrations = Some ConditionFalse.
Proof. vm_compute. reflexivity. Qed.
