(* ===== verification/AdmissionSpec.v ===== *)
(** * Which changes of a cluster are admitted: specification

    What the checks of [Admission] accept, in terms of the objects. *)

From Stdlib Require String.
From Stdlib Require Import Permutation.
From S2P Require Import Prelude Effects GoLib Digests Version UpgradePath Api Status Pods.
From S2P Require Import Machine Baseline Buckets Claims Admission.
Local Open Scope Z_scope.

(** ** Verdicts *)
Lemma bind_valid {A B} (m : V A) (k : A → V B) b : (m ≫= k) = Valid b ↔ ∃ a, m = Valid a ∧ k a = Valid b.
Proof. destruct m; cbn; naive_solver. Qed.

Lemma from_valid {A} (r : result A) a : from r = Valid a ↔ r = Ok a.
Proof. destruct r; cbn; naive_solver. Qed.

Lemma gather_nil checks : gather checks = Valid [] ↔ Forall (λ c, c = Valid tt) checks.
Proof.
  induction checks as [|c checks IH]; cbn; [by split; auto|].
  rewrite Forall_cons, <- IH. destruct c as [[]|e|]; [tauto| |].
  - rewrite bind_valid. naive_solver.
  - naive_solver.
Qed.

Lemma composite_valid errs : composite errs = Valid tt ↔ errs = [].
Proof. unfold composite. destruct errs; [done|]. rewrite bool_decide_eq_false_2 by done. done. Qed.

Lemma V_unit_eta (v : V ()) u : v = Valid u → v = Valid tt.
Proof. by destruct u. Qed.

Lemma checked_valid checks : checked checks = Valid tt ↔ Forall (λ c, c = Valid tt) checks.
Proof.
  unfold checked. rewrite bind_valid, <- gather_nil. setoid_rewrite composite_valid.
  split; [by intros (?&?&->)|eauto].
Qed.

Lemma collect_nil {A} (f : nat → A → V (list verror)) (l : list A) i :
  collect f i l = Valid [] ↔ ∀ j x, l !! j = Some x → f (i + j)%nat x = Valid [].
Proof.
  revert i. induction l as [|x l IH]; intros i; cbn; [by split|].
  split.
  - intros Hc. apply bind_valid in Hc as (errs&Hx&Hc). apply bind_valid in Hc as (rest&Hl&[= He]).
    apply app_nil in He as [-> ->]. rewrite IH in Hl.
    intros [|j] y; cbn; [intros [= <-]; by rewrite Nat.add_0_r|]. intros Hy.
    rewrite Nat.add_succ_r. by apply (Hl j).
  - intros Hall. apply bind_valid. exists []. split; [rewrite <- (Nat.add_0_r i); by apply (Hall 0%nat)|].
    apply bind_valid. exists []. split; [|done]. apply IH. intros j y Hy.
    replace (S i + j)%nat with (i + S j)%nat by lia. by apply Hall.
Qed.

Lemma concat_nil {A} (l : list (list A)) : concat l = [] ↔ Forall (λ x, x = []) l.
Proof.
  induction l as [|x l IH]; cbn; [by split|].
  rewrite Forall_cons, <- IH. split; [apply app_nil|by intros [-> ->]].
Qed.

(** Errors that are there also when composite ones are taken apart. *)
Definition solid {A} (c : V A) : Prop := ∀ e, c = Invalid e → flatten e ≠ [].

Lemma solid_valid {A} (a : A) : solid (Valid a).
Proof. by intros ?. Qed.
Lemma solid_from {A} (r : result A) : solid (from r).
Proof. destruct r; intros ?; cbn; intros [= <-]; done. Qed.
Lemma solid_bind {A B} (m : V A) (k : A → V B) : solid m → (∀ a, solid (k a)) → solid (m ≫= k).
Proof. intros Hm Hk. destruct m as [a|e|]; [apply Hk| |by intros ?]. intros e' [= <-]. by apply Hm. Qed.
Lemma solid_composite errs : solid (composite errs).
Proof. unfold composite. intros e. case_bool_decide; [done|]. intros [= <-]. by destruct errs. Qed.
Lemma solid_collect {A} (f : nat → A → V (list verror)) l i : (∀ i x, solid (f i x)) → solid (collect f i l).
Proof.
  intros Hf. revert i. induction l as [|x l IH]; intros i; cbn; [by intros ?|].
  apply solid_bind; [done|]. intros errs. apply solid_bind; [done|]. by intros rest ?.
Qed.

Lemma gather_solid checks :
  Forall solid checks →
  (∃ errs, gather checks = Valid errs ∧ concat (flatten <$> errs) = []) ↔ Forall (λ c, c = Valid tt) checks.
Proof.
  intros Hs. rewrite <- gather_nil. split; [|by intros ->; exists []].
  induction Hs as [|c checks Hc Hs IH]; cbn; [done|]. destruct c as [[]|e|]; [done| |naive_solver].
  intros (errs&Hg&Hnil). apply bind_valid in Hg as (rest&Hg&[= <-]). cbn in Hnil.
  apply app_nil in Hnil as [Hnil _]. by destruct (Hc e).
Qed.

(** ** Lists that are the same but for their order *)
Definition counts (m : gmap string Z) (l : list string) : Prop :=
  ∀ x, default 0 (m !! x) = Z.of_nat (count_occ String.string_dec l x).

Lemma fold_count_up l m x :
  default 0 (fold_left count_up l m !! x) = default 0 (m !! x) + Z.of_nat (count_occ String.string_dec l x).
Proof.
  revert m. induction l as [|y l IH]; intros m; cbn; [lia|]. rewrite IH. unfold count_up.
  destruct (String.string_dec y x) as [->|Hne]; [rewrite lookup_insert_eq|rewrite lookup_insert_ne by done]; cbn; lia.
Qed.

Lemma count_down_spec l m m' :
  count_down m l = Some m' →
  ∀ x, default 0 (m' !! x) = default 0 (m !! x) - Z.of_nat (count_occ String.string_dec l x).
Proof.
  revert m. induction l as [|y l IH]; intros m; cbn; [by intros [= ->]; intros; lia|].
  destruct (m !! y) as [n|] eqn:Hy; [|done]. case_bool_decide; [|done].
  intros Hd x. rewrite (IH _ Hd x).
  destruct (String.string_dec y x) as [->|Hne]; [rewrite lookup_insert_eq, Hy|rewrite lookup_insert_ne by done]; cbn; lia.
Qed.

Lemma count_down_total l m :
  (∀ x, Z.of_nat (count_occ String.string_dec l x) ≤ default 0 (m !! x)) → is_Some (count_down m l).
Proof.
  revert m. induction l as [|y l IH]; intros m Hall; cbn; [by eexists|].
  pose proof (Hall y) as Hy. cbn in Hy. destruct (String.string_dec y y) as [_|]; [|done].
  destruct (m !! y) as [n|] eqn:Hm; cbn in Hy; [|lia].
  rewrite bool_decide_eq_true_2 by lia. apply IH. intros x. specialize (Hall x). cbn in Hall.
  destruct (String.string_dec y x) as [->|Hne]; [rewrite lookup_insert_eq; rewrite Hm in Hall|rewrite lookup_insert_ne by done];
    cbn in *; lia.
Qed.

Lemma count_up_nonneg l m :
  (∀ x n, m !! x = Some n → 0 ≤ n) → ∀ x n, fold_left count_up l m !! x = Some n → 0 ≤ n.
Proof.
  revert m. induction l as [|y l IH]; intros m Hm; cbn; [done|]. apply IH. unfold count_up.
  intros x n. destruct (decide (y = x)) as [->|Hne].
  - rewrite lookup_insert_eq. intros [= <-]. destruct (m !! x) as [k|] eqn:Hk; cbn; [specialize (Hm _ _ Hk)|]; lia.
  - rewrite lookup_insert_ne by done. apply Hm.
Qed.

Lemma count_down_nonneg l m m' :
  count_down m l = Some m' → (∀ x n, m !! x = Some n → 0 ≤ n) → ∀ x n, m' !! x = Some n → 0 ≤ n.
Proof.
  revert m. induction l as [|y l IH]; intros m; cbn; [by intros [= ->]|].
  destruct (m !! y) as [k|] eqn:Hk; [|done]. case_bool_decide; [|done]. intros Hd Hm. apply (IH _ Hd).
  intros z q. destruct (decide (y = z)) as [->|Hne]; [rewrite lookup_insert_eq; intros [= <-]; lia|].
  rewrite lookup_insert_ne by done. apply Hm.
Qed.

Lemma StringArrayCompare_spec a1 a2 : StringArrayCompare a1 a2 = true ↔ a1 ≡ₚ a2.
Proof.
  rewrite (Permutation_count_occ String.string_dec). unfold StringArrayCompare.
  pose proof (fold_count_up a1 ∅) as Hup. setoid_rewrite lookup_empty in Hup. cbn in Hup.
  set (m := fold_left count_up a1 ∅) in *.
  destruct (count_down m a2) as [m'|] eqn:Hd.
  - pose proof (count_down_spec _ _ _ Hd) as Hm'. rewrite forallb_forall. split.
    + intros Hall x. specialize (Hm' x). rewrite Hup in Hm'.
      destruct (m' !! x) as [n|] eqn:Hx; cbn in Hm'.
      * specialize (Hall (x, n)). rewrite negb_true_iff, bool_decide_eq_false in Hall. cbn in Hall.
        assert (¬ n > 0); [|].
        { apply Hall. apply list_elem_of_In. by apply elem_of_map_to_list. }
        assert (0 ≤ n); [|lia].
        by eapply count_down_nonneg, Hx; [apply Hd|apply count_up_nonneg; intros ?? []%lookup_empty_Some].
      * lia.
    + intros Heq [x n] Hin. apply list_elem_of_In, elem_of_map_to_list in Hin.
      specialize (Hm' x). rewrite Hup, Hin, Heq in Hm'. cbn in *. rewrite negb_true_iff, bool_decide_eq_false. lia.
  - split; [done|]. intros Heq. destruct (count_down_total a2 m) as [? Hs]; [|congruence].
    intros x. rewrite Hup, Heq. lia.
Qed.

(** ** Versions *)
Section versions.
Context `{Environment} (learned : gmap string string).

Definition both_parse (c t : string) (P : Version → Version → Prop) : Prop :=
  ∃ cv tv, NewVersion learned c = Ok cv ∧ NewVersion learned t = Ok tv ∧ P cv tv.

Lemma checkUpgradePath_parses floors c t :
  checkUpgradePath learned floors c t = Ok tt → both_parse c t (λ _ _, True).
Proof.
  unfold checkUpgradePath, VersionEqual, both_parse.
  destruct (NewVersion learned c) as [cv| |]; [|done..].
  destruct (NewVersion learned t) as [tv| |]; [|done..]. eauto.
Qed.

Lemma CheckUpgradePath_iff c t : CheckUpgradePath learned c t = Ok tt ↔ both_parse c t (path_ok online_floor).
Proof.
  split.
  - intros Hok. destruct (checkUpgradePath_parses _ _ _ Hok) as (cv&tv&Hc&Ht&_). exists cv, tv.
    by rewrite <- (CheckUpgradePath_ok _ _ _ _ _ Hc Ht).
  - intros (cv&tv&Hc&Ht&Hp). by rewrite (CheckUpgradePath_ok _ _ _ _ _ Hc Ht).
Qed.

Definition hibernation_path (hasIndexNodes alsoOnline : bool) (cv tv : Version) : Prop :=
  path_ok offline_floor cv tv ∧ (hasIndexNodes = true → ¬ requires_swap cv tv) ∧
  (alsoOnline = true → path_ok online_floor cv tv).

Lemma CheckHibernationUpgradePath_iff c t hasIndexNodes alsoOnline :
  CheckHibernationUpgradePath learned c t hasIndexNodes alsoOnline = Ok tt ↔
  both_parse c t (hibernation_path hasIndexNodes alsoOnline).
Proof.
  unfold hibernation_path.
  assert (∀ cv tv, NewVersion learned c = Ok cv → NewVersion learned t = Ok tv →
    CheckHibernationUpgradePath learned c t hasIndexNodes alsoOnline = Ok tt ↔ hibernation_path hasIndexNodes alsoOnline cv tv) as Hd.
  { intros cv tv Hc Ht. unfold CheckHibernationUpgradePath, hibernation_path.
    destruct (CheckOfflineUpgradePath_cases _ _ _ _ _ Hc Ht) as [[? ->]|[? ->]]; cbn; [|naive_solver].
    destruct hasIndexNodes; [destruct (IndexUpgradeRequiresSwap_cases _ _ _ _ _ Hc Ht) as [[? ->]|[? ->]]|]; cbn;
      [naive_solver|..]; (destruct alsoOnline; [rewrite (CheckUpgradePath_ok _ _ _ _ _ Hc Ht)|]; naive_solver). }
  split.
  - intros Hok. assert (CheckOfflineUpgradePath learned c t = Ok tt) as Hoff.
    { revert Hok. unfold CheckHibernationUpgradePath. destruct (CheckOfflineUpgradePath _ _ _) as [[]| |]; done. }
    destruct (checkUpgradePath_parses _ _ _ Hoff) as (cv&tv&Hc&Ht&_). exists cv, tv. by rewrite <- (Hd _ _ Hc Ht).
  - intros (cv&tv&Hc&Ht&Hp). by apply (Hd _ _ Hc Ht).
Qed.

Lemma path_not_down floor cv tv : path_ok floor cv tv → ¬ key_lt tv cv.
Proof.
  intros [Heq|(Hlt&_)] Hd.
  - by destruct (key_eq_not_lt _ _ Heq).
  - by apply (key_lt_asym cv tv).
Qed.
End versions.

(** ** The fields that are kept *)
Section kept.
Context `{Environment} `{Validator} (learned : gmap string string).
Implicit Types current updated : Resource.

Abbreviation servers r := (cs_Servers (rs_Spec (r_Spec r))).
Abbreviation current_version r := (st_CurrentVersion (r_Status r)).

(** Neither an upgrade nor a migration goes on, and the image that is asked for is
    the one that runs (or nobody can tell). *)
Definition is_settled (c : Resource) : Prop :=
  has c ClusterConditionUpgrading = false ∧ has c ClusterConditionMigrating = false ∧
  ∃ w, CouchbaseImageVersion learned (spec_image c) = Ok w ∧
    (VersionKnown w = true → w = current_version c ∧ has c ClusterConditionMixedMode = false ∧
       has c ClusterConditionWaitingBetweenUpgrades = false).

(** The version an upgrade starts from. *)
Definition starts_from (c : Resource) (w : string) : Prop :=
  ∃ v, CouchbaseImageVersion learned (couchbase_image c) = Ok v ∧
    w = if negb (VersionKnown v) && bool_decide (current_version c ≠ "") then current_version c else v.

(** Offline: the cluster sleeps, is to sleep, or upgrades that way; online rules hold as
    well until it sleeps, and when some pods are to wake on the old version. *)
Definition goes_offline current updated : Prop :=
  has current ClusterConditionHibernating = true ∨ cs_Hibernate (rs_Spec (r_Spec updated)) = true ∨
  GetUpgradeProcess (r_object updated) = OfflineUpgrade.
#[export] Instance goes_offline_dec current updated : Decision (goes_offline current updated).
Proof. unfold goes_offline. apply _. Defined.

Definition also_online current updated : bool :=
  bool_decide (pod_count updated > 0) || negb (has current ClusterConditionHibernating).

Definition upgrade_path current updated : Version → Version → Prop :=
  if decide (goes_offline current updated)
  then hibernation_path (IsIndexerEnabled (r_object updated)) (also_online current updated)
  else path_ok online_floor.

Lemma checkClusterVersionUpgradePath_iff current updated :
  checkClusterVersionUpgradePath learned current updated = Valid tt ↔
  ∃ w t, starts_from current w ∧ CouchbaseImageVersion learned (couchbase_image updated) = Ok t ∧
    both_parse learned w t (upgrade_path current updated).
Proof.
  unfold checkClusterVersionUpgradePath, CouchbaseVersion, starts_from, upgrade_path.
  rewrite bind_valid. setoid_rewrite bind_valid. setoid_rewrite from_valid.
  set (offline := _ || _ || _).
  assert (offline = bool_decide (goes_offline current updated)) as ->.
  { apply Bool.eq_iff_eq_true. unfold offline, goes_offline.
    rewrite !orb_true_iff, !bool_decide_eq_true. tauto. }
  assert (∀ w t,
    (if bool_decide (goes_offline current updated)
     then CheckHibernationUpgradePath learned w t (IsIndexerEnabled (r_object updated))
       (match cs_Upgrade (rs_Spec (r_Spec updated)) with
        | Some u => bool_decide (us_PreviousVersionPodCount u > 0) | None => false end ||
        negb (has current ClusterConditionHibernating))
     else CheckUpgradePath learned w t) = Ok tt ↔
    both_parse learned w t (if decide (goes_offline current updated)
      then hibernation_path (IsIndexerEnabled (r_object updated)) (also_online current updated)
      else path_ok online_floor)) as Hchk.
  { intros w t. destruct (decide (goes_offline current updated)) as [Hoff|Hoff].
    - rewrite bool_decide_eq_true_2 by done. rewrite CheckHibernationUpgradePath_iff. unfold also_online, pod_count.
      destruct (cs_Upgrade _); done.
    - rewrite bool_decide_eq_false_2 by done. apply CheckUpgradePath_iff. }
  setoid_rewrite Hchk. naive_solver.
Qed.

Lemma isFullyUpgraded_valid c b :
  isFullyUpgraded learned c = Valid b ↔
  ∃ w, CouchbaseImageVersion learned (spec_image c) = Ok w ∧
    (b = true ↔ (VersionKnown w = true → w = current_version c ∧ has c ClusterConditionMixedMode = false ∧
       has c ClusterConditionWaitingBetweenUpgrades = false)).
Proof.
  unfold isFullyUpgraded, CouchbaseVersion. rewrite bind_valid. setoid_rewrite from_valid.
  assert (∀ w : string,
    (if negb (VersionKnown w) then true
     else if bool_decide (w ≠ current_version c) then false
     else if has c ClusterConditionMixedMode then false
     else negb (has c ClusterConditionWaitingBetweenUpgrades)) = true ↔
    (VersionKnown w = true → w = current_version c ∧ has c ClusterConditionMixedMode = false ∧
       has c ClusterConditionWaitingBetweenUpgrades = false)) as Hb.
  { intros w. destruct (VersionKnown w); cbn; [|naive_solver]. case_bool_decide; [naive_solver|].
    destruct (has c ClusterConditionMixedMode), (has c ClusterConditionWaitingBetweenUpgrades); naive_solver. }
  split.
  - intros (w&Hw&[= <-]). by exists w.
  - intros (w&Hw&Hiff). exists w. split; [done|]. f_equal. apply Bool.eq_iff_eq_true. by rewrite Hb.
Qed.

(** The image: unchanged; or to a version nobody knows; or, of a settled cluster, an
    upgrade; or, of one that is not, back to the version it has. *)
Inductive image_change current updated : Prop :=
  | image_same : spec_image current = spec_image updated → image_change current updated
  | image_unknown v : CouchbaseImageVersion learned (spec_image updated) = Ok v → VersionKnown v = false →
      image_change current updated
  | image_upgrade v w t : CouchbaseImageVersion learned (spec_image updated) = Ok v → VersionKnown v = true →
      is_settled current → starts_from current w → CouchbaseImageVersion learned (couchbase_image updated) = Ok t →
      both_parse learned w t (upgrade_path current updated) → image_change current updated
  | image_rollback v : CouchbaseImageVersion learned (spec_image updated) = Ok v → VersionKnown v = true →
      ¬ is_settled current → v = current_version current →
      is_ok (CouchbaseImageVersion learned (spec_image current)) = true → image_change current updated.

Lemma settled_iff c b :
  isFullyUpgraded learned c = Valid b →
  is_settled c ↔ negb (has c ClusterConditionUpgrading) && negb (has c ClusterConditionMigrating) && b = true.
Proof.
  intros Hb. apply isFullyUpgraded_valid in Hb as (w&Hw&Hb). unfold is_settled.
  rewrite !andb_true_iff, !negb_true_iff, Hb. split; [|naive_solver].
  intros (?&?&w'&Hw'&?). rewrite Hw in Hw'. naive_solver.
Qed.

Lemma isFullyUpgraded_ok c :
  (∃ b, isFullyUpgraded learned c = Valid b) ↔ is_ok (CouchbaseImageVersion learned (spec_image c)) = true.
Proof.
  unfold isFullyUpgraded, CouchbaseVersion. destruct (CouchbaseImageVersion learned (spec_image c)); cbn; naive_solver.
Qed.

Lemma checkImmutableImage_iff current updated :
  checkImmutableImage learned current updated = Valid tt ↔ image_change current updated.
Proof.
  unfold checkImmutableImage. case_bool_decide as Hsame; [by split; [constructor|]|].
  unfold CouchbaseVersion. destruct (CouchbaseImageVersion learned (spec_image updated)) as [v|e|] eqn:Hv; cbn.
  2,3: split; [done|intros []; congruence].
  destruct (VersionKnown v) eqn:Hknown; cbn; [|by split; [econstructor 2|]].
  destruct (isFullyUpgraded learned current) as [b|e|] eqn:Hfull; cbn.
  2,3: assert (is_ok (CouchbaseImageVersion learned (spec_image current)) ≠ true) as Hno
         by (rewrite <- isFullyUpgraded_ok; intros [??]; congruence);
       split; [done|intros Hc; destruct Hc as [|v' ? ?|v' w t ? ? (?&?&w'&Hw'&?)|v' ? ? ? ? ?]; try congruence];
       destruct Hno; first [by rewrite Hw'|done].
  pose proof (settled_iff _ _ Hfull) as Hset. destruct (negb _ && _ && b) eqn:Hidle.
  - rewrite checkClusterVersionUpgradePath_iff. split.
    + intros (w&t&?&?&?). econstructor 3; eauto. by apply Hset.
    + intros []; try congruence; [|naive_solver]. eauto.
  - assert (is_ok (CouchbaseImageVersion learned (spec_image current)) = true) as Hok by (apply isFullyUpgraded_ok; eauto).
    case_bool_decide as Hroll.
    + split; [done|]. intros []; try congruence. naive_solver.
    + split; [|done]. intros _. econstructor 4; eauto; naive_solver.
Qed.

Lemma NewVersion_no_panic v : NewVersion learned v ≠ Panic.
Proof. unfold NewVersion. destruct (bool_decide _); [done|]. by repeat case_match. Qed.

Lemma before76_spec tag : ∃ b, before76 learned tag = Valid b ∧ (b = false ↔ VersionAfter learned tag "7.6.0" = Ok true).
Proof.
  unfold before76. assert (VersionAfter learned tag "7.6.0" ≠ Panic) as Hp.
  { unfold VersionAfter. pose proof (NewVersion_no_panic tag). pose proof (NewVersion_no_panic "7.6.0").
    destruct (NewVersion learned tag), (NewVersion learned "7.6.0"); done. }
  destruct (VersionAfter learned tag "7.6.0") as [[]| |]; [..|done]; eexists; by split.
Qed.

(** A class has the services it had, in any order; the admin service, and a class of
    arbiters, only when no class runs a version before 7.6.0. *)
Definition services_kept current updated : Prop := ∀ cur, cur ∈ servers current →
  ∃ tag, CouchbaseImageVersion learned (ServerClassCouchbaseImage (rs_Spec (r_Spec current)) (Some cur)) = Ok tag ∧
    ∀ up, up ∈ servers updated →
      (sc_Name cur = sc_Name up → sc_Services cur ≡ₚ sc_Services up) ∧
      (VersionAfter learned tag "7.6.0" ≠ Ok true → (AdminService ∉ sc_Services up) ∧ sc_Services up ≠ []).

Lemma class_errors_nil cur b i up :
  class_errors cur b i up = [] ↔
  (sc_Name cur = sc_Name up → sc_Services cur ≡ₚ sc_Services up) ∧
  (b = true → (AdminService ∉ sc_Services up) ∧ sc_Services up ≠ []).
Proof.
  unfold class_errors. rewrite <- StringArrayCompare_spec, <- ServiceList.Contains_spec.
  destruct (StringArrayCompare _ _), (bool_decide_reflect (sc_Name cur = sc_Name up)); cbn;
    try (split; [done|naive_solver]).
  all: destruct b; cbn; [|by split; [split|]].
  all: destruct (ServiceList.Contains _ _); cbn; [split; [done|naive_solver]|].
  all: destruct (sc_Services up); cbn; naive_solver.
Qed.

Lemma checkImmutableServerClass_iff current updated :
  checkImmutableServerClass learned current updated = Valid tt ↔ services_kept current updated.
Proof.
  unfold checkImmutableServerClass, services_kept, CouchbaseVersion. rewrite bind_valid. setoid_rewrite composite_valid.
  transitivity (∀ j cur, servers current !! j = Some cur →
    (tag ← from (CouchbaseImageVersion learned (ServerClassCouchbaseImage (rs_Spec (r_Spec current)) (Some cur)));
     b ← before76 learned tag;
     Valid (concat (imap (class_errors cur b) (servers updated)))) = Valid []).
  { etransitivity; [|apply (collect_nil (λ _ cur,
      tag ← from (CouchbaseImageVersion learned (ServerClassCouchbaseImage (rs_Spec (r_Spec current)) (Some cur)));
      b ← before76 learned tag;
      Valid (concat (imap (class_errors cur b) (servers updated)))) _ 0%nat)].
    split; [by intros (?&?&->)|eauto]. }
  assert (∀ cur b, concat (imap (class_errors cur b) (servers updated)) = [] ↔
    ∀ up, up ∈ servers updated →
      (sc_Name cur = sc_Name up → sc_Services cur ≡ₚ sc_Services up) ∧
      (b = true → (AdminService ∉ sc_Services up) ∧ sc_Services up ≠ [])) as Herr.
  { intros cur b. rewrite concat_nil, Forall_lookup. setoid_rewrite list_lookup_imap. split.
    - intros Hall up Hup. apply list_elem_of_lookup in Hup as [i Hi]. apply (class_errors_nil cur b i).
      apply (Hall i). by rewrite Hi.
    - intros Hall i x. destruct (servers updated !! i) as [up|] eqn:Hi; [|done]. intros [= <-].
      apply class_errors_nil, Hall. by eapply list_elem_of_lookup_2. }
  split.
  - intros Hall cur Hcur. apply list_elem_of_lookup in Hcur as [j Hj]. specialize (Hall j cur Hj).
    apply bind_valid in Hall as (tag&Htag&Hall). apply from_valid in Htag. exists tag. split; [done|].
    destruct (before76_spec tag) as (b&Hb&Hv). rewrite Hb in Hall. cbn in Hall. injection Hall as Hall.
    rewrite Herr in Hall. intros up Hup. destruct (Hall up Hup) as [? Hadm]. split; [done|].
    intros Hn. apply Hadm. destruct b; [done|]. naive_solver.
  - intros Hall j cur Hj. destruct (Hall cur) as (tag&Htag&Hup); [by eapply list_elem_of_lookup_2|].
    apply bind_valid. exists tag. split; [by apply from_valid|].
    destruct (before76_spec tag) as (b&->&Hv). cbn. f_equal. apply Herr. intros up Hin.
    destruct (Hup up Hin) as [? Hadm]. split; [done|]. intros ->. apply Hadm. naive_solver.
Qed.

(** No volume that may be expanded shrinks. *)
Definition volumes_kept current updated : Prop := ∀ template, template ∈ VolumeClaimTemplates (rs_Storage (r_Spec updated)) →
  IsVolumeExpansionEnabled (rs_Spec (r_Spec updated)) (ct_Annotations template) = true →
  ∀ old q q', GetVolumeClaimTemplate (rs_Storage (r_Spec current)) (ct_Name template) = Some old →
    storage_request old = Some q → storage_request template = Some q' → q ≤ q'.

Lemma checkImmutableVolumeTemplateSize_iff current updated :
  checkImmutableVolumeTemplateSize current updated = Valid tt ↔ volumes_kept current updated.
Proof.
  unfold checkImmutableVolumeTemplateSize, volumes_kept. rewrite composite_valid, concat_nil, Forall_fmap, Forall_forall.
  assert (∀ template, template_errors current updated template = [] ↔
    (IsVolumeExpansionEnabled (rs_Spec (r_Spec updated)) (ct_Annotations template) = true →
     ∀ old q q', GetVolumeClaimTemplate (rs_Storage (r_Spec current)) (ct_Name template) = Some old →
      storage_request old = Some q → storage_request template = Some q' → q ≤ q')) as Ht; [|by setoid_rewrite <- Ht].
  intros template. unfold template_errors. destruct (IsVolumeExpansionEnabled _ _); cbn; [|by split].
  destruct (GetVolumeClaimTemplate _ _) as [old|]; [|naive_solver].
  destruct (storage_request old) as [q|] eqn:Hq; [|split; [intros _ _ ??? [= <-] ?; congruence|done]].
  destruct (storage_request template) as [q'|]; [|split; [by intros _ _ ??? _ _|done]].
  case_bool_decide; (split; [try done|]).
  - intros Hall. specialize (Hall eq_refl _ _ _ eq_refl Hq eq_refl). lia.
  - intros _ _ ??? [= <-] Hq' [= <-]. rewrite Hq in Hq'. injection Hq' as <-. lia.
  - done.
Qed.

Definition index_storage_kept current updated : Prop :=
  IsIndexerEnabled (r_object updated) = true →
  index_storage current = index_storage updated ∨ IsInIndexMismatchErrorState current = true.

Lemma checkImmutableIndexStorage_iff current updated :
  checkImmutableIndexStorage current updated = Valid tt ↔ index_storage_kept current updated.
Proof.
  unfold checkImmutableIndexStorage, index_storage_kept. destruct (IsIndexerEnabled _); cbn; [|by split].
  case_bool_decide; cbn; destruct (IsInIndexMismatchErrorState current); cbn; naive_solver.
Qed.
End kept.

(** C15: Without the annotation that turns validation off, [CheckImmutableFields] accepts an
    update exactly when every server class keeps its services (in any order), no service
    needs 7.6.0 on an older class, the storage mode of indexes stays (but to repair the
    mismatch a migration ended in), no volume that can be expanded shrinks, and the image
    stays, or goes to a version nobody knows, or along an upgrade path of a cluster that
    is settled, or of one that is not back to the version it has. *)
Theorem CheckImmutableFields_iff `{Environment} `{Validator} learned (current updated : Resource)
    (Hskip : checkAnnotationSkipValidation (r_Annotations updated) = false) :
  CheckImmutableFields learned current updated = Valid tt ↔
  services_kept learned current updated ∧ index_storage_kept current updated ∧
  image_change learned current updated ∧ volumes_kept current updated.
Proof.
  unfold CheckImmutableFields. rewrite Hskip, bind_valid. setoid_rewrite composite_valid.
  rewrite <- checkImmutableServerClass_iff, <- checkImmutableIndexStorage_iff, <- checkImmutableImage_iff,
    <- checkImmutableVolumeTemplateSize_iff.
  rewrite gather_solid, !Forall_cons, Forall_nil; [tauto|].
  repeat apply Forall_cons_2; [..|apply Forall_nil_2]; try apply solid_composite.
  - apply solid_bind; [apply solid_collect; intros _ cur|intros; apply solid_composite].
    apply solid_bind; [apply solid_from|]. intros tag. destruct (before76_spec learned tag) as (b&->&_). done.
  - unfold checkImmutableIndexStorage. intros e. by repeat case_match; intros [= <-].
  - unfold checkImmutableImage, isFullyUpgraded, checkClusterVersionUpgradePath, CouchbaseVersion.
    case_bool_decide; [done|]. apply solid_bind; [apply solid_from|]. intros v.
    destruct (negb _); [done|]. apply solid_bind; [apply solid_bind; [apply solid_from|done]|]. intros b.
    destruct (_ && _ && b); [|by case_bool_decide; intros ? [= <-]].
    repeat (apply solid_bind; [apply solid_from|intros]). apply solid_from.
Qed.

(** ** Hibernation *)

(** C16: While a cluster sleeps - and has run, and is not woken by the same update - the
    only changes accepted are those of the image, of the wish to sleep, and of a
    number of pods to keep on the previous version, which may only go down. *)
Theorem checkChangeConstraintsHibernate_iff `{Environment} (current updated : Resource)
    (Hasleep : has current ClusterConditionHibernating = true)
    (Hrun : HasNeverRun (r_object current) = false)
    (Hstays : cs_Hibernate (rs_Spec (r_Spec current)) = true → cs_Hibernate (rs_Spec (r_Spec updated)) = true) :
  checkChangeConstraintsHibernate current updated = Valid tt ↔
  ∃ image hibernate upgrade,
    r_Spec updated = with_rs_Spec (set_Upgrade upgrade (set_Hibernate_Image hibernate image (rs_Spec (r_Spec current))))
      (r_Spec current) ∧
    (upgrade = cs_Upgrade (rs_Spec (r_Spec current)) ∨
     ∃ u n, cs_Upgrade (rs_Spec (r_Spec current)) = Some u ∧ upgrade = Some (set_PreviousVersionPodCount n u) ∧
       n ≤ us_PreviousVersionPodCount u).
Proof.
  unfold checkChangeConstraintsHibernate. rewrite Hasleep, Hrun. cbn [negb].
  destruct (cs_Hibernate (rs_Spec (r_Spec current)) && negb (cs_Hibernate (rs_Spec (r_Spec updated)))) eqn:Hwake.
  { apply andb_true_iff in Hwake as [Hc Hu]. rewrite (Hstays Hc) in Hu. done. }
  transitivity (r_Spec updated = with_rs_Spec (normalised (rs_Spec (r_Spec current)) (rs_Spec (r_Spec updated))) (r_Spec current)).
  { case_bool_decide as Hb; (split; [intros Hv|intros Heq]); [done|by destruct Hb|done|done]. }
  destruct current as [?? ? ? ? ? [cur ???????????] ???], updated as [?? ? ? ? ? [upd ???????????] ???]. cbn in *.
  unfold with_rs_Spec. cbn. split.
  - intros [= Hupd -> -> -> -> -> -> -> -> -> -> ->].
    exists (cs_Image upd), (cs_Hibernate upd), (cs_Upgrade upd). unfold normalised in Hupd.
    destruct cur as [??????????[u|] ????], upd as [??????????[u'|] ????]; cbn in *; try case_bool_decide;
      injection Hupd; intros; subst; try discriminate; (split; [done|]);
      first [by left|right; eexists _, (us_PreviousVersionPodCount u'); split_and!; [reflexivity|congruence|lia]].
  - intros (image&hibernate&upgrade&[= -> -> -> -> -> -> -> -> -> -> -> ->]&Hu). f_equal.
    unfold normalised. destruct cur as [??????????[u|] ????]; cbn in *.
    + destruct Hu as [->|(u'&n&[= <-]&->&Hle)]; cbn.
      * rewrite bool_decide_eq_true_2 by lia. by destruct u.
      * by rewrite bool_decide_eq_true_2 by lia.
    + by destruct Hu as [->|(?&?&[=]&?)].
Qed.

(** ** Pods on the previous version *)

(** During an upgrade the number of pods to keep on the previous version may grow only
    with the cluster: an update is accepted exactly when it does not raise it, or no fewer
    pods are left for the new version than before. *)
Theorem checkChangeConstraintsPreviousVersionPodCount_iff (prev curr : Resource)
    (Hmixed : has curr ClusterConditionMixedMode = true ∨ has curr ClusterConditionUpgrading = true)
    (Hsize : Forall (λ r, 0 ≤ TotalSize (rs_Spec (r_Spec r)) < 2 ^ 31 ∧ 0 ≤ pod_count r < 2 ^ 31) [prev; curr]) :
  checkChangeConstraintsPreviousVersionPodCount prev curr = Valid tt ↔
  pod_count curr ≤ pod_count prev ∨
  TotalSize (rs_Spec (r_Spec prev)) - pod_count prev ≤ TotalSize (rs_Spec (r_Spec curr)) - pod_count curr.
Proof.
  apply Forall_cons in Hsize as [Hp Hsize]. apply Forall_cons in Hsize as [Hc _].
  unfold checkChangeConstraintsPreviousVersionPodCount.
  assert (negb (has curr ClusterConditionMixedMode) && negb (has curr ClusterConditionUpgrading) = false) as ->.
  { destruct Hmixed as [-> | ->]; [done|by rewrite andb_false_r]. }
  case_bool_decide; [by split; [left|]|].
  rewrite !wrap64_id by (unfold MinInt, MaxInt; lia).
  case_bool_decide; [split; [done|lia]|]. case_bool_decide; split; try done; lia.
Qed.

(** ** Buckets of a cluster that leaves migration mode

    The bucket made from the status is never one of samples, so a bucket that is asked for
    as one counts as changed. *)
Lemma sample_bucket_blocks_leaving `{Environment} `{Validator} learned status (requested populated : CouchbaseBucket) cluster
    (Hplain : PopulateBucket (BucketStatusToCouchbaseBucket status) = Ok (BucketStatusToCouchbaseBucket status))
    (Hpop : PopulateBucket requested = Ok populated)
    (Hskip : checkAnnotationSkipValidation (b_Annotations populated) = false)
    (Hsample : SampleBucket (b_Backend populated) = true) :
  CheckChangeConstraintsBucket learned (BucketStatusToCouchbaseBucket status) requested (Some cluster) ≠ Valid tt.
Proof.
  unfold CheckChangeConstraintsBucket. rewrite Hplain, Hpop. cbn [from mbind V_bind]. rewrite Hskip, Hsample. cbn [b_Backend BucketStatusToCouchbaseBucket SampleBucket negb andb app].
  intros Hv. apply bind_valid in Hv as (errs&_&Hv). by apply composite_valid in Hv.
Qed.

(** ** Examples *)
#[local] Instance example_environment : Environment := λ _, None.
#[local] Instance example_validator : Validator := {|
  GetCouchbaseBuckets _ _ := Ok []; GetCouchbaseEphemeralBuckets _ _ := Ok [];
  GetCouchbaseMemcachedBuckets _ _ := Ok []; GetCouchbaseClusters _ := Ok [];
  GetCouchbaseUsers _ _ := Ok []; GetCouchbaseCollections _ := Ok []; GetCouchbaseCollectionGroups _ := Ok [];
  AsMatcher _ := Ok (λ _ _, true); PopulateCluster spec _ := (spec, None);
  PopulateBucket := Ok; PopulateEphemeral := Ok |}.

Definition example_class (name : string) (size : Z) (services : list Service) : ServerConfig := {|
  sc_Size := size; sc_Name := name; sc_Services := services; sc_ServerGroups := []; sc_VolumeMounts := None;
  sc_Image := ""; sc_NodeSelector := None; sc_AutoscaleEnabled := false |}.

Definition example_upgrade (count : Z) : UpgradeSpec := {|
  us_UpgradeProcess := ""; us_UpgradeStrategy := ""; us_StabilizationPeriod := None; us_RollingUpgrade := None;
  us_PreviousVersionPodCount := count; us_UpgradeOrderType := ""; us_UpgradeOrder := [];
  us_SwapRebalanceIndexServiceUpgrades := None; us_RollbackMethod := "" |}.

Definition example_cluster_spec (image : string) (size count : Z) (services : list Service) (hibernate : bool) : ClusterSpec := {|
  cs_Image := image; cs_EnvImagePrecedence := false; cs_Servers := [example_class "data" size services];
  cs_ServerGroups := []; cs_ServerGroupsLabelOverride := ""; cs_ShuffleServerGroups := false;
  cs_RecoveryPolicy := None; cs_UpgradeProcess := None; cs_UpgradeStrategy := None; cs_RollingUpgrade := None;
  cs_Upgrade := Some (example_upgrade count); cs_EnableOnlineVolumeExpansion := true;
  cs_UnmanagedClusterHost := None; cs_Paused := false; cs_Hibernate := hibernate |}.

Definition example_status (version : string) (conditions : list ClusterConditionType) : ClusterStatus := {|
  st_ControlPaused := false;
  st_Conditions := (λ t, {| cc_Type := t; cc_Status := ConditionTrue; cc_LastUpdateTime := "";
                            cc_LastTransitionTime := ""; cc_Reason := ""; cc_Message := "" |}) <$> conditions;
  st_ClusterID := "id"; st_Size := 3; st_CurrentVersion := version; st_RebalanceAttempts := 0;
  st_HibernatedWithMemcachedBuckets := None; st_Members := None; st_Autoscalers := []; st_LastUpdateTime := "" |}.

Definition example_resource (annotations : gmap string string) (spec : ClusterSpec) (status : ClusterStatus) : Resource :=
  mkResource "ns" "cb" "uid" 1 annotations ""
    (mkResourceSpec spec (mkStorageSpec [] "" None None) "memory_optimized" None None false true None "" true None "")
    status [] "".

Lemma CheckImmutableFields_iff_witness :
  let current := example_resource ∅ (example_cluster_spec "couchbase/server:7.2.4" 3 0 ["data"; "index"] false) (example_status "7.2.4" []) in
  let updated := example_resource ∅ (example_cluster_spec "couchbase/server:7.6.2" 4 0 ["index"; "data"] false) (example_status "7.2.4" []) in
  CheckImmutableFields ∅ current updated = Valid tt ∧ services_kept ∅ current updated ∧ image_change ∅ current updated.
Proof.
  intros current updated.
  assert (CheckImmutableFields ∅ current updated = Valid tt) as Hok by (vm_compute; reflexivity).
  split; [exact Hok|]. apply CheckImmutableFields_iff in Hok; [|vm_compute; reflexivity].
  destruct Hok as (Hs&_&Hi&_). split; assumption.
Defined.

Lemma checkChangeConstraintsHibernate_iff_witness :
  let current := example_resource ∅ (example_cluster_spec "couchbase/server:7.2.4" 3 2 ["data"] true)
                   (example_status "7.2.4" [ClusterConditionHibernating]) in
  let updated := example_resource ∅ (example_cluster_spec "couchbase/server:7.6.2" 3 1 ["data"] true)
                   (example_status "7.2.4" [ClusterConditionHibernating]) in
  let larger := example_resource ∅ (example_cluster_spec "couchbase/server:7.2.4" 4 2 ["data"] true)
                   (example_status "7.2.4" [ClusterConditionHibernating]) in
  checkChangeConstraintsHibernate current updated = Valid tt ∧ checkChangeConstraintsHibernate current larger ≠ Valid tt.
Proof.
  intros current updated larger. split.
  - apply (checkChangeConstraintsHibernate_iff current updated); [vm_compute; reflexivity..|].
    exists "couchbase/server:7.6.2", true, (Some (example_upgrade 1)). split; [vm_compute; reflexivity|].
    right. exists (example_upgrade 2), 1. split; [reflexivity|]. split; [reflexivity|]. simpl. lia.
  - intros Hv. apply (checkChangeConstraintsHibernate_iff current larger) in Hv; [|vm_compute; reflexivity..].
    destruct Hv as (image&hibernate&upgrade&Heq&_). vm_compute in Heq. discriminate Heq.
Defined.

Lemma checkChangeConstraintsPreviousVersionPodCount_iff_witness :
  let at_size size count := example_resource ∅ (example_cluster_spec "couchbase/server:7.6.2" size count ["data"] false)
                   (example_status "7.2.4" [ClusterConditionUpgrading]) in
  checkChangeConstraintsPreviousVersionPodCount (at_size 3 1) (at_size 5 3) = Valid tt ∧
  checkChangeConstraintsPreviousVersionPodCount (at_size 3 1) (at_size 4 3) ≠ Valid tt.
Proof.
  intros at_size. split.
  - apply checkChangeConstraintsPreviousVersionPodCount_iff; [right; vm_compute; reflexivity| |].
    + repeat constructor; vm_compute; congruence.
    + right. vm_compute. congruence.
  - intros Hv. apply checkChangeConstraintsPreviousVersionPodCount_iff in Hv; [|right; vm_compute; reflexivity|].
    + destruct Hv as [Hv|Hv]; vm_compute in Hv; congruence.
    + repeat constructor; vm_compute; congruence.
Defined.
