(* ===== verification/ControllerSpec.v ===== *)
(** * What the operator does about an event: specification

    In the life of an operator every round has an object whose image follows from what the
    operator has in memory, which is that of the round before, by a change that is allowed. *)

From S2P Require Import Prelude Effects GoLib Digests Version UpgradePath Api Status Pods.
From S2P Require Import Machine Baseline Buckets Claims Admission AdmissionSpec Controller.
Local Open Scope Z_scope.

(** The field of the image has no annotation, and nothing the operator does to an object in
    memory is about it. *)
Class OperatorLaws `{Validator} `{Operator} := {
  PopulateCluster_image spec annotations :
    cs_Image (rs_Spec (PopulateCluster spec annotations).1) = cs_Image (rs_Spec spec);
  RunReconcile_image m : spec_image (mg_cluster (RunReconcile m)) = spec_image (mg_cluster m);
  updateCRStatus_image m : spec_image (mg_cluster (updateCRStatus m)) = spec_image (mg_cluster m);
  ReconcileMirWatchdogContext_image m :
    spec_image (mg_cluster (ReconcileMirWatchdogContext m)) = spec_image (mg_cluster m);
}.

(** The object of the last round of a cluster that is still managed. *)
Definition last_run (key : string) (l : list Action) : option Resource :=
  fold_left (λ last a,
    match a with
    | Reconciled key' r => if bool_decide (key' = key) then Some r else last
    | Deleted key' => if bool_decide (key' = key) then None else last
    | SpecAnnotated _ _ => last
    end) l None.
Arguments last_run : simpl never.

Section history.
Context `{Environment} `{!Validator} `{!Operator} `{!OperatorLaws}.

(** The image of a round with [r], when [submitted] is seen and [old] is what the operator
    has: the old one; or that of [submitted], with validation switched off by the
    annotation, or as the check of the fields that may not change allows. *)
Definition follows (learned : gmap string string) (old submitted r : Resource) : Prop :=
  spec_image r = spec_image old ∨
  spec_image r = spec_image submitted ∧ (skips_validation submitted = true ∨ image_change learned old submitted).

(** The same when a cluster is taken up that the operator does not have: what it has is
    the specification of the annotation, if there is one. *)
Definition taken_up (learned : gmap string string) (c r : Resource) : Prop :=
  match GetSpecFromAnnotation c with
  | Some existingSpec => follows learned (with_r_Spec existingSpec c) c r
  | None => spec_image r = spec_image c
  end.

(** What a round that the event [fetched] about [key] leads to is made with. *)
Definition round_follows (learned : gmap string string) (key : string) (fetched : result (option Resource))
    (k : Controller) (r : Resource) : Prop :=
  ∃ submitted, fetched = Ok (Some submitted) ∧
    match clusters k !! key with
    | Some m =>
        if bool_decide (r_UID (mg_cluster m) = r_UID submitted)
        then follows learned (mg_cluster (ReconcileMirWatchdogContext m)) submitted r
        else ∃ c, New submitted = Some c ∧ taken_up learned (mg_cluster c) r
    | None => ∃ c, New submitted = Some c ∧ taken_up learned (mg_cluster c) r
    end.

(** One life of the operator: it starts with no cluster and sees events. *)
Inductive reachable : Controller → Prop :=
  | reachable_start : reachable (mkController ∅ [])
  | reachable_event learned key fetched k k' :
      reachable k → Reconcile learned key fetched k = Some k' → reachable k'.

(** What is in memory has the image of the last round. *)
Definition inv (k : Controller) : Prop :=
  ∀ key r0, last_run key (actions k) = Some r0 →
    ∃ m, clusters k !! key = Some m ∧ spec_image (mg_cluster m) = spec_image r0.

Lemma last_run_snoc key l a :
  last_run key (l ++ [a]) =
  match a with
  | Reconciled key' r => if bool_decide (key' = key) then Some r else last_run key l
  | Deleted key' => if bool_decide (key' = key) then None else last_run key l
  | SpecAnnotated _ _ => last_run key l
  end.
Proof. unfold last_run. by rewrite fold_left_app. Qed.

(** ** The steps

    A step from [k0] to [k]: the invariant holds again, and the rounds in between satisfy
    [P]. *)
Definition rounds (key : string) (P : Resource → Prop) (k0 k : Controller) : Prop :=
  inv k ∧ ∃ l, actions k = actions k0 ++ l ∧ ∀ key' r, Reconciled key' r ∈ l → key' = key ∧ P r.

Lemma rounds_start key P k : inv k → rounds key P k k.
Proof. intros Hi. split; [done|]. exists []. rewrite app_nil_r. split; [done|]. intros ?? Hin. by apply not_elem_of_nil in Hin. Qed.

Lemma rounds_store key P m k0 k :
  rounds key P k0 k → (∀ r0, last_run key (actions k) = Some r0 → spec_image (mg_cluster m) = spec_image r0) →
  rounds key P k0 (Store key m k).
Proof.
  intros [Hi Hl] Hm. split; [|done]. intros key' r0 Hlast. cbn in *.
  destruct (decide (key = key')) as [->|Hne]; [rewrite lookup_insert_eq|rewrite lookup_insert_ne by done]; eauto.
Qed.

Lemma rounds_run key (P : Resource → Prop) m k0 k :
  rounds key P k0 k → P (mg_cluster m) → rounds key P k0 (run key m k).
Proof.
  intros [Hi (l&Hl&Hp)] Hm. split.
  - unfold run. intros key' r0. cbn. rewrite last_run_snoc. case_bool_decide as Hk.
    + subst. intros [= <-]. rewrite lookup_insert_eq. eexists. split; [done|]. apply RunReconcile_image.
    + rewrite lookup_insert_ne by done. apply Hi.
  - exists (l ++ [Reconciled key (mg_cluster m)]). cbn. rewrite Hl, app_assoc. split; [done|].
    intros key' r [Hin|Hin]%elem_of_app; [by apply Hp|]. apply list_elem_of_singleton in Hin. by injection Hin as -> ->.
Qed.

Lemma rounds_drop key P k0 k : rounds key P k0 k → rounds key P k0 (drop key k).
Proof.
  intros [Hi (l&Hl&Hp)]. split.
  - unfold drop. intros key' r0. cbn. rewrite last_run_snoc.
    case_bool_decide; [done|]. rewrite lookup_delete_ne by done. apply Hi.
  - exists (l ++ [Deleted key]). cbn. rewrite Hl, app_assoc. split; [done|].
    intros key' r [Hin|Hin]%elem_of_app; [by apply Hp|]. by apply list_elem_of_singleton in Hin.
Qed.

Lemma rounds_annotated key P spec k0 k : rounds key P k0 k → rounds key P k0 (did (SpecAnnotated key spec) k).
Proof.
  intros [Hi (l&Hl&Hp)]. split.
  - intros key' r0. cbn. rewrite last_run_snoc. apply Hi.
  - exists (l ++ [SpecAnnotated key spec]). cbn. rewrite Hl, app_assoc. split; [done|].
    intros key' r [Hin|Hin]%elem_of_app; [by apply Hp|]. by apply list_elem_of_singleton in Hin.
Qed.

Lemma last_run_drop key k : last_run key (actions (drop key k)) = None.
Proof. unfold drop. cbn. rewrite last_run_snoc. by rewrite bool_decide_eq_true_2. Qed.

(** ** The checks *)
Lemma on_status_image f r : spec_image (on_status f r) = spec_image r.
Proof. done. Qed.

Lemma validated_checked r : checkAnnotationSkipValidation (r_Annotations (validated r)) = false.
Proof.
  unfold checkAnnotationSkipValidation, checkAnnotationTrue, validated, AddAnnotation. cbn.
  by rewrite lookup_insert_eq.
Qed.

Lemma CheckChangeConstraintsCluster_image learned prev curr prev' curr' v :
  CheckChangeConstraintsCluster learned prev curr = (prev', curr', v) →
  spec_image prev' = spec_image prev ∧ spec_image curr' = spec_image curr ∧ r_Annotations curr' = r_Annotations curr.
Proof.
  unfold CheckChangeConstraintsCluster.
  pose proof (PopulateCluster_image (r_Spec prev) (r_Annotations prev)) as Hp.
  pose proof (PopulateCluster_image (r_Spec curr) (r_Annotations curr)) as Hc.
  destruct (PopulateCluster (r_Spec prev) _) as [sp [e|]]; [by intros [= <- <- <-]|].
  destruct (PopulateCluster (r_Spec curr) _) as [sc [e|]]; by intros [= <- <- <-].
Qed.

Lemma validated_skips r : skips_validation (validated r) = skips_validation r.
Proof. unfold skips_validation, checkAnnotationTrue, validated, AddAnnotation. cbn. by rewrite lookup_insert_ne. Qed.

Lemma CheckCouchbaseClusterResourceUpdate_image learned update cluster cluster' update' v :
  CheckCouchbaseClusterResourceUpdate learned update cluster = (cluster', update', v) →
  spec_image cluster' = spec_image cluster ∧ spec_image update' = spec_image update ∧
  skips_validation update' = skips_validation update.
Proof.
  unfold CheckCouchbaseClusterResourceUpdate. destruct (skips_validation update) eqn:Hs; [by intros [= <- <- <-]|].
  case_bool_decide; [by intros [= <- <- <-]|].
  destruct (CheckChangeConstraintsCluster _ _ _) as [[c u] w] eqn:Hc. intros [= <- <- _].
  apply CheckChangeConstraintsCluster_image in Hc as (?&Hu&Ha). split; [done|]. split; [by rewrite Hu|].
  rewrite <- Hs, <- (validated_skips update). unfold skips_validation. by rewrite Ha.
Qed.

(** The annotation that the checks add is not looked at by them. *)
Lemma image_change_validated learned old new : image_change learned old (validated new) → image_change learned old new.
Proof.
  intros [Hsame|v Hv ?|v w t Hv ??? Ht Hp|v Hv ????]; [by apply image_same|by eapply image_unknown|
    by eapply image_upgrade|by eapply image_rollback].
Qed.

Lemma CheckClusterChangeConstraints_allowed learned current updated current' updated' v :
  CheckClusterChangeConstraints learned current updated = (current', updated', v) →
  spec_image current' = spec_image current ∧ spec_image updated' = spec_image updated ∧
  (v = Valid tt → follows learned current updated updated').
Proof.
  unfold CheckClusterChangeConstraints, CheckCouchbaseClusterResourceImmutableFields, follows.
  destruct (skips_validation updated) eqn:Hs.
  - intros Hu. apply CheckCouchbaseClusterResourceUpdate_image in Hu as (?&Hi&Hsk). do 2 (split; [done|]). intros _. right. split; [done|by left].
  - case_bool_decide as Heq.
    + intros Hu. apply CheckCouchbaseClusterResourceUpdate_image in Hu as (?&Hi&_). subst.
      split; [done|]. split; [done|]. intros _. by left.
    + destruct (CheckImmutableFields learned current (validated updated)) as [[]|e|] eqn:Hf; [|by intros [= <- <- <-]..].
      intros Hu. apply CheckCouchbaseClusterResourceUpdate_image in Hu as (?&Hi&_). split; [done|]. split; [done|].
      intros _. right. split; [done|]. right. apply image_change_validated.
      apply CheckImmutableFields_iff in Hf; [|apply validated_checked]. tauto.
Qed.

(** An object after the checks, and before the annotations are applied, is as good. *)
Lemma follows_image learned old submitted submitted' r r' v :
  CheckCouchbaseClusterResource submitted = (submitted', v) →
  spec_image r' = spec_image r → follows learned old submitted' r → follows learned old submitted r'.
Proof.
  unfold CheckCouchbaseClusterResource, follows. destruct (skips_validation submitted) eqn:E; intros [= <- _] Hr; rewrite Hr.
  - by rewrite E.
  - rewrite validated_skips. intros [Hsame|[Hnew Hc]]; [by left|]. right. split; [exact Hnew|].
    destruct Hc as [Hskip|Hc]; [by rewrite E in Hskip|]. right. by apply image_change_validated.
Qed.

Lemma resumed_image learned c c' : resumed learned c = Some c' → taken_up learned (mg_cluster c) (mg_cluster c').
Proof.
  unfold resumed, taken_up. destruct (GetSpecFromAnnotation (mg_cluster c)) as [spec|]; [|by intros [= <-]].
  destruct (CheckClusterChangeConstraints _ _ _) as [[existing updated] v] eqn:Hc.
  apply CheckClusterChangeConstraints_allowed in Hc as (He&_&Hall).
  destruct v as [[]|e|]; [| |done]; intros [= <-]; [by apply Hall|by left].
Qed.

Lemma rounds_new learned key couchbase (P : Resource → Prop) k0 k k' :
  rounds key P k0 k → last_run key (actions k) = None →
  (∀ c r, New couchbase = Some c → taken_up learned (mg_cluster c) r → P r) →
  reconcile_new learned key couchbase k = Some k' → rounds key P k0 k'.
Proof.
  intros Hr Hnone Hp. unfold reconcile_new. destruct (New couchbase) as [c|] eqn:Hn; [|by intros [= <-]].
  destruct ((CheckCouchbaseClusterResource couchbase).2) as [u|e|]; [| |done].
  - intros Hc. apply bind_Some in Hc as (c'&Hc&[= <-]). apply rounds_run; [done|]. eapply Hp; [done|].
    by apply resumed_image.
  - intros [= <-]. apply rounds_store; [done|]. intros r0. by rewrite Hnone.
Qed.

Lemma rounds_known learned key m couchbase (P : Resource → Prop) k k' :
  inv k → clusters k !! key = Some m →
  (∀ r, follows learned (mg_cluster (ReconcileMirWatchdogContext m)) couchbase r → P r) →
  reconcile_known learned key m couchbase k = Some k' → rounds key P k k'.
Proof.
  intros Hi Hm Hp. unfold reconcile_known.
  destruct (CheckCouchbaseClusterResource couchbase) as [submitted w] eqn:Hsub.
  assert (∀ r0, last_run key (actions k) = Some r0 → spec_image (mg_cluster m) = spec_image r0) as Hlast.
  { intros r0 Hr. destruct (Hi _ _ Hr) as (m'&Hm'&?). by rewrite Hm in Hm'; injection Hm' as <-. }
  destruct w as [[]|e|]; [| |done].
  2:{ intros [= <-]. apply rounds_store; [by apply rounds_start|]. intros r0 Hr. unfold reconcileFailedValidationCluster.
      rewrite updateCRStatus_image. by apply Hlast. }
  destruct (CheckClusterChangeConstraints learned (mg_cluster (ReconcileMirWatchdogContext m)) submitted) as [[current updated] v] eqn:Hc.
  apply CheckClusterChangeConstraints_allowed in Hc as (Hcur&_&Hall).
  destruct v as [[]|e|]; [| |done]; intros [= <-].
  - unfold Update. case_bool_decide.
    + apply rounds_store; [by apply rounds_annotated, rounds_start|]. cbn [actions did]. intros r0. rewrite last_run_snoc.
      intros Hr. cbn. rewrite on_status_image, Hcur, ReconcileMirWatchdogContext_image. by apply Hlast.
    + apply rounds_run; [by apply rounds_annotated, rounds_start|]. apply Hp.
      apply (follows_image _ _ _ _ updated _ _ Hsub); [apply PopulateCluster_image|by apply Hall].
  - apply rounds_run; [by apply rounds_start|]. apply Hp. by left.
Qed.

Lemma rounds_step learned key fetched k k' :
  inv k → Reconcile learned key fetched k = Some k' → rounds key (round_follows learned key fetched k) k k'.
Proof.
  intros Hi. unfold Reconcile. destruct fetched as [[couchbase|]|e|]; [| |intros [= <-]; by apply rounds_start|done].
  - destruct (clusters k !! key) as [m|] eqn:Hm.
    + case_bool_decide as Huid.
      * apply rounds_new; [by apply rounds_drop, rounds_start|apply last_run_drop|].
        intros c r Hc Ht. exists couchbase. split; [done|]. rewrite Hm, bool_decide_eq_false_2 by done. by exists c.
      * apply rounds_known; [done..|]. intros r Hf. exists couchbase. split; [done|].
        rewrite Hm, bool_decide_eq_true_2 by done. done.
    + apply rounds_new; [by apply rounds_start|..].
      * destruct (last_run key (actions k)) as [r0|] eqn:Hr; [|done]. destruct (Hi _ _ Hr) as (m'&?&_). congruence.
      * intros c r Hc Ht. exists couchbase. split; [done|]. rewrite Hm. by exists c.
  - case_bool_decide; intros [= <-]; [by apply rounds_drop, rounds_start|by apply rounds_start].
Qed.

Lemma reachable_inv k : reachable k → inv k.
Proof.
  induction 1 as [|learned key fetched k k' _ IH Hr]; [by intros ?? ?|]. by apply (rounds_step _ _ _ _ _ IH) in Hr as [? _].
Qed.
End history.


(** ** Examples

    The rules for an object forbid a cluster without servers; the text of a specification is
    that of its image, and three data pods. *)
#[local] Existing Instance example_environment.
#[local] Existing Instance example_validator.

Definition spec_of_image (image : string) : ResourceSpec :=
  r_Spec (example_resource ∅ (example_cluster_spec image 3 0 ["data"] false) (example_status "" [])).

#[local] Instance example_operator : Operator := {|
  New r := Some (mkManaged r (r_Generation r));
  RunReconcile m := m; updateCRStatus m := m; ReconcileMirWatchdogContext m := m;
  CheckConstraints r := if bool_decide (TotalSize (rs_Spec (r_Spec r)) = 0) then Invalid (UpdateError "spec.servers") else Valid tt;
  validateManagedResources _ := []; unmarshal_ResourceSpec image := Some (spec_of_image image);
  verror_Error _ := ""; now := "" |}.

#[local] Instance example_operator_laws : OperatorLaws.
Proof. by split. Qed.

Definition submit (annotations : gmap string string) (image : string) (size : Z) : result (option Resource) :=
  Ok (Some (example_resource annotations (example_cluster_spec image size 0 ["data"] false) (example_status "7.6.2" []))).

(** The images of the rounds of a life with these events. *)
Fixpoint life (events : list (result (option Resource))) (k : Controller) : option Controller :=
  match events with
  | [] => Some k
  | fetched :: events => k ← Reconcile ∅ "ns/cb" fetched k; life events k
  end.

Definition images (k : option Controller) : option (list string) :=
  (λ k, omap (λ a, match a with Reconciled _ r => Some (spec_image r) | _ => None end) (actions k)) <$> k.

Lemma life_reachable events k k' : reachable k → life events k = Some k' → reachable k'.
Proof.
  revert k. induction events as [|fetched events IH]; intros k Hk; cbn; [by intros [= <-]|].
  intros Hl. apply bind_Some in Hl as (k1&H1&Hl). eapply IH; [|done]. by eapply reachable_event.
Qed.

Definition upgrade_and_downgrade : list (result (option Resource)) :=
  [submit ∅ "couchbase/server:7.6.2" 3; submit ∅ "couchbase/server:8.0.0" 3; submit ∅ "couchbase/server:7.2.4" 3].

(** The round after a change that is not allowed: from 8.0.0 back to 7.2.4. *)
Definition upgraded_life : option Controller := life (firstn 2 upgrade_and_downgrade) (mkController ∅ []).
Definition downgrade_event : result (option Resource) := submit ∅ "couchbase/server:7.2.4" 3.


(** After a restart the last specification that was reconciled is in an annotation, and a
    change from it that is not allowed is undone: the old image stays. *)
Definition annotated : gmap string string := {[ AnnotationLastReconciledSpec := "couchbase/server:7.6.2" ]}.

Example restart_checks :
  images (life [submit annotated "couchbase/server:7.2.4" 3] (mkController ∅ [])) = Some ["couchbase/server:7.6.2"].
Proof. vm_compute. reflexivity. Qed.

(** Not so when the object the operator finds is also invalid in itself: the annotation is
    not looked at, and when the object is repaired it is compared with the invalid one, so
    a cluster that has 7.6.2 goes on with 7.2.4. *)
Example restart_with_invalid_object_downgrades :
  images (life [submit annotated "couchbase/server:7.2.4" 0; submit annotated "couchbase/server:7.2.4" 3] (mkController ∅ [])) =
  Some ["couchbase/server:7.2.4"].
Proof. vm_compute. reflexivity. Qed.
